(* ===== verification/_CoqProject ===== *)
-Q . S2P
Prelude.v
CType.v
Hexdump.v
Url.v
Base64.v
Xml.v
QuotedPrintable.v
Escape.v
Utf.v
Hash.v
Mime.v
Match.v
AtExit.v
Privilege.v
Fnmatch.v
Time.v
Strftime.v
Strptime.v
Date.v
Printf.v
Path.v
HashMap.v
Timer.v
Sort.v
Vector.v
Search.v
Memory.v
Cache.v
CacheFacts.v
Probe.v
Cdb.v
CdbFacts.v
Rdb.v
RdbHeap.v
RdbFacts.v
RdbSubst.v
RdbWalk.v
RdbSpec.v
Tokenizer.v
Query.v
QueryFacts.v
QuerySpec.v
UString.v
Json.v
JsonText.v
JsonFacts.v
JsonSpec.v
Urls.v
UrlsSpec.v
