(* ===== verification/Prelude.v ===== *)
(** * ULib: verification development

    ULib is a C++ class library for server programs over a base in C. This development models the parts of it
    that compute - the coders, matchers and formatters of the C base, the containers, the calendar, the
    cache and the databases on mapped files, and the small languages it reads - and proves them right, or says
    exactly when they are not. The parts that only call the operating system or another library are left out;
    they are listed at the end.

    ** How the parts fit together

    The C base is under [src/ulib/base]: [utility.c] and [base.c] with classification, matching, splitting,
    paths, privileges, hashes, time and formatted output, and [coder/] with the coders. The C++ classes are under
    [src/ulib] and [include/ulib]. The containers ([UVector], [UHashMap]) hold pointers; strings are counted
    bytes. The cache ([UCache]) and the databases ([UCDB], and [URDB] with a journal over a [UCDB]) lay their
    tables out in a mapped file and use the hash of the base. [UTokenizer] takes texts apart with the splitting
    functions of the base; the query parser and the JSON values read with it, JSON writes with the escape coder
    and [u__snprintf], and its objects are hash tables. Locators use the coder of their characters. The timers
    keep a sorted list of deadlines.

    The files require each other as the parts call each other: this prelude and [CType] first, then the coders
    and the functions of the base, the containers, [Memory] (blocks of a mapped file), the cache and the
    databases, the tokenizer and the languages on it.

    ** How code becomes definitions

    Bytes are [Z] from 0 to 255, a memory is a list of bytes and a pointer an offset in it; [rd] and [wr] fail
    with [OutOfBounds] outside, so that a theorem that a function gives [Ok] says that it reads and writes
    nothing else. Machine integers wrap explicitly ([u8], [u16], [u32], [u64], [i32], [schar]). A computation is
    of type [res]: a value or a fault, [OutOfBounds] (also for a null pointer that is followed), [OutOfFuel] or
    [Aborted] (the process ends). Objects are records, methods are functions from the object to the new object
    and the result. The release build is modelled: the assertions [U_INTERNAL_ASSERT] of the debug build are
    not checks. The functions of the C library are
    modelled as in the C locale: [tolower] and [strncasecmp] fold the letters of ASCII only, while the program's own
    table [u__tolower], which its hashes use, folds those of Latin-1 too; keys are compared with the first and
    hashed with the second. Calls of the system and of other libraries are parameters of the definitions; what the code
    relies on is a named hypothesis or a type class ([KeyLaws], [CredentialLaws], [NextWord]) with instances.

    Loops that are not structural get fuel: [iterate] runs a step function, and every theorem about such a
    loop says that the fuel given is enough - mostly the length of the memory plus one, since every round moves a
    pointer. Where there is no bound in the text (the normal form of a query, the searches in linked structures)
    the theorem states that some amount of fuel, and every larger one, gives the result.

    ** The files

    Base, in C:
    - [CType]: tables and inline predicates for characters ([base/utility.c], [base/utility.h]);
    - [Hexdump], [Url], [Base64], [Xml], [QuotedPrintable], [Escape]: the coders ([base/coder/c*.c]); decoding
      inverts encoding, within which bounds, and where the codes fall short of their standards;
    - [Utf]: [u_isUTF8], [u_isUTF16] and [u_isBinary] against a definition of UTF-8;
    - [Hash]: [base/hash.c] and the hash of the constant databases; [Mime]: [u_get_mimetype];
    - [Match], [Fnmatch]: [u_dosmatch] and [u_fnmatch] decide a wildcard relation and agree with each other;
    - [Search]: searching, skipping, splitting strings ([u_find], [u_strpend], [u_delimit_token], [u_split]);
    - [AtExit]: the table of exit handlers refines a list; [Privilege]: what ids a process has, over an interface
      of the kernel's calls; [Path]: [u_canonicalize_pathname];
    - [Time], [Strftime], [Strptime]: [gmtime_r], DOS dates, formatting and reading of times;
    - [Printf]: [u__vsnprintf], all its flags and conversions, against a specification of the text.

    Classes, in C++:
    - [Date]: [UTimeDate] ([date.cpp]): Julian days, months, HTTP dates;
    - [HashMap] ([container/hash_map.cpp]), [Vector] ([container/vector.cpp]): every operation, as refinements of
      finite maps and lists; [Sort]: the multikey quicksort and the binary search of vectors of strings;
    - [Timer] ([timer.cpp], [timeval.cpp], [event/event_time.cpp]): the list of alarms, its order in time and its
      firing, for any clock; the order and the firing are exact up to the second that the comparison of deadlines
      can lose, and exact where no microseconds carry;
    - [Memory], [Cache], [CacheFacts] ([cache.cpp]): the ring of entries with exclusive-or links refines a queue;
    - [Probe], [Cdb], [CdbFacts] ([db/cdb.cpp]): making, searching, walking, dumping constant databases;
    - [Rdb], [RdbHeap], [RdbFacts], [RdbSubst], [RdbWalk], [RdbSpec] ([db/rdb.cpp]): the journal as a hash table of
      trees, its operations one by one, the reorganization, and the refinement of a map with transactions;
    - [Tokenizer] ([tokenizer.cpp]): words between separators, words with quotes and groups, tokens of
      expressions; [Query], [QueryFacts], [QuerySpec] ([query/query_parser.cpp]): the parser against a grammar,
      the disjunctive normal form, the evaluation with its table of results;
    - [UString] ([string.cpp], [utility/escape.h]): strings that grow, their capacity and the escape coder on them;
      [Json], [JsonText], [JsonFacts], [JsonSpec] ([json/value.cpp]): values as cells of a store, their strings and
      numbers, the grammar the parser accepts, and that the writer writes it;
    - [Urls], [UrlsSpec] ([url.cpp]): locators as a text with the positions of its parts, which refine the record of
      the parts; the names and values of a query.

    ** What the theorems show

    - Refinement: the hash table, the vector, the exit handlers, the cache, the constant and the record database,
      formatted output, locators and the evaluation of queries do what a finite map, a list, a queue, a text, a record
      or a truth value does, over any sequence of operations, without a fault.
    - Round trips: every coder; the dumps of the cache and of the databases; a record database closed and opened
      again; dates in headers; formatted times; the tokens of expressions; JSON values;
      the names and values of a query.
    - Invariants, safety, liveness: the order of the timers and that alarms fire; that the process has dropped
      its privileges; the well-formed trees of the normal form.
    - Functional behaviour, bounds, termination: matching, sorting, splitting, paths, calendar, text validation.
    - Errors: lemmas under the headings "Where the code does something else" compute what the code does wrong on
      concrete inputs; the hypotheses of the theorems exclude exactly these cases.
      Where the code does not do what its comments say, the specification is that of the comments and the
      case is excluded: operators of expressions ([Tokenizer]), [%e] and [%W] ([Strftime]), the queries, ports and
      users of locators ([UrlsSpec]), the size of a record database after certain calls ([RdbSpec]).

    The bounds in the hypotheses are those of the program: lengths are below [2 ^ 32] because they are [uint32_t];
    a cache fits in its file; a table of query results has [u_buffer]'s 4096 bytes; the instants and
    delays of the timers are below [2 ^ 50] seconds, so that their [long]s do not overflow; dates are those of the
    range the class asserts, up to the year 8000, where its [int]s do not; a search in the wildcard matcher nests at most as deep as [u_fnmatch] allows.

    ** Not modelled

    - Calls of the system: sockets, processes, threads, files and directories, event notification, locks, signals,
      logging ([net/], [process.cpp], [thread.cpp], [command.cpp], [file.cpp], [notifier.cpp], [log.cpp]); the
      server, its plugins and the HTTP code ([uhttp.cpp]), which work on the static state of the server, on sockets
      and on files; the clients of network protocols.
    - Wrappers of libraries: OpenSSL, zlib, expat, libxml2, PCRE, LDAP, libdbi, curl, libmagic, the dynamic loader;
      vendored code ([minilzo], [lemon.c], the [replace/] functions but [strptime] and [gmtime]); code made by a
      parser generator ([lemon/expression.cpp]).
    - The reference counts of [UString], substrings that share memory, and the memory pool: strings are values
      here (in [UString] with their capacity), and the number of entries a table gets is a parameter.
    - [UTree], whose operations are those of [UVector]; the MIME headers, which are substrings that share memory.
    - Debug support, the Windows port, the example programs and the tests. *)

From stdpp Require Export base list strings.
From Stdlib Require Export ZArith Lia Ascii.

#[global] Open Scope Z_scope.

(** Arithmetic stays folded under [simpl], except on constants, which [cbv] and
    [vm_compute] evaluate. *)
#[global] Arguments Z.eqb : simpl nomatch.
#[global] Arguments Z.ltb : simpl never.
#[global] Arguments Z.leb : simpl never.
#[global] Arguments Z.land : simpl never.
#[global] Arguments Z.lor : simpl never.
#[global] Arguments Z.lxor : simpl never.
#[global] Arguments Z.shiftl : simpl never.
#[global] Arguments Z.shiftr : simpl never.
#[global] Arguments Z.modulo : simpl never.
#[global] Arguments Z.div : simpl never.

(** ** Characters, bytes, machine integers *)

Definition ord (a : ascii) : Z := Z.of_N (N_of_ascii a).

Fixpoint bytes_of (s : string) : list Z :=
  match s with
  | EmptyString => []
  | String.String a s' => ord a :: bytes_of s'
  end.

(** [CH x] is a C character constant and [BS x] a C string literal (without
    its terminating NUL), both reduced to numerals when they are parsed. *)
Notation "'CH' x" := (ltac:(let z := eval vm_compute in (ord x%char) in exact z))
  (at level 9, x at level 8, only parsing).
Notation "'BS' x" := (ltac:(let z := eval vm_compute in (bytes_of x%string) in exact z))
  (at level 9, x at level 8, only parsing).

Definition is_byte (c : Z) : Prop := 0 <= c < 256.

#[global] Instance is_byte_dec c : Decision (is_byte c).
Proof. unfold is_byte. apply _. Defined.

Abbreviation bytes := (Forall is_byte).

(** Conversions between the integer types of the C program. *)
Definition u8 (x : Z) : Z := x mod 2 ^ 8.
Definition u16 (x : Z) : Z := x mod 2 ^ 16.
Definition u32 (x : Z) : Z := x mod 2 ^ 32.
Definition u64 (x : Z) : Z := x mod 2 ^ 64.
Definition i32 (x : Z) : Z := (x + 2 ^ 31) mod 2 ^ 32 - 2 ^ 31.

(** The value of a plain [char] (signed on the platforms ULib targets) that
    holds the byte [c]. *)
Definition schar (c : Z) : Z := if c <? 128 then c else c - 256.

(** ** Results: a C computation returns, or hits one of these faults *)

Inductive fault : Type :=
  | OutOfBounds   (** an access outside the object the pointer points into *)
  | OutOfFuel     (** the model's bound on a loop was reached *)
  | Aborted       (** the program ended the process *).

Inductive res (A : Type) : Type :=
  | Ok (a : A)
  | Fail (f : fault).
Arguments Ok {A} a.
Arguments Fail {A} f.

#[global] Instance fault_eq_dec : EqDecision fault.
Proof. solve_decision. Defined.

#[global] Instance res_eq_dec {A} `{EqDecision A} : EqDecision (res A).
Proof. solve_decision. Defined.

#[global] Instance res_ret : MRet res := @Ok.
#[global] Instance res_bind : MBind res := λ A B f m,
  match m with Ok a => f a | Fail e => Fail e end.
#[global] Instance res_fmap : FMap res := λ A B f m,
  match m with Ok a => Ok (f a) | Fail e => Fail e end.

(** Reading [m[i]] of an array [m]: a fault outside of it. *)
Definition rd {A} (m : list A) (i : Z) : res A :=
  if i <? 0 then Fail OutOfBounds
  else match m !! Z.to_nat i with Some a => Ok a | None => Fail OutOfBounds end.

(** Writing [m[i] = a]. *)
Definition wr {A} (m : list A) (i : Z) (a : A) : res (list A) :=
  if (i <? 0) || (Z.of_nat (length m) <=? i) then Fail OutOfBounds
  else Ok (<[Z.to_nat i := a]> m).

(** [C99] string functions over the memory from a pointer on. *)
Fixpoint strlen (m : list Z) : res Z :=
  match m with
  | [] => Fail OutOfBounds
  | c :: m' => if c =? 0 then Ok 0 else n ← strlen m'; Ok (n + 1)
  end.

(** [memchr(p, c, n)] as the offset of the first [c] among the first [n] bytes. *)
Fixpoint memchr (m : list Z) (c : Z) (n : nat) : res (option Z) :=
  match n with
  | O => Ok None
  | S n' =>
      match m with
      | [] => Fail OutOfBounds
      | x :: m' =>
          if x =? c then Ok (Some 0)
          else r ← memchr m' c n'; Ok (fmap (M:=option) (Z.add 1) r)
      end
  end.

(** [strchr(s, c) != 0] for a string literal [s]: the terminating NUL counts. *)
Definition strchr_lit (s : list Z) (c : Z) : bool :=
  (c =? 0) || existsb (Z.eqb c) s.

(** [strncmp(p, lit, sizeof(lit)-1) == 0]: bytes of [p] are read up to the first difference. *)
Fixpoint strneq (m lit : list Z) {struct lit} : res bool :=
  match lit with
  | [] => Ok true
  | c :: lit' =>
      match m with
      | [] => Fail OutOfBounds
      | x :: m' => if x =? c then strneq m' lit' else Ok false
      end
  end.

(** ** Loops

    [iterate n step s] runs a loop whose body is [step]: [inl s'] goes round
    again from [s'], [inr r] leaves the loop with [r]. *)
Fixpoint iterate {S R} (n : nat) (step : S → res (S + R)) (s : S) : res R :=
  match n with
  | O => Fail OutOfFuel
  | S n' =>
      match step s with
      | Ok (inl s') => iterate n' step s'
      | Ok (inr r) => Ok r
      | Fail f => Fail f
      end
  end.

(** Total correctness of a loop: an invariant, a decreasing measure and what
    holds when the loop is left. *)
Lemma iterate_total {S R} (step : S → res (S + R)) (I : S → Prop) (Q : R → Prop)
    (μ : S → nat) :
  (∀ s, I s → match step s with
              | Ok (inl s') => I s' ∧ (μ s' < μ s)%nat
              | Ok (inr r) => Q r
              | Fail _ => False
              end) →
  ∀ n s, I s → (μ s < n)%nat → ∃ r, iterate n step s = Ok r ∧ Q r.
Proof.
  intros Hstep n. induction n as [|n IH]; intros s HI Hμ; [lia|].
  specialize (Hstep s HI). simpl. destruct (step s) as [[s'|r]|f]; [| |done].
  - destruct Hstep. apply IH; [done|lia].
  - eauto.
Qed.

(** Partial correctness, for properties of the result of a loop that may fault. *)
Lemma iterate_partial {S R} (step : S → res (S + R)) (I : S → Prop) (Q : R → Prop) :
  (∀ s, I s → match step s with
              | Ok (inl s') => I s'
              | Ok (inr r) => Q r
              | Fail _ => True
              end) →
  ∀ n s r, I s → iterate n step s = Ok r → Q r.
Proof.
  intros Hstep n. induction n as [|n IH]; intros s r HI Hr; [done|].
  specialize (Hstep s HI). simpl in Hr.
  destruct (step s) as [[s'|r']|f]; [|by simplify_eq|done]. eauto.
Qed.

(** More fuel gives the same result. *)
Lemma iterate_mono {S R} (step : S → res (S + R)) n m s r :
  (n ≤ m)%nat → iterate n step s = Ok r → iterate m step s = Ok r.
Proof.
  revert m s. induction n as [|n IH]; intros m s Hle Hr; [done|].
  destruct m as [|m]; [lia|]. simpl in *.
  destruct (step s) as [[s'|r']|f]; [|done|done]. apply IH; [lia|done].
Qed.

(** ** Lemmas on bytes and words *)

Lemma byte_forallb (P : Z → bool) :
  forallb P (seqZ 0 256) = true → ∀ c, is_byte c → P c = true.
Proof.
  intros H c Hc. rewrite forallb_forall in H. apply H.
  apply list_elem_of_In, elem_of_seqZ. unfold is_byte in Hc. lia.
Qed.

Lemma u8_small c : is_byte c → u8 c = c.
Proof. intros ?. apply Z.mod_small. unfold is_byte in *. lia. Qed.

Lemma u8_byte x : is_byte (u8 x).
Proof. unfold is_byte, u8. apply Z.mod_pos_bound. lia. Qed.

Lemma u32_range x : 0 <= u32 x < 2 ^ 32.
Proof. apply Z.mod_pos_bound. lia. Qed.

Lemma u32_small x : 0 <= x < 2 ^ 32 → u32 x = x.
Proof. apply Z.mod_small. Qed.

Lemma i32_small x : - 2 ^ 31 <= x < 2 ^ 31 → i32 x = x.
Proof. intros H. unfold i32. rewrite Z.mod_small; lia. Qed.

Lemma filter_all {A} (P : A → Prop) `{∀ x, Decision (P x)} l : Forall P l → filter P l = l.
Proof.
  induction 1 as [|x l Hx Hl IH]; [done|]. by rewrite filter_cons_True, IH.
Qed.

(** A multiple of [2 ^ r] and a number below it have no bit in common. *)
Lemma land_high_low a b r : 0 <= r → 0 <= b < 2 ^ r → Z.land (a * 2 ^ r) b = 0.
Proof.
  intros Hr Hb. apply Z.bits_inj'. intros i Hi. rewrite Z.land_spec, Z.bits_0.
  destruct (Z.lt_ge_cases i r).
  - by rewrite Z.mul_pow2_bits_low.
  - assert (Z.testbit b i = false) as ->; [|apply andb_false_r].
    apply Z.testbit_false; [lia|]. rewrite Z.div_small; [done|]. split; [lia|]. eapply Z.lt_le_trans; [apply Hb|]. apply Z.pow_le_mono_r; lia.
Qed.

Lemma rd_app_l {A} (m : list A) k i a : rd m i = Ok a → rd (m ++ k) i = Ok a.
Proof.
  unfold rd. destruct (i <? 0); [done|].
  destruct (m !! Z.to_nat i) eqn:E; [|done].
  intros [= ->]. by rewrite (lookup_app_l_Some _ _ _ _ E).
Qed.

Lemma rd_lookup {A} (m : list A) (i : nat) a : m !! i = Some a → rd m (Z.of_nat i) = Ok a.
Proof.
  intros H. unfold rd. destruct (Z.ltb_spec (Z.of_nat i) 0); [lia|].
  by rewrite Nat2Z.id, H.
Qed.

Lemma rd_Ok_iff {A} (m : list A) i :
  (∃ a, rd m i = Ok a) ↔ 0 <= i < Z.of_nat (length m).
Proof.
  unfold rd. destruct (Z.ltb_spec i 0); split.
  - by intros [? ?].
  - lia.
  - destruct (m !! Z.to_nat i) eqn:E; [|by intros [? ?]].
    apply lookup_lt_Some in E. lia.
  - intros Hi. destruct (lookup_lt_is_Some_2 m (Z.to_nat i)) as [a Ha]; [lia|].
    rewrite Ha. eauto.
Qed.

Create HintDb ulib.
#[export] Hint Resolve u8_small u8_byte u32_range u32_small : ulib.
#[export] Hint Extern 1 (is_byte _) => unfold is_byte; lia : ulib.

(** Split the conjunctions of a goal; [conj_easy] discharges the easy ones on the way. *)
Ltac splits := repeat match goal with |- _ ∧ _ => split end.
Ltac conj_easy :=
  repeat match goal with |- _ ∧ _ => split; [first [done | lia | by constructor]|] end.

(** The parts of a [Forall] on an explicit list. *)
Ltac forall_inv :=
  repeat match goal with
  | H : Forall _ (_ :: _) |- _ => apply Forall_cons in H as [? H]
  end.

(** Case analysis on the boolean tests of the goal, with their meaning. *)
Ltac zcases :=
  repeat match goal with
  | |- context [?x =? ?y] => destruct (Z.eqb_spec x y)
  | |- context [?x <? ?y] => destruct (Z.ltb_spec x y)
  | |- context [?x <=? ?y] => destruct (Z.leb_spec x y)
  end.

(** Prove a decidable statement about one byte [c], known to be one, by
    evaluating it on all of them. *)
Ltac byte_check c :=
  match goal with
  | |- @eq bool _ true => idtac
  | |- @eq bool _ _ => apply eqb_prop
  | |- @eq Z _ _ => apply Z.eqb_eq
  | |- _ => apply (bool_decide_eq_true_1 _)
  end;
  match goal with
  | Hc : is_byte c |- ?b = true =>
      let P := eval pattern c in b in
      match P with ?f _ => apply (byte_forallb f); [vm_compute; reflexivity | exact Hc] end
  end.
