(* ===== verification/CType.v ===== *)
(** * Character classification and case conversion

    The tables of [src/ulib/base/utility.c] and the inline predicates of
    [include/ulib/base/utility.h] that read them, the buffer predicates
    [u_isName], [u_isBase64], [u_isWhiteSpace] and [u_isText] with their shared
    loop, and the conversions between integers and hexadecimal text. *)

From S2P Require Import Prelude.

(** ** Tables *)

Definition __S := 1.       (* 0x0001 space *)
Definition __M := 2.       (* 0x0002 underbar *)
Definition __N := 4.       (* 0x0004 point *)
Definition __O := 8.       (* 0x0008 minus *)
Definition __B := 16.      (* 0x0010 blank *)
Definition __R := 32.      (* 0x0020 carriage return or new line *)
Definition __W := 64.      (* 0x0040 white space *)
Definition __C := 128.     (* 0x0080 control *)
Definition __D := 256.     (* 0x0100 digit *)
Definition __L := 512.     (* 0x0200 lowercase *)
Definition __I := 1024.    (* 0x0400 punctuation *)
Definition __U := 2048.    (* 0x0800 uppercase *)
Definition __F := 4096.    (* 0x1000 never appears in plain ASCII text *)
Definition __T := 8192.    (* 0x2000 appears in plain ASCII text *)
Definition __X := 16384.   (* 0x4000 hexadecimal *)

Infix "|||" := Z.lor (at level 50, left associativity).

Definition CT := __C ||| __T.
Definition CF := __C ||| __F.
Definition DT := __D ||| __T.
Definition UT := __U ||| __T.
Definition LT := __L ||| __T.
Definition WF := __W ||| __F.
Definition IF := __I ||| __F.
Definition IT := __I ||| __T.
Definition ITO := __I ||| __T ||| __O.
Definition ITN := __I ||| __T ||| __N.
Definition ITM := __I ||| __T ||| __M.
Definition LXT := __L ||| __X ||| __T.
Definition UXT := __U ||| __X ||| __T.
Definition CWT := __C ||| __W ||| __T.
Definition CWF := __C ||| __W ||| __F.
Definition CWBT := __C ||| __W ||| __B ||| __T.
Definition CWRT := __C ||| __W ||| __R ||| __T.
Definition SWBT := __S ||| __W ||| __B ||| __T.

Definition u__ct_tab : list Z :=
  [CF; CF; CF; CF; CF; CF; CF; CT; CT; CWBT; CWRT; CWF; CWT; CWRT; CF; CF;
   CF; CF; CF; CF; CF; CF; CF; CF; CF; CF; CF; CT; CF; CF; CF; CF;
   SWBT; IT; IT; IT; IT; IT; IT; IT; IT; IT; IT; IT; IT; ITO; ITN; IT;
   DT; DT; DT; DT; DT; DT; DT; DT; DT; DT; IT; IT; IT; IT; IT; IT;
   IT; UXT; UXT; UXT; UXT; UXT; UXT; UT; UT; UT; UT; UT; UT; UT; UT; UT;
   UT; UT; UT; UT; UT; UT; UT; UT; UT; UT; UT; IT; IT; IT; IT; ITM;
   IT; LXT; LXT; LXT; LXT; LXT; LXT; LT; LT; LT; LT; LT; LT; LT; LT; LT;
   LT; LT; LT; LT; LT; LT; LT; LT; LT; LT; LT; IT; IT; IT; IT; CF;
   CF; CF; CF; CF; CF; CF; CF; CF; CF; CF; CF; CF; CF; CF; CF; CF;
   CF; CF; CF; CF; CF; CF; CF; CF; CF; CF; CF; CF; CF; CF; CF; CF;
   WF; IF; IF; IF; IF; IF; IF; IF; IF; IF; IF; IF; IF; IF; IF; IF;
   IF; IF; IF; IF; IF; IF; IF; IF; IF; IF; IF; IF; IF; IF; IF; IF;
   __F; __F; __F; __F; __F; __F; __F; __F; __F; __F; __F; __F; __F; __F; __F; __F;
   __F; __F; __F; __F; __F; __F; __F; IF; __F; __F; __F; __F; __F; __F; __F; __F;
   __F; __F; __F; __F; __F; __F; __F; __F; __F; __F; __F; __F; __F; __F; __F; __F;
   __F; __F; __F; __F; __F; __F; __F; IF; __F; __F; __F; __F; __F; __F; __F; __F].

(** Conversion to lower and to upper case. *)
Definition u__ct_tol : list Z :=
  [0; 1; 2; 3; 4; 5; 6; 7; 8; 9; 10; 11; 12; 13; 14; 15;
   16; 17; 18; 19; 20; 21; 22; 23; 24; 25; 26; 27; 28; 29; 30; 31;
   32; 33; 34; 35; 36; 37; 38; 39; 40; 41; 42; 43; 44; 45; 46; 47;
   48; 49; 50; 51; 52; 53; 54; 55; 56; 57; 58; 59; 60; 61; 62; 63;
   64; 97; 98; 99; 100; 101; 102; 103; 104; 105; 106; 107; 108; 109; 110; 111;
   112; 113; 114; 115; 116; 117; 118; 119; 120; 121; 122; 91; 92; 93; 94; 95;
   96; 97; 98; 99; 100; 101; 102; 103; 104; 105; 106; 107; 108; 109; 110; 111;
   112; 113; 114; 115; 116; 117; 118; 119; 120; 121; 122; 123; 124; 125; 126; 127;
   128; 129; 130; 131; 132; 133; 134; 135; 136; 137; 138; 139; 140; 141; 142; 143;
   144; 145; 146; 147; 148; 149; 150; 151; 152; 153; 154; 155; 156; 157; 158; 159;
   160; 161; 162; 163; 164; 165; 166; 167; 168; 169; 170; 171; 172; 173; 174; 175;
   176; 177; 178; 179; 180; 181; 182; 183; 184; 185; 186; 187; 188; 189; 190; 191;
   224; 225; 226; 227; 228; 229; 230; 231; 232; 233; 234; 235; 236; 237; 238; 239;
   240; 241; 242; 243; 244; 245; 246; 215; 248; 249; 250; 251; 252; 253; 254; 223;
   224; 225; 226; 227; 228; 229; 230; 231; 232; 233; 234; 235; 236; 237; 238; 239;
   240; 241; 242; 243; 244; 245; 246; 247; 248; 249; 250; 251; 252; 253; 254; 255].

Definition u__ct_tou : list Z :=
  [0; 1; 2; 3; 4; 5; 6; 7; 8; 9; 10; 11; 12; 13; 14; 15;
   16; 17; 18; 19; 20; 21; 22; 23; 24; 25; 26; 27; 28; 29; 30; 31;
   32; 33; 34; 35; 36; 37; 38; 39; 40; 41; 42; 43; 44; 45; 46; 47;
   48; 49; 50; 51; 52; 53; 54; 55; 56; 57; 58; 59; 60; 61; 62; 63;
   64; 65; 66; 67; 68; 69; 70; 71; 72; 73; 74; 75; 76; 77; 78; 79;
   80; 81; 82; 83; 84; 85; 86; 87; 88; 89; 90; 91; 92; 93; 94; 95;
   96; 65; 66; 67; 68; 69; 70; 71; 72; 73; 74; 75; 76; 77; 78; 79;
   80; 81; 82; 83; 84; 85; 86; 87; 88; 89; 90; 123; 124; 125; 126; 127;
   128; 129; 130; 131; 132; 133; 134; 135; 136; 137; 138; 139; 140; 141; 142; 143;
   144; 145; 146; 147; 148; 149; 150; 151; 152; 153; 154; 155; 156; 157; 158; 159;
   160; 161; 162; 163; 164; 165; 166; 167; 168; 169; 170; 171; 172; 173; 174; 175;
   176; 177; 178; 179; 180; 181; 182; 183; 184; 185; 186; 187; 188; 189; 190; 191;
   192; 193; 194; 195; 196; 197; 198; 199; 200; 201; 202; 203; 204; 205; 206; 207;
   208; 209; 210; 211; 212; 213; 214; 215; 216; 217; 218; 219; 220; 221; 222; 223;
   192; 193; 194; 195; 196; 197; 198; 199; 200; 201; 202; 203; 204; 205; 206; 207;
   208; 209; 210; 211; 212; 213; 214; 247; 216; 217; 218; 219; 220; 221; 222; 255].

(** [t[c]] for a table of 256 entries and an [unsigned char] index. *)
Definition tab (t : list Z) (c : Z) : Z := nth (Z.to_nat (u8 c)) t 0.

Definition u_cttab (c : Z) : Z := tab u__ct_tab c.
Definition u__tolower (c : Z) : Z := tab u__ct_tol c.
Definition u__toupper (c : Z) : Z := tab u__ct_tou c.

(** [tolower] of the C library in the C locale (the program calls no [setlocale]), which [strncasecmp]
    compares with. Unlike [u__tolower] it changes no letter outside ASCII. *)
Definition tolower (c : Z) : Z := if (65 <=? c) && (c <=? 90) then c + 32 else c.

(** [(u_cttab(c) & mask) != 0] *)
Definition ct (mask c : Z) : bool := negb (Z.land (u_cttab c) mask =? 0).

Definition u__isblank (c : Z) : bool := ct 0x0010 c.
Definition u__islterm (c : Z) : bool := ct 0x0020 c.
Definition u__isspace (c : Z) : bool := ct 0x0040 c.
Definition u__iscntrl (c : Z) : bool := ct 0x0080 c.
Definition u__isdigit (c : Z) : bool := ct 0x0100 c.
Definition u__islower (c : Z) : bool := ct 0x0200 c.
Definition u__ispunct (c : Z) : bool := ct 0x0400 c.
Definition u__isupper (c : Z) : bool := ct 0x0800 c.
Definition u__istext (c : Z) : bool := Z.land (u_cttab c) 0x1000 =? 0.
Definition u__isxdigit (c : Z) : bool := ct 0x4100 c.
Definition u__isalpha (c : Z) : bool := ct 0x0A00 c.
Definition u__isalnum (c : Z) : bool := ct 0x0B00 c.
Definition u__isgraph (c : Z) : bool := ct 0x0F00 c.
Definition u__isprint (c : Z) : bool := ct 0x0F01 c.
Definition u__isname (c : Z) : bool := ct 0x0B02 c.
Definition u__ishname (c : Z) : bool := ct 0x0B0E c.

Definition u__isoctal (c : Z) : bool := (CH "0" <=? c) && (c <=? CH "7").
Definition u__isbase64 (c : Z) : bool :=
  u__isalnum c || (c =? CH "+") || (c =? CH "/") || (c =? CH "=").

(** The argument is an [unsigned char], the result an [unsigned]. *)
Definition u__hexc2int (c : Z) : Z :=
  u32 (if u__isdigit c then c - CH "0" else u__toupper c - CH "A" + 10).
Definition u__octc2int (c : Z) : Z := Z.land (c - CH "0") 7.

Definition u_hex_upper : list Z := BS "0123456789ABCDEF".
Definition u_hex_lower : list Z := BS "0123456789abcdef".

(** ** Buffers *)

(** [U_LOOP_STRING]: [c = *s; while (n--) { exec; c = * ++s; }]. The byte
    after the last one tested is read too. *)
Fixpoint U_LOOP_STRING (p : Z → bool) (s : list Z) (n : nat) : res bool :=
  match s with
  | [] => Fail OutOfBounds
  | c :: s' =>
      match n with
      | O => Ok true
      | S n' => if p c then U_LOOP_STRING p s' n' else Ok false
      end
  end.

Definition u_isName := U_LOOP_STRING u__isname.
Definition u_isBase64 := U_LOOP_STRING u__isbase64.
Definition u_isWhiteSpace := U_LOOP_STRING u__isspace.
Definition u_isText := U_LOOP_STRING u__istext.

(** [t[v & 0x0F]] for a table of hexadecimal digits. *)
Definition hexd (t : list Z) (v : Z) : Z := nth (Z.to_nat (Z.land v 0x0F)) t 0.

(** [for (s = 28; s >= 0; s -= 4, ++p) *p = u_hex_upper[(n >> s) & 0x0F]] *)
Definition u_int2hex (n : Z) : list Z :=
  (λ s, hexd u_hex_upper (Z.shiftr n s)) <$> [28; 24; 20; 16; 12; 8; 4; 0].

(** [while (p < eos) n = (n << 4) | u__hexc2int( *p++)] on a [uint32_t]. *)
Definition u_hex2int (p : list Z) : Z :=
  fold_left (λ n c, u32 (Z.lor (u32 (Z.shiftl n 4)) (u__hexc2int c))) p 0.

Arguments tab : simpl never.
Arguments ct : simpl never.
Arguments hexd : simpl never.
Arguments u__hexc2int : simpl never.

(** ** Lemmas *)

(** [u__tolower] folds what [tolower] folds. *)
Lemma u__tolower_tolower c : u__tolower (tolower c) = u__tolower c.
Proof.
  unfold tolower. destruct ((65 <=? c) && (c <=? 90)) eqn:E; [|done].
  assert (Hc : is_byte c) by (unfold is_byte; lia).
  assert (H : (negb ((65 <=? c) && (c <=? 90)) || (u__tolower (c + 32) =? u__tolower c)) = true) by byte_check c.
  rewrite E in H. lia.
Qed.

Lemma map_u__tolower (s : list Z) : map u__tolower (map tolower s) = map u__tolower s.
Proof. rewrite map_map. apply map_ext. exact u__tolower_tolower. Qed.

Lemma u__tolower_byte c : is_byte c → is_byte (u__tolower c).
Proof.
  intros Hc. assert (H : ((0 <=? u__tolower c) && (u__tolower c <? 256)) = true) by byte_check c.
  unfold is_byte. lia.
Qed.

Lemma u__isdigit_spec c : is_byte c → u__isdigit c = (CH "0" <=? c) && (c <=? CH "9").
Proof. intros Hc. byte_check c. Qed.

Lemma u__isdigit_range c : is_byte c → u__isdigit c = true ↔ CH "0" <= c <= CH "9".
Proof. intros Hc. rewrite u__isdigit_spec by done. lia. Qed.

Lemma hexd_isxdigit t v : t = u_hex_upper ∨ t = u_hex_lower → u__isxdigit (hexd t v) = true.
Proof.
  intros Ht. unfold hexd.
  assert (Hr : 0 <= Z.land v 15 < 16).
  { change 15 with (Z.ones 4). rewrite Z.land_ones by lia. apply Z.mod_pos_bound. lia. }
  revert Hr. generalize (Z.land v 15). intros w Hw.
  assert (Hc : is_byte w) by (unfold is_byte; lia).
  assert (Hall : (negb (w <? 16) || u__isxdigit (nth (Z.to_nat w) t 0)) = true).
  { destruct Ht as [-> | ->]; byte_check w. }
  destruct (Z.ltb_spec w 16); [done|lia].
Qed.
