(* ===== verification/Hexdump.v ===== *)
(** * Hexadecimal dump ([src/ulib/base/coder/chexdump.c]) *)

From S2P Require Import Prelude CType.

(** The [for] loop over the input: two lower case digits per byte. The list is
    what the loop stores through [r], its length the value returned. *)
Fixpoint u_hexdump_encode (input : list Z) : list Z :=
  match input with
  | [] => []
  | c :: input' =>
      hexd u_hex_lower (Z.shiftr c 4) :: hexd u_hex_lower c ::
      u_hexdump_encode input'
  end.

(** One turn of the decoding loop: [c] is an [int], stored as an [unsigned char]. *)
Definition hex_pair (a b : Z) : Z :=
  let c := i32 (u__hexc2int a) in
  let c := i32 (Z.lor (u32 (Z.shiftl c 4)) (u__hexc2int b)) in
  u8 c.

(** [n] is [(int32_t)len - i] and [m] the memory from [input + i] on. *)
Fixpoint hexdump_decode_loop (m : list Z) (n : Z) : res (list Z) :=
  if n <=? 0 then Ok []
  else match m with
  | a :: b :: m' => r ← hexdump_decode_loop m' (n - 2); Ok (hex_pair a b :: r)
  | _ => Fail OutOfBounds
  end.

Definition u_hexdump_decode (input : list Z) (len : Z) : res (list Z) :=
  hexdump_decode_loop input (i32 len).

(** ** Lemmas *)

Arguments hex_pair : simpl never.

Lemma hex_pair_digits c :
  is_byte c → hex_pair (hexd u_hex_lower (Z.shiftr c 4)) (hexd u_hex_lower c) = c.
Proof. intros Hc. byte_check c. Qed.

Lemma hexdump_encode_length s :
  length (u_hexdump_encode s) = (2 * length s)%nat.
Proof. induction s; simpl; lia. Qed.

Lemma hexdump_decode_loop_encode s rest n :
  bytes s → n = 2 * Z.of_nat (length s) →
  hexdump_decode_loop (u_hexdump_encode s ++ rest) n = Ok s.
Proof.
  intros Hs. revert n. induction Hs as [|c s Hc Hs IH]; intros n Hn; simpl in Hn.
  - subst. by destruct rest.
  - simpl. destruct (Z.leb_spec n 0); [lia|].
    rewrite IH by lia. simpl. by rewrite hex_pair_digits.
Qed.

(** Decoding the hexadecimal dump of a buffer gives the buffer back, for every
    buffer whose dump fits in an [int32_t], whatever follows it in memory; the dump
    takes two characters per byte. *)
Theorem hexdump_roundtrip s rest :
  bytes s → 2 * Z.of_nat (length s) < 2 ^ 31 →
  length (u_hexdump_encode s) = (2 * length s)%nat ∧
  u_hexdump_decode (u_hexdump_encode s ++ rest) (Z.of_nat (length (u_hexdump_encode s))) = Ok s.
Proof.
  intros Hs Hl. split; [apply hexdump_encode_length|].
  apply hexdump_decode_loop_encode; [done|].
  rewrite hexdump_encode_length. unfold i32. rewrite Z.mod_small; lia.
Qed.

Lemma hexdump_roundtrip_witness :
  length (u_hexdump_encode [0; 171; 255]) = 6%nat ∧
  u_hexdump_decode (u_hexdump_encode [0; 171; 255] ++ [7]) 6 = Ok [0; 171; 255].
Proof.
  apply (hexdump_roundtrip [0; 171; 255] [7]); [repeat constructor; unfold is_byte; lia|].
  simpl. lia.
Defined.
