(* ===== verification/Url.v ===== *)
(** * URL coding ([src/ulib/base/coder/curl_coder.c])

    [u_uri_encoded_char] and the variable [u_uri_encoded_char_mask] are in
    [src/ulib/base/utility.c]; the mask is a parameter here. *)

From S2P Require Import Prelude CType.

Definition U_URI_PCT_ENCODED := 1.
Definition U_URI_GEN_DELIMS := 2.
Definition U_URI_SUB_DELIMS := 4.

(** The initial value of the variable. *)
Definition u_uri_encoded_char_mask : Z :=
  U_URI_PCT_ENCODED ||| U_URI_GEN_DELIMS ||| U_URI_SUB_DELIMS.

Definition u_uri_encoded_char : list Z :=
  [1; 1; 1; 1; 1; 1; 1; 1; 1; 1; 1; 1; 1; 1; 1; 1;
   1; 1; 1; 1; 1; 1; 1; 1; 1; 1; 1; 1; 1; 1; 1; 1;
   1; 4; 1; 2; 4; 1; 4; 4; 4; 4; 4; 4; 4; 0; 0; 2;
   0; 0; 0; 0; 0; 0; 0; 0; 0; 0; 2; 4; 1; 4; 1; 2;
   2; 0; 0; 0; 0; 0; 0; 0; 0; 0; 0; 0; 0; 0; 0; 0;
   0; 0; 0; 0; 0; 0; 0; 0; 0; 0; 0; 2; 1; 2; 1; 0;
   1; 0; 0; 0; 0; 0; 0; 0; 0; 0; 0; 0; 0; 0; 0; 0;
   0; 0; 0; 0; 0; 0; 0; 0; 0; 0; 0; 1; 1; 1; 0; 1;
   1; 1; 1; 1; 1; 1; 1; 1; 1; 1; 1; 1; 1; 1; 1; 1;
   1; 1; 1; 1; 1; 1; 1; 1; 1; 1; 1; 1; 1; 1; 1; 1;
   1; 1; 1; 1; 1; 1; 1; 1; 1; 1; 1; 1; 1; 1; 1; 1;
   1; 1; 1; 1; 1; 1; 1; 1; 1; 1; 1; 1; 1; 1; 1; 1;
   1; 1; 1; 1; 1; 1; 1; 1; 1; 1; 1; 1; 1; 1; 1; 1;
   1; 1; 1; 1; 1; 1; 1; 1; 1; 1; 1; 1; 1; 1; 1; 1;
   1; 1; 1; 1; 1; 1; 1; 1; 1; 1; 1; 1; 1; 1; 1; 1;
   1; 1; 1; 1; 1; 1; 1; 1; 1; 1; 1; 1; 1; 1; 1; 1].

(** The test for a character that is written as [%XX]; [extra_enc_chars] is
    [None] when the pointer is null. *)
Definition url_encoded (mask : Z) (extra : option (list Z)) (c : Z) : bool :=
  negb (Z.land (tab u_uri_encoded_char c) mask =? 0)
  || match extra with Some e => strchr_lit e c | None => false end.

(** [u_hex_upper[c % 16]] *)
Definition hexm (c : Z) : Z := nth (Z.to_nat (c mod 16)) u_hex_upper 0.

(** What the loop stores for one input byte. *)
Definition url_encode_char (mask : Z) (extra : option (list Z)) (c : Z) : list Z :=
  if c =? CH " " then [CH "+"]
  else if url_encoded mask extra c
  then [CH "%"; hexd u_hex_upper (Z.shiftr c 4); hexm c]
  else [c].

Fixpoint u_url_encode (mask : Z) (extra : option (list Z)) (input : list Z) : list Z :=
  match input with
  | [] => []
  | c :: input' => url_encode_char mask extra c ++ u_url_encode mask extra input'
  end.

(** [m] is the memory from [input + i] on and [n] is [len - i]. *)
Fixpoint url_decode_loop (no_line_break : bool) (m : list Z) (n : Z) : res (list Z) :=
  if n <=? 0 then Ok []
  else match m with
  | [] => Fail OutOfBounds
  | c :: m1 =>
      if c =? CH "+" then
        r ← url_decode_loop no_line_break m1 (n - 1); Ok (CH " " :: r)
      else if c =? CH "%" then
        lb ← (if no_line_break then strneq m1 (BS "0D%0A") else Ok false);
        if lb : bool then
          match m1 with
          | _ :: _ :: _ :: _ :: _ :: m6 => url_decode_loop no_line_break m6 (n - 6)
          | _ => Fail OutOfBounds
          end
        else
          match m1 with
          | [] => Fail OutOfBounds
          | h0 :: m2 =>
              if h0 =? 0 then
                r ← url_decode_loop no_line_break m1 (n - 1); Ok (u8 (u_hex2int [0; 0]) :: r)
              else
                match m2 with
                | [] => Fail OutOfBounds
                | h1 :: m3 =>
                    if h1 =? 0 then
                      r ← url_decode_loop no_line_break m2 (n - 2);
                      Ok (u8 (u_hex2int [h0; 0]) :: r)
                    else
                      r ← url_decode_loop no_line_break m3 (n - 3);
                      Ok (u8 (u_hex2int [h0; h1]) :: r)
                end
          end
      else r ← url_decode_loop no_line_break m1 (n - 1); Ok (c :: r)
  end.

Definition u_url_decode (input : list Z) (len : Z) (no_line_break : bool) : res (list Z) :=
  url_decode_loop no_line_break input len.

Arguments url_encoded : simpl never.
Arguments hexm : simpl never.
Arguments u_hex2int : simpl never.
Arguments u8 : simpl never.

(** ** Reference: the text without its line breaks *)

Fixpoint strip_crlf (s : list Z) : list Z :=
  match s with
  | [] => []
  | a :: s1 =>
      match s1 with
      | b :: s2 => if (a =? 13) && (b =? 10) then strip_crlf s2 else a :: strip_crlf s1
      | [] => [a]
      end
  end.

(** ** Lemmas *)

Section UrlRoundTrip.
  (** A mask under which [%] and [+] are encoded, as in the initial one. *)
Context (mask : Z) (extra : option (list Z)).
Hypothesis Hmask : Z.land mask 5 = 5.

Lemma url_hex_back c :
  is_byte c →
  u8 (u_hex2int [hexd u_hex_upper (Z.shiftr c 4); hexm c]) = c.
Proof. intros Hc. byte_check c. Qed.

Lemma url_digits_nonzero c :
  is_byte c →
  (hexd u_hex_upper (Z.shiftr c 4) =? 0) = false ∧
  (hexm c =? 0) = false.
Proof. intros Hc. split; byte_check c. Qed.

Lemma mask_tab c :
  Z.land (tab u_uri_encoded_char c) 5 ≠ 0 → url_encoded mask extra c = true.
Proof.
  intros Ht. unfold url_encoded. apply orb_true_intro. left.
  apply negb_true_iff, Z.eqb_neq. intros E. apply Ht.
  rewrite <- Hmask, Z.land_assoc, E. done.
Qed.

Lemma url_plain c :
  url_encoded mask extra c = false → c ≠ CH "+" ∧ c ≠ CH "%" ∧ c ≠ 10 ∧ c ≠ 13.
Proof.
  intros Hp. repeat split; intros ->; by rewrite mask_tab in Hp.
Qed.

Lemma url_digits_cr c :
  is_byte c →
  (hexd u_hex_upper (Z.shiftr c 4) =? 48) &&
  (hexm c =? 68) = (c =? 13).
Proof. intros Hc. byte_check c. Qed.

Lemma url_digits_lf c :
  is_byte c →
  (hexd u_hex_upper (Z.shiftr c 4) =? 48) &&
  (hexm c =? 65) = (c =? 10).
Proof. intros Hc. byte_check c. Qed.

Definition starts_lf (s : list Z) : bool :=
  match s with d :: _ => d =? 10 | [] => false end.

(** The look-ahead for a line break sees one exactly where the text has it. *)
Lemma url_look_lf s rest :
  bytes s →
  strneq (u_url_encode mask extra s ++ 0 :: rest) (BS "%0A") = Ok (starts_lf s).
Proof.
  intros Hs. destruct s as [|d s]; [done|]. apply Forall_cons in Hs as [Hd _]. simpl.
  unfold url_encode_char. destruct (Z.eqb_spec d 32) as [->|Hsp]; [done|].
  destruct (url_encoded mask extra d) eqn:He.
  - cbn [app strneq]. rewrite <- url_digits_lf by done.
    simpl. destruct (_ =? 48); [|done]. by destruct (_ =? 65).
  - apply url_plain in He as (?&?&?&?). simpl.
    destruct (Z.eqb_spec d 37); [done|]. destruct (Z.eqb_spec d 10); [done|]. done.
Qed.

Lemma url_look_crlf c s rest :
  is_byte c → bytes s →
  strneq (hexd u_hex_upper (Z.shiftr c 4) :: hexm c ::
          u_url_encode mask extra s ++ 0 :: rest) (BS "0D%0A")
  = Ok ((c =? 13) && starts_lf s).
Proof.
  intros Hc Hs. rewrite <- url_digits_cr by done.
  change (BS "0D%0A") with (48 :: 68 :: BS "%0A"). cbn [strneq].
  destruct (_ =? 48); [|done]. destruct (_ =? 68); [|done]. by apply url_look_lf.
Qed.

Lemma url_encode_lf s :
  url_encode_char mask extra 10 ++ u_url_encode mask extra s
  = 37 :: 48 :: 65 :: u_url_encode mask extra s.
Proof. unfold url_encode_char. by rewrite (mask_tab 10). Qed.

Lemma strip_crlf_cons c s :
  strip_crlf (c :: s)
  = if (c =? 13) && starts_lf s then strip_crlf (tail s) else c :: strip_crlf s.
Proof. destruct s as [|d s]; simpl; [by rewrite andb_false_r|done]. Qed.

Lemma url_decode_loop_encode nlb rest k : ∀ s n,
  (length s ≤ k)%nat → bytes s → n = Z.of_nat (length (u_url_encode mask extra s)) →
  url_decode_loop nlb (u_url_encode mask extra s ++ 0 :: rest) n
  = Ok (if nlb : bool then strip_crlf s else s).
Proof.
  induction k as [|k IH]; intros s n Hk Hs Hn.
  { destruct s; [|simpl in *; lia]. subst. by destruct nlb. }
  destruct s as [|c s]; [subst; by destruct nlb|].
  apply Forall_cons in Hs as [Hc Hs]. simpl in Hk.
  rewrite strip_crlf_cons.
  revert Hn. simpl u_url_encode. unfold url_encode_char.
  destruct (Z.eqb_spec c (CH " ")) as [->|Hsp].
  - intros Hn. simpl in Hn |- *. destruct (Z.leb_spec n 0); [lia|].
    rewrite (IH s) by (done || lia). by destruct nlb.
  - destruct (url_encoded mask extra c) eqn:He.
    + intros Hn. simpl in Hn. cbn [app url_decode_loop]. rewrite <- ?app_comm_cons, <- ?app_assoc.
      cbn [app]. destruct (Z.leb_spec n 0); [lia|]. change (37 =? 43) with false.
      change (37 =? 37) with true. cbv iota.
      assert (Hplain : ∀ m, n - 3 = m →
        url_decode_loop nlb (u_url_encode mask extra s ++ 0 :: rest) m
        = Ok (if nlb : bool then strip_crlf s else s)).
      { intros m <-. apply IH; [lia|done|lia]. }
      assert (Hd := url_digits_nonzero c Hc). destruct Hd as [Hd0 Hd1].
      destruct nlb; [rewrite url_look_crlf by done|]; cbn [mbind res_bind].
      * destruct ((c =? 13) && starts_lf s) eqn:Hcr.
        -- apply andb_true_iff in Hcr as [Hc13 Hlf]. destruct s as [|d s]; [done|].
           simpl in Hlf. apply Z.eqb_eq in Hlf as ->. simpl u_url_encode in *.
           rewrite url_encode_lf in *. cbn [app tail]. cbn [length] in *.
           apply IH; [simpl in *; lia|by apply Forall_cons in Hs as [_ ?]|lia].
        -- rewrite Hd0, Hd1, Hplain by done. cbn [mbind res_bind].
           by rewrite url_hex_back.
      * rewrite Hd0, Hd1, Hplain by done. cbn [mbind res_bind]. by rewrite url_hex_back.
    + intros Hn. apply url_plain in He as (H1&H2&H3&H4). simpl in Hn |- *.
      destruct (Z.leb_spec n 0); [lia|].
      destruct (Z.eqb_spec c 43); [done|]. destruct (Z.eqb_spec c 37); [done|].
      destruct (Z.eqb_spec c 13); [done|].
      rewrite (IH s) by (done || lia). by destruct nlb.
Qed.
End UrlRoundTrip.

Lemma url_encode_bound mask extra s :
  (length s ≤ length (u_url_encode mask extra s) ≤ 3 * length s)%nat.
Proof.
  induction s as [|c s IH]; [done|]. simpl. rewrite length_app.
  unfold url_encode_char. repeat case_match; simpl; lia.
Qed.

(** ** Property *)

(** Under every mask that has [%] and [+] encoded (the initial one has), decoding the
    encoded text gives the bytes back; with [no_line_break] it gives them back without
    their CR LF pairs. The text takes one to three characters per byte. *)
Theorem url_roundtrip mask extra no_line_break s rest :
  Z.land mask 5 = 5 → bytes s →
  let text := u_url_encode mask extra s in
  (length s ≤ length text ≤ 3 * length s)%nat ∧
  u_url_decode (text ++ 0 :: rest) (Z.of_nat (length text)) no_line_break
  = Ok (if no_line_break then strip_crlf s else s).
Proof.
  intros Hm Hs text. split; [apply url_encode_bound|].
  by apply (url_decode_loop_encode _ _ Hm _ _ (length s)).
Qed.

Lemma url_roundtrip_witness :
  let text := u_url_encode u_uri_encoded_char_mask None (BS "a+b %" ++ [13; 10; 200]) in
  (8 ≤ length text ≤ 24)%nat ∧
  u_url_decode (text ++ [0]) (Z.of_nat (length text)) true = Ok (BS "a+b %" ++ [200]).
Proof.
  refine (url_roundtrip u_uri_encoded_char_mask None true (BS "a+b %" ++ [13; 10; 200]) [] _ _);
    [reflexivity|repeat constructor; unfold is_byte; lia].
Defined.
