(* ===== verification/Base64.v ===== *)
(** * Base64 ([src/ulib/base/coder/cbase64.c])

    The variables [u_base64_max_columns] and [u_line_terminator_len] are
    parameters of the encoder; [u_base64_errors] is part of the decoder's result. *)

From S2P Require Import Prelude CType.

(** The alphabet of [src/ulib/base/base.c]. *)
Definition u_alphabet : list Z :=
  BS "ABCDEFGHIJKLMNOPQRSTUVWXYZabcdefghijklmnopqrstuvwxyz0123456789+/".

Definition member : list Z :=
  [1; 0; 0; 0; 0; 0; 0; 0; 0; 0; 0; 0; 0; 0; 0; 0;
   0; 0; 0; 0; 0; 0; 0; 0; 0; 0; 0; 0; 0; 0; 0; 0;
   0; 0; 0; 0; 0; 0; 0; 0; 0; 0; 0; 1; 0; 0; 0; 1;
   1; 1; 1; 1; 1; 1; 1; 1; 1; 1; 0; 0; 0; 0; 0; 0;
   0; 1; 1; 1; 1; 1; 1; 1; 1; 1; 1; 1; 1; 1; 1; 1;
   1; 1; 1; 1; 1; 1; 1; 1; 1; 1; 1; 0; 0; 0; 0; 0;
   0; 1; 1; 1; 1; 1; 1; 1; 1; 1; 1; 1; 1; 1; 1; 1;
   1; 1; 1; 1; 1; 1; 1; 1; 1; 1; 1; 0; 0; 0; 0; 0;
   0; 0; 0; 0; 0; 0; 0; 0; 0; 0; 0; 0; 0; 0; 0; 0;
   0; 0; 0; 0; 0; 0; 0; 0; 0; 0; 0; 0; 0; 0; 0; 0;
   0; 0; 0; 0; 0; 0; 0; 0; 0; 0; 0; 0; 0; 0; 0; 0;
   0; 0; 0; 0; 0; 0; 0; 0; 0; 0; 0; 0; 0; 0; 0; 0;
   0; 0; 0; 0; 0; 0; 0; 0; 0; 0; 0; 0; 0; 0; 0; 0;
   0; 0; 0; 0; 0; 0; 0; 0; 0; 0; 0; 0; 0; 0; 0; 0;
   0; 0; 0; 0; 0; 0; 0; 0; 0; 0; 0; 0; 0; 0; 0; 0;
   0; 0; 0; 0; 0; 0; 0; 0; 0; 0; 0; 0; 0; 0; 0; 0].

Definition decoder : list Z :=
  [64; 0; 0; 0; 0; 0; 0; 0; 0; 0; 0; 0; 0; 0; 0; 0;
   0; 0; 0; 0; 0; 0; 0; 0; 0; 0; 0; 0; 0; 0; 0; 0;
   0; 0; 0; 0; 0; 0; 0; 0; 0; 0; 0; 62; 0; 0; 0; 63;
   52; 53; 54; 55; 56; 57; 58; 59; 60; 61; 0; 0; 0; 0; 0; 0;
   0; 0; 1; 2; 3; 4; 5; 6; 7; 8; 9; 10; 11; 12; 13; 14;
   15; 16; 17; 18; 19; 20; 21; 22; 23; 24; 25; 0; 0; 0; 0; 0;
   0; 26; 27; 28; 29; 30; 31; 32; 33; 34; 35; 36; 37; 38; 39; 40;
   41; 42; 43; 44; 45; 46; 47; 48; 49; 50; 51; 0; 0; 0; 0; 0;
   0; 0; 0; 0; 0; 0; 0; 0; 0; 0; 0; 0; 0; 0; 0; 0;
   0; 0; 0; 0; 0; 0; 0; 0; 0; 0; 0; 0; 0; 0; 0; 0;
   0; 0; 0; 0; 0; 0; 0; 0; 0; 0; 0; 0; 0; 0; 0; 0;
   0; 0; 0; 0; 0; 0; 0; 0; 0; 0; 0; 0; 0; 0; 0; 0;
   0; 0; 0; 0; 0; 0; 0; 0; 0; 0; 0; 0; 0; 0; 0; 0;
   0; 0; 0; 0; 0; 0; 0; 0; 0; 0; 0; 0; 0; 0; 0; 0;
   0; 0; 0; 0; 0; 0; 0; 0; 0; 0; 0; 0; 0; 0; 0; 0;
   0; 0; 0; 0; 0; 0; 0; 0; 0; 0; 0; 0; 0; 0; 0; 0].

Definition PAD : Z := CH "=".

Definition alpha (v : Z) : Z := nth (Z.to_nat v) u_alphabet 0.

(** The state of the encoding loop. *)
Record b64_state := B64 { bits : Z; char_count : Z; cols : Z; columns : bool }.

Definition b64_newline (crlf : bool) : list Z := if crlf then [13; 10] else [10].

(** One turn of the loop: what is stored, and the next state.
    [crlf] is [u_line_terminator_len == 2]. *)
Definition b64_encode_byte (max_columns : Z) (crlf : bool) (st : b64_state) (c : Z)
    : list Z * b64_state :=
  let b := bits st + c in
  let n := char_count st + 1 in
  if n =? 3 then
    let q := [alpha (Z.shiftr b 18); alpha (Z.land (Z.shiftr b 12) 0x3f);
              alpha (Z.land (Z.shiftr b 6) 0x3f); alpha (Z.land b 0x3f)] in
    if negb (max_columns =? 0) then
      let k := cols st + 4 in
      if k =? max_columns then (q ++ b64_newline crlf, B64 0 0 0 true)
      else (q, B64 0 0 k (columns st))
    else (q, B64 0 0 (cols st) (columns st))
  else ([], B64 (Z.shiftl b 8) n (cols st) (columns st)).

(** The code after the loop: the last group and the last line terminator. *)
Definition b64_encode_finish (crlf : bool) (st : b64_state) : list Z :=
  (if negb (char_count st =? 0) then
     let b := Z.shiftl (bits st) (16 - 8 * char_count st) in
     [alpha (Z.shiftr b 18); alpha (Z.land (Z.shiftr b 12) 0x3f)] ++
     (if char_count st =? 1 then [PAD; PAD]
      else [alpha (Z.land (Z.shiftr b 6) 0x3f); PAD])
   else [])
  ++ (if columns st && (0 <? cols st) then b64_newline crlf else []).

Fixpoint b64_encode_loop (max_columns : Z) (crlf : bool) (st : b64_state) (input : list Z)
    : list Z :=
  match input with
  | [] => b64_encode_finish crlf st
  | c :: input' =>
      let '(out, st') := b64_encode_byte max_columns crlf st c in
      out ++ b64_encode_loop max_columns crlf st' input'
  end.

Definition u_base64_encode (max_columns : Z) (crlf : bool) (input : list Z) : list Z :=
  b64_encode_loop max_columns crlf (B64 0 0 0 false) input.

(** The first loop of the decoder: how many bytes it looks at. The tables are
    indexed with a plain [char]. *)
Fixpoint b64_scan (m : list Z) (n : nat) : res nat :=
  match n with
  | O => Ok O
  | S n' =>
      match m with
      | [] => Fail OutOfBounds
      | c :: m' =>
          if c =? 0 then Ok O
          else
            b ← rd member (schar c);
            if (b =? 1) || (c =? PAD) || u__isspace c
            then k ← b64_scan m' n'; Ok (S k)
            else Ok O
      end
  end.

(** The second loop, over the bytes the first one accepted, and the code after
    it: the decoded bytes and the value of [u_base64_errors]. *)
Fixpoint b64_decode_loop (input : list Z) (b n : Z) : res (list Z * Z) :=
  match input with
  | [] => Ok ([], if n =? 0 then 0 else 1)
  | c :: input' =>
      if c =? PAD then
        Ok (if n =? 1 then ([], 1)
            else if n =? 2 then ([u8 (Z.shiftr b 10)], 0)
            else if n =? 3 then ([u8 (Z.shiftr b 16); u8 (Z.land (Z.shiftr b 8) 0xff)], 0)
            else ([], 0))
      else
        mb ← rd member (schar c);
        if mb =? 0 then b64_decode_loop input' b n
        else
          d ← rd decoder (schar c);
          let b := b + d in
          if n + 1 =? 4 then
            r ← b64_decode_loop input' 0 0;
            Ok ([u8 (Z.shiftr b 16); u8 (Z.land (Z.shiftr b 8) 0xff); u8 (Z.land b 0xff)] ++ r.1, r.2)
          else b64_decode_loop input' (Z.shiftl b 6) (n + 1)
  end.

Definition u_base64_decode (input : list Z) (len : nat) : res (list Z * Z) :=
  k ← b64_scan input len;
  b64_decode_loop (take k input) 0 0.

Arguments alpha : simpl never.
Arguments b64_encode_byte : simpl never.

(** ** Reference encoder: RFC 4648, by groups of three bytes *)

Definition sextet (g i : Z) : Z := alpha ((g / 64 ^ i) mod 64).

Fixpoint rfc4648 (s : list Z) : list Z :=
  match s with
  | a :: b :: c :: s' =>
      let g := a * 65536 + b * 256 + c in
      [sextet g 3; sextet g 2; sextet g 1; sextet g 0] ++ rfc4648 s'
  | [a; b] => let g := a * 65536 + b * 256 in [sextet g 3; sextet g 2; sextet g 1; PAD]
  | [a] => let g := a * 65536 in [sextet g 3; sextet g 2; PAD; PAD]
  | [] => []
  end.

(** ** Lemmas *)

Lemma list_ind3 {A} (P : list A → Prop) :
  P [] → (∀ a, P [a]) → (∀ a b, P [a; b]) →
  (∀ a b c s, P s → P (a :: b :: c :: s)) → ∀ s, P s.
Proof.
  intros H0 H1 H2 H3. fix IH 1. intros [|a [|b [|c s]]]; [done..|]. apply H3, IH.
Qed.

Lemma alpha_chars v :
  0 <= v < 64 →
  rd member (schar (alpha v)) = Ok 1 ∧ rd decoder (schar (alpha v)) = Ok v ∧
  alpha v ≠ 0 ∧ alpha v ≠ PAD.
Proof.
  intros Hv. assert (Hc : is_byte v) by (unfold is_byte; lia).
  assert (H : negb (v <? 64) ||
    bool_decide (rd member (schar (alpha v)) = Ok 1 ∧ rd decoder (schar (alpha v)) = Ok v ∧
      alpha v ≠ 0 ∧ alpha v ≠ PAD) = true) by byte_check v.
  destruct (Z.ltb_spec v 64); [|lia]. by apply bool_decide_eq_true in H.
Qed.

(** The four digits of a group of 24 bits, and what the decoder makes of them. *)
Definition quad (g : Z) : list Z := [sextet g 3; sextet g 2; sextet g 1; sextet g 0].

Lemma land_mod x k : 0 <= k → Z.land x (2 ^ k - 1) = x mod 2 ^ k.
Proof. intros. rewrite <- Z.land_ones by done. f_equal. rewrite Z.ones_equiv. lia. Qed.

Lemma land_63 x : Z.land x 0x3f = x mod 64.
Proof. apply (land_mod x 6). lia. Qed.

Lemma land_255 x : Z.land x 0xff = x mod 256.
Proof. apply (land_mod x 8). lia. Qed.

Lemma group_sextets g :
  0 <= g < 2 ^ 24 →
  alpha (Z.shiftr g 18) = sextet g 3 ∧ alpha (Z.land (Z.shiftr g 12) 0x3f) = sextet g 2 ∧
  alpha (Z.land (Z.shiftr g 6) 0x3f) = sextet g 1 ∧ alpha (Z.land g 0x3f) = sextet g 0.
Proof.
  intros Hg. unfold sextet. rewrite !land_63, !Z.shiftr_div_pow2 by lia.
  change (2 ^ 18) with 262144. change (64 ^ 3) with 262144.
  change (64 ^ 2) with (2 ^ 12). change (64 ^ 1) with (2 ^ 6).
  rewrite Z.pow_0_r, Z.div_1_r.
  rewrite (Z.mod_small (g / 262144)); [done|].
  change (2 ^ 24) with 16777216 in Hg.
  split; [apply Z.div_pos; lia|apply Z.div_lt_upper_bound; lia].
Qed.

Section Bytes.
Context (a b c : Z) (Ha : is_byte a) (Hb : is_byte b) (Hc : is_byte c).

Lemma group_range : 0 <= a * 65536 + b * 256 + c < 2 ^ 24.
Proof. unfold is_byte in *. lia. Qed.

Lemma group_split :
  let g := a * 65536 + b * 256 + c in
  u8 (Z.shiftr g 16) = a ∧ u8 (Z.land (Z.shiftr g 8) 0xff) = b ∧ u8 (Z.land g 0xff) = c.
Proof.
  simpl. unfold is_byte in *. rewrite !land_255, !Z.shiftr_div_pow2 by lia. unfold u8.
  change (2 ^ 16) with 65536. change (2 ^ 8) with 256.
  splits; Z.div_mod_to_equations; lia.
Qed.
End Bytes.

Lemma digits_join g :
  0 <= g < 2 ^ 24 →
  Z.shiftl (Z.shiftl (Z.shiftl ((g / 64 ^ 3) mod 64) 6 + (g / 64 ^ 2) mod 64) 6 +
    (g / 64 ^ 1) mod 64) 6 + (g / 64 ^ 0) mod 64 = g.
Proof.
  intros Hg. rewrite !Z.shiftl_mul_pow2 by lia.
  change (64 ^ 3) with 262144. change (64 ^ 2) with 4096. change (64 ^ 1) with 64.
  change (64 ^ 0) with 1. change (2 ^ 6) with 64. change (2 ^ 24) with 16777216 in Hg.
  Z.div_mod_to_equations. lia.
Qed.

Lemma sextet_chars g i :
  rd member (schar (sextet g i)) = Ok 1 ∧
  rd decoder (schar (sextet g i)) = Ok ((g / 64 ^ i) mod 64) ∧
  sextet g i ≠ 0 ∧ sextet g i ≠ PAD.
Proof. apply alpha_chars, Z.mod_pos_bound. lia. Qed.

#[local] Opaque sextet.
#[local] Arguments PAD : simpl never.
#[local] Arguments rd : simpl never.

(** One digit of the decoder's input, inside a group and at its end. *)
Lemma decode_digit g i rest b n m :
  n + 1 = m → m ≠ 4 →
  b64_decode_loop (sextet g i :: rest) b n =
  b64_decode_loop rest (Z.shiftl (b + (g / 64 ^ i) mod 64) 6) m.
Proof.
  intros <- Hn. destruct (sextet_chars g i) as (Hm & Hd & _ & Hp). simpl.
  apply Z.eqb_neq in Hp. rewrite Hp, Hm, Hd. simpl. by destruct (Z.eqb_spec (n + 1) 4).
Qed.

Lemma decode_digit3 g i rest b :
  b64_decode_loop (sextet g i :: rest) b 3 =
  let b := b + (g / 64 ^ i) mod 64 in
  r ← b64_decode_loop rest 0 0;
  Ok ([u8 (Z.shiftr b 16); u8 (Z.land (Z.shiftr b 8) 0xff); u8 (Z.land b 0xff)] ++ r.1, r.2).
Proof.
  destruct (sextet_chars g i) as (Hm & Hd & _ & Hp). simpl.
  apply Z.eqb_neq in Hp. by rewrite Hp, Hm, Hd.
Qed.

(** The digits of the padded groups at the end of a text. *)
Lemma decode_pad rest b n :
  b64_decode_loop (PAD :: rest) b n =
  Ok (if n =? 1 then ([], 1)
      else if n =? 2 then ([u8 (Z.shiftr b 10)], 0)
      else if n =? 3 then ([u8 (Z.shiftr b 16); u8 (Z.land (Z.shiftr b 8) 0xff)], 0)
      else ([], 0)).
Proof. done. Qed.

Lemma decode_newline crlf rest b n :
  b64_decode_loop (b64_newline crlf ++ rest) b n = b64_decode_loop rest b n.
Proof. by destruct crlf. Qed.

Lemma decode_quad a b c rest :
  is_byte a → is_byte b → is_byte c →
  b64_decode_loop (quad (a * 65536 + b * 256 + c) ++ rest) 0 0 =
  r ← b64_decode_loop rest 0 0; Ok (a :: b :: c :: r.1, r.2).
Proof.
  intros Ha Hb Hc. unfold quad. cbn [app].
  erewrite !decode_digit by done. rewrite decode_digit3, Z.add_0_l.
  rewrite digits_join by by apply group_range. cbv zeta.
  destruct (group_split a b c Ha Hb Hc) as (-> & -> & ->). done.
Qed.

Lemma decode_last1 a rest :
  is_byte a →
  b64_decode_loop (sextet (a * 65536) 3 :: sextet (a * 65536) 2 :: PAD :: rest) 0 0 = Ok ([a], 0).
Proof.
  intros Ha. erewrite !decode_digit by done. rewrite decode_pad.
  change (0 + 1 + 1 =? 1) with false. change (0 + 1 + 1 =? 2) with true. cbv iota. do 3 f_equal. unfold is_byte in *. unfold u8.
  rewrite Z.shiftr_div_pow2, !Z.shiftl_mul_pow2 by lia.
  change (64 ^ 3) with 262144. change (64 ^ 2) with 4096.
  change (2 ^ 6) with 64. change (2 ^ 10) with 1024. change (2 ^ 8) with 256.
  Z.div_mod_to_equations. lia.
Qed.

Lemma decode_last2 a b rest :
  is_byte a → is_byte b → let g := a * 65536 + b * 256 in
  b64_decode_loop (sextet g 3 :: sextet g 2 :: sextet g 1 :: PAD :: rest) 0 0 = Ok ([a; b], 0).
Proof.
  intros Ha Hb g. erewrite !decode_digit by done. rewrite decode_pad.
  change (0 + 1 + 1 + 1 =? 1) with false. change (0 + 1 + 1 + 1 =? 2) with false.
  change (0 + 1 + 1 + 1 =? 3) with true. cbv iota. assert (E : g = a * 65536 + b * 256 + 0) by lia.
  assert (Hg : 0 <= g < 2 ^ 24) by (unfold is_byte in *; lia).
  assert (Hz : (g / 64 ^ 0) mod 64 = 0).
  { change (64 ^ 0) with 1. rewrite Z.div_1_r. unfold g. Z.div_mod_to_equations. lia. }
  assert (Hj := digits_join g Hg). rewrite Hz, Z.add_0_r in Hj. rewrite Z.add_0_l, Hj.
  destruct (group_split a b 0 Ha Hb ltac:(unfold is_byte; lia)) as (H1 & H2 & _).
  rewrite <- E in H1, H2. by rewrite H1, H2.
Qed.

(** Whole groups through the encoder: three bytes, then a text that ends with
    one or two. *)
Definition b64_wraps (max_columns k : Z) : bool := negb (max_columns =? 0) && (k + 4 =? max_columns).

Lemma shift_add2 a b c :
  Z.shiftl (Z.shiftl (0 + a) 8 + b) 8 + c = a * 65536 + b * 256 + c.
Proof. rewrite !Z.shiftl_mul_pow2 by lia. lia. Qed.

Lemma encode_group mc crlf k cl a b c s :
  is_byte a → is_byte b → is_byte c →
  b64_encode_loop mc crlf (B64 0 0 k cl) (a :: b :: c :: s) =
  quad (a * 65536 + b * 256 + c) ++
  if b64_wraps mc k then b64_newline crlf ++ b64_encode_loop mc crlf (B64 0 0 0 true) s
  else b64_encode_loop mc crlf (B64 0 0 (if mc =? 0 then k else k + 4) cl) s.
Proof.
  intros Ha Hb Hc. simpl. unfold b64_encode_byte. simpl bits. simpl char_count.
  change (0 + 1 =? 3) with false. change (0 + 1 + 1 =? 3) with false.
  change (0 + 1 + 1 + 1 =? 3) with true. cbv iota. cbn [bits char_count cols columns app].
  rewrite shift_add2.
  destruct (group_sextets _ (group_range a b c Ha Hb Hc)) as (-> & -> & -> & ->).
  unfold b64_wraps, quad. destruct (mc =? 0); [done|]. by destruct (k + 4 =? mc); destruct crlf.
Qed.

Definition b64_tail (crlf : bool) (k : Z) (cl : bool) : list Z :=
  if cl && (0 <? k) then b64_newline crlf else [].

Lemma encode_last1 mc crlf k cl a :
  is_byte a →
  b64_encode_loop mc crlf (B64 0 0 k cl) [a] =
  sextet (a * 65536) 3 :: sextet (a * 65536) 2 :: PAD :: PAD :: b64_tail crlf k cl.
Proof.
  intros Ha. simpl. unfold b64_encode_byte. simpl. unfold b64_encode_finish, b64_tail. simpl.
  rewrite !Z.shiftl_mul_pow2 by lia.
  replace ((0 + a) * 2 ^ 8 * 2 ^ (16 - 8 * (0 + 1))) with (a * 65536) by lia.
  assert (Hg : 0 <= a * 65536 < 2 ^ 24) by (unfold is_byte in *; lia).
  destruct (group_sextets _ Hg) as (-> & -> & _). done.
Qed.

Lemma encode_last2 mc crlf k cl a b :
  is_byte a → is_byte b → let g := a * 65536 + b * 256 in
  b64_encode_loop mc crlf (B64 0 0 k cl) [a; b] =
  sextet g 3 :: sextet g 2 :: sextet g 1 :: PAD :: b64_tail crlf k cl.
Proof.
  intros Ha Hb g. simpl. unfold b64_encode_byte. simpl. unfold b64_encode_finish, b64_tail. simpl.
  rewrite !Z.shiftl_mul_pow2 by lia.
  replace (((0 + a) * 2 ^ 8 + b) * 2 ^ 8 * 2 ^ (16 - 8 * (0 + 1 + 1))) with g by lia.
  assert (Hg : 0 <= g < 2 ^ 24) by (unfold is_byte in *; lia).
  destruct (group_sextets _ Hg) as (-> & -> & -> & _). done.
Qed.

Lemma encode_nil mc crlf k cl :
  b64_encode_loop mc crlf (B64 0 0 k cl) [] = b64_tail crlf k cl.
Proof. done. Qed.

(** What the first loop of the decoder goes through. *)
Definition b64_char (c : Z) : bool :=
  negb (c =? 0) &&
  match rd member (schar c) with
  | Ok b => (b =? 1) || (c =? PAD) || u__isspace c
  | Fail _ => false
  end.

Lemma b64_scan_all out rest :
  forallb b64_char out = true → b64_scan (out ++ rest) (length out) = Ok (length out).
Proof.
  induction out as [|c out IH]; [by destruct rest|]. cbn [forallb app length b64_scan]. intros H.
  apply andb_prop in H as [Hc Ho]. unfold b64_char in Hc.
  apply andb_prop in Hc as [H0 Hc]. apply negb_true_iff in H0. rewrite H0.
  destruct (rd member (schar c)); [|done].
  simpl in Hc |- *. rewrite Hc, IH by done. done.
Qed.

Lemma b64_char_sextet g i : b64_char (sextet g i) = true.
Proof.
  destruct (sextet_chars g i) as (Hm & _ & H0 & _). unfold b64_char. rewrite Hm.
  by apply Z.eqb_neq in H0 as ->.
Qed.

Lemma b64_char_newline crlf : forallb b64_char (b64_newline crlf) = true.
Proof. by destruct crlf. Qed.

Lemma b64_char_tail crlf k cl : forallb b64_char (b64_tail crlf k cl) = true.
Proof. unfold b64_tail. by destruct (cl && _), crlf. Qed.

Lemma b64_char_encode mc crlf s : bytes s → ∀ k cl,
  forallb b64_char (b64_encode_loop mc crlf (B64 0 0 k cl) s) = true.
Proof.
  induction s as [|a|a b|a b c s IH] using list_ind3; intros Hs k cl; forall_inv.
  - rewrite encode_nil. apply b64_char_tail.
  - rewrite encode_last1 by done. cbn [forallb]. rewrite !b64_char_sextet, b64_char_tail. done.
  - rewrite encode_last2 by done. cbn [forallb]. rewrite !b64_char_sextet, b64_char_tail. done.
  - rewrite encode_group by done. rewrite forallb_app. unfold quad at 1. cbn [forallb].
    rewrite !b64_char_sextet. case_match; rewrite ?forallb_app, ?b64_char_newline, IH by done; done.
Qed.

Lemma b64_decode_encode mc crlf s : bytes s → ∀ k cl,
  b64_decode_loop (b64_encode_loop mc crlf (B64 0 0 k cl) s) 0 0 = Ok (s, 0).
Proof.
  induction s as [|a|a b|a b c s IH] using list_ind3; intros Hs k cl; forall_inv.
  - rewrite encode_nil. unfold b64_tail. by destruct (cl && _), crlf.
  - rewrite encode_last1 by done. by apply decode_last1.
  - rewrite encode_last2 by done. by apply decode_last2.
  - rewrite encode_group by done. rewrite decode_quad by done.
    case_match; rewrite ?decode_newline, IH by done; done.
Qed.

(** The text without its line terminators. *)
Definition unwrap (out : list Z) : list Z := List.filter (λ c, negb ((c =? 10) || (c =? 13))) out.

Lemma unwrap_app x y : unwrap (x ++ y) = unwrap x ++ unwrap y.
Proof. apply List.filter_app. Qed.

Lemma unwrap_cons c x : b64_char c = true → u__isspace c = false → unwrap (c :: x) = c :: unwrap x.
Proof.
  intros _ Hsp. unfold unwrap. simpl.
  destruct (Z.eqb_spec c 10) as [->|]; [done|]. by destruct (Z.eqb_spec c 13) as [->|].
Qed.

Lemma unwrap_sextet g i x : unwrap (sextet g i :: x) = sextet g i :: unwrap x.
Proof.
  destruct (sextet_chars g i) as (Hm & _ & H0 & _). unfold unwrap. cbn [List.filter].
  destruct (Z.eqb_spec (sextet g i) 10) as [E|]; [by rewrite E in Hm|].
  destruct (Z.eqb_spec (sextet g i) 13) as [E|]; [by rewrite E in Hm|]. done.
Qed.

Lemma unwrap_newline crlf x : unwrap (b64_newline crlf ++ x) = unwrap x.
Proof. by destruct crlf. Qed.

Lemma unwrap_tail crlf k cl : unwrap (b64_tail crlf k cl) = [].
Proof. unfold b64_tail. by destruct (cl && _), crlf. Qed.

Lemma unwrap_pad x : unwrap (PAD :: x) = PAD :: unwrap x.
Proof. done. Qed.

Lemma unwrap_encode mc crlf s : bytes s → ∀ k cl,
  unwrap (b64_encode_loop mc crlf (B64 0 0 k cl) s) = rfc4648 s.
Proof.
  induction s as [|a|a b|a b c s IH] using list_ind3; intros Hs k cl; forall_inv.
  - by rewrite encode_nil, unwrap_tail.
  - by rewrite encode_last1, !unwrap_sextet, !unwrap_pad, unwrap_tail by done.
  - by rewrite encode_last2, !unwrap_sextet, !unwrap_pad, unwrap_tail by done.
  - rewrite encode_group by done. unfold quad. cbn [app]. rewrite !unwrap_sextet. simpl rfc4648.
    case_match; rewrite ?unwrap_newline, IH by done; done.
Qed.

(** ** Properties *)

(** C31: decoding what the encoder produced gives the bytes back with no error reported,
    for every line width and terminator, whatever follows the text in memory. *)
Theorem base64_roundtrip mc crlf s rest :
  bytes s →
  let text := u_base64_encode mc crlf s in
  u_base64_decode (text ++ rest) (length text) = Ok (s, 0).
Proof.
  intros Hs text. unfold u_base64_decode. subst text. unfold u_base64_encode.
  rewrite b64_scan_all by by apply b64_char_encode. simpl.
  rewrite take_app_length. by apply b64_decode_encode.
Qed.

Lemma base64_roundtrip_witness :
  let text := u_base64_encode 8 true (BS "hello world") in
  u_base64_decode (text ++ [255]) (length text) = Ok (BS "hello world", 0).
Proof. apply base64_roundtrip. repeat constructor; unfold is_byte; lia. Defined.

(** Up to the line terminators it inserts, the encoder computes the RFC 4648 encoding,
    for every line width and terminator. *)
Theorem base64_encode_rfc4648 mc crlf s :
  bytes s → unwrap (u_base64_encode mc crlf s) = rfc4648 s.
Proof. intros Hs. by apply unwrap_encode. Qed.

Lemma base64_encode_rfc4648_witness :
  unwrap (u_base64_encode 8 true (BS "hello world")) = rfc4648 (BS "hello world").
Proof. apply base64_encode_rfc4648. repeat constructor; unfold is_byte; lia. Defined.

(** The decoder indexes its tables with a plain [char], so a byte over 127 among the
    [len] ones, after bytes of the alphabet, makes it read before the table. *)
Theorem base64_decode_high_byte pre c rest len :
  forallb b64_char pre = true → 128 <= c < 256 → (length pre < len)%nat →
  u_base64_decode (pre ++ c :: rest) len = Fail OutOfBounds.
Proof.
  intros Hp Hc Hl. unfold u_base64_decode.
  assert (b64_scan (pre ++ c :: rest) len = Fail OutOfBounds) as ->; [|done].
  revert len Hl. induction pre as [|x pre IH]; intros [|len] Hl; simpl in Hl; try lia.
  - simpl. destruct (Z.eqb_spec c 0); [lia|]. unfold schar.
    destruct (Z.ltb_spec c 128); [lia|]. unfold rd. by destruct (Z.ltb_spec (c - 256) 0); [|lia].
  - cbn [forallb] in Hp. apply andb_prop in Hp as [Hx Hp]. unfold b64_char in Hx.
    apply andb_prop in Hx as [H0 Hx]. apply negb_true_iff in H0. simpl. rewrite H0.
    destruct (rd member (schar x)); [|done]. simpl in Hx |- *. rewrite Hx, IH by (done || lia). done.
Qed.

Lemma base64_decode_high_byte_witness :
  u_base64_decode (BS "Zm9v" ++ 195 :: BS "Zg") 7 = Fail OutOfBounds.
Proof. apply base64_decode_high_byte; [reflexivity|lia|simpl; lia]. Defined.
