(* ===== verification/Xml.v ===== *)
(** * XML escaping ([src/ulib/base/coder/cxml_coder.c])

    Both loops run while [input < end], but look at the bytes after [end] that
    follow an ampersand: [m] is the memory from [input] on, [n] is [end - input]
    and the loops get as much fuel as [n], each turn taking at least one byte. *)

From S2P Require Import Prelude CType.

Definition u_set_quot : list Z := BS "&quot;".
Definition u_set_amp : list Z := BS "&amp;".
Definition u_set_apos : list Z := BS "&apos;".
Definition u_set_lt : list Z := BS "&lt;".
Definition u_set_gt : list Z := BS "&gt;".

(** [U_STRNEQ(m, l1) || U_STRNEQ(m, l2) || ...] *)
Fixpoint strneq_any (m : list Z) (lits : list (list Z)) : res bool :=
  match lits with
  | [] => Ok false
  | l :: lits' => b ← strneq m l; if b : bool then Ok true else strneq_any m lits'
  end.

(** Is the ampersand before [m] the start of an entity already? *)
Definition xml_encoded (m : list Z) : res bool :=
  c ← rd m 0;
  if c =? CH "#" then Ok true
  else strneq_any m [BS "quot;"; BS "amp;"; BS "lt;"; BS "gt;"; BS "apos;"].

(** [while (( *r = *input) != ';') { ++r; ++input; }]: what is copied, and the
    memory from the semicolon on. *)
Fixpoint xml_copy (m : list Z) : res (list Z * list Z) :=
  match m with
  | [] => Fail OutOfBounds
  | c :: m' =>
      if c =? CH ";" then Ok ([], m)
      else r ← xml_copy m'; Ok (c :: r.1, r.2)
  end.

(** The five characters of the [strchr] call. *)
Definition xml_specials : list Z := 34 :: BS "&'<>".

Fixpoint xml_encode_loop (fuel : nat) (m : list Z) (n : Z) : res (list Z) :=
  if n <=? 0 then Ok [] else
  match fuel with
  | O => Fail OutOfFuel
  | S fuel' =>
      match m with
      | [] => Fail OutOfBounds
      | ch :: m' =>
          if u__isalnum ch || negb (strchr_lit xml_specials ch) then
            r ← xml_encode_loop fuel' m' (n - 1); Ok (ch :: r)
          else if ch =? CH "&" then
            e ← xml_encoded m';
            if e : bool then
              cp ← xml_copy m';
              r ← xml_encode_loop fuel' cp.2 (n - 1 - Z.of_nat (length cp.1));
              Ok (CH "&" :: cp.1 ++ r)
            else r ← xml_encode_loop fuel' m' (n - 1); Ok (u_set_amp ++ r)
          else
            r ← xml_encode_loop fuel' m' (n - 1);
            Ok ((if ch =? 34 then u_set_quot
                 else if ch =? CH "'" then u_set_apos
                 else if ch =? CH "<" then u_set_lt
                 else if ch =? CH ">" then u_set_gt
                 else [ch]) ++ r)
      end
  end.

Definition u_xml_encode (input : list Z) (len : nat) : res (list Z) :=
  xml_encode_loop len input (Z.of_nat len).

(** ** [strtol(m, &m, 0)] of the C library, with its result clamped to a [long] *)

Definition c_isspace (c : Z) : bool := (c =? 32) || ((9 <=? c) && (c <=? 13)).

Fixpoint skip_space (m : list Z) : res (list Z) :=
  match m with
  | [] => Fail OutOfBounds
  | c :: m' => if c_isspace c then skip_space m' else Ok m
  end.

Definition digit_val (c : Z) : Z :=
  if (CH "0" <=? c) && (c <=? CH "9") then c - CH "0"
  else if (CH "a" <=? c) && (c <=? CH "z") then c - CH "a" + 10
  else if (CH "A" <=? c) && (c <=? CH "Z") then c - CH "A" + 10
  else 36.

Fixpoint strtol_digits (base acc : Z) (m : list Z) : res (Z * list Z) :=
  match m with
  | [] => Fail OutOfBounds
  | c :: m' =>
      if digit_val c <? base then strtol_digits base (acc * base + digit_val c) m'
      else Ok (acc, m)
  end.

Definition clamp_long (x : Z) : Z := Z.max (- 2 ^ 63) (Z.min (2 ^ 63 - 1) x).

(** The value and the memory after the number; [m] itself when there is none. *)
Definition strtol0 (m : list Z) : res (Z * list Z) :=
  m1 ← skip_space m;
  s ← rd m1 0;
  let m2 := if (s =? CH "-") || (s =? CH "+") then drop 1 m1 else m1 in
  c ← rd m2 0;
  if 10 <=? digit_val c then Ok (0, m)
  else
    hex ← (if c =? CH "0" then
             x ← rd m2 1;
             if (x =? CH "x") || (x =? CH "X")
             then h ← rd m2 2; Ok (digit_val h <? 16) else Ok false
           else Ok false);
    r ← (if hex : bool then strtol_digits 16 0 (drop 2 m2)
         else if c =? CH "0" then strtol_digits 8 0 m2 else strtol_digits 10 0 m2);
    Ok (clamp_long (if s =? CH "-" then - r.1 else r.1), r.2).

(** The named entities, in the order of the tests, with their characters. *)
Definition xml_entities : list (list Z * Z) :=
  [(BS "amp;", CH "&"); (BS "lt;", CH "<"); (BS "gt;", CH ">"); (BS "quot;", 34); (BS "apos;", CH "'")].

(** The first entity of the list that [m] starts with. *)
Fixpoint xml_entity (m : list Z) (l : list (list Z * Z)) : res (option (list Z * Z)) :=
  match l with
  | [] => Ok None
  | e :: l' => b ← strneq m e.1; if b : bool then Ok (Some e) else xml_entity m l'
  end.

Fixpoint xml_decode_loop (fuel : nat) (m : list Z) (n : Z) : res (list Z) :=
  if n <=? 0 then Ok [] else
  match fuel with
  | O => Fail OutOfFuel
  | S fuel' =>
      match m with
      | [] => Fail OutOfBounds
      | ch :: m' =>
          if negb (ch =? CH "&") then
            r ← xml_decode_loop fuel' m' (n - 1); Ok (ch :: r)
          else
            e ← xml_entity m' xml_entities;
            match e with
            | Some (name, c) =>
                r ← xml_decode_loop fuel' (drop (length name) m') (n - 1 - Z.of_nat (length name));
                Ok (c :: r)
            | None =>
                c ← rd m' 0;
                if c =? CH "#" then
                  v ← strtol0 (drop 1 m');
                  let rest := drop 1 v.2 in
                  r ← xml_decode_loop fuel' rest (n - (Z.of_nat (length m) - Z.of_nat (length rest)));
                  Ok (u8 v.1 :: r)
                else r ← xml_decode_loop fuel' m' (n - 1); Ok (ch :: r)
            end
      end
  end.

Definition u_xml_decode (input : list Z) (len : nat) : res (list Z) :=
  xml_decode_loop len input (Z.of_nat len).

(** ** Reference *)

Definition xml_escape (c : Z) : list Z :=
  if c =? CH "&" then u_set_amp else if c =? 34 then u_set_quot
  else if c =? CH "'" then u_set_apos else if c =? CH "<" then u_set_lt
  else if c =? CH ">" then u_set_gt else [c].

(** No ampersand of the text is followed by what the encoder takes for an entity. *)
Fixpoint xml_plain (s : list Z) : bool :=
  match s with
  | [] => true
  | c :: s' =>
      (if c =? CH "&" then bool_decide (xml_encoded (s' ++ [0]) = Ok false) else true) && xml_plain s'
  end.

(** ** Lemmas *)

(** A NUL ends every comparison with a literal. *)
Lemma strneq_nul lit s rest :
  forallb (λ c, negb (c =? 0)) lit = true → strneq (s ++ 0 :: rest) lit = strneq (s ++ [0]) lit.
Proof.
  revert s. induction lit as [|c lit IH]; intros s Hl; [done|].
  cbn [forallb] in Hl. apply andb_prop in Hl as [Hc Hl]. destruct s as [|x s]; simpl.
  - by destruct (Z.eqb_spec 0 c) as [<-|].
  - destruct (x =? c); [by apply IH|done].
Qed.

Lemma strneq_any_nul lits s rest :
  forallb (forallb (λ c, negb (c =? 0))) lits = true →
  strneq_any (s ++ 0 :: rest) lits = strneq_any (s ++ [0]) lits.
Proof.
  induction lits as [|l lits IH]; [done|]. cbn [forallb]. intros H.
  apply andb_prop in H as [Hl Hls]. simpl. by rewrite (strneq_nul l), IH.
Qed.

Lemma xml_encoded_nul s rest : xml_encoded (s ++ 0 :: rest) = xml_encoded (s ++ [0]).
Proof.
  unfold xml_encoded. rewrite strneq_any_nul by done. by destruct s.
Qed.

Lemma xml_passes c :
  is_byte c → (u__isalnum c || negb (strchr_lit xml_specials c)) = true → xml_escape c = [c].
Proof.
  intros Hc H. unfold xml_escape.
  repeat (case_match; [by match goal with E : (c =? _) = true |- _ =>
    apply Z.eqb_eq in E as -> end|]). done.
Qed.

Lemma xml_encode_plain s rest fuel :
  bytes s → xml_plain s = true → (length s ≤ fuel)%nat →
  xml_encode_loop fuel (s ++ 0 :: rest) (Z.of_nat (length s)) = Ok (concat (map xml_escape s)).
Proof.
  intros Hs. revert fuel. induction Hs as [|c s Hc Hs IH]; intros fuel Hp Hf;
    [by destruct fuel|].
  destruct fuel as [|fuel]; [simpl in Hf; lia|]. cbn [xml_plain] in Hp.
  apply andb_prop in Hp as [Hamp Hp]. cbn [length app map concat xml_encode_loop].
  destruct (Z.leb_spec (Z.of_nat (S (length s))) 0); [lia|].
  replace (Z.of_nat (S (length s)) - 1) with (Z.of_nat (length s)) by lia.
  assert (Hf' : (length s ≤ fuel)%nat) by (simpl in Hf; lia). rewrite (IH fuel Hp Hf').
  destruct (u__isalnum c || _) eqn:Hpass; [by rewrite xml_passes|].
  unfold xml_escape. destruct (c =? 38) eqn:Ec; [|by cbn; repeat case_match].
  apply bool_decide_eq_true in Hamp. by rewrite xml_encoded_nul, Hamp.
Qed.

Lemma xml_decode_escape s rest fuel :
  (length (concat (map xml_escape s)) ≤ fuel)%nat →
  xml_decode_loop fuel (concat (map xml_escape s) ++ 0 :: rest)
    (Z.of_nat (length (concat (map xml_escape s)))) = Ok s.
Proof.
  revert fuel. induction s as [|c s IH]; intros fuel; [by destruct fuel|].
  simpl. set (t := concat (map xml_escape s)) in *.
  assert (Hent : ∀ name x, (length name + S (length t) ≤ fuel)%nat →
    In (name, x) xml_entities →
    xml_decode_loop fuel ((CH "&" :: name ++ t) ++ 0 :: rest)
      (Z.of_nat (length (CH "&" :: name ++ t))) = Ok (x :: s)).
  { intros name x Hf Hin. destruct fuel as [|fuel]; [lia|].
    assert (Hx : xml_entity (name ++ t ++ 0 :: rest) xml_entities = Ok (Some (name, x))).
    { simpl in Hin. by repeat (destruct Hin as [[= <- <-]|Hin]; [done|]). }
    cbn [app length xml_decode_loop]. rewrite <- app_assoc, Hx.
    destruct (Z.leb_spec (Z.of_nat (S (length (name ++ t)))) 0); [lia|]. simpl.
    rewrite drop_app_length. rewrite length_app.
    replace (Z.of_nat _ - 1 - _) with (Z.of_nat (length t)) by lia.
    rewrite IH by lia. done. }
  rewrite length_app. intros Hf. rewrite <- length_app. unfold xml_escape in *.
  destruct (Z.eqb_spec c 38) as [->|H38]; [by apply (Hent (BS "amp;")); [simpl in *; lia|left]|].
  destruct (Z.eqb_spec c 34) as [->|]; [by apply (Hent (BS "quot;")); [simpl in *; lia|do 3 right; left]|].
  destruct (Z.eqb_spec c 39) as [->|]; [by apply (Hent (BS "apos;")); [simpl in *; lia|do 4 right; left]|].
  destruct (Z.eqb_spec c 60) as [->|]; [by apply (Hent (BS "lt;")); [simpl in *; lia|right; left]|].
  destruct (Z.eqb_spec c 62) as [->|]; [by apply (Hent (BS "gt;")); [simpl in *; lia|do 2 right; left]|].
  destruct fuel as [|fuel]; [simpl in Hf; lia|].
  cbn [app length xml_decode_loop]. destruct (Z.leb_spec (Z.of_nat (S (length t))) 0); [lia|].
  apply Z.eqb_neq in H38. rewrite H38. simpl.
  replace (Z.of_nat _ - 1) with (Z.of_nat (length t)) by lia.
  rewrite IH by (simpl in Hf; lia). done.
Qed.

Lemma xml_copy_body body rest :
  forallb (λ c, negb (c =? CH ";")) body = true →
  xml_copy (body ++ CH ";" :: rest) = Ok (body, CH ";" :: rest).
Proof.
  induction body as [|c body IH]; [done|]. cbn [forallb]. intros H.
  apply andb_prop in H as [Hc Hb]. apply negb_true_iff in Hc. simpl. by rewrite Hc, IH.
Qed.

Lemma xml_copy_unterminated body :
  forallb (λ c, negb (c =? CH ";")) body = true → xml_copy body = Fail OutOfBounds.
Proof.
  induction body as [|c body IH]; [done|]. cbn [forallb]. intros H.
  apply andb_prop in H as [Hc Hb]. apply negb_true_iff in Hc. simpl. by rewrite Hc, IH.
Qed.

(** ** Properties *)

(** C33: a text in which no ampersand starts something that looks like an entity is
    encoded by replacing each of the five special characters by its entity, so that
    neither a quote nor a bracket is left, and decoding gives the text back. *)
Theorem xml_roundtrip s rest rest' :
  bytes s → xml_plain s = true →
  ∃ text, u_xml_encode (s ++ 0 :: rest) (length s) = Ok text ∧
    text = concat (map xml_escape s) ∧
    Forall (λ c, c ≠ 34 ∧ c ≠ CH "'" ∧ c ≠ CH "<" ∧ c ≠ CH ">") text ∧
    u_xml_decode (text ++ 0 :: rest') (length text) = Ok s.
Proof.
  intros Hs Hp. exists (concat (map xml_escape s)). split; [by apply xml_encode_plain|].
  split; [done|]. split; [|by apply xml_decode_escape].
  clear. induction s as [|c s IH]; [constructor|]. simpl. apply Forall_app. split; [|done].
  unfold xml_escape. zcases; repeat constructor; try done; lia.
Qed.

Lemma xml_roundtrip_witness :
  ∃ text, u_xml_encode (BS "a<b> & 'c'" ++ [0]) 10 = Ok text ∧
    text = concat (map xml_escape (BS "a<b> & 'c'")) ∧
    Forall (λ c, c ≠ 34 ∧ c ≠ CH "'" ∧ c ≠ CH "<" ∧ c ≠ CH ">") text ∧
    u_xml_decode (text ++ [0]) (length text) = Ok (BS "a<b> & 'c'").
Proof.
  apply (xml_roundtrip (BS "a<b> & 'c'") [] []); [|reflexivity].
  repeat constructor; unfold is_byte; lia.
Defined.

(** After [&#] the encoder copies everything up to the next semicolon as it is, whatever
    it is: brackets and quotes go through; and when no semicolon follows in the memory, it
    reads past its end. *)
Theorem xml_encode_numeric body rest :
  forallb (λ c, negb (c =? CH ";")) body = true →
  u_xml_encode (BS "&#" ++ body ++ CH ";" :: rest) (length body + 3) = Ok (BS "&#" ++ body ++ BS ";") ∧
  u_xml_encode (BS "&#" ++ body) (length body + 2) = Fail OutOfBounds.
Proof.
  intros Hb. unfold u_xml_encode. split.
  - replace (length body + 3)%nat with (S (S (length body + 1))) at 1 by lia.
    simpl. destruct (Z.leb_spec (Z.of_nat (length body + 3)) 0); [lia|].
    rewrite xml_copy_body by done. simpl.
    destruct (Z.leb_spec (Z.of_nat (length body + 3) - 1 - Z.of_nat (S (length body))) 0); [lia|].
    rewrite Nat.add_1_r. simpl. zcases; try lia. done.
  - replace (length body + 2)%nat with (S (length body + 1)) at 1 by lia.
    simpl. destruct (Z.leb_spec (Z.of_nat (length body + 2)) 0); [lia|].
    by rewrite xml_copy_unterminated.
Qed.

Lemma xml_encode_numeric_witness :
  u_xml_encode (BS "&#<script>;") 11 = Ok (BS "&#<script>;") ∧
  u_xml_encode (BS "&#<script>") 10 = Fail OutOfBounds.
Proof. apply (xml_encode_numeric (BS "<script>") []). reflexivity. Defined.

(** [strtol] with base 0 does not know the [x] of an XML hexadecimal character
    reference, so [&#x] is decoded as a NUL byte and the digits stay in the text. *)
Theorem xml_decode_hex digits rest :
  forallb u__isxdigit digits = true →
  u_xml_decode (BS "&#x" ++ digits ++ CH ";" :: rest) (length digits + 4) = Ok (0 :: digits ++ BS ";").
Proof.
  intros Hd. unfold u_xml_decode.
  replace (length digits + 4)%nat with (S (length digits + 3)) at 1 by lia.
  assert (Hcopy : ∀ ds fuel, forallb u__isxdigit ds = true → (length ds < fuel)%nat →
    xml_decode_loop fuel (ds ++ CH ";" :: rest) (Z.of_nat (length ds + 1)) = Ok (ds ++ BS ";")).
  { clear. induction ds as [|d ds IH]; intros [|fuel] Hd Hf; simpl in Hf; try lia.
    - simpl. by destruct fuel.
    - cbn [forallb] in Hd. apply andb_prop in Hd as [Hc Hd]. cbn [length app xml_decode_loop].
      destruct (Z.leb_spec (Z.of_nat (S (length ds) + 1)) 0); [lia|].
      destruct (Z.eqb_spec d 38) as [->|]; [done|]. simpl.
      replace (Z.of_nat _ - 1) with (Z.of_nat (length ds + 1)) by lia.
      rewrite IH by (done || lia). done. }
  simpl. destruct (Z.leb_spec (Z.of_nat (length digits + 4)) 0); [lia|].
  rewrite drop_0, length_app.
  replace (_ - (_ - _)) with (Z.of_nat (length digits + 1)) by (simpl length; lia).
  rewrite Hcopy by (done || lia). done.
Qed.

Lemma xml_decode_hex_witness :
  u_xml_decode (BS "&#x41;!") 6 = Ok [0; 52; 49; 59].
Proof. exact (xml_decode_hex (BS "41") (BS "!") eq_refl). Defined.
