(* ===== verification/QuotedPrintable.v ===== *)
(** * Quoted-printable ([src/ulib/base/coder/cquoted_printable.c]) *)

From S2P Require Import Prelude CType.

(** The encoder keeps the column [n] and a pending blank [ws] (0 when none). *)
Definition qp_hex (c : Z) : list Z :=
  [CH "="; hexd u_hex_upper (Z.shiftr c 4); hexd u_hex_upper c].

Definition qp_opt (ws : Z) : list Z := if ws =? 0 then [] else [ws].

Definition qp_blank (c : Z) : bool := (c =? CH " ") || (c =? 9).

(** The [switch] on the next byte: what is stored, the new column and blank. *)
Definition qp_switch (n ws ch : Z) : list Z * Z * Z :=
  let n1 := if ws =? 0 then n else n + 1 in
  if qp_blank ch then (qp_opt ws, n1, ch)
  else if (ch =? 13) || (ch =? 10) then
    ((if ws =? 0 then [] else qp_hex ws) ++ [ch], 0, 0)
  else if (126 <? ch) || (ch <? 33) || (ch =? CH "=") then (qp_opt ws ++ qp_hex ch, n1 + 3, 0)
  else (qp_opt ws ++ [ch], n1 + 1, 0).

(** The loop; a blank still pending at its end is not written. *)
Fixpoint qp_encode_loop (n ws : Z) (input : list Z) : list Z :=
  match input with
  | [] => []
  | ch :: input' =>
      let '(o, n, ws) := qp_switch n ws ch in
      if 71 <? n then o ++ qp_opt ws ++ [CH "="; 10] ++ qp_encode_loop 0 0 input'
      else o ++ qp_encode_loop n ws input'
  end.

Definition u_quoted_printable_encode (input : list Z) : list Z := qp_encode_loop 0 0 input.

(** The decoder: [m] is the memory from [inptr] on, [n] is [inend - inptr]. *)
Definition qp_value (c0 c1 : Z) : Z :=
  u8 (Z.lor (Z.shiftl (Z.land (u__hexc2int c0) 0x0f) 4) (Z.land (u__hexc2int c1) 0x0f)).

(** [v == 0x0D && *(inptr+3) == '=' && *(inptr+4) == 0x0A] *)
Definition qp_crlf (v : Z) (m : list Z) : res bool :=
  if v =? 0x0D then
    c3 ← rd m 3;
    if c3 =? CH "=" then c4 ← rd m 4; Ok (c4 =? 0x0A) else Ok false
  else Ok false.

Fixpoint qp_decode_loop (fuel : nat) (m : list Z) (n : Z) : res (list Z) :=
  if n <=? 0 then Ok [] else
  match fuel with
  | O => Fail OutOfFuel
  | S fuel' =>
      c0 ← rd m 0;
      if c0 =? CH "=" then
        if n <? 3 then Ok []
        else
          c0 ← rd m 1; c1 ← rd m 2;
          if u__isxdigit c0 && u__isxdigit c1 then
            let v := qp_value c0 c1 in
            b ← qp_crlf v m;
            if b : bool then
              c5 ← rd m 5;
              let k := if u__isalnum c5 then 5%nat else 6%nat in
              r ← qp_decode_loop fuel' (drop k m) (n - Z.of_nat k); Ok (10 :: r)
            else r ← qp_decode_loop fuel' (drop 3 m) (n - 3); Ok (v :: r)
          else if c0 =? 10 then qp_decode_loop fuel' (drop 2 m) (n - 2)
          else r ← qp_decode_loop fuel' (drop 1 m) (n - 1); Ok (c0 :: r)
      else
        r ← qp_decode_loop fuel' (drop 1 m) (n - 1);
        Ok ((if c0 =? CH "_" then CH " " else c0) :: r)
  end.

Definition u_quoted_printable_decode (input : list Z) (len : nat) : res (list Z) :=
  qp_decode_loop len input (Z.of_nat len).

(** ** Reference: what the decoder turns a character into, and line lengths *)

Definition qp_space (c : Z) : Z := if c =? CH "_" then CH " " else c.

Definition qp_ends_blank (s : list Z) : bool :=
  match last s with Some c => qp_blank c | None => false end.

(** From column [k] on, every line of the text has at most 76 characters. *)
Fixpoint lines_within_76 (k : Z) (text : list Z) : bool :=
  match text with
  | [] => true
  | c :: text' =>
      if (c =? 10) || (c =? 13) then lines_within_76 0 text'
      else (k + 1 <=? 76) && lines_within_76 (k + 1) text'
  end.

Arguments qp_value : simpl never.
Arguments qp_hex : simpl never.

(** ** Lemmas *)

(** The decoder turns the text [t] into [r], whatever follows it. *)
Definition qp_dec (t r : list Z) : Prop := ∀ fuel rest,
  (length t ≤ fuel)%nat → qp_decode_loop fuel (t ++ rest) (Z.of_nat (length t)) = Ok r.

Lemma qp_dec_nil : qp_dec [] [].
Proof. intros [|fuel] rest _; done. Qed.

Lemma qp_dec_plain c t r : c ≠ CH "=" → qp_dec t r → qp_dec (c :: t) (qp_space c :: r).
Proof.
  intros Hc Ht [|fuel] rest Hf; simpl in Hf; [lia|].
  cbn [length app qp_decode_loop]. destruct (Z.leb_spec (Z.of_nat (S (length t))) 0); [lia|].
  simpl. apply Z.eqb_neq in Hc. rewrite Hc.
  replace (Z.of_nat _ - 1) with (Z.of_nat (length t)) by lia.
  rewrite drop_0, Ht by lia. done.
Qed.

Lemma qp_hex_digits c :
  is_byte c →
  u__isxdigit (hexd u_hex_upper (Z.shiftr c 4)) && u__isxdigit (hexd u_hex_upper c) = true ∧
  qp_value (hexd u_hex_upper (Z.shiftr c 4)) (hexd u_hex_upper c) = c.
Proof. intros Hc. split; byte_check c. Qed.

Lemma qp_dec_hex c t r : is_byte c → c ≠ 13 → qp_dec t r → qp_dec (qp_hex c ++ t) (c :: r).
Proof.
  intros Hc H13 Ht [|fuel] rest Hf; simpl in Hf; [lia|]. unfold qp_hex.
  cbn [length app qp_decode_loop]. destruct (Z.leb_spec (Z.of_nat (S (S (S (length t))))) 0); [lia|].
  simpl. destruct (Z.ltb_spec (Z.of_nat (S (S (S (length t))))) 3); [lia|].
  destruct (qp_hex_digits c Hc) as [-> ->]. unfold qp_crlf.
  apply Z.eqb_neq in H13. rewrite H13. simpl.
  replace (Z.of_nat _ - 3) with (Z.of_nat (length t)) by lia.
  rewrite drop_0, Ht by lia. done.
Qed.

Lemma qp_dec_soft t r : qp_dec t r → qp_dec ([CH "="; 10] ++ t) r.
Proof.
  intros Ht [|fuel] rest Hf; simpl in Hf; [lia|].
  cbn [length app qp_decode_loop]. destruct (Z.leb_spec (Z.of_nat (S (S (length t)))) 0); [lia|].
  simpl. destruct (Z.ltb_spec (Z.of_nat (S (S (length t)))) 3).
  - destruct t; [|simpl in *; lia]. by specialize (Ht 0%nat [] ltac:(simpl; lia)).
  - destruct t as [|c t]; [simpl in *; lia|]. simpl.
    replace (Z.of_nat _ - 2) with (Z.of_nat (length (c :: t))) by (simpl; lia).
    by apply (Ht fuel rest); simpl in *; lia.
Qed.

Lemma qp_dec_opt ws t r : qp_blank ws = true ∨ ws = 0 → qp_dec t r → qp_dec (qp_opt ws ++ t) (qp_opt ws ++ r).
Proof.
  intros Hws Ht. unfold qp_opt. destruct (Z.eqb_spec ws 0); [done|].
  destruct Hws as [Hws|]; [|done]. unfold qp_blank in Hws.
  assert (E : ws = 32 ∨ ws = 9) by lia.
  destruct E as [-> | ->]; [by apply (qp_dec_plain 32)|by apply (qp_dec_plain 9)].
Qed.

Lemma qp_ends_blank_cons c s : s ≠ [] → qp_ends_blank (c :: s) = qp_ends_blank s.
Proof. intros Hs. unfold qp_ends_blank. destruct s; [done|]. by rewrite last_cons_cons. Qed.

(** The characters one turn of the encoder writes, decoded before [t]. *)
Lemma qp_switch_dec n ws ch t r :
  is_byte ch → qp_blank ws = true ∨ ws = 0 →
  let '(o, _, ws') := qp_switch n ws ch in
  (qp_blank ws' = true ∧ ws' = ch ∨ ws' = 0 ∧ qp_blank ch = false) ∧
  (qp_dec t r → qp_dec (o ++ t) (qp_opt ws ++ (if ws' =? 0 then [qp_space ch] else []) ++ r)).
Proof.
  intros Hch Hws. unfold qp_switch. destruct (qp_blank ch) eqn:Hb.
  - split; [by left|]. intros Ht. assert (Hz : (ch =? 0) = false).
    { unfold qp_blank in Hb. lia. }
    rewrite Hz. by apply qp_dec_opt.
  - assert (Hsp : ∀ a t r, a = true → ch ≠ CH "=" → qp_dec t r → qp_dec ([ch] ++ t) ([qp_space ch] ++ r)).
    { intros. by apply qp_dec_plain. }
    destruct ((ch =? 13) || (ch =? 10)) eqn:Hnl; [|destruct (_ || (ch =? 61)) eqn:Hhex].
    + split; [by right|]. intros Ht. rewrite <- app_assoc. unfold qp_opt.
      assert (Hne : ch ≠ CH "=") by lia.
      destruct (Z.eqb_spec ws 0); [by apply (Hsp true)|].
      destruct Hws as [Hws|]; [|done]. unfold qp_blank in Hws.
      apply qp_dec_hex; [unfold is_byte; lia|lia|]. by apply (Hsp true).
    + split; [by right|]. intros Ht. rewrite <- app_assoc. apply qp_dec_opt; [done|].
      replace (qp_space ch) with ch.
      { apply qp_dec_hex; [done|lia|done]. }
      unfold qp_space. destruct (Z.eqb_spec ch 95) as [->|]; done.
    + split; [by right|]. intros Ht. rewrite <- app_assoc. apply qp_dec_opt; [done|].
      apply (Hsp true); [done|lia|done].
Qed.

Lemma qp_dec_encode s : bytes s → qp_ends_blank s = false → ∀ n ws,
  (qp_blank ws = true ∧ s ≠ []) ∨ ws = 0 →
  qp_dec (qp_encode_loop n ws s) (qp_opt ws ++ map qp_space s).
Proof.
  intros Hs. induction Hs as [|ch s Hch Hs IH]; intros Hend n ws Hws.
  { destruct Hws as [[_ ?]| ->]; [done|]. apply qp_dec_nil. }
  assert (Hws' : qp_blank ws = true ∨ ws = 0) by (destruct Hws as [[? _]|?]; tauto).
  assert (Hend' : qp_ends_blank s = false).
  { destruct (decide (s = [])) as [->|Hne]; [done|]. by rewrite qp_ends_blank_cons in Hend. }
  simpl. assert (Hsw := λ t r, qp_switch_dec n ws ch t r Hch Hws').
  destruct (qp_switch n ws ch) as [[o n'] ws'].
  assert (Hcase : (qp_blank ws' = true ∧ ws' = ch ∧ s ≠ []) ∨ ws' = 0).
  { destruct (Hsw [] []) as [[[Hb ->]|[-> _]] _]; [left|by right].
    split; [done|]. split; [done|]. intros ->. unfold qp_ends_blank in Hend. simpl in Hend.
    congruence. }
  assert (Hout : ∀ t r, qp_dec t r →
    qp_dec (o ++ t) (qp_opt ws ++ (if ws' =? 0 then [qp_space ch] else []) ++ r)).
  { intros t r. apply Hsw. }
  assert (Hr : ∀ r, qp_opt ws ++ (if ws' =? 0 then [qp_space ch] else []) ++ (qp_opt ws' ++ r)
                    = qp_opt ws ++ qp_space ch :: r).
  { intros r. f_equal. unfold qp_opt. destruct Hcase as [(Hb & -> & _)| ->]; [|done].
    unfold qp_blank in Hb. destruct (Z.eqb_spec ch 0); [lia|].
    unfold qp_space. by destruct (Z.eqb_spec ch 95) as [->|]. }
  rewrite <- Hr. destruct (71 <? n').
  - apply Hout, qp_dec_opt; [tauto|]. apply qp_dec_soft.
    by apply (IH Hend' 0 0); right.
  - apply Hout. apply IH; [done|tauto].
Qed.

(** One turn keeps the count of the column. *)
Lemma lines_opt k ws t :
  qp_blank ws = true ∨ ws = 0 → k <= 75 →
  lines_within_76 k (qp_opt ws ++ t) = lines_within_76 (if ws =? 0 then k else k + 1) t.
Proof.
  intros Hws Hk. unfold qp_opt. destruct (Z.eqb_spec ws 0); [done|].
  destruct Hws as [Hws|]; [|done]. unfold qp_blank in Hws. simpl.
  destruct ((ws =? 10) || (ws =? 13)) eqn:E; [lia|]. by destruct (Z.leb_spec (k + 1) 76); [|lia].
Qed.

Lemma lines_plain k c t :
  c ≠ 10 → c ≠ 13 → k <= 75 → lines_within_76 k (c :: t) = lines_within_76 (k + 1) t.
Proof.
  intros H10 H13 Hk. simpl. apply Z.eqb_neq in H10 as ->. apply Z.eqb_neq in H13 as ->.
  by destruct (Z.leb_spec (k + 1) 76); [|lia].
Qed.

Lemma lines_hex k c t :
  is_byte c → k <= 73 → lines_within_76 k (qp_hex c ++ t) = lines_within_76 (k + 3) t.
Proof.
  intros Hc Hk. assert (Hd : ∀ v, hexd u_hex_upper v ≠ 10 ∧ hexd u_hex_upper v ≠ 13).
  { intros v. assert (H := hexd_isxdigit u_hex_upper v (or_introl eq_refl)).
    by split; intros E; rewrite E in H. }
  unfold qp_hex. cbn [app]. rewrite !lines_plain by (lia || apply Hd).
  f_equal. lia.
Qed.

Lemma lines_encode s : bytes s → ∀ n ws,
  0 <= n <= 71 → qp_blank ws = true ∨ ws = 0 → lines_within_76 n (qp_encode_loop n ws s) = true.
Proof.
  induction 1 as [|ch s Hch Hs IH]; intros n ws Hn Hws; [done|].
  assert (Hwb : is_byte ws) by (unfold qp_blank, is_byte in *; lia).
  assert (Hopt := λ t, lines_opt n ws t Hws ltac:(lia)).
  set (n1 := if ws =? 0 then n else n + 1) in *.
  assert (Hn1 : n1 <= n + 1) by (unfold n1; case_match; lia).
  assert (Hn0 : n <= n1) by (unfold n1; case_match; lia).
  assert (Hsoft : ∀ k, k <= 75 → lines_within_76 k ([CH "="; 10] ++ qp_encode_loop 0 0 s) = true).
  { intros k Hk. cbn [app]. rewrite lines_plain by lia. simpl. apply IH; [lia|by right]. }
  cbn [qp_encode_loop]. unfold qp_switch. fold n1. destruct (qp_blank ch) eqn:Hb.
  - assert (Hch0 : (ch =? 0) = false) by (unfold qp_blank in Hb; lia).
    destruct (Z.ltb_spec 71 n1); rewrite Hopt.
    + rewrite lines_opt by (lia || by left). rewrite Hch0. apply Hsoft. lia.
    + apply IH; [lia|by left].
  - destruct ((ch =? 13) || (ch =? 10)) eqn:Hnl.
    + change (71 <? 0) with false. cbv iota. rewrite <- app_assoc.
      assert (Hend : ∀ k, lines_within_76 k ([ch] ++ qp_encode_loop 0 0 s) = true).
      { intros k. simpl. rewrite orb_comm, Hnl. apply IH; [lia|by right]. }
      destruct (ws =? 0); [apply Hend|].
      rewrite lines_hex by (done || lia). apply Hend.
    + destruct (_ || (ch =? 61)).
      * destruct (Z.ltb_spec 71 (n1 + 3)); rewrite <- app_assoc, Hopt, lines_hex by (done || lia);
          [apply Hsoft; lia|apply IH; [lia|by right]].
      * destruct (Z.ltb_spec 71 (n1 + 1)); rewrite <- app_assoc, Hopt; cbn [app];
          rewrite lines_plain by lia; [apply Hsoft; lia|apply IH; [lia|by right]].
Qed.

(** ** Properties *)

(** Decoding the quoted-printable encoding of a text that does not end with a blank gives
    the text back with its underscores turned into spaces (the decoder's RFC 2047 shortcut),
    for any memory after the encoded text; so a text without underscores is unchanged. *)
Theorem quoted_printable_roundtrip s rest :
  bytes s → qp_ends_blank s = false →
  let text := u_quoted_printable_encode s in
  u_quoted_printable_decode (text ++ rest) (length text) = Ok (map qp_space s) ∧
  (CH "_" ∉ s → map qp_space s = s).
Proof.
  intros Hs Hend text. split.
  - by apply (qp_dec_encode s Hs Hend 0 0); [right|].
  - clear. induction s as [|c s IH]; intros Hni; [done|]. apply not_elem_of_cons in Hni as [Hc Hni].
    simpl. rewrite IH by done. f_equal. unfold qp_space. by destruct (Z.eqb_spec c 95) as [->|].
Qed.

Lemma quoted_printable_roundtrip_witness :
  let text := u_quoted_printable_encode (BS "1 + 1 = 2" ++ [9; 10; 200]) in
  u_quoted_printable_decode (text ++ [0]) (length text) = Ok (BS "1 + 1 = 2" ++ [9; 10; 200]) ∧
  (CH "_" ∉ BS "1 + 1 = 2" ++ [9; 10; 200] →
   map qp_space (BS "1 + 1 = 2" ++ [9; 10; 200]) = BS "1 + 1 = 2" ++ [9; 10; 200]).
Proof.
  refine (quoted_printable_roundtrip (BS "1 + 1 = 2" ++ [9; 10; 200]) [0] _ _); [|reflexivity].
  repeat constructor; unfold is_byte; lia.
Defined.

(** C34: no line of the encoded text has more than 76 characters, soft line breaks included. *)
Theorem quoted_printable_line_length s :
  bytes s → lines_within_76 0 (u_quoted_printable_encode s) = true.
Proof. intros Hs. apply (lines_encode s Hs 0 0); [lia|by right]. Qed.

Lemma quoted_printable_line_length_witness :
  lines_within_76 0 (u_quoted_printable_encode (replicate 90 200)) = true.
Proof.
  apply quoted_printable_line_length. apply Forall_replicate. unfold is_byte; lia.
Defined.

(** A text that ends with a blank after a short line loses it: the blank is pending when the
    loop ends and the encoder does not write it. *)
Theorem quoted_printable_loses_blank s c :
  Forall (λ c, 33 <= c <= 126 ∧ c ≠ CH "=") s → (length s ≤ 71)%nat → qp_blank c = true →
  u_quoted_printable_encode (s ++ [c]) = s ∧ u_quoted_printable_encode s = s.
Proof.
  intros Hs Hl Hc. assert (H : ∀ tail n, 0 <= n → n + Z.of_nat (length s) <= 71 → tail = [] ∨ tail = [c] →
    qp_encode_loop n 0 (s ++ tail) = s).
  { clear Hl. induction Hs as [|x s Hx Hs IH]; intros tail n H0 Hn Ht.
    - destruct Ht as [-> | ->]; [done|]. simpl in *. unfold qp_switch. rewrite Hc. simpl.
      by destruct (Z.ltb_spec 71 n); [lia|].
    - simpl in *. unfold qp_switch. destruct (qp_blank x) eqn:Hb; [unfold qp_blank in Hb; lia|].
      destruct ((x =? 13) || (x =? 10)) eqn:E; [lia|]. destruct (_ || (x =? 61)) eqn:E'; [lia|].
      simpl. destruct (Z.ltb_spec 71 (n + 1)); [lia|]. rewrite IH by (done || lia). done. }
  split; [by apply H; [lia|lia|right]|].
  rewrite <- (app_nil_r s) at 1. by apply H; [lia|lia|left].
Qed.

Lemma quoted_printable_loses_blank_witness :
  u_quoted_printable_encode (BS "abc ") = BS "abc" ∧ u_quoted_printable_encode (BS "abc") = BS "abc".
Proof.
  apply (quoted_printable_loses_blank (BS "abc") 32); [|simpl; lia|reflexivity].
  repeat constructor; try lia; done.
Defined.
