(* ===== verification/Escape.v ===== *)
(** * Escape sequences ([src/ulib/base/coder/cescape.c]) *)

From S2P Require Import Prelude CType.

(** The [do] loop of [u_sprintc] that stores octal digits backwards. *)
Fixpoint octal_digits (fuel : nat) (c : Z) (acc : list Z) : list Z :=
  let acc := (Z.land c 7 + CH "0") :: acc in
  let c := Z.shiftr c 3 in
  match fuel with
  | S fuel' => if c =? 0 then acc else octal_digits fuel' c acc
  | O => acc
  end.

(** The backslash, zeros and the digits: four characters in all. *)
Definition octal_escape (c : Z) : list Z :=
  let d := octal_digits 2 c [] in
  CH "\" :: replicate (3 - length d) (CH "0") ++ d.

(** What [u_sprintc] stores; its length is the value returned. *)
Definition u_sprintc (c : Z) (json : bool) : list Z :=
  if c =? 13 then BS "\r"
  else if c =? 10 then BS "\n"
  else if c =? 9 then BS "\t"
  else if c =? CH "\" then BS "\\"
  else if c =? 34 then [CH "\"; 34]
  else if c =? 8 then BS "\b"
  else if c =? 12 then BS "\f"
  else if (c <? 32) || (126 <? c) then
    if json then BS "\u00" ++ [hexd u_hex_upper (Z.shiftr c 4); hexd u_hex_upper c]
    else octal_escape c
  else [c].

(** The loop of [u_escape_encode]: [out] is what is stored so far, [limit] is
    [outend - out], [m] the memory from [inptr] on and [n] is [inend - inptr]. *)
Fixpoint escape_encode_loop (json : bool) (limit : Z) (n : nat) (m out : list Z) : res (list Z) :=
  match n with
  | O => Ok out
  | S n' =>
      match m with
      | [] => Fail OutOfBounds
      | c :: m' =>
          raw ← (if json && (c =? CH "\") then x ← rd m' 0; Ok (x =? CH "u") else Ok false);
          let out := out ++ (if raw : bool then [CH "\"] else u_sprintc c json) in
          if limit <=? Z.of_nat (length out) then Ok (out ++ BS "...")
          else escape_encode_loop json limit n' m' out
      end
  end.

Definition u_escape_encode (m : list Z) (len : nat) (max_output : Z) (json : bool) : res (list Z) :=
  r ← escape_encode_loop json (u32 (max_output - 4)) len m [34];
  Ok (r ++ [34]).

(** The character an escape sequence stands for, and the memory after it. *)
Definition u_escape_decode_ptr (m : list Z) : res (Z * list Z) :=
  c ← rd m 0;
  let t := drop 1 m in
  if c =? CH "r" then Ok (13, t)
  else if c =? CH "n" then Ok (10, t)
  else if c =? CH "t" then Ok (9, t)
  else if c =? CH "b" then Ok (8, t)
  else if c =? CH "f" then Ok (12, t)
  else if c =? CH "v" then Ok (11, t)
  else if c =? CH "a" then Ok (7, t)
  else if c =? CH "e" then Ok (27, t)
  else if c =? CH "^" then
    x ← rd t 0; Ok (u8 (u__toupper x - CH "@"), drop 1 t)
  else if c =? CH "x" then
    x ← rd t 0;
    if u__isxdigit x then
      y ← rd t 1;
      if u__isxdigit y
      then Ok (u8 (Z.lor (Z.shiftl (u__hexc2int x) 4) (u__hexc2int y)), drop 2 t)
      else Ok (u8 (u__hexc2int x), drop 1 t)
    else Ok (u8 c, t)
  else if u__isoctal c then
    let d := c - CH "0" in
    x ← rd t 0;
    if u__isoctal x then
      let d := Z.lor (Z.shiftl d 3) (u__octc2int x) in
      y ← rd t 1;
      if u__isoctal y
      then Ok (u8 (Z.lor (Z.shiftl d 3) (u__octc2int y)), drop 2 t)
      else Ok (u8 d, drop 1 t)
    else Ok (u8 d, t)
  else if c =? CH "u" then
    x ← rd t 2; y ← rd t 3;
    Ok (u8 (Z.lor (Z.shiftl (u__hexc2int x) 4) (u__hexc2int y)), drop 4 t)
  else Ok (u8 c, t).

(** [inptr[1] == 'u' && (inptr[2] != '0' || inptr[3] != '0')] *)
Definition escape_unicode (m : list Z) : res bool :=
  a ← rd m 1;
  if a =? CH "u" then
    b ← rd m 2;
    if b =? CH "0" then c ← rd m 3; Ok (negb (c =? CH "0")) else Ok true
  else Ok false.

(** [m] is the memory from [inptr] on, [n] is [inend - inptr]. *)
Fixpoint escape_decode_loop (fuel : nat) (m : list Z) (n : Z) : res (list Z) :=
  if n <=? 0 then Ok [] else
  match fuel with
  | O => Fail OutOfFuel
  | S fuel' =>
      p ← memchr m (CH "\") (Z.to_nat n);
      match p with
      | Some off =>
          let pre := take (Z.to_nat off) m in
          u ← escape_unicode m;
          if u : bool then
            if Z.of_nat (length m) <? 6 then Fail OutOfBounds
            else r ← escape_decode_loop fuel' (drop 6 m) (n - 6); Ok (pre ++ take 6 m ++ r)
          else
            let m1 := drop (S (Z.to_nat off)) m in
            v ← u_escape_decode_ptr m1;
            r ← escape_decode_loop fuel' v.2 (n - (Z.of_nat (length m) - Z.of_nat (length v.2)));
            Ok (pre ++ v.1 :: r)
      | None => Ok (take (Z.to_nat n) m)
      end
  end.

Definition u_escape_decode (m : list Z) (len : nat) : res (list Z) :=
  escape_decode_loop len m (Z.of_nat len).

(** ** Lemmas *)

Arguments u_sprintc : simpl never.
Arguments u_escape_decode_ptr : simpl never.
Arguments escape_unicode : simpl never.
Arguments octal_escape : simpl never.

Lemma memchr_app c ps t n :
  Forall (λ x, x ≠ c) ps → memchr (ps ++ c :: t) c (length ps + S n) = Ok (Some (Z.of_nat (length ps))).
Proof.
  induction 1 as [|x ps Hx _ IH]; simpl; [by rewrite Z.eqb_refl|].
  apply Z.eqb_neq in Hx. rewrite Hx, IH. simpl. do 2 f_equal. lia.
Qed.

Lemma memchr_none c ps t :
  Forall (λ x, x ≠ c) ps → memchr (ps ++ t) c (length ps) = Ok None.
Proof.
  induction 1 as [|x ps Hx _ IH]; simpl; [by destruct t|].
  apply Z.eqb_neq in Hx. by rewrite Hx, IH.
Qed.

(** A character that stands for itself, and is not taken for the start of [\u]. *)
Definition esc_plain (c : Z) : Prop := c ≠ CH "\" ∧ c ≠ CH "u".

(** The text [t] is decoded to [r] after any plain characters. *)
Definition esc_dec (t r : list Z) : Prop := ∀ ps fuel rest,
  Forall esc_plain ps → (length (ps ++ t) ≤ fuel)%nat →
  escape_decode_loop fuel ((ps ++ t) ++ rest) (Z.of_nat (length (ps ++ t))) = Ok (ps ++ r).

Lemma esc_plain_no_backslash ps : Forall esc_plain ps → Forall (λ x, x ≠ CH "\") ps.
Proof. intros H. eapply Forall_impl; [exact H|]. by intros x []. Qed.

Lemma esc_dec_nil : esc_dec [] [].
Proof.
  intros ps fuel rest Hps Hf. rewrite app_nil_r in *.
  destruct ps as [|p ps]; [by destruct fuel|]. destruct fuel as [|fuel]; [simpl in Hf; lia|].
  cbn [escape_decode_loop]. destruct (Z.leb_spec (Z.of_nat (length (p :: ps))) 0); [simpl in *; lia|].
  rewrite Nat2Z.id, memchr_none by by apply esc_plain_no_backslash. simpl.
  by rewrite take_app_length.
Qed.

Lemma esc_dec_plain c t r : esc_plain c → esc_dec t r → esc_dec (c :: t) (c :: r).
Proof.
  intros Hc Ht ps fuel rest Hps Hf. rewrite !(cons_middle c), !(app_assoc ps [c]) in *.
  apply Ht; [apply Forall_app; split; [done|by constructor]|done].
Qed.

Lemma escape_unicode_plain ps e rest :
  Forall esc_plain ps → escape_unicode (CH "\" :: e ++ rest) = Ok false → e ≠ [] →
  escape_unicode (ps ++ CH "\" :: e ++ rest) = Ok false.
Proof.
  intros Hps He Hne. destruct ps as [|p [|q ps]]; [done| |].
  - unfold escape_unicode. simpl. done.
  - forall_inv. unfold escape_unicode. simpl. unfold esc_plain in *.
    destruct (Z.eqb_spec q 117); [tauto|done].
Qed.

Lemma esc_dec_escape e c t r :
  e ≠ [] →
  (∀ rest, escape_unicode (CH "\" :: e ++ rest) = Ok false) →
  (∀ rest, u_escape_decode_ptr (e ++ rest) = Ok (c, rest)) →
  esc_dec t r → esc_dec (CH "\" :: e ++ t) (c :: r).
Proof.
  intros Hne Hu He Ht ps fuel rest Hps Hf.
  destruct fuel as [|fuel]; [rewrite length_app in Hf; simpl in Hf; lia|].
  cbn [escape_decode_loop].
  destruct (Z.leb_spec (Z.of_nat (length (ps ++ 92 :: e ++ t))) 0) as [Hl|_];
    [rewrite length_app in Hl; simpl in Hl; lia|].
  assert (Em : (ps ++ 92 :: e ++ t) ++ rest = ps ++ 92 :: e ++ t ++ rest).
  { by rewrite <- app_assoc, <- app_comm_cons, <- app_assoc. }
  rewrite Em, Nat2Z.id.
  assert (El : length (ps ++ 92 :: e ++ t) = (length ps + S (length e + length t))%nat).
  { rewrite !length_app. simpl. by rewrite length_app. }
  rewrite El, memchr_app by by apply esc_plain_no_backslash.
  cbn [mbind res_bind]. rewrite escape_unicode_plain by done. cbn [mbind res_bind].
  rewrite Nat2Z.id, take_app_length.
  rewrite (drop_app_ge _ _ (S (length ps))) by lia.
  replace (S (length ps) - length ps)%nat with 1%nat by lia. cbn [drop]. rewrite ?drop_0.
  rewrite He. cbn [mbind res_bind fst snd].
  replace (Z.of_nat _ - _) with (Z.of_nat (length t)).
  2: { rewrite !length_app. simpl. rewrite !length_app. lia. }
  assert (Ht' := Ht [] fuel rest ltac:(constructor)). simpl in Ht'.
  rewrite Ht' by lia. done.
Qed.

Lemma decode_ptr_unicode h l rest :
  u_escape_decode_ptr (BS "u00" ++ h :: l :: rest)
  = Ok (u8 (Z.lor (Z.shiftl (u__hexc2int h) 4) (u__hexc2int l)), rest).
Proof. reflexivity. Qed.

Lemma decode_ptr_octal x y z rest :
  u__isoctal x = true → u__isoctal y = true → u__isoctal z = true →
  u_escape_decode_ptr (x :: y :: z :: rest)
  = Ok (u8 (Z.lor (Z.shiftl (Z.lor (Z.shiftl (x - CH "0") 3) (u__octc2int y)) 3) (u__octc2int z)), rest).
Proof.
  intros Hx Hy Hz.
  assert (E : x = 48 ∨ x = 49 ∨ x = 50 ∨ x = 51 ∨ x = 52 ∨ x = 53 ∨ x = 54 ∨ x = 55).
  { unfold u__isoctal in Hx. lia. }
  set (d := Z.lor (Z.shiftl (x - CH "0") 3) (u__octc2int y)).
  transitivity (if u__isoctal y then
      if u__isoctal z then Ok (u8 (Z.lor (Z.shiftl d 3) (u__octc2int z)), rest) else Ok (u8 d, z :: rest)
    else Ok (u8 (x - CH "0"), y :: z :: rest)); [|by rewrite Hy, Hz].
  subst d. by destruct_or! E; subst x.
Qed.

(** [u_sprintc] stores either the character itself or an escape sequence for it. *)
Lemma sprintc_cases c json :
  is_byte c →
  u_sprintc c json = [c] ∧ c ≠ CH "\" ∨
  ∃ e, u_sprintc c json = CH "\" :: e ∧ e ≠ [] ∧
    (∀ rest, escape_unicode (CH "\" :: e ++ rest) = Ok false) ∧
    (∀ rest, u_escape_decode_ptr (e ++ rest) = Ok (c, rest)).
Proof.
  intros Hc. unfold u_sprintc.
  repeat (match goal with |- context [if c =? ?k then _ else _] =>
    destruct (Z.eqb_spec c k) as [->|]; [right; eexists; split; [reflexivity|];
      split; [done|]; split; intros rest; reflexivity|] end).
  destruct ((c <? 32) || (126 <? c)); [|by left]. right. destruct json.
  - eexists. split; [reflexivity|]. split; [done|]. split; intros rest; [done|].
    cbn [app]. refine (eq_trans (decode_ptr_unicode _ _ _) _). do 2 f_equal. revert Hc. clear. intros Hc. byte_check c.
  - exists [nth 1 (octal_escape c) 0; nth 2 (octal_escape c) 0; nth 3 (octal_escape c) 0].
    assert (E : octal_escape c =
      [92; nth 1 (octal_escape c) 0; nth 2 (octal_escape c) 0; nth 3 (octal_escape c) 0])
      by (revert Hc; clear; intros Hc; byte_check c).
    split; [done|]. split; [done|].
    assert (Hd : Forall (λ d, u__isoctal d = true)
      [nth 1 (octal_escape c) 0; nth 2 (octal_escape c) 0; nth 3 (octal_escape c) 0])
      by (revert Hc; clear; intros Hc; byte_check c).
    assert (Hv : u8 (Z.lor (Z.shiftl (Z.lor (Z.shiftl (nth 1 (octal_escape c) 0 - 48) 3)
        (u__octc2int (nth 2 (octal_escape c) 0))) 3) (u__octc2int (nth 3 (octal_escape c) 0))) = c)
      by (revert Hc; clear; intros Hc; byte_check c).
    clear E. revert Hd Hv. generalize (nth 1 (octal_escape c) 0) (nth 2 (octal_escape c) 0)
      (nth 3 (octal_escape c) 0). intros x y z Hd Hv. forall_inv.
    unfold u__isoctal in *.
    split; intros rest.
    + unfold escape_unicode. simpl. destruct (Z.eqb_spec x 117); [lia|done].
    + cbn [app]. rewrite decode_ptr_octal by done. by rewrite Hv.
Qed.

Definition escape_all (json : bool) (s : list Z) : list Z := concat (map (λ c, u_sprintc c json) s).

Lemma esc_dec_all json s t r :
  bytes s → CH "u" ∉ s → esc_dec t r → esc_dec (escape_all json s ++ t) (s ++ r).
Proof.
  intros Hs. induction Hs as [|c s Hc Hs IH]; intros Hu Ht; [done|].
  apply not_elem_of_cons in Hu as [Hcu Hu]. unfold escape_all. simpl. rewrite <- app_assoc.
  specialize (IH Hu Ht).
  destruct (sprintc_cases c json Hc) as [[-> Hb]|(e & -> & Hne & Heu & He)].
  - apply esc_dec_plain; [|done]. by split; [|apply not_eq_sym].
  - cbn [app]. by apply esc_dec_escape.
Qed.

Lemma octal_digits_length c : (length (octal_digits 2 c []) ≤ 3)%nat.
Proof. simpl. repeat case_match; simpl; lia. Qed.

Lemma u_sprintc_length c json : (length (u_sprintc c json) ≤ if json then 6 else 4)%nat.
Proof.
  assert (Ho : (length (octal_escape c) ≤ 4)%nat).
  { unfold octal_escape. cbn [length]. rewrite length_app, length_replicate.
    assert (H := octal_digits_length c). lia. }
  unfold u_sprintc. repeat case_match; first [lia | simpl; lia].
Qed.

Lemma escape_encode_all json limit s rest out :
  CH "u" ∉ s → Z.of_nat (length out) + Z.of_nat (length (escape_all json s)) < limit →
  escape_encode_loop json limit (length s) (s ++ 0 :: rest) out = Ok (out ++ escape_all json s).
Proof.
  revert out. induction s as [|c s IH]; intros out Hu Hl; [by rewrite app_nil_r|].
  apply not_elem_of_cons in Hu as [_ Hu]. simpl.
  assert (Hraw : (if json && (c =? CH "\")
      then x ← rd (s ++ 0 :: rest) 0; Ok (x =? CH "u") else Ok false) = Ok false).
  { destruct (json && _); [|done]. destruct s as [|d s]; [done|].
    apply not_elem_of_cons in Hu as [Hd _]. change (Ok (d =? 117) = Ok false). f_equal.
    by apply Z.eqb_neq, not_eq_sym. }
  rewrite Hraw. simpl. unfold escape_all in *. simpl in Hl. rewrite length_app in Hl.
  destruct (Z.leb_spec limit (Z.of_nat (length (out ++ u_sprintc c json))));
    [rewrite length_app in *; lia|].
  rewrite IH, <- ?app_assoc; [done|done|]. rewrite length_app. lia.
Qed.

Lemma escape_all_length json s : (length (escape_all json s) ≤ 6 * length s)%nat.
Proof.
  unfold escape_all. induction s as [|c s IH]; [done|]. simpl. rewrite length_app.
  assert (H := u_sprintc_length c json). destruct json; lia.
Qed.

Lemma escape_encode_bound json limit n m out r :
  escape_encode_loop json limit n m out = Ok r →
  Z.of_nat (length r) <= Z.max (limit + 8) (Z.of_nat (length out) + 9) - (if json then 0 else 2).
Proof.
  revert m out. induction n as [|n IH]; intros m out Hr; simpl in Hr.
  - simplify_eq. destruct json; lia.
  - destruct m as [|c m]; [done|]. destruct (if json && _ then _ else _) as [raw|]; [|done].
    simpl in Hr. set (o := out ++ _) in Hr.
    assert (Ho : (length o ≤ length out + if json then 6 else 4)%nat).
    { unfold o. rewrite length_app. assert (H := u_sprintc_length c json).
      destruct raw, json; simpl in *; lia. }
    destruct (Z.leb_spec limit (Z.of_nat (length o))).
    + simplify_eq. rewrite length_app. simpl. destruct json; lia.
    + apply IH in Hr. destruct json; lia.
Qed.

(** ** Properties *)

(** C32: decoding an escaped text, in octal or in JSON form, gives back the quoted text, when
    the buffer has room for six characters per byte and the text has no [u]. *)
Theorem escape_roundtrip json s max_output rest rest' :
  bytes s → CH "u" ∉ s → 6 * Z.of_nat (length s) + 5 < max_output < 2 ^ 32 →
  ∃ text, u_escape_encode (s ++ 0 :: rest) (length s) max_output json = Ok text ∧
    u_escape_decode (text ++ rest') (length text) = Ok ([34] ++ s ++ [34]).
Proof.
  intros Hs Hu Hmax. assert (Hl := escape_all_length json s).
  exists ([34] ++ escape_all json s ++ [34]). split.
  - unfold u_escape_encode. rewrite u32_small by lia.
    rewrite escape_encode_all by (done || simpl; lia). done.
  - apply (esc_dec_plain 34 (escape_all json s ++ [34]) (s ++ [34])) with (ps := []); [done| |constructor|done].
    apply esc_dec_all; [done|done|]. by apply esc_dec_plain, esc_dec_nil.
Qed.

Lemma escape_roundtrip_witness :
  ∃ text, u_escape_encode ([0; 10; 92; 200] ++ [0]) 4 64 true = Ok text ∧
    u_escape_decode (text ++ [0]) (length text) = Ok ([34] ++ [0; 10; 92; 200] ++ [34]).
Proof.
  apply (escape_roundtrip true [0; 10; 92; 200] 64 [] [0]); [|by apply (bool_decide_eq_true_1 _)|simpl; lia].
  repeat constructor; unfold is_byte; lia.
Defined.

(** The limit [max_output] is tested after a character is written, and the dots and the quote
    come after that: the text (without its NUL) can be longer than [max_output], by 5 characters
    at most with JSON escapes and by 3 without; the bound is reached. *)
Theorem escape_encode_overrun json m len max_output text :
  5 <= max_output < 2 ^ 32 →
  u_escape_encode m len max_output json = Ok text →
  Z.of_nat (length text) <= Z.max (max_output + (if json then 5 else 3)) (if json then 11 else 9) ∧
  ∃ m' text', u_escape_encode m' 2 10 false = Ok text' ∧ Z.of_nat (length text') = 10 + 3.
Proof.
  intros Hmax He. split; [|by exists [200; 200; 0]; eexists].
  unfold u_escape_encode in He. rewrite u32_small in He by lia.
  destruct (escape_encode_loop _ _ _ _ _) as [r|] eqn:Hr; [|done]. simpl in He. simplify_eq.
  apply escape_encode_bound in Hr. rewrite length_app. simpl in *. destruct json; lia.
Qed.

Lemma escape_encode_overrun_witness :
  Z.of_nat (length ([34] ++ BS "ab" ++ [34])) <= Z.max (64 + 3) 9 ∧
  ∃ m' text', u_escape_encode m' 2 10 false = Ok text' ∧ Z.of_nat (length text') = 10 + 3.
Proof. apply (escape_encode_overrun false (BS "ab") 2 64); [lia|reflexivity]. Defined.

(** The test for a [\u] sequence looks at the start of the chunk and not at the backslash: a
    chunk whose second character is [u] is stored twice, so such a text does not survive. *)
Theorem escape_decode_u_chunk c rest rest' :
  33 <= c <= 126 → c ≠ 34 → c ≠ CH "\" → c ≠ CH "0" →
  u_escape_encode ([CH "u"; c; 10] ++ rest) 3 64 false = Ok [34; CH "u"; c; CH "\"; CH "n"; 34] ∧
  u_escape_decode ([34; CH "u"; c; CH "\"; CH "n"; 34] ++ rest') 6
    = Ok ([34; CH "u"; c] ++ [34; CH "u"; c; CH "\"; CH "n"; 34]).
Proof.
  intros Hr H34 Hb H0.
  assert (Hs : u_sprintc c false = [c]).
  { unfold u_sprintc. zcases; try lia. done. }
  apply Z.eqb_neq in Hb, H0. split.
  - unfold u_escape_encode. change (u32 (64 - 4)) with 60.
    cbn [escape_encode_loop app mbind res_bind andb]. rewrite Hs. reflexivity.
  - set (m := [34; 117; c; 92; 110; 34] ++ rest').
    assert (Hm : memchr m 92 6 = Ok (Some 3)).
    { unfold m. cbn [memchr app]. by rewrite Hb. }
    assert (Hu : escape_unicode m = Ok true).
    { transitivity (if c =? 48 then Ok true else Ok true : res bool); [reflexivity|by case_match]. }
    assert (Hl : (Z.of_nat (length m) <? 6) = false) by (apply Z.ltb_ge; unfold m; rewrite length_app; simpl length; lia).
    unfold u_escape_decode. cbn [escape_decode_loop]. change (Z.of_nat 6) with 6.
    change (6 <=? 0) with false. change (Z.to_nat 6) with 6%nat. cbv iota.
    rewrite Hm. cbn [mbind res_bind]. rewrite Hu. cbn [mbind res_bind]. by rewrite Hl.
Qed.

Lemma escape_decode_u_chunk_witness :
  u_escape_encode (BS "ux" ++ [10; 0]) 3 64 false = Ok ([34] ++ BS "ux\n" ++ [34]) ∧
  u_escape_decode ([34] ++ BS "ux\n" ++ [34; 0]) 6 = Ok ([34] ++ BS "ux" ++ [34] ++ BS "ux\n" ++ [34]).
Proof. apply (escape_decode_u_chunk (CH "x") [0] [0]); lia. Defined.
