(* ===== verification/Utf.v ===== *)
(** * UTF-8, UTF-16 and binary data ([src/ulib/base/utility.c])

    The table driven automaton of [u_isUTF8] is compared with the definition of
    UTF-8: the concatenation of the encodings of a sequence of Unicode scalar values. *)

From S2P Require Import Prelude CType.

(** The first 256 entries give the class of a byte, the others the next state of
    the automaton at [256 + state * 16 + class]. *)
Definition u_validate_utf8 : list Z :=
  [0; 0; 0; 0; 0; 0; 0; 0; 0; 0; 0; 0; 0; 0; 0; 0;
   0; 0; 0; 0; 0; 0; 0; 0; 0; 0; 0; 0; 0; 0; 0; 0;
   0; 0; 0; 0; 0; 0; 0; 0; 0; 0; 0; 0; 0; 0; 0; 0;
   0; 0; 0; 0; 0; 0; 0; 0; 0; 0; 0; 0; 0; 0; 0; 0;
   0; 0; 0; 0; 0; 0; 0; 0; 0; 0; 0; 0; 0; 0; 0; 0;
   0; 0; 0; 0; 0; 0; 0; 0; 0; 0; 0; 0; 0; 0; 0; 0;
   0; 0; 0; 0; 0; 0; 0; 0; 0; 0; 0; 0; 0; 0; 0; 0;
   0; 0; 0; 0; 0; 0; 0; 0; 0; 0; 0; 0; 0; 0; 0; 0;
   1; 1; 1; 1; 1; 1; 1; 1; 1; 1; 1; 1; 1; 1; 1; 1;
   9; 9; 9; 9; 9; 9; 9; 9; 9; 9; 9; 9; 9; 9; 9; 9;
   7; 7; 7; 7; 7; 7; 7; 7; 7; 7; 7; 7; 7; 7; 7; 7;
   7; 7; 7; 7; 7; 7; 7; 7; 7; 7; 7; 7; 7; 7; 7; 7;
   8; 8; 2; 2; 2; 2; 2; 2; 2; 2; 2; 2; 2; 2; 2; 2;
   2; 2; 2; 2; 2; 2; 2; 2; 2; 2; 2; 2; 2; 2; 2; 2;
   10; 3; 3; 3; 3; 3; 3; 3; 3; 3; 3; 3; 3; 4; 3; 3;
   11; 6; 6; 6; 5; 8; 8; 8; 8; 8; 8; 8; 8; 8; 8; 8;
   0; 1; 2; 3; 5; 8; 7; 1; 1; 1; 4; 6; 1; 1; 1; 1;
   1; 1; 1; 1; 1; 1; 1; 1; 1; 1; 1; 1; 1; 1; 1; 1;
   1; 0; 1; 1; 1; 1; 1; 0; 1; 0; 1; 1; 1; 1; 1; 1;
   1; 2; 1; 1; 1; 1; 1; 2; 1; 2; 1; 1; 1; 1; 1; 1;
   1; 1; 1; 1; 1; 1; 1; 2; 1; 1; 1; 1; 1; 1; 1; 1;
   1; 2; 1; 1; 1; 1; 1; 1; 1; 2; 1; 1; 1; 1; 1; 1;
   1; 1; 1; 1; 1; 1; 1; 3; 1; 3; 1; 1; 1; 1; 1; 1;
   1; 3; 1; 1; 1; 1; 1; 3; 1; 3; 1; 1; 1; 1; 1; 1;
   1; 3; 1; 1; 1; 1; 1; 1; 1; 1; 1; 1; 1; 1; 1; 1].

(** One turn of the loop of [u_isUTF8]. The variable [code] of the source is
    computed there and never used. *)
Definition utf8_next (state c : Z) : res Z :=
  type ← rd u_validate_utf8 c;
  rd u_validate_utf8 (256 + state * 16 + type).

(** [n] is [end - buf]. *)
Fixpoint utf8_loop (n : nat) (buf : list Z) (state : Z) : res bool :=
  match n with
  | O => Ok (state =? 0)
  | S n' =>
      match buf with
      | [] => Fail OutOfBounds
      | c :: buf' =>
          state ← utf8_next state c;
          if state =? 1 then Ok false else utf8_loop n' buf' state
      end
  end.

Definition u_isUTF8 (buf : list Z) (len : nat) : res bool := utf8_loop len buf 0.

(** The loop over the code units of [u_isUTF16]; [n] is [len - i]. *)
Fixpoint utf16_loop (be : Z) (n : nat) (buf : list Z) : res Z :=
  match n with
  | S (S n') =>
      match buf with
      | a :: b :: buf' =>
          let c := if negb (be =? 0) then b + 256 * a else a + 256 * b in
          if (c =? 0xfffe) || ((c <? 128) && (Z.land (u_cttab c) 0x0200 =? 0))
          then Ok 0
          else utf16_loop be n' buf'
      | _ => Fail OutOfBounds
      end
  | _ => Ok (1 + be)
  end.

Definition u_isUTF16 (buf : list Z) (len : nat) : res Z :=
  if (len <? 2)%nat then Ok 0
  else
    b0 ← rd buf 0; b1 ← rd buf 1;
    if (b0 =? 0xff) && (b1 =? 0xfe) then utf16_loop 0 (len - 2) (drop 2 buf)
    else if (b0 =? 0xfe) && (b1 =? 0xff) then utf16_loop 1 (len - 2) (drop 2 buf)
    else Ok 0.

Definition u_isBinary (s : list Z) (n : nat) : res bool :=
  t ← u_isText s n;
  if t : bool then Ok false
  else
    u8 ← u_isUTF8 s n;
    if u8 : bool then Ok false
    else u16 ← u_isUTF16 s n; Ok (u16 =? 0).

(** ** Reference: Unicode scalar values and their encoding *)

Definition scalar (cp : Z) : Prop := 0 <= cp < 0xD800 ∨ 0xE000 <= cp <= 0x10FFFF.

Definition utf8_encode (cp : Z) : list Z :=
  if cp <? 0x80 then [cp]
  else if cp <? 0x800 then [0xC0 + cp / 64; 0x80 + cp mod 64]
  else if cp <? 0x10000 then
    [0xE0 + cp / 4096; 0x80 + (cp / 64) mod 64; 0x80 + cp mod 64]
  else
    [0xF0 + cp / 262144; 0x80 + (cp / 4096) mod 64; 0x80 + (cp / 64) mod 64; 0x80 + cp mod 64].

Definition well_formed_utf8 (s : list Z) : Prop :=
  ∃ cps, Forall scalar cps ∧ s = concat (map utf8_encode cps).

(** ** The automaton, state by state *)

Definition between (a c b : Z) : bool := (a <=? c) && (c <=? b).

Definition utf8_step (state c : Z) : Z :=
  if state =? 0 then
    if c <? 0x80 then 0 else if c <? 0xC2 then 1 else if c <? 0xE0 then 2
    else if c =? 0xE0 then 4 else if c =? 0xED then 5 else if c <? 0xF0 then 3
    else if c =? 0xF0 then 6 else if c <? 0xF4 then 7 else if c =? 0xF4 then 8 else 1
  else if state =? 2 then if between 0x80 c 0xBF then 0 else 1
  else if state =? 3 then if between 0x80 c 0xBF then 2 else 1
  else if state =? 4 then if between 0xA0 c 0xBF then 2 else 1
  else if state =? 5 then if between 0x80 c 0x9F then 2 else 1
  else if state =? 6 then if between 0x90 c 0xBF then 3 else 1
  else if state =? 7 then if between 0x80 c 0xBF then 3 else 1
  else if state =? 8 then if between 0x80 c 0x8F then 3 else 1
  else 1.

Fixpoint utf8_run (state : Z) (s : list Z) : bool :=
  match s with
  | [] => state =? 0
  | c :: s' => let state := utf8_step state c in
               if state =? 1 then false else utf8_run state s'
  end.

Arguments utf8_next : simpl never.
Arguments utf8_step : simpl never.
Arguments between : simpl never.

(** ** Lemmas *)

Lemma utf8_next_step state c :
  0 <= state <= 8 → is_byte c → utf8_next state c = Ok (utf8_step state c).
Proof.
  intros Hs Hc. apply (bool_decide_eq_true_1 _).
  assert (state = 0 ∨ state = 1 ∨ state = 2 ∨ state = 3 ∨ state = 4 ∨ state = 5 ∨ state = 6 ∨
          state = 7 ∨ state = 8) as Hst by lia.
  destruct_or! Hst; subst; byte_check c.
Qed.

Lemma utf8_step_range state c : 0 <= utf8_step state c <= 8.
Proof. unfold utf8_step. repeat case_match; lia. Qed.

Lemma utf8_loop_run s rest state :
  bytes s → 0 <= state <= 8 →
  utf8_loop (length s) (s ++ rest) state = Ok (utf8_run state s).
Proof.
  intros Hs. revert state. induction Hs as [|c s Hc Hs IH]; intros state Hst; [done|].
  simpl. rewrite utf8_next_step by done. simpl. destruct (_ =? 1); [done|].
  apply IH, utf8_step_range.
Qed.

Lemma utf8_run_cons state state' c s :
  utf8_step state c = state' → state' ≠ 1 → utf8_run state (c :: s) = utf8_run state' s.
Proof. intros Hs H1. simpl. rewrite Hs. by apply Z.eqb_neq in H1 as ->. Qed.

(** Evaluate one step of the automaton from bounds on the byte. *)
Ltac utf8_step_solve :=
  unfold utf8_step, between; simpl Z.eqb; cbv iota;
  Z.div_mod_to_equations; zcases; simpl; first [reflexivity | lia].

(** Encoding a scalar value leads the automaton back to its initial state. *)
Lemma utf8_run_encode cp s : scalar cp → utf8_run 0 (utf8_encode cp ++ s) = utf8_run 0 s.
Proof.
  unfold scalar, utf8_encode. intros Hcp.
  destruct (Z.ltb_spec cp 0x80); [|destruct (Z.ltb_spec cp 0x800);
    [|destruct (Z.ltb_spec cp 0x10000)]]; cbn [app].
  - apply utf8_run_cons; [utf8_step_solve|done].
  - rewrite (utf8_run_cons _ 2), (utf8_run_cons _ 0); first [done | utf8_step_solve].
  - rewrite (utf8_run_cons _ (if cp <? 0x1000 then 4 else if between 0xD000 cp 0xDFFF then 5 else 3)).
    1: rewrite (utf8_run_cons _ 2), (utf8_run_cons _ 0).
    all: unfold between; zcases; simpl; first [done | lia | utf8_step_solve].
  - rewrite (utf8_run_cons _ (if cp <? 0x40000 then 6 else if cp <? 0x100000 then 7 else 8)).
    1: rewrite (utf8_run_cons _ 3), (utf8_run_cons _ 2), (utf8_run_cons _ 0).
    all: zcases; simpl; first [done | lia | utf8_step_solve].
Qed.

Lemma utf8_run_inv state s :
  utf8_run state s = true → state ≠ 0 →
  ∃ c s', s = c :: s' ∧ utf8_step state c ≠ 1 ∧ utf8_run (utf8_step state c) s' = true.
Proof.
  intros Hr H0. destruct s as [|c s]; simpl in Hr; [by apply Z.eqb_eq in Hr|].
  destruct (Z.eqb_spec (utf8_step state c) 1); [done|]. eauto.
Qed.

(** What an accepting run from each of the intermediate states reads next. *)
Lemma utf8_run_inv_cont state lo hi next s :
  (∀ c, utf8_step state c = if between lo c hi then next else 1) →
  utf8_run state s = true → state ≠ 0 →
  ∃ c s', s = c :: s' ∧ lo <= c <= hi ∧ utf8_run next s' = true.
Proof.
  intros Hst Hr H0. destruct (utf8_run_inv _ _ Hr H0) as (c & s' & -> & H1 & Hr').
  rewrite Hst in H1, Hr'. unfold between in *.
  destruct ((lo <=? c) && (c <=? hi)) eqn:E; [|done]. exists c, s'. split; [done|]. split; [lia|done].
Qed.

Lemma utf8_run_inv2 s :
  utf8_run 2 s = true → ∃ c s', s = c :: s' ∧ 0x80 <= c <= 0xBF ∧ utf8_run 0 s' = true.
Proof. intros Hr. by apply (utf8_run_inv_cont 2). Qed.

(** The same for the states that expect two and three more bytes. *)
Lemma utf8_run_inv_cont2 state lo hi s :
  (∀ c, utf8_step state c = if between lo c hi then 2 else 1) →
  utf8_run state s = true → state ≠ 0 →
  ∃ c d s', s = c :: d :: s' ∧ lo <= c <= hi ∧ 0x80 <= d <= 0xBF ∧ utf8_run 0 s' = true.
Proof.
  intros Hst Hr H0. destruct (utf8_run_inv_cont _ _ _ _ _ Hst Hr H0) as (c & s1 & -> & ? & Hr1).
  destruct (utf8_run_inv2 _ Hr1) as (d & s2 & -> & ? & ?). by exists c, d, s2.
Qed.

Lemma utf8_run_inv_cont3 state lo hi s :
  (∀ c, utf8_step state c = if between lo c hi then 3 else 1) →
  utf8_run state s = true → state ≠ 0 →
  ∃ c d e s', s = c :: d :: e :: s' ∧ lo <= c <= hi ∧ 0x80 <= d <= 0xBF ∧ 0x80 <= e <= 0xBF ∧
    utf8_run 0 s' = true.
Proof.
  intros Hst Hr H0. destruct (utf8_run_inv_cont _ _ _ _ _ Hst Hr H0) as (c & s1 & -> & ? & Hr1).
  destruct (utf8_run_inv_cont2 3 0x80 0xBF s1) as (d & e & s2 & -> & ? & ? & ?); [done..|].
  by exists c, d, e, s2.
Qed.

(** Sequences of the shape the automaton accepts are encodings. *)
Lemma utf8_encode2 c d :
  0xC2 <= c < 0xE0 → 0x80 <= d <= 0xBF →
  let cp := (c - 0xC0) * 64 + (d - 0x80) in scalar cp ∧ utf8_encode cp = [c; d].
Proof.
  intros Hc Hd cp. unfold scalar, utf8_encode. subst cp.
  split; [lia|]. zcases; try lia. repeat f_equal; Z.div_mod_to_equations; lia.
Qed.

Lemma utf8_encode3 c d e :
  0xE0 <= c <= 0xEF → 0x80 <= d <= 0xBF → 0x80 <= e <= 0xBF →
  (c = 0xE0 → 0xA0 <= d) → (c = 0xED → d <= 0x9F) →
  let cp := (c - 0xE0) * 4096 + (d - 0x80) * 64 + (e - 0x80) in
  scalar cp ∧ utf8_encode cp = [c; d; e].
Proof.
  intros Hc Hd He Hlo Hhi cp. unfold scalar, utf8_encode. subst cp.
  split; [lia|]. zcases; try lia. repeat f_equal; Z.div_mod_to_equations; lia.
Qed.

Lemma utf8_encode4 c d e f :
  0xF0 <= c <= 0xF4 → 0x80 <= d <= 0xBF → 0x80 <= e <= 0xBF → 0x80 <= f <= 0xBF →
  (c = 0xF0 → 0x90 <= d) → (c = 0xF4 → d <= 0x8F) →
  let cp := (c - 0xF0) * 262144 + (d - 0x80) * 4096 + (e - 0x80) * 64 + (f - 0x80) in
  scalar cp ∧ utf8_encode cp = [c; d; e; f].
Proof.
  intros Hc Hd He Hf Hlo Hhi cp. unfold scalar, utf8_encode. subst cp.
  split; [lia|]. zcases; try lia. repeat f_equal; Z.div_mod_to_equations; lia.
Qed.

Lemma well_formed_cons cp s :
  scalar cp → well_formed_utf8 s → well_formed_utf8 (utf8_encode cp ++ s).
Proof. intros Hcp (cps & Hs & ->). exists (cp :: cps). by split; [constructor|]. Qed.

(** The first sequence of an accepted string. *)
Lemma utf8_run_first c s :
  is_byte c → utf8_run 0 (c :: s) = true →
  ∃ cp s', scalar cp ∧ c :: s = utf8_encode cp ++ s' ∧ utf8_run 0 s' = true.
Proof.
  intros Hc. cbn [utf8_run]. destruct (_ =? 1) eqn:H1; [done|].
  revert H1. unfold utf8_step. simpl (0 =? 0). cbv iota.
  assert (Hpack : ∀ cp l s', scalar cp ∧ utf8_encode cp = l → utf8_run 0 s' = true →
    ∃ cp' s'', scalar cp' ∧ l ++ s' = utf8_encode cp' ++ s'' ∧ utf8_run 0 s'' = true).
  { intros cp l s' [? <-] ?. eauto. }
  zcases; try done; intros _ Hr.
  all: match type of Hr with
  | utf8_run 0 _ = _ =>
      apply (Hpack c [c]); [|done]; unfold scalar, utf8_encode, is_byte in *;
      destruct (Z.ltb_spec c 0x80); [split; [lia|done]|lia]
  | utf8_run 2 _ = _ =>
      destruct (utf8_run_inv2 _ Hr) as (d & s' & -> & ? & ?);
      eapply (Hpack _ [c; d]); [apply utf8_encode2; lia|done]
  | utf8_run ?q _ = _ =>
      eapply (utf8_run_inv_cont2 q) in Hr as (d & x & s' & -> & ? & ? & ?); [|done..];
      eapply (Hpack _ [c; d; x]); [apply utf8_encode3; lia|done]
  | utf8_run ?q _ = _ =>
      eapply (utf8_run_inv_cont3 q) in Hr as (d & x & y & s' & -> & ? & ? & ? & ?); [|done..];
      eapply (Hpack _ [c; d; x; y]); [apply utf8_encode4; lia|done]
  end.
Qed.

Lemma utf8_encode_nonempty cp : (0 < length (utf8_encode cp))%nat.
Proof. unfold utf8_encode. repeat case_match; simpl; lia. Qed.

Lemma utf8_run_sound n : ∀ s,
  (length s ≤ n)%nat → bytes s → utf8_run 0 s = true → well_formed_utf8 s.
Proof.
  induction n as [|n IH]; intros s Hn Hs Hr.
  - exists []. by destruct s; [|simpl in Hn; lia].
  - destruct s as [|c s]; [by exists []|]. assert (Hc := Hs). apply Forall_cons in Hc as [Hc _].
    destruct (utf8_run_first c s Hc Hr) as (cp & s' & Hcp & Es & Hr'). rewrite Es in *.
    apply well_formed_cons; [done|]. apply Forall_app in Hs as [_ Hs].
    assert (Hp := utf8_encode_nonempty cp). rewrite length_app in Hn. apply IH; [lia|done|done].
Qed.

Lemma utf8_run_complete s : well_formed_utf8 s → utf8_run 0 s = true.
Proof.
  intros (cps & Hcps & ->). induction Hcps as [|cp cps Hcp _ IH]; [done|].
  simpl. by rewrite utf8_run_encode.
Qed.

(** The code units of a UTF-16 text in one of the two byte orders; a last odd byte
    is left out. *)
Fixpoint utf16_units (be : bool) (s : list Z) : list Z :=
  match s with
  | a :: b :: s' => (if be then b + 256 * a else a + 256 * b) :: utf16_units be s'
  | _ => []
  end.

Definition utf16_unit_ok (c : Z) : bool :=
  negb (c =? 0xfffe) && ((128 <=? c) || between (CH "a") c (CH "z")).

Lemma lower_bit c : 0 <= c < 128 → (Z.land (u_cttab c) 0x0200 =? 0) = negb (between (CH "a") c (CH "z")).
Proof.
  intros Hc. assert (Hb : is_byte c) by (unfold is_byte; lia).
  assert (H : negb (c <? 128) || Bool.eqb (Z.land (u_cttab c) 0x0200 =? 0)
    (negb (between (CH "a") c (CH "z"))) = true) by byte_check c.
  destruct (Z.ltb_spec c 128); [|lia]. by apply eqb_prop.
Qed.

Lemma utf16_loop_units be s rest :
  bytes s →
  utf16_loop (if be : bool then 1 else 0) (length s) (s ++ rest)
  = Ok (if forallb utf16_unit_ok (utf16_units be s) then (if be then 2 else 1) else 0).
Proof.
  assert (H : ∀ n s, (length s ≤ n)%nat → bytes s →
    utf16_loop (if be : bool then 1 else 0) (length s) (s ++ rest)
    = Ok (if forallb utf16_unit_ok (utf16_units be s) then (if be then 2 else 1) else 0));
    [|by apply (H (length s))].
  clear s. induction n as [|n IH]; intros [|a [|b s]] Hn Hs; try (simpl in Hn; lia); try by destruct be.
  forall_inv. simpl. rewrite IH by (done || (simpl in Hn; lia)).
  replace (negb ((if be then 1 else 0) =? 0)) with be by by destruct be.
  set (c := if be then b + 256 * a else a + 256 * b).
  assert (Hc0 : 0 <= c) by (unfold c, is_byte in *; destruct be; lia).
  unfold utf16_unit_ok at 2. destruct (c =? 0xfffe); [done|].
  destruct (Z.ltb_spec c 128); destruct (Z.leb_spec 128 c); try lia; simpl; [|done].
  rewrite lower_bit by lia. by destruct (between _ c _).
Qed.

(** ** Properties *)

(** C30: [u_isUTF8] accepts exactly the well-formed UTF-8 texts (no overlong form, no
    surrogate, nothing over U+10FFFF), always answers, and reads only the [len] bytes. *)
Theorem u_isUTF8_correct s rest :
  bytes s →
  ∃ b : bool, u_isUTF8 (s ++ rest) (length s) = Ok b ∧ (b = true ↔ well_formed_utf8 s).
Proof.
  intros Hs. exists (utf8_run 0 s). split; [by apply utf8_loop_run|].
  split; [by apply (utf8_run_sound (length s))|apply utf8_run_complete].
Qed.

Lemma u_isUTF8_correct_witness :
  ∃ b : bool, u_isUTF8 [0xE2; 0x82; 0xAC; 65] 3 = Ok b ∧
    (b = true ↔ well_formed_utf8 [0xE2; 0x82; 0xAC]).
Proof.
  apply (u_isUTF8_correct [0xE2; 0x82; 0xAC] [65]). repeat constructor; unfold is_byte; lia.
Defined.

(** [u_isUTF16] answers 1 or 2 for a text that starts with the little or the big
    endian byte order mark and whose code units under 128 are all lower case letters
    (the bit 0x0200 it tests is the one of lower case letters), and 0 for all others. *)
Theorem u_isUTF16_correct s rest :
  bytes s →
  u_isUTF16 (s ++ rest) (length s) = Ok (
    match s with
    | a :: b :: t =>
        if (a =? 0xff) && (b =? 0xfe) then
          if forallb utf16_unit_ok (utf16_units false t) then 1 else 0
        else if (a =? 0xfe) && (b =? 0xff) then
          if forallb utf16_unit_ok (utf16_units true t) then 2 else 0
        else 0
    | _ => 0
    end).
Proof.
  intros Hs. destruct s as [|a [|b s]]; [done..|]. forall_inv. unfold u_isUTF16. simpl.
  rewrite Nat.sub_0_r, drop_0, (utf16_loop_units false), (utf16_loop_units true) by done.
  destruct ((a =? 0xff) && _); [done|]. by destruct ((a =? 0xfe) && _).
Qed.

Lemma u_isUTF16_correct_witness :
  u_isUTF16 [0xff; 0xfe; 65; 0] 4 = Ok 0 ∧ u_isUTF16 [0xff; 0xfe; 97; 0] 4 = Ok 1.
Proof.
  split.
  - refine (u_isUTF16_correct [0xff; 0xfe; 65; 0] [] _). repeat constructor; unfold is_byte; lia.
  - refine (u_isUTF16_correct [0xff; 0xfe; 97; 0] [] _). repeat constructor; unfold is_byte; lia.
Defined.
