(* ===== verification/Hash.v ===== *)
(** * Hash functions ([src/ulib/base/hash.c]) *)

From S2P Require Import Prelude CType.

(** The random sequence table of [u_random]. *)
Definition rseq : list Z :=
  [79; 181; 35; 147; 68; 177; 63; 134; 103; 0; 34; 88; 69; 221; 231; 13;
   91; 49; 220; 90; 58; 112; 72; 145; 7; 4; 93; 176; 129; 192; 5; 132;
   86; 142; 21; 148; 37; 139; 39; 169; 143; 224; 251; 64; 223; 1; 9; 152;
   51; 66; 98; 155; 180; 109; 149; 135; 229; 137; 215; 42; 62; 115; 246; 242;
   118; 160; 94; 249; 123; 144; 122; 213; 252; 171; 60; 167; 253; 198; 77; 2;
   154; 174; 168; 52; 27; 92; 226; 233; 205; 10; 208; 247; 209; 113; 211; 106;
   163; 116; 65; 196; 73; 201; 23; 15; 31; 140; 189; 53; 207; 83; 87; 202;
   101; 173; 28; 46; 6; 255; 237; 47; 227; 36; 218; 70; 114; 22; 100; 96;
   182; 117; 43; 228; 210; 19; 191; 108; 128; 89; 97; 153; 212; 203; 99; 236;
   238; 141; 3; 95; 29; 232; 8; 75; 57; 25; 159; 24; 131; 162; 67; 119;
   74; 30; 138; 214; 240; 12; 187; 127; 133; 18; 81; 222; 188; 239; 82; 199;
   186; 166; 197; 230; 126; 161; 200; 40; 59; 165; 136; 234; 250; 44; 170; 157;
   190; 150; 105; 84; 55; 204; 56; 244; 219; 151; 178; 195; 194; 110; 184; 14;
   48; 146; 235; 216; 120; 175; 254; 50; 102; 107; 41; 130; 54; 26; 248; 225;
   111; 124; 33; 193; 76; 121; 125; 158; 185; 245; 16; 206; 71; 45; 20; 179;
   32; 38; 241; 80; 85; 243; 11; 217; 61; 17; 78; 172; 156; 183; 104; 164;
   79; 181; 35].

(** The bytes of an [uint32_t] in memory, on the little endian platforms. *)
Definition le_byte (a i : Z) : Z := u8 (Z.shiftr a (8 * i)).
Definition le_word (d0 d1 d2 d3 : Z) : Z := d0 + 256 * (d1 + 256 * (d2 + 256 * d3)).

Definition rs (i : Z) : Z := nth (Z.to_nat i) rseq 0.

(** The body of the loop of [u_random]: [u.d[..]] are [unsigned char]s and the
    pointer [c] goes through the bytes of [a]. *)
Definition random_round (a : Z) : Z :=
  let c0 := le_byte a 0 in let c1 := le_byte a 1 in
  let c2 := le_byte a 2 in let c3 := le_byte a 3 in
  le_word (u8 (rs c3))
          (u8 (rs c2 + rs (c3 + 1)))
          (u8 (rs c1 + rs (c2 + 1) + rs (c3 + 2)))
          (u8 (rs c0 + rs (c1 + 1) + rs (c2 + 2) + rs (c3 + 3))).

Definition u_random (a : Z) : Z := Nat.iter 4 random_round a.

Definition u_random64 (ptr : Z) : Z :=
  let a := u32 (Z.shiftr (Z.land ptr 0xffffffff00000000) 32) in
  let b := u32 (Z.land ptr 0x00000000ffffffff) in
  u32 (u_random a + u_random b).

(** [h = ((h << 5) + h) ^ c] for the [tlen] bytes at [t]. *)
Definition cdb_step (h c : Z) : Z := Z.lxor (u32 (u32 (Z.shiftl h 5) + h)) c.

Fixpoint cdb_loop (ignore_case : bool) (h : Z) (t : list Z) (tlen : nat) : res Z :=
  match tlen with
  | O => Ok h
  | S tlen' =>
      match t with
      | [] => Fail OutOfBounds
      | c :: t' => cdb_loop ignore_case (cdb_step h (if ignore_case then u__tolower c else c)) t' tlen'
      end
  end.

Definition u_cdb_hash (t : list Z) (tlen : nat) (ignore_case : bool) : res Z :=
  cdb_loop ignore_case 5381 t tlen.

(** ** MurmurHash3 *)

Definition u_seed_hash : Z := 0xc86b14f7.

Definition rotl32 (x r : Z) : Z := Z.lor (u32 (Z.shiftl x r)) (Z.shiftr x (32 - r)).

Definition c1 : Z := 0xcc9e2d51.
Definition c2 : Z := 0x1b873593.

(** [k1 *= c1; k1 = rotl32(k1,15); k1 *= c2] *)
Definition murmur_scramble (k1 : Z) : Z := u32 (rotl32 (u32 (k1 * c1)) 15 * c2).

(** [h1 ^= k1; h1 = rotl32(h1,13); h1 = h1*5+0xe6546b64] *)
Definition murmur_mix (h1 k1 : Z) : Z :=
  u32 (rotl32 (Z.lxor h1 (murmur_scramble k1)) 13 * 5 + 0xe6546b64).

Definition murmur_fmix (h1 len : Z) : Z :=
  let h1 := Z.lxor h1 len in
  let h1 := Z.lxor h1 (Z.shiftr h1 16) in
  let h1 := u32 (h1 * 0x85ebca6b) in
  let h1 := Z.lxor h1 (Z.shiftr h1 13) in
  let h1 := u32 (h1 * 0xc2b2ae35) in
  Z.lxor h1 (Z.shiftr h1 16).

(** The loops over the blocks; what is left of the memory is the tail. *)
Fixpoint murmur_blocks (ignore_case : bool) (n : nat) (m : list Z) (h1 : Z) : res (Z * list Z) :=
  match n with
  | O => Ok (h1, m)
  | S n' =>
      match m with
      | d0 :: d1 :: d2 :: d3 :: m' =>
          let k1 := if ignore_case
            then le_word (u__tolower d0) (u__tolower d1) (u__tolower d2) (u__tolower d3)
            else le_word d0 d1 d2 d3 in
          murmur_blocks ignore_case n' m' (murmur_mix h1 k1)
      | _ => Fail OutOfBounds
      end
  end.

(** The [switch] on [len & 3], whose cases fall through. *)
Definition murmur_tail (r : Z) (tail : list Z) (h1 : Z) : res Z :=
  if r =? 3 then
    t2 ← rd tail 2; t1 ← rd tail 1; t0 ← rd tail 0;
    Ok (Z.lxor h1 (murmur_scramble (Z.lxor (Z.lxor (Z.lxor 0 (Z.shiftl t2 16)) (Z.shiftl t1 8)) t0)))
  else if r =? 2 then
    t1 ← rd tail 1; t0 ← rd tail 0;
    Ok (Z.lxor h1 (murmur_scramble (Z.lxor (Z.lxor 0 (Z.shiftl t1 8)) t0)))
  else if r =? 1 then
    t0 ← rd tail 0; Ok (Z.lxor h1 (murmur_scramble (Z.lxor 0 t0)))
  else Ok h1.

(** The seed is the variable [u_seed_hash]. *)
Definition u_hash (seed : Z) (bp : list Z) (len : nat) (ignore_case : bool) : res Z :=
  b ← murmur_blocks ignore_case (len / 4) bp seed;
  h1 ← murmur_tail (Z.land (Z.of_nat len) 3) b.2 b.1;
  Ok (murmur_fmix h1 (u32 (Z.of_nat len))).

Arguments le_word : simpl never.
Arguments le_byte : simpl never.
Arguments rs : simpl never.
Arguments murmur_mix : simpl never.
Arguments murmur_scramble : simpl never.

(** ** Injectivity of the steps of [u_random] *)

Lemma rs_range i : 0 <= i < 259 → 0 <= rs i < 256.
Proof.
  intros Hi. assert (H : forallb (λ x, (0 <=? x) && (x <? 256)) rseq = true) by reflexivity.
  rewrite forallb_forall in H. specialize (H (rs i)).
  assert (Hin : In (rs i) rseq) by (apply nth_In; simpl; lia). specialize (H Hin). lia.
Qed.

Definition rseq_inverse : list Z :=
  map (λ v, match list_find (λ x, x = v) (take 256 rseq) with Some (i, _) => Z.of_nat i | None => 0 end)
    (seqZ 0 256).

Lemma rs_inverse c : is_byte c → nth (Z.to_nat (rs c)) rseq_inverse 0 = c.
Proof. intros Hc. byte_check c. Qed.

(** A byte is determined by its entry in the table, up to a constant. *)
Lemma rs_inj k c c' : is_byte c → is_byte c' → u8 (rs c + k) = u8 (rs c' + k) → c = c'.
Proof.
  intros Hc Hc' H. assert (Hr := rs_range c ltac:(unfold is_byte in *; lia)).
  assert (Hr' := rs_range c' ltac:(unfold is_byte in *; lia)).
  assert (E : rs c = rs c'). { unfold u8 in H. Z.div_mod_to_equations. lia. }
  rewrite <- (rs_inverse c), <- (rs_inverse c') by done. by rewrite E.
Qed.

Lemma le_word_inj a b c d a' b' c' d' :
  is_byte a → is_byte b → is_byte c → is_byte d → is_byte a' → is_byte b' → is_byte c' → is_byte d' →
  le_word a b c d = le_word a' b' c' d' → a = a' ∧ b = b' ∧ c = c' ∧ d = d'.
Proof. unfold le_word, is_byte. lia. Qed.

Lemma le_word_bytes a : 0 <= a < 2 ^ 32 →
  a = le_word (le_byte a 0) (le_byte a 1) (le_byte a 2) (le_byte a 3).
Proof.
  intros Ha. unfold le_word, le_byte, u8. rewrite !Z.shiftr_div_pow2 by lia.
  change (2 ^ (8 * 0)) with 1. change (2 ^ (8 * 1)) with 256. change (2 ^ (8 * 2)) with 65536.
  change (2 ^ (8 * 3)) with 16777216. change (2 ^ 8) with 256. change (2 ^ 32) with 4294967296 in Ha.
  Z.div_mod_to_equations. lia.
Qed.

Lemma le_word_range a b c d :
  is_byte a → is_byte b → is_byte c → is_byte d → 0 <= le_word a b c d < 2 ^ 32.
Proof. unfold le_word, is_byte. change (2 ^ 32) with 4294967296. lia. Qed.

Lemma random_round_range a : 0 <= random_round a < 2 ^ 32.
Proof. apply le_word_range; apply u8_byte. Qed.

Lemma random_round_inj a b :
  0 <= a < 2 ^ 32 → 0 <= b < 2 ^ 32 → random_round a = random_round b → a = b.
Proof.
  intros Ha Hb H. apply le_word_inj in H as (H0 & H1 & H2 & H3); try apply u8_byte.
  assert (E3 : le_byte a 3 = le_byte b 3).
  { apply (rs_inj 0); [apply u8_byte..|]. by rewrite !Z.add_0_r. }
  rewrite E3 in *. apply rs_inj in H1; [|apply u8_byte..]. rewrite H1 in *.
  rewrite <- !Z.add_assoc in H2. apply rs_inj in H2; [|apply u8_byte..]. rewrite H2 in *.
  rewrite <- !Z.add_assoc in H3. apply rs_inj in H3; [|apply u8_byte..].
  rewrite (le_word_bytes a), (le_word_bytes b) by done. congruence.
Qed.

Lemma random_iter_inj n a b :
  0 <= a < 2 ^ 32 → 0 <= b < 2 ^ 32 →
  Nat.iter n random_round a = Nat.iter n random_round b → a = b.
Proof.
  intros Ha Hb. induction n as [|n IH]; [done|]. simpl. intros H. apply IH.
  assert (Hr : ∀ x, 0 <= x < 2 ^ 32 → 0 <= Nat.iter n random_round x < 2 ^ 32).
  { intros x Hx. destruct n; [done|]. apply random_round_range. }
  apply random_round_inj in H; auto.
Qed.

(** ** Injectivity of the steps of MurmurHash3 *)

(** Multiplication by a constant that has an inverse modulo 2^32. *)
Lemma mul32_inj c cinv x y :
  u32 (c * cinv) = 1 → 0 <= x < 2 ^ 32 → 0 <= y < 2 ^ 32 → u32 (x * c) = u32 (y * c) → x = y.
Proof.
  intros Hc Hx Hy H.
  assert (Hinv : ∀ z, 0 <= z < 2 ^ 32 → u32 (u32 (z * c) * cinv) = z).
  { intros z Hz. unfold u32 in *. rewrite Z.mul_mod_idemp_l by lia.
    rewrite <- Z.mul_assoc, <- Z.mul_mod_idemp_r, Hc, Z.mul_1_r by lia. by apply Z.mod_small. }
  by rewrite <- (Hinv x Hx), <- (Hinv y Hy), H.
Qed.

Lemma mul_add32_inj c cinv k x y :
  u32 (c * cinv) = 1 → 0 <= x < 2 ^ 32 → 0 <= y < 2 ^ 32 → u32 (x * c + k) = u32 (y * c + k) → x = y.
Proof.
  intros Hc Hx Hy H. apply (mul32_inj c cinv); [done..|].
  assert (E : ∀ z, u32 (z * c) = u32 (u32 (z * c + k) - k)).
  { intros z. unfold u32. rewrite Zminus_mod_idemp_l. f_equal. lia. }
  by rewrite E, H, <- E.
Qed.

Lemma lxor_inj_l h x y : Z.lxor h x = Z.lxor h y → x = y.
Proof.
  intros H. rewrite <- (Z.lxor_0_l x), <- (Z.lxor_0_l y), <- (Z.lxor_nilpotent h), !Z.lxor_assoc.
  by rewrite H.
Qed.

Lemma lxor_range x y : 0 <= x < 2 ^ 32 → 0 <= y < 2 ^ 32 → 0 <= Z.lxor x y < 2 ^ 32.
Proof.
  intros Hx Hy. assert (0 <= Z.lxor x y) by (apply Z.lxor_nonneg; lia).
  split; [done|]. destruct (Z.eq_dec (Z.lxor x y) 0) as [->|]; [lia|].
  apply Z.log2_lt_pow2; [lia|]. eapply Z.le_lt_trans; [apply Z.log2_lxor; lia|].
  apply Z.max_lub_lt.
  - destruct (Z.eq_dec x 0) as [->|]; [done|]. apply Z.log2_lt_pow2; lia.
  - destruct (Z.eq_dec y 0) as [->|]; [done|]. apply Z.log2_lt_pow2; lia.
Qed.

(** [h ^= h >> k] loses nothing. *)
Lemma xorshift_inj k x y :
  0 < k → 0 <= x → 0 <= y → Z.lxor x (Z.shiftr x k) = Z.lxor y (Z.shiftr y k) → x = y.
Proof.
  intros Hk Hx Hy H. set (z := Z.lxor x y).
  assert (Hz : Z.lxor z (Z.shiftr z k) = 0).
  { unfold z. rewrite Z.shiftr_lxor. rewrite (Z.lxor_comm x y), Z.lxor_assoc, <- (Z.lxor_assoc x).
    rewrite H, <- !Z.lxor_assoc, Z.lxor_nilpotent, Z.lxor_0_l. apply Z.lxor_nilpotent. }
  apply Z.lxor_eq in Hz. assert (Hz0 : 0 <= z) by (apply Z.lxor_nonneg; lia).
  rewrite Z.shiftr_div_pow2 in Hz by lia.
  apply Z.lxor_eq. fold z. destruct (Z.eq_dec z 0) as [|Hne]; [done|].
  assert (Hp : 1 < 2 ^ k) by (apply Z.pow_gt_1; lia).
  assert (Hlt := Z.div_lt z (2 ^ k) ltac:(lia) Hp). lia.
Qed.

Lemma xorshift_range k x : 0 <= k → 0 <= x < 2 ^ 32 → 0 <= Z.lxor x (Z.shiftr x k) < 2 ^ 32.
Proof.
  intros Hk Hx. apply lxor_range; [done|]. rewrite Z.shiftr_div_pow2 by lia.
  split; [apply Z.div_pos; lia|]. apply Z.div_lt_upper_bound; nia.
Qed.

(** The two halves a rotation exchanges. *)
Lemma rotl32_split x r :
  0 <= x < 2 ^ 32 → 0 < r < 32 →
  rotl32 x r = (x mod 2 ^ (32 - r)) * 2 ^ r + x / 2 ^ (32 - r).
Proof.
  intros Hx Hr. unfold rotl32, u32. rewrite Z.shiftr_div_pow2, Z.shiftl_mul_pow2 by lia.
  assert (E : 2 ^ 32 = 2 ^ (32 - r) * 2 ^ r) by (rewrite <- Z.pow_add_r by lia; f_equal; lia).
  rewrite E, Z.mul_mod_distr_r by lia.
  assert (Hq : 0 <= x / 2 ^ (32 - r) < 2 ^ r).
  { split; [apply Z.div_pos; lia|]. apply Z.div_lt_upper_bound; lia. }
  rewrite <- Z.add_nocarry_lor; [done|]. apply land_high_low; [lia|done].
Qed.

Lemma rotl32_range x r : 0 <= x < 2 ^ 32 → 0 < r < 32 → 0 <= rotl32 x r < 2 ^ 32.
Proof.
  intros Hx Hr. rewrite rotl32_split by done.
  assert (E : 2 ^ 32 = 2 ^ (32 - r) * 2 ^ r) by (rewrite <- Z.pow_add_r by lia; f_equal; lia).
  assert (Hq : 0 <= x / 2 ^ (32 - r) < 2 ^ r).
  { split; [apply Z.div_pos; lia|]. apply Z.div_lt_upper_bound; lia. }
  assert (Hm : 0 <= x mod 2 ^ (32 - r) < 2 ^ (32 - r)) by (apply Z.mod_pos_bound; lia). nia.
Qed.

Lemma rotl32_inj r x y :
  0 < r < 32 → 0 <= x < 2 ^ 32 → 0 <= y < 2 ^ 32 → rotl32 x r = rotl32 y r → x = y.
Proof.
  intros Hr Hx Hy. rewrite !rotl32_split by done.
  assert (E : 2 ^ 32 = 2 ^ (32 - r) * 2 ^ r) by (rewrite <- Z.pow_add_r by lia; f_equal; lia).
  assert (Hq : ∀ z, 0 <= z < 2 ^ 32 → 0 <= z / 2 ^ (32 - r) < 2 ^ r).
  { intros z Hz. split; [apply Z.div_pos; lia|]. apply Z.div_lt_upper_bound; lia. }
  assert (Hqx := Hq x Hx). assert (Hqy := Hq y Hy).
  intros H. assert (Hm : x mod 2 ^ (32 - r) = y mod 2 ^ (32 - r) ∧ x / 2 ^ (32 - r) = y / 2 ^ (32 - r)).
  { apply (Z.div_mod_unique (2 ^ r)); [by left|by left|]. lia. }
  destruct Hm as [H1 H2]. rewrite (Z.div_mod x (2 ^ (32 - r))), (Z.div_mod y (2 ^ (32 - r))) by lia.
  by rewrite H1, H2.
Qed.

Lemma murmur_scramble_inj x y :
  0 <= x < 2 ^ 32 → 0 <= y < 2 ^ 32 → murmur_scramble x = murmur_scramble y → x = y.
Proof.
  intros Hx Hy H. apply (mul32_inj c2 0x56ed309b) in H; [|reflexivity|apply rotl32_range; [apply u32_range|lia]..].
  apply rotl32_inj in H; [|lia|apply u32_range..]. by apply (mul32_inj c1 0xdee13bb1) in H.
Qed.

Lemma murmur_scramble_range x : 0 <= murmur_scramble x < 2 ^ 32.
Proof. apply u32_range. Qed.

Lemma murmur_mix_range h k : 0 <= murmur_mix h k < 2 ^ 32.
Proof. apply u32_range. Qed.

Lemma murmur_mix_inj h k h' k' :
  0 <= h < 2 ^ 32 → 0 <= h' < 2 ^ 32 →
  murmur_mix h k = murmur_mix h' k' → Z.lxor h (murmur_scramble k) = Z.lxor h' (murmur_scramble k').
Proof.
  intros Hh Hh' H. assert (Hx := lxor_range h _ Hh (murmur_scramble_range k)).
  assert (Hy := lxor_range h' _ Hh' (murmur_scramble_range k')).
  apply (mul_add32_inj 5 3435973837) in H; [|reflexivity|apply rotl32_range; [done|lia]..].
  by apply rotl32_inj in H; [|lia|done..].
Qed.

Lemma murmur_fmix_inj len x y :
  0 <= len < 2 ^ 32 → 0 <= x < 2 ^ 32 → 0 <= y < 2 ^ 32 → murmur_fmix x len = murmur_fmix y len → x = y.
Proof.
  intros Hl Hx Hy H. unfold murmur_fmix in H.
  assert (Hlx := lxor_range x len Hx Hl). assert (Hly := lxor_range y len Hy Hl).
  rewrite (Z.lxor_comm x), (Z.lxor_comm y) in *.
  assert (Hmul : ∀ z c, 0 <= u32 (z * c) < 2 ^ 32) by (intros; apply u32_range).
  apply xorshift_inj in H; [|lia|apply u32_range..].
  apply (mul32_inj 0xc2b2ae35 0x7ed1b41d) in H; [|reflexivity|apply xorshift_range; [lia|apply u32_range]..].
  apply xorshift_inj in H; [|lia|apply u32_range..].
  apply (mul32_inj 0x85ebca6b 0xa5cb9243) in H; [|reflexivity|by apply xorshift_range; [lia|]..].
  apply xorshift_inj in H; [|lia|lia|lia]. by apply lxor_inj_l in H.
Qed.

(** ** The hash of a key, as a function of its blocks and its tail *)

Fixpoint murmur_fold (ignore_case : bool) (s : list Z) (h1 : Z) : Z :=
  match s with
  | d0 :: d1 :: d2 :: d3 :: s' =>
      murmur_fold ignore_case s' (murmur_mix h1
        (if ignore_case then le_word (u__tolower d0) (u__tolower d1) (u__tolower d2) (u__tolower d3)
         else le_word d0 d1 d2 d3))
  | _ => h1
  end.

Definition tail_word (tl : list Z) : Z :=
  match tl with
  | [t0] => le_word t0 0 0 0
  | [t0; t1] => le_word t0 t1 0 0
  | [t0; t1; t2] => le_word t0 t1 t2 0
  | _ => 0
  end.

Definition murmur_end (tl : list Z) (h1 : Z) : Z :=
  match tl with [] => h1 | _ => Z.lxor h1 (murmur_scramble (tail_word tl)) end.

Lemma list_ind4 {A} (P : list A → Prop) :
  (∀ s, (length s < 4)%nat → P s) → (∀ a b c d s, P s → P (a :: b :: c :: d :: s)) → ∀ s, P s.
Proof.
  intros H0 H4. fix IH 1. intros [|a [|b [|c [|d s]]]]; try (apply H0; simpl; lia). apply H4, IH.
Qed.

Lemma murmur_blocks_fold ic n s rest h :
  length s = (4 * n)%nat → murmur_blocks ic n (s ++ rest) h = Ok (murmur_fold ic s h, rest).
Proof.
  revert s h. induction n as [|n IH]; intros s h Hs.
  - by destruct s.
  - destruct s as [|a [|b [|c [|d s]]]]; try (simpl in Hs; lia). simpl. apply IH. simpl in Hs. lia.
Qed.

Lemma lxor_add_low a b r : 0 <= r → 0 <= b < 2 ^ r → Z.lxor (Z.shiftl a r) b = a * 2 ^ r + b.
Proof.
  intros Hr Hb. rewrite Z.shiftl_mul_pow2 by lia. symmetry. apply Z.add_nocarry_lxor.
  by apply land_high_low.
Qed.

Lemma murmur_tail_end tl rest h :
  bytes tl → (length tl < 4)%nat →
  murmur_tail (Z.of_nat (length tl)) (tl ++ rest) h = Ok (murmur_end tl h).
Proof.
  intros Ht Hl. destruct tl as [|a [|b [|c [|d tl]]]]; try (simpl in Hl; lia); forall_inv.
  - done.
  - unfold murmur_tail. simpl. do 3 f_equal. rewrite Z.lxor_0_l. unfold le_word. lia.
  - unfold murmur_tail. simpl. do 3 f_equal. unfold is_byte in *.
    rewrite Z.lxor_0_l, lxor_add_low by lia. unfold le_word. lia.
  - unfold murmur_tail. simpl. do 3 f_equal. unfold is_byte in *.
    rewrite Z.lxor_0_l. change (Z.shiftl c 16) with (Z.shiftl c (8 + 8)).
    rewrite <- Z.shiftl_shiftl, <- Z.shiftl_lxor by lia.
    rewrite (lxor_add_low c b), lxor_add_low by lia. unfold le_word. lia.
Qed.

Lemma u_hash_eq seed s tl rest ic :
  (length s mod 4 = 0)%nat → bytes tl → (length tl < 4)%nat →
  u_hash seed (s ++ tl ++ rest) (length (s ++ tl)) ic
  = Ok (murmur_fmix (murmur_end tl (murmur_fold ic s seed)) (u32 (Z.of_nat (length (s ++ tl))))).
Proof.
  intros Hs Ht Hl. unfold u_hash. rewrite length_app.
  assert (Hn : ((length s + length tl) / 4 = length s / 4)%nat).
  { rewrite (Nat.div_mod_eq (length s) 4) at 1. rewrite Hs, Nat.add_0_r.
    rewrite Nat.mul_comm, Nat.div_add_l, (Nat.div_small (length tl)) by lia. lia. }
  assert (Hr : Z.land (Z.of_nat (length s + length tl)) 3 = Z.of_nat (length tl)).
  { change 3 with (Z.ones 2). rewrite Z.land_ones by lia. change (2 ^ 2) with 4.
    assert (Hd := Nat.div_mod_eq (length s) 4). Z.div_mod_to_equations. lia. }
  rewrite Hn, Hr, murmur_blocks_fold.
  - simpl. rewrite murmur_tail_end by done. done.
  - assert (Hd := Nat.div_mod_eq (length s) 4). lia.
Qed.

Lemma murmur_fold_nocase s h : murmur_fold true s h = murmur_fold false (map u__tolower s) h.
Proof.
  revert h. induction s as [s Hs|a b c d s IH] using list_ind4; intros h.
  - destruct s as [|a [|b [|c [|d s]]]]; try done. simpl in Hs. lia.
  - simpl. apply IH.
Qed.

Lemma murmur_fold_app ic s t h :
  (length s mod 4 = 0)%nat → murmur_fold ic (s ++ t) h = murmur_fold ic t (murmur_fold ic s h).
Proof.
  revert h. induction s as [s Hs|a b c d s IH] using list_ind4; intros h Hm.
  - rewrite Nat.mod_small in Hm by done. by destruct s.
  - simpl. apply IH. cbn [length] in Hm. assert (Hd := Nat.Div0.mod_add (length s) 1 4).
    replace (length s + 1 * 4)%nat with (S (S (S (S (length s))))) in Hd by lia. by rewrite <- Hd.
Qed.

Lemma murmur_fold_range ic s h : 0 <= h < 2 ^ 32 → 0 <= murmur_fold ic s h < 2 ^ 32.
Proof.
  revert h. induction s as [s Hs|a b c d s IH] using list_ind4; intros h Hh.
  - destruct s as [|a [|b [|c [|d s]]]]; try done. simpl in Hs. lia.
  - simpl. apply IH, murmur_mix_range.
Qed.

Lemma murmur_fold_inj ic s h h' :
  0 <= h < 2 ^ 32 → 0 <= h' < 2 ^ 32 → murmur_fold ic s h = murmur_fold ic s h' → h = h'.
Proof.
  revert h h'. induction s as [s Hs|a b c d s IH] using list_ind4; intros h h' Hh Hh' H.
  - destruct s as [|a [|b [|c [|d s]]]]; try done. simpl in Hs. lia.
  - simpl in H. apply IH in H; [|apply murmur_mix_range..].
    apply murmur_mix_inj in H; [|done..].
    rewrite !(Z.lxor_comm _ (murmur_scramble _)) in H. by apply lxor_inj_l in H.
Qed.

Lemma tail_word_inj tl tl' :
  bytes tl → bytes tl' → length tl = length tl' → (length tl < 4)%nat →
  tail_word tl = tail_word tl' → tl = tl'.
Proof.
  intros Ht Ht' Hl H4 H.
  destruct tl as [|a [|b [|c [|d tl]]]]; destruct tl' as [|a' [|b' [|c' [|d' tl']]]];
    simpl in Hl, H4; try lia; forall_inv; simpl in H; [done|..];
    apply le_word_inj in H; try done; destruct_and! H; congruence.
Qed.

Lemma tail_word_range tl : bytes tl → 0 <= tail_word tl < 2 ^ 32.
Proof.
  intros Ht. destruct tl as [|a [|b [|c [|d tl]]]]; forall_inv; simpl; try lia;
    apply le_word_range; done.
Qed.

Lemma murmur_end_range tl h : bytes tl → 0 <= h < 2 ^ 32 → 0 <= murmur_end tl h < 2 ^ 32.
Proof.
  intros Ht Hh. destruct tl; [done|]. by apply lxor_range; [|apply murmur_scramble_range].
Qed.

Lemma murmur_end_inj_h tl h h' : murmur_end tl h = murmur_end tl h' → h = h'.
Proof.
  destruct tl; [done|]. unfold murmur_end. rewrite !(Z.lxor_comm _ (murmur_scramble _)).
  apply lxor_inj_l.
Qed.

Lemma murmur_end_inj_tl tl tl' h :
  bytes tl → bytes tl' → length tl = length tl' → (length tl < 4)%nat →
  murmur_end tl h = murmur_end tl' h → tl = tl'.
Proof.
  intros Ht Ht' Hl H4 H. apply tail_word_inj; [done..|].
  apply murmur_scramble_inj; [by apply tail_word_range..|].
  destruct tl as [|a tl], tl' as [|a' tl']; try done. unfold murmur_end in H. by apply lxor_inj_l in H.
Qed.

(** The whole blocks of what follows a block, and the rest. *)
Lemma split_blocks (post : list Z) :
  ∃ pb tl, post = pb ++ tl ∧ (length pb mod 4 = 0)%nat ∧ (length tl < 4)%nat.
Proof.
  assert (Hd := Nat.div_mod_eq (length post) 4).
  assert (Hm := Nat.mod_upper_bound (length post) 4 ltac:(lia)).
  exists (take (length post / 4 * 4) post), (drop (length post / 4 * 4) post).
  rewrite take_drop, length_take, length_drop. split; [done|].
  rewrite Nat.min_l by lia. rewrite Nat.Div0.mod_mul. lia.
Qed.

Lemma murmur_fmix_range h len : 0 <= murmur_fmix h len < 2 ^ 32.
Proof. apply xorshift_range; [lia|]. apply u32_range. Qed.

(** The hash of a string of bytes. *)
Lemma u_hash_string seed k ic :
  bytes k → ∃ s tl, k = s ++ tl ∧ (length s mod 4 = 0)%nat ∧ (length tl < 4)%nat ∧
    u_hash seed k (length k) ic
    = Ok (murmur_fmix (murmur_end tl (murmur_fold ic s seed)) (u32 (Z.of_nat (length k)))).
Proof.
  intros Hk. destruct (split_blocks k) as (s & tl & -> & Hs & Ht). exists s, tl. splits; try done.
  rewrite <- (u_hash_eq seed s tl [] ic), app_nil_r; [done|done| |done]. by apply Forall_app in Hk as [_ ?].
Qed.

Lemma u_hash_block_eq seed pre y pb tl r :
  (length pre mod 4 = 0)%nat → length y = 4%nat → (length pb mod 4 = 0)%nat → bytes tl →
  (length tl < 4)%nat →
  u_hash seed ((pre ++ y ++ pb ++ tl) ++ r) (length (pre ++ y ++ pb ++ tl)) false
  = Ok (murmur_fmix (murmur_end tl (murmur_fold false pb (murmur_fold false y (murmur_fold false pre seed))))
          (u32 (Z.of_nat (length (pre ++ y ++ pb ++ tl))))).
Proof.
  intros Hpre Hy Hpb Ht Hl.
  assert (Hmod : (length (pre ++ y ++ pb) mod 4 = 0)%nat).
  { rewrite !length_app, Hy. rewrite (Nat.Div0.add_mod (length pre)), Hpre.
    rewrite (Nat.Div0.add_mod 4), Hpb. done. }
  replace (pre ++ y ++ pb ++ tl) with ((pre ++ y ++ pb) ++ tl) by by rewrite <- !app_assoc.
  rewrite <- (app_assoc _ tl r), u_hash_eq by done.
  by rewrite !murmur_fold_app by (rewrite ?Hy; done).
Qed.

(** A block is determined by the state before and after it. *)
Lemma murmur_block_inj x x' h :
  bytes x → bytes x' → length x = 4%nat → length x' = 4%nat → 0 <= h < 2 ^ 32 →
  murmur_fold false x h = murmur_fold false x' h → x = x'.
Proof.
  intros Hx Hx' H4 H4' Hh H.
  destruct x as [|a [|b [|c [|d [|]]]]]; try (simpl in H4; lia).
  destruct x' as [|a' [|b' [|c' [|d' [|]]]]]; try (simpl in H4'; lia). simpl in H. forall_inv.
  apply murmur_mix_inj in H; [|done..]. apply lxor_inj_l in H.
  apply murmur_scramble_inj in H; [|by apply le_word_range..].
  apply le_word_inj in H; try done. destruct_and! H. congruence.
Qed.

(** ** Properties *)

(** The table driven generator is one to one on 32 bit integers: it never maps
    two of them to the same one, and stays in range. *)
Theorem u_random_injective a b :
  0 <= a < 2 ^ 32 → 0 <= b < 2 ^ 32 →
  0 <= u_random a < 2 ^ 32 ∧ (u_random a = u_random b ↔ a = b).
Proof.
  intros Ha Hb. split; [apply random_round_range|].
  split; [by apply random_iter_inj|by intros ->].
Qed.

Lemma u_random_injective_witness :
  0 <= u_random 1 < 2 ^ 32 ∧ (u_random 1 = u_random 2 ↔ 1 = 2).
Proof. apply (u_random_injective 1 2); lia. Defined.

(** For every seed, two keys of the same length that differ in one of their blocks of four
    bytes, or only in the bytes after the last block, have different hashes. *)
Theorem u_hash_one_block seed pre x x' post rest rest' :
  0 <= seed < 2 ^ 32 → (length pre mod 4 = 0)%nat → bytes pre → bytes x → bytes x' → bytes post →
  length x = length x' → (length x = 4%nat ∨ (length x < 4)%nat ∧ post = []) → x ≠ x' →
  ∃ h h', u_hash seed ((pre ++ x ++ post) ++ rest) (length (pre ++ x ++ post)) false = Ok h ∧
    u_hash seed ((pre ++ x' ++ post) ++ rest') (length (pre ++ x' ++ post)) false = Ok h' ∧
    h ≠ h'.
Proof.
  intros Hseed Hpre Hbp Hx Hx' Hpost Hl Hcase Hne.
  assert (Hlen : length (pre ++ x ++ post) = length (pre ++ x' ++ post)) by (rewrite !length_app; lia).
  destruct Hcase as [H4|[H4 ->]].
  - destruct (split_blocks post) as (pb & tl & -> & Hpb & Htl). apply Forall_app in Hpost as [_ Hbt].
    do 2 eexists. split; [by apply u_hash_block_eq|]. split; [apply u_hash_block_eq; (done || lia)|].
    rewrite <- Hlen. intros H. apply murmur_fmix_inj in H;
      [|apply u32_range|apply murmur_end_range; [done|by do 3 apply murmur_fold_range]..].
    apply murmur_end_inj_h, murmur_fold_inj in H; [|by do 2 apply murmur_fold_range..].
    apply murmur_block_inj in H; [done..|lia|by apply murmur_fold_range].
  - rewrite !app_nil_r in *. do 2 eexists. rewrite <- !app_assoc.
    split; [by apply u_hash_eq|]. split; [apply u_hash_eq; [done..|lia]|].
    rewrite <- Hlen. intros H.
    apply murmur_fmix_inj in H;
      [|apply u32_range|apply murmur_end_range; [done|by apply murmur_fold_range]..].
    by apply murmur_end_inj_tl in H.
Qed.

Lemma u_hash_one_block_witness :
  ∃ h h', u_hash u_seed_hash (BS "key1" ++ BS "ab") 6 false = Ok h ∧
    u_hash u_seed_hash (BS "key2" ++ BS "ab") 6 false = Ok h' ∧ h ≠ h'.
Proof.
  apply (u_hash_one_block u_seed_hash [] (BS "key1") (BS "key2") (BS "ab") [] []);
    try reflexivity; try (repeat constructor; unfold is_byte; lia); try done; try by left.
Defined.

(** With [ignore_case] the blocks of four bytes are hashed in lower case but the bytes after
    the last block are not: the two letter cases of a key whose length is a multiple of four have the
    same hash, those of the key [A] do not. *)
Theorem u_hash_ignore_case seed s tl rest :
  (length s mod 4 = 0)%nat → bytes s → bytes tl → (length tl < 4)%nat →
  u_hash seed (s ++ tl ++ rest) (length (s ++ tl)) true
  = u_hash seed (map u__tolower s ++ tl ++ rest) (length (s ++ tl)) false ∧
  u_hash u_seed_hash (BS "A") 1 true ≠ u_hash u_seed_hash (BS "a") 1 true.
Proof.
  intros Hs Hbs Ht Hl. split; [|by vm_compute].
  rewrite u_hash_eq by done.
  assert (El : length (s ++ tl) = length (map u__tolower s ++ tl)) by by rewrite !length_app, length_map.
  rewrite El, u_hash_eq by (rewrite ?length_map; done). do 3 f_equal. apply murmur_fold_nocase.
Qed.

Lemma u_hash_ignore_case_witness :
  u_hash 1 (BS "AbCdE" ++ [0]) 5 true = u_hash 1 (BS "abcdE" ++ [0]) 5 false ∧
  u_hash u_seed_hash (BS "A") 1 true ≠ u_hash u_seed_hash (BS "a") 1 true.
Proof.
  apply (u_hash_ignore_case 1 (BS "AbCd") (BS "E") [0]); try reflexivity;
    try (repeat constructor; unfold is_byte; lia); simpl; lia.
Defined.

(** The hash of constant databases is h := (33 h xor c) modulo 2^32 over the bytes, from 5381, and
    with [ignore_case] it is the hash of the lower case key. *)
Theorem u_cdb_hash_correct s rest (ignore_case : bool) :
  bytes s →
  let key := if ignore_case then map u__tolower s else s in
  u_cdb_hash (s ++ rest) (length s) ignore_case
  = Ok (fold_left (λ h c, Z.lxor ((33 * h) mod 2 ^ 32) c) key 5381) ∧
  u_cdb_hash (s ++ rest) (length s) ignore_case = u_cdb_hash (key ++ rest) (length s) false.
Proof.
  intros Hs key. unfold u_cdb_hash.
  assert (H : ∀ (ic : bool) s h rest, cdb_loop ic h (s ++ rest) (length s)
    = Ok (fold_left (λ h c, Z.lxor ((33 * h) mod 2 ^ 32) c) (if ic : bool then map u__tolower s else (s : list Z)) h)).
  { clear. intros ic. induction s as [|c s IH]; intros h rest; [by destruct ic, rest|].
    simpl. rewrite IH. unfold cdb_step.
    assert (E : u32 (u32 (Z.shiftl h 5) + h) = (33 * h) mod 2 ^ 32).
    { unfold u32. rewrite Z.add_mod_idemp_l, Z.shiftl_mul_pow2 by lia. f_equal. lia. }
    rewrite E. by destruct ic. }
  split; [apply H|]. rewrite H.
  replace (length s) with (length key) by (unfold key; destruct ignore_case; rewrite ?length_map; done).
  by rewrite H.
Qed.

Lemma u_cdb_hash_correct_witness :
  u_cdb_hash (BS "Key!") 3 true
  = Ok (fold_left (λ h c, Z.lxor ((33 * h) mod 2 ^ 32) c) (map u__tolower (BS "Key")) 5381) ∧
  u_cdb_hash (BS "Key!") 3 true = u_cdb_hash (map u__tolower (BS "Key") ++ BS "!") 3 false.
Proof.
  apply (u_cdb_hash_correct (BS "Key") (BS "!") true). repeat constructor; unfold is_byte; lia.
Defined.
