(* ===== verification/Mime.v ===== *)
(** * MIME types of file suffixes ([u_get_mimetype], [src/ulib/base/utility.c])

    The tables list, by first letter, the names without that letter. A name
    matches every suffix it is a prefix of; the first entry that matches wins. *)

From S2P Require Import Prelude.

Record mimeentry := Mime { mime_name : list Z; mime_type : list Z }.

#[global] Instance mimeentry_eq_dec : EqDecision mimeentry.
Proof. solve_decision. Defined.

(** The macro stores [name+1] and the length without the first character. *)
Definition MIME_ENTRY (name type : list Z) : mimeentry := Mime (tail name) type.

Definition mimetab_a : list mimeentry :=
  [MIME_ENTRY (BS "ai") (BS "application/postscript");
   MIME_ENTRY (BS "arj") (BS "application/x-arj-compressed");
   MIME_ENTRY (BS "asx") (BS "video/x-ms-asf");
   MIME_ENTRY (BS "atom") (BS "application/atom+xml");
   MIME_ENTRY (BS "avi") (BS "video/x-msvideo");
   MIME_ENTRY (BS "appcache") (BS "text/cache-manifest")].

Definition mimetab_b : list mimeentry :=
  [MIME_ENTRY (BS "bat") (BS "application/x-msdos-program");
   MIME_ENTRY (BS "bmp") (BS "image/x-ms-bmp");
   MIME_ENTRY (BS "bild") (BS "image/jpeg");
   MIME_ENTRY (BS "boz") (BS "application/x-bzip2")].

Definition mimetab_c : list mimeentry :=
  [MIME_ENTRY (BS "css") (BS "text/css");
   MIME_ENTRY (BS "crt") (BS "application/x-x509-ca-cert");
   MIME_ENTRY (BS "cer") (BS "application/x-x509-ca-cert");
   MIME_ENTRY (BS "crx") (BS "application/x-chrome-extension crx")].

Definition mimetab_d : list mimeentry :=
  [MIME_ENTRY (BS "der") (BS "application/x-x509-ca-cert");
   MIME_ENTRY (BS "doc") (BS "application/msword");
   MIME_ENTRY (BS "dtd") (BS "application/xml")].

Definition mimetab_e : list mimeentry :=
  [MIME_ENTRY (BS "eps") (BS "application/postscript");
   MIME_ENTRY (BS "eot") (BS "application/vnd.ms-fontobject")].

Definition mimetab_f : list mimeentry :=
  [MIME_ENTRY (BS "flv") (BS "video/x-flv")].

Definition mimetab_g : list mimeentry :=
  [MIME_ENTRY (BS "gif") (BS "image/gif");
   MIME_ENTRY (BS "gtar") (BS "application/x-gtar")].

Definition mimetab_h : list mimeentry :=
  [MIME_ENTRY (BS "htm") (BS "text/html");
   MIME_ENTRY (BS "htc") (BS "text/x-component")].

Definition mimetab_i : list mimeentry :=
  [MIME_ENTRY (BS "ico") (BS "image/x-icon")].

Definition mimetab_j : list mimeentry :=
  [MIME_ENTRY (BS "js") (BS "text/javascript");
   MIME_ENTRY (BS "json") (BS "application/json");
   MIME_ENTRY (BS "jp") (BS "image/jpeg")].

Definition mimetab_m : list mimeentry :=
  [MIME_ENTRY (BS "mng") (BS "video/x-mng");
   MIME_ENTRY (BS "mp4") (BS "video/mp4");
   MIME_ENTRY (BS "m4a") (BS "audio/mp4");
   MIME_ENTRY (BS "mp") (BS "video/mpeg");
   MIME_ENTRY (BS "md5") (BS "text/plain");
   MIME_ENTRY (BS "mov") (BS "video/quicktime");
   MIME_ENTRY (BS "mf") (BS "text/cache-manifest");
   MIME_ENTRY (BS "manifest") (BS "text/cache-manifest")].

Definition mimetab_o : list mimeentry :=
  [MIME_ENTRY (BS "ogv") (BS "video/ogg");
   MIME_ENTRY (BS "og") (BS "audio/ogg");
   MIME_ENTRY (BS "otf") (BS "font/opentype")].

Definition mimetab_p : list mimeentry :=
  [MIME_ENTRY (BS "png") (BS "image/png");
   MIME_ENTRY (BS "pdf") (BS "application/pdf");
   MIME_ENTRY (BS "pem") (BS "application/x-x509-ca-cert");
   MIME_ENTRY (BS "php") (BS "application/x-httpd-php");
   MIME_ENTRY (BS "pbm") (BS "image/x-portable-bitmap");
   MIME_ENTRY (BS "pgm") (BS "image/x-portable-graymap");
   MIME_ENTRY (BS "pnm") (BS "image/x-portable-anymap");
   MIME_ENTRY (BS "ppm") (BS "image/x-portable-pixmap");
   MIME_ENTRY (BS "ps") (BS "application/postscript");
   MIME_ENTRY (BS "p7b") (BS "application/x-pkcs7-certificates");
   MIME_ENTRY (BS "p7c") (BS "application/x-pkcs7-mime");
   MIME_ENTRY (BS "p12") (BS "application/x-pkcs12");
   MIME_ENTRY (BS "ppt") (BS "application/vnd.ms-powerpoint")].

Definition mimetab_q : list mimeentry :=
  [MIME_ENTRY (BS "qt") (BS "video/quicktime")].

Definition mimetab_r : list mimeentry :=
  [MIME_ENTRY (BS "rar") (BS "application/x-rar-compressed");
   MIME_ENTRY (BS "rtf") (BS "text/rtf");
   MIME_ENTRY (BS "rtx") (BS "text/richtext");
   MIME_ENTRY (BS "rdf") (BS "application/rdf+xml");
   MIME_ENTRY (BS "roff") (BS "application/x-troff");
   MIME_ENTRY (BS "rss") (BS "application/rss+xml");
   MIME_ENTRY (BS "xrdf") (BS "application/rdf+xml")].

Definition mimetab_s : list mimeentry :=
  [MIME_ENTRY (BS "shtm") (BS "text/html");
   MIME_ENTRY (BS "svg") (BS "image/svg+xml");
   MIME_ENTRY (BS "swf") (BS "application/x-shockwave-flash");
   MIME_ENTRY (BS "sgm") (BS "text/sgml");
   MIME_ENTRY (BS "safariextz") (BS "application/octet-stream")].

Definition mimetab_t : list mimeentry :=
  [MIME_ENTRY (BS "tar") (BS "application/x-tar");
   MIME_ENTRY (BS "tif") (BS "image/tiff");
   MIME_ENTRY (BS "text") (BS "text/plain");
   MIME_ENTRY (BS "txt") (BS "text/plain");
   MIME_ENTRY (BS "tgz") (BS "application/x-tar-gz");
   MIME_ENTRY (BS "ttf") (BS "font/truetype");
   MIME_ENTRY (BS "ttl") (BS "text/turtle")].

Definition mimetab_u : list mimeentry :=
  [MIME_ENTRY (BS "usp") (BS "text/plain")].

Definition mimetab_w : list mimeentry :=
  [MIME_ENTRY (BS "wav") (BS "audio/x-wav");
   MIME_ENTRY (BS "wmv") (BS "video/x-ms-wmv");
   MIME_ENTRY (BS "webm") (BS "video/webm");
   MIME_ENTRY (BS "woff") (BS "application/x-font-woff");
   MIME_ENTRY (BS "webp") (BS "image/webp")].

Definition mimetab_x : list mimeentry :=
  [MIME_ENTRY (BS "xls") (BS "application/vnd.ms-excel");
   MIME_ENTRY (BS "xml") (BS "text/xml");
   MIME_ENTRY (BS "xsl") (BS "text/xml");
   MIME_ENTRY (BS "xpm") (BS "image/x-xpixmap");
   MIME_ENTRY (BS "xbm") (BS "image/x-xbitmap");
   MIME_ENTRY (BS "xpi") (BS "application/x-xpinstall")].

Definition mimetab_z : list mimeentry :=
  [MIME_ENTRY (BS "zip") (BS "application/zip")].

Definition mimetab_null : list mimeentry :=
  [].

(** The [switch] on the first character. *)
Definition mimetab (c : Z) : list mimeentry :=
  if c =? CH "a" then mimetab_a
  else if c =? CH "b" then mimetab_b
  else if c =? CH "c" then mimetab_c
  else if c =? CH "d" then mimetab_d
  else if c =? CH "e" then mimetab_e
  else if c =? CH "f" then mimetab_f
  else if c =? CH "g" then mimetab_g
  else if c =? CH "h" then mimetab_h
  else if c =? CH "i" then mimetab_i
  else if c =? CH "j" then mimetab_j
  else if c =? CH "m" then mimetab_m
  else if c =? CH "o" then mimetab_o
  else if c =? CH "p" then mimetab_p
  else if c =? CH "q" then mimetab_q
  else if c =? CH "r" then mimetab_r
  else if c =? CH "s" then mimetab_s
  else if c =? CH "t" then mimetab_t
  else if c =? CH "u" then mimetab_u
  else if c =? CH "w" then mimetab_w
  else if c =? CH "x" then mimetab_x
  else if c =? CH "z" then mimetab_z
  else mimetab_null.

(** The loop over a table: the type of the first entry whose name the memory
    starts with, and its index [ptr - mimetab]. *)
Fixpoint mime_search (tab : list mimeentry) (suffix : list Z) (diff : Z) : res (option (list Z * Z)) :=
  match tab with
  | [] => Ok None
  | e :: tab' =>
      b ← strneq suffix (mime_name e);
      if b : bool then Ok (Some (mime_type e, diff)) else mime_search tab' suffix (diff + 1)
  end.

(** The type found, and the variable [u_mime_index] after the call. *)
Definition u_get_mimetype (u_mime_index : Z) (suffix : list Z) : res (option (list Z) * Z) :=
  c ← rd suffix 0;
  r ← mime_search (mimetab c) (drop 1 suffix) 0;
  Ok match r with
     | None => (None, u_mime_index)
     | Some (type, diff) =>
         (Some type, if diff =? 0 then c
                     else if (diff =? 2) && (c =? CH "j") then CH "J" else u_mime_index)
     end.

Arguments mimetab : simpl never.

(** ** Reference *)

Fixpoint is_prefix (p s : list Z) : bool :=
  match p, s with
  | [], _ => true
  | a :: p', b :: s' => (a =? b) && is_prefix p' s'
  | _, [] => false
  end.

(** The first entry whose name is a prefix, with its position. *)
Fixpoint first_match (tab : list mimeentry) (s : list Z) (diff : Z) : option (list Z * Z) :=
  match tab with
  | [] => None
  | e :: tab' => if is_prefix (mime_name e) s then Some (mime_type e, diff) else first_match tab' s (diff + 1)
  end.

Definition mime_letters : list Z := BS "abcdefghijmopqrstuwxz".

(** ** Lemmas *)

Lemma strneq_prefix s rest p :
  Forall (λ c, c ≠ 0) p → strneq (s ++ 0 :: rest) p = Ok (is_prefix p s).
Proof.
  intros Hp. revert s. induction Hp as [|c p Hc Hp IH]; intros s; [done|]. destruct s as [|d s]; simpl.
  - apply not_eq_sym, Z.eqb_neq in Hc. by rewrite Hc.
  - rewrite Z.eqb_sym. by destruct (c =? d); [apply IH|].
Qed.

Lemma mime_search_first tab s rest diff :
  Forall (λ e, Forall (λ c, c ≠ 0) (mime_name e)) tab →
  mime_search tab (s ++ 0 :: rest) diff = Ok (first_match tab s diff).
Proof.
  intros Ht. revert diff. induction Ht as [|e tab He Ht IH]; intros diff; [done|].
  simpl. rewrite strneq_prefix by done. simpl. destruct (is_prefix _ s); [done|apply IH].
Qed.

Definition mime_names_ok (tab : list mimeentry) : bool :=
  forallb (λ e, forallb (λ c, negb (c =? 0)) (mime_name e)) tab.

Lemma mime_names_nonzero c : Forall (λ e, Forall (λ c, c ≠ 0) (mime_name e)) (mimetab c).
Proof.
  assert (H : mime_names_ok (mimetab c) = true).
  { unfold mimetab. repeat (case_match; [reflexivity|]). reflexivity. }
  unfold mime_names_ok in H. rewrite forallb_forall in H. apply Forall_forall. intros e He.
  apply list_elem_of_In in He. apply H in He. rewrite forallb_forall in He. apply Forall_forall.
  intros x Hx. apply list_elem_of_In, He in Hx. intros ->. done.
Qed.

(** ** Properties *)

(** The type found is that of the first entry, in the table of the first letter, whose name is a
    prefix of the suffix, with nothing read after the NUL of the suffix; [u_mime_index] becomes
    the letter for the first entry of a table, [J] for the third of [j], and stays otherwise. *)
Theorem u_get_mimetype_first idx c s rest :
  c ≠ 0 →
  u_get_mimetype idx (c :: s ++ 0 :: rest) = Ok
    match first_match (mimetab c) s 0 with
    | None => (None, idx)
    | Some (type, diff) =>
        (Some type, if diff =? 0 then c else if (diff =? 2) && (c =? CH "j") then CH "J" else idx)
    end ∧
  u_get_mimetype idx (0 :: rest) = Ok (None, idx).
Proof.
  intros Hc. split; [|done]. unfold u_get_mimetype.
  change (rd (c :: s ++ 0 :: rest) 0) with (Ok c). cbn [mbind res_bind].
  change (drop 1 (c :: s ++ 0 :: rest)) with (s ++ 0 :: rest).
  by rewrite mime_search_first by apply mime_names_nonzero.
Qed.

Lemma u_get_mimetype_first_witness :
  u_get_mimetype 0 (BS "jpeg" ++ [0; 1]) = Ok (Some (BS "image/jpeg"), CH "J") ∧
  u_get_mimetype 0 [0; 1] = Ok (None, 0).
Proof. apply (u_get_mimetype_first 0 (CH "j") (BS "peg") [1]). lia. Defined.

(** Every entry of the tables is found under its own name, except two: [json], which the
    entry [js] before it shadows and which is served as javascript, and [xrdf], which is in the
    table of another letter and is not found at all. *)
Theorem u_get_mimetype_own_name idx rest :
  (∀ c e, c ∈ mime_letters → e ∈ mimetab c → (c :: mime_name e) ≠ BS "json" →
     ∃ idx', u_get_mimetype idx (c :: mime_name e ++ 0 :: rest) = Ok (Some (mime_type e), idx')) ∧
  u_get_mimetype idx (BS "json" ++ 0 :: rest) = Ok (Some (BS "text/javascript"), CH "j") ∧
  u_get_mimetype idx (BS "xrdf" ++ 0 :: rest) = Ok (None, idx).
Proof.
  split; [|split; reflexivity]. intros c e Hc He Hj.
  assert (Hall : forallb (λ c, forallb (λ e,
      bool_decide (c :: mime_name e = BS "json") ||
      match first_match (mimetab c) (mime_name e) 0 with
      | Some (type, _) => bool_decide (type = mime_type e) | None => false end) (mimetab c))
      mime_letters = true) by (vm_compute; reflexivity).
  rewrite forallb_forall in Hall. apply list_elem_of_In, Hall in Hc.
  rewrite forallb_forall in Hc. apply list_elem_of_In, Hc in He.
  apply orb_prop in He as [He|He]; [by apply bool_decide_eq_true in He|].
  unfold u_get_mimetype.
  change (rd (c :: mime_name e ++ 0 :: rest) 0) with (Ok c). cbn [mbind res_bind].
  change (drop 1 (c :: mime_name e ++ 0 :: rest)) with (mime_name e ++ 0 :: rest).
  rewrite mime_search_first by apply mime_names_nonzero. simpl.
  destruct (first_match _ _ _) as [[type diff]|]; [|done].
  apply bool_decide_eq_true in He as ->. eauto.
Qed.

Lemma u_get_mimetype_own_name_witness :
  (∃ idx', u_get_mimetype 0 (BS "webp" ++ [0]) = Ok (Some (BS "image/webp"), idx')) ∧
  u_get_mimetype 0 (BS "json" ++ [0]) = Ok (Some (BS "text/javascript"), CH "j").
Proof.
  destruct (u_get_mimetype_own_name 0 []) as (H & Hj & _). split; [|exact Hj].
  apply (H (CH "w") (MIME_ENTRY (BS "webp") (BS "image/webp"))); [| |done..];
    by apply (bool_decide_eq_true_1 _).
Defined.
