(* ===== verification/Match.v ===== *)
(** * Wildcard matching ([u_dosmatch], [u_dosmatch_with_OR], [src/ulib/base/utility.c])

    [s] is the list of the [n1] bytes of the string (the code reads no other),
    [mask] the memory from the mask pointer on and [k] is [end_mask - mask],
    which the code tests only at the end of the string and after a star. *)

From S2P Require Import Prelude CType.

Definition FNM_CASEFOLD : Z := 0x10.
Definition FNM_IGNORECASE : Z := FNM_CASEFOLD.
Definition FNM_INVERT : Z := 0x10000000.

Definition has_flag (flags f : Z) : bool := negb (Z.land flags f =? 0).

(** The two copies of the code differ in the case conversion of what is read. *)
Definition dos_fold (ic : bool) (c : Z) : Z := if ic then u__tolower c else c.

(** How the first loop ends: a mismatch, or the pointers it leaves to the second. *)
Inductive dos_first := DosMismatch | DosGoOn (s mask : list Z) (k : Z).

Fixpoint dos_prefix (ic : bool) (s mask : list Z) (k : Z) : res dos_first :=
  match s with
  | [] => Ok (DosGoOn s mask k)
  | x :: s' =>
      y ← rd mask 0;
      let c2 := dos_fold ic y in
      if c2 =? CH "*" then Ok (DosGoOn s mask k)
      else
        let c1 := dos_fold ic x in
        if negb (c2 =? c1) && negb (c2 =? CH "?") then Ok DosMismatch
        else dos_prefix ic s' (drop 1 mask) (k - 1)
  end.

(** [while ( *mask == '*') ++mask], as what is left of [k]. *)
Fixpoint dos_stars (mask : list Z) (k : Z) : res Z :=
  match mask with
  | [] => Fail OutOfBounds
  | c :: mask' => if c =? CH "*" then dos_stars mask' (k - 1) else Ok k
  end.

(** The state of the second loop; [dlast] holds the pointers [cp] and [mp] set at
    the last star, with the rest of [k] at [mp]; they are null before the first one. *)
Record dos_state := Dos {
  ds : list Z; dmask : list Z; dk : Z; dlast : option (list Z * list Z * Z) }.

Definition dos_step (ic : bool) (st : dos_state) : res (dos_state + bool) :=
  match ds st with
  | [] => k ← dos_stars (dmask st) (dk st); Ok (inr (k <=? 0))
  | x :: s' =>
      y ← rd (dmask st) 0;
      let c2 := dos_fold ic y in
      if c2 =? CH "*" then
        let k := dk st - 1 in
        let mask := drop 1 (dmask st) in
        if k <=? 0 then Ok (inr true)
        else Ok (inl (Dos (ds st) mask k (Some (s', mask, k))))
      else
        let c1 := dos_fold ic x in
        if (c2 =? c1) || (c2 =? CH "?")
        then Ok (inl (Dos s' (drop 1 (dmask st)) (dk st - 1) (dlast st)))
        else match dlast st with
             | None => Fail OutOfBounds
             | Some (cp, mp, mk) => Ok (inl (Dos cp mp mk (Some (tail cp, mp, mk))))
             end
  end.

(** Enough turns: after each star, at each position, through the whole string. *)
Definition dos_fuel (n1 n2 : nat) : nat := S ((n2 + 1) * (n1 + 2) * (n1 + 2)).

Definition u_dosmatch (s : list Z) (mask : list Z) (n2 : nat) (flags : Z) : res bool :=
  let ic := has_flag flags FNM_IGNORECASE in
  let inv := has_flag flags FNM_INVERT in
  r ← dos_prefix ic s mask (Z.of_nat n2);
  match r with
  | DosMismatch => Ok inv
  | DosGoOn s' mask' k =>
      b ← iterate (dos_fuel (length s) n2) (dos_step ic) (Dos s' mask' k None);
      Ok (xorb inv b)
  end.

(** The masks between the bars, in turn; there are at most [n2 + 1] of them. *)
Definition dos_or_step (s : list Z) (flags : Z) (st : list Z * nat) : res (list Z * nat + bool) :=
  let '(mask, n2) := st in
  p_or ← memchr mask (CH "|") n2;
  match p_or with
  | None => r ← u_dosmatch s mask n2 flags; Ok (inr r)
  | Some off =>
      let o := Z.to_nat off in
      result ← u_dosmatch s mask o flags;
      if has_flag flags FNM_INVERT
      then if negb result then Ok (inr false) else Ok (inl (drop (S o) mask, n2 - S o)%nat)
      else if result then Ok (inr true) else Ok (inl (drop (S o) mask, n2 - S o)%nat)
  end.

Definition u_dosmatch_with_OR (s : list Z) (mask : list Z) (n2 : nat) (flags : Z) : res bool :=
  iterate (S (S n2)) (dos_or_step s flags) (mask, n2).

(** ** Reference: what a mask matches *)

Definition char_matches (ic : bool) (c d : Z) : Prop := c = CH "?" ∨ dos_fold ic c = dos_fold ic d.

Inductive wild (ic : bool) : list Z → list Z → Prop :=
  | wild_nil : wild ic [] []
  | wild_star p s t : wild ic p t → wild ic (CH "*" :: p) (s ++ t)
  | wild_char c p d s :
      c ≠ CH "*" → char_matches ic c d → wild ic p s → wild ic (c :: p) (d :: s).

(** ** Lemmas *)

Lemma dos_fold_star ic y : is_byte y → (dos_fold ic y =? CH "*") = (y =? CH "*").
Proof. intros Hy. destruct ic; [|done]. byte_check y. Qed.

Lemma dos_fold_question ic y : is_byte y → (dos_fold ic y =? CH "?") = (y =? CH "?").
Proof. intros Hy. destruct ic; [|done]. byte_check y. Qed.

Lemma wild_nil_inv ic s : wild ic [] s → s = [].
Proof. by inversion 1. Qed.

Lemma wild_star_inv ic p s : wild ic (CH "*" :: p) s → ∃ a t, s = a ++ t ∧ wild ic p t.
Proof. inversion 1; subst; [eauto|done]. Qed.

Lemma wild_star_iff ic p s : wild ic (CH "*" :: p) s ↔ ∃ t, t `suffix_of` s ∧ wild ic p t.
Proof.
  split.
  - intros (a & t & -> & H)%wild_star_inv. exists t. by split; [exists a|].
  - intros (t & [a ->] & H). by constructor.
Qed.

Lemma wild_char_inv ic c p t :
  c ≠ CH "*" → wild ic (c :: p) t → ∃ d s, t = d :: s ∧ char_matches ic c d ∧ wild ic p s.
Proof. intros Hc H. inversion H; subst; [done|eauto]. Qed.

Lemma wild_empty ic p : wild ic p [] ↔ Forall (λ c, c = CH "*") p.
Proof.
  split.
  - intros H. remember [] as s eqn:E. induction H as [|p s t H IH|]; [constructor| |done].
    apply app_eq_nil in E as [-> ->]. constructor; auto.
  - induction 1 as [|c p -> Hp IH]; [constructor|]. by apply (wild_star ic p [] []).
Qed.

(** A pattern that starts with [q] characters other than stars takes as many of the string. *)
Lemma wild_prefix ic q p t :
  Forall (λ c, c ≠ CH "*") q → wild ic (q ++ p) t →
  (length q ≤ length t)%nat ∧ wild ic p (drop (length q) t).
Proof.
  intros Hq. revert t. induction Hq as [|c q Hc Hq IH]; intros t H; [split; [simpl; lia|done]|].
  simpl in H.
  apply wild_char_inv in H as (d & s & -> & _ & H); [|done]. apply IH in H as [H1 H2].
  split; [simpl; lia|done].
Qed.

(** The mask [p] in memory, ended by a character [term] that the string does not have. *)
Section Dosmatch.
Context (ic : bool) (term : Z) (rest : list Z).
Context (Hterm : is_byte term ∧ term ≠ CH "*" ∧ term ≠ CH "?").

Definition free (s : list Z) : Prop :=
  Forall (λ d, is_byte d ∧ dos_fold ic d ≠ dos_fold ic term) s.

(** The test of the code at a position of the mask. *)
Lemma dos_char_test y d :
  is_byte y → is_byte d →
  ((dos_fold ic y =? dos_fold ic d) || (dos_fold ic y =? CH "?")) = true ↔ char_matches ic y d.
Proof.
  intros Hy Hd. rewrite dos_fold_question by done. unfold char_matches. lia.
Qed.

Lemma dos_term_test d :
  is_byte d → dos_fold ic d ≠ dos_fold ic term →
  (dos_fold ic term =? CH "*") = false ∧
  ((dos_fold ic term =? dos_fold ic d) || (dos_fold ic term =? CH "?")) = false.
Proof.
  intros Hd Hne. destruct Hterm as (Hb & Hs & Hq). rewrite dos_fold_star, dos_fold_question by done. lia.
Qed.

Lemma dos_stars_spec p :
  bytes p → ∃ k, dos_stars (p ++ term :: rest) (Z.of_nat (length p)) = Ok k ∧
    ((k <=? 0) = true ↔ Forall (λ c, c = CH "*") p).
Proof.
  induction 1 as [|c p Hc Hp IH].
  - exists 0. simpl. destruct Hterm as (_ & Hs & _). apply Z.eqb_neq in Hs. rewrite Hs.
    split; [done|]. split; [by constructor|done].
  - simpl. destruct (Z.eqb_spec c 42) as [->|Hne].
    + replace (Z.of_nat (S (length p)) - 1) with (Z.of_nat (length p)) by lia.
      destruct IH as (k & -> & Hk). exists k. split; [done|]. rewrite Hk, Forall_cons. tauto.
    + exists (Z.of_nat (S (length p))). split; [done|]. rewrite Forall_cons.
      split; [intros Hk%Z.leb_le; lia|by intros [? _]].
Qed.

(** What the second loop keeps: the pattern [p] at the mask pointer and, after a star, the
    pattern [mp] that follows it, of which [q] was matched from [s0] on. *)
Definition dos_inv (G : Prop) (len n1 : nat) (st : dos_state) : Prop :=
  ∃ p, bytes p ∧ free (ds st) ∧ (length (ds st) ≤ n1)%nat ∧
    dmask st = p ++ term :: rest ∧ dk st = Z.of_nat (length p) ∧
    match dlast st with
    | None =>
        (length p ≤ len)%nat ∧ (ds st = [] ∨ ∃ p', p = CH "*" :: p') ∧ (G ↔ wild ic p (ds st))
    | Some (cp, mp, mk) => ∃ q s0,
        mp = (q ++ p) ++ term :: rest ∧ mk = Z.of_nat (length (q ++ p)) ∧
        (length (q ++ p) < len)%nat ∧ bytes q ∧ Forall (λ c, c ≠ CH "*") q ∧
        free s0 ∧ (length s0 ≤ n1)%nat ∧ cp = tail s0 ∧ (length q ≤ length s0)%nat ∧
        ds st = drop (length q) s0 ∧
        (G ↔ wild ic p (ds st) ∨ ∃ t, t `suffix_of` cp ∧ wild ic (q ++ p) t)
    end.

(** The turns left: stars, then starting positions, then characters. *)
Definition dos_measure (len n1 : nat) (st : dos_state) : nat :=
  let '(stars, starts) := match dlast st with
    | None => (len, (n1 + 1)%nat)
    | Some (cp, _, mk) => (Z.to_nat mk, length cp)
    end in
  ((stars * (n1 + 2) + starts) * (n1 + 2) + length (ds st))%nat.

Lemma free_tail s : free s → free (tail s).
Proof. intros H. destruct s; [done|]. by apply Forall_cons in H as [_ ?]. Qed.

(** A later start that reaches the next star reaches it further on. *)
Lemma later_start q p s0 t :
  Forall (λ c, c ≠ CH "*") q → t `suffix_of` tail s0 → wild ic (q ++ p) t →
  (length q ≤ length s0)%nat →
  ∃ v, v `suffix_of` drop (length q) s0 ∧ wild ic p v ∧ (s0 ≠ [] → (length q < length s0)%nat).
Proof.
  intros Hq [a Ht] Hw Hl. apply wild_prefix in Hw as [Hlt Hw]; [|done].
  exists (drop (length q) t). split; [|split; [done|]].
  - destruct s0 as [|x s0]; simpl in Ht.
    + symmetry in Ht. apply app_eq_nil in Ht as [-> ->]. simpl. done.
    + subst s0. exists (take (length a + 1) (drop (length q) (x :: a ++ t))).
      replace (drop (length q) t) with (drop (length a + 1) (drop (length q) (x :: a ++ t))).
      { by rewrite take_drop. }
      rewrite drop_drop. replace (length q + (length a + 1))%nat with (S (length a + length q)) by lia.
      simpl. rewrite drop_app_ge by lia. f_equal. lia.
  - intros Hne. destruct s0 as [|x s0]; [done|]. simpl in *. subst s0. rewrite length_app. lia.
Qed.

Lemma suffix_tail_iff (P : list Z → Prop) (s : list Z) :
  (∃ t, t `suffix_of` s ∧ P t) ↔ P s ∨ ∃ t, t `suffix_of` tail s ∧ P t.
Proof.
  split.
  - intros (t & Ht & HP). destruct s as [|x s].
    + right. exists t. done.
    + destruct Ht as [[|a k] E]; [left; by rewrite E|right]. simpl in E. simplify_eq.
      exists t. split; [by exists k|done].
  - intros [HP|(t & Ht & HP)]; [by exists s|]. exists t. split; [|done].
    destruct s; [done|]. by apply suffix_cons_r.
Qed.

(** The last turn, at the end of the string. *)
Lemma dos_inv_end G len n1 st p :
  dos_inv G len n1 st → ds st = [] → dmask st = p ++ term :: rest → dk st = Z.of_nat (length p) →
  bytes p → G ↔ Forall (λ c, c = CH "*") p.
Proof.
  intros (p' & Hp & Hs & _ & Hm & Hk & Hl) Hds Hm' Hk' Hp'.
  assert (p' = p) as ->.
  { rewrite Hm in Hm'. apply (app_inj_1 p' p) in Hm' as [? _]; [done|lia]. }
  rewrite <- wild_empty. destruct (dlast st) as [[[cp mp] mk]|].
  - destruct Hl as (q & s0 & _ & _ & _ & _ & Hq & _ & _ & -> & Hlq & Hd & ->). rewrite Hds in *.
    split; [|by left]. intros [H|(t & Ht & H)]; [done|].
    destruct (later_start q p s0 t) as (v & Hv & H' & _); [done..|].
    rewrite <- Hd in Hv. apply suffix_nil_inv in Hv. by subst v.
  - destruct Hl as (_ & _ & Hl). by rewrite Hds in Hl.
Qed.

(** At a star everything tried before is covered by what the star matches. *)
Lemma dos_inv_star G len n1 st p :
  dos_inv G len n1 st → dmask st = (CH "*" :: p) ++ term :: rest → dk st = Z.of_nat (S (length p)) →
  G ↔ wild ic (CH "*" :: p) (ds st).
Proof.
  intros (p' & Hp & Hs & _ & Hm & Hk & Hl) Hm' Hk'.
  assert (p' = CH "*" :: p) as ->.
  { rewrite Hm in Hm'. apply (app_inj_1 p' (CH "*" :: p)) in Hm' as [? _]; [done|simpl; lia]. }
  destruct (dlast st) as [[[cp mp] mk]|]; [|by destruct Hl as (_ & _ & ?)].
  destruct Hl as (q & s0 & _ & _ & _ & _ & Hq & _ & _ & -> & Hlq & -> & ->).
  split; [|by left]. intros [H|(t & Ht & H)]; [done|].
  destruct (later_start q (CH "*" :: p) s0 t) as (v & Hv & H' & _); [done..|].
  apply wild_star_iff in H' as (w & Hw & H'). apply wild_star_iff. exists w.
  split; [by etrans|done].
Qed.

Lemma drop_cons_inv {A} k (s : list A) x t :
  drop k s = x :: t → drop (S k) s = t ∧ (S k ≤ length s)%nat.
Proof.
  intros H. split.
  - replace (S k) with (k + 1)%nat by lia. by rewrite <- drop_drop, H.
  - assert (Hl := f_equal length H). rewrite length_drop in Hl. simpl in Hl. lia.
Qed.

(** The three ways a turn goes on: back to the last star, past a star, past a character. *)
Lemma dos_inv_back G len n1 x s p cp mp mk :
  let st := Dos (x :: s) (p ++ term :: rest) (Z.of_nat (length p)) (Some (cp, mp, mk)) in
  let st' := Dos cp mp mk (Some (tail cp, mp, mk)) in
  dos_inv G len n1 st → ¬ wild ic p (x :: s) →
  dos_inv G len n1 st' ∧ (dos_measure len n1 st' < dos_measure len n1 st)%nat.
Proof.
  intros st st' (p' & Hp & Hs & Hsl & Hm & Hk & Hl) Hno. simpl in *.
  apply (app_inj_1 p p') in Hm as [<- _]; [|lia].
  destruct Hl as (q & s0 & -> & -> & Hlen & Hbq & Hq & Hf0 & Hl0 & -> & Hlq & Hd & HG).
  assert (Hf : free (tail s0)) by by apply free_tail.
  assert (Hlt : (length (tail s0) ≤ n1)%nat) by (destruct s0; simpl in *; lia). split.
  - exists (q ++ p). split; [by apply Forall_app|]. split; [done|]. split; [done|].
    split; [done|]. split; [done|]. exists [], (tail s0). simpl.
    conj_easy.
    rewrite <- (suffix_tail_iff (wild ic (q ++ p))). tauto.
  - unfold dos_measure. simpl. destruct s0 as [|y s0]; simpl in *; [by destruct q|].
    destruct s0; simpl in *; nia.
Qed.

Lemma dos_inv_next_star G len n1 x s p last :
  let st := Dos (x :: s) (CH "*" :: p ++ term :: rest) (Z.of_nat (S (length p))) last in
  dos_inv G len n1 st →
  match (if Z.of_nat (S (length p)) - 1 <=? 0 then Ok (inr true)
    else Ok (inl (Dos (x :: s) (p ++ term :: rest) (Z.of_nat (S (length p)) - 1)
      (Some (s, p ++ term :: rest, Z.of_nat (S (length p)) - 1))))) : res (dos_state + bool) with
  | Ok (inl st') => dos_inv G len n1 st' ∧ (dos_measure len n1 st' < dos_measure len n1 st)%nat
  | Ok (inr b) => b = true ↔ G
  | Fail _ => False
  end.
Proof.
  intros st Hinv. assert (HG := dos_inv_star _ _ _ _ p Hinv eq_refl eq_refl). simpl in HG.
  destruct Hinv as (p' & Hp & Hs & Hsl & Hm & Hk & Hl). simpl in *.
  assert (p' = CH "*" :: p) as ->.
  { apply (app_inj_1 (CH "*" :: p) p') in Hm as [<- _]; [done|simpl; lia]. }
  apply Forall_cons in Hp as [_ Hp].
  replace (Z.of_nat (S (length p)) - 1) with (Z.of_nat (length p)) by lia.
  destruct (Z.leb_spec (Z.of_nat (length p)) 0) as [H0|H0].
  - assert (p = []) as -> by (destruct p; [done|simpl in H0; lia]). rewrite HG. split; [|done].
    intros _. apply wild_star_iff. exists []. split; [apply suffix_nil|constructor].
  - assert (Hlp : (length p < len)%nat).
    { destruct last as [[[cp mp] mk]|]; simpl in *.
      - destruct Hl as (q & s0 & _ & _ & Hlen & _). rewrite length_app in Hlen. simpl in Hlen. lia.
      - lia. }
    split.
    + exists p. repeat (split; [done|]). exists [], (x :: s). simpl.
      conj_easy.
      rewrite HG, wild_star_iff. apply (suffix_tail_iff (wild ic p)).
    + unfold dos_measure. simpl in *. destruct last as [[[cp mp] mk]|]; simpl in *; [|nia].
      destruct Hl as (q & s0 & _ & -> & _). rewrite length_app. simpl. nia.
Qed.

Lemma dos_inv_match G len n1 x s y p last :
  let st := Dos (x :: s) (y :: p ++ term :: rest) (Z.of_nat (S (length p))) last in
  let st' := Dos s (p ++ term :: rest) (Z.of_nat (S (length p)) - 1) last in
  dos_inv G len n1 st → y ≠ CH "*" → char_matches ic y x →
  dos_inv G len n1 st' ∧ (dos_measure len n1 st' < dos_measure len n1 st)%nat.
Proof.
  intros st st' (p' & Hp & Hs & Hsl & Hm & Hk & Hl) Hy Hc. simpl in *.
  assert (p' = y :: p) as ->.
  { apply (app_inj_1 (y :: p) p') in Hm as [<- _]; [done|simpl; lia]. }
  apply Forall_cons in Hp as [Hby Hp]. apply Forall_cons in Hs as [Hx Hs].
  assert (Hw : wild ic (y :: p) (x :: s) ↔ wild ic p s).
  { split; [|by constructor]. intros (d & s' & [= <- <-] & _ & H)%wild_char_inv; done. }
  split; [|unfold dos_measure; simpl; destruct last as [[[? ?] ?]|]; lia].
  exists p. split; [done|]. split; [done|]. split; [simpl; lia|]. split; [done|]. split; [simpl; lia|].
  simpl. destruct last as [[[cp mp] mk]|].
  - destruct Hl as (q & s0 & -> & -> & Hlen & Hbq & Hq & Hf0 & Hl0 & -> & Hlq & Hd & HG).
    symmetry in Hd. apply drop_cons_inv in Hd as [Hd Hl1].
    exists (q ++ [y]), s0. rewrite <- !app_assoc. simpl.
    repeat (split; [done|]). split; [apply Forall_app; split; [done|by constructor]|].
    split; [apply Forall_app; split; [done|by constructor]|]. repeat (split; [done|]).
    rewrite length_app. simpl. replace (length q + 1)%nat with (S (length q)) by lia.
    split; [done|]. split; [done|]. by rewrite <- Hw.
  - destruct Hl as (_ & [?|[p' E]] & _); [done|]. congruence.
Qed.

(** One turn: no fault, the invariant kept with fewer turns left, or the answer. *)
Lemma dos_step_inv G len n1 st :
  dos_inv G len n1 st →
  match dos_step ic st with
  | Ok (inl st') => dos_inv G len n1 st' ∧ (dos_measure len n1 st' < dos_measure len n1 st)%nat
  | Ok (inr b) => b = true ↔ G
  | Fail _ => False
  end.
Proof.
  intros Hinv. assert (Hinv' := Hinv).
  destruct Hinv' as (p & Hp & Hs & Hsl & Hm & Hk & Hl).
  destruct st as [s mask k last]. unfold dos_step. simpl in *. subst mask k.
  destruct s as [|x s'].
  { destruct (dos_stars_spec p Hp) as (k & -> & Hk). simpl. rewrite Hk. symmetry.
    by eapply dos_inv_end. }
  apply Forall_cons in Hs as [[Hx Hxt] Hs'].
  destruct p as [|y p].
  - simpl. destruct (dos_term_test x Hx Hxt) as [-> ->].
    destruct last as [[[cp mp] mk]|]; [|destruct Hl as (_ & [?|[? ?]] & _); done].
    apply (dos_inv_back G len n1 x s' []); [done|]. by intros ?%wild_nil_inv.
  - assert (Hby := Hp). apply Forall_cons in Hby as [Hy _]. simpl. rewrite dos_fold_star by done.
    destruct (Z.eqb_spec y 42) as [->|Hny]; [by apply dos_inv_next_star|].
    destruct (_ || _) eqn:Ht.
    + apply dos_inv_match; [done|done|]. by apply dos_char_test.
    + destruct last as [[[cp mp] mk]|]; [|destruct Hl as (_ & [?|[? ?]] & _); congruence].
      apply (dos_inv_back G len n1 x s' (y :: p)); [done|].
      intros (d & s & [= <- <-] & Hc & _)%wild_char_inv; [|done].
      apply dos_char_test in Hc; [|done..]. congruence.
Qed.

Lemma dos_prefix_spec s p :
  free s → bytes p →
  match dos_prefix ic s (p ++ term :: rest) (Z.of_nat (length p)) with
  | Ok DosMismatch => ¬ wild ic p s
  | Ok (DosGoOn s' mask k) => ∃ p', mask = p' ++ term :: rest ∧ k = Z.of_nat (length p') ∧
      bytes p' ∧ free s' ∧ (length p' ≤ length p)%nat ∧ (length s' ≤ length s)%nat ∧
      (s' = [] ∨ ∃ p'', p' = CH "*" :: p'') ∧ (wild ic p s ↔ wild ic p' s')
  | Fail _ => False
  end.
Proof.
  intros Hs. revert p. induction Hs as [|x s [Hx Hxt] Hs IH]; intros p Hp.
  { exists p. by conj_easy. }
  simpl. destruct p as [|y p].
  - simpl. destruct (dos_term_test x Hx Hxt) as [-> Ht]. apply orb_false_elim in Ht as [-> ->].
    simpl. by intros ?%wild_nil_inv.
  - simpl. assert (Hy := Hp). apply Forall_cons in Hy as [Hy Hp']. rewrite dos_fold_star by done.
    destruct (Z.eqb_spec y 42) as [->|Hny].
    + exists (CH "*" :: p). conj_easy. split; [eauto|done].
    + assert (Hcase : ∀ p s, wild ic (y :: p) (x :: s) ↔ char_matches ic y x ∧ wild ic p s).
      { intros q t. split; [|intros []; by constructor].
        by intros (d & s' & [= <- <-] & Hc & H)%wild_char_inv. }
      rewrite <- negb_orb. destruct (_ || _) eqn:Ht; simpl.
      * apply dos_char_test in Ht; [|done..]. specialize (IH p Hp').
        replace (Z.of_nat (S (length p)) - 1) with (Z.of_nat (length p)) by lia.
        destruct (dos_prefix _ _ _ _) as [[|s' m k]|]; [|destruct IH as (p' & IH); exists p'|done].
        -- rewrite Hcase. tauto.
        -- rewrite Hcase. destruct_and! IH. conj_easy; simpl; try lia; tauto.
      * rewrite Hcase. intros [Hc _]. apply dos_char_test in Hc; [|done..]. congruence.
Qed.

(** The whole function, on a mask ended by [term]. *)
Lemma u_dosmatch_wild s p flags :
  has_flag flags FNM_IGNORECASE = ic → free s → bytes p →
  ∃ b : bool, u_dosmatch s (p ++ term :: rest) (length p) flags = Ok (xorb (has_flag flags FNM_INVERT) b) ∧
    (b = true ↔ wild ic p s).
Proof.
  intros Hic Hs Hp. unfold u_dosmatch. rewrite Hic.
  assert (Hpre := dos_prefix_spec s p Hs Hp).
  destruct (dos_prefix _ _ _ _) as [[|s' m k]|]; [|destruct Hpre as (p' & -> & -> & Hpre)|done].
  { exists false. simpl. by rewrite xorb_false_r. }
  destruct_and! Hpre. cbn [mbind res_bind].
  destruct (iterate_total (dos_step ic) (dos_inv (wild ic p s) (length p) (length s))
    (λ b, b = true ↔ wild ic p s) (dos_measure (length p) (length s))
    (dos_step_inv _ _ _) (dos_fuel (length s) (length p))
    (Dos s' (p' ++ term :: rest) (Z.of_nat (length p')) None)) as (b & -> & Hb).
  - exists p'. by conj_easy.
  - unfold dos_measure, dos_fuel. simpl. nia.
  - exists b. done.
Qed.
End Dosmatch.

Definition no_char (c : Z) (s : list Z) : Prop := Forall (λ x, is_byte x ∧ x ≠ c) s.

Lemma fold_zero ic d : is_byte d → dos_fold ic d = 0 → d = 0.
Proof.
  intros Hd. destruct ic; [|done]. intros H.
  assert (Ht : negb (u__tolower d =? 0) || (d =? 0) = true) by byte_check d.
  simpl in H. rewrite H in Ht. simpl in Ht. lia.
Qed.

Lemma fold_bar ic d : is_byte d → dos_fold ic d = CH "|" → d = CH "|".
Proof.
  intros Hd. destruct ic; [|done]. intros H.
  assert (Ht : negb (u__tolower d =? 124) || (d =? 124) = true) by byte_check d.
  simpl in H. rewrite H in Ht. simpl in Ht. lia.
Qed.

Lemma free_nul ic s : no_char 0 s → free ic 0 s.
Proof.
  intros H. eapply Forall_impl; [exact H|]. intros d [Hd H0]. split; [done|].
  assert (E : dos_fold ic 0 = 0) by by destruct ic. rewrite E. intros Hz. by apply H0, (fold_zero ic).
Qed.

Lemma free_bar ic s : no_char (CH "|") s → free ic (CH "|") s.
Proof.
  intros H. eapply Forall_impl; [exact H|]. intros d [Hd H0]. split; [done|].
  assert (E : dos_fold ic (CH "|") = CH "|") by by destruct ic. rewrite E. intros Hz.
  by apply H0, (fold_bar ic).
Qed.

(** ** Properties *)

(** C29: for a mask without NUL followed by one and a string without NUL, [u_dosmatch] always answers,
    without reading outside of either, and the answer is whether the mask matches the string, with
    stars for any text, question marks for any character and letters compared in lower case
    with [FNM_IGNORECASE]; [FNM_INVERT] inverts it. *)
Theorem u_dosmatch_correct s p rest flags :
  no_char 0 s → bytes p →
  ∃ b : bool, u_dosmatch s (p ++ 0 :: rest) (length p) flags = Ok (xorb (has_flag flags FNM_INVERT) b) ∧
    (b = true ↔ wild (has_flag flags FNM_IGNORECASE) p s).
Proof.
  intros Hs Hp. apply u_dosmatch_wild; [|done|by apply free_nul|done].
  split; [unfold is_byte; lia|lia].
Qed.

Lemma u_dosmatch_correct_witness :
  ∃ b : bool, u_dosmatch (BS "image.PNG") (BS "*.p?g" ++ [0; 42]) 5 FNM_CASEFOLD = Ok b ∧
    (b = true ↔ wild true (BS "*.p?g") (BS "image.PNG")).
Proof.
  destruct (u_dosmatch_correct (BS "image.PNG") (BS "*.p?g") [42] FNM_CASEFOLD) as (b & H & Hb).
  - repeat constructor; try (unfold is_byte; lia); done.
  - repeat constructor; unfold is_byte; lia.
  - exists b. split; [exact H|exact Hb].
Defined.

(** The masks of the function with alternatives. *)
Fixpoint join_bar (p : list Z) (ps : list (list Z)) : list Z :=
  match ps with
  | [] => p
  | q :: ps' => p ++ CH "|" :: join_bar q ps'
  end.

Lemma memchr_no_char c p t n :
  no_char c p → memchr (p ++ c :: t) c (length p + S n) = Ok (Some (Z.of_nat (length p))).
Proof.
  induction 1 as [|x p [_ Hx] _ IH]; simpl; [by rewrite Z.eqb_refl|].
  apply Z.eqb_neq in Hx. rewrite Hx, IH. simpl. do 2 f_equal. lia.
Qed.

Lemma memchr_no_char_none c p t : no_char c p → memchr (p ++ t) c (length p) = Ok None.
Proof.
  induction 1 as [|x p [_ Hx] _ IH]; simpl; [by destruct t|].
  apply Z.eqb_neq in Hx. by rewrite Hx, IH.
Qed.

Lemma no_char_bytes c p : no_char c p → bytes p.
Proof. intros H. eapply Forall_impl; [exact H|]. by intros x []. Qed.

Section WithOr.
Context (s rest : list Z) (flags : Z).
Context (Hs0 : no_char 0 s) (Hsb : no_char (CH "|") s).
#[local] Abbreviation ic := (has_flag flags FNM_IGNORECASE).
#[local] Abbreviation inv := (has_flag flags FNM_INVERT).

(** One alternative, before a bar or before the NUL. *)
Lemma dos_or_last p :
  no_char (CH "|") p →
  ∃ b : bool, dos_or_step s flags (p ++ 0 :: rest, length p) = Ok (inr (xorb inv b)) ∧
    (b = true ↔ wild ic p s).
Proof.
  intros Hp. unfold dos_or_step. rewrite memchr_no_char_none by done. cbn [mbind res_bind].
  destruct (u_dosmatch_wild ic 0 rest) with (s := s) (p := p) (flags := flags) as (b & -> & Hb);
    [split; [unfold is_byte|]; lia|done|by apply free_nul|by eapply no_char_bytes|].
  by exists b.
Qed.

Lemma dos_or_bar p m :
  no_char (CH "|") p →
  ∃ b : bool, dos_or_step s flags ((p ++ CH "|" :: m) ++ 0 :: rest, length (p ++ CH "|" :: m))
      = Ok (if b then inr (negb inv) else inl (m ++ 0 :: rest, length m)) ∧
    (b = true ↔ wild ic p s).
Proof.
  intros Hp. unfold dos_or_step. rewrite length_app. simpl length.
  rewrite <- app_assoc, <- app_comm_cons, memchr_no_char by done. cbn [mbind res_bind].
  rewrite Nat2Z.id.
  destruct (u_dosmatch_wild ic (CH "|") (m ++ 0 :: rest)) with (s := s) (p := p) (flags := flags)
    as (b & -> & Hb); [split; [unfold is_byte|]; lia|done|by apply free_bar|by eapply no_char_bytes|].
  exists b. split; [|done]. cbn [mbind res_bind].
  assert (Hd : drop (S (length p)) (p ++ 124 :: m ++ 0 :: rest) = m ++ 0 :: rest).
  { rewrite drop_app_ge by lia. by replace (S (length p) - length p)%nat with 1%nat by lia. }
  rewrite Hd. replace (length p + S (length m) - S (length p))%nat with (length m) by lia.
  by destruct inv, b.
Qed.

Lemma dos_or_all ps : ∀ p n,
  Forall (no_char (CH "|")) (p :: ps) → (length ps < n)%nat →
  ∃ b : bool, iterate n (dos_or_step s flags) (join_bar p ps ++ 0 :: rest, length (join_bar p ps))
      = Ok (xorb inv b) ∧
    (b = true ↔ Exists (λ q, wild ic q s) (p :: ps)).
Proof.
  induction ps as [|q ps IH]; intros p n Hps Hn; (destruct n as [|n]; [simpl in Hn; lia|]); cbn [iterate join_bar].
  - apply Forall_cons in Hps as [Hp _]. destruct (dos_or_last p Hp) as (b & -> & Hb).
    exists b. split; [done|]. rewrite Exists_cons, Exists_nil. tauto.
  - apply Forall_cons in Hps as [Hp Hps]. destruct (dos_or_bar p (join_bar q ps) Hp) as (b & -> & Hb).
    destruct b.
    + exists true. split; [by destruct inv|]. rewrite Exists_cons. tauto.
    + destruct (IH q n Hps) as (b & -> & Hb'); [simpl in Hn; lia|]. exists b. split; [done|].
      rewrite Exists_cons, <- Hb, Hb'. split; [by right|by intros [?|?]].
Qed.
End WithOr.

Lemma join_bar_length p ps : (length ps ≤ length (join_bar p ps))%nat.
Proof.
  revert p. induction ps as [|q ps IH]; intros p; simpl; [lia|]. rewrite length_app. simpl.
  specialize (IH q). lia.
Qed.

(** For a string without NUL and without bar, a list of masks separated by bars matches when one of
    them does ([FNM_INVERT] inverts that); the masks before a bar are not delimited from what
    follows, so a string that has the bar matches the whole text [a|b]. *)
Theorem u_dosmatch_with_OR_correct s p ps rest flags :
  no_char 0 s → no_char (CH "|") s → Forall (no_char (CH "|")) (p :: ps) →
  (∃ b : bool, u_dosmatch_with_OR s (join_bar p ps ++ 0 :: rest) (length (join_bar p ps)) flags
     = Ok (xorb (has_flag flags FNM_INVERT) b) ∧
   (b = true ↔ Exists (λ q, wild (has_flag flags FNM_IGNORECASE) q s) (p :: ps))) ∧
  u_dosmatch_with_OR (BS "a|b") (BS "a|b" ++ [0]) 3 0 = Ok true.
Proof.
  intros H0 Hb Hps. split; [|reflexivity]. apply dos_or_all; [done..|].
  assert (H := join_bar_length p ps). lia.
Qed.

Lemma u_dosmatch_with_OR_correct_witness :
  (∃ b : bool, u_dosmatch_with_OR (BS "x.js") (BS "*.css|*.js" ++ [0]) 10 0 = Ok b ∧
   (b = true ↔ Exists (λ q, wild false q (BS "x.js")) [BS "*.css"; BS "*.js"])) ∧
  u_dosmatch_with_OR (BS "a|b") (BS "a|b" ++ [0]) 3 0 = Ok true.
Proof.
  destruct (u_dosmatch_with_OR_correct (BS "x.js") (BS "*.css") [BS "*.js"] [] 0)
    as ((b & H & Hb) & H').
  - repeat constructor; try (unfold is_byte; lia); done.
  - repeat constructor; try (unfold is_byte; lia); done.
  - repeat constructor; try (unfold is_byte; lia); done.
  - split; [|exact H']. exists b. split; [exact H|exact Hb].
Defined.
