(* ===== verification/AtExit.v ===== *)
(** * Exit handlers ([u_atexit], [u_unatexit], [u_exit], [src/ulib/base/base.c])

    A function pointer is a number, 0 for the null pointer. *)

From S2P Require Import Prelude.

Record exit_state := Exit { u_fns : list Z; u_fns_index : Z }.

Definition exit_init : exit_state := Exit (replicate 32 0) 0.

(** [for (i = u_fns_index - 1; i >= 0; --i) if (u_fns[i] == function) break]:
    the index found, or [-1]; [n] is [i + 1]. *)
Fixpoint exit_find (fns : list Z) (n : nat) (function : Z) : res Z :=
  match n with
  | O => Ok (-1)
  | S i =>
      f ← rd fns (Z.of_nat i);
      if f =? function then Ok (Z.of_nat i) else exit_find fns i function
  end.

Definition u_atexit (function : Z) (st : exit_state) : res exit_state :=
  i ← exit_find (u_fns st) (Z.to_nat (u_fns_index st)) function;
  if 0 <=? i then Ok st
  else
    fns ← wr (u_fns st) (u_fns_index st) function;
    Ok (Exit fns (u_fns_index st + 1)).

Definition u_unatexit (function : Z) (st : exit_state) : res exit_state :=
  i ← exit_find (u_fns st) (Z.to_nat (u_fns_index st)) function;
  if 0 <=? i then fns ← wr (u_fns st) i 0; Ok (Exit fns (u_fns_index st))
  else Ok st.

(** The calls of [u_exit], in order. A handler is code of the program's own and may
    register or unregister others: [handler] is its effect on the state. *)
Fixpoint exit_loop (handler : Z → exit_state → res exit_state) (n : nat) (st : exit_state)
    : res (list Z * exit_state) :=
  match n with
  | O => Ok ([], st)
  | S i =>
      f ← rd (u_fns st) (Z.of_nat i);
      if negb (f =? 0) then
        st ← handler f st;
        r ← exit_loop handler i st; Ok (f :: r.1, r.2)
      else exit_loop handler i st
  end.

Definition u_exit (handler : Z → exit_state → res exit_state) (st : exit_state)
    : res (list Z * exit_state) :=
  exit_loop handler (Z.to_nat (u_fns_index st)) st.

(** ** Specification: the handlers registered, and the slots used so far *)

Inductive exit_op := Register (f : Z) | Unregister (f : Z).

#[global] Instance exit_op_eq_dec : EqDecision exit_op.
Proof. solve_decision. Defined.

Definition exit_run (op : exit_op) (st : exit_state) : res exit_state :=
  match op with Register f => u_atexit f st | Unregister f => u_unatexit f st end.

Definition exit_runs (ops : list exit_op) (st : exit_state) : res exit_state :=
  fold_left (λ r op, st ← r; exit_run op st) ops (Ok st).

Definition spec_run (s : list Z * Z) (op : exit_op) : list Z * Z :=
  match op with
  | Register f => if decide (f ∈ s.1) then s else (s.1 ++ [f], s.2 + 1)
  | Unregister f => (filter (λ g, g ≠ f) s.1, s.2)
  end.

Definition spec_runs (ops : list exit_op) : list Z * Z := fold_left spec_run ops ([], 0).

(** What [u_exit] calls: the handlers pending, the last registered one first, without those
    that an earlier handler unregistered; [effect] is what each handler does. *)
Fixpoint spec_exit (effect : Z → list exit_op) (n : nat) (pending : list Z) : list Z :=
  match n, pending with
  | S n', h :: pending' =>
      h :: spec_exit effect n' (filter (λ g, Unregister g ∉ effect h) pending')
  | _, _ => []
  end.

(** ** Refinement *)

Definition live (fns : list Z) : list Z := filter (λ g, g ≠ 0) fns.

(** The state that stands for the handlers [hs] with [k] slots used. *)
Definition refines (st : exit_state) (s : list Z * Z) : Prop :=
  length (u_fns st) = 32%nat ∧ u_fns_index st = s.2 ∧ 0 <= s.2 <= 32 ∧
  live (take (Z.to_nat (u_fns_index st)) (u_fns st)) = s.1 ∧ NoDup s.1.

Lemma live_elem f fns : f ≠ 0 → f ∈ fns ↔ f ∈ live fns.
Proof. intros Hf. unfold live. rewrite list_elem_of_filter. tauto. Qed.

Lemma exit_find_spec fns n f :
  (n ≤ length fns)%nat →
  ∃ i, exit_find fns n f = Ok i ∧
    ((f ∉ take n fns) ∧ i = -1 ∨
     ∃ j, i = Z.of_nat j ∧ (j < n)%nat ∧ fns !! j = Some f ∧ f ∉ drop (S j) (take n fns)).
Proof.
  induction n as [|n IH]; intros Hn.
  - exists (-1). split; [done|]. left. split; [by rewrite take_0; apply not_elem_of_nil|done].
  - destruct (lookup_lt_is_Some_2 fns n) as [g Hg]; [lia|].
    simpl. rewrite (rd_lookup _ _ _ Hg). simpl. destruct (Z.eqb_spec g f) as [->|Hgf].
    + exists (Z.of_nat n). split; [done|]. right. exists n. conj_easy.
      rewrite drop_ge; [apply not_elem_of_nil|]. rewrite length_take. lia.
    + destruct IH as (i & -> & Hi); [lia|]. exists i. split; [done|].
      rewrite (take_S_r _ _ _ Hg). destruct Hi as [[Hni ->]|(j & -> & Hj & Hfj & Hni)].
      * left. split; [|done]. rewrite elem_of_app, list_elem_of_singleton. by intros [?| ->].
      * right. exists j. conj_easy.
        rewrite drop_app_le by (rewrite length_take; lia).
        rewrite elem_of_app, list_elem_of_singleton. by intros [?| ->].
Qed.

Lemma live_app a b : live (a ++ b) = live a ++ live b.
Proof. apply filter_app. Qed.

Lemma live_insert_nil l i f :
  l !! i = Some f → NoDup (live l) → f ≠ 0 → live (<[i:=0]> l) = filter (λ g, g ≠ f) (live l).
Proof.
  intros Hi Hnd Hf. rewrite <- (take_drop_middle l i f Hi) in Hnd |- * at 2.
  rewrite (insert_take_drop l i 0) by by apply lookup_lt_Some in Hi.
  rewrite !live_app in *. rewrite filter_app.
  assert (Hc : ∀ t, live (f :: t) = f :: live t) by (intros t; unfold live; by rewrite filter_cons_True).
  assert (H0 : ∀ t, live (0 :: t) = live t) by (intros t; unfold live; by rewrite filter_cons_False; [|intros []]).
  rewrite Hc in *. rewrite H0. apply NoDup_app in Hnd as (_ & Hdis & Hnd).
  apply NoDup_cons in Hnd as [Hnot _].
  rewrite filter_cons_False by (by intros []). f_equal; symmetry; apply filter_all.
  - apply Forall_forall. intros x Hx ->. apply (Hdis f Hx). left.
  - apply Forall_forall. intros x Hx ->. done.
Qed.

Lemma live_take_not_elem fns i n j f :
  NoDup (live (take n fns)) → fns !! j = Some f → (i ≤ j < n)%nat → f ≠ 0 → f ∉ live (take i fns).
Proof.
  intros Hnd Hj [Hij Hjn] Hf Hin.
  assert (E : take n fns = take j fns ++ f :: drop (S j) (take n fns)).
  { rewrite <- (take_drop_middle (take n fns) j f) at 1.
    - rewrite take_take. by replace (j `min` n)%nat with j by lia.
    - by rewrite lookup_take_lt. }
  rewrite E, live_app in Hnd. apply NoDup_app in Hnd as (_ & Hdis & _).
  apply (Hdis f).
  - assert (Et : take i fns = take i (take j fns)) by (rewrite take_take; f_equal; lia).
    rewrite Et in Hin. rewrite <- live_elem in Hin by done. rewrite <- live_elem by done.
    by apply elem_of_take in Hin as (k & Hk & _); eapply list_elem_of_lookup_2.
  - rewrite <- live_elem by done. left.
Qed.

(** What an operation leaves below the slots in use. *)
Definition keeps_below (P : Z → Prop) `{∀ g, Decision (P g)} (st st' : exit_state) : Prop :=
  u_fns_index st <= u_fns_index st' ∧
  ∀ i, (Z.of_nat i <= u_fns_index st) →
    live (take i (u_fns st')) = filter P (live (take i (u_fns st))).

Lemma u_atexit_refines f st s st' :
  refines st s → f ≠ 0 → u_atexit f st = Ok st' →
  refines st' (spec_run s (Register f)) ∧ keeps_below (λ g, Register f ≠ Unregister g) st st'.
Proof.
  intros (Hlen & Hidx & Hk & Hlive & Hnd) Hf Hrun. destruct st as [fns k], s as [hs k']. simpl in *.
  subst k'. assert (Hkn : (Z.to_nat k ≤ length fns)%nat) by lia.
  unfold u_atexit in Hrun. simpl in Hrun.
  destruct (exit_find_spec fns (Z.to_nat k) f Hkn) as (i & Ei & Hi); rewrite Ei in Hrun; simpl in Hrun.
  assert (Hfilter : ∀ l : list Z, filter (λ g, Register f ≠ Unregister g) l = l).
  { intros l. apply filter_all. by apply Forall_forall. }
  destruct Hi as [[Hni ->]|(j & -> & Hj & Hfj & _)].
  - simpl in Hrun. unfold wr in Hrun.
    destruct ((k <? 0) || (Z.of_nat (length fns) <=? k)) eqn:Eb; simpl in Hrun; [done|]. simplify_eq.
    assert (Hn : f ∉ live (take (Z.to_nat k) fns)) by by rewrite <- live_elem.
    destruct (decide _); [done|]. split; [|split; [simpl; lia|]].
    + unfold refines; simpl. rewrite length_insert. conj_easy. split.
      * replace (Z.to_nat (k + 1)) with (S (Z.to_nat k)) by lia.
         rewrite (take_S_r _ _ f) by (rewrite list_lookup_insert_eq; [done|lia]).
         rewrite take_insert_ge by lia. rewrite live_app. f_equal. unfold live.
         by rewrite filter_cons_True.
      * apply NoDup_app. split; [done|]. split; [|by apply NoDup_singleton].
         intros x Hx Hx'%list_elem_of_singleton. by subst.
    + intros i Hi. simpl in *. rewrite take_insert_ge by lia. by rewrite Hfilter.
  - destruct (Z.leb_spec 0 (Z.of_nat j)); [|lia]. simplify_eq.
    assert (Hin : f ∈ live (take (Z.to_nat k) fns)).
    { rewrite <- live_elem by done. apply elem_of_take. eauto. }
    destruct (decide _); [|done]. conj_easy. split; [simpl; lia|]. intros i Hi. by rewrite Hfilter.
Qed.

Lemma u_unatexit_refines f st s st' :
  refines st s → f ≠ 0 → u_unatexit f st = Ok st' →
  refines st' (spec_run s (Unregister f)) ∧ keeps_below (λ g, Unregister f ≠ Unregister g) st st'.
Proof.
  intros (Hlen & Hidx & Hk & Hlive & Hnd) Hf Hrun. destruct st as [fns k], s as [hs k']. simpl in *.
  subst k'. assert (Hkn : (Z.to_nat k ≤ length fns)%nat) by lia.
  unfold u_unatexit in Hrun. simpl in Hrun.
  destruct (exit_find_spec fns (Z.to_nat k) f Hkn) as (i & Ei & Hi); rewrite Ei in Hrun; simpl in Hrun.
  destruct Hi as [[Hni ->]|(j & -> & Hj & Hfj & _)].
  - simpl in Hrun. simplify_eq. assert (Hn : f ∉ live (take (Z.to_nat k) fns)) by by rewrite <- live_elem.
    assert (Hfl : filter (λ g, g ≠ f) (live (take (Z.to_nat k) fns)) = live (take (Z.to_nat k) fns)).
    { apply filter_all, Forall_forall. by intros x Hx ->. }
    split; [by unfold refines; simpl; rewrite Hfl; conj_easy|]. split; [simpl; lia|].
    intros i Hi. simpl in *. symmetry. apply filter_all, Forall_forall. intros x Hx [= ->]. apply Hn.
    rewrite <- live_elem in Hx by done. rewrite <- live_elem by done.
    apply elem_of_take in Hx as (m & Hm & ?). apply elem_of_take. exists m. split; [done|lia].
  - destruct (Z.leb_spec 0 (Z.of_nat j)); [|lia]. unfold wr in Hrun.
    destruct (_ || _) eqn:Eb in Hrun; [done|]. simpl in Hrun. simplify_eq. rewrite Nat2Z.id.
    assert (Htake : ∀ i, (Z.of_nat i <= k) → live (take i (<[j:=0]> fns)) =
      filter (λ g, g ≠ f) (live (take i fns))).
    { intros i Hi. destruct (decide (j < i)%nat) as [Hji|Hji].
      - rewrite take_insert_lt by done. apply live_insert_nil; [by rewrite lookup_take_lt| |done].
        replace (take i fns) with (take i (take (Z.to_nat k) fns)) by (rewrite take_take; f_equal; lia).
        rewrite <- (take_drop i (take (Z.to_nat k) fns)), live_app in Hnd.
        by apply NoDup_app in Hnd as [? _].
      - rewrite take_insert_ge by lia. symmetry. apply filter_all, Forall_forall. intros x Hx ->.
        eapply (live_take_not_elem fns i); [exact Hnd|exact Hfj|lia|done|done]. }
    split; [|split; [simpl; lia|]].
    + unfold refines; simpl. rewrite length_insert, Htake by lia. conj_easy.
      by apply NoDup_filter.
    + intros i Hi. simpl in *. rewrite Htake by done. apply list_filter_iff. intros x.
      split; [by intros Hx [= ->]|by intros Hx ->].
Qed.

Definition op_nonnull (op : exit_op) : Prop :=
  match op with Register f | Unregister f => f ≠ 0 end.

#[global] Instance op_nonnull_dec op : Decision (op_nonnull op).
Proof. destruct op; apply _. Defined.

(** One operation: the specification's. *)
Lemma exit_run_refines op st s st' :
  refines st s → op_nonnull op → exit_run op st = Ok st' →
  refines st' (spec_run s op) ∧ keeps_below (λ g, op ≠ Unregister g) st st'.
Proof. destruct op; [apply u_atexit_refines|apply u_unatexit_refines]. Qed.

(** When an operation faults: a new handler, and the 32 slots used. *)
Lemma exit_run_fault op st s :
  refines st s → op_nonnull op →
  (∃ st', exit_run op st = Ok st') ∨ exit_run op st = Fail OutOfBounds ∧ (spec_run s op).2 = 33.
Proof.
  intros (Hlen & Hidx & Hk & Hlive & Hnd) Hf. destruct st as [fns k], s as [hs k']. simpl in *. subst k'.
  destruct op as [f|f]; simpl in *; unfold u_atexit, u_unatexit; simpl;
    destruct (exit_find_spec fns (Z.to_nat k) f ltac:(lia)) as (i & -> & Hi); simpl.
  - destruct (Z.leb_spec 0 i) as [|Hneg]; [by left; eexists|].
    destruct Hi as [[Hni ->]|(j & -> & _)]; [|lia]. rewrite live_elem, Hlive in Hni by done.
    unfold wr. destruct (_ || _) eqn:Eb; [right|left; simpl; eauto].
    split; [done|]. destruct (decide _); [done|]. simpl. lia.
  - left. destruct (Z.leb_spec 0 i); [|by eexists].
    destruct Hi as [[Hni ->]|(j & -> & Hj & _)]; [lia|]. unfold wr.
    destruct (_ || _) eqn:Eb; [lia|]. simpl. eauto.
Qed.

Lemma spec_count_mono ops s : s.2 <= (fold_left spec_run ops s).2.
Proof.
  revert s. induction ops as [|op ops IH]; intros s; simpl; [lia|].
  etrans; [|apply IH]. destruct op; simpl; [|lia]. case_decide; simpl; lia.
Qed.

Lemma fold_fail ops f : fold_left (λ r op, st ← r; exit_run op st) ops (Fail f) = Fail f.
Proof. by induction ops. Qed.

(** Sequences of operations. *)
Lemma exit_runs_refines ops st s :
  refines st s → Forall op_nonnull ops →
  if (fold_left spec_run ops s).2 <=? 32
  then ∃ st', exit_runs ops st = Ok st' ∧ refines st' (fold_left spec_run ops s)
  else exit_runs ops st = Fail OutOfBounds.
Proof.
  intros Href Hops. revert st s Href. unfold exit_runs.
  induction Hops as [|op ops Hop Hops IH]; intros st s Href; simpl.
  - destruct Href as (? & ? & Hk & ?). destruct (Z.leb_spec s.2 32); [|lia]. exists st. done.
  - destruct (exit_run_fault op st s Href Hop) as [[st' E]|[E H33]]; rewrite E; simpl.
    + apply IH. by eapply exit_run_refines.
    + rewrite fold_fail. assert (Hm := spec_count_mono ops (spec_run s op)).
      by destruct (Z.leb_spec (fold_left spec_run ops (spec_run s op)).2 32); [lia|].
Qed.

Lemma exit_runs_below ops : ∀ st s st',
  refines st s → Forall op_nonnull ops → exit_runs ops st = Ok st' →
  (∃ s', refines st' s') ∧ keeps_below (λ g, Unregister g ∉ ops) st st'.
Proof.
  unfold exit_runs. induction ops as [|op ops IH]; intros st s st' Href Hops Hrun.
  - simpl in Hrun. simplify_eq. split; [eauto|]. split; [lia|]. intros i Hi. symmetry.
    apply filter_all, Forall_forall. intros x _. apply not_elem_of_nil.
  - apply Forall_cons in Hops as [Hop Hops]. simpl in Hrun.
    destruct (exit_run op st) as [st1|f] eqn:E; simpl in Hrun; [|by rewrite fold_fail in Hrun].
    destruct (exit_run_refines _ _ _ _ Href Hop E) as [Href1 [Hm1 Hb1]].
    destruct (IH st1 _ st' Href1 Hops Hrun) as [Href' [Hm' Hb']]. split; [done|]. split; [lia|].
    intros i Hi. rewrite Hb', Hb1 by lia. rewrite list_filter_filter. apply list_filter_iff.
    intros x. rewrite not_elem_of_cons.
    split; intros [H1 H2]; split; first [assumption | apply not_eq_sym; assumption].
Qed.

Lemma filter_reverse {A} (P : A → Prop) `{∀ x, Decision (P x)} (l : list A) :
  filter P (reverse l) = reverse (filter P l).
Proof.
  induction l as [|x l IH]; [done|]. rewrite reverse_cons, filter_app, IH.
  destruct (decide (P x)).
  - rewrite (filter_cons_True _ x l), reverse_cons by done. f_equal. by rewrite filter_cons_True.
  - rewrite (filter_cons_False _ x l) by done. rewrite filter_cons_False by done. apply app_nil_r.
Qed.

Lemma spec_exit_fuel effect n m r :
  (length r ≤ n)%nat → (length r ≤ m)%nat → spec_exit effect n r = spec_exit effect m r.
Proof.
  revert m r. induction n as [|n IH]; intros [|m] [|h r] Hn Hm; simpl in *; try done; try lia.
  f_equal. apply IH; (etrans; [apply length_filter|lia]).
Qed.

Lemma exit_loop_spec effect n : ∀ st s trace st',
  (∀ f, Forall op_nonnull (effect f)) → refines st s → (Z.of_nat n <= u_fns_index st) →
  exit_loop (λ f, exit_runs (effect f)) n st = Ok (trace, st') →
  trace = spec_exit effect n (reverse (live (take n (u_fns st)))).
Proof.
  induction n as [|n IH]; intros st s trace st' He Href Hn Hrun; [by simpl in Hrun; simplify_eq|].
  assert (Hl : (n < length (u_fns st))%nat) by (destruct Href as (? & ? & ? & _); lia).
  destruct (lookup_lt_is_Some_2 _ _ Hl) as [g Hg].
  simpl in Hrun. rewrite (rd_lookup _ _ _ Hg) in Hrun. simpl in Hrun.
  rewrite (take_S_r _ _ _ Hg), live_app, reverse_app.
  destruct (Z.eqb_spec g 0) as [Hg0|Hg0]; simpl in Hrun; [rewrite Hg0|].
  - replace (live [0]) with (@nil Z) by done. rewrite reverse_nil. simpl app.
    rewrite (IH _ _ _ _ He Href ltac:(lia) Hrun). apply spec_exit_fuel;
      rewrite length_reverse; (etrans; [apply length_filter|rewrite length_take; lia]).
  - replace (live [g]) with [g] by (unfold live; by rewrite filter_cons_True).
    destruct (exit_runs (effect g) st) as [st1|] eqn:E1; [|done]. simpl in Hrun.
    destruct (exit_loop _ n st1) as [[tr st2]|] eqn:E2; [|done]. simpl in Hrun. simplify_eq.
    destruct (exit_runs_below _ _ _ _ Href (He g) E1) as [[s1 Href1] [Hm Hb]].
    rewrite (IH _ _ _ _ He Href1 ltac:(lia) E2). rewrite Hb by lia. by rewrite <- filter_reverse.
Qed.

Lemma exit_init_refines : refines exit_init ([], 0).
Proof. repeat split; try done. apply NoDup_nil_2. Qed.

(** ** Properties *)

(** The table of handlers implements a list of distinct handlers: whatever sequence of registrations
    and removals, the handlers in it are those of the specification in order of registration, as
    long as no more than 32 slots are used; slots are not used again, and the registration
    that needs a thirty-third one writes past the end of the table. *)
Theorem u_atexit_implements_list ops :
  Forall op_nonnull ops →
  if (spec_runs ops).2 <=? 32
  then ∃ st, exit_runs ops exit_init = Ok st ∧
    live (take (Z.to_nat (u_fns_index st)) (u_fns st)) = (spec_runs ops).1 ∧ NoDup (spec_runs ops).1
  else exit_runs ops exit_init = Fail OutOfBounds.
Proof.
  intros Hops. assert (H := exit_runs_refines ops _ _ exit_init_refines Hops).
  unfold spec_runs. destruct (_ <=? 32); [|done].
  destruct H as (st & E & _ & Hi & _ & Hlive & Hnd). exists st. done.
Qed.

Lemma u_atexit_implements_list_witness :
  exit_runs (Register <$> seqZ 1 33) exit_init = Fail OutOfBounds ∧
  ∃ st, exit_runs [Register 1; Register 2; Unregister 1; Register 1] exit_init = Ok st ∧
    live (take (Z.to_nat (u_fns_index st)) (u_fns st)) = [2; 1] ∧ NoDup [2; 1].
Proof.
  split.
  - refine (u_atexit_implements_list (Register <$> seqZ 1 33) _). by apply (bool_decide_eq_true_1 _).
  - refine (u_atexit_implements_list [Register 1; Register 2; Unregister 1; Register 1] _).
    by apply (bool_decide_eq_true_1 _).
Defined.

(** At exit the handlers are called in the reverse order of their registration, each once, except
    those that a handler called before unregisters; what a handler registers then is not called. *)
Theorem u_exit_order ops effect st trace st' :
  Forall op_nonnull ops → (∀ f, Forall op_nonnull (effect f)) →
  exit_runs ops exit_init = Ok st →
  u_exit (λ f, exit_runs (effect f)) st = Ok (trace, st') →
  let hs := (spec_runs ops).1 in
  trace = spec_exit effect (length hs) (reverse hs) ∧
  ((∀ f, effect f = []) → trace = reverse hs).
Proof.
  intros Hops He Hrun Hexit hs. assert (H := exit_runs_refines ops _ _ exit_init_refines Hops).
  change (fold_left spec_run ops ([], 0)) with (spec_runs ops) in H.
  destruct (_ <=? 32); [|congruence]. destruct H as (st1 & E & Href). rewrite Hrun in E. simplify_eq.
  assert (Ht : trace = spec_exit effect (length hs) (reverse hs)).
  { unfold u_exit in Hexit. assert (Href' := Href). destruct Href' as (Hlen & Hi & Hk & Hlive & _).
    eapply exit_loop_spec in Hexit; [|exact He|exact Href|lia]. rewrite Hexit, Hlive. fold hs.
    apply spec_exit_fuel; rewrite length_reverse; [|done]. unfold hs. rewrite <- Hlive.
    etrans; [apply length_filter|]. rewrite length_take. lia. }
  split; [done|]. intros Hnone. rewrite Ht.
  assert (Hl : length hs = length (reverse hs)) by by rewrite length_reverse.
  rewrite Hl. clear -Hnone. induction (reverse hs) as [|h r IH]; [done|]. simpl. f_equal.
  rewrite filter_all; [done|]. apply Forall_forall. intros x _. rewrite Hnone. apply not_elem_of_nil.
Qed.

Lemma u_exit_order_witness :
  u_exit (λ f, exit_runs (if f =? 3 then [Unregister 2; Register 4] else []))
    (Exit ([1; 2; 3] ++ replicate 29 0) 3) = Ok ([3; 1], Exit ([1; 0; 3; 4] ++ replicate 28 0) 4) ∧
  [3; 1] = spec_exit (λ f, if f =? 3 then [Unregister 2; Register 4] else []) 3 (reverse [1; 2; 3]).
Proof.
  split; [reflexivity|].
  refine (proj1 (u_exit_order [Register 1; Register 2; Register 3]
    (λ f, if f =? 3 then [Unregister 2; Register 4] else [])
    (Exit ([1; 2; 3] ++ replicate 29 0) 3) [3; 1] (Exit ([1; 0; 3; 4] ++ replicate 28 0) 4) _ _ _ _));
    [by apply (bool_decide_eq_true_1 _)| |reflexivity|reflexivity].
  intros f. destruct (f =? 3); [by apply (bool_decide_eq_true_1 _)|constructor].
Defined.
