(* ===== verification/Privilege.v ===== *)
(** * Dropping and regaining privileges ([src/ulib/base/utility.c])

    The functions keep four static variables and make system calls. The kernel
    is an interface: the class [Credentials] has the system calls, the class
    [CredentialLaws] what POSIX documents of them; [posix] is an instance with the
    real, effective and saved ids of a process. The model is that of the build without
    libcap, where [U_ERROR] ends the process and [U_WARNING] only prints. *)

From S2P Require Import Prelude.

Class Credentials (K : Type) := {
  getuid : K → Z;
  geteuid : K → Z;
  getgid : K → Z;
  getegid : K → Z;
  (** The system calls return whether they succeed, and the new state. *)
  seteuid : Z → K → bool * K;
  setuid : Z → K → bool * K;
  setegid : Z → K → bool * K;
  setgid : Z → K → bool * K;
}.

(** An id is an [uint32_t] other than [(uid_t)-1]; setting an effective id that succeeds
    sets it and nothing else, and a call that fails changes nothing. *)
Class CredentialLaws (K : Type) `{Credentials K} := {
  uid_range k : 0 <= getuid k < 2 ^ 32 - 1;
  euid_range k : 0 <= geteuid k < 2 ^ 32 - 1;
  gid_range k : 0 <= getgid k < 2 ^ 32 - 1;
  egid_range k : 0 <= getegid k < 2 ^ 32 - 1;
  seteuid_ok u k k' : seteuid u k = (true, k') →
    geteuid k' = u ∧ getuid k' = getuid k ∧ getgid k' = getgid k ∧ getegid k' = getegid k;
  seteuid_fail u k k' : seteuid u k = (false, k') → k' = k;
  setegid_ok g k k' : setegid g k = (true, k') →
    getegid k' = g ∧ getgid k' = getgid k ∧ getuid k' = getuid k ∧ geteuid k' = geteuid k;
  setegid_fail g k k' : setegid g k = (false, k') → k' = k;
}.

(** The static variables. *)
Record security := Security {
  real_uid : Z; real_gid : Z; effective_uid : Z; effective_gid : Z }.

Definition UNSET : Z := 0xffffffff.
Definition security_init : security := Security UNSET UNSET UNSET UNSET.

Section Functions.
Context {K : Type} `{Credentials K}.

Definition u_need_root (necessary : bool) (v : security) (k : K) : res K :=
  if negb (effective_uid v =? 0) then if necessary then Fail Aborted else Ok k
  else if real_uid v =? UNSET then Fail Aborted
  else if geteuid k =? 0 then Ok k
  else
    let '(ok, k) := seteuid (effective_uid v) k in
    if negb ok || negb (geteuid k =? 0) then if necessary then Fail Aborted else Ok k
    else Ok k.

Definition u_dont_need_root (v : security) (k : K) : res K :=
  if negb (effective_uid v =? 0) then Ok k
  else if real_uid v =? UNSET then Fail Aborted
  else if negb (geteuid k =? 0) then Ok k
  else
    let '(ok, k) := seteuid (real_uid v) k in
    if negb ok || negb (geteuid k =? real_uid v) then Fail Aborted else Ok k.

Definition u_never_need_root (v : security) (k : K) : res (security * K) :=
  if real_uid v =? UNSET then Fail Aborted
  else
    let k := if geteuid k =? 0 then (setuid (real_uid v) k).2 else k in
    if negb (geteuid k =? real_uid v) || negb (getuid k =? real_uid v) then Fail Aborted
    else Ok (Security (real_uid v) (real_gid v) (real_uid v) (effective_gid v), k).

Definition u_need_group (necessary : bool) (v : security) (k : K) : res K :=
  if real_gid v =? UNSET then Fail Aborted
  else if getegid k =? effective_gid v then Ok k
  else
    let '(ok, k) := setegid (effective_gid v) k in
    if negb ok || negb (getegid k =? effective_gid v) then if necessary then Fail Aborted else Ok k
    else Ok k.

Definition u_dont_need_group (v : security) (k : K) : res K :=
  if real_gid v =? UNSET then Fail Aborted
  else if negb (getegid k =? effective_gid v) then Ok k
  else
    let '(ok, k) := setegid (real_gid v) k in
    if negb ok || negb (getegid k =? real_gid v) then Fail Aborted else Ok k.

Definition u_never_need_group (v : security) (k : K) : res (security * K) :=
  if real_gid v =? UNSET then Fail Aborted
  else
    let k := if negb (getegid k =? effective_gid v) then (setgid (real_gid v) k).2 else k in
    if negb (getegid k =? real_gid v) || negb (getgid k =? real_gid v) then Fail Aborted
    else Ok (Security (real_uid v) (real_gid v) (effective_uid v) (real_gid v), k).

(** The local [leffective_uid] is an [int]. *)
Definition u_init_security (v : security) (k : K) : res (security * K) :=
  let v := Security (getuid k) (real_gid v) (effective_uid v) (effective_gid v) in
  let leffective_uid := i32 (geteuid k) in
  r ← (if negb (leffective_uid =? i32 (real_uid v)) && negb (leffective_uid =? 0)
       then u_never_need_root v k
       else Ok (Security (real_uid v) (real_gid v) (u32 leffective_uid) (effective_gid v), k));
  let '(v, k) := r in
  let v := Security (real_uid v) (getgid k) (effective_uid v) (getegid k) in
  k ← u_dont_need_root v k;
  k ← u_dont_need_group v k;
  Ok (v, k).

(** The temporary changes a program makes after the initialisation. *)
Inductive sec_op := NeedRoot (necessary : bool) | DontNeedRoot | NeedGroup (necessary : bool) | DontNeedGroup.

Definition sec_run (v : security) (op : sec_op) (k : K) : res K :=
  match op with
  | NeedRoot b => u_need_root b v k
  | DontNeedRoot => u_dont_need_root v k
  | NeedGroup b => u_need_group b v k
  | DontNeedGroup => u_dont_need_group v k
  end.

(** The states a sequence of them leads to. *)
Inductive reachable (v : security) (k0 : K) : K → Prop :=
  | reach_init : reachable v k0 k0
  | reach_step op k k' : reachable v k0 k → sec_run v op k = Ok k' → reachable v k0 k'.
End Functions.

(** ** The process credentials of POSIX, with saved ids *)

Record posix := Posix { ruid : Z; euid : Z; suid : Z; rgid : Z; egid : Z; sgid : Z }.

Definition id_ok (x : Z) : bool := (0 <=? x) && (x <? 2 ^ 32 - 1).

(** The states of the instance: all ids are in range. *)
Definition posix_ok (p : posix) : bool :=
  id_ok (ruid p) && id_ok (euid p) && id_ok (suid p) && id_ok (rgid p) && id_ok (egid p) && id_ok (sgid p).

Definition process : Type := { p : posix | posix_ok p = true }.

(** A new state, when it is one and the call is permitted. *)
Definition try_set (k : process) (permitted : bool) (p : posix) : bool * process :=
  match decide (posix_ok p = true) with
  | left Hp => if permitted then (true, exist _ p Hp) else (false, k)
  | right _ => (false, k)
  end.

Definition posix_seteuid (u : Z) (k : process) : bool * process :=
  let p := `k in
  try_set k ((euid p =? 0) || (u =? ruid p) || (u =? suid p))
    (Posix (ruid p) u (suid p) (rgid p) (egid p) (sgid p)).

Definition posix_setuid (u : Z) (k : process) : bool * process :=
  let p := `k in
  if euid p =? 0 then try_set k true (Posix u u u (rgid p) (egid p) (sgid p))
  else try_set k ((u =? ruid p) || (u =? suid p)) (Posix (ruid p) u (suid p) (rgid p) (egid p) (sgid p)).

Definition posix_setegid (g : Z) (k : process) : bool * process :=
  let p := `k in
  try_set k ((euid p =? 0) || (g =? rgid p) || (g =? sgid p))
    (Posix (ruid p) (euid p) (suid p) (rgid p) g (sgid p)).

Definition posix_setgid (g : Z) (k : process) : bool * process :=
  let p := `k in
  if euid p =? 0 then try_set k true (Posix (ruid p) (euid p) (suid p) g g g)
  else try_set k ((g =? rgid p) || (g =? sgid p)) (Posix (ruid p) (euid p) (suid p) (rgid p) g (sgid p)).

#[global] Instance process_credentials : Credentials process := {
  getuid k := ruid (`k); geteuid k := euid (`k); getgid k := rgid (`k); getegid k := egid (`k);
  seteuid := posix_seteuid; setuid := posix_setuid; setegid := posix_setegid; setgid := posix_setgid }.

Lemma try_set_cases k b p ok k' :
  try_set k b p = (ok, k') → if ok then `k' = p ∧ b = true else k' = k.
Proof. unfold try_set. case_decide; destruct b; intros; by simplify_eq. Qed.

#[global] Instance process_laws : CredentialLaws process.
Proof.
  assert (Hr : ∀ k : process, id_ok (ruid (`k)) = true ∧ id_ok (euid (`k)) = true ∧
    id_ok (rgid (`k)) = true ∧ id_ok (egid (`k)) = true).
  { intros [p Hp]. simpl. unfold posix_ok in Hp.
    rewrite !andb_true_iff in Hp. tauto. }
  split; try (intros k; simpl; destruct (Hr k) as (? & ? & ? & ?); unfold id_ok in *; lia);
    intros u k k' E; [change (posix_seteuid u k = (true, k')) in E
      |change (posix_seteuid u k = (false, k')) in E |change (posix_setegid u k = (true, k')) in E
      |change (posix_setegid u k = (false, k')) in E];
    apply try_set_cases in E; [destruct E as [E _]; simpl; by rewrite E|done
      |destruct E as [E _]; simpl; by rewrite E|done].
Qed.

(** ** Lemmas *)

Section Interface.
Context {K : Type} `{CredentialLaws K}.

(** What the temporary changes keep: the real ids, and which effective ids there can be. *)
Definition sec_inv (v : security) (k0 k : K) : Prop :=
  getuid k = getuid k0 ∧ getgid k = getgid k0 ∧
  (geteuid k = real_uid v ∨ effective_uid v = 0 ∧ geteuid k = 0) ∧
  (getegid k = real_gid v ∨ getegid k = effective_gid v).

Lemma sec_run_inv v k0 k op k' :
  sec_inv v k0 k → sec_run v op k = Ok k' → sec_inv v k0 k'.
Proof.
  intros (Hu & Hg & He & Heg). destruct op as [b| |b|]; simpl;
    unfold u_need_root, u_dont_need_root, u_need_group, u_dont_need_group.
  - destruct (Z.eqb_spec (effective_uid v) 0) as [E0|]; simpl.
    + destruct (_ =? UNSET); [done|]. destruct (geteuid k =? 0); [by intros; simplify_eq|].
      destruct (seteuid _ k) as [[] k1] eqn:Es; simpl.
      * apply seteuid_ok in Es as (E1 & E2 & E3 & E4).
        destruct (negb _); [destruct b|]; intros; simplify_eq;
          (split; [congruence|split; [congruence|split; [right; by rewrite E1, E0|by rewrite E4]]]).
      * apply seteuid_fail in Es as ->. by destruct b; intros; simplify_eq.
    + destruct b; intros; by simplify_eq.
  - destruct (negb _); [by intros; simplify_eq|]. destruct (_ =? UNSET); [done|].
    destruct (negb _); [by intros; simplify_eq|].
    destruct (seteuid _ k) as [[] k1] eqn:Es; simpl; [|done].
    apply seteuid_ok in Es as (E1 & E2 & E3 & E4). destruct (negb _); [done|]. intros; simplify_eq.
    split; [congruence|split; [congruence|split; [by left|by rewrite E4]]].
  - destruct (_ =? UNSET); [done|]. destruct (_ =? effective_gid v); [by intros; simplify_eq|].
    destruct (setegid _ k) as [[] k1] eqn:Es; simpl.
    + apply setegid_ok in Es as (E1 & E2 & E3 & E4).
      destruct (negb _); [destruct b|]; intros; simplify_eq;
        (split; [congruence|split; [congruence|split; [by rewrite E4|by right]]]).
    + apply setegid_fail in Es as ->. by destruct b; intros; simplify_eq.
  - destruct (_ =? UNSET); [done|]. destruct (negb _); [by intros; simplify_eq|].
    destruct (setegid _ k) as [[] k1] eqn:Es; simpl; [|done].
    apply setegid_ok in Es as (E1 & E2 & E3 & E4). destruct (negb _); [done|]. intros; simplify_eq.
    split; [congruence|split; [congruence|split; [by rewrite E4|by left]]].
Qed.

Lemma reachable_inv v k0 k : sec_inv v k0 k0 → reachable v k0 k → sec_inv v k0 k.
Proof. intros Hi Hr. induction Hr as [|op k k' _ IH Hrun]; [done|]. by eapply sec_run_inv. Qed.

(** The two calls that drop leave the real id in force. *)
Lemma dont_need_root_drops v k k' :
  (geteuid k = real_uid v ∨ effective_uid v = 0 ∧ geteuid k = 0) →
  u_dont_need_root v k = Ok k' →
  geteuid k' = real_uid v ∧ getuid k' = getuid k ∧ getgid k' = getgid k ∧ getegid k' = getegid k.
Proof.
  intros He. unfold u_dont_need_root.
  destruct (Z.eqb_spec (effective_uid v) 0) as [E0|E0]; simpl.
  - destruct (_ =? UNSET); [done|]. destruct (Z.eqb_spec (geteuid k) 0) as [E|E]; simpl.
    + destruct (seteuid _ k) as [[] k1] eqn:Es; simpl; [|done].
      apply seteuid_ok in Es as (E1 & E2 & E3 & E4). destruct (negb _); [done|].
      intros; simplify_eq. done.
    + intros; simplify_eq. destruct He as [He|[_ He]]; [done|lia].
  - intros; simplify_eq. destruct He as [He|[He _]]; [done|lia].
Qed.

Lemma dont_need_group_drops v k k' :
  (getegid k = real_gid v ∨ getegid k = effective_gid v) →
  u_dont_need_group v k = Ok k' →
  getegid k' = real_gid v ∧ getgid k' = getgid k ∧ getuid k' = getuid k ∧ geteuid k' = geteuid k.
Proof.
  intros He. unfold u_dont_need_group. destruct (_ =? UNSET); [done|].
  destruct (Z.eqb_spec (getegid k) (effective_gid v)) as [E|E]; simpl.
  - destruct (setegid _ k) as [[] k1] eqn:Es; simpl; [|done].
    apply setegid_ok in Es as (E1 & E2 & E3 & E4). destruct (negb _); [done|].
    intros; simplify_eq. done.
  - intros; simplify_eq. destruct He as [He|He]; [done|congruence].
Qed.

Lemma i32_u32 x : 0 <= x < 2 ^ 32 → u32 (i32 x) = x.
Proof.
  intros Hx. unfold u32, i32. rewrite Zminus_mod_idemp_l.
  replace (x + 2 ^ 31 - 2 ^ 31) with x by lia. by apply Z.mod_small.
Qed.

Lemma i32_zero x : 0 <= x < 2 ^ 32 → i32 x = 0 → x = 0.
Proof. intros Hx E. by rewrite <- (i32_u32 x), E by done. Qed.

(** The initialisation. *)
Lemma init_security_spec v0 k0 v k :
  u_init_security v0 k0 = Ok (v, k) →
  (geteuid k0 = getuid k0 ∨ geteuid k0 = 0) ∧
  real_uid v = getuid k0 ∧ real_gid v = getgid k0 ∧ effective_uid v = geteuid k0 ∧
  effective_gid v = getegid k0 ∧
  getuid k = getuid k0 ∧ getgid k = getgid k0 ∧ geteuid k = getuid k0 ∧ getegid k = getgid k0.
Proof.
  unfold u_init_security. simpl. assert (Hr := uid_range k0). assert (Hre := euid_range k0).
  destruct (negb (i32 (geteuid k0) =? i32 (getuid k0)) && negb (i32 (geteuid k0) =? 0)) eqn:Hb.
  - apply andb_prop in Hb as [Hb1 Hb2]. apply negb_true_iff, Z.eqb_neq in Hb1, Hb2.
    unfold u_never_need_root. simpl. destruct (_ =? UNSET); [done|].
    destruct (Z.eqb_spec (geteuid k0) 0) as [E|E]; [by rewrite E in Hb2|].
    destruct (Z.eqb_spec (geteuid k0) (getuid k0)) as [E'|E']; [by rewrite E' in Hb1|]. done.
  - assert (Hcase : geteuid k0 = getuid k0 ∨ geteuid k0 = 0).
    { apply andb_false_iff in Hb as [Hb|Hb]; apply negb_false_iff, Z.eqb_eq in Hb.
      - left. by rewrite <- (i32_u32 (geteuid k0)), Hb, i32_u32 by lia.
      - right. apply i32_zero; lia. }
    cbn [mbind res_bind real_uid real_gid effective_uid effective_gid]. rewrite i32_u32 by lia.
    set (v1 := Security _ _ _ _). destruct (u_dont_need_root v1 k0) as [k1|] eqn:E1; [|done].
    cbn [mbind res_bind]. destruct (u_dont_need_group v1 k1) as [k2|] eqn:E2; [|done].
    cbn [mbind res_bind]. intros [= <- <-].
    apply dont_need_root_drops in E1 as (E1a & E1b & E1c & E1d).
    2: { unfold v1. simpl. destruct Hcase as [->|E]; [by left|right]. by rewrite E. }
    apply dont_need_group_drops in E2 as (E2a & E2b & E2c & E2d).
    2: { unfold v1. simpl. rewrite E1d. by right. }
    unfold v1 in *. simpl in *. conj_easy; congruence.
Qed.
End Interface.

Section Posix.
Implicit Types k : process.

Lemma posix_ids k :
  id_ok (ruid (`k)) = true ∧ id_ok (euid (`k)) = true ∧ id_ok (suid (`k)) = true ∧
  id_ok (rgid (`k)) = true ∧ id_ok (egid (`k)) = true ∧ id_ok (sgid (`k)) = true.
Proof.
  destruct k as [p Hp]. simpl. unfold posix_ok in Hp. rewrite !andb_true_iff in Hp. tauto.
Qed.

Lemma try_set_ok k b p :
  posix_ok p = true → b = true → ∃ k', try_set k b p = (true, k') ∧ `k' = p.
Proof. intros Hp ->. unfold try_set. case_decide; [|done]. by eexists. Qed.

Lemma posix_ok_intro p :
  id_ok (ruid p) = true → id_ok (euid p) = true → id_ok (suid p) = true →
  id_ok (rgid p) = true → id_ok (egid p) = true → id_ok (sgid p) = true → posix_ok p = true.
Proof. unfold posix_ok. by intros -> -> -> -> -> ->. Qed.

(** The system calls of the functions above, when they are permitted. *)
Lemma posix_seteuid_real k :
  ∃ k', posix_seteuid (ruid (`k)) k = (true, k') ∧
    `k' = Posix (ruid (`k)) (ruid (`k)) (suid (`k)) (rgid (`k)) (egid (`k)) (sgid (`k)).
Proof.
  destruct (posix_ids k) as (? & ? & ? & ? & ? & ?).
  apply try_set_ok; [by apply posix_ok_intro|]. rewrite Z.eqb_refl. by rewrite orb_true_r.
Qed.

Lemma posix_seteuid_saved k :
  ∃ k', posix_seteuid (suid (`k)) k = (true, k') ∧
    `k' = Posix (ruid (`k)) (suid (`k)) (suid (`k)) (rgid (`k)) (egid (`k)) (sgid (`k)).
Proof.
  destruct (posix_ids k) as (? & ? & ? & ? & ? & ?).
  apply try_set_ok; [by apply posix_ok_intro|]. rewrite Z.eqb_refl. by rewrite orb_true_r.
Qed.

Lemma posix_setegid_real k :
  ∃ k', posix_setegid (rgid (`k)) k = (true, k') ∧
    `k' = Posix (ruid (`k)) (euid (`k)) (suid (`k)) (rgid (`k)) (rgid (`k)) (sgid (`k)).
Proof.
  destruct (posix_ids k) as (? & ? & ? & ? & ? & ?).
  apply try_set_ok; [by apply posix_ok_intro|]. rewrite Z.eqb_refl. by rewrite orb_true_r.
Qed.

Lemma posix_setuid_real k :
  euid (`k) = 0 →
  ∃ k', posix_setuid (ruid (`k)) k = (true, k') ∧
    `k' = Posix (ruid (`k)) (ruid (`k)) (ruid (`k)) (rgid (`k)) (egid (`k)) (sgid (`k)).
Proof.
  intros E. destruct (posix_ids k) as (? & ? & ? & ? & ? & ?). unfold posix_setuid. rewrite E.
  apply try_set_ok; [by apply posix_ok_intro|done].
Qed.

Lemma id_not_unset x : id_ok x = true → (x =? UNSET) = false.
Proof. unfold id_ok, UNSET. lia. Qed.

(** The initialisation of a program that is setuid root. *)
Lemma init_setuid_root v0 k0 :
  euid (`k0) = 0 →
  ∃ v k, u_init_security v0 k0 = Ok (v, k) ∧ real_uid v = ruid (`k0) ∧ effective_uid v = 0 ∧
    `k = Posix (ruid (`k0)) (ruid (`k0)) (suid (`k0)) (rgid (`k0)) (rgid (`k0)) (sgid (`k0)).
Proof.
  intros E. destruct (posix_ids k0) as (Hru & _ & _ & Hrg & _).
  unfold u_init_security. simpl. rewrite E. change (i32 0 =? 0) with true.
  rewrite andb_false_r. cbn [mbind res_bind real_uid real_gid effective_uid effective_gid].
  unfold u_dont_need_root. simpl. rewrite id_not_unset by done. rewrite E. simpl.
  destruct (posix_seteuid_real k0) as (k1 & -> & E1). simpl. rewrite E1. simpl. rewrite Z.eqb_refl. simpl.
  unfold u_dont_need_group. simpl. rewrite E1. simpl. rewrite id_not_unset, Z.eqb_refl by done. simpl.
  assert (Eg : rgid (`k0) = rgid (`k1)) by by rewrite E1. rewrite Eg.
  destruct (posix_setegid_real k1) as (k2 & -> & E2). simpl. rewrite E2. simpl. rewrite Z.eqb_refl. simpl.
  do 2 eexists. split; [done|]. split; [done|]. split; [done|]. rewrite E2, E1. done.
Qed.

Lemma need_root_saved v k :
  effective_uid v = 0 → real_uid v = ruid (`k) → suid (`k) = 0 →
  ∃ k', u_need_root true v k = Ok k' ∧
    (`k' = Posix (ruid (`k)) 0 0 (rgid (`k)) (egid (`k)) (sgid (`k))).
Proof.
  intros Hv Hr Hs. destruct (posix_ids k) as (Hru & _). unfold u_need_root. rewrite Hv. simpl.
  rewrite Hr, id_not_unset by done. destruct (Z.eqb_spec (euid (`k)) 0) as [E|E].
  - exists k. split; [done|]. destruct k as [[] Hp]. simpl in *. by subst.
  - destruct (posix_seteuid_saved k) as (k' & Es & Ek). rewrite Hs in Es, Ek. rewrite Es. simpl.
    rewrite Ek. simpl. by exists k'.
Qed.
End Posix.

(** ** Properties *)

(** C38: against the documented behaviour of the kernel: if the initialisation returns, the effective user
    and group are the real ones, the real ones are unchanged, and the program was started with
    the effective user it runs for or with root (any other setuid program is ended). *)
Theorem u_init_security_drops {K} `{CredentialLaws K} v0 (k0 : K) v k :
  u_init_security v0 k0 = Ok (v, k) →
  geteuid k = getuid k0 ∧ getegid k = getgid k0 ∧ getuid k = getuid k0 ∧ getgid k = getgid k0 ∧
  (geteuid k0 = getuid k0 ∨ geteuid k0 = 0).
Proof. intros E. apply init_security_spec in E. tauto. Qed.

Definition setuid_root : process := exist _ (Posix 1000 0 0 100 100 100) eq_refl.
Definition after_init : process := exist _ (Posix 1000 1000 0 100 100 100) eq_refl.

Lemma u_init_security_drops_witness :
  u_init_security security_init setuid_root = Ok (Security 1000 100 0 100, after_init) ∧
  geteuid after_init = 1000.
Proof.
  assert (E : u_init_security security_init setuid_root = Ok (Security 1000 100 0 100, after_init))
    by reflexivity.
  split; [exact E|]. exact (proj1 (u_init_security_drops _ _ _ _ E)).
Defined.

(** After the initialisation, in every state that temporary changes of privileges lead to, the real ids
    are unchanged, the effective user is the real one or root, root only if the program was
    started as root, and dropping the privileges restores the real ids. *)
Theorem temporary_privileges {K} `{CredentialLaws K} v0 (k0 : K) v k k1 :
  u_init_security v0 k0 = Ok (v, k) → reachable v k k1 →
  getuid k1 = getuid k0 ∧ getgid k1 = getgid k0 ∧
  (geteuid k1 = getuid k0 ∨ geteuid k0 = 0 ∧ geteuid k1 = 0) ∧
  (getegid k1 = getgid k0 ∨ getegid k1 = getegid k0) ∧
  (∀ k2, u_dont_need_root v k1 = Ok k2 → geteuid k2 = getuid k0) ∧
  (∀ k2, u_dont_need_group v k1 = Ok k2 → getegid k2 = getgid k0).
Proof.
  intros E Hr. apply init_security_spec in E as (_ & E1 & E2 & E3 & E4 & E5 & E6 & E7 & E8).
  apply reachable_inv in Hr as (Hu & Hg & He & Heg).
  2: { split; [done|]. split; [done|]. split; left; congruence. }
  split; [congruence|]. split; [congruence|].
  split; [destruct He as [He|[He He']]; [left; congruence|right; split; [congruence|done]]|].
  split; [destruct Heg as [Heg|Heg]; [left|right]; congruence|].
  split; intros k2 Hk2.
  - apply dont_need_root_drops in Hk2 as (H2 & _); [congruence|done].
  - apply dont_need_group_drops in Hk2 as (H2 & _); [congruence|done].
Qed.

Lemma temporary_privileges_witness :
  ∃ k1, u_need_root true (Security 1000 100 0 100) after_init = Ok k1 ∧ getuid k1 = 1000 ∧
    ∀ k2, u_dont_need_root (Security 1000 100 0 100) k1 = Ok k2 → geteuid k2 = 1000.
Proof.
  eexists. split; [reflexivity|].
  assert (Hr : reachable (Security 1000 100 0 100) after_init
    (exist _ (Posix 1000 0 0 100 100 100) eq_refl : process)).
  { eapply (reach_step _ _ (NeedRoot true)); [apply reach_init|reflexivity]. }
  assert (Ei : u_init_security security_init setuid_root = Ok (Security 1000 100 0 100, after_init))
    by reflexivity.
  destruct (temporary_privileges security_init setuid_root _ _ _ Ei Hr)
    as (H1 & _ & _ & _ & H2 & _).
  split; [exact H1|exact H2].
Defined.

(** With the credentials of POSIX, a program that is setuid root can take root again after the
    initialisation. [u_never_need_root] is permanent only when it is called with root in force:
    called right after the initialisation it succeeds and leaves the saved user id 0, so a later
    [seteuid(0)] of the program succeeds; called after [u_need_root] it sets all three ids. *)
Theorem u_never_need_root_permanent v0 k0 :
  euid (`k0) = 0 → suid (`k0) = 0 → ruid (`k0) ≠ 0 →
  ∃ v k k1, u_init_security v0 k0 = Ok (v, k) ∧ u_need_root true v k = Ok k1 ∧ geteuid k1 = 0 ∧
    (∃ v' k', u_never_need_root v k = Ok (v', k') ∧ geteuid k' = ruid (`k0) ∧
       suid (`k') = 0 ∧ (seteuid 0 k').1 = true) ∧
    (∃ v' k', u_never_need_root v k1 = Ok (v', k') ∧ geteuid k' = ruid (`k0) ∧
       suid (`k') = ruid (`k0) ∧ (seteuid 0 k').1 = false).
Proof.
  intros He Hs Hr. destruct (init_setuid_root v0 k0 He) as (v & k & Ei & Hru & Heu & Ek).
  destruct (need_root_saved v k Heu) as (k1 & En & Ek1); [by rewrite Hru, Ek|by rewrite Ek|].
  destruct (posix_ids k0) as (Hid & _). exists v, k, k1. split; [done|]. split; [done|].
  split; [simpl; by rewrite Ek1|]. split.
  - unfold u_never_need_root. simpl. rewrite Hru, id_not_unset by done. rewrite Ek. simpl.
    apply Z.eqb_neq in Hr. rewrite Hr. simpl. rewrite Ek. simpl. rewrite Z.eqb_refl. simpl.
    do 2 eexists. split; [done|]. rewrite Ek. simpl. split; [done|]. split; [done|].
    destruct (posix_seteuid_saved k) as (k' & Es & _). rewrite Ek in Es. simpl in Es.
    rewrite Hs in Es. by rewrite Es.
  - unfold u_never_need_root. simpl. rewrite Hru, id_not_unset by done. rewrite Ek1. simpl.
    assert (Ekr : ruid (`k0) = ruid (`k1)) by by rewrite Ek1, Ek. rewrite Ekr.
    destruct (posix_setuid_real k1) as (k' & -> & Ek'); [by rewrite Ek1|]. simpl.
    rewrite Ek'. simpl. rewrite Z.eqb_refl. simpl. do 2 eexists. split; [done|].
    rewrite Ek'. simpl. split; [done|]. split; [done|].
    destruct (posix_seteuid 0 k') as [[] k''] eqn:Es; [|done].
    apply try_set_cases in Es as [_ Hb]. rewrite Ek' in Hb. simpl in Hb. rewrite Ekr in Hr. lia.
Qed.

Lemma u_never_need_root_permanent_witness :
  ∃ v k k1, u_init_security security_init setuid_root = Ok (v, k) ∧ u_need_root true v k = Ok k1 ∧
    geteuid k1 = 0 ∧
    (∃ v' k', u_never_need_root v k = Ok (v', k') ∧ geteuid k' = 1000 ∧
       suid (`k') = 0 ∧ (seteuid 0 k').1 = true) ∧
    (∃ v' k', u_never_need_root v k1 = Ok (v', k') ∧ geteuid k' = 1000 ∧
       suid (`k') = 1000 ∧ (seteuid 0 k').1 = false).
Proof. by apply (u_never_need_root_permanent security_init setuid_root). Defined.
