(* ===== verification/Fnmatch.v ===== *)
(** * POSIX pattern matching ([u_fnmatch], [kfnmatch], [rangematch], [src/ulib/base/utility.c])

    The pattern and the string are memories [P] and [S] indexed from the pointers
    given to [u_fnmatch]; the static variables [end_p] and [end_s] are the indices
    [end_p] and [end_s]. *)

From S2P Require Import Prelude CType Match.

Definition FNM_PATHNAME : Z := 1.
Definition FNM_NOESCAPE : Z := 2.
Definition FNM_PERIOD : Z := 4.
Definition FNM_LEADING_DIR : Z := 8.

(** What a bracket expression gives: an error in it, no match, or a match and [newp]. *)
Inductive range_result := RangeError | RangeNo | RangeYes (newp : Z).

Section Fnmatch.
Context (P S : list Z) (end_p end_s : Z).

(** The [do] loop of [rangematch]; [c] is the character read, [pattern] the index after it.
    The characters are compared as plain [char]s. *)
Fixpoint range_loop (fuel : nat) (c pattern test flags : Z) (negate ok : bool) : res range_result :=
  match fuel with
  | O => Fail OutOfFuel
  | Datatypes.S fuel' =>
      esc ← (if (c =? CH "\") && negb (has_flag flags FNM_NOESCAPE)
             then x ← rd P pattern; Ok (x, pattern + 1) else Ok (c, pattern));
      let '(c, pattern) := esc in
      if end_p <? pattern then Ok RangeError
      else if (c =? CH "/") && has_flag flags FNM_PATHNAME then Ok RangeNo
      else
        let c := if has_flag flags FNM_CASEFOLD then u__tolower c else c in
        d ← rd P pattern;
        range ← (if d =? CH "-"
                 then c2 ← rd P (pattern + 1); Ok (negb (c2 =? CH "]") && negb (pattern + 1 =? end_p))
                 else Ok false);
        r ← (if range : bool then
               c2 ← rd P (pattern + 1);
               let pattern := pattern + 2 in
               e ← (if (c2 =? CH "\") && negb (has_flag flags FNM_NOESCAPE)
                    then x ← rd P pattern; Ok (x, pattern + 1) else Ok (c2, pattern));
               let '(c2, pattern) := e in
               if end_p <? pattern then Ok None
               else
                 let c2 := if has_flag flags FNM_CASEFOLD then u__tolower c2 else c2 in
                 Ok (Some (pattern, ok || ((schar c <=? schar test) && (schar test <=? schar c2))))
             else Ok (Some (pattern, ok || (c =? test))));
        match r with
        | None => Ok RangeError
        | Some (pattern, ok) =>
            c ← rd P pattern;
            let pattern := pattern + 1 in
            if negb (c =? CH "]") then range_loop fuel' c pattern test flags negate ok
            else Ok (if Bool.eqb ok negate then RangeNo else RangeYes pattern)
        end
  end.

Definition rangematch (pattern test flags : Z) : res range_result :=
  x ← rd P pattern;
  let negate := (x =? CH "!") || (x =? CH "^") in
  let pattern := if negate then pattern + 1 else pattern in
  let test := if has_flag flags FNM_CASEFOLD then u__tolower test else test in
  c ← rd P pattern;
  range_loop (length P) c (pattern + 1) test flags negate false.

(** [*string == '.' && (flags & FNM_PERIOD) && (string == stringstart || ...)] *)
Definition leading_period (x string stringstart flags : Z) : res bool :=
  if (x =? CH ".") && has_flag flags FNM_PERIOD then
    if string =? stringstart then Ok true
    else if has_flag flags FNM_PATHNAME then y ← rd S (string - 1); Ok (y =? CH "/")
    else Ok false
  else Ok false.

(** [c = *pattern; while (c == '*') c = *++pattern] *)
Fixpoint skip_stars (fuel : nat) (pattern : Z) : res (Z * Z) :=
  match fuel with
  | O => Fail OutOfFuel
  | Datatypes.S fuel' =>
      c ← rd P pattern;
      if c =? CH "*" then skip_stars fuel' (pattern + 1) else Ok (c, pattern)
  end.

Definition memchr_slash (string : Z) : res (option Z) :=
  r ← memchr (drop (Z.to_nat string) S) (CH "/") (Z.to_nat (end_s - string));
  Ok (fmap (M:=option) (Z.add string) r).

(** [while (string < end_s) { ...; ++string; } return 1]: [match_at] is the recursive
    call and [n] is [end_s - string]. *)
Fixpoint star_loop (match_at : Z → res Z) (flags : Z) (n : nat) (string : Z) : res Z :=
  match n with
  | O => Ok 1
  | Datatypes.S n' =>
      test ← rd S string;
      r ← match_at string;
      if r =? 0 then Ok 0
      else if (test =? CH "/") && has_flag flags FNM_PATHNAME then Ok 1
      else star_loop match_at flags n' (string + 1)
  end.

(** The label [norm]: [None] is a mismatch, [Some] the next position of the string. *)
Definition norm (c string flags : Z) : res (option Z) :=
  x ← rd S string;
  Ok (if (c =? x) || (has_flag flags FNM_CASEFOLD && (u__tolower c =? u__tolower x))
      then Some (string + 1) else None).

(** [kfnmatch]; each turn of its loop, and each recursive call, has one unit of fuel less. *)
Fixpoint kfnmatch (fuel : nat) (pattern string stringstart flags nesting : Z) : res Z :=
  if nesting =? 20 then Ok 1 else
  match fuel with
  | O => Fail OutOfFuel
  | Datatypes.S fuel' =>
      let again pattern string := kfnmatch fuel' pattern string stringstart flags nesting in
      let at_norm c pattern :=
        r ← norm c string flags;
        match r with Some string => again pattern string | None => Ok 1 end in
      c ← rd P pattern;
      let pattern := pattern + 1 in
      if end_p <? pattern then
        x ← (if has_flag flags FNM_LEADING_DIR then rd S string else Ok 0);
        if x =? CH "/" then Ok 0 else Ok (if string =? end_s then 0 else 1)
      else if c =? CH "?" then
        if string =? end_s then Ok 1
        else
          x ← rd S string;
          if (x =? CH "/") && has_flag flags FNM_PATHNAME then Ok 1
          else
            d ← leading_period x string stringstart flags;
            if d : bool then Ok 1 else again pattern (string + 1)
      else if c =? CH "*" then
        s ← skip_stars (length P) pattern;
        let '(c, pattern) := s in
        x ← rd S string;
        d ← leading_period x string stringstart flags;
        if d : bool then Ok 1
        else if pattern =? end_p then
          if has_flag flags FNM_PATHNAME then
            if has_flag flags FNM_LEADING_DIR then Ok 0
            else m ← memchr_slash string; Ok (match m with None => 0 | Some _ => 1 end)
          else Ok 0
        else if (c =? CH "/") && has_flag flags FNM_PATHNAME then
          m ← memchr_slash string;
          match m with None => Ok 1 | Some string => again pattern string end
        else
          star_loop (λ string, kfnmatch fuel' pattern string string
                       (Z.land flags (Z.lnot FNM_PERIOD)) (nesting + 1))
            flags (Z.to_nat (end_s - string)) string
      else if c =? CH "[" then
        if string =? end_s then Ok 1
        else
          x ← rd S string;
          if (x =? CH "/") && has_flag flags FNM_PATHNAME then Ok 1
          else
            d ← leading_period x string stringstart flags;
            if d : bool then Ok 1
            else
              r ← rangematch pattern x flags;
              match r with
              | RangeError => at_norm c pattern
              | RangeYes newp => again newp (string + 1)
              | RangeNo => Ok 1
              end
      else if c =? CH "\" then
        if negb (has_flag flags FNM_NOESCAPE) then
          e ← rd P pattern;
          if end_p <? pattern + 1 then at_norm (CH "\") pattern else at_norm e (pattern + 1)
        else at_norm c pattern
      else at_norm c pattern
  end.
End Fnmatch.

Definition u_fnmatch (string : list Z) (n1 : Z) (pattern : list Z) (n2 flags : Z) : res bool :=
  result ← kfnmatch pattern string n2 n1 (Datatypes.S (length pattern)) 0 0 0 flags 0;
  Ok (if has_flag flags FNM_INVERT then negb (result =? 0) else result =? 0).

(** ** Agreement with the wildcard relation, for patterns without brackets and backslashes *)

Lemma rd_middle {A} (a : list A) x b : rd (a ++ x :: b) (Z.of_nat (length a)) = Ok x.
Proof. apply rd_lookup. by rewrite list_lookup_middle. Qed.

(** The flags of interest; the recursive call clears [FNM_PERIOD], which changes nothing. *)
Definition plain_flags (flags : Z) : Prop :=
  has_flag flags FNM_PATHNAME = false ∧ has_flag flags FNM_PERIOD = false ∧
  has_flag flags FNM_LEADING_DIR = false.

Lemma has_flag_clear flags m :
  Z.land (Z.lnot FNM_PERIOD) m = m →
  has_flag (Z.land flags (Z.lnot FNM_PERIOD)) m = has_flag flags m.
Proof. intros Hm. unfold has_flag. by rewrite <- Z.land_assoc, Hm. Qed.

Lemma plain_flags_clear flags : plain_flags flags → plain_flags (Z.land flags (Z.lnot FNM_PERIOD)).
Proof.
  intros (H1 & H2 & H3). split; [by rewrite has_flag_clear|]. split; [|by rewrite has_flag_clear].
  unfold has_flag. rewrite <- Z.land_assoc.
  change (Z.land (Z.lnot FNM_PERIOD) FNM_PERIOD) with 0. by rewrite Z.land_0_r.
Qed.

Lemma leading_period_off S x i ss flags :
  plain_flags flags → leading_period S x i ss flags = Ok false.
Proof. intros (_ & H & _). unfold leading_period. rewrite H. by rewrite andb_false_r. Qed.

Definition plain_pattern (p : list Z) : Prop :=
  Forall (λ c, is_byte c ∧ c ≠ 0 ∧ c ≠ CH "[" ∧ c ≠ CH "\") p.

Fixpoint count_stars (p : list Z) : nat :=
  match p with [] => O | c :: p' => (Nat.b2n (c =? CH "*")%Z + count_stars p')%nat end.

Lemma wild_stars_collapse ic k q t :
  wild ic (CH "*" :: replicate k (CH "*") ++ q) t ↔ ∃ u, u `suffix_of` t ∧ wild ic q u.
Proof.
  revert t. induction k as [|k IH]; intros t; simpl; [apply wild_star_iff|].
  rewrite wild_star_iff. split.
  - intros (u & Hu & H). apply IH in H as (v & Hv & H). exists v. split; [by etrans|done].
  - intros (u & Hu & H). exists t. split; [done|]. apply IH. eauto.
Qed.

(** A pattern is stars, then something that does not start with one. *)
Lemma split_stars q :
  ∃ k q', q = replicate k (CH "*") ++ q' ∧ head q' ≠ Some (CH "*").
Proof.
  induction q as [|c q (k & q' & -> & Hq)]; [by exists O, []|].
  destruct (decide (c = CH "*")) as [->|Hc]; [by exists (Datatypes.S k), q'|].
  exists O, (c :: replicate k (CH "*") ++ q'). split; [done|]. simpl. congruence.
Qed.

Lemma count_stars_app p q : count_stars (p ++ q) = (count_stars p + count_stars q)%nat.
Proof. induction p; simpl; [done|]. lia. Qed.

Lemma skip_stars_spec k : ∀ fuel pre q rest,
  head q ≠ Some (CH "*") → (k < fuel)%nat →
  skip_stars (pre ++ replicate k (CH "*") ++ q ++ 0 :: rest) fuel (Z.of_nat (length pre))
  = Ok (match q with [] => 0 | c :: _ => c end, Z.of_nat (length pre + k)).
Proof.
  induction k as [|k IH]; intros [|fuel] pre q rest Hq Hf; try lia; simpl.
  - rewrite Nat.add_0_r. destruct q as [|c q]; simpl; rewrite rd_middle; simpl; [done|].
    simpl in Hq. destruct (Z.eqb_spec c 42); [congruence|done].
  - rewrite rd_middle. simpl. rewrite cons_middle, app_assoc.
    replace (Z.of_nat (length pre) + 1) with (Z.of_nat (length (pre ++ [42])))
      by (rewrite length_app; simpl; lia).
    rewrite IH by (done || lia). rewrite length_app. simpl. do 3 f_equal. lia.
Qed.

(** The loop after a star tries every non-empty suffix. *)
Lemma star_loop_spec S (match_at : Z → res Z) flags (Q : list Z → Prop) srest t : ∀ spre,
  has_flag flags FNM_PATHNAME = false →
  S = spre ++ t ++ 0 :: srest →
  (∀ a u, t = a ++ u → u ≠ [] → ∃ r, match_at (Z.of_nat (length spre + length a)) = Ok r ∧ (r = 0 ↔ Q u)) →
  ∃ r, star_loop S match_at flags (length t) (Z.of_nat (length spre)) = Ok r ∧
    (r = 0 ∨ r = 1) ∧ (r = 0 ↔ ∃ u, u `suffix_of` t ∧ u ≠ [] ∧ Q u).
Proof.
  induction t as [|x t IH]; intros spre Hfl HS Hm.
  - exists 1. split; [done|]. split; [by right|]. split; [done|].
    intros (u & Hu%suffix_nil_inv & Hne & _). done.
  - assert (Hrd : rd S (Z.of_nat (length spre)) = Ok x) by (rewrite HS; simpl; apply rd_middle).
    simpl. rewrite Hrd. simpl.
    destruct (Hm [] (x :: t)) as (r & Hr & HrQ); [done|done|]. rewrite Nat.add_0_r in Hr. rewrite Hr. simpl.
    destruct (Z.eqb_spec r 0) as [->|Hr0].
    + exists 0. split; [done|]. split; [by left|]. split; [|done]. intros _. exists (x :: t).
      split; [done|]. split; [done|]. by apply HrQ.
    + rewrite Hfl, andb_false_r.
      replace (Z.of_nat (length spre) + 1) with (Z.of_nat (length (spre ++ [x])))
        by (rewrite length_app; simpl; lia).
      destruct (IH (spre ++ [x])) as (r' & Hr' & H01 & HrQ'); [done|by rewrite <- app_assoc| |].
      * intros a u -> Hu. destruct (Hm (x :: a) u) as (r1 & Hr1 & HQ1); [done|done|].
        exists r1. split; [|done]. rewrite <- Hr1. f_equal. rewrite length_app. simpl. lia.
      * rewrite Hr'. exists r'. split; [done|]. split; [done|]. rewrite HrQ'. split.
        -- intros (u & Hu & ? & ?). exists u. split; [by apply suffix_cons_r|done].
        -- intros (u & [[|b a] E] & Hne & HQ); simpl in E; simplify_eq.
           ++ apply HrQ in HQ. done.
           ++ exists u. split; [by exists a|done].
Qed.

Lemma has_casefold_fold flags c d :
  ((c =? d) || (has_flag flags FNM_CASEFOLD && (u__tolower c =? u__tolower d)))
  = (dos_fold (has_flag flags FNM_IGNORECASE) c =? dos_fold (has_flag flags FNM_IGNORECASE) d).
Proof.
  change FNM_IGNORECASE with FNM_CASEFOLD. destruct (has_flag flags FNM_CASEFOLD); simpl.
  - destruct (Z.eqb_spec c d) as [->|]; simpl; [by rewrite Z.eqb_refl|done].
  - by rewrite orb_false_r.
Qed.

Section Plain.
Context (p s rest srest : list Z).
Context (Hp : plain_pattern p) (Hs : no_char 0 s).
#[local] Abbreviation P := (p ++ 0 :: rest).
#[local] Abbreviation S := (s ++ 0 :: srest).
#[local] Abbreviation kfn := (kfnmatch P S (Z.of_nat (length p)) (Z.of_nat (length s))).

(** The statement about a call at a position of the pattern and one of the string. *)
Definition agrees (fuel : nat) (q t : list Z) : Prop := ∀ pre spre ss flags nesting,
  p = pre ++ q → s = spre ++ t → plain_flags flags → 0 <= nesting →
  nesting + Z.of_nat (count_stars q) < 20 →
  ∃ r, kfn fuel (Z.of_nat (length pre)) (Z.of_nat (length spre)) ss flags nesting = Ok r ∧
    (r = 0 ∨ r = 1) ∧ (r = 0 ↔ wild (has_flag flags FNM_IGNORECASE) q t).

(** Going on with the next characters. *)
Lemma agrees_next fuel q t c d : agrees fuel q t → ∀ pre spre ss flags nesting,
  p = pre ++ c :: q → s = spre ++ d :: t → plain_flags flags → 0 <= nesting →
  nesting + Z.of_nat (count_stars q) < 20 →
  ∃ r, kfn fuel (Z.of_nat (length pre) + 1) (Z.of_nat (length spre) + 1) ss flags nesting = Ok r ∧
    (r = 0 ∨ r = 1) ∧ (r = 0 ↔ wild (has_flag flags FNM_IGNORECASE) q t).
Proof.
  intros H pre spre ss flags nesting E1 E2 Hfl Hn Hst.
  replace (Z.of_nat (length pre) + 1) with (Z.of_nat (length (pre ++ [c])))
    by (rewrite length_app; simpl; lia).
  replace (Z.of_nat (length spre) + 1) with (Z.of_nat (length (spre ++ [d])))
    by (rewrite length_app; simpl; lia).
  apply H; try done; by rewrite <- app_assoc.
Qed.

Lemma rd_string spre t : s = spre ++ t →
  rd S (Z.of_nat (length spre)) = Ok (match t with [] => 0 | d :: _ => d end).
Proof. intros ->. rewrite <- app_assoc. destruct t; simpl; apply rd_middle. Qed.

Lemma at_end spre t : s = spre ++ t →
  (Z.of_nat (length spre) =? Z.of_nat (length s)) = bool_decide (t = []).
Proof.
  intros ->. rewrite length_app. destruct t; simpl.
  - rewrite Nat.add_0_r. by rewrite Z.eqb_refl.
  - etrans; [apply Z.eqb_neq; lia|done].
Qed.

(** A character other than a star, against the next one of the string. *)
Lemma agrees_char fuel c q t :
  (∀ t, agrees fuel q t) → is_byte c → c ≠ 0 → c ≠ CH "*" → c ≠ CH "[" → c ≠ CH "\" →
  agrees (Datatypes.S fuel) (c :: q) t.
Proof.
  intros IH Hc H0 Hst Hbr Hbs pre spre ss flags nesting E1 E2 Hfl Hn Hlt.
  assert (Hic : ∀ d u, t = d :: u → wild (has_flag flags FNM_IGNORECASE) (c :: q) t ↔
    char_matches (has_flag flags FNM_IGNORECASE) c d ∧ wild (has_flag flags FNM_IGNORECASE) q u).
  { intros d u ->. split; [|intros []; by constructor].
    by intros (d' & s' & [= <- <-] & ? & ?)%wild_char_inv. }
  assert (Hbt : bytes t).
  { apply no_char_bytes in Hs. rewrite E2 in Hs. by apply Forall_app in Hs as [_ ?]. }
  assert (Hnil : t = [] → ¬ wild (has_flag flags FNM_IGNORECASE) (c :: q) t).
  { intros ->. by intros (d & u & ? & _)%wild_char_inv. }
  assert (Hstc : count_stars (c :: q) = count_stars q).
  { simpl. apply Z.eqb_neq in Hst. by rewrite Hst. }
  cbn [kfnmatch]. destruct (Z.eqb_spec nesting 20); [lia|].
  assert (HrP : rd P (Z.of_nat (length pre)) = Ok c).
  { rewrite E1, <- app_assoc. apply rd_middle. }
  rewrite HrP. cbn [mbind res_bind].
  destruct (Z.ltb_spec (Z.of_nat (length p)) (Z.of_nat (length pre) + 1)) as [Hbad|_].
  { rewrite E1, length_app in Hbad. simpl in Hbad. lia. }
  destruct (Z.eqb_spec c 63) as [->|Hq].
  - rewrite (at_end _ _ E2). case_bool_decide as Ht.
    + exists 1. split; [done|]. split; [by right|]. split; [done|]. by intros ?%Hnil.
    + destruct t as [|d t]; [done|]. rewrite (rd_string _ _ E2). cbn [mbind res_bind].
      rewrite (proj1 Hfl), andb_false_r, leading_period_off by done. cbn [mbind res_bind].
      assert (Hiff := Hic _ _ eq_refl). destruct (agrees_next fuel q t 63 d (IH t) pre spre ss flags nesting)
        as (r & Hr & H01 & Hw); try done.
      exists r. split; [done|]. split; [done|]. rewrite Hiff, Hw. split; [|by intros []].
      intros ?. split; [by left|done].
  - apply Z.eqb_neq in Hst, Hbr, Hbs. rewrite Hst, Hbr, Hbs. unfold norm. rewrite (rd_string _ _ E2).
    cbn [mbind res_bind]. rewrite has_casefold_fold. destruct t as [|d t].
    + destruct (Z.eqb_spec (dos_fold (has_flag flags FNM_IGNORECASE) c)
        (dos_fold (has_flag flags FNM_IGNORECASE) 0)) as [E|_].
      { exfalso. apply H0, (fold_zero (has_flag flags FNM_IGNORECASE)); [done|].
        rewrite E. by destruct (has_flag flags FNM_IGNORECASE). }
      exists 1. split; [done|]. split; [by right|]. split; [done|]. by intros ?%Hnil.
    + assert (Hiff := Hic _ _ eq_refl). unfold char_matches in Hiff.
      destruct (Z.eqb_spec (dos_fold (has_flag flags FNM_IGNORECASE) c)
        (dos_fold (has_flag flags FNM_IGNORECASE) d)) as [E|E].
      * destruct (agrees_next fuel q t c d (IH t) pre spre ss flags nesting)
          as (r & Hr & H01 & Hw); try done; [lia|].
        exists r. split; [done|]. split; [done|]. rewrite Hiff, Hw. split; [|by intros []].
        intros ?. split; [by right|done].
      * exists 1. split; [done|]. split; [by right|]. split; [done|]. intros [[?|?] _]%Hiff; done.
Qed.

(** A star, with the ones after it. *)
Lemma agrees_star fuel q t :
  (∀ k q' u, q = replicate k (CH "*") ++ q' → agrees fuel q' u) →
  agrees (Datatypes.S fuel) (CH "*" :: q) t.
Proof.
  intros IH pre spre ss flags nesting E1 E2 Hfl Hn Hlt.
  destruct (split_stars q) as (k & q' & Eq & Hhd). cbn [kfnmatch].
  destruct (Z.eqb_spec nesting 20); [lia|].
  assert (HrP : rd P (Z.of_nat (length pre)) = Ok (CH "*")).
  { rewrite E1, <- app_assoc. apply rd_middle. }
  rewrite HrP. cbn [mbind res_bind].
  destruct (Z.ltb_spec (Z.of_nat (length p)) (Z.of_nat (length pre) + 1)) as [Hbad|_].
  { rewrite E1, length_app in Hbad. simpl in Hbad. lia. }
  change (42 =? 63) with false. change (42 =? 42) with true. cbv iota.
  assert (EP : P = (pre ++ [42]) ++ replicate k 42 ++ q' ++ 0 :: rest).
  { rewrite E1, Eq, <- !app_assoc. simpl. by rewrite <- app_assoc. }
  assert (Hskip : skip_stars P (length P) (Z.of_nat (length pre) + 1)
    = Ok (match q' with [] => 0 | c :: _ => c end, Z.of_nat (length pre + 1 + k))).
  { replace (Z.of_nat (length pre) + 1) with (Z.of_nat (length (pre ++ [42])))
      by (rewrite length_app; simpl; lia).
    rewrite EP, skip_stars_spec; [by rewrite length_app|done|].
    rewrite !length_app, length_replicate. simpl. lia. }
  rewrite Hskip. cbn [mbind res_bind]. rewrite (rd_string _ _ E2). cbn [mbind res_bind].
  rewrite leading_period_off by done. cbn [mbind res_bind].
  assert (Hwild := wild_stars_collapse (has_flag flags FNM_IGNORECASE) k q' t). rewrite <- Eq in Hwild.
  destruct Hfl as (Hpath & Hper & Hlead).
  destruct q' as [|c q'].
  - assert (Hend : (Z.of_nat (length pre + 1 + k) =? Z.of_nat (length p)) = true).
    { apply Z.eqb_eq. rewrite E1, Eq, !length_app. simpl. rewrite length_app, length_replicate. simpl. lia. }
    rewrite Hend, Hpath. exists 0. split; [done|]. split; [by left|]. split; [|done]. intros _.
    apply Hwild. exists []. split; [apply suffix_nil|constructor].
  - assert (Hend : (Z.of_nat (length pre + 1 + k) =? Z.of_nat (length p)) = false).
    { apply Z.eqb_neq. rewrite E1, Eq, !length_app. simpl. rewrite length_app, length_replicate. simpl. lia. }
    rewrite Hend, Hpath, andb_false_r.
    replace (Z.to_nat (Z.of_nat (length s) - Z.of_nat (length spre))) with (length t)
      by (rewrite E2, length_app; lia).
    simpl in Hhd. assert (Hc : c ≠ CH "*") by congruence.
    destruct (star_loop_spec S (λ string, kfn fuel (Z.of_nat (length pre + 1 + k)) string string
        (Z.land flags (Z.lnot FNM_PERIOD)) (nesting + 1)) flags
        (wild (has_flag flags FNM_IGNORECASE) (c :: q')) srest t spre) as (r & Hr & H01 & Hw).
    + done.
    + by rewrite E2, <- app_assoc.
    + intros a u Eu _.
      destruct (IH k (c :: q') u Eq (pre ++ [42] ++ replicate k 42) (spre ++ a)
        (Z.of_nat (length spre + length a)) (Z.land flags (Z.lnot FNM_PERIOD)) (nesting + 1))
        as (r & Hr & _ & Hw).
      * rewrite E1, Eq, <- !app_assoc. done.
      * by rewrite E2, Eu, <- app_assoc.
      * by apply plain_flags_clear.
      * lia.
      * rewrite Eq in Hlt. cbn [count_stars] in Hlt. rewrite count_stars_app in Hlt.
        cbn [count_stars] in Hlt |- *. simpl in Hlt. lia.
      * exists r. rewrite !length_app, length_replicate in Hr. cbn [length] in Hr.
        rewrite Nat.add_assoc in Hr. split; [exact Hr|]. rewrite Hw.
        change FNM_IGNORECASE with FNM_CASEFOLD. by rewrite has_flag_clear.
    + exists r. split; [done|]. split; [done|]. rewrite Hw, Hwild. split.
      * intros (u & ? & _ & ?). eauto.
      * intros (u & ? & H). exists u. split; [done|]. split; [|done]. intros ->.
        by apply wild_char_inv in H as (? & ? & ? & _).
Qed.

Lemma kfnmatch_agrees fuel : ∀ q t, (length q < fuel)%nat → (∃ pre, p = pre ++ q) → agrees fuel q t.
Proof.
  induction fuel as [|fuel IH]; intros q t Hf Hsuf; [lia|]. destruct q as [|c q].
  - intros pre spre ss flags nesting E1 E2 Hfl Hn Hlt. cbn [kfnmatch].
    destruct (Z.eqb_spec nesting 20); [simpl in Hlt; lia|]. rewrite app_nil_r in E1. subst pre.
    rewrite rd_middle. cbn [mbind res_bind].
    destruct (Z.ltb_spec (Z.of_nat (length p)) (Z.of_nat (length p) + 1)); [|lia].
    rewrite (proj2 (proj2 Hfl)). cbn [mbind res_bind]. change (0 =? 47) with false. cbv iota.
    rewrite (at_end _ _ E2). case_bool_decide as Ht.
    + exists 0. split; [done|]. split; [by left|]. split; [|done]. intros _. subst t. constructor.
    + exists 1. split; [done|]. split; [by right|]. split; [done|]. by intros ?%wild_nil_inv.
  - destruct Hsuf as [pre Epre]. assert (Hsub := Hp). unfold plain_pattern in Hsub. rewrite Epre in Hsub.
    apply Forall_app in Hsub as [_ Hsub]. apply Forall_cons in Hsub as [(Hc & H0 & Hbr & Hbs) _].
    simpl in Hf. destruct (decide (c = CH "*")) as [->|Hst].
    + apply agrees_star. intros k q' u ->. apply IH.
      * rewrite length_app in Hf. lia.
      * exists (pre ++ CH "*" :: replicate k (CH "*")). by rewrite Epre, <- app_assoc.
    + apply agrees_char; [|done..]. intros u. apply IH; [lia|].
      exists (pre ++ [c]). by rewrite Epre, <- app_assoc.
Qed.
End Plain.

(** ** Property *)

(** C35: on patterns made of stars, question marks and other characters than brackets and backslashes, with
    fewer than 20 stars and no flag but case folding and inversion, the recursive POSIX matcher
    and the backtracking matcher give the same answer, the one of the wildcard relation. *)
Theorem u_fnmatch_agrees_dosmatch p s rest srest flags :
  plain_pattern p → no_char 0 s → plain_flags flags → (count_stars p < 20)%nat →
  ∃ b, u_fnmatch (s ++ 0 :: srest) (Z.of_nat (length s)) (p ++ 0 :: rest) (Z.of_nat (length p)) flags = Ok b ∧
    u_dosmatch s (p ++ 0 :: rest) (length p) flags = Ok b ∧
    (xorb (has_flag flags FNM_INVERT) b = true ↔ wild (has_flag flags FNM_IGNORECASE) p s).
Proof.
  intros Hp Hs Hfl Hst.
  destruct (kfnmatch_agrees p s rest srest Hp Hs (Datatypes.S (length (p ++ 0 :: rest))) p s)
    with (pre := @nil Z) (spre := @nil Z) (ss := 0) (flags := flags) (nesting := 0)
    as (r & Hr & H01 & Hw); [rewrite length_app; lia|by exists []|done|done|done|lia|lia|].
  destruct (u_dosmatch_wild (has_flag flags FNM_IGNORECASE) 0 rest) with (s := s) (p := p) (flags := flags)
    as (b & Hb & Hbw); [split; [unfold is_byte|]; lia|done|by apply free_nul| |].
  { eapply Forall_impl; [exact Hp|]. by intros c [? _]. }
  exists (xorb (has_flag flags FNM_INVERT) b). split; [|split; [done|]].
  - unfold u_fnmatch. change (Z.of_nat (length (@nil Z))) with 0 in Hr. rewrite Hr. cbn [mbind res_bind]. f_equal.
    assert (E : (r =? 0) = b).
    { destruct b; [apply Z.eqb_eq, Hw; by apply Hbw|]. apply Z.eqb_neq. intros ->.
      assert (Hf : false = true) by (apply Hbw, Hw; done). done. }
    rewrite E. by destruct (has_flag flags FNM_INVERT), b.
  - rewrite <- Hbw. by destruct (has_flag flags FNM_INVERT), b.
Qed.

Lemma u_fnmatch_agrees_dosmatch_witness :
  ∃ b, u_fnmatch (BS "Main.C" ++ [0]) 6 (BS "m*.?" ++ [0]) 4 FNM_CASEFOLD = Ok b ∧
    u_dosmatch (BS "Main.C") (BS "m*.?" ++ [0]) 4 FNM_CASEFOLD = Ok b ∧
    (b = true ↔ wild true (BS "m*.?") (BS "Main.C")).
Proof.
  destruct (u_fnmatch_agrees_dosmatch (BS "m*.?") (BS "Main.C") [] [] FNM_CASEFOLD) as (b & H1 & H2 & H3).
  - repeat constructor; try (unfold is_byte; lia); done.
  - repeat constructor; try (unfold is_byte; lia); done.
  - repeat split.
  - simpl. lia.
  - exists b. split; [exact H1|]. split; [exact H2|]. by destruct b.
Defined.
