(* ===== verification/Time.v ===== *)
(** * Calendar time ([src/ulib/replace/gmtime.c], [src/ulib/base/zip/dostime.c])

    [gmtime_r] is the replacement for platforms without it; its loops count years, months,
    days, hours and minutes off. The functions of [dostime.c] pack and unpack the fields of
    a [struct tm]; the conversions of the C library they call are parameters. *)

From S2P Require Import Prelude.

Record tm := Tm {
  tm_sec : Z; tm_min : Z; tm_hour : Z; tm_mday : Z; tm_mon : Z; tm_year : Z;
  tm_wday : Z; tm_yday : Z; tm_isdst : Z }.

#[global] Instance tm_eq_dec : EqDecision tm.
Proof. solve_decision. Defined.

Definition SECS_PER_MINUTE : Z := 60.
Definition SECS_PER_HOUR : Z := 60 * SECS_PER_MINUTE.
Definition SECS_PER_DAY : Z := 24 * SECS_PER_HOUR.
Definition SECS_PER_YEAR : Z := 365 * SECS_PER_DAY.
Definition SECS_PER_LEAP : Z := SECS_PER_YEAR + SECS_PER_DAY.

(** [year] counts from 1900; the remainders are taken on [unsigned int]s. *)
Definition is_leap (year : Z) : bool :=
  let year := u32 (year + 1900) in
  if year mod 100 =? 0 then year mod 400 =? 0 else year mod 4 =? 0.

Definition __days_per_month : list Z := [31; 28; 31; 30; 31; 30; 31; 31; 30; 31; 30; 31].

Definition secs_of_year (year : Z) : Z := if is_leap year then SECS_PER_LEAP else SECS_PER_YEAR.

(** The two loops over the years; the state is [t] and [tm_year]. *)
Definition year_up (st : Z * Z) : res (Z * Z + Z * Z) :=
  let '(t, year) := st in
  let secs_this_year := secs_of_year year in
  Ok (if secs_this_year <=? t then inl (t - secs_this_year, year + 1) else inr st).

Definition year_down (st : Z * Z) : res (Z * Z + Z * Z) :=
  let '(t, year) := st in
  Ok (if t <? 0 then let year := year - 1 in inl (t + secs_of_year year, year) else inr st).

(** The loop over the months; the state is [t] and [tm_mon]. *)
Definition month_up (days : list Z) (st : Z * Z) : res (Z * Z + Z * Z) :=
  let '(t, mon) := st in
  d ← rd days mon;
  Ok (if d * SECS_PER_DAY <=? t then inl (t - d * SECS_PER_DAY, mon + 1) else inr st).

(** [while (t >= unit) { t -= unit; n++; }] *)
Definition count_up (unit : Z) (st : Z * Z) : res (Z * Z + Z * Z) :=
  let '(t, n) := st in
  Ok (if unit <=? t then inl (t - unit, n + 1) else inr st).

Definition years_fuel (t : Z) : nat := Z.to_nat (Z.abs t / SECS_PER_YEAR + 3).

(** The static table is changed for a leap year and restored; here a copy is. *)
Definition month_table (year : Z) : list Z :=
  if is_leap year then <[1%nat := 29]> __days_per_month else __days_per_month.

Definition gmtime_r (tp : Z) : res tm :=
  let wday := Z.rem (Z.quot tp SECS_PER_DAY + 4) 7 in
  r ← iterate (years_fuel tp) year_up (tp, 70);
  r ← iterate (years_fuel tp) year_down r;
  let '(t, year) := r in
  let yday := Z.quot t SECS_PER_DAY in
  r ← iterate 13 (month_up (month_table year)) (t, 0);
  let '(t, mon) := r in
  r ← iterate 32 (count_up SECS_PER_DAY) (t, 1);
  let '(t, mday) := r in
  r ← iterate 25 (count_up SECS_PER_HOUR) (t, 0);
  let '(t, hour) := r in
  r ← iterate 61 (count_up SECS_PER_MINUTE) (t, 0);
  let '(t, min) := r in
  Ok (Tm t min hour mday mon year wday yday (-1)).

(** ** DOS time *)

Definition dos2unixtime (localtime : Z → tm) (mktime : tm → Z) (now dostime : Z) : Z :=
  let ltime := localtime now in
  mktime (Tm (Z.shiftl (Z.land dostime 0x1f) 1) (Z.land (Z.shiftr dostime 5) 0x3f)
    (Z.land (Z.shiftr dostime 11) 0x0f) (Z.land (Z.shiftr dostime 16) 0x1f)
    (Z.land (Z.shiftr dostime 21) 0x0f - 1)
    (i32 (Z.shiftr dostime 25 + 80)) (-1) (-1) (-1)).

(** The shifts are those of [int]; the result is converted to [unsigned long]. *)
Definition unix2dostime (localtime : Z → tm) (time : Z) : Z :=
  let ltime := localtime time in
  let year := tm_year ltime - 80 in
  let year := if year <? 0 then 0 else year in
  u64 (i32 (Z.lor (Z.lor (Z.lor (Z.lor (Z.lor (Z.shiftl year 25) (Z.shiftl (tm_mon ltime + 1) 21))
    (Z.shiftl (tm_mday ltime) 16)) (Z.shiftl (tm_hour ltime) 11)) (Z.shiftl (tm_min ltime) 5))
    (Z.shiftr (tm_sec ltime) 1))).

(** ** Reference: the proleptic Gregorian calendar, years counted from 0 *)

Definition leap_year (y : Z) : Prop := y mod 4 = 0 ∧ (y mod 100 ≠ 0 ∨ y mod 400 = 0).

(** Days from the first of January 1970 to that of year [y]. *)
Definition days_to_year (y : Z) : Z :=
  365 * (y - 1970) + ((y - 1) / 4 - (y - 1) / 100 + (y - 1) / 400) - 477.

Definition days_of_month (y m : Z) : Z :=
  if m =? 1 then if bool_decide (y mod 4 = 0 ∧ (y mod 100 ≠ 0 ∨ y mod 400 = 0)) then 29 else 28
  else if (m =? 3) || (m =? 5) || (m =? 8) || (m =? 10) then 30 else 31.

(** Days of the year before month [m]. *)
Definition days_to_month (y m : Z) : Z := foldr Z.add 0 (map (days_of_month y) (seqZ 0 m)).

(** The broken-down time [x] stands for the instant [t], in range. *)
Definition stands_for (x : tm) (t : Z) : Prop :=
  let y := tm_year x + 1900 in
  0 <= tm_sec x < 60 ∧ 0 <= tm_min x < 60 ∧ 0 <= tm_hour x < 24 ∧ 0 <= tm_mon x < 12 ∧
  1 <= tm_mday x <= days_of_month y (tm_mon x) ∧
  tm_yday x = days_to_month y (tm_mon x) + tm_mday x - 1 ∧
  t = ((days_to_year y + tm_yday x) * 24 + tm_hour x) * 3600 + tm_min x * 60 + tm_sec x.

(** ** Lemmas *)

Arguments SECS_PER_DAY : simpl never.
Arguments days_to_year : simpl never.
Arguments secs_of_year : simpl never.

Lemma is_leap_correct year : 0 <= year + 1900 < 2 ^ 32 → is_leap year = true ↔ leap_year (year + 1900).
Proof.
  intros Hy. unfold is_leap, leap_year. rewrite u32_small by done. generalize (year + 1900). intros y.
  destruct (Z.eqb_spec (y mod 100) 0) as [H1|H1];
    [destruct (Z.eqb_spec (y mod 400) 0)|destruct (Z.eqb_spec (y mod 4) 0)];
    (split; [intros|]); Z.div_mod_to_equations; lia.
Qed.

Lemma secs_of_year_correct year :
  0 <= year + 1900 < 2 ^ 32 →
  secs_of_year year = (days_to_year (year + 1901) - days_to_year (year + 1900)) * 86400.
Proof.
  intros Hy. assert (Hl := is_leap_correct year Hy). unfold secs_of_year, leap_year, days_to_year in *.
  change SECS_PER_LEAP with (366 * 86400). change SECS_PER_YEAR with (365 * 86400).
  destruct (is_leap year).
  - destruct (proj1 Hl eq_refl) as [H1 H2]. Z.div_mod_to_equations. lia.
  - assert (Hn : ¬ ((year + 1900) mod 4 = 0 ∧ ((year + 1900) mod 100 ≠ 0 ∨ (year + 1900) mod 400 = 0)))
      by (intros Hn; apply Hl in Hn; done).
    clear Hl. Z.div_mod_to_equations. lia.
Qed.

Lemma secs_of_year_pos year : 31536000 <= secs_of_year year <= 31622400.
Proof.
  unfold secs_of_year. change SECS_PER_LEAP with 31622400. change SECS_PER_YEAR with 31536000.
  case_match; lia.
Qed.

Lemma days_to_year_bounds y :
  (1970 <= y → 365 * (y - 1970) <= days_to_year y) ∧ (y <= 0 → days_to_year y <= days_to_year 0).
Proof. unfold days_to_year. split; intros; Z.div_mod_to_equations; lia. Qed.

Lemma year_measure a b : 31536000 <= a → b <= a - 31536000 → (Z.to_nat (b / SECS_PER_YEAR) < Z.to_nat (a / SECS_PER_YEAR))%nat.
Proof.
  intros Ha Hb. change SECS_PER_YEAR with 31536000.
  assert (1 <= a / 31536000) by (apply Z.div_le_lower_bound; lia).
  assert (b / 31536000 < a / 31536000); [|lia].
  apply Z.lt_le_trans with ((a - 31536000) / 31536000 + 1);
    [|replace (a - 31536000) with (a + (-1) * 31536000) by lia; rewrite Z.div_add by lia; lia].
  assert (b / 31536000 <= (a - 31536000) / 31536000) by (apply Z.div_le_mono; lia). lia.
Qed.

Lemma year_up_ok tp :
  tp < 2 ^ 55 →
  ∃ t year, iterate (years_fuel tp) year_up (tp, 70) = Ok (t, year) ∧
    tp = days_to_year (year + 1900) * 86400 + t ∧ 70 <= year < 2 ^ 31 ∧ t < secs_of_year year ∧
    (0 <= t ∨ year = 70).
Proof.
  intros Htp.
  edestruct (iterate_total year_up
    (λ s, tp = days_to_year (s.2 + 1900) * 86400 + s.1 ∧ 70 <= s.2 ∧ (0 <= s.1 ∨ s.2 = 70))
    (λ s, tp = days_to_year (s.2 + 1900) * 86400 + s.1 ∧ 70 <= s.2 < 2 ^ 31 ∧
          s.1 < secs_of_year s.2 ∧ (0 <= s.1 ∨ s.2 = 70))
    (λ s, Z.to_nat (s.1 / SECS_PER_YEAR))) with (n := years_fuel tp) (s := (tp, 70))
    as ([t y] & E & Hr).
  - intros [t y] (E & Hy & Ht). simpl in *. assert (Hb := days_to_year_bounds (y + 1900)).
    assert (Hb2 : y < 2 ^ 31) by lia.
    assert (Hs := secs_of_year_pos y). zcases.
    + assert (Hc := secs_of_year_correct y ltac:(lia)).
      simpl. replace (y + 1 + 1900) with (y + 1901) by lia. splits; [lia..|].
      apply year_measure; lia.
    + simpl. lia.
  - cbn [fst snd]. change (days_to_year (70 + 1900)) with 0. lia.
  - simpl. unfold years_fuel. change SECS_PER_YEAR with 31536000. Z.div_mod_to_equations; lia.
  - exists t, y. simpl in *. tauto.
Qed.

Lemma year_down_ok tp t0 y0 :
  days_to_year 0 * 86400 <= tp → tp = days_to_year (y0 + 1900) * 86400 + t0 →
  y0 + 1900 < 2 ^ 32 → - 1900 <= y0 → t0 < secs_of_year y0 → (0 <= t0 ∨ t0 = tp) →
  ∃ t year, iterate (years_fuel tp) year_down (t0, y0) = Ok (t, year) ∧
    tp = days_to_year (year + 1900) * 86400 + t ∧ 0 <= year + 1900 < 2 ^ 32 ∧
    0 <= t < secs_of_year year.
Proof.
  intros Htp E0 Hy0 Hy1 Ht0 Hpos.
  edestruct (iterate_total year_down
    (λ s, tp = days_to_year (s.2 + 1900) * 86400 + s.1 ∧ - 1900 <= s.2 ∧ s.2 + 1900 < 2 ^ 32 ∧
          s.1 < secs_of_year s.2)
    (λ s, tp = days_to_year (s.2 + 1900) * 86400 + s.1 ∧ 0 <= s.2 + 1900 < 2 ^ 32 ∧
          0 <= s.1 < secs_of_year s.2)
    (λ s, Z.to_nat ((- s.1 + (SECS_PER_YEAR - 1)) / SECS_PER_YEAR)))
    with (n := years_fuel tp) (s := (t0, y0)) as ([t y] & E & Hr).
  - intros [t y] (E & Hy & Hy' & Ht). simpl in *.
    zcases; [|simpl; lia].
    assert (Hb := days_to_year_bounds (y + 1900)).
    assert (- 1900 < y) by lia.
    assert (Hs := secs_of_year_pos (y - 1)). assert (Hc := secs_of_year_correct (y - 1) ltac:(lia)).
    replace (y - 1 + 1901) with (y + 1900) in Hc by lia. simpl. splits; [lia..|].
    apply year_measure; change SECS_PER_YEAR with 31536000; lia.
  - simpl. lia.
  - simpl. unfold years_fuel. change SECS_PER_YEAR with 31536000. Z.div_mod_to_equations; lia.
  - exists t, y. simpl in *. tauto.
Qed.

Lemma count_up_ok unit K t0 n0 :
  0 < unit → 0 <= t0 < unit * Z.of_nat K →
  iterate (S K) (count_up unit) (t0, n0) = Ok (t0 mod unit, n0 + t0 / unit).
Proof.
  intros Hu Ht.
  edestruct (iterate_total (count_up unit)
    (λ s, 0 <= s.1 ∧ s.1 mod unit = t0 mod unit ∧ s.2 + s.1 / unit = n0 + t0 / unit)
    (λ s, s = (t0 mod unit, n0 + t0 / unit)) (λ s, Z.to_nat (s.1 / unit)))
    with (n := S K) (s := (t0, n0)) as (r & -> & ->); [| |simpl|done].
  - intros [t n] (Hp & Hm & Hd). simpl in *. zcases.
    + assert (Hd1 : (t - unit) / unit = t / unit - 1)
        by (replace (t - unit) with (t + (-1) * unit) by lia; rewrite Z.div_add by lia; lia).
      assert (Hm1 : (t - unit) mod unit = t mod unit)
        by (replace (t - unit) with (t + (-1) * unit) by lia; by rewrite Z.mod_add by lia).
      assert (1 <= t / unit) by (apply Z.div_le_lower_bound; lia).
      simpl. rewrite Hm1, Hd1. lia.
    + rewrite Z.mod_small in Hm by lia. rewrite Z.div_small in Hd by lia. f_equal; lia.
  - simpl; lia.
  - assert (t0 / unit < Z.of_nat K) by (apply Z.div_lt_upper_bound; lia).
    assert (0 <= t0 / unit) by (apply Z.div_pos; lia). lia.
Qed.

Lemma days_to_month_S y m : 0 <= m → days_to_month y (m + 1) = days_to_month y m + days_of_month y m.
Proof.
  intros Hm. unfold days_to_month. replace (m + 1) with (Z.of_nat (S (Z.to_nat m))) by lia.
  rewrite seqZ_S, Z2Nat.id, Z.add_0_l, map_app, foldr_app by done. simpl.
  generalize (map (days_of_month y) (seqZ 0 m)). intros l. induction l as [|d l IH]; simpl; lia.
Qed.

Lemma month_table_ok year m :
  0 <= year + 1900 < 2 ^ 32 → 0 <= m < 12 → rd (month_table year) m = Ok (days_of_month (year + 1900) m).
Proof.
  intros Hy Hm. assert (Hl := is_leap_correct year Hy). unfold month_table, days_of_month, leap_year in *.
  rewrite <-(bool_decide_ext _ _ Hl).
  assert (m ∈ seqZ 0 12) as Hin by (apply elem_of_seqZ; lia). clear Hm Hl Hy.
  destruct (is_leap year); simpl in Hin; repeat (apply elem_of_cons in Hin as [->|Hin]; [done|]);
    by apply elem_of_nil in Hin.
Qed.

Lemma days_of_month_pos y m : 28 <= days_of_month y m <= 31.
Proof. unfold days_of_month. repeat case_match; lia. Qed.

Lemma days_in_year year :
  0 <= year + 1900 < 2 ^ 32 → secs_of_year year = days_to_month (year + 1900) 12 * 86400.
Proof.
  intros Hy. assert (Hl := is_leap_correct year Hy).
  unfold secs_of_year, days_to_month, days_of_month, leap_year in *.
  rewrite <-(bool_decide_ext _ _ Hl). by destruct (is_leap year).
Qed.

Lemma month_up_ok year t0 :
  0 <= year + 1900 < 2 ^ 32 → 0 <= t0 < secs_of_year year →
  ∃ t mon, iterate 13 (month_up (month_table year)) (t0, 0) = Ok (t, mon) ∧
    t0 = days_to_month (year + 1900) mon * 86400 + t ∧ 0 <= mon < 12 ∧
    0 <= t < days_of_month (year + 1900) mon * 86400.
Proof.
  intros Hy Ht0. assert (H12 := days_in_year year Hy).
  edestruct (iterate_total (month_up (month_table year))
    (λ s, t0 = days_to_month (year + 1900) s.2 * 86400 + s.1 ∧ 0 <= s.2 < 12 ∧ 0 <= s.1)
    (λ s, t0 = days_to_month (year + 1900) s.2 * 86400 + s.1 ∧ 0 <= s.2 < 12 ∧
          0 <= s.1 < days_of_month (year + 1900) s.2 * 86400)
    (λ s, Z.to_nat (12 - s.2))) with (n := 13%nat) (s := (t0, 0)) as ([t m] & E & Hr).
  - intros [t m] (E & Hm & Ht). unfold month_up. cbn [fst snd] in *.
    rewrite month_table_ok by done. cbn [mbind res_bind].
    change SECS_PER_DAY with 86400. zcases; cbn [fst snd]; [|lia].
    assert (HS := days_to_month_S (year + 1900) m ltac:(lia)).
    destruct (Z.eq_dec m 11) as [->|]; [exfalso; change (11 + 1) with 12 in HS; lia|].
    rewrite HS. lia.
  - cbn [fst snd]. change (days_to_month (year + 1900) 0) with 0. lia.
  - cbn [fst snd]. lia.
  - exists t, m. simpl in *. tauto.
Qed.

Lemma split_of_day d t :
  0 <= t < 86400 →
  ∃ h m s, t / 3600 = h ∧ t mod 3600 / 60 = m ∧ t mod 3600 mod 60 = s ∧
    0 <= h < 24 ∧ 0 <= m < 60 ∧ 0 <= s < 60 ∧ d * 86400 + t = (d * 24 + h) * 3600 + m * 60 + s.
Proof.
  intros Ht. do 3 eexists. do 3 (split; [done|]). Z.div_mod_to_equations. lia.
Qed.

Lemma gmtime_r_ok tp :
  days_to_year 0 * 86400 <= tp < 2 ^ 55 →
  ∃ x, gmtime_r tp = Ok x ∧ stands_for x tp ∧ tm_isdst x = -1 ∧
    (0 <= tp → tm_wday x = (tp / 86400 + 4) mod 7).
Proof.
  intros [Hlo Hhi].
  destruct (year_up_ok tp Hhi) as (t1 & y1 & E1 & Et1 & Hy1 & Ht1 & Hp1).
  destruct (year_down_ok tp t1 y1) as (t2 & y2 & E2 & Et2 & Hy2 & Ht2);
    [lia|lia|lia|lia|lia| |].
  { destruct Hp1 as [|Hp1]; [by left|right]. subst y1. change (days_to_year (70 + 1900)) with 0 in Et1. lia. }
  destruct (month_up_ok y2 t2 Hy2 Ht2) as (t3 & mon & E3 & Et3 & Hm & Ht3).
  assert (Hd := days_of_month_pos (y2 + 1900) mon).
  unfold gmtime_r. rewrite E1. cbn [mbind res_bind]. rewrite E2. cbn [mbind res_bind].
  rewrite E3. cbn [mbind res_bind]. change SECS_PER_DAY with 86400.
  rewrite (count_up_ok 86400 31) by lia. cbn [mbind res_bind].
  assert (Hmod := Z.mod_pos_bound t3 86400 ltac:(lia)).
  rewrite (count_up_ok SECS_PER_HOUR 24) by (change SECS_PER_HOUR with 3600; lia).
  change SECS_PER_HOUR with 3600. cbn [mbind res_bind].
  assert (Hmod2 := Z.mod_pos_bound (t3 mod 86400) 3600 ltac:(lia)).
  rewrite (count_up_ok SECS_PER_MINUTE 60) by (change SECS_PER_MINUTE with 60; lia).
  change SECS_PER_MINUTE with 60. cbn [mbind res_bind].
  eexists. split; [done|]. split; [|split; [done|]].
  - destruct (split_of_day (days_to_year (y2 + 1900) + t2 / 86400) (t3 mod 86400) Hmod)
      as (h & m & s & Eh & Em & Es & Hh & Hmi & Hs & E).
    rewrite Eh, Em, Es. unfold stands_for. cbn -[days_to_month days_of_month Z.quot].
    rewrite Z.quot_div_nonneg by lia.
    assert (Hdiv : t2 / 86400 = days_to_month (y2 + 1900) mon + t3 / 86400).
    { rewrite Et3. rewrite Z.add_comm, Z.div_add by lia. lia. }
    assert (Hmo : t3 mod 86400 = t2 mod 86400).
    { rewrite Et3. by rewrite Z.add_comm, Z.mod_add by lia. }
    assert (t3 / 86400 < days_of_month (y2 + 1900) mon) by (apply Z.div_lt_upper_bound; lia).
    assert (0 <= t3 / 86400) by (apply Z.div_pos; lia).
    rewrite Hmo in E. assert (Hdm := Z.div_mod t2 86400 ltac:(lia)). splits; lia.
  - intros Hpos. cbn -[Z.quot Z.rem]. rewrite Z.quot_div_nonneg by lia.
    assert (0 <= tp / 86400) by (apply Z.div_pos; lia). by rewrite Z.rem_mod_nonneg by lia.
Qed.

(** C37: [gmtime_r] terminates for every time from the first of January of the year 0 on (as
    far as the year fits), and the broken-down time it returns stands for the argument in the
    Gregorian calendar with every field in its range. From the Epoch on the day of the
    week is right; one second before it the function says Thursday for a Wednesday. *)
Theorem gmtime_r_correct tp :
  days_to_year 0 * 86400 <= tp < 2 ^ 55 →
  (∃ x, gmtime_r tp = Ok x ∧ stands_for x tp ∧ tm_isdst x = -1 ∧
    (0 <= tp → tm_wday x = (tp / 86400 + 4) mod 7)) ∧
  gmtime_r (-1) = Ok (Tm 59 59 23 31 11 69 4 364 (-1)) ∧ ((-1) / 86400 + 4) mod 7 = 3.
Proof. intros Htp. split; [by apply gmtime_r_ok|done]. Qed.

Lemma gmtime_r_correct_witness :
  (days_to_year 0 * 86400 <= 951825600 < 2 ^ 55) ∧
  ∃ x, gmtime_r 951825600 = Ok x ∧ stands_for x 951825600 ∧ tm_isdst x = -1 ∧
    (0 <= 951825600 → tm_wday x = (951825600 / 86400 + 4) mod 7).
Proof.
  assert (H : days_to_year 0 * 86400 <= 951825600 < 2 ^ 55)
    by (change (days_to_year 0) with (-719528); lia).
  split; [exact H|]. destruct (gmtime_r_correct 951825600 H) as [Hx _]. exact Hx.
Defined.


(** One more field below those already packed. *)
Lemma pack_field a b r s :
  0 <= s <= r → 0 <= b < 2 ^ (r - s) →
  Z.lor (a * 2 ^ r) (Z.shiftl b s) = (a * 2 ^ (r - s) + b) * 2 ^ s.
Proof.
  intros Hs Hb. rewrite Z.shiftl_mul_pow2 by lia.
  assert (E : 2 ^ r = 2 ^ (r - s) * 2 ^ s) by (rewrite <-Z.pow_add_r by lia; f_equal; lia).
  rewrite <-Z.lxor_lor, <-Z.add_nocarry_lxor by
    (apply land_high_low; [lia|]; rewrite E; assert (0 < 2 ^ s) by (apply Z.pow_pos_nonneg; lia); nia).
  rewrite E. lia.
Qed.

Lemma unix2dostime_fields localtime t :
  let x := localtime t in
  tm_year x < 144 → 0 <= tm_mon x < 12 → 0 <= tm_mday x < 32 →
  0 <= tm_hour x < 24 → 0 <= tm_min x < 60 → 0 <= tm_sec x < 64 →
  unix2dostime localtime t =
    (((((Z.max 80 (tm_year x) - 80) * 2 ^ 4 + (tm_mon x + 1)) * 2 ^ 5 + tm_mday x) * 2 ^ 5 +
      tm_hour x) * 2 ^ 6 + tm_min x) * 2 ^ 5 + tm_sec x / 2.
Proof.
  intros x Hy Hmo Hd Hh Hmi Hs. unfold unix2dostime. fold x.
  replace (if tm_year x - 80 <? 0 then 0 else tm_year x - 80) with (Z.max 80 (tm_year x) - 80)
    by (zcases; lia).
  rewrite (Z.shiftl_mul_pow2 (Z.max _ _ - _)), Z.shiftr_div_pow2 by lia. change (2 ^ 1) with 2.
  rewrite pack_field by lia. rewrite pack_field by lia. rewrite pack_field by lia.
  rewrite pack_field by lia. rewrite <-(Z.shiftl_0_r (tm_sec x / 2)).
  rewrite pack_field by (change (2 ^ (5 - 0)) with 32; Z.div_mod_to_equations; lia).
  rewrite Z.shiftl_0_r. change (2 ^ 0) with 1. rewrite Z.mul_1_r. cbn [Z.sub].
  unfold u64, i32. assert (0 <= tm_sec x / 2 < 32) by (Z.div_mod_to_equations; lia).
  simpl. rewrite (Z.mod_small _ 4294967296) by lia. rewrite Z.mod_small by lia. lia.
Qed.

Lemma land_field d k n : 0 <= k → 0 <= n → Z.land (Z.shiftr d k) (Z.ones n) = d / 2 ^ k mod 2 ^ n.
Proof. intros. by rewrite Z.land_ones, Z.shiftr_div_pow2. Qed.

(** Unpacking a packed DOS date (up to 2043) gives back the local date with the seconds rounded
    down to an even number, for a time before 16 o'clock; the hour is masked with
    four bits where it has five, so every later hour comes back sixteen less. Years before
    1980 become 1980. *)
Theorem dostime_roundtrip localtime mktime now t :
  let x := localtime t in
  tm_year x < 144 → 0 <= tm_mon x < 12 → 0 <= tm_mday x < 32 →
  0 <= tm_hour x < 24 → 0 <= tm_min x < 60 → 0 <= tm_sec x < 60 →
  dos2unixtime localtime mktime now (unix2dostime localtime t) =
    mktime (Tm (tm_sec x - tm_sec x mod 2) (tm_min x)
              (if tm_hour x <? 16 then tm_hour x else tm_hour x - 16)
              (tm_mday x) (tm_mon x) (Z.max 80 (tm_year x)) (-1) (-1) (-1)).
Proof.
  intros x Hy Hmo Hd Hh Hmi Hs. unfold dos2unixtime.
  rewrite unix2dostime_fields by (fold x; lia). fold x.
  set (d := (_ + _ / 2)%Z). assert (Hsec : 0 <= tm_sec x / 2 < 32) by (Z.div_mod_to_equations; lia).
  change 0x3f with (Z.ones 6). change 0x1f with (Z.ones 5). change 0x0f with (Z.ones 4).
  rewrite !land_field by lia. rewrite Z.land_ones by lia.
  rewrite Z.shiftl_mul_pow2, Z.shiftr_div_pow2 by lia. f_equal. unfold i32. subst d. f_equal.
  all: cbn [Z.pow Z.pow_pos Pos.iter Z.mul Pos.mul Pos.add Z.add]; zcases; Z.div_mod_to_equations; lia.
Qed.

Lemma dostime_roundtrip_witness :
  let localtime := λ _ : Z, Tm 31 45 20 29 1 124 4 59 0 in
  dos2unixtime localtime tm_hour 0 (unix2dostime localtime 0) = 4.
Proof.
  intros localtime. exact (dostime_roundtrip localtime tm_hour 0 0
    ltac:(done) ltac:(done) ltac:(done) ltac:(done) ltac:(done) ltac:(done)).
Defined.
