(* ===== verification/Strftime.v ===== *)
(** * Formatting a time ([u__strftime], [u_strftime], [src/ulib/base/base.c])

    The buffer [s] and the format are memories; [u_now_adjust] and [tzname[u_daylight]] are
    parameters. A directive that formats numbers goes through [sprintf], which also
    writes a NUL after its text. *)

From S2P Require Import Prelude Time.

Definition dname : list (list Z) :=
  [BS "Sunday"; BS "Monday"; BS "Tuesday"; BS "Wednesday"; BS "Thursday"; BS "Friday"; BS "Saturday"].

Definition mname : list (list Z) :=
  [BS "January"; BS "February"; BS "March"; BS "April"; BS "May"; BS "June"; BS "July"; BS "August";
   BS "September"; BS "October"; BS "November"; BS "December"].

Definition dname_len : list Z := [6; 6; 7; 9; 8; 6; 8].
Definition mname_len : list Z := [7; 8; 5; 5; 3; 4; 4; 6; 9; 7; 8; 8].

(** Decimal digits, as [printf] writes them; twenty digits are enough for 64 bits. *)
Fixpoint decimal (fuel : nat) (n : Z) : list Z :=
  match fuel with
  | O => []
  | S fuel' => if n <? 10 then [48 + n] else decimal fuel' (n / 10) ++ [48 + n mod 10]
  end.

Definition zero_pad (w : nat) (ds : list Z) : list Z := replicate (w - length ds) 48 ++ ds.

(** [%.wd], [%+.wd] and [%.wu]. *)
Definition fmt_d (w : nat) (n : Z) : list Z :=
  if n <? 0 then CH "-" :: zero_pad w (decimal 20 (- n)) else zero_pad w (decimal 20 n).
Definition fmt_plus_d (w : nat) (n : Z) : list Z :=
  if n <? 0 then fmt_d w n else CH "+" :: fmt_d w n.
Definition fmt_u (w : nat) (n : Z) : list Z := zero_pad w (decimal 20 (u64 n)).

(** Writing [bs] from [s[i]] on. *)
Fixpoint put (s : list Z) (i : Z) (bs : list Z) : res (list Z) :=
  match bs with
  | [] => Ok s
  | b :: bs' => s ← wr s i b; put s (i + 1) bs'
  end.

Abbreviation out := (list Z * Z)%type.

(** [s[count++] = ...] for every byte of [bs]. *)
Definition emit (o : out) (bs : list Z) : res out :=
  let '(s, count) := o in
  s ← put s count bs; Ok (s, count + Z.of_nat (length bs)).

(** [sprintf(&s[count], ...)] and then [count += n]. *)
Definition emit_printf (o : out) (bs : list Z) (n : Z) : res out :=
  let '(s, count) := o in
  s ← put s count (bs ++ [0]); Ok (s, count + n).

(** [for (i = 0; i < 3; ++i) s[count++] = names[k][i]] *)
Definition emit_abbrev (o : out) (names : list (list Z)) (k : Z) : res out :=
  name ← rd names k; emit o (take 3 name).

Definition emit_name (o : out) (names : list (list Z)) (lens : list Z) (k : Z) : res out :=
  name ← rd names k; n ← rd lens k; emit o (take (Z.to_nat n) name).

(** The cases of the [switch] whose text is several fields. *)
Definition strftime_c (x : tm) (o : out) : res out :=
  o ← emit_abbrev o dname (tm_wday x);
  o ← emit o [CH " "];
  o ← emit_abbrev o mname (tm_mon x);
  emit_printf o ([CH " "] ++ fmt_d 2 (tm_mday x) ++ [CH " "] ++ fmt_d 2 (tm_hour x) ++ [CH ":"] ++
                 fmt_d 2 (tm_min x) ++ [CH ":"] ++ fmt_d 2 (tm_sec x) ++ [CH " "] ++
                 fmt_d 4 (1900 + tm_year x)) 17.

Definition strftime_x (x : tm) (o : out) : res out :=
  o ← emit_abbrev o dname (tm_wday x);
  o ← emit o [CH " "];
  o ← emit_abbrev o mname (tm_mon x);
  emit_printf o ([CH " "] ++ fmt_d 2 (tm_mday x) ++ [CH " "] ++ fmt_d 4 (1900 + tm_year x)) 8.

Definition strftime_X (x : tm) (o : out) : res out :=
  emit_printf o (fmt_d 2 (tm_hour x) ++ [CH ":"] ++ fmt_d 2 (tm_min x) ++ [CH ":"] ++ fmt_d 2 (tm_sec x)) 8.

Definition strftime_z (u_now_adjust : Z) (o : out) : res out :=
  emit_printf o (fmt_plus_d 2 (Z.quot u_now_adjust 3600) ++ fmt_u 2 (Z.rem u_now_adjust 3600)) 5.

(** The cases ['a'] to ['e'] of the [switch]. *)
Definition strftime_ae (x : tm) (ch : Z) (o : out) : option (res out) :=
  if ch =? CH "a" then Some (emit_abbrev o dname (tm_wday x))
  else if ch =? CH "A" then Some (emit_name o dname dname_len (tm_wday x))
  else if (ch =? CH "b") || (ch =? CH "h") then Some (emit_abbrev o mname (tm_mon x))
  else if ch =? CH "B" then Some (emit_name o mname mname_len (tm_mon x))
  else if ch =? CH "c" then Some (strftime_c x o)
  else if ch =? CH "d" then Some (emit_printf o (fmt_d 2 (tm_mday x)) 2)
  else if ch =? CH "e" then Some (emit_printf o (fmt_d 2 (tm_mday x)) 2)
  else None.

(** The cases ['H'] to ['S']. *)
Definition strftime_HS (x : tm) (ch : Z) (o : out) : option (res out) :=
  if ch =? CH "H" then Some (emit_printf o (fmt_d 2 (tm_hour x)) 2)
  else if ch =? CH "I" then
    Some (if (tm_hour x =? 0) || (tm_hour x =? 12) then emit o [CH "1"; CH "2"]
          else emit_printf o (fmt_d 2 (Z.rem (tm_hour x) 12)) 2)
  else if ch =? CH "j" then Some (emit_printf o (fmt_d 3 (tm_yday x + 1)) 3)
  else if ch =? CH "m" then Some (emit_printf o (fmt_d 2 (tm_mon x + 1)) 2)
  else if ch =? CH "M" then Some (emit_printf o (fmt_d 2 (tm_min x)) 2)
  else if ch =? CH "p" then Some (emit o [if tm_hour x <? 12 then CH "A" else CH "P"; CH "M"])
  else if ch =? CH "S" then Some (emit_printf o (fmt_d 2 (tm_sec x)) 2)
  else None.

(** The cases ['U'] to ['Z']. *)
Definition strftime_UZ (u_now_adjust : Z) (tzname : list Z) (x : tm) (ch : Z) (o : out)
    : option (res out) :=
  if ch =? CH "U" then Some (emit_printf o (fmt_d 2 (Z.quot (tm_yday x + 7 - tm_wday x) 7)) 2)
  else if ch =? CH "w" then Some (emit_printf o (fmt_d 1 (tm_wday x)) 1)
  else if ch =? CH "W" then
    Some (emit_printf o (fmt_d 2 (Z.quot (tm_yday x + Z.rem (8 - tm_wday x) 7) 7)) 2)
  else if ch =? CH "x" then Some (strftime_x x o)
  else if (ch =? CH "X") || (ch =? CH "T") then Some (strftime_X x o)
  else if ch =? CH "y" then Some (emit_printf o (fmt_d 2 (Z.rem (Z.rem (tm_year x) 100 + 100) 100)) 2)
  else if ch =? CH "Y" then Some (emit_printf o (fmt_d 4 (1900 + tm_year x)) 4)
  else if ch =? CH "z" then Some (strftime_z u_now_adjust o)
  else if ch =? CH "Z" then Some (emit o tzname)
  else None.

(** The [switch], with its last two cases. *)
Definition strftime_switch (u_now_adjust : Z) (tzname : list Z) (x : tm) (ch : Z) (o : out) : res out :=
  match strftime_ae x ch o with
  | Some r => r
  | None =>
      match strftime_HS x ch o with
      | Some r => r
      | None =>
          match strftime_UZ u_now_adjust tzname x ch o with
          | Some r => r
          | None =>
              if ch =? CH "%" then emit o [CH "%"]
              else if ch =? 0 then emit o [CH "%"]
              else emit o [CH "%"; ch]
          end
      end
  end.

(** The characters up to the next percent sign or NUL, and the format from there on. *)
Fixpoint format_span (format : list Z) : res (list Z * list Z) :=
  match format with
  | [] => Fail OutOfBounds
  | ch :: format' =>
      if (ch =? 0) || (ch =? CH "%") then Ok ([], format)
      else r ← format_span format'; Ok (ch :: r.1, r.2)
  end.

Definition strftime_step (u_now_adjust : Z) (tzname : list Z) (x : tm) (maxsize : Z)
    (st : out * list Z) : res (out * list Z + out) :=
  let '(o, format) := st in
  if negb (o.2 <? maxsize) then Ok (inr o)
  else
    r ← format_span format;
    let '(lit, format) := r in
    o ← emit o lit;
    ch ← rd format 0;
    if ch =? 0 then Ok (inr o)
    else
      ch ← rd format 1;
      o ← strftime_switch u_now_adjust tzname x ch o;
      Ok (inl (o, drop 2 format)).

(** Every turn of the loop reads at least two characters of the format. *)
Definition u__strftime (u_now_adjust : Z) (tzname : list Z) (x : tm) (s : list Z) (maxsize : Z)
    (format : list Z) : res out :=
  o ← iterate (S (length format)) (strftime_step u_now_adjust tzname x maxsize) ((s, 0), format);
  let '(s, count) := o in
  s ← wr s count 0; Ok (s, count).

Definition u_strftime (u_now_adjust : Z) (tzname : list Z) (s : list Z) (maxsize : Z)
    (format : list Z) (t : Z) : res out :=
  x ← gmtime_r t; u__strftime u_now_adjust tzname x s maxsize format.

(** ** Specification *)

Definition tm_ok (x : tm) : Prop :=
  0 <= tm_sec x <= 60 ∧ 0 <= tm_min x < 60 ∧ 0 <= tm_hour x < 24 ∧ 1 <= tm_mday x <= 31 ∧
  0 <= tm_mon x < 12 ∧ 0 <= 1900 + tm_year x <= 9999 ∧ 0 <= tm_wday x < 7 ∧ 0 <= tm_yday x <= 365.

Definition two_digits (n : Z) : list Z := [48 + n / 10; 48 + n mod 10].
Definition three_digits (n : Z) : list Z := (48 + n / 100) :: two_digits (n mod 100).
Definition four_digits (n : Z) : list Z := two_digits (n / 100) ++ two_digits (n mod 100).

(** How many of the first [n] days of the year are a [day] of the week. *)
Definition weekdays_before (x : tm) (day n : Z) : Z :=
  Z.of_nat (length (filter (λ d, (tm_wday x - (tm_yday x - d)) mod 7 = day) (seqZ 0 n))).

Definition date_text (x : tm) : list Z :=
  take 3 (nth (Z.to_nat (tm_wday x)) dname []) ++ [CH " "] ++
  take 3 (nth (Z.to_nat (tm_mon x)) mname []) ++ [CH " "] ++ two_digits (tm_mday x) ++ [CH " "].

Definition time_text (x : tm) : list Z :=
  two_digits (tm_hour x) ++ [CH ":"] ++ two_digits (tm_min x) ++ [CH ":"] ++ two_digits (tm_sec x).

(** The text of a directive, as the comment above the [switch] gives it. *)
Definition field (adjust : Z) (tzname : list Z) (x : tm) (ch : Z) : list Z :=
  if ch =? CH "a" then take 3 (nth (Z.to_nat (tm_wday x)) dname [])
  else if ch =? CH "A" then nth (Z.to_nat (tm_wday x)) dname []
  else if (ch =? CH "b") || (ch =? CH "h") then take 3 (nth (Z.to_nat (tm_mon x)) mname [])
  else if ch =? CH "B" then nth (Z.to_nat (tm_mon x)) mname []
  else if ch =? CH "c" then date_text x ++ time_text x ++ [CH " "] ++ four_digits (1900 + tm_year x)
  else if ch =? CH "d" then two_digits (tm_mday x)
  else if ch =? CH "e" then (if tm_mday x <? 10 then [CH " "; 48 + tm_mday x] else two_digits (tm_mday x))
  else if ch =? CH "H" then two_digits (tm_hour x)
  else if ch =? CH "I" then two_digits ((tm_hour x - 1) mod 12 + 1)
  else if ch =? CH "j" then three_digits (tm_yday x + 1)
  else if ch =? CH "m" then two_digits (tm_mon x + 1)
  else if ch =? CH "M" then two_digits (tm_min x)
  else if ch =? CH "p" then [if tm_hour x <? 12 then CH "A" else CH "P"; CH "M"]
  else if ch =? CH "S" then two_digits (tm_sec x)
  else if ch =? CH "U" then two_digits (weekdays_before x 0 (tm_yday x + 1))
  else if ch =? CH "w" then [48 + tm_wday x]
  else if ch =? CH "W" then two_digits (weekdays_before x 1 (tm_yday x + 1))
  else if ch =? CH "x" then date_text x ++ four_digits (1900 + tm_year x)
  else if (ch =? CH "X") || (ch =? CH "T") then time_text x
  else if ch =? CH "y" then two_digits (tm_year x mod 100)
  else if ch =? CH "Y" then four_digits (1900 + tm_year x)
  else if ch =? CH "z" then
    (if adjust <? 0 then CH "-" else CH "+") :: two_digits (Z.abs adjust / 3600) ++ BS "00"
  else if ch =? CH "Z" then tzname
  else if ch =? CH "%" then BS "%"
  else [CH "%"; ch].

(** The text of a format (without its NUL), for a text of each directive. *)
Fixpoint expand_with (text : Z → list Z) (format : list Z) : list Z :=
  match format with
  | [] => []
  | c :: format' =>
      if c =? CH "%" then
        match format' with
        | [] => []
        | ch :: format'' => text ch ++ expand_with text format''
        end
      else c :: expand_with text format'
  end.

Definition expand (adjust : Z) (tzname : list Z) (x : tm) (format : list Z) : list Z :=
  expand_with (field adjust tzname x) format.

Fixpoint directives (format : list Z) : list Z :=
  match format with
  | [] => []
  | c :: format' =>
      if c =? CH "%" then match format' with [] => [] | ch :: format'' => ch :: directives format'' end
      else directives format'
  end.

(** The directives the code writes otherwise: [%e] keeps a leading zero, and [%W] does not count a Monday that is
    today. *)
Definition as_documented (x : tm) (ch : Z) : bool :=
  negb ((ch =? CH "e") && (tm_mday x <? 10)) && negb ((ch =? CH "W") && (tm_wday x =? 1)).

(** What the code writes. *)
Definition stored_field (adjust : Z) (tzname : list Z) (x : tm) (ch : Z) : list Z :=
  if ch =? CH "e" then two_digits (tm_mday x)
  else if ch =? CH "W" then two_digits (weekdays_before x 1 (tm_yday x))
  else field adjust tzname x ch.

Definition stored (adjust : Z) (tzname : list Z) (x : tm) (format : list Z) : list Z :=
  expand_with (stored_field adjust tzname x) format.

(** No NUL, and no percent sign that ends the format. *)
Fixpoint format_ok (format : list Z) : bool :=
  match format with
  | [] => true
  | c :: format' =>
      negb (c =? 0) &&
      if c =? CH "%" then
        match format' with
        | [] => false
        | ch :: format'' => negb (ch =? 0) && format_ok format''
        end
      else format_ok format'
  end.

(** [r] appends [txt] to [o], when there is room. *)
Definition appends (o : out) (r : res out) (txt : list Z) : Prop :=
  ∀ don rest, o = (don ++ rest, Z.of_nat (length don)) → (length txt < length rest)%nat →
  ∃ rest', r = Ok (don ++ txt ++ rest', Z.of_nat (length (don ++ txt))) ∧
    length rest = (length txt + length rest')%nat ∧ drop 1 rest' = drop (S (length txt)) rest.

(** ** Lemmas *)

Lemma put_ok don bs rest :
  (length bs ≤ length rest)%nat →
  put (don ++ rest) (Z.of_nat (length don)) bs = Ok (don ++ bs ++ drop (length bs) rest).
Proof.
  revert don rest. induction bs as [|b bs IH]; intros don rest Hl; simpl in *; [by rewrite drop_0|].
  destruct rest as [|x rest]; simpl in *; [lia|].
  unfold wr. rewrite length_app. simpl.
  destruct (Z.ltb_spec (Z.of_nat (length don)) 0); [lia|].
  destruct (Z.leb_spec (Z.of_nat (length don + S (length rest))) (Z.of_nat (length don))); [lia|]. simpl.
  rewrite Nat2Z.id, insert_app_r_alt by lia. rewrite Nat.sub_diag. simpl.
  replace (Z.of_nat (length don) + 1) with (Z.of_nat (length (don ++ [b]))) by (rewrite length_app; simpl; lia).
  assert (E := IH (don ++ [b]) rest ltac:(lia)). by rewrite <-!app_assoc in E.
Qed.

Lemma emit_appends o bs : appends o (emit o bs) bs.
Proof.
  intros don rest -> Hl. exists (drop (length bs) rest). unfold emit. rewrite put_ok by lia.
  cbn [mbind res_bind]. rewrite length_app, Nat2Z.inj_add, length_drop, drop_drop.
  split; [done|]. split; [lia|]. f_equal. lia.
Qed.

Lemma emit_printf_appends o bs n :
  n = Z.of_nat (length bs) → appends o (emit_printf o bs n) bs.
Proof.
  intros -> don rest -> Hl. exists (0 :: drop (S (length bs)) rest). unfold emit_printf.
  rewrite put_ok by (rewrite length_app; simpl; lia). cbn [mbind res_bind].
  rewrite !length_app, Nat2Z.inj_add. cbn [length]. rewrite length_drop.
  split; [|split; [lia|done]]. rewrite <-app_assoc. simpl. by rewrite Nat.add_1_r.
Qed.

Lemma appends_bind o r k t1 t2 :
  appends o r t1 → (∀ o', appends o' (k o') t2) → appends o (o' ← r; k o') (t1 ++ t2).
Proof.
  intros H1 H2 don rest -> Hl. rewrite length_app in Hl.
  destruct (H1 don rest eq_refl) as (rest1 & -> & Hl1 & Hd1); [lia|]. cbn [mbind res_bind].
  destruct (H2 _ (don ++ t1) rest1 ltac:(by rewrite <-app_assoc)) as (rest2 & E & Hl2 & Hd2); [lia|].
  exists rest2. rewrite E, <-!app_assoc. split; [done|]. rewrite !length_app. split; [lia|].
  rewrite Hd2. change (S (length t2)) with (1 + length t2)%nat. rewrite <-drop_drop, Hd1, drop_drop.
  done.
Qed.

Lemma rd_nth {A} (l : list A) k d :
  0 <= k < Z.of_nat (length l) → rd l k = Ok (nth (Z.to_nat k) l d).
Proof.
  intros Hk. rewrite <-(Z2Nat.id k) at 1 by lia. apply rd_lookup.
  rewrite nth_lookup. destruct (lookup_lt_is_Some_2 l (Z.to_nat k)) as [x ->]; [lia|done].
Qed.

Lemma emit_abbrev_appends o names k :
  0 <= k < Z.of_nat (length names) →
  appends o (emit_abbrev o names k) (take 3 (nth (Z.to_nat k) names [])).
Proof.
  intros Hk. unfold emit_abbrev. rewrite (rd_nth _ _ []) by done. apply emit_appends.
Qed.

Lemma emit_name_appends o names lens k :
  0 <= k < Z.of_nat (length names) → lens = map (λ n, Z.of_nat (length n)) names →
  appends o (emit_name o names lens k) (nth (Z.to_nat k) names []).
Proof.
  intros Hk ->. unfold emit_name. rewrite (rd_nth _ _ []) by done. cbn [mbind res_bind].
  rewrite (rd_nth _ _ (Z.of_nat (length (@nil Z)))) by (by rewrite length_map).
  cbn [mbind res_bind]. rewrite (map_nth (λ n : list Z, Z.of_nat (length n))), Nat2Z.id.
  rewrite firstn_all. apply emit_appends.
Qed.

(** *** Numbers *)

Lemma decimal_1 n f : 0 <= n < 10 → decimal (S f) n = [48 + n].
Proof. intros. simpl. zcases; [done|lia]. Qed.

Lemma decimal_2 n f : 10 <= n < 100 → decimal (S (S f)) n = two_digits n.
Proof.
  intros. simpl. zcases; [lia| |Z.div_mod_to_equations; lia]. done.
Qed.

Lemma fmt_d_1 n : 0 <= n < 10 → fmt_d 1 n = [48 + n].
Proof. intros. unfold fmt_d. zcases; [lia|]. by rewrite decimal_1. Qed.

Lemma fmt_d_2 n : 0 <= n < 100 → fmt_d 2 n = two_digits n.
Proof.
  intros. unfold fmt_d. zcases; [lia|]. destruct (Z.lt_ge_cases n 10).
  - rewrite decimal_1 by lia. unfold two_digits. rewrite Z.div_small, Z.mod_small by lia. done.
  - by rewrite decimal_2 by lia.
Qed.

Lemma fmt_d_3 n : 0 <= n < 1000 → fmt_d 3 n = three_digits n.
Proof.
  intros. assert (H100 : forallb (λ n, bool_decide (fmt_d 3 n = three_digits n)) (seqZ 0 1000) = true)
    by (vm_compute; reflexivity).
  rewrite forallb_forall in H100. eapply bool_decide_eq_true_1, H100.
  apply list_elem_of_In, elem_of_seqZ. lia.
Qed.

Lemma fmt_d_4 n : 0 <= n <= 9999 → fmt_d 4 n = four_digits n.
Proof.
  intros. assert (Hall : forallb (λ n, bool_decide (fmt_d 4 n = four_digits n)) (seqZ 0 10000) = true)
    by (vm_compute; reflexivity).
  rewrite forallb_forall in Hall. eapply bool_decide_eq_true_1, Hall.
  apply list_elem_of_In, elem_of_seqZ. lia.
Qed.

Lemma filter_seqZ_snoc (P : Z → Prop) `{∀ d, Decision (P d)} n :
  0 <= n → Z.of_nat (length (filter P (seqZ 0 (n + 1)))) =
           Z.of_nat (length (filter P (seqZ 0 n))) + (if decide (P n) then 1 else 0).
Proof.
  intros Hn. replace (n + 1) with (Z.of_nat (S (Z.to_nat n))) by lia.
  rewrite seqZ_S, Z2Nat.id, Z.add_0_l, filter_app, length_app, Nat2Z.inj_add by done. f_equal.
  by destruct (decide (P n)); [rewrite filter_cons_True|rewrite filter_cons_False].
Qed.

(** The days of a year that fall on one weekday are seven apart. *)
Lemma weekdays_before_eq x day n :
  0 <= n → 0 <= day < 7 →
  weekdays_before x day n = (n + 6 - (day - (tm_wday x - tm_yday x)) mod 7) / 7.
Proof.
  intros Hn Hday. unfold weekdays_before. pattern n. apply natlike_ind; [| |done].
  - simpl. Z.div_mod_to_equations. lia.
  - intros m Hm IH. rewrite <-Z.add_1_r, filter_seqZ_snoc, IH by done.
    case_decide; Z.div_mod_to_equations; lia.
Qed.

Lemma weekdays_before_range x day n : 0 <= n <= 366 → 0 <= day < 7 → 0 <= weekdays_before x day n < 100.
Proof. intros. rewrite weekdays_before_eq by lia. Z.div_mod_to_equations. lia. Qed.

(** *** The directives *)

Section Directives.
Context (adjust : Z) (tzname : list Z) (x : tm).
Context (Hx : tm_ok x) (Hadj : adjust mod 3600 = 0 ∧ Z.abs adjust < 360000).

Ltac bounds := destruct Hx as (? & ? & ? & ? & ? & ? & ? & ?).

Lemma date_text_appends o (k : out → res out) t :
  (∀ o', appends o' (k o') ([CH " "] ++ two_digits (tm_mday x) ++ [CH " "] ++ t)) →
  appends o (o ← emit_abbrev o dname (tm_wday x); o ← emit o [CH " "];
             o ← emit_abbrev o mname (tm_mon x); k o) (date_text x ++ t).
Proof.
  bounds. intros Hk. unfold date_text. rewrite <-!app_assoc.
  apply appends_bind; [by apply emit_abbrev_appends|intros o1].
  apply appends_bind; [apply emit_appends|intros o2].
  apply appends_bind; [by apply emit_abbrev_appends|intros o3]. apply Hk.
Qed.

Lemma strftime_c_appends o :
  appends o (strftime_c x o) (date_text x ++ time_text x ++ [CH " "] ++ four_digits (1900 + tm_year x)).
Proof.
  apply date_text_appends. intros o'. bounds. rewrite !fmt_d_2, fmt_d_4 by lia.
  unfold time_text. rewrite <-!app_assoc. by apply emit_printf_appends.
Qed.

Lemma strftime_x_appends o :
  appends o (strftime_x x o) (date_text x ++ four_digits (1900 + tm_year x)).
Proof.
  apply date_text_appends. intros o'. bounds. rewrite !fmt_d_2, fmt_d_4 by lia.
  by apply emit_printf_appends.
Qed.

Lemma strftime_X_appends o : appends o (strftime_X x o) (time_text x).
Proof. bounds. unfold strftime_X. rewrite !fmt_d_2 by lia. by apply emit_printf_appends. Qed.

Lemma strftime_z_appends o :
  appends o (strftime_z adjust o)
    ((if adjust <? 0 then CH "-" else CH "+") :: two_digits (Z.abs adjust / 3600) ++ BS "00").
Proof.
  destruct Hadj as [Hm Ha]. unfold strftime_z.
  assert (E : adjust = adjust / 3600 * 3600) by (Z.div_mod_to_equations; lia).
  assert (Er : Z.rem adjust 3600 = 0) by (rewrite E; apply Z.rem_mul; lia).
  assert (Eq : Z.quot adjust 3600 = adjust / 3600) by (rewrite E at 1; by rewrite Z.quot_mul).
  assert (Eabs : Z.abs adjust / 3600 = Z.abs (adjust / 3600)).
  { rewrite E at 1. rewrite Z.abs_mul. by rewrite Z.div_mul. }
  rewrite Er, Eq, Eabs. unfold fmt_plus_d.
  assert (Hb : Z.abs (adjust / 3600) < 100) by (Z.div_mod_to_equations; lia).
  replace (adjust / 3600 <? 0) with (adjust <? 0) by (zcases; Z.div_mod_to_equations; lia).
  destruct (Z.ltb_spec adjust 0) as [Hn|Hn].
  - replace (fmt_d 2 (adjust / 3600)) with (CH "-" :: fmt_d 2 (Z.abs (adjust / 3600))).
    2:{ unfold fmt_d at 2. destruct (Z.ltb_spec (adjust / 3600) 0); [|Z.div_mod_to_equations; lia].
        unfold fmt_d. destruct (Z.ltb_spec (Z.abs (adjust / 3600)) 0); [lia|]. by rewrite Z.abs_neq by lia. }
    rewrite fmt_d_2 by lia. by apply emit_printf_appends.
  - assert (0 <= adjust / 3600) by (apply Z.div_pos; lia).
    rewrite Z.abs_eq by lia. rewrite fmt_d_2 by lia. by apply emit_printf_appends.
Qed.

(** Every case of the [switch]: the numbers are those of the specification. *)
Lemma strftime_switch_appends ch o :
  ch ≠ 0 → appends o (strftime_switch adjust tzname x ch o) (stored_field adjust tzname x ch).
Proof.
  intros Hch. bounds. unfold strftime_switch, stored_field, field, strftime_ae, strftime_HS, strftime_UZ.
  repeat match goal with
  | |- context [ch =? ?k] => destruct (Z.eqb_spec ch k) as [->|]; cbn [orb]
  end; try done; auto using emit_appends, emit_abbrev_appends, strftime_c_appends, strftime_x_appends,
    strftime_X_appends, strftime_z_appends.
  all: cbn [Z.eqb Pos.eqb orb]; try (apply emit_name_appends; done).
  all: try (rewrite fmt_d_2 by lia; by apply emit_printf_appends).
  - destruct ((tm_hour x =? 0) || (tm_hour x =? 12)) eqn:C.
    + apply orb_true_iff in C as [->%Z.eqb_eq| ->%Z.eqb_eq]; apply emit_appends.
    + apply orb_false_iff in C as [?%Z.eqb_neq ?%Z.eqb_neq].
      rewrite Z.rem_mod_nonneg, fmt_d_2 by (Z.div_mod_to_equations; lia).
      replace ((tm_hour x - 1) mod 12 + 1) with (tm_hour x mod 12) by (Z.div_mod_to_equations; lia).
      by apply emit_printf_appends.
  - rewrite fmt_d_3 by lia. by apply emit_printf_appends.
  - rewrite Z.quot_div_nonneg, fmt_d_2, weekdays_before_eq by (Z.div_mod_to_equations; lia).
    replace ((tm_yday x + 7 - tm_wday x) / 7) with
      ((tm_yday x + 1 + 6 - (0 - (tm_wday x - tm_yday x)) mod 7) / 7) by (Z.div_mod_to_equations; lia).
    by apply emit_printf_appends.
  - rewrite fmt_d_1 by lia. by apply emit_printf_appends.
  - rewrite Z.rem_mod_nonneg, Z.quot_div_nonneg, fmt_d_2, weekdays_before_eq by (Z.div_mod_to_equations; lia).
    replace ((tm_yday x + (8 - tm_wday x) mod 7) / 7) with
      ((tm_yday x + 6 - (1 - (tm_wday x - tm_yday x)) mod 7) / 7) by (Z.div_mod_to_equations; lia).
    by apply emit_printf_appends.
  - assert (E : Z.rem (Z.rem (tm_year x) 100 + 100) 100 = tm_year x mod 100).
    { assert (Hr := Z.quot_rem (tm_year x) 100 ltac:(done)).
      assert (Hb := Z.rem_bound_abs (tm_year x) 100 ltac:(done)).
      rewrite Z.rem_mod_nonneg by lia. Z.div_mod_to_equations. lia. }
    rewrite E, fmt_d_2 by (Z.div_mod_to_equations; lia). by apply emit_printf_appends.
  - rewrite fmt_d_4 by lia. by apply emit_printf_appends.
Qed.

(** *** The loop *)

(** A format is literal text followed by nothing or by a directive. *)
Fixpoint literal (format : list Z) : list Z * list Z :=
  match format with
  | [] => ([], [])
  | c :: format' =>
      if c =? CH "%" then ([], format) else let r := literal format' in (c :: r.1, r.2)
  end.

Lemma format_span_literal format rest :
  format_ok format = true →
  format_span (format ++ 0 :: rest) = Ok ((literal format).1, (literal format).2 ++ 0 :: rest) ∧
  format_ok (literal format).2 = true ∧
  stored adjust tzname x format = (literal format).1 ++ stored adjust tzname x (literal format).2 ∧
  ((literal format).2 = [] ∨ ∃ ch f, ch ≠ 0 ∧ (literal format).2 = CH "%" :: ch :: f ∧ format_ok f = true) ∧
  (length (literal format).2 ≤ length format)%nat.
Proof.
  induction format as [|c format IH]; intros Hok; [simpl; eauto 10|].
  unfold stored in *. cbn [format_ok literal app format_span expand_with] in *. apply andb_prop in Hok as [Hc Hok].
  apply negb_true_iff in Hc. rewrite Hc. cbn [orb]. destruct (c =? CH "%") eqn:Cp.
  - apply Z.eqb_eq in Cp as ->. destruct format as [|ch f]; [done|].
    apply andb_prop in Hok as [Hch Hok]. apply negb_true_iff, Z.eqb_neq in Hch.
    splits; try done; [|eauto 10]. change (negb (ch =? 0) && format_ok f = true).
    rewrite Hok. apply Z.eqb_neq in Hch. by rewrite Hch.
  - destruct (IH Hok) as (E1 & E2 & E3 & E4 & E5). rewrite E1. cbn [fst snd].
    splits; [done|done|by rewrite E3|done|simpl; lia].
Qed.

Definition loop_inv (buf text : list Z) (st : out * list Z) : Prop :=
  ∃ don rest format tail, st = ((don ++ rest, Z.of_nat (length don)), format ++ 0 :: tail) ∧
    format_ok format = true ∧ text = don ++ stored adjust tzname x format ∧
    length (don ++ rest) = length buf ∧
    drop (S (length text) - length don) rest = drop (S (length text)) buf.

Lemma strftime_step_ok buf text maxsize st :
  (length text < length buf)%nat → Z.of_nat (length text) < maxsize → loop_inv buf text st →
  match strftime_step adjust tzname x maxsize st with
  | Ok (inl st') => loop_inv buf text st' ∧ (length st'.2 < length st.2)%nat
  | Ok (inr o) => ∃ rest, o = (text ++ rest, Z.of_nat (length text)) ∧
      length (text ++ rest) = length buf ∧ drop 1 rest = drop (S (length text)) buf
  | Fail _ => False
  end.
Proof.
  intros Hl Hmax (don & rest & format & tail & -> & Hok & Htext & Hlen & Hdrop).
  destruct (format_span_literal format tail Hok) as (E1 & E2 & E3 & E4 & E5).
  rewrite E3, app_assoc in Htext. assert (Hlt := Htext). apply (f_equal length) in Hlt.
  rewrite !length_app in Hlt. rewrite length_app in Hlen. unfold strftime_step. cbn [snd].
  destruct (Z.ltb_spec (Z.of_nat (length don)) maxsize); [|lia]. cbn [negb]. rewrite E1.
  cbn [mbind res_bind].
  destruct (emit_appends (don ++ rest, Z.of_nat (length don)) (literal format).1 don rest eq_refl)
    as (rest1 & -> & Hl1 & Hd1); [lia|]. cbn [mbind res_bind].
  assert (Hdrop1 : drop (S (length text) - length (don ++ (literal format).1)) rest1 = drop (S (length text)) buf).
  { rewrite <-Hdrop. rewrite length_app. replace (S (length text) - _)%nat with
      (1 + (length text - length don - length (literal format).1))%nat by lia.
    rewrite <-drop_drop, Hd1, drop_drop. f_equal. lia. }
  destruct E4 as [E4|(ch & f & Hch & E4 & Hf)]; rewrite E4 in *.
  - cbn. exists rest1. simpl in Htext. rewrite app_nil_r in Htext. rewrite Htext in *.
    rewrite <-!app_assoc. rewrite !length_app in *. split; [done|]. split; [lia|].
    rewrite <-Hdrop1. f_equal. lia.
  - unfold stored in Htext, Hlt. simpl in Htext, Hlt. rewrite length_app in Hlt.
    change (rd ((37 :: ch :: f) ++ 0 :: tail) 0) with (@Ok Z 37).
    change (rd ((37 :: ch :: f) ++ 0 :: tail) 1) with (@Ok Z ch). cbn [mbind res_bind Z.eqb].
    destruct (strftime_switch_appends ch
      (don ++ (literal format).1 ++ rest1, Z.of_nat (length (don ++ (literal format).1))) Hch
      (don ++ (literal format).1) rest1 ltac:(by rewrite <-app_assoc)) as (rest2 & -> & Hl2 & Hd2); [lia|].
    cbn [mbind res_bind snd]. change (drop 2 ((37 :: ch :: f) ++ 0 :: tail)) with (f ++ 0 :: tail).
    simpl in E5. split; [|rewrite !length_app; simpl; lia].
    exists ((don ++ (literal format).1) ++ stored_field adjust tzname x ch), rest2, f, tail.
    splits; [by rewrite <-!app_assoc|done|by rewrite Htext, <-!app_assoc|rewrite !length_app; lia|].
    rewrite <-Hdrop1. rewrite !length_app. replace (S (length text) - _)%nat with
      (1 + (length text - length don - length (literal format).1 - length (stored_field adjust tzname x ch)))%nat by lia.
    rewrite <-drop_drop, Hd2, drop_drop. f_equal. lia.
Qed.

Lemma u__strftime_ok buf maxsize format tail :
  format_ok format = true →
  let text := stored adjust tzname x format in
  (length text < length buf)%nat → Z.of_nat (length text) < maxsize →
  u__strftime adjust tzname x buf maxsize (format ++ 0 :: tail) =
    Ok (text ++ 0 :: drop (S (length text)) buf, Z.of_nat (length text)).
Proof.
  intros Hok text Hl Hmax. unfold u__strftime.
  edestruct (iterate_total (strftime_step adjust tzname x maxsize) (loop_inv buf text)
    (λ o, ∃ rest, o = (text ++ rest, Z.of_nat (length text)) ∧
      length (text ++ rest) = length buf ∧ drop 1 rest = drop (S (length text)) buf)
    (λ st, length st.2)) as (o & -> & rest & -> & Hlen & Hd).
  - intros st Hst. by apply strftime_step_ok.
  - exists [], buf, format, tail. simpl. splits; done.
  - cbn [snd]. lia.
  - cbn [mbind res_bind]. rewrite length_app in Hlen. destruct rest as [|y rest]; [simpl in Hlen; lia|].
    simpl in Hd. rewrite drop_0 in Hd.
    assert (E := put_ok text [0] (y :: rest) ltac:(simpl; lia)). simpl in E. rewrite drop_0 in E.
    destruct (wr _ _ _) as [s'|]; [|done]. cbn [mbind res_bind] in *. injection E as ->. by rewrite Hd.
Qed.
End Directives.

(** Two texts of the directives that agree, in a property [P] of both, on those of a format. *)
Lemma expand_with_rel (P : list Z → list Z → Prop) f g format :
  P [] [] → (∀ c a b, P a b → P (c :: a) (c :: b)) → (∀ ch a b, ch ∈ directives format → P a b → P (f ch ++ a) (g ch ++ b)) →
  P (expand_with f format) (expand_with g format).
Proof.
  intros H0 H1. remember (length format) as n eqn:En. assert (Hn : (length format <= n)%nat) by lia. clear En.
  revert format Hn. induction n as [|n IH]; intros format Hn Hd; (destruct format as [|c format]; [done|]); [simpl in Hn; lia|].
  cbn [expand_with directives] in *. destruct (c =? CH "%"); [|apply H1, IH; [simpl in Hn; lia|done]].
  destruct format as [|ch format]; [done|]. apply Hd; [left|]. apply IH; [simpl in Hn; lia|].
  intros ch' a b Hin. apply Hd. by right.
Qed.

Lemma stored_length adjust tzname x format :
  length (stored adjust tzname x format) = length (expand adjust tzname x format).
Proof.
  apply (expand_with_rel (λ a b, length a = length b)); [done|by intros c a b ?; simpl; f_equal|].
  intros ch a b _ E. rewrite !length_app, E. f_equal. unfold stored_field, field.
  destruct (Z.eqb_spec ch (CH "e")) as [->|]; [simpl; by destruct (tm_mday x <? 10)|].
  by destruct (Z.eqb_spec ch (CH "W")) as [->|].
Qed.

Lemma stored_documented adjust tzname x format :
  tm_ok x → Forall (λ ch, as_documented x ch = true) (directives format) →
  stored adjust tzname x format = expand adjust tzname x format.
Proof.
  intros (_ & _ & _ & _ & _ & _ & Hw & Hy) Hd. apply (expand_with_rel eq); [done|by intros c a b ->|].
  intros ch a b Hin ->. f_equal. rewrite Forall_forall in Hd. specialize (Hd ch Hin). unfold as_documented in Hd.
  unfold stored_field, field.
  destruct (Z.eqb_spec ch (CH "e")) as [E|]; [subst ch; simpl in *; by destruct (tm_mday x <? 10)|].
  destruct (Z.eqb_spec ch (CH "W")) as [E|]; [subst ch|done]. simpl in *. destruct (Z.eqb_spec (tm_wday x) 1); [done|].
  unfold weekdays_before. rewrite filter_seqZ_snoc by lia. rewrite decide_False; [by rewrite Z.add_0_r|].
  rewrite Z.sub_diag, Z.sub_0_r, Z.mod_small by lia. done.
Qed.

Lemma put_fail don bs rest :
  (length rest < length bs)%nat → put (don ++ rest) (Z.of_nat (length don)) bs = Fail OutOfBounds.
Proof.
  revert don rest. induction bs as [|b bs IH]; intros don rest Hl; simpl in *; [lia|].
  destruct rest as [|x rest].
  - unfold wr. rewrite app_nil_r. destruct (Z.ltb_spec (Z.of_nat (length don)) 0); [lia|].
    by rewrite (proj2 (Z.leb_le _ _)) by lia.
  - assert (E := put_ok don [b] (x :: rest) ltac:(simpl; lia)). simpl in E. rewrite drop_0 in E.
    destruct (wr _ _ _) as [s'|]; [|done]. cbn [mbind res_bind] in *. injection E as ->.
    replace (Z.of_nat (length don) + 1) with (Z.of_nat (length (don ++ [b]))) by (rewrite length_app; simpl; lia).
    assert (E := IH (don ++ [b]) rest ltac:(simpl in Hl; lia)). by rewrite <-app_assoc in E.
Qed.

Lemma format_span_plain lit c rest :
  forallb (λ c, negb (c =? 0) && negb (c =? CH "%")) lit = true → c = 0 ∨ c = CH "%" →
  format_span (lit ++ c :: rest) = Ok (lit, c :: rest).
Proof.
  intros Hlit Hc. induction lit as [|x lit IH]; simpl in *.
  - destruct Hc as [-> | ->]; done.
  - apply andb_prop in Hlit as [[Hx%negb_true_iff Hp%negb_true_iff]%andb_prop Hl].
    rewrite Hx, Hp. cbn [orb]. by rewrite IH.
Qed.

(** A broken-down time of the years 1970 to 9999 has every field in the range [strftime] needs. *)
Lemma stands_for_tm_ok x t :
  stands_for x t → 0 <= t < days_to_year 10000 * 86400 → 0 <= tm_wday x < 7 → tm_ok x.
Proof.
  intros (Hs & Hmi & Hh & Hmo & Hd & Hyd & Et) Ht Hw. unfold tm_ok.
  assert (Hm := days_of_month_pos (tm_year x + 1900) (tm_mon x)).
  assert (Hy : 0 <= tm_yday x <= 365).
  { rewrite Hyd. clear -Hmo Hd. generalize dependent (tm_year x + 1900). intros y Hd.
    assert (tm_mon x ∈ seqZ 0 12) as Hin by (apply elem_of_seqZ; lia). revert Hd.
    unfold days_to_month, days_of_month. case_bool_decide; simpl in Hin;
      repeat (apply elem_of_cons in Hin as [->|Hin]; [simpl; lia|]); by apply elem_of_nil in Hin. }
  change (days_to_year 10000) with 2932897 in Ht.
  unfold days_to_year in Et. splits; try lia; Z.div_mod_to_equations; lia.
Qed.

(** ** Properties *)

(** C36: for a broken-down time with its fields in range, a zone a whole number of hours
    away, a format without a percent sign at its end and a buffer with room for the text, [u__strftime]
    stores the text of the format followed by a NUL, leaves the rest of the buffer alone
    and returns the length. The text of a directive is that of the comment above the [switch]: the numbers have
    exactly their digits, [%U] counts the Sundays of the year so far and [%W] the Mondays. Left out
    ([as_documented]) are [%e] before the tenth and [%W] on Mondays, which the code writes otherwise
    ([strftime_e_W]). *)
Theorem u__strftime_correct adjust tzname x buf maxsize format tail :
  tm_ok x → adjust mod 3600 = 0 ∧ Z.abs adjust < 360000 → format_ok format = true →
  Forall (λ ch, as_documented x ch = true) (directives format) →
  let text := expand adjust tzname x format in
  (length text < length buf)%nat → Z.of_nat (length text) < maxsize →
  u__strftime adjust tzname x buf maxsize (format ++ 0 :: tail) =
    Ok (text ++ 0 :: drop (S (length text)) buf, Z.of_nat (length text)).
Proof. intros Hx Hadj Hok Hd text. unfold text. rewrite <-stored_documented by done. by apply u__strftime_ok. Qed.

Lemma u__strftime_correct_witness :
  let x := Tm 9 5 14 12 3 124 5 102 0 in
  u__strftime 7200 (BS "CEST") x (replicate 40 1) 40 (BS "%W %e %I%p %z" ++ [0]) =
    Ok (BS "15 12 02PM +0200" ++ 0 :: replicate 23 1, 16).
Proof.
  intros x.
  exact (u__strftime_correct 7200 (BS "CEST") x (replicate 40 1) 40 (BS "%W %e %I%p %z") []
    ltac:(unfold tm_ok; simpl; lia) ltac:(split; done) eq_refl ltac:(apply (bool_decide_eq_true_1 _); reflexivity)
    ltac:(vm_compute; lia) ltac:(vm_compute; done)).
Defined.

(** The leading zero of [%e] is not replaced by a space, and a Monday is not counted by the [%W] of the day. *)
Lemma strftime_e_W :
  let x := Tm 0 0 0 1 3 124 1 91 0 in
  u__strftime 0 [] x (replicate 9 1) 9 (BS "%e %W" ++ [0]) = Ok (BS "01 13" ++ 0 :: replicate 3 1, 5) ∧
  expand 0 [] x (BS "%e %W") = BS " 1 14".
Proof. by vm_compute. Qed.

(** [u_strftime] formats an instant of the years 1970 to 9999: the broken-down time is
    the one of the Gregorian calendar with the right day of the week, and the text that
    of the format for it, where the directives are written as documented. *)
Theorem u_strftime_correct adjust tzname buf maxsize format tail t :
  0 <= t < days_to_year 10000 * 86400 →
  adjust mod 3600 = 0 ∧ Z.abs adjust < 360000 → format_ok format = true →
  ∃ x, stands_for x t ∧ tm_wday x = (t / 86400 + 4) mod 7 ∧
    let text := expand adjust tzname x format in
    (Forall (λ ch, as_documented x ch = true) (directives format) → (length text < length buf)%nat → Z.of_nat (length text) < maxsize →
     u_strftime adjust tzname buf maxsize (format ++ 0 :: tail) t =
       Ok (text ++ 0 :: drop (S (length text)) buf, Z.of_nat (length text))).
Proof.
  intros Ht Hadj Hok. change (days_to_year 10000) with 2932897 in Ht.
  destruct (gmtime_r_ok t) as (x & E & Hx & _ & Hw).
  { change (days_to_year 0) with (-719528). lia. }
  exists x. specialize (Hw ltac:(lia)). split; [done|]. split; [done|]. intros text Hd Hl Hmax.
  assert (Htm : tm_ok x); cycle 1.
  { unfold u_strftime, text in *. rewrite E. cbn [mbind res_bind]. rewrite <-stored_documented in * by done. by apply u__strftime_ok. }
  apply (stands_for_tm_ok x t); [done|done|]. rewrite Hw. apply Z.mod_pos_bound. lia.
Qed.

Lemma u_strftime_correct_witness :
  ∃ x, stands_for x 951825600 ∧ tm_wday x = (951825600 / 86400 + 4) mod 7 ∧
    let text := expand 0 (BS "GMT") x (BS "%a, %d %b %Y %T %Z") in
    (Forall (λ ch, as_documented x ch = true) (directives (BS "%a, %d %b %Y %T %Z")) →
     (length text < length (replicate 40 0))%nat → Z.of_nat (length text) < 40 →
     u_strftime 0 (BS "GMT") (replicate 40 0) 40 (BS "%a, %d %b %Y %T %Z" ++ [0]) 951825600 =
       Ok (text ++ 0 :: drop (S (length text)) (replicate 40 0), Z.of_nat (length text))).
Proof.
  exact (u_strftime_correct 0 (BS "GMT") (replicate 40 0) 40 (BS "%a, %d %b %Y %T %Z") [] 951825600
    ltac:(vm_compute; split; [discriminate|reflexivity]) ltac:(split; done) eq_refl).
Defined.

(** Where the text does not fit, [u__strftime] does not return zero but writes past the buffer: a format
    without directives at least as long as the buffer overruns it, whatever [maxsize] is.
    A percent sign at the end of a format makes it read past the format's NUL. *)
Theorem u__strftime_overrun adjust tzname x buf maxsize lit :
  0 < maxsize → forallb (λ c, negb (c =? 0) && negb (c =? CH "%")) lit = true →
  ((length buf <= length lit)%nat →
   u__strftime adjust tzname x buf maxsize (lit ++ [0]) = Fail OutOfBounds) ∧
  ((length lit + 1 < length buf)%nat → Z.of_nat (length lit + 1) < maxsize →
   u__strftime adjust tzname x buf maxsize (lit ++ [CH "%"; 0]) = Fail OutOfBounds).
Proof.
  intros Hmax Hlit. unfold u__strftime. split.
  - intros Hl. rewrite length_app. simpl length. cbn [iterate strftime_step snd].
    destruct (Z.ltb_spec 0 maxsize); [|lia]. cbn [negb].
    rewrite format_span_plain by auto. cbn [mbind res_bind emit].
    destruct (decide (length buf < length lit)%nat) as [Hlt|Hge].
    { assert (E : put buf 0 lit = Fail OutOfBounds) by exact (put_fail [] lit buf Hlt). by rewrite E. }
    assert (E : put buf 0 lit = Ok (lit ++ drop (length lit) buf)) by (apply (put_ok [] lit buf); lia).
    rewrite E. cbn [mbind res_bind].
    change (rd [0] 0) with (@Ok Z 0). cbn [mbind res_bind Z.eqb].
    rewrite drop_ge, app_nil_r by lia. unfold wr.
    rewrite (proj2 (Z.leb_le (Z.of_nat (length lit)) _)) by lia. by rewrite orb_true_r.
  - intros Hl Hmax2. replace (S (length (lit ++ [CH "%"; 0]))) with (S (S (S (length lit)))) by (rewrite length_app; simpl; lia).
    cbn [iterate]. unfold strftime_step at 1. cbn [snd].
    destruct (Z.ltb_spec 0 maxsize); [|lia]. cbn [negb].
    rewrite format_span_plain by auto. cbn [mbind res_bind].
    destruct (emit_appends (buf, 0) lit [] buf eq_refl) as (rest1 & -> & Hl1 & _); [lia|]. cbn [mbind res_bind].
    change (rd [37; 0] 0) with (@Ok Z 37). change (rd [37; 0] 1) with (@Ok Z 0). cbn [mbind res_bind Z.eqb].
    change (strftime_switch adjust tzname x 0) with (λ o, emit o [CH "%"]). cbv beta.
    destruct (emit_appends (lit ++ rest1, Z.of_nat (length lit)) [CH "%"] lit rest1 eq_refl)
      as (rest2 & E2 & Hl2 & _); [simpl; lia|]. simpl app in *. rewrite E2. cbn [mbind res_bind].
    unfold strftime_step at 1. cbn [snd]. rewrite length_app. simpl length.
    destruct (Z.ltb_spec (Z.of_nat (length lit + 1)) maxsize); [|lia]. done.
Qed.

Lemma u__strftime_overrun_witness :
  u__strftime 0 [] (Tm 0 0 0 1 0 70 4 0 0) (replicate 3 0) 3 (BS "abc" ++ [0]) = Fail OutOfBounds.
Proof.
  exact (proj1 (u__strftime_overrun 0 [] (Tm 0 0 0 1 0 70 4 0 0) (replicate 3 0) 3 (BS "abc") ltac:(done) eq_refl)
    ltac:(simpl; lia)).
Defined.
