(* ===== verification/Strptime.v ===== *)
(** * Reading a time ([strptime], [src/ulib/replace/strptime.c])

    The text and the format are the memories from the two pointers on. The functions of
    [ctype.h] and [strncasecmp] are those of the C locale. *)

From S2P Require Import Prelude CType Time Strftime.

Definition isspace (c : Z) : bool := (c =? 32) || ((9 <=? c) && (c <=? 13)).
Definition isdigit (c : Z) : bool := (48 <=? c) && (c <=? 57).
Definition isalpha (c : Z) : bool := ((65 <=? c) && (c <=? 90)) || ((97 <=? c) && (c <=? 122)).

(** [strncasecmp(buf, name, strlen(name)) == 0] *)
Fixpoint strncaseeq (buf name : list Z) {struct name} : res bool :=
  match name with
  | [] => Ok true
  | n :: name' =>
      match buf with
      | [] => Fail OutOfBounds
      | c :: buf' => if tolower c =? tolower n then strncaseeq buf' name' else Ok false
      end
  end.

(** The table [En_US]. *)
Definition abbrev_month_names : list (list Z) :=
  [BS "Jan"; BS "Feb"; BS "Mar"; BS "Apr"; BS "May"; BS "Jun"; BS "Jul"; BS "Aug"; BS "Sep"; BS "Oct";
   BS "Nov"; BS "Dec"].
Definition month_names : list (list Z) :=
  [BS "January"; BS "February"; BS "March"; BS "April"; BS "May"; BS "June"; BS "July"; BS "August";
   BS "September"; BS "October"; BS "November"; BS "December"].
Definition abbrev_weekday_names : list (list Z) :=
  [BS "Sun"; BS "Mon"; BS "Tue"; BS "Wed"; BS "Thu"; BS "Fri"; BS "Sat"].
Definition weekday_names : list (list Z) :=
  [BS "Sunday"; BS "Monday"; BS "Tuesday"; BS "Wednesday"; BS "Thursday"; BS "Friday"; BS "Saturday"].
Definition time_format : list Z := BS "%H:%M:%S" ++ [0].
Definition sdate_format : list Z := BS "%m/%d/%y" ++ [0].
Definition am_string : list Z := BS "AM".
Definition pm_string : list Z := BS "PM".
Definition ldate_format : list Z := BS "%A, %B, %e, %Y" ++ [0].

Definition set_sec (t : tm) (v : Z) : tm := Tm v (tm_min t) (tm_hour t) (tm_mday t) (tm_mon t) (tm_year t) (tm_wday t) (tm_yday t) (tm_isdst t).
Definition set_min (t : tm) (v : Z) : tm := Tm (tm_sec t) v (tm_hour t) (tm_mday t) (tm_mon t) (tm_year t) (tm_wday t) (tm_yday t) (tm_isdst t).
Definition set_hour (t : tm) (v : Z) : tm := Tm (tm_sec t) (tm_min t) v (tm_mday t) (tm_mon t) (tm_year t) (tm_wday t) (tm_yday t) (tm_isdst t).
Definition set_mday (t : tm) (v : Z) : tm := Tm (tm_sec t) (tm_min t) (tm_hour t) v (tm_mon t) (tm_year t) (tm_wday t) (tm_yday t) (tm_isdst t).
Definition set_mon (t : tm) (v : Z) : tm := Tm (tm_sec t) (tm_min t) (tm_hour t) (tm_mday t) v (tm_year t) (tm_wday t) (tm_yday t) (tm_isdst t).
Definition set_year (t : tm) (v : Z) : tm := Tm (tm_sec t) (tm_min t) (tm_hour t) (tm_mday t) (tm_mon t) v (tm_wday t) (tm_yday t) (tm_isdst t).
Definition set_wday (t : tm) (v : Z) : tm := Tm (tm_sec t) (tm_min t) (tm_hour t) (tm_mday t) (tm_mon t) (tm_year t) v (tm_yday t) (tm_isdst t).
Definition set_yday (t : tm) (v : Z) : tm := Tm (tm_sec t) (tm_min t) (tm_hour t) (tm_mday t) (tm_mon t) (tm_year t) (tm_wday t) v (tm_isdst t).

(** The digits at [buf], at most [limit] of them when there is a limit. *)
Fixpoint number (limit : option nat) (buf : list Z) (i : Z) : res (Z * list Z) :=
  match buf with
  | [] => Fail OutOfBounds
  | c :: buf' =>
      if isdigit c then
        match limit with
        | Some O => Ok (i, buf)
        | Some (S l) => number (Some l) buf' (i32 (i * 10 + (c - CH "0")))
        | None => number None buf' (i32 (i * 10 + (c - CH "0")))
        end
      else Ok (i, buf)
  end.

(** [while ( *buf != 0 && isspace( *buf)) buf++] *)
Fixpoint skip_space (buf : list Z) : res (list Z) :=
  match buf with
  | [] => Fail OutOfBounds
  | c :: buf' => if isspace c then skip_space buf' else Ok buf
  end.

(** [while ( *ptr != 0 && !isspace( *ptr)) ptr++] *)
Fixpoint skip_format (ptr : list Z) : res (list Z) :=
  match ptr with
  | [] => Fail OutOfBounds
  | c :: ptr' => if (c =? 0) || isspace c then Ok ptr else skip_format ptr'
  end.

(** The text, the format and the fields; a case of the [switch] changes them or gives up ([None])
    with the fields as they are then. *)
Abbreviation cursor := (list Z * list Z * tm)%type.
Abbreviation outcome := (option (list Z * list Z) * tm)%type.

(** [if ( *buf != 0 && isspace( *buf)) while (...) ptr++;] *)
Definition skip_ptr (buf ptr : list Z) : res (list Z) :=
  c ← rd buf 0; if isspace c then skip_format ptr else Ok ptr.

(** The cases that read a number in a range, with [set] to store it. *)
Definition field_number (limit : nat) (lo hi : Z) (set : tm → Z → tm) (st : cursor) : res outcome :=
  let '(buf, ptr, t) := st in
  c ← rd buf 0;
  if negb (isdigit c) then Ok (None, t)
  else
    r ← number (Some limit) buf 0;
    let '(i, buf) := r in
    if (i <? lo) || (hi <? i) then Ok (None, t)
    else
      ptr ← skip_ptr buf ptr; Ok (Some (buf, ptr), set t i).

Definition strptime_j (st : cursor) : res outcome :=
  let '(buf, ptr, t) := st in
  c ← rd buf 0;
  if negb (isdigit c) then Ok (None, t)
  else
    r ← number None buf 0;
    let '(i, buf) := r in
    if 365 <? i then Ok (None, t) else Ok (Some (buf, ptr), set_yday t i).

(** [case 'M': case 'S':]; the text may end or have a blank instead of the number. *)
Definition strptime_MS (c : Z) (st : cursor) : res outcome :=
  let '(buf, ptr, t) := st in
  b ← rd buf 0;
  if (b =? 0) || isspace b then Ok (Some (buf, ptr), t)
  else field_number 2 0 59 (if c =? CH "M" then set_min else set_sec) st.

Definition strptime_HIkl (c : Z) (st : cursor) : res outcome :=
  field_number 2 0 (if (c =? CH "H") || (c =? CH "k") then 23 else 11) set_hour st.

Definition strptime_p (st : cursor) : res outcome :=
  let '(buf, ptr, t) := st in
  am ← strncaseeq buf am_string;
  if am : bool then
    if 12 <? tm_hour t then Ok (None, t)
    else
      let t := if tm_hour t =? 12 then set_hour t 0 else t in
      Ok (Some (drop (length am_string) buf, ptr), t)
  else
    pm ← strncaseeq buf pm_string;
    if pm : bool then
      if 12 <? tm_hour t then Ok (None, t)
      else
        let t := if negb (tm_hour t =? 12) then set_hour t (tm_hour t + 12) else t in
        Ok (Some (drop (length pm_string) buf, ptr), t)
    else Ok (None, t).

(** The first index whose full or abbreviated name is at [buf], and the length of that name. *)
Fixpoint find_name (buf : list Z) (names abbrevs : list (list Z)) (i : Z) : res (option (Z * nat)) :=
  match names, abbrevs with
  | name :: names', abbrev :: abbrevs' =>
      b ← strncaseeq buf name;
      if b : bool then Ok (Some (i, length name))
      else
        b ← strncaseeq buf abbrev;
        if b : bool then Ok (Some (i, length abbrev)) else find_name buf names' abbrevs' (i + 1)
  | _, _ => Ok None
  end.

Definition strptime_Aa (st : cursor) : res outcome :=
  let '(buf, ptr, t) := st in
  r ← find_name buf weekday_names abbrev_weekday_names 0;
  match r with
  | None => Ok (None, t)
  | Some (i, len) => Ok (Some (drop len buf, ptr), set_wday t i)
  end.

Definition strptime_de (st : cursor) : res outcome := field_number 2 0 31 set_mday st.

Definition strptime_Bbh (st : cursor) : res outcome :=
  let '(buf, ptr, t) := st in
  r ← find_name buf month_names abbrev_month_names 0;
  match r with
  | None => Ok (None, t)
  | Some (i, len) => Ok (Some (drop len buf, ptr), set_mon t i)
  end.

Definition strptime_m (st : cursor) : res outcome :=
  field_number 2 1 12 (λ t i, set_mon t (i - 1)) st.

Definition strptime_Yy (c : Z) (st : cursor) : res outcome :=
  let '(buf, ptr, t) := st in
  b ← rd buf 0;
  if (b =? 0) || isspace b then Ok (Some (buf, ptr), t)
  else if negb (isdigit b) then Ok (None, t)
  else
    r ← number (Some (if c =? CH "Y" then 4%nat else 2%nat)) buf 0;
    let '(i, buf) := r in
    let i := if c =? CH "Y" then i - 1900 else if i <? 69 then i + 100 else i in
    if i <? 0 then Ok (None, t)
    else ptr ← skip_ptr buf ptr; Ok (Some (buf, ptr), set_year t i).

(** The cases that are another format: [strptime] calls itself. *)
Definition composite (c : Z) : option (list Z) :=
  if c =? CH "C" then Some ldate_format
  else if c =? CH "c" then Some (BS "%x %X" ++ [0])
  else if c =? CH "D" then Some (BS "%m/%d/%y" ++ [0])
  else if c =? CH "R" then Some (BS "%H:%M" ++ [0])
  else if c =? CH "r" then Some (BS "%I:%M:%S %p" ++ [0])
  else if c =? CH "T" then Some (BS "%H:%M:%S" ++ [0])
  else if c =? CH "X" then Some time_format
  else if c =? CH "x" then Some sdate_format
  else None.

Abbreviation parser := (list Z → list Z → tm → res (option (list Z) * tm)).

Definition strptime_call (self : parser) (fmt : list Z) (st : cursor) : res outcome :=
  let '(buf, ptr, t) := st in
  r ← self buf fmt t;
  Ok (match r.1 with Some buf => Some (buf, ptr) | None => None end, r.2).

(** The [switch]; it has no default. *)
Definition strptime_switch (self : parser) (c : Z) (st : cursor) : res outcome :=
  let '(buf, ptr, t) := st in
  if (c =? 0) || (c =? CH "%") then
    b ← rd buf 0; Ok (if b =? CH "%" then Some (drop 1 buf, ptr) else None, t)
  else
    match composite c with
    | Some fmt => strptime_call self fmt st
    | None =>
        if c =? CH "j" then strptime_j st
        else if (c =? CH "M") || (c =? CH "S") then strptime_MS c st
        else if (c =? CH "H") || (c =? CH "I") || (c =? CH "k") || (c =? CH "l") then strptime_HIkl c st
        else if c =? CH "p" then strptime_p st
        else if (c =? CH "A") || (c =? CH "a") then strptime_Aa st
        else if (c =? CH "d") || (c =? CH "e") then strptime_de st
        else if (c =? CH "B") || (c =? CH "b") || (c =? CH "h") then strptime_Bbh st
        else if c =? CH "m" then strptime_m st
        else if (c =? CH "Y") || (c =? CH "y") then strptime_Yy c st
        else Ok (Some (buf, ptr), t)
    end.

(** One turn of the loop over the format. *)
Definition strptime_step (self : parser) (st : cursor) : res (cursor + option (list Z) * tm) :=
  let '(buf, ptr, t) := st in
  p ← rd ptr 0;
  if p =? 0 then Ok (inr (Some buf, t))
  else
    b ← rd buf 0;
    if b =? 0 then Ok (inr (Some buf, t))
    else
      let ptr := drop 1 ptr in
      if negb (p =? CH "%") then
        if isspace p then buf ← skip_space buf; Ok (inl (buf, ptr, t))
        else if p =? b then Ok (inl (drop 1 buf, ptr, t)) else Ok (inr (None, t))
      else
        c ← rd ptr 0;
        r ← strptime_switch self c (buf, drop 1 ptr, t);
        match r with
        | (Some (buf, ptr), t) => Ok (inl (buf, ptr, t))
        | (None, t) => Ok (inr (None, t))
        end.

(** [depth] bounds the nesting of the calls: a format of the table calls others at most once. Every
    turn of the loop advances in the format. *)
Fixpoint strptime_depth (depth : nat) (buf fmt : list Z) (t : tm) : res (option (list Z) * tm) :=
  match depth with
  | O => Fail OutOfFuel
  | S depth' => iterate (S (length fmt)) (strptime_step (strptime_depth depth')) (buf, fmt, t)
  end.

Definition strptime : parser := strptime_depth 3.

(** ** What reading back a formatted time must give *)

(** The fields that directive [ch] sets from the text written for [x]; [None] for the directives
    that are not read back. *)
Definition set_field (x : tm) (ch : Z) (t : tm) : option tm :=
  if (ch =? CH "a") || (ch =? CH "A") then Some (set_wday t (tm_wday x))
  else if (ch =? CH "b") || (ch =? CH "h") || (ch =? CH "B") then Some (set_mon t (tm_mon x))
  else if (ch =? CH "d") || (ch =? CH "e") then Some (set_mday t (tm_mday x))
  else if ch =? CH "H" then Some (set_hour t (tm_hour x))
  else if ch =? CH "I" then
    if tm_hour x mod 12 =? 0 then None else Some (set_hour t (tm_hour x mod 12))
  else if ch =? CH "p" then
    if tm_hour t =? tm_hour x mod 12 then Some (set_hour t (tm_hour x)) else None
  else if ch =? CH "m" then Some (set_mon t (tm_mon x))
  else if ch =? CH "M" then Some (set_min t (tm_min x))
  else if ch =? CH "S" then if tm_sec x <=? 59 then Some (set_sec t (tm_sec x)) else None
  else if (ch =? CH "T") || (ch =? CH "X") then
    if tm_sec x <=? 59 then
      Some (set_sec (set_min (set_hour t (tm_hour x)) (tm_min x)) (tm_sec x)) else None
  else if ch =? CH "Y" then if 0 <=? tm_year x then Some (set_year t (tm_year x)) else None
  else if ch =? CH "y" then
    if (69 <=? tm_year x) && (tm_year x <=? 168) then Some (set_year t (tm_year x)) else None
  else None.

(** The first character of what a format expands to, when it is literal; [k] follows the format. *)
Definition next_literal (k : Z) (format : list Z) : Z :=
  match format with [] => k | c :: _ => c end.

(** The fields read with a format from the text written with it: an abbreviated name must not be
    followed by a letter, and not by a directive; a blank not by another one. *)
Fixpoint parsed (k : Z) (format : list Z) (x t : tm) : option tm :=
  match format with
  | [] => Some t
  | c :: format' =>
      if c =? 0 then None
      else if c =? CH "%" then
        match format' with
        | [] => None
        | ch :: format'' =>
            let n := next_literal k format'' in
            if ((ch =? CH "a") || (ch =? CH "b") || (ch =? CH "h")) && (isalpha n || (n =? CH "%")) then None
            else match set_field x ch t with Some t => parsed k format'' x t | None => None end
        end
      else if isspace c && isspace (next_literal k format') then None
      else parsed k format' x t
  end.

(** ** Lemmas *)

Lemma number_two i k n rest :
  0 <= n < 100 → 0 <= i < 1000 →
  number (Some (S (S k))) (two_digits n ++ rest) i = number (Some k) rest (i * 100 + n).
Proof.
  intros Hn Hi. unfold two_digits. simpl. unfold isdigit.
  assert (0 <= n / 10 < 10) by (Z.div_mod_to_equations; lia).
  assert (0 <= n mod 10 < 10) by (Z.div_mod_to_equations; lia).
  rewrite !(proj2 (Z.leb_le _ _)) by lia. cbn [andb]. unfold i32.
  rewrite (Z.mod_small (i * 10 + (48 + n / 10 - 48) + 2 ^ 31)) by lia.
  rewrite Z.mod_small by lia. f_equal. Z.div_mod_to_equations. lia.
Qed.

Lemma number_stop rest i : rest ≠ [] → number (Some O) rest i = Ok (i, rest).
Proof. intros. destruct rest; [done|]. simpl. by destruct (isdigit _). Qed.

Lemma two_digits_digit n : 0 <= n < 100 → isdigit (48 + n / 10) = true.
Proof.
  intros. unfold isdigit. rewrite !(proj2 (Z.leb_le _ _)) by (Z.div_mod_to_equations; lia). done.
Qed.

Lemma digit_plain c : isdigit c = true → c ≠ 0 ∧ isspace c = false ∧ isalpha c = false ∧ c ≠ CH "%".
Proof.
  unfold isdigit, isspace, isalpha. intros [H1%Z.leb_le H2%Z.leb_le]%andb_prop.
  splits; try lia; repeat match goal with |- context [?a <=? ?b] => destruct (Z.leb_spec a b) | |- context [?a =? ?b] => destruct (Z.eqb_spec a b) end; try done; lia.
Qed.

(** What follows in the text is what follows in the format, when that is a blank. *)
Definition follows (text ptr : list Z) : Prop :=
  text ≠ [] ∧ ptr ≠ [] ∧ ∀ c, head text = Some c → isspace c = true → ∃ p, head ptr = Some p ∧ (isspace p = true ∨ p = 0).

Lemma skip_ptr_ok text ptr : follows text ptr → skip_ptr text ptr = Ok ptr.
Proof.
  intros (Ht & Hp & H). destruct text as [|c text]; [done|]. unfold skip_ptr.
  change (rd (c :: text) 0) with (@Ok Z c). cbn [mbind res_bind]. destruct (isspace c) eqn:E; [|done].
  destruct (H c eq_refl E) as (p & Hh & Hs). destruct ptr as [|p' ptr]; [done|]. simpl in *.
  injection Hh as ->. destruct Hs as [Hs| ->]; [|done]. rewrite Hs. by rewrite orb_true_r.
Qed.

Lemma field_number_ok lo hi set n text ptr t :
  0 <= n < 100 → lo <= n <= hi → follows text ptr →
  field_number 2 lo hi set (two_digits n ++ text, ptr, t) = Ok (Some (text, ptr), set t n).
Proof.
  intros Hn Hr Hf. unfold field_number.
  change (rd (two_digits n ++ text) 0) with (@Ok Z (48 + n / 10)). cbn [mbind res_bind].
  rewrite two_digits_digit by done. cbn [negb]. rewrite (number_two 0 0) by lia.
  rewrite number_stop by (by destruct Hf). cbn [mbind res_bind]. replace (0 * 100 + n) with n by lia.
  rewrite (proj2 (Z.ltb_ge n lo)), (proj2 (Z.ltb_ge hi n)) by lia. cbn [orb].
  by rewrite skip_ptr_ok.
Qed.

Lemma four_digits_number n text :
  0 <= n <= 9999 → text ≠ [] → number (Some 4%nat) (four_digits n ++ text) 0 = Ok (n, text).
Proof.
  intros Hn Ht. unfold four_digits. rewrite <-app_assoc.
  rewrite number_two, number_two by (Z.div_mod_to_equations; lia).
  rewrite number_stop by done. do 2 f_equal. Z.div_mod_to_equations. lia.
Qed.

Lemma tolower_nonalpha c l : isalpha c = false → 97 <= tolower l <= 122 → (tolower c =? tolower l) = false.
Proof.
  intros Hc Hl. apply Z.eqb_neq. intros E. rewrite <-E in Hl. revert Hc Hl. unfold isalpha, tolower.
  destruct (Z.leb_spec 65 c), (Z.leb_spec c 90), (Z.leb_spec 97 c), (Z.leb_spec c 122); simpl; try done; lia.
Qed.

Ltac each_of H n := assert (Hin := H); apply (elem_of_seqZ 0 n) in Hin; clear H;
  let l := eval vm_compute in (seqZ 0 n) in change (seqZ 0 n) with l in Hin;
  repeat (apply elem_of_cons in Hin as [->|Hin]); [..|by apply elem_of_nil in Hin].

Lemma find_month_name k text :
  0 <= k < 12 →
  find_name (nth (Z.to_nat k) mname [] ++ text) month_names abbrev_month_names 0 =
    Ok (Some (k, length (nth (Z.to_nat k) mname []))).
Proof. intros H. each_of H 12; vm_compute; reflexivity. Qed.

Lemma find_weekday_name k text :
  0 <= k < 7 →
  find_name (nth (Z.to_nat k) dname [] ++ text) weekday_names abbrev_weekday_names 0 =
    Ok (Some (k, length (nth (Z.to_nat k) dname []))).
Proof. intros H. each_of H 7; vm_compute; reflexivity. Qed.

(** Comparing a word followed by [c] with a name of letters: the name is not longer than the word. *)
Fixpoint word_eq (w name : list Z) {struct name} : bool :=
  match name, w with
  | [], _ => true
  | _ :: _, [] => false
  | n :: name', x :: w' => (tolower x =? tolower n) && word_eq w' name'
  end.

Fixpoint find_word (w : list Z) (names abbrevs : list (list Z)) (i : Z) : option (Z * nat) :=
  match names, abbrevs with
  | name :: names', abbrev :: abbrevs' =>
      if word_eq w name then Some (i, length name)
      else if word_eq w abbrev then Some (i, length abbrev) else find_word w names' abbrevs' (i + 1)
  | _, _ => None
  end.

Definition letters (name : list Z) : bool := forallb (λ n, (97 <=? tolower n) && (tolower n <=? 122)) name.

Lemma strncaseeq_word w c text name :
  isalpha c = false → letters name = true → strncaseeq (w ++ c :: text) name = Ok (word_eq w name).
Proof.
  intros Hc. revert w. induction name as [|n name IH]; intros w Hn; [done|].
  apply andb_prop in Hn as [[H1%Z.leb_le H2%Z.leb_le]%andb_prop Hn].
  destruct w as [|x w]; simpl.
  - by rewrite tolower_nonalpha.
  - destruct (tolower x =? tolower n); [by apply IH|done].
Qed.

Lemma find_name_word w c text names abbrevs i :
  isalpha c = false → forallb letters names = true → forallb letters abbrevs = true →
  find_name (w ++ c :: text) names abbrevs i = Ok (find_word w names abbrevs i).
Proof.
  intros Hc. revert abbrevs i. induction names as [|name names IH]; intros [|abbrev abbrevs] i; try done.
  intros [Hn Hns]%andb_prop [Ha Has]%andb_prop. simpl. rewrite !strncaseeq_word by done.
  cbn [mbind res_bind]. destruct (word_eq w name); [done|]. destruct (word_eq w abbrev); [done|]. by apply IH.
Qed.

Lemma find_month_abbrev k c text :
  0 <= k < 12 → isalpha c = false →
  find_name (take 3 (nth (Z.to_nat k) mname []) ++ c :: text) month_names abbrev_month_names 0 =
    Ok (Some (k, 3%nat)).
Proof. intros H Hc. rewrite find_name_word by done. each_of H 12; vm_compute; reflexivity. Qed.

Lemma find_weekday_abbrev k c text :
  0 <= k < 7 → isalpha c = false →
  find_name (take 3 (nth (Z.to_nat k) dname []) ++ c :: text) weekday_names abbrev_weekday_names 0 =
    Ok (Some (k, 3%nat)).
Proof. intros H Hc. rewrite find_name_word by done. each_of H 7; vm_compute; reflexivity. Qed.

Lemma drop_3_name names k text :
  0 <= k < Z.of_nat (length names) → forallb (λ n : list Z, (3 <=? length n)%nat) names = true →
  length (take 3 (nth (Z.to_nat k) names [])) = 3%nat ∧
  drop 3 (take 3 (nth (Z.to_nat k) names []) ++ text) = text.
Proof.
  intros Hk H. assert (Hl : length (take 3 (nth (Z.to_nat k) names [])) = 3%nat).
  { rewrite length_take. rewrite forallb_forall in H.
    assert (Hin : In (nth (Z.to_nat k) names []) names) by (apply nth_In; lia).
    specialize (H _ Hin). apply Nat.leb_le in H. lia. }
  split; [done|]. rewrite <-Hl at 1. apply drop_app_length.
Qed.

(** *** The directives read what [u__strftime] writes *)

Section Directives.
Context (self : parser) (adjust : Z) (tzname : list Z) (x : tm).
Context (Hx : tm_ok x).

Lemma strptime_MS_ok c n text ptr t :
  0 <= n <= 59 → follows text ptr →
  strptime_MS c (two_digits n ++ text, ptr, t) =
    Ok (Some (text, ptr), (if c =? CH "M" then set_min else set_sec) t n).
Proof.
  intros Hn Hf. unfold strptime_MS.
  change (rd (two_digits n ++ text) 0) with (@Ok Z (48 + n / 10)). cbn [mbind res_bind].
  destruct (digit_plain _ (two_digits_digit n ltac:(lia))) as (Hz%Z.eqb_neq & -> & _). rewrite Hz.
  cbn [orb]. by apply field_number_ok; [lia..|].
Qed.

Lemma strptime_HIkl_ok c n text ptr t :
  0 <= n <= (if (c =? CH "H") || (c =? CH "k") then 23 else 11) → follows text ptr →
  strptime_HIkl c (two_digits n ++ text, ptr, t) = Ok (Some (text, ptr), set_hour t n).
Proof.
  intros Hn Hf. unfold strptime_HIkl. apply field_number_ok; [|done..]. destruct (_ || _); lia.
Qed.

Lemma strptime_Yy_ok c n text ptr t :
  (c = CH "Y" ∧ 0 <= n <= 8099 ∨ c = CH "y" ∧ 69 <= n <= 168) → follows text ptr →
  strptime_Yy c ((if c =? CH "Y" then four_digits (1900 + n) else two_digits (n mod 100)) ++ text, ptr, t) =
    Ok (Some (text, ptr), set_year t n).
Proof.
  intros Hc Hf. assert (Ht : text ≠ []) by (by destruct Hf). unfold strptime_Yy.
  destruct Hc as [[-> Hn]|[-> Hn]]; cbn [Z.eqb Pos.eqb].
  - change (rd (four_digits (1900 + n) ++ text) 0) with (@Ok Z (48 + (1900 + n) / 100 / 10)).
    assert (Hd : isdigit (48 + (1900 + n) / 100 / 10) = true) by (apply two_digits_digit; Z.div_mod_to_equations; lia).
    cbn [mbind res_bind]. destruct (digit_plain _ Hd) as (Hz%Z.eqb_neq & -> & _). rewrite Hz, Hd. cbn [orb negb].
    rewrite four_digits_number by (lia || done). cbn [mbind res_bind].
    replace (1900 + n - 1900) with n by lia. destruct (Z.ltb_spec n 0); [lia|]. by rewrite skip_ptr_ok.
  - change (rd (two_digits (n mod 100) ++ text) 0) with (@Ok Z (48 + n mod 100 / 10)).
    assert (Hd : isdigit (48 + n mod 100 / 10) = true) by (apply two_digits_digit; Z.div_mod_to_equations; lia).
    cbn [mbind res_bind]. destruct (digit_plain _ Hd) as (Hz%Z.eqb_neq & -> & _). rewrite Hz, Hd. cbn [orb negb].
    rewrite number_two, number_stop by (done || lia || (Z.div_mod_to_equations; lia)). cbn [mbind res_bind].
    replace (if 0 * 100 + n mod 100 <? 69 then 0 * 100 + n mod 100 + 100 else 0 * 100 + n mod 100) with n
      by (zcases; Z.div_mod_to_equations; lia).
    destruct (Z.ltb_spec n 0); [lia|]. by rewrite skip_ptr_ok.
Qed.

Lemma strptime_p_ok text ptr t :
  tm_hour t = tm_hour x mod 12 →
  strptime_p ((if tm_hour x <? 12 then CH "A" else CH "P") :: CH "M" :: text, ptr, t) =
    Ok (Some (text, ptr), set_hour t (tm_hour x)).
Proof.
  intros Ht. destruct Hx as (_ & _ & Hh & _). unfold strptime_p.
  destruct (Z.ltb_spec (tm_hour x) 12).
  - change (strncaseeq (65 :: 77 :: text) am_string) with (Ok true). cbn [mbind res_bind].
    rewrite Ht, Z.mod_small by lia. destruct (Z.ltb_spec 12 (tm_hour x)), (Z.eqb_spec (tm_hour x) 12); [lia..|].
    simpl. do 2 f_equal. rewrite Z.mod_small in Ht by lia. destruct t; simpl in *. by subst.
  - change (strncaseeq (80 :: 77 :: text) am_string) with (Ok false).
    change (strncaseeq (80 :: 77 :: text) pm_string) with (Ok true). cbn [mbind res_bind].
    assert (Hm : tm_hour x mod 12 = tm_hour x - 12) by (Z.div_mod_to_equations; lia).
    destruct (Z.ltb_spec 12 (tm_hour t)), (Z.eqb_spec (tm_hour t) 12); [lia..|].
    simpl. rewrite drop_0. do 2 f_equal. unfold set_hour. f_equal. lia.
Qed.

Lemma strptime_Aa_ok (full : bool) c text ptr t :
  (full = false → isalpha c = false) →
  strptime_Aa ((if full then nth (Z.to_nat (tm_wday x)) dname [] else
                take 3 (nth (Z.to_nat (tm_wday x)) dname [])) ++ c :: text, ptr, t) =
    Ok (Some (c :: text, ptr), set_wday t (tm_wday x)).
Proof.
  intros Hc. destruct Hx as (_ & _ & _ & _ & _ & _ & Hw & _). unfold strptime_Aa. destruct full.
  - rewrite find_weekday_name by done. cbn [mbind res_bind]. by rewrite drop_app_length.
  - rewrite find_weekday_abbrev by auto. cbn [mbind res_bind].
    by rewrite (proj2 (drop_3_name dname _ _ Hw eq_refl)).
Qed.

Lemma strptime_Bbh_ok (full : bool) c text ptr t :
  (full = false → isalpha c = false) →
  strptime_Bbh ((if full then nth (Z.to_nat (tm_mon x)) mname [] else
                take 3 (nth (Z.to_nat (tm_mon x)) mname [])) ++ c :: text, ptr, t) =
    Ok (Some (c :: text, ptr), set_mon t (tm_mon x)).
Proof.
  intros Hc. destruct Hx as (_ & _ & _ & _ & Hm & _). unfold strptime_Bbh. destruct full.
  - rewrite find_month_name by done. cbn [mbind res_bind]. by rewrite drop_app_length.
  - rewrite find_month_abbrev by auto. cbn [mbind res_bind].
    by rewrite (proj2 (drop_3_name mname _ _ Hm eq_refl)).
Qed.

Lemma strptime_switch_ok ch c text ptr t t' :
  set_field x ch t = Some t' → composite ch = None →
  ((ch =? CH "a") || (ch =? CH "b") || (ch =? CH "h") = true → isalpha c = false) →
  follows (c :: text) ptr →
  strptime_switch self ch (stored_field adjust tzname x ch ++ c :: text, ptr, t) = Ok (Some (c :: text, ptr), t').
Proof.
  intros Hset Hcomp Ha Hf. destruct Hx as (? & ? & ? & ? & ? & ? & ? & ?).
  unfold strptime_switch. rewrite Hcomp. unfold set_field, stored_field, field in *.
  repeat match type of Hset with
  | context [ch =? ?k] => destruct (Z.eqb_spec ch k) as [->|];
      cbn [orb Z.eqb Pos.eqb] in Hset |- *
  end; try done; simplify_eq.
  - apply (strptime_Aa_ok false). auto.
  - by apply (strptime_Aa_ok true).
  - apply (strptime_Bbh_ok false). auto.
  - apply (strptime_Bbh_ok false). auto.
  - by apply (strptime_Bbh_ok true).
  - by apply field_number_ok; [lia..|].
  - by apply field_number_ok; [lia..|].
  - apply strptime_HIkl_ok; [simpl; lia|done].
  - destruct (Z.eqb_spec (tm_hour x mod 12) 0); simplify_eq.
    assert (E : (tm_hour x - 1) mod 12 + 1 = tm_hour x mod 12) by (Z.div_mod_to_equations; lia).
    rewrite E. apply strptime_HIkl_ok; [simpl; Z.div_mod_to_equations; lia|done].
  - case_match eqn:E; simplify_eq. by apply strptime_p_ok, Z.eqb_eq.
  - unfold strptime_m. rewrite field_number_ok by (done || lia). do 3 f_equal. lia.
  - apply (strptime_MS_ok (CH "M")); [lia|done].
  - case_match eqn:E; simplify_eq. apply Z.leb_le in E.
    apply (strptime_MS_ok (CH "S")); [lia|done].
  - case_match eqn:E; simplify_eq. apply Z.leb_le in E.
    apply (strptime_Yy_ok (CH "Y")); [left; lia|done].
  - case_match eqn:E; simplify_eq. apply andb_prop in E as [?%Z.leb_le ?%Z.leb_le].
    apply (strptime_Yy_ok (CH "y")); [right; lia|done].
Qed.

(** *** The loop *)

Lemma digit_head n : 0 <= n < 100 → 48 + n / 10 ≠ 0 ∧ isspace (48 + n / 10) = false.
Proof. intros H. destruct (digit_plain _ (two_digits_digit n H)) as (? & ? & _). done. Qed.

Lemma name_head names k text :
  0 <= k < Z.of_nat (length names) →
  forallb (λ n, match n with c :: _ => isalpha c | [] => false end) names = true →
  ∃ c r r', nth (Z.to_nat k) names [] ++ text = c :: r ∧ take 3 (nth (Z.to_nat k) names []) ++ text = c :: r'
    ∧ c ≠ 0 ∧ isspace c = false.
Proof.
  intros Hk H. rewrite forallb_forall in H.
  assert (Hin : In (nth (Z.to_nat k) names []) names) by (apply nth_In; lia).
  specialize (H _ Hin). destruct (nth (Z.to_nat k) names []) as [|c r]; [done|].
  exists c, (r ++ text), (take 2 r ++ text). splits; try done.
  - intros ->. done.
  - unfold isalpha in H. unfold isspace. revert H.
    destruct (Z.leb_spec 65 c), (Z.leb_spec 97 c); simpl; try done; intros _;
      repeat match goal with |- context [?a <=? ?b] => destruct (Z.leb_spec a b) | |- context [?a =? ?b] => destruct (Z.eqb_spec a b) end; try done; lia.
Qed.

(** The text of a directive that is read back starts with a digit or a letter. *)
Lemma field_head ch t t' text :
  set_field x ch t = Some t' →
  ∃ c r, stored_field adjust tzname x ch ++ text = c :: r ∧ c ≠ 0 ∧ isspace c = false.
Proof.
  intros Hset. destruct Hx as (? & ? & ? & ? & ? & ? & ? & ?). unfold set_field, stored_field, field in *.
  repeat match type of Hset with
  | context [ch =? ?k] => destruct (Z.eqb_spec ch k) as [->|];
      cbn [orb Z.eqb Pos.eqb] in Hset |- *
  end; try done.
  1: destruct (name_head dname (tm_wday x) text) as (c & r & r' & ? & ? & ? & ?); eauto.
  1: destruct (name_head dname (tm_wday x) text) as (c & r & r' & ? & ? & ? & ?); eauto.
  1: destruct (name_head mname (tm_mon x) text) as (c & r & r' & ? & ? & ? & ?); eauto.
  1: destruct (name_head mname (tm_mon x) text) as (c & r & r' & ? & ? & ? & ?); eauto.
  1: destruct (name_head mname (tm_mon x) text) as (c & r & r' & ? & ? & ? & ?); eauto.
  all: try (eexists _, _; split; [reflexivity|]; apply digit_head; Z.div_mod_to_equations; lia).
  eexists _, _. split; [reflexivity|]. by destruct (_ <? _).
Qed.

Lemma text_head k format t t' text :
  parsed k format x t = Some t' →
  ∃ c r, stored adjust tzname x format ++ k :: text = c :: r ∧
    (next_literal k format ≠ CH "%" → c = next_literal k format) ∧
    (next_literal k format = CH "%" → isspace c = false) ∧ (format ≠ [] → c ≠ 0).
Proof.
  unfold stored. destruct format as [|c format]; simpl; [intros _; exists k, text; splits; auto; by intros ->|].
  destruct (Z.eqb_spec c 0) as [->|]; [done|]. destruct (Z.eqb_spec c 37) as [->|].
  - destruct format as [|ch format]; [done|]. destruct (_ && _); [done|].
    destruct (set_field x ch t) as [t1|] eqn:E; [|done]. intros _. rewrite <-app_assoc.
    destruct (field_head _ _ _ (expand_with (stored_field adjust tzname x) format ++ k :: text) E) as (c & r & -> & ? & ?).
    by exists c, r.
  - intros _. by exists c, (expand_with (stored_field adjust tzname x) format ++ k :: text).
Qed.

Lemma text_follows k format t t' text ftail :
  parsed k format x t = Some t' →
  ∃ c r, stored adjust tzname x format ++ k :: text = c :: r ∧
    follows (c :: r) (format ++ 0 :: ftail) ∧
    (next_literal k format ≠ CH "%" → c = next_literal k format) ∧ (format ≠ [] → c ≠ 0).
Proof.
  intros H. destruct (text_head _ _ _ _ text H) as (c & r & E & H1 & H2 & H3). exists c, r.
  splits; auto. unfold follows; splits; [done|by destruct format|]. simpl. intros ? [= <-] Hs.
  destruct format as [|p format]; [simpl; eauto|]. exists p. split; [done|]. left.
  destruct (Z.eq_dec p (CH "%")) as [->|Hp]; [by rewrite H2 in Hs|]. by rewrite (H1 Hp) in Hs.
Qed.

(** The directives in [P] are read back. *)
Definition reads_back (P : Z → Prop) : Prop := ∀ ch c text ptr t t', P ch →
  set_field x ch t = Some t' →
  ((ch =? CH "a") || (ch =? CH "b") || (ch =? CH "h") = true → isalpha c = false) →
  follows (c :: text) ptr →
  strptime_switch self ch (stored_field adjust tzname x ch ++ c :: text, ptr, t) = Ok (Some (c :: text, ptr), t').

Lemma strptime_loop_ok P :
  reads_back P → ∀ n format t t' k text ftail, Forall P format → (length format < n)%nat →
  parsed k format x t = Some t' →
  iterate n (strptime_step self) (stored adjust tzname x format ++ k :: text, format ++ 0 :: ftail, t) =
    Ok (Some (k :: text), t').
Proof.
  intros HP. induction n as [|n IH]; intros format t t' k text ftail HPf Hn Hpar; [lia|].
  destruct format as [|p format]; [by injection Hpar as ->|].
  destruct (text_head _ _ _ _ text Hpar) as (c & r & E & H1 & _ & Hc0).
  specialize (Hc0 ltac:(done)). apply Z.eqb_neq in Hc0. cbn [iterate]. unfold strptime_step at 1.
  change (rd ((p :: format) ++ 0 :: ftail) 0) with (@Ok Z p). cbn [mbind res_bind].
  cbn [parsed] in Hpar. destruct (p =? 0); [done|]. rewrite E. change (rd (c :: r) 0) with (@Ok Z c).
  cbn [mbind res_bind]. rewrite Hc0, <-E. clear E. 
  change (stored adjust tzname x (p :: format)) with
    (if p =? CH "%" then match format with [] => [] | ch :: f => stored_field adjust tzname x ch ++ stored adjust tzname x f end
     else p :: stored adjust tzname x format). cbn [app drop].
  inversion HPf as [|? ? _ HPf']; subst.
  destruct (p =? CH "%") eqn:Hp; cbn [negb].
  - destruct format as [|ch format]; [done|]. cbn [app]. rewrite drop_0.
    change (rd (ch :: format ++ 0 :: ftail) 0) with (@Ok Z ch). cbn [mbind res_bind drop].
    destruct (((ch =? 97) || (ch =? 98) || (ch =? 104)) && _) eqn:Hab; [done|].
    destruct (set_field x ch t) as [t1|] eqn:Hset; [|done]. rewrite ?drop_0, <-app_assoc.
    destruct (text_follows _ _ _ _ text ftail Hpar) as (c1 & r1 & E1 & Hf & Hl & _). rewrite E1.
    inversion HPf' as [|? ? HPch HPf'']; subst.
    rewrite (HP ch c1 r1 _ _ _ HPch Hset); [|intros Habh; rewrite Habh in Hab; cbn [andb] in Hab|done].
    + cbn [mbind res_bind]. rewrite <-E1. apply IH; [done|simpl in Hn; lia|done].
    + apply orb_false_iff in Hab as [Hal Hnl]. apply Z.eqb_neq in Hnl. by rewrite (Hl Hnl).
  - rewrite drop_0. apply Z.eqb_neq in Hp. cbn [next_literal] in H1. specialize (H1 Hp). subst c.
    destruct (isspace p) eqn:Hs; cbn [andb] in Hpar.
    + destruct (isspace (next_literal k format)) eqn:Hs2; [done|].
      destruct (text_head _ _ _ _ text Hpar) as (c1 & r1 & E1 & Hl & Hl2 & _).
      assert (Hsp : isspace c1 = false).
      { destruct (Z.eq_dec (next_literal k format) (CH "%")) as [Hk|Hk]; [by apply Hl2|by rewrite (Hl Hk)]. }
      cbn [app skip_space]. rewrite Hs, E1. cbn [skip_space]. rewrite Hsp. cbn [mbind res_bind].
      rewrite <-E1. apply IH; [done|simpl in Hn; lia|done].
    + rewrite Z.eqb_refl. cbn [app drop]. rewrite drop_0. apply IH; [done|simpl in Hn; lia|done].
Qed.
End Directives.

Lemma simple_reads_back self adjust tzname x :
  tm_ok x → reads_back self adjust tzname x (λ ch, composite ch = None).
Proof. intros Hx ch c text ptr t t' HP Hset Ha Hf. by apply strptime_switch_ok. Qed.

Lemma full_time_reads_back depth adjust tzname x :
  tm_ok x → reads_back (strptime_depth (S depth)) adjust tzname x (λ _, True).
Proof.
  intros Hx ch c text ptr t t' _ Hset Ha Hf.
  destruct (decide (composite ch = None)) as [Hc|Hc]; [by apply strptime_switch_ok|].
  assert (Hch : (ch = CH "T" ∨ ch = CH "X") ∧ tm_sec x <= 59 ∧
    t' = set_sec (set_min (set_hour t (tm_hour x)) (tm_min x)) (tm_sec x)).
  { unfold set_field in Hset. repeat match type of Hset with
    | context [ch =? ?k] => destruct (Z.eqb_spec ch k) as [->|]; cbn [orb] in Hset
    end; try done; destruct (Z.leb_spec (tm_sec x) 59); simplify_eq; auto. }
  destruct Hch as (Hch & Hsec & ->).
  assert (E : composite ch = Some (BS "%H:%M:%S" ++ [0]) ∧ stored_field adjust tzname x ch = stored adjust tzname x (BS "%H:%M:%S")).
  { destruct Hch as [->| ->]; (split; [done|]); unfold stored_field, field; simpl; unfold time_text; by rewrite ?app_nil_r. }
  destruct E as [E1 E2]. unfold strptime_switch. rewrite E1, E2.
  assert (Hl : strptime_depth (S depth) (stored adjust tzname x (BS "%H:%M:%S") ++ c :: text) (BS "%H:%M:%S" ++ [0]) t =
    Ok (Some (c :: text), set_sec (set_min (set_hour t (tm_hour x)) (tm_min x)) (tm_sec x))).
  { apply (strptime_loop_ok _ adjust tzname x Hx _ (simple_reads_back _ adjust tzname x Hx) _ (BS "%H:%M:%S")).
    - by repeat constructor.
    - simpl. lia.
    - apply Z.leb_le in Hsec. simpl. unfold set_field. simpl. by rewrite Hsec. }
  destruct Hch as [->| ->]; cbn [orb Z.eqb Pos.eqb]; unfold strptime_call; rewrite Hl; done.
Qed.

(** ** Properties *)

(** C40: reading a time back. For a broken-down time with its fields in range, a buffer with room, and a format
    of directives that are read back and literal text, [strptime] accepts
    the text that [u__strftime] stores, consumes it to the NUL, and sets each field that a directive of the format
    shows to its value: the names in full or abbreviated, the date and time in numbers, years in two
    digits from 1969 to 2068, [%T] through its own format. Not among them are [%I] at noon and
    midnight, which [strptime] rejects (twelve is over its limit), a leap second, and [%j]. *)
Theorem strptime_reads_strftime adjust tzname x buf maxsize format t t' :
  tm_ok x → adjust mod 3600 = 0 ∧ Z.abs adjust < 360000 → format_ok format = true →
  parsed 0 format x t = Some t' →
  let text := expand adjust tzname x format in
  (length text < length buf)%nat → Z.of_nat (length text) < maxsize →
  ∃ s rest, u__strftime adjust tzname x buf maxsize (format ++ [0]) = Ok (s, Z.of_nat (length text)) ∧
    strptime s (format ++ [0]) t = Ok (Some (0 :: rest), t').
Proof.
  intros Hx Hadj Hok Hpar text Hl Hmax. eexists _, (drop (S (length text)) buf). unfold text in *. rewrite <-stored_length in *. split.
  - by apply u__strftime_ok.
  - apply (strptime_loop_ok _ adjust tzname x Hx _ (full_time_reads_back 1 adjust tzname x Hx)); [|rewrite length_app; simpl; lia|done].
    by apply Forall_forall.
Qed.

Lemma strptime_reads_strftime_witness :
  let x := Tm 9 5 14 1 3 124 1 91 0 in
  let t := Tm 0 0 0 0 0 0 0 0 0 in
  parsed 0 (BS "%a %e %b %y, %I:%M %p") x t = Some (Tm 0 5 14 1 3 124 1 0 0) ∧
  ∃ s rest, u__strftime 0 [] x (replicate 40 1) 40 (BS "%a %e %b %y, %I:%M %p" ++ [0]) = Ok (s, 23) ∧
    strptime s (BS "%a %e %b %y, %I:%M %p" ++ [0]) t = Ok (Some (0 :: rest), Tm 0 5 14 1 3 124 1 0 0).
Proof.
  intros x t. split; [vm_compute; reflexivity|].
  exact (strptime_reads_strftime 0 [] x (replicate 40 1) 40 (BS "%a %e %b %y, %I:%M %p") t _
    ltac:(unfold tm_ok; simpl; lia) ltac:(split; done) eq_refl ltac:(vm_compute; reflexivity)
    ltac:(vm_compute; lia) ltac:(vm_compute; done)).
Defined.

(** [%I] and [%j] are not read back as written: a text of the hour twelve is rejected, whatever
    follows, and the day of the year, which [u__strftime] counts from one, is stored as it stands, so the
    field is one more than it was (and day 366 is rejected). *)
Theorem strptime_not_read_back text ptr self t n :
  strptime_switch self (CH "I") (BS "12" ++ text, ptr, t) = match text with [] => Fail OutOfBounds | _ => Ok (None, t) end ∧
  (0 <= n <= 365 → head text ≠ None → (∀ c, head text = Some c → isdigit c = false) →
   strptime_switch self (CH "j") (three_digits (n + 1) ++ text, ptr, t) =
     Ok (if n =? 365 then (None, t) else (Some (text, ptr), set_yday t (n + 1)))).
Proof.
  split.
  - destruct text as [|c text]; [done|]. unfold strptime_switch. simpl.
    unfold strptime_HIkl, field_number. simpl. by destruct (isdigit c).
  - intros Hn Hne Hd. destruct text as [|c text]; [done|]. specialize (Hd c eq_refl).
    match goal with |- strptime_switch _ _ ?st = _ => change (strptime_switch self 106 st) with (strptime_j st) end.
    unfold strptime_j, three_digits.
    assert (H100 : 0 <= (n + 1) / 100 < 10) by (Z.div_mod_to_equations; lia).
    assert (Hm : 0 <= (n + 1) mod 100 < 100) by (Z.div_mod_to_equations; lia).
    assert (H1 : isdigit (48 + (n + 1) / 100) = true)
      by (unfold isdigit; rewrite !(proj2 (Z.leb_le _ _)) by lia; done).
    assert (H2 := two_digits_digit _ Hm).
    assert (H3 : isdigit (48 + (n + 1) mod 100 mod 10) = true)
      by (unfold isdigit; rewrite !(proj2 (Z.leb_le _ _)) by (Z.div_mod_to_equations; lia); done).
    unfold two_digits. cbn [app].
    match goal with |- context [rd (?a :: ?l) 0] => change (rd (a :: l) 0) with (@Ok Z a) end.
    cbn [mbind res_bind number]. rewrite H1, H2, H3, Hd. cbn [negb].
    cbn [mbind res_bind]. unfold i32.
    rewrite (Z.mod_small (0 * 10 + (48 + (n + 1) / 100 - 48) + 2 ^ 31)) by lia.
    rewrite (Z.mod_small ((_ * 10) + (48 + (n + 1) mod 100 / 10 - 48) + 2 ^ 31)) by (Z.div_mod_to_equations; lia).
    rewrite Z.mod_small by (Z.div_mod_to_equations; lia).
    match goal with |- context [365 <? ?a] => replace a with (n + 1) by (Z.div_mod_to_equations; lia) end.
    destruct (Z.ltb_spec 365 (n + 1)), (Z.eqb_spec n 365); try lia; done.
Qed.

Lemma strptime_not_read_back_witness :
  (0 <= 59 <= 365) ∧ strptime_switch strptime (CH "j") (BS "060" ++ [0], [0], Tm 0 0 0 0 0 0 0 0 0) =
    Ok (Some ([0], [0]), Tm 0 0 0 0 0 0 0 60 0).
Proof.
  split; [lia|].
  exact (proj2 (strptime_not_read_back [0] [0] strptime (Tm 0 0 0 0 0 0 0 0 0) 59)
    ltac:(lia) ltac:(done) ltac:(by intros ? [= <-])).
Defined.
