(* ===== verification/Date.v ===== *)
(** * Dates ([UTimeDate] in [src/ulib/date.cpp], [include/ulib/date.h]; [u_getMonth] in
    [src/ulib/base/base.c])

    A date is its day, month and year with the Julian day number, 0 when it is not computed
    yet; the methods that read the number store it. [localtime_r], [mktime] and [sscanf] are parameters.
    The results of [int] arithmetic are reduced to 32 bits: the overflow of an [int], undefined in C, is written
    as the wrap-around of the machine, and the theorems are about the range of the class, the
    14th of September 1752 to the end of the year 8000, where there is none. The assertions of the debug
    build are not modelled. *)

From S2P Require Import Prelude CType Time Strftime Strptime.

(** ** The calendar of the class *)

Record date := Date { julian : Z; _day : Z; _month : Z; _year : Z }.

#[global] Instance date_eq_dec : EqDecision date.
Proof. solve_decision. Defined.

Definition FIRST_DAY : Z := 2361222.
Definition FIRST_YEAR : Z := 1752.

Definition monthDays : list Z := [0; 31; 28; 31; 30; 31; 30; 31; 31; 30; 31; 30; 31].

Definition leapYear (y : Z) : bool :=
  (Z.rem y 4 =? 0) && (negb (Z.rem y 100 =? 0) || (Z.rem y 400 =? 0)).

Definition toJulian (day month year : Z) : Z :=
  let '(month, year) := if 2 <? month then (month - 3, year) else (month + 9, i32 (year - 1)) in
  let century := Z.quot year 100 in
  let year := year - century * 100 in
  i32 (1721119 + day + Z.quot (i32 (146097 * century)) 4 + Z.quot (1461 * year) 4 + Z.quot (i32 (153 * month + 2)) 5).

(** The assignments of [fromJulian], which leave [julian] alone; the result is the day, month and year. *)
Definition fromJulian (j : Z) : Z * Z * Z :=
  let j := i32 (j - 1721119) in
  let year := Z.quot (i32 (j * 4 - 1)) 146097 in
  let j := i32 (j * 4 - 1) - 146097 * year in
  let day := Z.quot j 4 in
  let j := Z.quot (day * 4 + 3) 1461 in
  let day := day * 4 + 3 - 1461 * j in
  let day := Z.quot (day + 4) 4 in
  let month := Z.quot (5 * day - 3) 153 in
  let day := 5 * day - 3 - 153 * month in
  let day := Z.quot (day + 5) 5 in
  let year := 100 * year + j in
  if month <? 10 then (day, month + 3, year) else (day, month - 9, year + 1).

Definition isValid (d : date) : res bool :=
  if (_year d <? FIRST_YEAR) ||
     ((_year d =? FIRST_YEAR) && ((_month d <? 9) || ((_month d =? 9) && (_day d <? 14))))
  then Ok false
  else if (0 <? _day d) && (0 <? _month d) && (_month d <=? 12) then
    n ← rd monthDays (_month d);
    Ok ((_day d <=? n) || ((_day d =? 29) && (_month d =? 2) && leapYear (_year d)))
  else Ok false.

Definition getDaysInMonth (d : date) : res Z :=
  if (_month d =? 2) && leapYear (_year d) then Ok 29 else rd monthDays (_month d).

(** ** Operations *)

Definition getJulian (d : date) : Z * date :=
  if negb (julian d =? 0) then (julian d, d)
  else
    let j := toJulian (_day d) (_month d) (_year d) in
    (j, Date j (_day d) (_month d) (_year d)).

(** Store the number [j] and the fields that belong to it. *)
Definition set_julian (j : Z) : date :=
  let '(day, month, year) := fromJulian j in Date j day month year.

Definition addDays (d : date) (days : Z) : date := set_julian (i32 ((getJulian d).1 + days)).

Definition addYears (d : date) (years : Z) : date :=
  let year := i32 (_year d + years) in
  Date (toJulian (_day d) (_month d) year) (_day d) (_month d) year.

(** One turn of the loop of [addMonths]; the state is [nmonths], [_month] and [_year]. *)
Definition addMonths_step (st : Z * Z * Z) : res (Z * Z * Z + Z * Z) :=
  let '(nmonths, month, year) := st in
  if nmonths =? 0 then Ok (inr (month, year))
  else if (nmonths <? 0) && (nmonths + 12 <=? 0) then Ok (inl (nmonths + 12, month, i32 (year - 1)))
  else if nmonths <? 0 then
    let month := i32 (month + nmonths) in
    Ok (inl (if month <=? 0 then (0, month + 12, i32 (year - 1)) else (0, month, year)))
  else if 0 <=? nmonths - 12 then Ok (inl (nmonths - 12, month, i32 (year + 1)))
  else if month =? 12 then Ok (inl (nmonths, 0, i32 (year + 1)))
  else
    let month := i32 (month + nmonths) in
    Ok (inl (if 12 <? month then (0, month - 12, i32 (year + 1)) else (0, month, year))).

Definition addMonths (d : date) (nmonths : Z) : res date :=
  r ← iterate (Z.to_nat (Z.abs nmonths / 12 + 4)) addMonths_step (nmonths, _month d, _year d);
  let '(month, year) := r in
  days_in_month ← (if (month =? 2) && leapYear year then Ok 29 else rd monthDays month);
  Ok (Date (julian d) (if days_in_month <? _day d then days_in_month else _day d) month year).

Definition setYear (d : date) (year : Z) : date :=
  let y := year in
  let y := if year <? 150 then y + 1900 else y in
  let y := if year <? 50 then y + 100 else y in
  Date (if negb (julian d =? 0) then toJulian (_day d) (_month d) y else julian d) (_day d) (_month d) y.

Definition set_date (day month year : Z) : date := setYear (Date 0 day month 0) year.

(** The constructor from a day of the year and a year. *)
Definition date_of_day (day year : Z) : date := set_julian (i32 (toJulian 1 1 year - 1 + day)).

Definition fromTime (localtime : Z → tm) (t : Z) : date :=
  if negb (t =? 0) then
    let x := localtime t in Date 0 (tm_mday x) (tm_mon x + 1) (tm_year x + 1900)
  else Date 2440588 1 1 1970.

Definition add_date (d e : date) : date := set_julian (i32 ((getJulian d).1 + (getJulian e).1)).
Definition sub_date (d e : date) : date := set_julian (i32 ((getJulian d).1 - (getJulian e).1)).

Definition daysTo (d e : date) : Z := i32 ((getJulian e).1 - (getJulian d).1).

Definition getDayOfWeek (d : date) : Z := Z.rem (i32 ((getJulian d).1 + 1)) 7.

Definition getDayOfYear (d : date) : Z :=
  let y := i32 (_year d - 1901) in i32 ((getJulian d).1 - y * 365 - Z.quot y 4 - 2415385).

Definition date_eqb (d e : date) : bool := (getJulian d).1 =? (getJulian e).1.
Definition date_ltb (d e : date) : bool := (getJulian d).1 <? (getJulian e).1.
Definition date_leb (d e : date) : bool := (getJulian d).1 <=? (getJulian e).1.

Definition getSecondFromJulian (_julian : Z) : Z := i32 (_julian - 2440588) * 86400.
Definition getSecond (d : date) : Z := getSecondFromJulian (getJulian d).1.

(** ** Times in HTTP headers and certificates *)

Definition u_months : list (list Z) :=
  map bytes_of ["jan"; "feb"; "mar"; "apr"; "may"; "jun"; "jul"; "aug"; "sep"; "oct"; "nov"; "dec"]%string.
Definition u_months_it : list (list Z) :=
  map bytes_of ["gen"; "feb"; "mar"; "apr"; "mag"; "giu"; "lug"; "ago"; "set"; "ott"; "nov"; "dic"]%string.

(** The comparison of three characters, up to the first difference. *)
Fixpoint month_eq (ptr buf : list Z) : res bool :=
  match ptr with
  | [] => Ok true
  | c :: ptr' =>
      match buf with
      | [] => Fail OutOfBounds
      | x :: buf' => if c =? u__tolower x then month_eq ptr' buf' else Ok false
      end
  end.

Fixpoint find_month (names names_it : list (list Z)) (buf : list Z) (i : Z) : res Z :=
  match names, names_it with
  | ptr :: names, ptr_it :: names_it =>
      b ← month_eq ptr buf;
      if b : bool then Ok (i + 1) else
      b ← month_eq ptr_it buf;
      if b : bool then Ok (i + 1) else find_month names names_it buf (i + 1)
  | _, _ => Ok 0
  end.

Definition u_getMonth (buf : list Z) : res Z := find_month u_months u_months_it buf 0.

(** [atoi] is the [int] of [strtol(s, 0, 10)], which stops at the limits of a [long]. *)
Fixpoint digits_value (buf : list Z) (i : Z) : res Z :=
  match buf with
  | [] => Fail OutOfBounds
  | c :: buf' => if isdigit c then digits_value buf' (i * 10 + (c - CH "0")) else Ok i
  end.

Definition atoi (buf : list Z) : res Z :=
  buf ← skip_space buf;
  c ← rd buf 0;
  n ← digits_value (if (c =? CH "-") || (c =? CH "+") then drop 1 buf else buf) 0;
  Ok (i32 (if c =? CH "-" then Z.max (- 2 ^ 63) (- n) else Z.min (2 ^ 63 - 1) n)).

(** [getSecondFromTime(str)] of a text HH:MM:SS. *)
Definition seconds_of_day (str : list Z) : res Z :=
  h ← atoi str; m ← atoi (drop 3 str); s ← atoi (drop 6 str);
  Ok (60 * 60 * h + 60 * m + s).

(** What [sscanf] stores into the six fields, in this order, for the values it converts. *)
Fixpoint store_fields (set : list (tm → Z → tm)) (vs : list Z) (t : tm) : tm :=
  match set, vs with
  | f :: set, v :: vs => store_fields set vs (f t v)
  | _, _ => t
  end.

Definition scan_order : list (tm → Z → tm) := [set_year; set_mon; set_mday; set_hour; set_min; set_sec].

Section SecondFromTime.
(** The six numbers [sscanf] reads of a text in a format (fewer when it stops early), and [mktime]
    with the fields it normalises. *)
Context (sscanf : list Z → list Z → list Z) (mktime : tm → Z * tm).

Definition scan_fields (str fmt : list Z) (t : tm) : option tm :=
  let vs := sscanf str fmt in
  if negb (Z.of_nat (length vs) =? 6) then None
  else
    let t := store_fields scan_order vs t in
    Some (if tm_year t <? 50 then set_year t (tm_year t + 2000)
          else if tm_year t <? 100 then set_year t (tm_year t + 1900) else t).

(** The fields read from the text, [None] when the [sscanf] does not read six of them. *)
Definition read_fields (str : list Z) (gmt : bool) (fmt : list Z) : res (option tm) :=
  let t := Tm 0 0 0 0 0 0 0 0 0 in
  if gmt then
    c ← rd str 3;
    if c =? CH "," then
      mday ← atoi (drop 5 str);
      mon ← u_getMonth (drop 8 str);
      year ← atoi (drop 12 str);
      hour ← atoi (drop 17 str);
      min ← atoi (drop 20 str);
      sec ← atoi (drop 23 str);
      Ok (Some (Tm sec min hour mday mon year 0 0 0))
    else
      mon ← u_getMonth str;
      if negb (mon =? 0) then
        mday ← atoi (drop 4 str);
        hour ← atoi (drop 7 str);
        min ← atoi (drop 10 str);
        sec ← atoi (drop 13 str);
        year ← atoi (drop 16 str);
        Ok (Some (Tm sec min hour mday mon year 0 0 0))
      else Ok (scan_fields str fmt t)
  else Ok (scan_fields str fmt t).

Definition fields_ok (t : tm) : bool :=
  negb ((tm_year t <? 1900) || (tm_mon t <? 1) || (12 <? tm_mon t) ||
        (tm_mday t <? 1) || (31 <? tm_mday t) || (tm_hour t <? 0) || (23 <? tm_hour t) ||
        (tm_min t <? 0) || (59 <? tm_min t) || (tm_sec t <? 0) || (61 <? tm_sec t)).

Definition getSecondFromTime (str : list Z) (gmt : bool) (fmt : list Z) : res Z :=
  r ← read_fields str gmt fmt;
  match r with
  | None => Ok (-1)
  | Some t =>
      if negb (fields_ok t) then Ok (-1)
      else if gmt then
        let _julian := toJulian (tm_mday t) (tm_mon t) (tm_year t) in
        let s := getSecondFromJulian _julian in
        Ok (if s <? 0 then 2 ^ 63 - 1 else s + (tm_sec t + tm_min t * 60 + tm_hour t * 3600))
      else
        let t := set_year t (tm_year t - 1900) in
        let t := set_mon t (tm_mon t - 1) in
        Ok (mktime (Tm (tm_sec t) (tm_min t) (tm_hour t) (tm_mday t) (tm_mon t) (tm_year t)
                      (tm_wday t) (tm_yday t) (-1))).1
  end.
End SecondFromTime.

(** ** Specification *)

(** The day number of the Gregorian calendar of [Time], moved to the Julian epoch. *)
Definition julian_day (day month year : Z) : Z :=
  days_to_year year + days_to_month year (month - 1) + day - 1 + 2440588.

(** The 31st of December of the year 8000, the last the assertions of the class allow. *)
Definition LAST_DAY : Z := 4643365.

Definition valid_date (day month year : Z) : Prop :=
  1 <= month <= 12 ∧ 1 <= day <= days_of_month year (month - 1).

(** The stored number is that of the fields, or is not there. *)
Definition consistent (d : date) : Prop :=
  julian d = 0 ∨ julian d = toJulian (_day d) (_month d) (_year d).

(** ** Lemmas *)

Lemma month_cases (P : Z → Prop) m : 1 <= m <= 12 →
  P 1 → P 2 → P 3 → P 4 → P 5 → P 6 → P 7 → P 8 → P 9 → P 10 → P 11 → P 12 → P m.
Proof.
  intros Hm. intros. assert (m = 1 ∨ m = 2 ∨ m = 3 ∨ m = 4 ∨ m = 5 ∨ m = 6 ∨ m = 7 ∨ m = 8 ∨ m = 9 ∨
    m = 10 ∨ m = 11 ∨ m = 12) as Hc by lia.
  repeat (destruct Hc as [-> | Hc]; [done|]). by subst m.
Qed.

Lemma leapYear_ok y : 0 <= y → leapYear y = bool_decide (leap_year y).
Proof.
  intros Hy. unfold leapYear. rewrite !Z.rem_mod_nonneg by lia. symmetry.
  destruct (Z.eqb_spec (y mod 4) 0), (Z.eqb_spec (y mod 100) 0), (Z.eqb_spec (y mod 400) 0);
    cbn [negb andb orb]; first [apply bool_decide_eq_true_2 | apply bool_decide_eq_false_2];
    unfold leap_year; try lia; tauto.
Qed.

(** The months of a year that begins in March have their days counted by one formula. *)
Lemma days_to_month_march y m : 1 <= m <= 12 →
  days_to_month y (m - 1) =
    if 2 <? m then (153 * (m - 3) + 2) / 5 + 59 + (days_of_month y 1 - 28)
    else (153 * (m + 9) + 2) / 5 - 306.
Proof.
  intros Hm. pattern m. apply (month_cases _ m Hm).
  all: unfold days_to_month; cbv -[bool_decide Z.modulo Z.add]; repeat case_bool_decide; reflexivity.
Qed.

(** The day number with the year split at March. *)
Lemma julian_day_march day month year : 1 <= month <= 12 →
  let y := if 2 <? month then year else year - 1 in
  let m := if 2 <? month then month - 3 else month + 9 in
  julian_day day month year = 1721119 + day + 365 * y + y / 4 - y / 100 + y / 400 + (153 * m + 2) / 5.
Proof.
  intros Hm y m. unfold julian_day. rewrite days_to_month_march by done.
  unfold days_to_year, days_of_month, y, m. destruct (Z.ltb_spec 2 month); [|Z.div_mod_to_equations; lia].
  cbn [Z.eqb Pos.eqb]. case_bool_decide as Hl; Z.div_mod_to_equations; lia.
Qed.

Lemma toJulian_eq day month year : 1 <= year <= 10000 → 1 <= month <= 12 → 0 <= day <= 366 →
  toJulian day month year = julian_day day month year.
Proof.
  intros Hy Hm Hd. rewrite julian_day_march by done. unfold toJulian.
  destruct (Z.ltb_spec 2 month); rewrite ?(i32_small (year - 1)), !(i32_small (146097 * _)), !(i32_small (153 * _ + 2)), i32_small
    by (Z.to_euclidean_division_equations; lia); rewrite !Z.quot_div_nonneg by (try lia; rewrite ?Z.quot_div_nonneg by lia; Z.div_mod_to_equations; lia);
    Z.div_mod_to_equations; lia.
Qed.

(** The length of a month, and of the year that ends with February, by the same formula. *)
Lemma valid_march day month year : valid_date day month year →
  let y := if 2 <? month then year else year - 1 in
  let m := if 2 <? month then month - 3 else month + 9 in
  let x := day + (153 * m + 2) / 5 in
  0 <= m <= 11 ∧ 1 <= x <= 366 ∧ 153 * m + 3 <= 5 * x < 153 * (m + 1) + 3 ∧
  (x = 366 → y mod 4 = 3 ∧ (y mod 100 = 99 → (y / 100) mod 4 = 3)).
Proof.
  intros [Hm Hd] y m x. revert Hd. unfold x, y, m. pattern month.
  apply (month_cases _ month Hm).
  all: unfold days_of_month; zcases; try lia; cbn [orb]; try (case_bool_decide); intros Hd; splits; try lia; try (Z.div_mod_to_equations; lia).
Qed.

(** [fromJulian] of the day [x] of a year [r] of the century [c], counted from March. *)
Lemma fromJulian_march x c r m day :
  0 <= m <= 11 → 1 <= x <= 366 → 153 * m + 3 <= 5 * x < 153 * (m + 1) + 3 → 0 <= c <= 100 → 0 <= r < 100 →
  (x = 366 → r mod 4 = 3 ∧ (r = 99 → c mod 4 = 3)) →
  5 * x = 5 * day + 153 * m + 2 - (153 * m + 2) mod 5 →
  fromJulian (x + 146097 * c / 4 + 1461 * r / 4 + 1721119) =
    if m <? 10 then (day, m + 3, 100 * c + r) else (day, m - 9, 100 * c + r + 1).
Proof.
  intros Hm Hx Hmo Hc Hr Hxr Ed. unfold fromJulian. cbv zeta.
  rewrite (i32_small (_ - 1721119)) by (clear Ed; Z.div_mod_to_equations; lia).
  rewrite i32_small by (clear Ed; Z.div_mod_to_equations; lia).
  assert (E1 : Z.quot ((x + 146097 * c / 4 + 1461 * r / 4 + 1721119 - 1721119) * 4 - 1) 146097 = c).
  { rewrite Z.quot_div_nonneg by (Z.div_mod_to_equations; lia). symmetry.
    apply (Z.div_unique _ _ _ ((x + 1461 * r / 4) * 4 - 1 - c mod 4)); [|Z.div_mod_to_equations; lia].
    left. Z.div_mod_to_equations. lia. }
  rewrite E1. cbv zeta.
  assert (E2 : Z.quot ((x + 146097 * c / 4 + 1461 * r / 4 + 1721119 - 1721119) * 4 - 1 - 146097 * c) 4
    = x + 1461 * r / 4 - 1).
  { rewrite Z.quot_div_nonneg by (Z.div_mod_to_equations; lia). clear Hxr Hmo Ed E1. Z.div_mod_to_equations; lia. }
  rewrite E2.
  assert (E3 : Z.quot ((x + 1461 * r / 4 - 1) * 4 + 3) 1461 = r).
  { clear E1 E2 Ed Hmo. rewrite Z.quot_div_nonneg by (Z.div_mod_to_equations; lia).
    Z.div_mod_to_equations; lia. }
  rewrite E3.
  assert (E4 : Z.quot ((x + 1461 * r / 4 - 1) * 4 + 3 - 1461 * r + 4) 4 = x).
  { clear E1 E2 E3 Ed Hmo Hxr. rewrite Z.quot_div_nonneg by (Z.div_mod_to_equations; lia).
    Z.div_mod_to_equations; lia. }
  rewrite E4. clear E1 E2 E3 E4 Hxr.
  assert (E5 : Z.quot (5 * x - 3) 153 = m)
    by (rewrite Z.quot_div_nonneg by lia; clear Ed; Z.div_mod_to_equations; lia).
  rewrite E5.
  assert (E6 : Z.quot (5 * x - 3 - 153 * m + 5) 5 = day).
  { assert (0 <= (153 * m + 2) mod 5 < 5) by (apply Z.mod_pos_bound; lia).
    rewrite Z.quot_div_nonneg by lia. rewrite Ed. clear -H. Z.div_mod_to_equations; lia. }
  by rewrite E6.
Qed.

Lemma fromJulian_julian_day day month year :
  1 <= year <= 10000 → valid_date day month year → fromJulian (julian_day day month year) = (day, month, year).
Proof.
  intros Hy Hv. assert (Hm := proj1 Hv). rewrite julian_day_march by done.
  apply valid_march in Hv. cbv zeta in Hv |- *.
  set (y := if 2 <? month then year else year - 1) in *.
  set (m := if 2 <? month then month - 3 else month + 9) in *. destruct Hv as (Hm' & Hx & Hmo & Hl).
  set (x := day + (153 * m + 2) / 5) in *. assert (0 <= y) by (unfold y; zcases; lia).
  assert (E0 : 1721119 + day + 365 * y + y / 4 - y / 100 + y / 400 + (153 * m + 2) / 5
    = x + 146097 * (y / 100) / 4 + 1461 * (y mod 100) / 4 + 1721119)
    by (unfold x; clearbody y m; Z.div_mod_to_equations; lia).
  rewrite E0.
  assert (y <= 10000) by (unfold y; zcases; lia).
  assert (Hc : 0 <= y / 100 <= 100) by (Z.div_mod_to_equations; lia).
  assert (Hr : 0 <= y mod 100 < 100) by (apply Z.mod_pos_bound; lia).
  assert (Hxr : x = 366 → (y mod 100) mod 4 = 3 ∧ (y mod 100 = 99 → (y / 100) mod 4 = 3)).
  { intros Ex. destruct (Hl Ex) as [H4 H99]. split; [|exact H99]. clear -H4. Z.div_mod_to_equations; lia. }
  assert (Ey : 100 * (y / 100) + y mod 100 = y) by (symmetry; apply Z.div_mod; lia).
  assert (Ed : 5 * x = 5 * day + 153 * m + 2 - (153 * m + 2) mod 5)
    by (unfold x; clearbody y m; Z.div_mod_to_equations; lia).
  revert Ey Hc Hr Hxr Ed. generalize (y / 100) (y mod 100). clearbody x. intros c r Ey Hc Hr Hxr Ed.
  rewrite (fromJulian_march x c r m day) by done.
  rewrite Ey. unfold m, y. zcases; [|lia..|]; f_equal; try lia; f_equal; lia.
Qed.

Lemma julian_day_of_tm x t : stands_for x t → t mod 86400 = 0 →
  let y := tm_year x + 1900 in
  valid_date (tm_mday x) (tm_mon x + 1) y ∧ julian_day (tm_mday x) (tm_mon x + 1) y = t / 86400 + 2440588.
Proof.
  intros (Hs & Hmi & Hh & Hmo & Hd & Hyd & Et) Ht y. unfold valid_date, julian_day.
  replace (tm_mon x + 1 - 1) with (tm_mon x) by lia. split; [split; [lia|exact Hd]|].
  rewrite Hyd in Et. fold y in Et.
  set (k := days_to_year y + _) in Et. replace (t / 86400) with k by (Z.div_mod_to_equations; lia).
  unfold k. lia.
Qed.

Lemma valid_date_day day month year : valid_date day month year → 0 <= day <= 366.
Proof. intros [Hm Hd]. pose proof (days_of_month_pos year (month - 1)). lia. Qed.

(** Every day from [FIRST_DAY] to [LAST_DAY] is the day of a date. *)
Lemma date_of_julian_day j : FIRST_DAY <= j <= LAST_DAY →
  ∃ day month year, FIRST_YEAR <= year <= 8000 ∧ valid_date day month year ∧ julian_day day month year = j.
Proof.
  unfold FIRST_DAY, LAST_DAY, FIRST_YEAR. intros Hj. destruct (gmtime_r_ok ((j - 2440588) * 86400)) as (x & _ & Hx & _).
  { change (days_to_year 0) with (-719528). lia. }
  destruct (julian_day_of_tm x _ Hx) as [Hv E]; [by rewrite Z.mod_mul by lia|].
  rewrite Z.div_mul in E by lia.
  exists (tm_mday x), (tm_mon x + 1), (tm_year x + 1900). split; [|split; [done|lia]].
  destruct (valid_march _ _ _ Hv) as (Hm & Hx366 & Hmo & _). rewrite julian_day_march in E by apply Hv.
  destruct Hv as [Hv _]. revert E Hm Hx366 Hmo.
  destruct (Z.ltb_spec 2 (tm_mon x + 1)); intros E Hm Hx366 Hmo; clear -E Hx366 Hj Hm Hmo Hv; Z.div_mod_to_equations; lia.
Qed.

Lemma fromJulian_valid j : FIRST_DAY <= j <= LAST_DAY →
  ∃ day month year, fromJulian j = (day, month, year) ∧ FIRST_YEAR <= year <= 8000 ∧ valid_date day month year ∧
    toJulian day month year = j.
Proof.
  intros Hj. destruct (date_of_julian_day j Hj) as (day & month & year & Hy & Hv & E).
  exists day, month, year. split; [|split; [exact Hy|split; [done|]]].
  - rewrite <-E. apply fromJulian_julian_day; [unfold FIRST_YEAR in Hy; lia|done].
  - rewrite toJulian_eq; [done|unfold FIRST_YEAR in Hy; lia|apply Hv|by eapply valid_date_day].
Qed.

Lemma getJulian_consistent d : consistent d → (getJulian d).1 = toJulian (_day d) (_month d) (_year d).
Proof. unfold getJulian. intros [-> | E]; [done|]. rewrite <-E. by destruct (Z.eqb_spec (julian d) 0). Qed.

Lemma set_julian_spec j : FIRST_DAY <= j <= LAST_DAY →
  julian (set_julian j) = j ∧ consistent (set_julian j) ∧ FIRST_YEAR <= _year (set_julian j) <= 8000 ∧
  valid_date (_day (set_julian j)) (_month (set_julian j)) (_year (set_julian j)).
Proof.
  intros Hj. destruct (fromJulian_valid j Hj) as (day & month & year & E & Hy & Hv & Ej).
  unfold set_julian. rewrite E. split; [done|]. split; [by right|]. done.
Qed.

Lemma getJulian_set_julian j : FIRST_DAY <= j <= LAST_DAY → (getJulian (set_julian j)).1 = j.
Proof.
  intros Hj. destruct (set_julian_spec j Hj) as (Ej & Hc & _). rewrite getJulian_consistent by done.
  destruct Hc as [E|E]; [unfold FIRST_DAY in Hj; lia|]. by rewrite <-E.
Qed.

Lemma isdigit_range c : isdigit c = true ↔ 48 <= c <= 57.
Proof. unfold isdigit. lia. Qed.

Lemma skip_space_digit c r : isdigit c = true → skip_space (c :: r) = Ok (c :: r).
Proof. intros Hc. simpl. replace (isspace c) with false; [done|]. unfold isspace, isdigit in *. lia. Qed.

Lemma digits_value_digit d r i : 0 <= d <= 9 → digits_value (48 + d :: r) i = digits_value r (i * 10 + d).
Proof. intros Hd. simpl. rewrite (proj2 (isdigit_range _)) by lia. f_equal. lia. Qed.

(** [atoi] of a text that starts with digits. *)
Lemma atoi_digits d r n :
  0 <= d <= 9 → digits_value (48 + d :: r) 0 = Ok n → 0 <= n < 2 ^ 31 → atoi (48 + d :: r) = Ok n.
Proof.
  intros Hd E Hn. unfold atoi. rewrite skip_space_digit by (apply isdigit_range; lia). cbn [mbind res_bind].
  change (rd (48 + d :: r) 0) with (@Ok Z (48 + d)). cbn [mbind res_bind].
  rewrite (proj2 (Z.eqb_neq (48 + d) 45)), (proj2 (Z.eqb_neq (48 + d) 43)) by lia. cbn [orb].
  rewrite E. cbn [mbind res_bind]. f_equal. unfold i32. rewrite Z.min_r by lia. rewrite Z.mod_small; lia.
Qed.

Lemma atoi_two_digits n c r : 0 <= n < 100 → isdigit c = false → atoi (two_digits n ++ c :: r) = Ok n.
Proof.
  intros Hn Hc. assert (0 <= n / 10 <= 9 ∧ 0 <= n mod 10 <= 9) by (Z.div_mod_to_equations; lia).
  apply atoi_digits; [lia| |lia]. cbn [two_digits app].
  rewrite !digits_value_digit by lia. simpl. rewrite Hc. f_equal. Z.div_mod_to_equations; lia.
Qed.

Lemma atoi_four_digits n c r : 0 <= n <= 9999 → isdigit c = false → atoi (four_digits n ++ c :: r) = Ok n.
Proof.
  intros Hn Hc. assert (0 <= n / 100 / 10 <= 9 ∧ 0 <= (n / 100) mod 10 <= 9 ∧ 0 <= n mod 100 / 10 <= 9 ∧
    0 <= (n mod 100) mod 10 <= 9) by (Z.div_mod_to_equations; lia).
  apply atoi_digits; [lia| |lia]. unfold four_digits, two_digits. cbn [app].
  rewrite !digits_value_digit by lia. simpl. rewrite Hc. f_equal. Z.div_mod_to_equations; lia.
Qed.

Lemma u_getMonth_name mon r : 0 <= mon < 12 →
  u_getMonth (take 3 (nth (Z.to_nat mon) mname []) ++ r) = Ok (mon + 1).
Proof.
  intros Hm. replace mon with (mon + 1 - 1) at 1 by lia. set (m := mon + 1).
  assert (Hm' : 1 <= m <= 12) by lia. clearbody m. pattern m. apply (month_cases _ m Hm'); reflexivity.
Qed.

(** The text of the format of HTTP dates, as [getSecondFromTime] reads it. *)
Definition http_format : list Z := BS "%a, %d %b %Y %H:%M:%S GMT".

Lemma http_text adjust tzname x : 0 <= tm_wday x < 7 → 0 <= tm_mon x < 12 →
  ∃ a b c, stored adjust tzname x http_format =
    [a; b; c; CH ","; CH " "] ++ two_digits (tm_mday x) ++ [CH " "] ++ take 3 (nth (Z.to_nat (tm_mon x)) mname []) ++
    [CH " "] ++ four_digits (1900 + tm_year x) ++ [CH " "] ++ two_digits (tm_hour x) ++ [CH ":"] ++
    two_digits (tm_min x) ++ [CH ":"] ++ two_digits (tm_sec x) ++ BS " GMT" ∧
    length (take 3 (nth (Z.to_nat (tm_mon x)) mname [])) = 3%nat.
Proof.
  intros Hw Hm.
  assert (∃ a b c, take 3 (nth (Z.to_nat (tm_wday x)) dname []) = [a; b; c]) as (a & b & c & E).
  { assert (tm_wday x ∈ seqZ 0 7) as Hin by (apply elem_of_seqZ; lia). revert Hin. generalize (tm_wday x).
    intros w Hin. simpl in Hin. repeat (apply elem_of_cons in Hin as [->|Hin]; [by eauto|]). by apply elem_of_nil in Hin. }
  exists a, b, c. split.
  - change (stored adjust tzname x http_format) with
      (take 3 (nth (Z.to_nat (tm_wday x)) dname []) ++ [CH ","; CH " "] ++ two_digits (tm_mday x) ++ [CH " "] ++
       take 3 (nth (Z.to_nat (tm_mon x)) mname []) ++ [CH " "] ++ four_digits (1900 + tm_year x) ++ [CH " "] ++
       two_digits (tm_hour x) ++ [CH ":"] ++ two_digits (tm_min x) ++ [CH ":"] ++ two_digits (tm_sec x) ++ BS " GMT").
    by rewrite E.
  - replace (tm_mon x) with (tm_mon x + 1 - 1) by lia. set (m := tm_mon x + 1).
    assert (Hm' : 1 <= m <= 12) by lia. clearbody m. pattern m. apply (month_cases _ m Hm'); reflexivity.
Qed.

Lemma drop_two n k r : drop (S (S k)) (two_digits n ++ r) = drop k r.
Proof. done. Qed.

Lemma drop_four n k r : drop (S (S (S (S k)))) (four_digits n ++ r) = drop k r.
Proof. done. Qed.

(** Go on to the next field of the text. *)
Ltac next_field := repeat first [rewrite drop_0 | rewrite drop_two | rewrite drop_four | progress cbn [drop mbind res_bind]].

Lemma http_fields sscanf adjust tzname x r fmt : tm_ok x →
  read_fields sscanf (stored adjust tzname x http_format ++ 0 :: r) true fmt =
    Ok (Some (Tm (tm_sec x) (tm_min x) (tm_hour x) (tm_mday x) (tm_mon x + 1) (1900 + tm_year x) 0 0 0)).
Proof.
  intros (Hs & Hmi & Hh & Hd & Hmo & Hy & Hw & _).
  destruct (http_text adjust tzname x Hw Hmo) as (a & b & c & -> & Hl).
  assert (Hmon := λ r, u_getMonth_name (tm_mon x) r Hmo).
  destruct (take 3 _) as [|m1 [|m2 [|m3 [|]]]]; try done. rewrite <-!app_assoc. cbn [app].
  unfold read_fields. change (rd _ 3) with (@Ok Z 44). cbn [mbind res_bind Z.eqb Pos.eqb drop].
  next_field. rewrite atoi_two_digits by (done || lia). next_field.
  assert (E := Hmon (32 :: four_digits (1900 + tm_year x) ++ 32 :: two_digits (tm_hour x) ++ 58 :: two_digits (tm_min x) ++
    58 :: two_digits (tm_sec x) ++ BS " GMT" ++ 0 :: r)). cbn [app] in E. rewrite E. clear E Hmon.
  next_field. rewrite atoi_four_digits by (done || lia).
  next_field. rewrite atoi_two_digits by (done || lia). next_field. rewrite atoi_two_digits by (done || lia).
  next_field. by rewrite atoi_two_digits by (done || lia).
Qed.

Lemma tm_year_epoch x t : stands_for x t → 0 <= t → 1970 <= 1900 + tm_year x.
Proof.
  intros (Hs & Hmi & Hh & Hmo & Hd & Hyd & Et) Ht.
  assert (Hv : valid_date (tm_mday x) (tm_mon x + 1) (tm_year x + 1900))
    by (split; [lia|]; by replace (tm_mon x + 1 - 1) with (tm_mon x) by lia).
  destruct (valid_march _ _ _ Hv) as (_ & Hx & Hm & _). rewrite Hyd in Et.
  assert (E := julian_day_march (tm_mday x) (tm_mon x + 1) (tm_year x + 1900) ltac:(lia)).
  unfold julian_day in E. replace (tm_mon x + 1 - 1) with (tm_mon x) in E by lia.
  assert (0 <= days_to_year (tm_year x + 1900) + days_to_month (tm_year x + 1900) (tm_mon x) + tm_mday x - 1) by lia.
  clear -E Hx H Hm Hmo. revert E Hx H Hm. generalize (days_to_year (tm_year x + 1900)) (days_to_month (tm_year x + 1900) (tm_mon x)). intros p q. zcases; intros; Z.div_mod_to_equations; lia.
Qed.

(** ** Properties *)

(** C24: on the dates of the class, from the 14th of September 1752 to the end of the year 8000 (those the
    assertions allow), [toJulian] is the day number of the Gregorian calendar, 2440588 on the first of
    January 1970, and [fromJulian] inverts it: a date comes back from its number, and the number of
    every day of the range from its date, which is a date of the calendar in the range. *)
Theorem julian_roundtrip :
  (∀ day month year, FIRST_YEAR <= year <= 8000 → valid_date day month year → FIRST_DAY <= julian_day day month year →
     toJulian day month year = days_to_year year + days_to_month year (month - 1) + day - 1 + 2440588 ∧
     fromJulian (toJulian day month year) = (day, month, year)) ∧
  (∀ j, FIRST_DAY <= j <= LAST_DAY →
     ∃ day month year, fromJulian j = (day, month, year) ∧ FIRST_YEAR <= year <= 8000 ∧ valid_date day month year ∧
       toJulian day month year = j).
Proof.
  split; [|apply fromJulian_valid]. unfold FIRST_YEAR. intros day month year Hy Hv _.
  rewrite toJulian_eq; [|lia|apply Hv|by eapply valid_date_day]. split; [done|]. apply fromJulian_julian_day; [lia|done].
Qed.

Lemma julian_roundtrip_witness :
  valid_date 29 2 2000 ∧ fromJulian (toJulian 29 2 2000) = (29, 2, 2000) ∧ toJulian 29 2 2000 = 2451604.
Proof.
  assert (Hv : valid_date 29 2 2000) by (split; vm_compute; split; discriminate).
  split; [exact Hv|]. split; [|reflexivity].
  exact (proj2 (proj1 julian_roundtrip 29 2 2000 ltac:(vm_compute; split; discriminate) Hv ltac:(vm_compute; discriminate))).
Defined.

(** Moving a date by [days] gives a date of the calendar with the number of its day stored, that many
    days away, and the day of the week (0 for Sunday) moves along. *)
Theorem addDays_correct d days :
  consistent d → FIRST_DAY <= (getJulian d).1 <= LAST_DAY → FIRST_DAY <= (getJulian d).1 + days <= LAST_DAY →
  let d' := addDays d days in
  valid_date (_day d') (_month d') (_year d') ∧ consistent d' ∧ daysTo d d' = days ∧
  addDays d' (- days) = set_julian (getJulian d).1 ∧
  getDayOfWeek d' = (getSecond d' / 86400 + 4) mod 7 ∧ getDayOfWeek d' = (getDayOfWeek d + days) mod 7.
Proof.
  intros Hc H0 Hd d'. unfold FIRST_DAY, LAST_DAY in H0, Hd.
  assert (Ed : d' = set_julian ((getJulian d).1 + days)) by (unfold d', addDays; by rewrite i32_small by lia).
  destruct (set_julian_spec ((getJulian d).1 + days)) as (_ & Hc' & _ & Hv); [done|]. rewrite <-Ed in Hc', Hv.
  assert (E : (getJulian d').1 = (getJulian d).1 + days) by (rewrite Ed; apply getJulian_set_julian; done).
  unfold daysTo, getDayOfWeek, getSecond, getSecondFromJulian. rewrite E.
  rewrite !(i32_small (_ + 1)), (i32_small (_ + days - _)), (i32_small (_ - 2440588)) by lia. splits; try done.
  - lia.
  - unfold addDays at 1. rewrite E, i32_small by lia. f_equal. lia.
  - rewrite Z.div_mul, Z.rem_mod_nonneg by lia. Z.div_mod_to_equations; lia.
  - rewrite !Z.rem_mod_nonneg by lia. Z.div_mod_to_equations; lia.
Qed.

Lemma addDays_correct_witness :
  let d := Date 0 28 2 2000 in
  consistent d ∧ addDays d 366 = Date 2451969 28 2 2001 ∧ daysTo d (addDays d 366) = 366.
Proof.
  intros d. assert (Hc : consistent d) by (left; reflexivity). split; [exact Hc|]. split; [reflexivity|].
  apply (addDays_correct d 366 Hc); vm_compute; split; discriminate.
Defined.

Lemma rd_monthDays month : 1 <= month <= 12 →
  ∃ n, rd monthDays month = Ok n ∧ (month = 2 → n = 28) ∧
    ∀ year, days_of_month year (month - 1) = if (month =? 2) && bool_decide (leap_year year) then 29 else n.
Proof.
  intros Hm. pattern month. apply (month_cases _ month Hm).
  all: eexists; split; [reflexivity|]; split; [done|]; intros year; unfold leap_year, days_of_month;
    cbv -[bool_decide Z.modulo]; repeat case_bool_decide; reflexivity.
Qed.

Lemma monthDays_ok month year :
  0 <= year → 1 <= month <= 12 →
  (if (month =? 2) && leapYear year then Ok 29 else rd monthDays month) = Ok (days_of_month year (month - 1)).
Proof.
  intros Hy Hm. destruct (rd_monthDays month Hm) as (n & -> & _ & ->). rewrite leapYear_ok by done.
  by destruct (_ && _).
Qed.

(** What the loop of [addMonths] keeps: the number of months since the year 0. *)
Lemma addMonths_loop n month year : 1 <= month <= 12 → 0 <= year <= 10000 → 0 <= 12 * year + month - 1 + n <= 12 * 10000 →
  iterate (Z.to_nat (Z.abs n / 12 + 4)) addMonths_step (n, month, year) =
    Ok ((12 * year + month - 1 + n) mod 12 + 1, (12 * year + month - 1 + n) / 12).
Proof.
  intros Hm Hy Hk.
  destruct (iterate_total addMonths_step
    (λ st, let '(n', m, y) := st in 12 * y + m + n' = 12 * year + month + n ∧ (1 <= m <= 12 ∨ m = 0 ∧ 0 < n' < 12) ∧
       (0 <= n' <= n ∨ n <= n' <= 0))
    (λ r, 12 * r.2 + r.1 = 12 * year + month + n ∧ 1 <= r.1 <= 12)
    (λ st, let '(n', m, y) := st in
       Z.to_nat (Z.abs n' / 12 + if n' =? 0 then 0 else if m =? 12 then 2 else 1)))
    with (n := Z.to_nat (Z.abs n / 12 + 4)) (s := (n, month, year)) as ([m y] & -> & Hq).
  - intros [[n' m] y] (E & Hr & Hs). unfold addMonths_step. rewrite !i32_small by lia.
    destruct (Z.eqb_spec n' 0); [simpl; lia|].
    destruct (Z.ltb_spec n' 0), (Z.leb_spec (n' + 12) 0), (Z.leb_spec 0 (n' - 12)); cbn [andb]; try lia;
      zcases; try lia; split; try lia; Z.div_mod_to_equations; lia.
  - lia.
  - zcases; Z.div_mod_to_equations; lia.
  - simpl in Hq. f_equal. f_equal; Z.div_mod_to_equations; lia.
Qed.

(** [addMonths] moves the month and the year, whatever the sign and the size of the number, and brings
    the day back into the month. It leaves the stored day number alone: a date whose number was computed before
    answers the day of the week and moves by days from its old day. *)
Theorem addMonths_correct d n :
  let k := 12 * _year d + _month d - 1 + n in
  1 <= _month d <= 12 → 0 <= _year d <= 10000 → 0 <= k <= 12 * 10000 →
  addMonths d n = Ok (Date (julian d) (Z.min (_day d) (days_of_month (k / 12) (k mod 12))) (k mod 12 + 1) (k / 12)) ∧
  let stale := Date 2460341 29 2 2024 in
  addMonths (getJulian (Date 0 31 1 2024)).2 1 = Ok stale ∧ ¬ consistent stale ∧
  getDayOfWeek stale = 3 ∧ getDayOfWeek (Date 0 29 2 2024) = 4.
Proof.
  intros k Hm Hy Hk. split.
  - unfold addMonths. rewrite addMonths_loop by done. cbn [mbind res_bind]. fold k.
    assert (0 <= k mod 12 < 12) by (apply Z.mod_pos_bound; lia).
    rewrite monthDays_ok by (try lia; apply Z.div_pos; lia). cbn [mbind res_bind].
    rewrite Z.add_simpl_r. do 2 f_equal. zcases; lia.
  - intros stale. splits; try reflexivity. by intros [?|?].
Qed.

Lemma addMonths_correct_witness :
  addMonths (Date 0 31 3 2000) (-25) = Ok (Date 0 28 2 1998) ∧ addMonths (Date 0 31 12 1999) 14 = Ok (Date 0 28 2 2001).
Proof.
  split.
  - exact (proj1 (addMonths_correct (Date 0 31 3 2000) (-25) ltac:(simpl; lia) ltac:(simpl; lia) ltac:(simpl; lia))).
  - exact (proj1 (addMonths_correct (Date 0 31 12 1999) 14 ltac:(simpl; lia) ltac:(simpl; lia) ltac:(simpl; lia))).
Defined.

Lemma first_day_order day month year : 0 <= year → valid_date day month year →
  FIRST_DAY <= julian_day day month year ↔
    ¬ (year < FIRST_YEAR ∨ year = FIRST_YEAR ∧ (month < 9 ∨ month = 9 ∧ day < 14)).
Proof.
  intros Hy Hv. destruct (valid_march _ _ _ Hv) as (_ & Hx & Hmo & _). rewrite julian_day_march by apply Hv.
  unfold FIRST_DAY, FIRST_YEAR. revert Hx Hmo. destruct Hv as [Hm Hd].
  destruct (decide (year = 1752)) as [->|Hne]; [|clear Hd; zcases; intros Hx Hmo; Z.div_mod_to_equations; lia].
  destruct (Z.ltb_spec 2 month).
  - change (1752 / 4) with 438. change (1752 / 100) with 17. change (1752 / 400) with 4.
    destruct (decide (month = 9)) as [->|Hn9]; [change ((153 * (9 - 3) + 2) / 5) with 184|clear Hd]; lia.
  - change ((1752 - 1) / 4) with 437. change ((1752 - 1) / 100) with 17. change ((1752 - 1) / 400) with 4.
    clear Hd. lia.
Qed.

(** [isValid] answers for every date, also one that is none, and decides whether it is a date of the
    Gregorian calendar from its introduction in England on, the 14th of September 1752. *)
Theorem isValid_correct d :
  ∃ b : bool, isValid d = Ok b ∧
    (b = true ↔ 0 <= _year d ∧ valid_date (_day d) (_month d) (_year d) ∧
       FIRST_DAY <= julian_day (_day d) (_month d) (_year d)).
Proof.
  destruct d as [j day month year]. unfold isValid. cbn [_day _month _year].
  match goal with |- context [if ?c then Ok false else _] => destruct c eqn:Ec end.
  { exists false. split; [done|]. split; [done|]. intros (Hy & Hv & Hf). exfalso.
    apply first_day_order in Hf; [|done|done]. apply Hf. unfold FIRST_YEAR in *.
    revert Ec. zcases; cbn; intros; lia. }
  assert (Hy : ¬ (year < FIRST_YEAR ∨ year = FIRST_YEAR ∧ (month < 9 ∨ month = 9 ∧ day < 14))).
  { unfold FIRST_YEAR in *. revert Ec. zcases; cbn; intros; lia. }
  destruct ((0 <? day) && (0 <? month) && (month <=? 12)) eqn:Em.
  - assert (Hm : 1 <= month <= 12 ∧ 1 <= day) by (revert Em; zcases; cbn; intros; lia).
    assert (Hleap := leapYear_ok year ltac:(unfold FIRST_YEAR in Hy; lia)).
    destruct (rd_monthDays month) as (n & -> & H2 & En); [lia|]. cbn [mbind res_bind].
    eexists. split; [done|]. specialize (En year). rewrite <-Hleap in En.
    assert (Hv : (day <=? n) || (day =? 29) && (month =? 2) && leapYear year = true ↔ valid_date day month year).
    { unfold valid_date. rewrite En. destruct (leapYear year); revert En; zcases; cbn; intros; split; intros; first [done | lia | exfalso; lia]. }
    rewrite Hv. split; [|tauto]. intros Hv'. split; [unfold FIRST_YEAR in Hy; lia|]. split; [done|].
    apply first_day_order; [unfold FIRST_YEAR in Hy; lia|done|done].
  - exists false. split; [done|]. split; [done|]. intros (_ & [Hm Hd] & _). exfalso.
    revert Em. zcases; cbn; intros; first [done | lia].
Qed.

(** A time that [u_strftime] writes in the format of the HTTP headers is the time that [getSecondFromTime] reads
    back, for every instant of the years 1970 to 9999, whatever the time zone is set to. *)
Theorem http_date_roundtrip sscanf mktime adjust tzname buf maxsize tail fmt t :
  0 <= t < days_to_year 10000 * 86400 → adjust mod 3600 = 0 ∧ Z.abs adjust < 360000 →
  (29 < length buf)%nat → 29 < maxsize →
  ∃ mem, u_strftime adjust tzname buf maxsize (BS "%a, %d %b %Y %H:%M:%S GMT" ++ 0 :: tail) t = Ok (mem, 29) ∧
    getSecondFromTime sscanf mktime mem true fmt = Ok t.
Proof.
  intros Ht Hadj Hb Hmax. assert (Ht' := Ht). change (days_to_year 10000) with 2932897 in Ht'.
  destruct (gmtime_r_ok t) as (x & E & Hx & _ & Hw); [change (days_to_year 0) with (-719528); lia|].
  specialize (Hw ltac:(lia)).
  assert (Hok : tm_ok x).
  { apply (stands_for_tm_ok x t); [done|done|]. rewrite Hw. apply Z.mod_pos_bound. lia. }
  set (text := stored adjust tzname x http_format).
  assert (Hl : length text = 29%nat).
  { destruct (http_text adjust tzname x) as (a & b & c & E' & Hl); [apply Hok..|].
    unfold text. rewrite E', !length_app, Hl. reflexivity. }
  exists (text ++ 0 :: drop 30 buf). split.
  - unfold u_strftime. rewrite E. cbn [mbind res_bind]. change (BS "%a, %d %b %Y %H:%M:%S GMT") with http_format.
    rewrite u__strftime_ok; try done; fold text; rewrite ?Hl; done || lia.
  - unfold getSecondFromTime, text. rewrite http_fields by done. cbn [mbind res_bind].
    destruct Hx as (Hs & Hmi & Hh & Hmo & Hd & Hyd & Et). destruct Hok as (_ & _ & _ & Hd' & _ & Hy & _).
    assert (Hyr : 1970 <= 1900 + tm_year x) by (apply (tm_year_epoch x t); done || lia).
    assert (Hf : fields_ok (Tm (tm_sec x) (tm_min x) (tm_hour x) (tm_mday x) (tm_mon x + 1) (1900 + tm_year x) 0 0 0) = true)
      by (unfold fields_ok; cbn; by rewrite !(proj2 (Z.ltb_ge _ _)) by lia).
    rewrite Hf. cbn [negb tm_sec tm_min tm_hour tm_mday tm_mon tm_year].
    rewrite toJulian_eq by lia. unfold getSecondFromJulian, julian_day.
    replace (tm_mon x + 1 - 1) with (tm_mon x) by lia. rewrite (Z.add_comm 1900). rewrite Hyd in Et.
    rewrite i32_small by lia.
    clear -Et Hs Hmi Hh Ht'. zcases; [lia|apply (f_equal Ok); lia].
Qed.

Lemma http_date_roundtrip_witness :
  ∃ mem, u_strftime 0 (BS "GMT") (replicate 100 0) 100 (BS "%a, %d %b %Y %H:%M:%S GMT" ++ [0]) 784111777 = Ok (mem, 29) ∧
    getSecondFromTime (λ _ _, []) (λ x, (0, x)) mem true [0] = Ok 784111777.
Proof.
  exact (http_date_roundtrip (λ _ _, []) (λ x, (0, x)) 0 (BS "GMT") (replicate 100 0) 100 [] [0] 784111777
    ltac:(vm_compute; split; [discriminate|reflexivity]) ltac:(split; reflexivity)
    ltac:(vm_compute; lia) ltac:(reflexivity)).
Defined.

(** [getDayOfYear] divides the years since 1901 by four and does not know the years of the centuries: it is the
    day of the year from 1898 to 2100, and one day off outside, before and after. *)
Theorem getDayOfYear_correct d :
  (consistent d → valid_date (_day d) (_month d) (_year d) → 1898 <= _year d <= 2100 →
   getDayOfYear d = days_to_month (_year d) (_month d - 1) + _day d) ∧
  getDayOfYear (Date 0 1 1 2101) = 0 ∧ getDayOfYear (Date 0 1 1 1897) = 2.
Proof.
  split; [|split; reflexivity]. intros Hc Hv Hy. unfold getDayOfYear.
  rewrite getJulian_consistent, toJulian_eq by (done || lia || apply Hv || by eapply valid_date_day).
  rewrite (i32_small (_ - 1901)) by lia.
  assert (Hj : julian_day (_day d) (_month d) (_year d) - (_year d - 1901) * 365 - Z.quot (_year d - 1901) 4 - 2415385
    = days_to_month (_year d) (_month d - 1) + _day d); cycle 1.
  { rewrite Hj. apply i32_small. destruct Hv as [Hm Hd]. pose proof (days_of_month_pos (_year d) (_month d - 1)).
    rewrite days_to_month_march by done. pose proof (days_of_month_pos (_year d) 1). zcases; Z.div_mod_to_equations; lia. }
  unfold julian_day, days_to_year.
  destruct (Z.leb_spec 1901 (_year d)).
  - rewrite Z.quot_div_nonneg by lia. Z.div_mod_to_equations; lia.
  - assert (E : Z.quot (_year d - 1901) 4 = 0) by (Z.to_euclidean_division_equations; lia).
    rewrite E. Z.div_mod_to_equations; lia.
Qed.

Lemma getDayOfYear_correct_witness :
  let d := Date 0 31 12 2000 in
  consistent d ∧ getDayOfYear d = days_to_month 2000 11 + 31 ∧ getDayOfYear d = 366.
Proof.
  intros d. assert (Hc : consistent d) by (left; reflexivity). split; [exact Hc|]. split; [|reflexivity].
  apply (proj1 (getDayOfYear_correct d) Hc).
  - split; vm_compute; split; discriminate.
  - vm_compute; split; discriminate.
Defined.
