(* ===== verification/Printf.v ===== *)
(** * Formatted output ([u__vsnprintf], [src/ulib/base/base.c])

    The function as the release build has it, with 64 bit [long]s, 64 bit file offsets and without threads. The buffer
    is a memory and the format the memory from the pointer on. A variable argument is a value of one of the
    types the function asks for; asking for another one is a fault. The names of the host, the user and the
    program, the texts of the error, signal and exit codes, and the clock are parameters, and so is
    [sprintf], which the function uses for floating point numbers. *)

From S2P Require Import Prelude CType Escape Time Strftime.

(** ** Arguments and conversion specifications *)

(** A word of 32 or 64 bits, a pointer to characters (the memory from it on, or null), any other
    pointer, a [double] or a [long double] by its representation. *)
Inductive arg :=
  | AInt (z : Z)
  | ALong (z : Z)
  | AStr (p : option (list Z))
  | APtr (p : Z)
  | ADouble (bits : Z)
  | ALongDouble (bits : Z).

Definition VA_INT (args : list arg) : res (Z * list arg) :=
  match args with AInt z :: args => Ok (z, args) | _ => Fail OutOfBounds end.
Definition VA_LONG (args : list arg) : res (Z * list arg) :=
  match args with ALong z :: args => Ok (z, args) | _ => Fail OutOfBounds end.
Definition VA_STR (args : list arg) : res (option (list Z) * list arg) :=
  match args with AStr p :: args => Ok (p, args) | _ => Fail OutOfBounds end.
Definition VA_PTR (args : list arg) : res (Z * list arg) :=
  match args with APtr p :: args => Ok (p, args) | _ => Fail OutOfBounds end.

Definition LONGINT : Z := 0x001.
Definition LLONGINT : Z := 0x002.
Definition LONGDBL : Z := 0x004.
Definition SHORTINT : Z := 0x008.
Definition ALT : Z := 0x010.
Definition LADJUST : Z := 0x020.
Definition ZEROPAD : Z := 0x040.
Definition HEXPREFIX : Z := 0x080.
Definition THOUSANDS_GROUPED : Z := 0x100.

Definition has (flags m : Z) : bool := negb (Z.land flags m =? 0).

Definition i64 (x : Z) : Z := (x + 2 ^ 63) mod 2 ^ 64 - 2 ^ 63.
Definition i16 (x : Z) : Z := (x + 2 ^ 15) mod 2 ^ 16 - 2 ^ 15.

(** [SARG()] and [UARG()]; the argument is kept in a [uint64_t]. *)
Definition SARG (flags : Z) (args : list arg) : res (Z * list arg) :=
  if has flags LLONGINT || has flags LONGINT then r ← VA_LONG args; Ok (i64 r.1, r.2)
  else if has flags SHORTINT then r ← VA_INT args; Ok (i16 r.1, r.2)
  else r ← VA_INT args; Ok (i32 r.1, r.2).

Definition UARG (flags : Z) (args : list arg) : res (Z * list arg) :=
  if has flags LLONGINT || has flags LONGINT then r ← VA_LONG args; Ok (u64 r.1, r.2)
  else if has flags SHORTINT then r ← VA_INT args; Ok (u16 r.1, r.2)
  else r ← VA_INT args; Ok (u32 r.1, r.2).

Record spec := Spec { flags : Z; width : Z; prec : Z; sign : Z }.

Definition add_flag (m : Z) (sp : spec) : spec := Spec (Z.lor (flags sp) m) (width sp) (prec sp) (sign sp).
Definition set_width (n : Z) (sp : spec) : spec := Spec (flags sp) n (prec sp) (sign sp).
Definition set_prec (n : Z) (sp : spec) : spec := Spec (flags sp) (width sp) n (sign sp).
Definition set_sign (c : Z) (sp : spec) : spec := Spec (flags sp) (width sp) (prec sp) c.
Definition clear_flag (m : Z) (sp : spec) : spec := Spec (Z.ldiff (flags sp) m) (width sp) (prec sp) (sign sp).

(** [flags |= LADJUST; flags &= ~ZEROPAD;] *)
Definition left_adjust (sp : spec) : spec := clear_flag ZEROPAD (add_flag LADJUST sp).

(** The digits of a width or a precision, and the format after them. *)
Fixpoint scan_number (format : list Z) (n : Z) : res (Z * list Z) :=
  match format with
  | [] => Fail OutOfBounds
  | ch :: format' => if u__isdigit ch then scan_number format' (i32 (10 * n + (ch - CH "0"))) else Ok (n, format)
  end.

(** The labels [rflag] and [reswitch]: flags, width, precision and length modifiers up to the conversion
    character, which is returned with the format after it. *)
Fixpoint parse_spec (fuel : nat) (format : list Z) (args : list arg) (sp : spec) :
    res (Z * list Z * list arg * spec) :=
  match fuel with
  | O => Fail OutOfFuel
  | S fuel' =>
      ch ← rd format 0;
      let f := drop 1 format in
      if ch =? CH "#" then parse_spec fuel' f args (add_flag ALT sp)
      else if ch =? CH "0" then
        parse_spec fuel' f args (if negb (has (flags sp) LADJUST) then add_flag ZEROPAD sp else sp)
      else if ch =? CH "-" then parse_spec fuel' f args (left_adjust sp)
      else if ch =? CH " " then parse_spec fuel' f args (if sign sp =? 0 then set_sign (CH " ") sp else sp)
      else if ch =? CH "+" then parse_spec fuel' f args (set_sign (CH "+") sp)
      else if ch =? CH "'" then parse_spec fuel' f args (add_flag THOUSANDS_GROUPED sp)
      else if (CH "1" <=? ch) && (ch <=? CH "9") then
        r ← scan_number f (ch - CH "0");
        parse_spec fuel' r.2 args (set_width r.1 sp)
      else if ch =? CH "*" then
        r ← VA_INT args;
        let w := i32 r.1 in
        parse_spec fuel' f r.2 (if 0 <=? w then set_width w sp else left_adjust (set_width (i32 (- w)) sp))
      else if ch =? CH "." then
        c ← rd f 0;
        if c =? CH "*" then
          r ← VA_INT args;
          let n := i32 r.1 in
          parse_spec fuel' (drop 1 f) r.2 (set_prec (if n <? 0 then -1 else n) sp)
        else
          r ← scan_number f 0;
          parse_spec fuel' r.2 args (set_prec (if r.1 <? 0 then -1 else r.1) sp)
      else if ch =? CH "h" then parse_spec fuel' f args (add_flag SHORTINT sp)
      else if ch =? CH "l" then
        parse_spec fuel' f args (add_flag (if has (flags sp) LONGINT then LLONGINT else LONGINT) sp)
      else if ch =? CH "L" then parse_spec fuel' f args (add_flag LONGDBL sp)
      else if ch =? CH "q" then parse_spec fuel' f args (add_flag LLONGINT sp)
      else if ch =? CH "j" then parse_spec fuel' f args sp
      else Ok (ch, f, args, sp)
  end.

(** ** The buffer *)

(** [buffer], the index of [bp], [ret], what [%n] stored and where, and [u_flag_exit]. *)
Record pout := POut { pbuf : list Z; bp : Z; ret : Z; stored : list (Z * Z); flag_exit : Z }.

Definition set_pbuf (st : pout) (b : list Z) (p r : Z) : pout := POut b p r (stored st) (flag_exit st).

(** The characters of [bs] are stored at [bp], which moves along with [ret]. *)
Definition write (st : pout) (bs : list Z) : res pout :=
  b ← put (pbuf st) (bp st) bs;
  let n := Z.of_nat (length bs) in
  Ok (set_pbuf st b (bp st + n) (u32 (ret st + n))).

(** [for (; n; --n) *bp++ = c;] stops at zero only. *)
Fixpoint fill (fuel : nat) (s : list Z) (i n c : Z) : res (list Z * Z) :=
  if n =? 0 then Ok (s, i) else
  match fuel with
  | O => Fail OutOfFuel
  | S fuel' => s ← wr s i c; fill fuel' s (i + 1) (n - 1) c
  end.

Definition fill_loop (s : list Z) (i n c : Z) : res (list Z * Z) := fill (S (length s)) s i n c.

(** ** Integers *)

Inductive base := OCT | DEC | HEX.

Fixpoint oct_digits (fuel : nat) (argument : Z) (acc : list Z) : list Z :=
  let acc := (Z.land argument 7 + CH "0") :: acc in
  let argument := Z.shiftr argument 3 in
  match fuel with
  | S fuel' => if negb (argument =? 0) then oct_digits fuel' argument acc else acc
  | O => acc
  end.

Fixpoint dec_digits (fuel : nat) (grouped : bool) (n argument : Z) (acc : list Z) : list Z :=
  match fuel with
  | S fuel' =>
      if 10 <=? argument then
        let acc := (argument mod 10 + CH "0") :: acc in
        dec_digits fuel' grouped (n + 1) (argument / 10)
          (if grouped && (n mod 3 =? 0) then CH "," :: acc else acc)
      else (argument + CH "0") :: acc
  | O => acc
  end.

Fixpoint hex_digits (fuel : nat) (xdigs : list Z) (argument : Z) (acc : list Z) : list Z :=
  let acc := hexd xdigs argument :: acc in
  let argument := argument / 16 in
  match fuel with
  | S fuel' => if negb (argument =? 0) then hex_digits fuel' xdigs argument acc else acc
  | O => acc
  end.

(** What is stored at the end of [buf_number], which has 32 characters. *)
Definition number_text (flags : Z) (b : base) (ch prec argument : Z) : res (list Z) :=
  let ds :=
    if negb (argument =? 0) || negb (prec =? 0) then
      match b with
      | OCT =>
          let ds := oct_digits 22 argument [] in
          if has flags ALT && negb (nth 0 ds 0 =? CH "0") then CH "0" :: ds else ds
      | DEC => dec_digits 20 (has flags THOUSANDS_GROUPED) 1 argument []
      | HEX => hex_digits 16 (if ch =? CH "X" then u_hex_upper else u_hex_lower) argument []
      end
    else [] in
  if 32 <? Z.of_nat (length ds) then Fail OutOfBounds else Ok ds.

(** A field to be padded: [cp], [size], [dprec], and the specification with its final sign and flags. *)
Record pfield := Field { cp : list Z; size : Z; dprec : Z; fsp : spec; fch : Z }.

(** The label [number]. *)
Definition number (sp : spec) (b : base) (ch argument : Z) : res pfield :=
  let sp := if 0 <=? prec sp then clear_flag ZEROPAD sp else sp in
  ds ← number_text (flags sp) b ch (prec sp) argument;
  Ok (Field ds (Z.of_nat (length ds)) (prec sp) sp ch).

Definition signed_number (sp : spec) (ch argument : Z) : res pfield :=
  if argument <? 0 then number (set_sign (CH "-") sp) DEC ch (u64 (- argument)) else number sp DEC ch argument.

(** From the label [nosign] on. *)
Definition nosign (sp : spec) (b : base) (ch argument : Z) : res pfield := number (set_sign 0 sp) b ch argument.

(** The cases that leave the [switch] with a field; [None] for the others. *)
Definition conv_field (ch : Z) (sp : spec) (args : list arg) : option (res (pfield * list arg)) :=
  if ch =? CH "c" then
    Some (r ← VA_INT args; Ok (Field [u8 r.1] 1 0 (set_sign 0 sp) ch, r.2))
  else if ch =? CH "s" then
    Some (r ← VA_STR args;
      let cp := match r.1 with Some p => p | None => BS "(null)" ++ [0] end in
      size ← (if 0 <=? prec sp then Ok (prec sp) else strlen cp);
      let sp := set_sign 0 sp in
      Ok (Field cp size 0 (if 0 <=? width sp then clear_flag ZEROPAD sp else sp) ch, r.2))
  else if (ch =? CH "d") || (ch =? CH "i") then
    Some (r ← SARG (flags sp) args; f ← signed_number sp ch r.1; Ok (f, r.2))
  else if ch =? CH "I" then
    let sp := add_flag LLONGINT sp in
    Some (r ← SARG (flags sp) args; f ← signed_number sp ch r.1; Ok (f, r.2))
  else if ch =? CH "u" then
    Some (r ← UARG (flags sp) args; f ← nosign sp DEC ch r.1; Ok (f, r.2))
  else if ch =? CH "o" then
    Some (r ← UARG (flags sp) args; f ← nosign sp OCT ch r.1; Ok (f, r.2))
  else if (ch =? CH "X") || (ch =? CH "x") then
    Some (r ← UARG (flags sp) args;
      let sp := if has (flags sp) ALT && negb (r.1 =? 0) then add_flag HEXPREFIX sp else sp in
      f ← nosign sp HEX ch r.1; Ok (f, r.2))
  else None.

(** The prefix takes the place of blanks or zeros of the padding, or lengthens the result. *)
Definition emit_prefix (sp : spec) (ch bpad : Z) (b : list Z) (p pads ret : Z) : res (list Z * Z * Z * Z) :=
  if negb (sign sp =? 0) then
    let '(p, pads, ret) :=
      if negb (bpad =? 0) then (p - 1, pads, ret)
      else if negb (pads =? 0) then (p, pads - 1, ret) else (p, pads, u32 (ret + 1)) in
    b ← put b p [sign sp]; Ok (b, p + 1, pads, ret)
  else if has (flags sp) HEXPREFIX then
    let '(p, pads, ret) :=
      if negb (bpad =? 0) then (p - 2, pads, ret)
      else if negb (pads =? 0) then (p, pads - 2, ret) else (p, pads, u32 (ret + 2)) in
    b ← put b p [CH "0"; ch]; Ok (b, p + 2, pads, ret)
  else Ok (b, p, pads, ret).

(** Zeros of the padding, zeros of the precision, the text and the blanks on the right. *)
Definition emit_body (sp : spec) (cp : list Z) (size dpad : Z) (b : list Z) (p pads : Z) : res (list Z * Z) :=
  let zero := Z.land (flags sp) (Z.lor LADJUST ZEROPAD) =? ZEROPAD in
  r ← (if zero then fill_loop b p pads (CH "0") else Ok (b, p));
  let pads := if zero then 0 else pads in
  r ← fill_loop r.1 r.2 dpad (CH "0");
  if Z.of_nat (length cp) <? size then Fail OutOfBounds else
  b ← put r.1 r.2 (take (Z.to_nat size) cp);
  let p := r.2 + size in
  if has (flags sp) LADJUST then fill_loop b p pads (CH " ") else Ok (b, p).

(** The part after the [switch]. *)
Definition emit_field (st : pout) (f : pfield) : res pout :=
  let sp := fsp f in
  let dpad := dprec f - size f in
  let dpad := if dpad <? 0 then 0 else dpad in
  let fieldsz := size f + dpad in
  let pads := width sp - fieldsz in
  let pads := if pads <? 0 then 0 else pads in
  let ret := u32 (ret st + (if fieldsz <? width sp then width sp else fieldsz)) in
  let blank := negb (pads =? 0) && negb (has (flags sp) (Z.lor LADJUST ZEROPAD)) in
  r ← (if blank then fill_loop (pbuf st) (bp st) pads (CH " ") else Ok (pbuf st, bp st));
  r ← emit_prefix sp (fch f) (if blank then pads else 0) r.1 r.2 (if blank then 0 else pads) ret;
  let '(b, p, pads, ret) := r in
  r ← emit_body sp (cp f) (size f) dpad b p pads;
  Ok (set_pbuf st r.1 r.2 ret).

(** ** The other conversions *)

(** The variables and functions of the program the extensions print. *)
Record env := Env {
  u_is_tty : bool; u_hostname : list Z; u_cwd : list Z; u_progname : list Z; u_pid_str : list Z;
  u_user_name : list Z; u_getSysError : list Z; u_getSysSignal : Z → list Z; u_getExitStatus : Z → list Z;
  u_printf_string_max_length : Z; tv_sec_now : Z; tv_usec_now : Z; now_adjust : Z; tzname_ : list Z;
  sprintf_double : list Z → Z → Z → Z → list Z; sprintf_long_double : list Z → Z → Z → Z → list Z }.

Definition U_RESET_STR : list Z := 27 :: BS "[0;0m".

Definition tab_color : list (list Z) :=
  U_RESET_STR :: map (λ c, 27 :: BS "[0;3" ++ [c; CH "m"]) (BS "01234567") ++
  map (λ c, 27 :: BS "[1;3" ++ [c; CH "m"]) (BS "01234567").

(** The format built for [sprintf], without its percent sign and NUL. *)
Definition fmt_float (sp : spec) (ch : Z) : list Z :=
  (if has (flags sp) ALT then BS "#" else []) ++ (if has (flags sp) ZEROPAD then BS "0" else []) ++
  (if has (flags sp) LADJUST then BS "-" else []) ++ (if has (flags sp) THOUSANDS_GROUPED then BS "'" else []) ++
  (if negb (sign sp =? 0) then [sign sp] else []) ++ BS "*.*" ++
  (if has (flags sp) LONGDBL then BS "L" else []) ++ [ch].

(** [sprintf(bp, ...)] stores a NUL, which is not counted. *)
Definition write_nul (st : pout) (bs : list Z) : res pout :=
  b ← put (pbuf st) (bp st) (bs ++ [0]);
  let n := Z.of_nat (length bs) in
  Ok (set_pbuf st b (bp st + n) (u32 (ret st + n))).

Definition conv_float (e : env) (ch : Z) (sp : spec) (args : list arg) (st : pout) : res (pout * list arg) :=
  if has (flags sp) LONGDBL then
    match args with
    | ALongDouble d :: args =>
        st ← write_nul st (sprintf_long_double e (fmt_float sp ch) (width sp) (prec sp) d); Ok (st, args)
    | _ => Fail OutOfBounds
    end
  else
    match args with
    | ADouble d :: args =>
        st ← write_nul st (sprintf_double e (fmt_float sp ch) (width sp) (prec sp) d); Ok (st, args)
    | _ => Fail OutOfBounds
    end.

(** The bytes that [memcpy] takes from a string constant with its NUL. *)
Definition conv_color (e : env) (args : list arg) (st : pout) : res (pout * list arg) :=
  r ← VA_INT args;
  if u_is_tty e then
    s ← rd tab_color (i32 r.1);
    let len := if i32 r.1 =? 0 then length U_RESET_STR else S (length U_RESET_STR) in
    st ← write st (take len (s ++ [0])); Ok (st, r.2)
  else Ok (st, r.2).

Definition conv_R (e : env) (args : list arg) (st : pout) : res (pout * list arg) :=
  r ← VA_STR args;
  st ← match r.1 with Some p => n ← strlen p; write st (take (Z.to_nat n) p) | None => Ok st end;
  st ← write st (BS " - ");
  st ← write st (u_getSysError e);
  Ok (st, r.2).

(** The format of a date by the width of the specification. *)
Definition fmtdate (width : Z) : list Z :=
  if width =? 0 then BS "%d/%m/%y"
  else if width <=? 2 then BS "%T"
  else if width =? 3 then BS "%d/%m/%Y %H:%M:%S"
  else if width =? 4 then BS "%d%m%y_%H%M%S"
  else if width =? 5 then BS "%a, %d %b %Y %H:%M:%S %Z"
  else if width =? 6 then BS "%Y/%m/%d %T"
  else if width <=? 10 then BS "%d/%m/%y %H:%M:%S"
  else if width =? 11 then BS "%d/%b/%Y:%H:%M:%S %z"
  else BS "%a, %d %b %Y %H:%M:%S GMT".

Definition conv_date (e : env) (sp : spec) (args : list arg) (st : pout) : res (pout * list arg) :=
  r ← (if has (flags sp) ALT then VA_LONG args
       else Ok (if width sp =? 12 then tv_sec_now e else tv_sec_now e + now_adjust e, args));
  let '(t, args) := r in
  m ← u_strftime (now_adjust e) (tzname_ e) (drop (Z.to_nat (bp st)) (pbuf st)) 36 (fmtdate (width sp) ++ [0]) t;
  let '(s, len) := m in
  let st := set_pbuf st (take (Z.to_nat (bp st)) (pbuf st) ++ s) (bp st + len) (u32 (ret st + len)) in
  st ←
    (if width sp =? 2 then
       if has (flags sp) ALT && (86400 <? t) then
         write st (BS " +" ++ decimal 20 (t / 86400) ++ BS " days")
       else Ok st
     else if width sp =? 4 then write st (CH "_" :: zero_pad 3 (decimal 20 (Z.quot (tv_usec_now e) 1000)))
     else Ok st);
  Ok (st, args).

Definition conv_C (args : list arg) (st : pout) : res (pout * list arg) :=
  r ← VA_INT args;
  let c := u8 r.1 in
  st ← write st ([CH "'"] ++
    (if c =? 34 then [34] else if c =? CH "'" then BS "\'" else u_sprintc c false) ++ [CH "'"]);
  Ok (st, r.2).

(** The loop of [%S] over the string, and the index where it ends. *)
Fixpoint print_chars (fuel : nat) (p : list Z) (n prec remaining : Z) (all : bool) (st : pout) :
    res (Z * pout) :=
  if negb (n <? prec) then Ok (n, st) else
  match fuel with
  | O => Fail OutOfFuel
  | S fuel' =>
      c ← rd p n;
      if (c =? 0) && negb all then Ok (n, st)
      else
        let h := u_sprintc c false in
        st ← write st h;
        let remaining := remaining - Z.of_nat (length h) in
        if remaining <=? 0 then Ok (n, st) else print_chars fuel' p (n + 1) prec remaining all st
  end.

Definition conv_S (e : env) (buffer_size : Z) (sp : spec) (args : list arg) (st : pout) : res (pout * list arg) :=
  r ← VA_STR args;
  match r.1 with
  | None => st ← write st (BS "(null)"); Ok (st, r.2)
  | Some p =>
      let all := has (flags sp) ALT in
      let maxlen := if 0 <? u_printf_string_max_length e then u_printf_string_max_length e else 128 in
      let prec := if prec sp =? -1 then maxlen else prec sp in
      let prec := if (maxlen <? prec) && negb all then maxlen else prec in
      let remaining := i32 (u32 (buffer_size - ret st - (if all then 100 else 10))) in
      st ← write st [34];
      q ← print_chars (S (Z.to_nat prec)) p 0 prec remaining all st;
      let '(n, st) := q in
      st ← write st [34];
      c ← rd p n;
      st ← (if negb (c =? 0) && (n =? prec) then write st (BS "...") else Ok st);
      Ok (st, r.2)
  end.

(** The cases that go on with the format; the last one is the [default], which leaves the loop at the
    end of the format ([true]). *)
Definition conv_other (e : env) (buffer_size ch : Z) (sp : spec) (args : list arg) (st : pout) :
    res (pout * list arg * bool) :=
  let next (r : res (pout * list arg)) : res (pout * list arg * bool) := x ← r; Ok (x.1, x.2, false) in
  let print (bs : list Z) := next (st ← write st bs; Ok (st, args)) in
  if ch =? CH "%" then print [CH "%"]
  else if ch =? CH "n" then
    next (r ← VA_PTR args;
      let v :=
        if has (flags sp) LLONGINT || has (flags sp) LONGINT then ret st
        else if has (flags sp) SHORTINT then i16 (ret st) else i32 (ret st) in
      Ok (POut (pbuf st) (bp st) (ret st) (stored st ++ [(r.1, v)]) (flag_exit st), r.2))
  else if existsb (Z.eqb ch) (BS "aAeEfFgG") then next (conv_float e ch sp args st)
  else if ch =? CH "W" then next (conv_color e args st)
  else if ch =? CH "H" then print (u_hostname e)
  else if ch =? CH "w" then print (u_cwd e)
  else if ch =? CH "N" then print (u_progname e)
  else if ch =? CH "P" then print (u_pid_str e)
  else if ch =? CH "Q" then
    next (r ← VA_INT args; Ok (POut (pbuf st) (bp st) (ret st) (stored st) (i32 r.1), r.2))
  else if ch =? CH "R" then next (conv_R e args st)
  else if ch =? CH "U" then print (u_user_name e)
  else if ch =? CH "Y" then next (r ← VA_INT args; st ← write st (u_getSysSignal e (i32 r.1)); Ok (st, r.2))
  else if ch =? CH "r" then next (r ← VA_INT args; st ← write st (u_getExitStatus e (i32 r.1)); Ok (st, r.2))
  else if ch =? CH "D" then next (conv_date e sp args st)
  else if ch =? CH "b" then
    next (r ← VA_INT args; st ← write st (if negb (i32 r.1 =? 0) then BS "true" else BS "false"); Ok (st, r.2))
  else if ch =? CH "C" then next (conv_C args st)
  else if (ch =? CH "S") || (ch =? CH "O") then next (conv_S e buffer_size sp args st)
  else
    st ← write st [CH "%"];
    if ch =? 0 then Ok (st, args, true) else st ← write st [ch]; Ok (st, args, false).

(** [%p]: a pointer that is not null is a hexadecimal number with its prefix. *)
Definition conv_p (sp : spec) (args : list arg) (st : pout) : res (pout * list arg) :=
  r ← VA_PTR args;
  if negb (u64 r.1 =? 0) then
    f ← nosign (add_flag HEXPREFIX sp) HEX (CH "x") (u64 r.1); st ← emit_field st f; Ok (st, r.2)
  else st ← write st (BS "(nil)"); Ok (st, r.2).

(** One round of the loop over the format. *)
Definition print_step (e : env) (buffer_size : Z) (s : pout * list Z * list arg) :
    res (pout * list Z * list arg + pout) :=
  let '(st, format, args) := s in
  r ← format_span format;
  let '(lit, format) := r in
  st ← write st lit;
  ch ← rd format 0;
  if ch =? 0 then Ok (inr st)
  else
    r ← parse_spec (S (length format)) (drop 1 format) args (Spec 0 0 (-1) 0);
    let '(ch, format, args, sp) := r in
    match conv_field ch sp args with
    | Some r => x ← r; st ← emit_field st x.1; Ok (inl (st, format, x.2))
    | None =>
        if ch =? CH "p" then r ← conv_p sp args st; Ok (inl (r.1, format, r.2))
        else
          r ← conv_other e buffer_size ch sp args st;
          let '(st, args, done) := r in
          Ok (if done : bool then inr st else inl (st, format, args))
    end.

Definition u__vsnprintf (e : env) (buffer : list Z) (buffer_size : Z) (format : list Z) (args : list arg) : res pout :=
  st ← iterate (S (length format)) (print_step e buffer_size) (POut buffer 0 0 [] 0, format, args);
  if ret st <? buffer_size then b ← wr (pbuf st) (bp st) 0; Ok (set_pbuf st b (bp st) (ret st)) else Ok st.

(** [u__snprintf] is the same with its arguments in place. *)
Definition u__snprintf := u__vsnprintf.

Definition env0 : env :=
  Env false [] [] [] [] [] [] (λ _, []) (λ _, []) 0 0 0 0 [] (λ _ _ _ _, []) (λ _ _ _ _, []).

(** ** Specification: the conversions of the C standard *)

(** The digits of [v] in base [b], [digit] giving the character of a digit. *)
Fixpoint numeral (fuel : nat) (b : Z) (digit : Z → Z) (v : Z) : list Z :=
  match fuel with
  | O => []
  | S fuel' => if v <? b then [digit v] else numeral fuel' b digit (v / b) ++ [digit (v mod b)]
  end.

(** The decimal digits with a comma between groups of three. *)
Fixpoint grouped_decimal (fuel : nat) (v : Z) : list Z :=
  match fuel with
  | O => []
  | S fuel' =>
      if v <? 1000 then numeral 3 10 (λ d, d + CH "0") v
      else grouped_decimal fuel' (v / 1000) ++ CH "," :: three_digits (v mod 1000)
  end.

Definition octal_text (alt : bool) (v : Z) : list Z :=
  let ds := numeral 23 8 (λ d, d + CH "0") v in if alt && negb (v =? 0) then CH "0" :: ds else ds.

Definition digits_text (alt grouped : bool) (ch v : Z) : list Z :=
  if ch =? CH "o" then octal_text alt v
  else if (ch =? CH "x") || (ch =? CH "X") then
    numeral 17 16 (λ d, nth (Z.to_nat d) (if ch =? CH "X" then u_hex_upper else u_hex_lower) 0) v
  else if grouped then grouped_decimal 7 v
  else numeral 20 10 (λ d, d + CH "0") v.

(** A directive of a format: the flags, the width, the precision, the length modifier and the conversion
    character, with its argument. *)
Record directive := Directive {
  d_flags : list Z; d_width : option Z; d_prec : option Z; d_len : list Z; d_ch : Z; d_arg : arg }.

Definition number_chars (n : Z) : list Z := numeral 20 10 (λ d, d + CH "0") n.

Definition render (d : directive) : list Z :=
  [CH "%"] ++ d_flags d ++ match d_width d with Some w => number_chars w | None => [] end ++
  match d_prec d with Some p => CH "." :: number_chars p | None => [] end ++ d_len d ++ [d_ch d].

Definition flag (c : Z) (d : directive) : bool := existsb (Z.eqb c) (d_flags d).

(** Blanks on the right; or zeros after the prefix; or blanks on the left. *)
Definition pad_text (left zero : bool) (w : Z) (prefix body : list Z) : list Z :=
  let n := Z.to_nat (w - Z.of_nat (length (prefix ++ body))) in
  if left then prefix ++ body ++ replicate n (CH " ")
  else if zero then prefix ++ replicate n (CH "0") ++ body
  else replicate n (CH " ") ++ prefix ++ body.

(** The digits with at least [prec] of them; none for zero with a precision of zero. *)
Definition with_precision (prec : option Z) (v : Z) (ds : list Z) : list Z :=
  match prec with
  | Some p => if (p =? 0) && (v =? 0) then [] else replicate (Z.to_nat (p - Z.of_nat (length ds))) (CH "0") ++ ds
  | None => ds
  end.

Definition signed_value (d : directive) : option Z :=
  match d_arg d, d_len d with
  | AInt z, [] => Some (i32 z)
  | AInt z, [104] => Some (i16 z)
  | ALong z, [108] | ALong z, [108; 108] => Some (i64 z)
  | _, _ => None
  end.

Definition unsigned_value (d : directive) : option Z :=
  match d_arg d, d_len d with
  | AInt z, [] => Some (u32 z)
  | AInt z, [104] => Some (u16 z)
  | ALong z, [108] | ALong z, [108; 108] => Some (u64 z)
  | _, _ => None
  end.

Definition pad_directive (d : directive) (zero : bool) (prefix body : list Z) : list Z :=
  pad_text (flag (CH "-") d) (flag (CH "0") d && zero) (default 0 (d_width d)) prefix body.

Definition no_prec (d : directive) : bool := match d_prec d with None => true | Some _ => false end.

Definition signed_text (d : directive) (z : Z) : list Z :=
  let prefix :=
    if z <? 0 then [CH "-"] else if flag (CH "+") d then [CH "+"] else if flag (CH " ") d then [CH " "] else [] in
  pad_directive d (no_prec d) prefix
    (with_precision (d_prec d) (Z.abs z) (digits_text false (flag (CH "'") d) (CH "d") (Z.abs z))).

Definition hex_prefix (d : directive) (v : Z) : bool :=
  ((d_ch d =? CH "x") || (d_ch d =? CH "X")) && flag (CH "#") d && negb (v =? 0).

Definition unsigned_body (d : directive) (v : Z) : list Z :=
  with_precision (d_prec d) v (digits_text (flag (CH "#") d) (flag (CH "'") d) (d_ch d) v).

Definition unsigned_text (d : directive) (v : Z) : list Z :=
  pad_directive d (no_prec d) (if hex_prefix d v then [CH "0"; d_ch d] else []) (unsigned_body d v).

(** The text of a directive; [None] when the argument does not fit it, and for the widths at which the
    function goes wrong: one more than the hexadecimal digits before the prefix. *)
Definition directive_text (d : directive) : option (list Z) :=
  let ch := d_ch d in
  if (ch =? CH "d") || (ch =? CH "i") then signed_text d <$> signed_value d
  else if (ch =? CH "u") || (ch =? CH "o") || (ch =? CH "x") || (ch =? CH "X") then
    v ← unsigned_value d;
    if hex_prefix d v && (default 0 (d_width d) =? Z.of_nat (length (unsigned_body d v)) + 1) then None
    else Some (unsigned_text d v)
  else if ch =? CH "c" then
    match d_arg d, d_len d with AInt z, [] => Some (pad_directive d true [] [u8 z]) | _, _ => None end
  else if ch =? CH "s" then
    match d_arg d, d_prec d, d_len d with
    | AStr (Some p), None, [] => match strlen p with Ok n => Some (pad_directive d false [] (take (Z.to_nat n) p)) | _ => None end
    | AStr (Some p), Some n, [] =>
        if n <=? Z.of_nat (length p) then Some (pad_directive d false [] (take (Z.to_nat n) p)) else None
    | AStr None, None, [] => Some (pad_directive d false [] (BS "(null)"))
    | _, _, _ => None
    end
  else None.

(** The flags, width and precision the theorems are about. *)
Definition directive_ok (d : directive) : bool :=
  forallb (λ c, existsb (Z.eqb c) (BS "#0- +'")) (d_flags d) &&
  match d_width d with Some w => (1 <=? w) && (w <? 2 ^ 31) | None => true end &&
  match d_prec d with Some p => (0 <=? p) && (p <? 2 ^ 31) | None => true end &&
  existsb (λ l, bool_decide (l = d_len d)) [[]; BS "h"; BS "l"; BS "ll"].

(** A format is text without percent signs and NULs, and directives. *)
Inductive piece := Text (bs : list Z) | Conv (d : directive) | Percent.

Definition render_piece (p : piece) : list Z :=
  match p with Text bs => bs | Conv d => render d | Percent => BS "%%" end.

Definition piece_arg (p : piece) : list arg := match p with Conv d => [d_arg d] | _ => [] end.

Definition piece_text (p : piece) : option (list Z) :=
  match p with
  | Text bs => if forallb (λ c, negb (c =? 0) && negb (c =? CH "%")) bs then Some bs else None
  | Conv d => if directive_ok d then directive_text d else None
  | Percent => Some (BS "%")
  end.

Fixpoint format_text (ps : list piece) : option (list Z) :=
  match ps with
  | [] => Some []
  | p :: ps => t ← piece_text p; ts ← format_text ps; Some (t ++ ts)
  end.

(** ** Lemmas: the bits of the flags *)

Lemma has_lor f m m' : has (Z.lor f m) m' = has f m' || has m m'.
Proof.
  unfold has. rewrite Z.land_lor_distr_l.
  destruct (Z.eqb_spec (Z.land f m') 0) as [->|H1]; [by rewrite Z.lor_0_l|]. cbn [negb orb].
  destruct (Z.eqb_spec (Z.lor (Z.land f m') (Z.land m m')) 0) as [E|]; [|done].
  by apply Z.lor_eq_0_iff in E as [? _].
Qed.

Lemma has_lor_r f m m' : has f (Z.lor m m') = has f m || has f m'.
Proof. unfold has. rewrite !(Z.land_comm f). apply has_lor. Qed.

Lemma has_ldiff f m m' : Z.land m m' = 0 → has (Z.ldiff f m) m' = has f m'.
Proof.
  intros H. unfold has. do 2 f_equal. apply Z.bits_inj'. intros n Hn. rewrite !Z.land_spec, Z.ldiff_spec.
  assert (E := f_equal (λ z, Z.testbit z n) H). simpl in E. rewrite Z.land_spec, Z.bits_0 in E.
  destruct (Z.testbit f n), (Z.testbit m n), (Z.testbit m' n); done.
Qed.

Lemma has_ldiff_same f m : has (Z.ldiff f m) m = false.
Proof.
  unfold has. replace (Z.land (Z.ldiff f m) m) with 0; [done|]. symmetry.
  apply Z.bits_inj'. intros n Hn. rewrite Z.land_spec, Z.ldiff_spec, Z.bits_0.
  destruct (Z.testbit f n), (Z.testbit m n); done.
Qed.

Lemma has_bit f k : 0 <= k → Z.land f (2 ^ k) = if has f (2 ^ k) then 2 ^ k else 0.
Proof.
  intros Hk. unfold has. destruct (Z.eqb_spec (Z.land f (2 ^ k)) 0) as [|Hne]; [done|]. cbn [negb].
  apply Z.bits_inj'. intros n Hn. rewrite Z.land_spec, Z.pow2_bits_eqb by done.
  destruct (Z.eqb_spec k n) as [->|]; [|by rewrite andb_false_r].
  destruct (Z.testbit f n) eqn:E; [done|]. destruct Hne. apply Z.bits_inj'. intros i Hi.
  rewrite Z.land_spec, Z.pow2_bits_eqb, Z.bits_0 by done. destruct (Z.eqb_spec n i) as [->|]; [by rewrite E|].
  apply andb_false_r.
Qed.

Lemma zero_only f :
  (Z.land f (Z.lor LADJUST ZEROPAD) =? ZEROPAD) = negb (has f LADJUST) && has f ZEROPAD.
Proof.
  rewrite Z.land_lor_distr_r. change LADJUST with (2 ^ 5). change ZEROPAD with (2 ^ 6).
  rewrite !has_bit by lia. by destruct (has f (2 ^ 5)), (has f (2 ^ 6)).
Qed.

(** ** Lemmas: the buffer *)

(** The text [don] is stored, and [rest] is the buffer after it. *)
Definition ready (st : pout) (don rest : list Z) : Prop :=
  pbuf st = don ++ rest ∧ bp st = Z.of_nat (length don) ∧ ret st = Z.of_nat (length don) ∧
  Z.of_nat (length (don ++ rest)) < 2 ^ 32.

(** [r] stores the text [t]. *)
Definition prints (st : pout) (don rest : list Z) (r : res pout) (t : list Z) : Prop :=
  ready st don rest → (length t ≤ length rest)%nat →
  ∃ st', r = Ok st' ∧ ready st' (don ++ t) (drop (length t) rest) ∧ stored st' = stored st ∧ flag_exit st' = flag_exit st.

Lemma write_prints st don rest t : prints st don rest (write st t) t.
Proof.
  intros (Eb & Ep & Er & Hl) Ht. unfold write. rewrite Eb, Ep, put_ok by done. cbn [mbind res_bind].
  eexists. split; [done|]. split; [|done]. rewrite length_app in Hl.
  unfold ready, set_pbuf. cbn [pbuf bp ret]. rewrite Er, !length_app, length_drop, <-app_assoc.
  rewrite u32_small by lia. splits; lia || done.
Qed.

Lemma fill_ok fuel don rest n c :
  (n ≤ length rest)%nat → (n ≤ fuel)%nat →
  fill fuel (don ++ rest) (Z.of_nat (length don)) (Z.of_nat n) c =
    Ok ((don ++ replicate n c) ++ drop n rest, Z.of_nat (length (don ++ replicate n c))).
Proof.
  revert fuel don rest. induction n as [|n IH]; intros fuel don rest Hn Hf.
  - simpl. destruct fuel; by rewrite app_nil_r, drop_0.
  - destruct fuel as [|fuel]; [lia|]. destruct rest as [|y rest]; [simpl in Hn; lia|]. cbn [fill].
    destruct (Z.eqb_spec (Z.of_nat (S n)) 0); [lia|].
    assert (E := put_ok don [c] (y :: rest) ltac:(simpl; lia)). simpl in E.
    destruct (wr (don ++ y :: rest) _ c) as [s'|]; [|done]. cbn [mbind res_bind] in *. injection E as ->. rewrite drop_0.
    replace (don ++ c :: rest) with ((don ++ [c]) ++ rest) by by rewrite <-app_assoc.
    replace (Z.of_nat (length don) + 1) with (Z.of_nat (length (don ++ [c]))) by (rewrite length_app; simpl; lia).
    replace (Z.of_nat (S n) - 1) with (Z.of_nat n) by lia. rewrite IH by (simpl in Hn; lia).
    rewrite <-!app_assoc. cbn [app replicate drop]. done.
Qed.

Lemma fill_loop_ok don rest n c :
  0 <= n <= Z.of_nat (length rest) →
  fill_loop (don ++ rest) (Z.of_nat (length don)) n c =
    Ok ((don ++ replicate (Z.to_nat n) c) ++ drop (Z.to_nat n) rest, Z.of_nat (length (don ++ replicate (Z.to_nat n) c))).
Proof.
  intros Hn. unfold fill_loop. rewrite <-(Z2Nat.id n) at 1 by lia. apply fill_ok; [lia|]. rewrite length_app. lia.
Qed.

(** ** Lemmas: fields *)

Definition field_prefix (f : pfield) : list Z :=
  if negb (sign (fsp f) =? 0) then [sign (fsp f)]
  else if has (flags (fsp f)) HEXPREFIX then [CH "0"; fch f] else [].

Definition field_body (f : pfield) : list Z :=
  replicate (Z.to_nat (dprec f - size f)) (CH "0") ++ take (Z.to_nat (size f)) (cp f).

Definition field_text (f : pfield) : list Z :=
  pad_text (has (flags (fsp f)) LADJUST) (has (flags (fsp f)) ZEROPAD) (width (fsp f)) (field_prefix f) (field_body f).

(** The characters are there, and the prefix of two characters does not meet a padding of one. *)
Definition field_ok (f : pfield) : Prop :=
  0 <= size f <= Z.of_nat (length (cp f)) ∧
  (length (field_prefix f) = 2%nat → width (fsp f) ≠ Z.of_nat (length (field_body f)) + 1).

(** The characters [t] are in the buffer after those of [don], where [rest] was. *)
Definition stored_at (don rest t : list Z) (r : list Z * Z) : Prop :=
  r = ((don ++ t) ++ drop (length t) rest, Z.of_nat (length (don ++ t))).

Lemma put_at don rest t bs :
  (length (t ++ bs) ≤ length rest)%nat →
  put ((don ++ t) ++ drop (length t) rest) (Z.of_nat (length (don ++ t))) bs =
    Ok ((don ++ t ++ bs) ++ drop (length (t ++ bs)) rest).
Proof.
  intros Hl. rewrite length_app in Hl. rewrite put_ok by (rewrite length_drop; lia).
  rewrite drop_drop, <-!app_assoc, length_app. done.
Qed.

Lemma fill_loop_at don rest t n c :
  0 <= n → (length t + Z.to_nat n ≤ length rest)%nat →
  fill_loop ((don ++ t) ++ drop (length t) rest) (Z.of_nat (length (don ++ t))) n c =
    Ok ((don ++ t ++ replicate (Z.to_nat n) c) ++ drop (length (t ++ replicate (Z.to_nat n) c)) rest,
        Z.of_nat (length (don ++ t ++ replicate (Z.to_nat n) c))).
Proof.
  intros Hn Hl. rewrite fill_loop_ok by (rewrite length_drop; lia).
  by rewrite drop_drop, <-!app_assoc, (length_app t), length_replicate.
Qed.

(** Overwriting the last characters stored. *)
Lemma put_back don rest t old bs :
  length old = length bs → (length (t ++ bs) ≤ length rest)%nat →
  put ((don ++ t ++ old) ++ drop (length (t ++ old)) rest)
      (Z.of_nat (length (don ++ t ++ old)) - Z.of_nat (length bs)) bs =
    Ok ((don ++ t ++ bs) ++ drop (length (t ++ bs)) rest).
Proof.
  intros Ho Hl. rewrite !length_app, Ho in *.
  replace (Z.of_nat (length don + (length t + length bs)) - Z.of_nat (length bs))
    with (Z.of_nat (length (don ++ t))) by (rewrite length_app; lia).
  rewrite (app_assoc don), <-app_assoc, put_ok by (rewrite length_app, length_drop; lia).
  by rewrite drop_app_ge, Ho, Nat.sub_diag, drop_0, app_assoc, <-(app_assoc don), (app_assoc don) by lia.
Qed.

(** The prefix after the blanks: it overwrites the last of them, or comes first and shortens the padding. *)
Lemma emit_prefix_ok f don rest n r :
  let k := Z.of_nat (length (field_prefix f)) in
  let blank := negb (n =? 0) && negb (has (flags (fsp f)) (Z.lor LADJUST ZEROPAD)) in
  let bl := if blank then replicate (Z.to_nat n) (CH " ") else [] in
  let bl' := if blank then replicate (Z.to_nat (n - k)) (CH " ") else [] in
  n = 0 ∨ k <= n → 0 <= n → (length (bl' ++ field_prefix f) ≤ length rest)%nat → (n = 0 → 0 <= r + k < 2 ^ 32) →
  emit_prefix (fsp f) (fch f) (if blank then n else 0) ((don ++ bl) ++ drop (length bl) rest)
      (Z.of_nat (length (don ++ bl))) (if blank then 0 else n) r =
    Ok ((don ++ bl' ++ field_prefix f) ++ drop (length (bl' ++ field_prefix f)) rest,
        Z.of_nat (length (don ++ bl' ++ field_prefix f)), if blank then 0 else if n =? 0 then 0 else n - k,
        if n =? 0 then r + k else r).
Proof.
  intros k blank bl bl' Hk Hn Hl Hr.
  assert (Hb : blank = true → n ≠ 0) by (unfold blank; destruct (Z.eqb_spec n 0); done).
  unfold bl, bl' in *. clear bl bl'. clearbody blank.
  set (bl := if blank then replicate (Z.to_nat n) 32 else []) in *.
  set (bl' := if blank then replicate (Z.to_nat (n - k)) 32 else []) in *.
  assert (Hpre : ∀ pre, field_prefix f = pre → pre ≠ [] → ∀ p,
    (let '(p, pads, ret) :=
       if negb ((if blank then n else 0) =? 0) then (p - Z.of_nat (length pre), if blank then 0 else n, r)
       else if negb ((if blank then 0 else n) =? 0) then (p, (if blank then 0 else n) - Z.of_nat (length pre), r)
       else (p, if blank then 0 else n, u32 (r + Z.of_nat (length pre))) in
     b ← put ((don ++ bl) ++ drop (length bl) rest) p pre; Ok (b, p + Z.of_nat (length pre), pads, ret)) =
    (let p' := if blank then p - Z.of_nat (length pre) else p in
     b ← put ((don ++ bl) ++ drop (length bl) rest) p' pre;
     Ok (b, p' + Z.of_nat (length pre), if blank then 0 else if n =? 0 then 0 else n - Z.of_nat (length pre),
         if n =? 0 then r + Z.of_nat (length pre) else r))).
  { intros pre E _ p. unfold k in Hr. rewrite E in Hr. destruct blank.
    - destruct (Z.eqb_spec n 0); [by destruct Hb|]. done.
    - destruct (Z.eqb_spec n 0) as [->|]; cbn [Z.eqb negb]; [|done].
      rewrite u32_small by (apply Hr; done). done. }
  assert (Hput : ∀ pre, field_prefix f = pre → pre ≠ [] →
    (let p' := if blank then Z.of_nat (length (don ++ bl)) - Z.of_nat (length pre) else Z.of_nat (length (don ++ bl)) in
     b ← put ((don ++ bl) ++ drop (length bl) rest) p' pre;
     Ok (b, p' + Z.of_nat (length pre), if blank then 0 else if n =? 0 then 0 else n - Z.of_nat (length pre),
         if n =? 0 then r + Z.of_nat (length pre) else r)) =
    Ok ((don ++ bl' ++ pre) ++ drop (length (bl' ++ pre)) rest, Z.of_nat (length (don ++ bl' ++ pre)),
        if blank then 0 else if n =? 0 then 0 else n - k, if n =? 0 then r + k else r)).
  { intros pre E Hne. clear Hpre. unfold bl, bl', k in *. rewrite E in *. destruct blank.
    - specialize (Hb eq_refl). assert (Hkn : Z.of_nat (length pre) <= n) by lia.
      replace (Z.to_nat n) with (Z.to_nat (n - Z.of_nat (length pre)) + length pre)%nat by lia.
      rewrite replicate_add. cbv zeta. rewrite put_back by (done || by rewrite length_replicate).
      cbn [mbind res_bind]. do 4 f_equal. rewrite !length_app, !length_replicate. lia.
    - rewrite app_nil_r. cbv zeta. change (length []) with 0%nat. rewrite drop_0. rewrite put_ok by done.
      cbn [mbind res_bind app]. rewrite <-app_assoc, (length_app don). do 4 f_equal. lia. }
  unfold emit_prefix. destruct (negb (sign (fsp f) =? 0)) eqn:Es; [|destruct (has (flags (fsp f)) HEXPREFIX) eqn:Eh].
  - assert (E : field_prefix f = [sign (fsp f)]) by (unfold field_prefix; by rewrite Es).
    rewrite E at 1 2 3. rewrite <-(Hput _ E) by done. rewrite <-(Hpre _ E) by done. done.
  - assert (E : field_prefix f = [CH "0"; fch f]) by (unfold field_prefix; by rewrite Es, Eh).
    rewrite E at 1 2 3. rewrite <-(Hput _ E) by done. rewrite <-(Hpre _ E) by done. done.
  - assert (E : field_prefix f = []) by (unfold field_prefix; by rewrite Es, Eh).
    clear Hpre Hput. assert (Ek : k = 0) by (unfold k; by rewrite E).
    unfold bl, bl'. rewrite Ek, E, !app_nil_r, Z.sub_0_r, Z.add_0_r.
    by destruct blank, (Z.eqb_spec n 0) as [->|].
Qed.

Lemma emit_body_ok sp cp size dpad don rest t pads :
  let left := has (flags sp) LADJUST in
  let zero := has (flags sp) ZEROPAD in
  let zs := if negb left && zero then replicate (Z.to_nat pads) (CH "0") else [] in
  let body := replicate (Z.to_nat dpad) (CH "0") ++ take (Z.to_nat size) cp in
  let bs := if left then replicate (Z.to_nat pads) (CH " ") else [] in
  0 <= pads → 0 <= dpad → 0 <= size <= Z.of_nat (length cp) →
  (length (t ++ zs ++ body ++ bs) ≤ length rest)%nat →
  emit_body sp cp size dpad ((don ++ t) ++ drop (length t) rest) (Z.of_nat (length (don ++ t))) pads =
    Ok ((don ++ t ++ zs ++ body ++ bs) ++ drop (length (t ++ zs ++ body ++ bs)) rest,
        Z.of_nat (length (don ++ t ++ zs ++ body ++ bs))).
Proof.
  intros left zero zs body bs Hp Hd Hs Hl. unfold emit_body. rewrite zero_only. fold left zero.
  assert (Hcp : length (take (Z.to_nat size) cp) = Z.to_nat size) by (rewrite length_take; lia).
  set (text := take (Z.to_nat size) cp) in *. unfold body in *. clear body.
  set (ds := replicate (Z.to_nat dpad) 48) in *.
  assert (E1 : (if negb left && zero then
       fill_loop ((don ++ t) ++ drop (length t) rest) (Z.of_nat (length (don ++ t))) pads 48
     else Ok ((don ++ t) ++ drop (length t) rest, Z.of_nat (length (don ++ t)))) =
    Ok ((don ++ t ++ zs) ++ drop (length (t ++ zs)) rest, Z.of_nat (length (don ++ t ++ zs)))).
  { unfold zs in *. destruct (negb left && zero); [|by rewrite !app_nil_r].
    rewrite !length_app, length_replicate in Hl. rewrite fill_loop_at by lia. done. }
  rewrite E1. cbn [mbind res_bind fst snd]. rewrite !length_app in Hl.
  rewrite fill_loop_at by (rewrite ?length_app; unfold ds in Hl; rewrite ?length_replicate in Hl; lia). fold ds.
  cbn [mbind res_bind fst snd]. destruct (Z.ltb_spec (Z.of_nat (length cp)) size); [lia|].
  rewrite <-(app_assoc t zs ds). rewrite put_at by (rewrite !length_app; lia). cbn [mbind res_bind].
  replace (Z.of_nat (length (don ++ t ++ zs ++ ds)) + size)
    with (Z.of_nat (length (don ++ t ++ zs ++ ds ++ text))) by (rewrite !length_app; lia).
  rewrite <-!app_assoc. unfold bs in *. destruct left.
  - cbn [negb andb] in *. assert (E := fill_loop_at don rest (t ++ zs ++ ds ++ text) pads 32 Hp).
    rewrite length_replicate in Hl. rewrite <-!app_assoc in E. apply E. rewrite !length_app. lia.
  - by rewrite !app_nil_r.
Qed.

(** The whole field. *)
Lemma emit_field_prints st don rest f : field_ok f → prints st don rest (emit_field st f) (field_text f).
Proof.
  intros [Hs Hhex] (Eb & Ep & Er & Hl) Hlen. unfold emit_field. rewrite Eb, Ep, Er.
  set (sp := fsp f) in *. set (k := length (field_prefix f)).
  assert (Hk : (k <= 2)%nat) by (unfold k, field_prefix; repeat case_match; simpl; lia).
  set (dpad := if dprec f - size f <? 0 then 0 else dprec f - size f).
  assert (Hdpad : dpad = Z.max 0 (dprec f - size f)) by (unfold dpad; zcases; lia). clearbody dpad.
  assert (Hbody : field_body f = replicate (Z.to_nat dpad) 48 ++ take (Z.to_nat (size f)) (cp f))
    by (unfold field_body; do 2 f_equal; lia).
  assert (Hbl : Z.of_nat (length (field_body f)) = size f + dpad)
    by (rewrite Hbody, length_app, length_replicate, length_take; lia).
  set (n := if width sp - (size f + dpad) <? 0 then 0 else width sp - (size f + dpad)).
  assert (Hn : n = Z.max 0 (width sp - (size f + dpad))) by (unfold n; zcases; lia). clearbody n.
  assert (Hkn : n = 0 ∨ Z.of_nat k <= n).
  { destruct (decide (k = 2%nat)) as [E|]; [|lia]. specialize (Hhex E). fold sp in Hhex. lia. }
  rewrite has_lor_r. set (left := has (flags sp) LADJUST) in *. set (zero := has (flags sp) ZEROPAD) in *.
  set (N := (Z.to_nat (width sp - Z.of_nat (length (field_prefix f ++ field_body f))))).
  assert (HN : Z.of_nat N = if n =? 0 then 0 else n - Z.of_nat k).
  { unfold N. rewrite length_app. fold k. zcases; lia. }
  assert (Ht : field_text f = pad_text left zero (width sp) (field_prefix f) (field_body f)) by done.
  assert (Hlt : length (field_text f) = (N + (k + length (field_body f)))%nat).
  { rewrite Ht. unfold pad_text. fold N. destruct left, zero; rewrite !length_app, length_replicate; fold k; lia. }
  rewrite length_app in Hl.
  set (r0 := u32 (Z.of_nat (length don) + _)).
  assert (Hr0 : r0 = Z.of_nat (length don) + (size f + dpad) + n).
  { assert (n <= Z.of_nat N + Z.of_nat k) by (revert HN; zcases; lia).
    unfold r0. rewrite u32_small by (zcases; lia). zcases; lia. }
  clearbody r0.
  assert (HP := emit_prefix_ok f don rest n r0). cbv zeta in HP. fold sp in HP. rewrite has_lor_r in HP.
  fold k left zero in HP. set (blank := negb (n =? 0) && negb (left || zero)) in *.
  set (bl := if blank then replicate (Z.to_nat n) 32 else []) in *.
  set (bl' := if blank then replicate (Z.to_nat (n - Z.of_nat k)) 32 else []) in *.
  assert (Hbl' : length bl' = if blank then N else 0%nat).
  { unfold bl'. destruct blank eqn:E; [|done]. rewrite length_replicate. unfold blank in E.
    destruct (Z.eqb_spec n 0); [done|]. lia. }
  assert (E1 : (if blank then fill_loop (don ++ rest) (Z.of_nat (length don)) n 32
      else Ok (don ++ rest, Z.of_nat (length don))) =
    Ok ((don ++ bl) ++ drop (length bl) rest, Z.of_nat (length (don ++ bl)))).
  { unfold bl. destruct blank eqn:E; [|by rewrite app_nil_r]. unfold blank in E.
    destruct (Z.eqb_spec n 0); [done|]. rewrite length_replicate. apply fill_loop_ok. lia. }
  rewrite E1. cbn [mbind res_bind fst snd].
  assert (Hlen' : (length (bl' ++ field_prefix f) ≤ length rest)%nat).
  { rewrite length_app, Hbl'. fold k. destruct blank; lia. }
  rewrite HP by (try done; revert HN; zcases; lia). cbn [mbind res_bind].
  set (pads := if blank then 0 else if n =? 0 then 0 else n - Z.of_nat k).
  assert (Hpads : pads = if blank then 0 else Z.of_nat N) by (unfold pads; by rewrite HN).
  assert (Htext : (bl' ++ field_prefix f) ++ (if negb left && zero then replicate (Z.to_nat pads) 48 else []) ++
      field_body f ++ (if left then replicate (Z.to_nat pads) 32 else []) = field_text f).
  { rewrite Ht. unfold pad_text. fold N. rewrite Hpads. unfold bl', blank in *.
    destruct left, zero; cbn [negb andb orb] in *; rewrite ?andb_false_r in *; rewrite ?Nat2Z.id, ?app_nil_r; cbn [app];
      rewrite <-?app_assoc; try done.
    destruct (Z.eqb_spec n 0); cbn [negb andb]; [replace N with 0%nat by lia; done|].
    do 2 f_equal. lia. }
  assert (HB := emit_body_ok sp (cp f) (size f) dpad don rest (bl' ++ field_prefix f) pads).
  cbv zeta in HB. fold left zero in HB. rewrite <-Hbody in HB. rewrite Htext in HB.
  rewrite HB by (try done; try lia; unfold pads; zcases; destruct blank; lia). cbn [mbind res_bind fst snd].
  eexists. split; [done|]. split; [|done]. unfold ready, set_pbuf. cbn [pbuf bp ret].
  split; [done|]. split; [done|]. rewrite !length_app, length_drop, Hlt. split; [|lia].
  rewrite Hr0. zcases; lia.
Qed.

(** ** Lemmas: integers *)

Lemma oct_digits_numeral fuel v acc :
  0 <= v → oct_digits fuel v acc = numeral (S fuel) 8 (λ d, d + CH "0") v ++ acc.
Proof.
  revert v acc. induction fuel as [|fuel IH]; intros v acc Hv; cbn [oct_digits numeral];
    change 7 with (Z.ones 3); rewrite Z.land_ones by lia; rewrite ?Z.shiftr_div_pow2 by lia; change (2 ^ 3) with 8.
  - destruct (Z.ltb_spec v 8); cbn [app]; [|done]. by rewrite Z.mod_small by lia.
  - destruct (Z.ltb_spec v 8).
    + rewrite Z.div_small, Z.mod_small by lia. done.
    + assert (0 < v / 8) by (apply Z.div_str_pos; lia).
      destruct (Z.eqb_spec (v / 8) 0); [lia|]. cbn [negb]. rewrite IH by lia. by rewrite <-app_assoc.
Qed.

Lemma hex_digits_numeral fuel xdigs v acc :
  0 <= v → hex_digits fuel xdigs v acc = numeral (S fuel) 16 (λ d, nth (Z.to_nat d) xdigs 0) v ++ acc.
Proof.
  assert (Hd : ∀ v, hexd xdigs v = nth (Z.to_nat (v mod 16)) xdigs 0).
  { intros w. unfold hexd. change 0x0F with (Z.ones 4). by rewrite Z.land_ones by lia. }
  revert v acc. induction fuel as [|fuel IH]; intros v acc Hv; cbn [hex_digits numeral]; rewrite Hd.
  - destruct (Z.ltb_spec v 16); cbn [app]; [|done]. by rewrite Z.mod_small by lia.
  - destruct (Z.ltb_spec v 16).
    + rewrite Z.div_small, Z.mod_small by lia. done.
    + assert (0 < v / 16) by (apply Z.div_str_pos; lia).
      destruct (Z.eqb_spec (v / 16) 0); [lia|]. cbn [negb]. rewrite IH by lia. by rewrite <-app_assoc.
Qed.

Lemma dec_digits_numeral fuel n v acc : dec_digits fuel false n v acc = numeral fuel 10 (λ d, d + CH "0") v ++ acc.
Proof.
  revert n v acc. induction fuel as [|fuel IH]; intros n v acc; [done|]. cbn [dec_digits numeral].
  destruct (Z.leb_spec 10 v), (Z.ltb_spec v 10); try lia; [|done]. cbn [andb]. rewrite IH. by rewrite <-app_assoc.
Qed.

Lemma pow_S b n : b ^ Z.of_nat (S n) = b * b ^ Z.of_nat n.
Proof. by rewrite Nat2Z.inj_succ, Z.pow_succ_r by lia. Qed.

(** Up to three digits no comma is written. *)
Lemma dec_digits_small fuel n v acc :
  n mod 3 = 1 → (0 < fuel)%nat → 0 <= v < 10 ^ Z.of_nat fuel → v < 1000 →
  dec_digits fuel true n v acc = numeral 3 10 (λ d, d + CH "0") v ++ acc.
Proof.
  intros Hn Hf Hv Hlt. replace (dec_digits fuel true n v acc) with (dec_digits fuel false n v acc).
  { rewrite dec_digits_numeral. f_equal. destruct fuel as [|[|[|fuel]]]; [lia| | |].
    - change (10 ^ Z.of_nat 1) with 10 in Hv. cbn [numeral]. by destruct (Z.ltb_spec v 10); [|lia].
    - change (10 ^ Z.of_nat 2) with 100 in Hv. cbn [numeral]. destruct (Z.ltb_spec v 10); [done|].
      by destruct (Z.ltb_spec (v / 10) 10); [|Z.div_mod_to_equations; lia].
    - cbn [numeral]. destruct (Z.ltb_spec v 10); [done|]. destruct (Z.ltb_spec (v / 10) 10); [done|].
      by destruct (Z.ltb_spec (v / 10 / 10) 10); [|Z.div_mod_to_equations; lia]. }
  destruct fuel as [|fuel]; [done|]. cbn [dec_digits]. destruct (Z.leb_spec 10 v); [|done].
  rewrite Hn. cbn [Z.eqb Pos.eqb andb]. destruct fuel as [|fuel]; [done|]. cbn [dec_digits].
  destruct (Z.leb_spec 10 (v / 10)); [|done].
  replace ((n + 1) mod 3) with 2 by (Z.div_mod_to_equations; lia). cbn [Z.eqb Pos.eqb andb].
  destruct fuel as [|fuel]; [done|]. cbn [dec_digits].
  by destruct (Z.leb_spec 10 (v / 10 / 10)); [Z.div_mod_to_equations; lia|].
Qed.

Lemma dec_digits_grouped k fuel n v acc :
  n mod 3 = 1 → (0 < fuel)%nat → 0 <= v < 10 ^ Z.of_nat fuel → v < 1000 ^ Z.of_nat (S k) →
  dec_digits fuel true n v acc = grouped_decimal (S k) v ++ acc.
Proof.
  revert fuel n v acc. induction k as [|k IH]; intros fuel n v acc Hn Hf Hv Hk;
    cbn [grouped_decimal]; (destruct (Z.ltb_spec v 1000) as [Hlt|Hge]; [by apply dec_digits_small|]).
  { change (1000 ^ Z.of_nat 1) with 1000 in Hk. lia. }
  destruct fuel as [|[|[|fuel]]]; [change (10 ^ Z.of_nat 0) with 1 in Hv; lia|
    change (10 ^ Z.of_nat 1) with 10 in Hv; lia|change (10 ^ Z.of_nat 2) with 100 in Hv; lia|].
  cbn [dec_digits]. rewrite (proj2 (Z.leb_le 10 v)), (proj2 (Z.leb_le 10 (v / 10))),
    (proj2 (Z.leb_le 10 (v / 10 / 10))) by (Z.div_mod_to_equations; lia).
  rewrite Hn. replace ((n + 1) mod 3) with 2 by (Z.div_mod_to_equations; lia).
  replace ((n + 1 + 1) mod 3) with 0 by (Z.div_mod_to_equations; lia). cbn [Z.eqb Pos.eqb andb].
  rewrite IH.
  - rewrite <-app_assoc. replace (v / 10 / 10 / 10) with (v / 1000) by (Z.div_mod_to_equations; lia).
    cbn [app]. unfold three_digits, two_digits. 
    assert (E3 : (v / 10 / 10) mod 10 = v mod 1000 / 100) by (Z.div_mod_to_equations; lia).
    assert (E2 : (v / 10) mod 10 = v mod 1000 mod 100 / 10) by (Z.div_mod_to_equations; lia).
    assert (E1 : v mod 10 = (v mod 1000 mod 100) mod 10) by (Z.div_mod_to_equations; lia).
    rewrite E1, E2, E3, !(Z.add_comm 48). cbn [grouped_decimal app]. unfold three_digits, two_digits. by rewrite !(Z.add_comm 48).
  - Z.div_mod_to_equations; lia.
  - destruct fuel; [|lia]. change (10 ^ Z.of_nat 3) with 1000 in Hv. lia.
  - rewrite !pow_S in Hv. generalize dependent (10 ^ Z.of_nat fuel). intros p Hp. Z.div_mod_to_equations; lia.
  - rewrite pow_S in Hk. generalize dependent (1000 ^ Z.of_nat (S k)). intros p _ Hp. Z.div_mod_to_equations; lia.
Qed.

Lemma numeral_length fuel b digit v : (length (numeral fuel b digit v) ≤ fuel)%nat.
Proof.
  revert v. induction fuel as [|fuel IH]; intros v; [done|]. cbn [numeral].
  destruct (v <? b); [simpl; lia|]. rewrite length_app. simpl. specialize (IH (v / b)). lia.
Qed.

Lemma grouped_length fuel v : (length (grouped_decimal fuel v) ≤ 4 * fuel)%nat.
Proof.
  revert v. induction fuel as [|fuel IH]; intros v; [done|]. cbn [grouped_decimal].
  destruct (v <? 1000).
  - assert (H := numeral_length 3 10 (λ d, d + 48) v). lia.
  - rewrite length_app. simpl. specialize (IH (v / 1000)). lia.
Qed.

(** The first digit of a number that is not zero is not zero. *)
Lemma numeral_head fuel b digit v : 1 < b → 0 < v < b ^ Z.of_nat fuel →
  ∃ d ds, numeral fuel b digit v = digit d :: ds ∧ 1 <= d < b.
Proof.
  intros Hb. revert v. induction fuel as [|fuel IH]; intros v Hv; [lia|].
  cbn [numeral]. destruct (Z.ltb_spec v b); [by exists v, []; split; [|lia]|].
  rewrite pow_S in Hv. destruct (IH (v / b)) as (d & ds & -> & Hd).
  - split; [apply Z.div_str_pos; lia|]. apply Z.div_lt_upper_bound; lia.
  - by exists d, (ds ++ [digit (v mod b)]).
Qed.

Definition base_of (ch : Z) : base := if ch =? CH "o" then OCT else if (ch =? CH "x") || (ch =? CH "X") then HEX else DEC.

(** The buffer of 32 characters is enough for every number, and has its digits. *)
Lemma number_text_ok flags ch prec v : 0 <= v < 2 ^ 64 →
  number_text flags (base_of ch) ch prec v =
    Ok (if (v =? 0) && (prec =? 0) then [] else digits_text (has flags ALT) (has flags THOUSANDS_GROUPED) ch v).
Proof.
  intros Hv. unfold number_text. rewrite <-negb_andb.
  destruct ((v =? 0) && (prec =? 0)); [done|]. cbn [negb]. unfold digits_text, base_of.
  destruct (ch =? CH "o") eqn:Eo; [|destruct ((ch =? CH "x") || (ch =? CH "X"))].
  - unfold octal_text. rewrite oct_digits_numeral, app_nil_r by lia.
    set (ds := numeral 23 8 _ v). assert (Hl : (length ds ≤ 23)%nat) by apply numeral_length.
    assert (E : negb (nth 0 ds 0 =? 48) = negb (v =? 0)).
    { destruct (Z.eqb_spec v 0) as [->|]; [done|].
      destruct (numeral_head 23 8 (λ d, d + 48) v) as (d & ds' & E & Hd); [lia|lia|].
      unfold ds. rewrite E. cbn [nth]. f_equal. apply Z.eqb_neq. lia. }
    change (CH "0") with 48. rewrite E. set (l := if _ && _ then _ else _).
    assert (Hl' : (length l ≤ 24)%nat) by (unfold l; destruct (_ && _); simpl; lia).
    destruct (Z.ltb_spec 32 (Z.of_nat (length l))); [lia|done].
  - rewrite hex_digits_numeral, app_nil_r by lia. set (ds := numeral _ _ _ v).
    assert (Hl : (length ds ≤ 17)%nat) by apply numeral_length.
    destruct (Z.ltb_spec 32 (Z.of_nat (length ds))); [lia|done].
  - destruct (has flags THOUSANDS_GROUPED).
    + rewrite (dec_digits_grouped 6), app_nil_r; [|done|lia| |].
      * assert (Hl := grouped_length 7 v). by destruct (Z.ltb_spec 32 (Z.of_nat (length (grouped_decimal 7 v)))); [lia|].
      * change (10 ^ Z.of_nat 20) with 100000000000000000000. lia.
      * change (1000 ^ Z.of_nat 7) with 1000000000000000000000. lia.
    + rewrite dec_digits_numeral, app_nil_r. set (ds := numeral _ _ _ v).
      assert (Hl : (length ds ≤ 20)%nat) by apply numeral_length.
      destruct (Z.ltb_spec 32 (Z.of_nat (length ds))); [lia|done].
Qed.

(** ** Lemmas: directives *)

Definition is_long (d : directive) : bool := bool_decide (d_len d = BS "l" ∨ d_len d = BS "ll").

(** The specification that the flags, width, precision and length of a directive are read as. *)
Record spec_is (d : directive) (sp : spec) : Prop := {
  is_alt : has (flags sp) ALT = flag (CH "#") d;
  is_left : has (flags sp) LADJUST = flag (CH "-") d;
  is_zero : has (flags sp) ZEROPAD = flag (CH "0") d && negb (flag (CH "-") d);
  is_grouped : has (flags sp) THOUSANDS_GROUPED = flag (CH "'") d;
  is_hex : has (flags sp) HEXPREFIX = false;
  is_llong : has (flags sp) LLONGINT || has (flags sp) LONGINT = is_long d;
  is_short : has (flags sp) SHORTINT = bool_decide (d_len d = BS "h");
  is_width : width sp = default 0 (d_width d);
  is_prec : prec sp = default (-1) (d_prec d);
  is_sign : sign sp = if flag (CH "+") d then CH "+" else if flag (CH " ") d then CH " " else 0 }.

Lemma with_precision_eq d sp v ds :
  spec_is d sp → match d_prec d with Some p => 0 <= p | None => True end →
  let ds' := if (v =? 0) && (prec sp =? 0) then [] else ds in
  replicate (Z.to_nat (prec sp - Z.of_nat (length ds'))) 48 ++ ds' = with_precision (d_prec d) v ds.
Proof.
  intros Hsp Hp. rewrite (is_prec _ _ Hsp). unfold with_precision. destruct (d_prec d) as [p|]; simpl in *.
  - rewrite andb_comm. destruct ((p =? 0) && (v =? 0)) eqn:E; [|done].
    apply andb_prop in E as [E%Z.eqb_eq _]. by subst p.
  - rewrite andb_false_r. replace (Z.to_nat (-1 - Z.of_nat (length ds))) with 0%nat by lia. done.
Qed.

Lemma set_sign_id sp : set_sign (sign sp) sp = sp.
Proof. by destruct sp. Qed.

Lemma number_ok d sp0 s hx ch v :
  spec_is d sp0 → match d_prec d with Some p => 0 <= p | None => True end → 0 <= v < 2 ^ 64 →
  ∃ f, number (set_sign s (if hx : bool then add_flag HEXPREFIX sp0 else sp0)) (base_of ch) ch v = Ok f ∧
    field_prefix f = (if negb (s =? 0) then [s] else if hx then [CH "0"; ch] else []) ∧
    field_body f = with_precision (d_prec d) v (digits_text (flag (CH "#") d) (flag (CH "'") d) ch v) ∧
    field_text f = pad_directive d (no_prec d) (field_prefix f) (field_body f) ∧
    0 <= size f <= Z.of_nat (length (cp f)) ∧ width (fsp f) = default 0 (d_width d).
Proof.
  intros Hsp Hp Hv. assert (Hpre := is_prec _ _ Hsp). unfold number.
  set (sp := set_sign s _). assert (Eprec : prec sp = prec sp0) by (unfold sp; by destruct hx).
  assert (Ewidth : width sp = width sp0) by (unfold sp; by destruct hx).
  assert (Ehas : ∀ m, Z.land HEXPREFIX m = 0 → has (flags sp) m = has (flags sp0) m).
  { intros m Hm. unfold sp. destruct hx; [|done]. cbn [set_sign flags add_flag]. rewrite has_lor.
    unfold has at 2. by rewrite Hm, orb_false_r. }
  assert (Ehx : has (flags sp) HEXPREFIX = hx).
  { unfold sp. destruct hx; cbn [set_sign flags add_flag]; [|apply Hsp]. rewrite has_lor. apply orb_true_r. }
  set (sp1 := if 0 <=? prec sp then clear_flag ZEROPAD sp else sp).
  assert (E1 : ∀ m, Z.land ZEROPAD m = 0 → has (flags sp1) m = has (flags sp) m).
  { intros m Hm. unfold sp1. destruct (0 <=? prec sp); [by apply has_ldiff|done]. }
  assert (Ez : has (flags sp1) ZEROPAD = has (flags sp0) ZEROPAD && no_prec d).
  { unfold sp1, no_prec. rewrite Eprec, Hpre. destruct (d_prec d) as [p|]; simpl.
    - destruct (Z.leb_spec 0 p); [|lia]. rewrite andb_false_r. apply has_ldiff_same.
    - rewrite andb_true_r. by apply Ehas. }
  assert (E2 : prec sp1 = prec sp0 ∧ width sp1 = width sp0 ∧ sign sp1 = s)
    by (unfold sp1; destruct (0 <=? prec sp); cbn; rewrite ?Eprec, ?Ewidth; unfold sp; by destruct hx).
  clearbody sp1. destruct E2 as (Ep1 & Ew1 & Es1).
  rewrite number_text_ok by done. cbn [mbind res_bind]. rewrite Ep1.
  rewrite !E1, Ehas, Ehas by done. rewrite (is_alt _ _ Hsp), (is_grouped _ _ Hsp).
  set (ds := digits_text _ _ _ _). set (ds' := if _ && _ then [] else ds).
  eexists. split; [done|]. unfold field_text, field_prefix, field_body. cbn [fsp cp size dprec fch].
  rewrite Es1, !E1, Ehx, Ez by done. split; [done|].
  assert (Etake : take (Z.to_nat (Z.of_nat (length ds'))) ds' = ds') by (rewrite Nat2Z.id; apply take_ge; lia).
  rewrite Etake. unfold ds' at 1 2. rewrite (with_precision_eq d sp0 v ds Hsp Hp).
  split; [done|]. split; [|split; [lia|by rewrite Ew1, (is_width _ _ Hsp)]].
  unfold pad_directive. rewrite Ew1, (is_width _ _ Hsp), (is_zero _ _ Hsp), Ehas, (is_left _ _ Hsp) by done.
  unfold pad_text. by destruct (flag (CH "-") d), (flag (CH "0") d).
Qed.

Lemma i64_range x : - 2 ^ 63 <= i64 x < 2 ^ 63.
Proof. unfold i64. assert (H := Z.mod_pos_bound (x + 2 ^ 63) (2 ^ 64) ltac:(lia)). lia. Qed.
Lemma i32_range x : - 2 ^ 31 <= i32 x < 2 ^ 31.
Proof. unfold i32. assert (H := Z.mod_pos_bound (x + 2 ^ 31) (2 ^ 32) ltac:(lia)). lia. Qed.
Lemma i16_range x : - 2 ^ 15 <= i16 x < 2 ^ 15.
Proof. unfold i16. assert (H := Z.mod_pos_bound (x + 2 ^ 15) (2 ^ 16) ltac:(lia)). lia. Qed.

Lemma SARG_ok d sp z args : spec_is d sp → signed_value d = Some z →
  SARG (flags sp) (d_arg d :: args) = Ok (z, args) ∧ - 2 ^ 63 <= z < 2 ^ 63.
Proof.
  intros Hsp Hz. unfold SARG. rewrite (is_llong _ _ Hsp), (is_short _ _ Hsp). unfold is_long.
  unfold signed_value in Hz. destruct d as [fl w p len ch a]. cbn [d_arg d_len] in *.
  repeat case_match; simplify_eq; cbn; split; try done;
    first [apply i64_range | assert (H := i32_range z0); lia | assert (H := i16_range z0); lia].
Qed.

Lemma UARG_ok d sp z args : spec_is d sp → unsigned_value d = Some z →
  UARG (flags sp) (d_arg d :: args) = Ok (z, args) ∧ 0 <= z < 2 ^ 64.
Proof.
  intros Hsp Hz. unfold UARG. rewrite (is_llong _ _ Hsp), (is_short _ _ Hsp). unfold is_long.
  unfold unsigned_value in Hz. destruct d as [fl w p len ch a]. cbn [d_arg d_len] in *.
  repeat case_match; simplify_eq; cbn; split; try done; unfold u64, u32, u16;
    match goal with |- 0 <= ?x mod ?m < _ => assert (H := Z.mod_pos_bound x m ltac:(lia)); lia end.
Qed.

Definition conv_ok (d : directive) (sp : spec) (args : list arg) (t : list Z) : Prop :=
  ∃ f, conv_field (d_ch d) sp (d_arg d :: args) = Some (Ok (f, args)) ∧ field_ok f ∧ field_text f = t.

Lemma conv_signed d sp args z :
  spec_is d sp → match d_prec d with Some p => 0 <= p | None => True end →
  d_ch d = CH "d" ∨ d_ch d = CH "i" → signed_value d = Some z → conv_ok d sp args (signed_text d z).
Proof.
  intros Hsp Hp Hch Hz. destruct (SARG_ok d sp z args Hsp Hz) as [Ea Hr].
  set (s := if z <? 0 then CH "-" else sign sp).
  destruct (number_ok d sp s false (d_ch d) (Z.abs z) Hsp Hp ltac:(lia)) as (f & Ef & Epre & Ebody & Et & Hs & Hw).
  exists f. split; [|split].
  - transitivity (Some (r ← SARG (flags sp) (d_arg d :: args); f ← signed_number sp (d_ch d) r.1; Ok (f, r.2)));
      [by destruct Hch as [-> | ->]|].
    rewrite Ea. cbn [mbind res_bind fst snd]. unfold signed_number.
    assert (Eb : base_of (d_ch d) = DEC) by (by destruct Hch as [-> | ->]). rewrite Eb in Ef.
    unfold s in Ef. destruct (Z.ltb_spec z 0).
    + unfold u64. rewrite Z.mod_small by lia. replace (- z) with (Z.abs z) by lia. rewrite Ef. done.
    + rewrite set_sign_id in Ef. replace z with (Z.abs z) by lia. rewrite Ef. done.
  - split; [done|]. rewrite Epre. by destruct (negb (s =? 0)).
  - rewrite Et, Epre, Ebody. unfold signed_text. f_equal.
    + unfold s. rewrite (is_sign _ _ Hsp). by destruct (z <? 0), (flag (CH "+") d), (flag (CH " ") d).
    + f_equal. by destruct Hch as [-> | ->].
Qed.

Lemma conv_unsigned d sp args z :
  spec_is d sp → match d_prec d with Some p => 0 <= p | None => True end →
  existsb (Z.eqb (d_ch d)) (BS "uoxX") = true → unsigned_value d = Some z →
  (hex_prefix d z && (default 0 (d_width d) =? Z.of_nat (length (unsigned_body d z)) + 1)) = false →
  conv_ok d sp args (unsigned_text d z).
Proof.
  intros Hsp Hp Hch Hz Hhex. destruct (UARG_ok d sp z args Hsp Hz) as [Ea Hr].
  destruct (number_ok d sp 0 (hex_prefix d z) (d_ch d) z Hsp Hp Hr) as (f & Ef & Epre & Ebody & Et & Hs & Hw).
  cbn [Z.eqb negb] in Epre. exists f. split; [|split].
  - transitivity (Some (r ← UARG (flags sp) (d_arg d :: args);
        f ← nosign (if hex_prefix d r.1 then add_flag HEXPREFIX sp else sp) (base_of (d_ch d)) (d_ch d) r.1; Ok (f, r.2))).
    { unfold hex_prefix. rewrite <-(is_alt _ _ Hsp). simpl in Hch.
      destruct (Z.eqb_spec (d_ch d) 117) as [->|]; [done|]. destruct (Z.eqb_spec (d_ch d) 111) as [->|]; [done|].
      destruct (Z.eqb_spec (d_ch d) 120) as [->|]; [done|]. destruct (Z.eqb_spec (d_ch d) 88) as [->|]; done. }
    rewrite Ea. cbn [mbind res_bind fst snd]. unfold nosign. by rewrite Ef.
  - split; [done|]. rewrite Epre, Ebody, Hw. destruct (hex_prefix d z); [|done]. intros _.
    by apply Z.eqb_neq in Hhex.
  - by rewrite Et, Epre, Ebody.
Qed.

(** Fields without a prefix. *)
Lemma plain_field d sp text n zero ch args :
  spec_is d sp → 0 <= n <= Z.of_nat (length text) →
  let sp1 := set_sign 0 sp in
  let f := Field text n 0 (if zero : bool then sp1 else clear_flag ZEROPAD sp1) ch in
  conv_field (d_ch d) sp (d_arg d :: args) = Some (Ok (f, args)) →
  conv_ok d sp args (pad_directive d zero [] (take (Z.to_nat n) text)).
Proof.
  intros Hsp Hn sp1 f Ef. exists f. split; [done|].
  assert (Hpre : field_prefix f = []).
  { unfold field_prefix, f. destruct zero; cbn [fsp sign flags set_sign clear_flag sp1]; cbn [Z.eqb negb].
    - by rewrite (is_hex _ _ Hsp).
    - by rewrite has_ldiff, (is_hex _ _ Hsp). }
  split; [split; [done|by rewrite Hpre]|].
  unfold field_text. rewrite Hpre.
  assert (Hbody : field_body f = take (Z.to_nat n) text).
  { unfold field_body, f. cbn [cp dprec size]. by replace (Z.to_nat (0 - n)) with 0%nat by lia. }
  rewrite Hbody. unfold pad_directive.
  assert (Hl : has (flags (fsp f)) LADJUST = flag (CH "-") d).
  { unfold f. destruct zero; cbn [fsp flags set_sign clear_flag sp1]; rewrite ?has_ldiff by done; apply Hsp. }
  assert (Hz : has (flags (fsp f)) ZEROPAD = flag (CH "0") d && negb (flag (CH "-") d) && zero).
  { unfold f. destruct zero; cbn [fsp flags set_sign clear_flag sp1]; rewrite ?has_ldiff_same, ?andb_false_r; [|done].
    rewrite andb_true_r. apply Hsp. }
  assert (Hw : width (fsp f) = default 0 (d_width d)) by (unfold f; destruct zero; apply Hsp).
  rewrite Hl, Hz, Hw. unfold pad_text. by destruct (flag (CH "-") d), (flag (CH "0") d).
Qed.

Lemma strlen_length p n : strlen p = Ok n → 0 <= n <= Z.of_nat (length p).
Proof.
  revert n. induction p as [|c p IH]; intros n E; [done|]. simpl in E.
  destruct (c =? 0); [simplify_eq; simpl; lia|]. destruct (strlen p) as [k|]; [|done]. simpl in E. simplify_eq.
  specialize (IH k eq_refl). simpl. lia.
Qed.

Lemma conv_directive d sp args t :
  spec_is d sp → directive_ok d = true → directive_text d = Some t → conv_ok d sp args t.
Proof.
  intros Hsp Hok Ht. unfold directive_ok in Hok. apply andb_prop in Hok as [[[_ Hwd]%andb_prop Hpr]%andb_prop _].
  assert (Hp : match d_prec d with Some p => 0 <= p | None => True end) by (destruct (d_prec d); [lia|done]).
  assert (Hw : 0 <= width sp) by (rewrite (is_width _ _ Hsp); destruct (d_width d); simpl; lia).
  unfold directive_text in Ht.
  destruct ((d_ch d =? CH "d") || (d_ch d =? CH "i")) eqn:Ed.
  { destruct (signed_value d) as [z|] eqn:Ez; [|done]. simpl in Ht. simplify_eq. apply conv_signed; [done|done|lia|done]. }
  destruct ((d_ch d =? CH "u") || (d_ch d =? CH "o") || (d_ch d =? CH "x") || (d_ch d =? CH "X")) eqn:Eu.
  { destruct (unsigned_value d) as [z|] eqn:Ez; [|done]. simpl in Ht.
    destruct (hex_prefix d z && _) eqn:Eh; [done|]. simplify_eq. apply conv_unsigned; try done.
    simpl. by rewrite !orb_assoc, orb_false_r. }
  destruct (Z.eqb_spec (d_ch d) (CH "c")) as [Ec|_].
  { destruct (d_arg d) as [z| | | | |] eqn:Ea, (d_len d); try done. simplify_eq.
    apply (plain_field d sp [u8 z] 1 true (CH "c") args Hsp); [simpl; lia|]. by rewrite Ec, Ea. }
  destruct (Z.eqb_spec (d_ch d) (CH "s")) as [Es|_]; [|done].
  assert (Hconv : ∀ p n, d_arg d = AStr p → let text := default (BS "(null)" ++ [0]) p in
    (if 0 <=? prec sp then Ok (prec sp) else strlen text) = Ok n → 0 <= n <= Z.of_nat (length text) →
    conv_ok d sp args (pad_directive d false [] (take (Z.to_nat n) text))).
  { intros p n Ea text En Hn. apply (plain_field d sp text n false (CH "s") args Hsp Hn).
    rewrite Es, Ea. unfold conv_field. cbn [Z.eqb Pos.eqb VA_STR mbind res_bind fst snd].
    replace (match p with Some p0 => p0 | None => _ end) with text by (by destruct p).
    rewrite En. cbn [mbind res_bind width set_sign]. by destruct (Z.leb_spec 0 (width sp)); [|lia]. }
  rewrite (is_prec _ _ Hsp) in Hconv.
  destruct (d_arg d) as [| |[p|]| | |] eqn:Ea; try done; destruct (d_prec d) as [n|]; try done;
    destruct (d_len d); try done; simpl in Hconv.
  - destruct (Z.leb_spec n (Z.of_nat (length p))); [|done]. simplify_eq.
    apply (Hconv (Some p)); [done|by destruct (Z.leb_spec 0 n); [|lia]|simpl; lia].
  - destruct (strlen p) as [n|] eqn:En; [|done]. simplify_eq.
    apply (Hconv (Some p)); [done|done|by apply strlen_length].
  - simplify_eq. by apply (Hconv None 6).
Qed.

(** ** Lemmas: reading a specification *)

Lemma parse_spec_mono n m format args sp r :
  (n ≤ m)%nat → parse_spec n format args sp = Ok r → parse_spec m format args sp = Ok r.
Proof.
  revert m format args sp. induction n as [|n IH]; intros m format args sp Hm E; [done|].
  destruct m as [|m]; [lia|]. apply le_S_n in Hm. cbn [parse_spec] in *.
  destruct (rd format 0) as [ch|]; [|done]. cbn [mbind res_bind] in *.
  repeat first [ by apply IH
    | match type of E with (if ?b then _ else _) = _ => destruct b end
    | match type of E with mbind _ ?x = _ => destruct x; [|done]; cbn [mbind res_bind] in * end ].
  done.
Qed.

Definition apply_flag (sp : spec) (c : Z) : spec :=
  if c =? CH "#" then add_flag ALT sp
  else if c =? CH "0" then if negb (has (flags sp) LADJUST) then add_flag ZEROPAD sp else sp
  else if c =? CH "-" then left_adjust sp
  else if c =? CH " " then if sign sp =? 0 then set_sign (CH " ") sp else sp
  else if c =? CH "+" then set_sign (CH "+") sp
  else add_flag THOUSANDS_GROUPED sp.

Lemma parse_flags fl fuel format args sp :
  forallb (λ c, existsb (Z.eqb c) (BS "#0- +'")) fl = true →
  parse_spec (length fl + fuel) (fl ++ format) args sp = parse_spec fuel format args (fold_left apply_flag fl sp).
Proof.
  revert sp. induction fl as [|c fl IH]; intros sp Hfl; [done|].
  simpl in Hfl. apply andb_prop in Hfl as [Hc Hfl]. cbn [app length Nat.add fold_left]. rewrite <-IH by done.
  cbn [parse_spec]. change (rd (c :: fl ++ format) 0) with (@Ok Z c). cbn [mbind res_bind drop]. unfold apply_flag.
  assert (Hc' : c = 35 ∨ c = 48 ∨ c = 45 ∨ c = 32 ∨ c = 43 ∨ c = 39) by lia.
  by destruct Hc' as [-> | [-> | [-> | [-> | [-> | ->]]]]].
Qed.

Lemma isdigit_table c : is_byte c → u__isdigit c = (48 <=? c) && (c <=? 57).
Proof. intros Hc. byte_check c. Qed.

Lemma scan_number_digits ds c rest n :
  Forall (λ d, 48 <= d <= 57) ds → u__isdigit c = false →
  scan_number (ds ++ c :: rest) n = Ok (fold_left (λ n ch, i32 (10 * n + (ch - 48))) ds n, c :: rest).
Proof.
  intros Hds Hc. revert n. induction Hds as [|d ds Hd _ IH]; intros n; simpl; [by rewrite Hc|].
  rewrite isdigit_table by (unfold is_byte; lia). destruct (Z.leb_spec 48 d), (Z.leb_spec d 57); try lia. apply IH.
Qed.

Lemma numeral_digits fuel v : 0 <= v → Forall (λ d, 48 <= d <= 57) (numeral fuel 10 (λ d, d + 48) v).
Proof.
  revert v. induction fuel as [|fuel IH]; intros v Hv; [constructor|]. cbn [numeral].
  destruct (Z.ltb_spec v 10); [constructor; [lia|constructor]|].
  apply Forall_app. split; [apply IH, Z.div_pos; lia|].
  constructor; [|constructor]. assert (Hm := Z.mod_pos_bound v 10 ltac:(lia)). lia.
Qed.

(** Reading a number back. *)
Lemma fold_numeral fuel v : 0 <= v < 2 ^ 31 → v < 10 ^ Z.of_nat fuel →
  fold_left (λ n ch, i32 (10 * n + (ch - 48))) (numeral fuel 10 (λ d, d + 48) v) 0 = v.
Proof.
  assert (Hi : ∀ x, 0 <= x < 2 ^ 31 → i32 x = x) by (intros x Hx; unfold i32; rewrite Z.mod_small; lia).
  revert v. induction fuel as [|fuel IH]; intros v Hv Hf; [simpl in *; lia|]. cbn [numeral].
  destruct (Z.ltb_spec v 10); [simpl; rewrite Hi; lia|]. rewrite fold_left_app. rewrite IH.
  - simpl. rewrite Hi; Z.div_mod_to_equations; lia.
  - Z.div_mod_to_equations; lia.
  - rewrite pow_S in Hf. apply Z.div_lt_upper_bound; lia.
Qed.

Lemma number_chars_scan v c rest : 0 <= v < 2 ^ 31 → u__isdigit c = false →
  scan_number (number_chars v ++ c :: rest) 0 = Ok (v, c :: rest).
Proof.
  intros Hv Hc. rewrite scan_number_digits by (done || apply numeral_digits; lia). unfold number_chars.
  rewrite fold_numeral; [done|done|]. change (10 ^ Z.of_nat 20) with 100000000000000000000. lia.
Qed.

Lemma parse_width w c rest fuel args sp : 1 <= w < 2 ^ 31 → u__isdigit c = false →
  parse_spec (S fuel) (number_chars w ++ c :: rest) args sp = parse_spec fuel (c :: rest) args (set_width w sp).
Proof.
  intros Hw Hc. assert (E := number_chars_scan w c rest ltac:(lia) Hc).
  destruct (numeral_head 20 10 (λ d, d + 48) w) as (d & ds & Ed & Hd); [lia|split; [lia|]|].
  { change (10 ^ Z.of_nat 20) with 100000000000000000000. lia. }
  unfold number_chars in *. change (CH "0") with 48 in *. rewrite Ed in *. cbn [app parse_spec].
  change (rd (d + 48 :: ds ++ c :: rest) 0) with (@Ok Z (d + 48)). cbn [mbind res_bind drop].
  rewrite !(proj2 (Z.eqb_neq _ _)) by lia.
  destruct (Z.leb_spec 49 (d + 48)), (Z.leb_spec (d + 48) 57); try lia. cbn [andb].
  cbn [app scan_number] in E. rewrite isdigit_table in E by (unfold is_byte; lia).
  destruct (Z.leb_spec 48 (d + 48)), (Z.leb_spec (d + 48) 57); try lia. cbn [andb] in E.
  assert (Ei : i32 (10 * 0 + (d + 48 - 48)) = d + 48 - 48) by (unfold i32; rewrite Z.mod_small; lia).
  rewrite Ei in E. rewrite drop_0, E. done.
Qed.

Lemma parse_prec p c rest fuel args sp : 0 <= p < 2 ^ 31 → u__isdigit c = false →
  parse_spec (S fuel) (CH "." :: number_chars p ++ c :: rest) args sp = parse_spec fuel (c :: rest) args (set_prec p sp).
Proof.
  intros Hp Hc. assert (E := number_chars_scan p c rest Hp Hc).
  assert (Hd := numeral_digits 20 p ltac:(lia)).
  destruct (number_chars p) as [|x l] eqn:El.
  { unfold number_chars in El. cbn [numeral] in El. destruct (p <? 10); [done|]. by apply app_nil in El as [_ ?]. }
  unfold number_chars in El. change (CH "0") with 48 in El. rewrite El in Hd. forall_inv. cbn [app] in *.
  change (parse_spec (S fuel) (CH "." :: x :: l ++ c :: rest) args sp) with
    (if x =? 42 then r ← VA_INT args; parse_spec fuel (drop 1 (x :: l ++ c :: rest)) r.2
        (set_prec (if i32 r.1 <? 0 then -1 else i32 r.1) sp)
     else r ← scan_number (x :: l ++ c :: rest) 0; parse_spec fuel r.2 args (set_prec (if r.1 <? 0 then -1 else r.1) sp)).
  rewrite (proj2 (Z.eqb_neq x 42)) by lia. rewrite E. cbn [mbind res_bind fst snd].
  by destruct (Z.ltb_spec p 0); [lia|].
Qed.

Lemma parse_conv ch rest fuel args sp :
  existsb (Z.eqb ch) (BS "diuoxXcs") = true → parse_spec (S fuel) (ch :: rest) args sp = Ok (ch, rest, args, sp).
Proof.
  intros Hch. cbn [parse_spec]. change (rd (ch :: rest) 0) with (@Ok Z ch). cbn [mbind res_bind drop].
  simpl in Hch. assert (Hc : ch = 100 ∨ ch = 105 ∨ ch = 117 ∨ ch = 111 ∨ ch = 120 ∨ ch = 88 ∨ ch = 99 ∨ ch = 115) by lia.
  by destruct Hc as [-> | [-> | [-> | [-> | [-> | [-> | [-> | ->]]]]]]].
Qed.

(** The flags of a specification after one change, on constant masks. *)
Ltac flag_bits :=
  unfold left_adjust, add_flag, clear_flag, set_sign in *; cbn [flags width prec sign] in *;
  repeat first [ rewrite has_ldiff_same | rewrite has_ldiff by reflexivity | rewrite has_lor
    | match goal with
      | |- context [has ?a ?b] =>
          first [ is_const a | is_var a; fail 1 ]; let v := eval vm_compute in (has a b) in
          change (has a b) with v
      end ];
  rewrite ?orb_true_r, ?orb_false_r, ?andb_true_r, ?andb_false_r.

(** What the flags come to, whatever their order. *)
Record flags_are (fl : list Z) (sp sp' : spec) : Prop := {
  fa_alt : has (flags sp') ALT = has (flags sp) ALT || existsb (Z.eqb (CH "#")) fl;
  fa_left : has (flags sp') LADJUST = has (flags sp) LADJUST || existsb (Z.eqb (CH "-")) fl;
  fa_zero : has (flags sp') ZEROPAD =
    (has (flags sp) ZEROPAD || existsb (Z.eqb (CH "0")) fl) &&
    negb (has (flags sp) LADJUST || existsb (Z.eqb (CH "-")) fl);
  fa_grouped : has (flags sp') THOUSANDS_GROUPED = has (flags sp) THOUSANDS_GROUPED || existsb (Z.eqb (CH "'")) fl;
  fa_hex : has (flags sp') HEXPREFIX = has (flags sp) HEXPREFIX;
  fa_llong : has (flags sp') LLONGINT = has (flags sp) LLONGINT;
  fa_long : has (flags sp') LONGINT = has (flags sp) LONGINT;
  fa_short : has (flags sp') SHORTINT = has (flags sp) SHORTINT;
  fa_width : width sp' = width sp;
  fa_prec : prec sp' = prec sp;
  fa_sign : sign sp' = if existsb (Z.eqb (CH "+")) fl then CH "+" else
    if negb (sign sp =? 0) then sign sp else if existsb (Z.eqb (CH " ")) fl then CH " " else 0 }.

Lemma apply_flag_one c sp :
  existsb (Z.eqb c) (BS "#0- +'") = true → (has (flags sp) ZEROPAD = true → has (flags sp) LADJUST = false) →
  flags_are [c] sp (apply_flag sp c).
Proof.
  intros Hc Hz. simpl in Hc.
  assert (Hc' : c = 35 ∨ c = 48 ∨ c = 45 ∨ c = 32 ∨ c = 43 ∨ c = 39) by lia. clear Hc.
  destruct (has (flags sp) LADJUST) eqn:El, (has (flags sp) ZEROPAD) eqn:Ez; try (by specialize (Hz eq_refl));
    destruct (Z.eqb_spec (sign sp) 0) as [Es|Es];
    destruct Hc' as [-> | [-> | [-> | [-> | [-> | ->]]]]]; unfold apply_flag; cbn [Z.eqb Pos.eqb];
    rewrite ?El, ?(proj2 (Z.eqb_eq _ _) Es), ?(proj2 (Z.eqb_neq _ _) Es); cbn [negb];
    constructor; cbn [existsb Z.eqb Pos.eqb orb]; flag_bits;
    rewrite ?El, ?Ez, ?(proj2 (Z.eqb_neq _ _) Es), ?Es; done.
Qed.

Lemma apply_flags fl sp :
  forallb (λ c, existsb (Z.eqb c) (BS "#0- +'")) fl = true →
  (has (flags sp) ZEROPAD = true → has (flags sp) LADJUST = false) →
  flags_are fl sp (fold_left apply_flag fl sp).
Proof.
  revert sp. induction fl as [|c fl IH]; intros sp Hfl Hz.
  { constructor; simpl; rewrite ?orb_false_r; try done.
    - destruct (has (flags sp) ZEROPAD); [by rewrite Hz|done].
    - by destruct (Z.eqb_spec (sign sp) 0) as [->|]. }
  simpl in Hfl. apply andb_prop in Hfl as [Hc Hfl].
  destruct (apply_flag_one c sp Hc Hz) as [Ba Bl Bz Bg Bh Bll Blo Bs Bw Bp Bsg].
  destruct (IH (apply_flag sp c) Hfl) as [Ca Cl Cz Cg Ch Cll Clo Cs Cw Cp Csg].
  { rewrite Bz, Bl. by destruct (has (flags sp) LADJUST || _); rewrite ?andb_false_r. }
  cbn [existsb] in *. rewrite !orb_false_r in *. cbn [fold_left].
  constructor; cbn [existsb]; try congruence.
  - by rewrite Ca, Ba, orb_assoc.
  - by rewrite Cl, Bl, orb_assoc.
  - rewrite Cz, Bz, Bl. destruct (has (flags sp) ZEROPAD), (has (flags sp) LADJUST), (CH "0" =? c),
      (CH "-" =? c), (existsb (Z.eqb (CH "0")) fl), (existsb (Z.eqb (CH "-")) fl); done.
  - by rewrite Cg, Bg, orb_assoc.
  - rewrite Csg, Bsg. destruct (CH "+" =? c), (existsb (Z.eqb (CH "+")) fl), (CH " " =? c),
      (existsb (Z.eqb (CH " ")) fl), (Z.eqb_spec (sign sp) 0) as [|n]; cbn [orb negb Z.eqb]; try done;
      by rewrite (proj2 (Z.eqb_neq _ _) n).
Qed.

Definition conv_char (ch : Z) : bool := existsb (Z.eqb ch) (BS "diuoxXcs").

(** The length modifier and the conversion character. *)
Lemma parse_length d rest args sp :
  existsb (λ l, bool_decide (l = d_len d)) [[]; BS "h"; BS "l"; BS "ll"] = true → conv_char (d_ch d) = true →
  has (flags sp) LONGINT = false → has (flags sp) LLONGINT = false → has (flags sp) SHORTINT = false →
  ∃ sp', parse_spec (S (length (d_len d))) (d_len d ++ d_ch d :: rest) args sp = Ok (d_ch d, rest, args, sp') ∧
    (∀ m, m = ALT ∨ m = LADJUST ∨ m = ZEROPAD ∨ m = THOUSANDS_GROUPED ∨ m = HEXPREFIX →
       has (flags sp') m = has (flags sp) m) ∧
    has (flags sp') LLONGINT || has (flags sp') LONGINT = is_long d ∧
    has (flags sp') SHORTINT = bool_decide (d_len d = BS "h") ∧
    width sp' = width sp ∧ prec sp' = prec sp ∧ sign sp' = sign sp.
Proof.
  intros Hlen Hch H1 H2 H3. unfold is_long.
  assert (Hl : d_len d = [] ∨ d_len d = BS "h" ∨ d_len d = BS "l" ∨ d_len d = BS "ll").
  { simpl in Hlen. repeat (case_bool_decide; [by eauto|]). done. }
  destruct Hl as [-> | [-> | [-> | ->]]]; cbn [length app].
  - eexists. split; [by apply parse_conv|]. rewrite H1, H2, H3. splits; try done.
  - exists (add_flag SHORTINT sp). split; [by apply (parse_conv (d_ch d) rest 0)|].
    splits; try done; try (intros m [-> | [-> | [-> | [-> | ->]]]]); flag_bits; by rewrite ?H1, ?H2.
  - exists (add_flag LONGINT sp). split.
    { transitivity (parse_spec 1 (d_ch d :: rest) args (add_flag (if has (flags sp) LONGINT then LLONGINT else LONGINT) sp));
        [done|]. rewrite H1. by apply parse_conv. }
    splits; try done; try (intros m [-> | [-> | [-> | [-> | ->]]]]); flag_bits; by rewrite ?H1, ?H2, ?H3.
  - exists (add_flag LLONGINT (add_flag LONGINT sp)). split.
    { transitivity (parse_spec 2 (CH "l" :: d_ch d :: rest) args (add_flag (if has (flags sp) LONGINT then LLONGINT else LONGINT) sp));
        [done|]. rewrite H1.
      transitivity (parse_spec 1 (d_ch d :: rest) args
        (add_flag (if has (flags (add_flag LONGINT sp)) LONGINT then LLONGINT else LONGINT) (add_flag LONGINT sp))); [done|].
      replace (has (flags (add_flag LONGINT sp)) LONGINT) with true by (symmetry; by flag_bits).
      by apply parse_conv. }
    splits; try done; try (intros m [-> | [-> | [-> | [-> | ->]]]]); flag_bits; by rewrite ?H1, ?H2, ?H3.
Qed.

Lemma length_head d rest :
  existsb (λ l, bool_decide (l = d_len d)) [[]; BS "h"; BS "l"; BS "ll"] = true → conv_char (d_ch d) = true →
  ∃ c r, d_len d ++ d_ch d :: rest = c :: r ∧ u__isdigit c = false.
Proof.
  intros Hlen Hch.
  assert (Hl : d_len d = [] ∨ d_len d = BS "h" ∨ d_len d = BS "l" ∨ d_len d = BS "ll").
  { simpl in Hlen. repeat (case_bool_decide; [by eauto|]). done. }
  destruct Hl as [-> | [-> | [-> | ->]]]; [|by eexists _, _..].
  exists (d_ch d), rest. split; [done|]. unfold conv_char in Hch. simpl in Hch.
  rewrite isdigit_table by (unfold is_byte; lia). lia.
Qed.

Lemma parse_render d rest args fuel :
  directive_ok d = true → conv_char (d_ch d) = true → (length (render d) < fuel)%nat →
  ∃ sp, parse_spec fuel (drop 1 (render d ++ rest)) args (Spec 0 0 (-1) 0) = Ok (d_ch d, rest, args, sp) ∧ spec_is d sp.
Proof.
  intros Hok Hch Hf. unfold directive_ok in Hok.
  apply andb_prop in Hok as [[[Hfl Hwd]%andb_prop Hpr]%andb_prop Hlen].
  destruct (apply_flags (d_flags d) (Spec 0 0 (-1) 0) Hfl) as [Ca Cl Cz Cg Ch Cll Clo Cs Cw Cp Csg]; [done|].
  set (sp1 := fold_left apply_flag (d_flags d) (Spec 0 0 (-1) 0)) in *.
  set (sp2 := match d_width d with Some w => set_width w sp1 | None => sp1 end).
  set (sp3 := match d_prec d with Some p => set_prec p sp2 | None => sp2 end).
  assert (Hflags : flags sp3 = flags sp1) by (unfold sp3, sp2; by destruct (d_prec d), (d_width d)).
  destruct (parse_length d rest args sp3 Hlen Hch) as (sp4 & E4 & Hm & Hll & Hs & Hw & Hp & Hsg);
    [rewrite Hflags; done..|].
  destruct (length_head d rest Hlen Hch) as (c & r & Ec & Hc).
  exists sp4. split.
  - set (tl := d_len d ++ d_ch d :: rest) in *.
    set (k := S (length (d_len d))) in *.
    set (P := match d_prec d with Some p => CH "." :: number_chars p | None => [] end).
    assert (E3 : parse_spec (S k) (P ++ tl) args sp2 = Ok (d_ch d, rest, args, sp4)).
    { unfold P, sp3 in *. destruct (d_prec d) as [p|]; [|by apply (parse_spec_mono k); [lia|]].
      rewrite Ec in E4 |- *. cbn [app]. rewrite parse_prec by (done || lia). done. }
    assert (HP : ∃ c' r', P ++ tl = c' :: r' ∧ u__isdigit c' = false).
    { unfold P. destruct (d_prec d) as [p|]; [by eexists _, _|]. by exists c, r. }
    assert (E2 : parse_spec (S (S k)) (match d_width d with Some w => number_chars w | None => [] end ++ P ++ tl) args sp1
      = Ok (d_ch d, rest, args, sp4)).
    { unfold sp2 in *. destruct (d_width d) as [w|]; [|by apply (parse_spec_mono (S k)); [lia|]].
      destruct HP as (c' & r' & EP & Hc'). rewrite EP in E3 |- *. rewrite parse_width by (done || lia). done. }
    apply (parse_spec_mono (length (d_flags d) + S (S k))).
    { unfold render in Hf. rewrite !length_app in Hf. unfold k. simpl in Hf. lia. }
    unfold sp1 in E2. rewrite <-parse_flags in E2 by done. rewrite <-E2. f_equal.
    unfold render. cbn [app drop]. rewrite drop_0, <-!app_assoc. done.
  - rewrite Hflags in Hm. constructor; rewrite ?Hm, ?Hll, ?Hs, ?Hw, ?Hp, ?Hsg by auto 6; try done.
    + unfold sp3, sp2. destruct (d_prec d), (d_width d); cbn [width set_prec set_width default]; done.
    + unfold sp3, sp2. destruct (d_prec d), (d_width d); cbn [prec set_prec set_width default]; done.
    + unfold sp3, sp2. destruct (d_prec d), (d_width d); cbn [sign set_prec set_width]; done.
Qed.

(** ** Lemmas: the loop *)

Lemma prints_bind st don rest r t1 (k : pout → res pout) t2 :
  prints st don rest r t1 →
  (∀ st', prints st' (don ++ t1) (drop (length t1) rest) (k st') t2) →
  prints st don rest (st' ← r; k st') (t1 ++ t2).
Proof.
  intros H1 H2 Hr Hl. rewrite length_app in Hl.
  destruct (H1 Hr) as (st1 & -> & Hr1 & Es1 & Ef1); [lia|]. cbn [mbind res_bind].
  destruct (H2 st1 Hr1) as (st2 & -> & Hr2 & Es2 & Ef2); [rewrite length_drop; lia|].
  exists st2. split; [done|]. rewrite length_app, <-drop_drop. split; [by rewrite app_assoc|]. split; congruence.
Qed.

Lemma directive_text_conv d t : directive_text d = Some t → conv_char (d_ch d) = true.
Proof.
  unfold directive_text, conv_char. intros E. cbn [existsb].
  repeat match type of E with context [d_ch d =? ?k] =>
    destruct (Z.eqb_spec (d_ch d) k) as [->|]; [done|]; cbn [orb] in E end.
  by destruct (Z.eqb_spec (d_ch d) 115).
Qed.

(** One piece of a format that is not text: what the step does after the text before it. *)
Lemma print_step_conv e size st don rest lit d t format args :
  forallb (λ c, negb (c =? 0) && negb (c =? CH "%")) lit = true →
  directive_ok d = true → directive_text d = Some t →
  ready st don rest → (length (lit ++ t) ≤ length rest)%nat →
  ∃ st', print_step e size (st, lit ++ render d ++ format, d_arg d :: args) = Ok (inl (st', format, args)) ∧
    ready st' (don ++ lit ++ t) (drop (length (lit ++ t)) rest) ∧ stored st' = stored st ∧ flag_exit st' = flag_exit st.
Proof.
  intros Hlit Hok Ht Hr Hl. unfold print_step.
  assert (Es : format_span (lit ++ render d ++ format) = Ok (lit, render d ++ format))
    by (apply format_span_plain; [done|by right]).
  rewrite Es. cbn [mbind res_bind]. rewrite length_app in Hl.
  destruct (write_prints st don rest lit Hr) as (st1 & -> & Hr1 & Es1 & Ef1); [lia|]. cbn [mbind res_bind].
  change (rd (render d ++ format) 0) with (@Ok Z 37). cbn [mbind res_bind Z.eqb].
  assert (Hch := directive_text_conv d t Ht).
  destruct (parse_render d format (d_arg d :: args) (S (length (render d ++ format))) Hok Hch) as (sp & -> & Hsp);
    [rewrite length_app; lia|]. cbn [mbind res_bind].
  destruct (conv_directive d sp args t Hsp Hok Ht) as (f & -> & Hf & Eft). cbn [mbind res_bind fst snd].
  destruct (emit_field_prints st1 (don ++ lit) (drop (length lit) rest) f Hf Hr1) as (st2 & -> & Hr2 & Es2 & Ef2);
    [rewrite Eft, length_drop; lia|]. cbn [mbind res_bind].
  rewrite Eft, drop_drop, <-app_assoc in Hr2. exists st2. split; [done|]. rewrite length_app. split; [done|].
  split; congruence.
Qed.

Lemma print_step_percent e size st don rest lit format args :
  forallb (λ c, negb (c =? 0) && negb (c =? CH "%")) lit = true →
  ready st don rest → (length (lit ++ BS "%") ≤ length rest)%nat →
  ∃ st', print_step e size (st, lit ++ BS "%%" ++ format, args) = Ok (inl (st', format, args)) ∧
    ready st' (don ++ lit ++ BS "%") (drop (length (lit ++ BS "%")) rest) ∧
    stored st' = stored st ∧ flag_exit st' = flag_exit st.
Proof.
  intros Hlit Hr Hl. unfold print_step. cbn [app].
  rewrite format_span_plain by (done || by right). cbn [mbind res_bind].
  destruct (prints_bind st don rest (write st lit) lit (λ st, write st (BS "%")) (BS "%")) as (st2 & E & Hr2 & Es & Ef);
    [apply write_prints|intros; apply write_prints|done|done|].
  destruct (write st lit) as [st1|]; [|done]. cbn [mbind res_bind] in *.
  change (rd (37 :: 37 :: format) 0) with (@Ok Z 37). cbn [mbind res_bind Z.eqb].
  change (parse_spec (S (length (37 :: 37 :: format))) (drop 1 (37 :: 37 :: format)) args (Spec 0 0 (-1) 0))
    with (Ok (37, format, args, Spec 0 0 (-1) 0)). cbn [mbind res_bind].
  exists st2. split; [|done].
  transitivity (r ← (x ← (st ← write st1 (BS "%"); Ok (st, args)); Ok (x.1, x.2, false));
    let '(st, args, done) := r in Ok (if done : bool then inr st else inl (st, format, args)) : res (pout * list Z * list arg + pout)).
  - done.
  - by rewrite E.
Qed.

Lemma print_loop e size tail ps : ∀ lit st don rest n t,
  forallb (λ c, negb (c =? 0) && negb (c =? CH "%")) lit = true → format_text ps = Some t →
  ready st don rest → (length (lit ++ t) ≤ length rest)%nat → (length (concat (map render_piece ps)) < n)%nat →
  ∃ st', iterate n (print_step e size) (st, lit ++ concat (map render_piece ps) ++ 0 :: tail, concat (map piece_arg ps)) = Ok st' ∧
    ready st' (don ++ lit ++ t) (drop (length (lit ++ t)) rest) ∧ stored st' = stored st ∧ flag_exit st' = flag_exit st.
Proof.
  induction ps as [|p ps IH]; intros lit st don rest n t Hlit Ht Hr Hl Hn; (destruct n as [|n]; [lia|]).
  - simpl in Ht. simplify_eq. rewrite app_nil_r in *.
    destruct (write_prints st don rest lit Hr Hl) as (st1 & E & Hr1 & Es1 & Ef1).
    exists st1. split; [|done]. cbn [iterate map concat app]. unfold print_step.
    rewrite format_span_plain by (done || by left). cbn [mbind res_bind]. rewrite E. done.
  - simpl in Ht. destruct (piece_text p) as [t1|] eqn:E1; [|done]. cbn [mbind option_bind] in Ht.
    destruct (format_text ps) as [t2|] eqn:E2; [|done]. simpl in Ht. simplify_eq.
    cbn [map concat] in Hn |- *. rewrite length_app in Hn. destruct p as [bs|d|]; simpl in E1.
    + destruct (forallb _ bs) eqn:Hbs; [|done]. simplify_eq. cbn [render_piece piece_arg app].
      replace (lit ++ (t1 ++ concat (map render_piece ps)) ++ 0 :: tail)
        with ((lit ++ t1) ++ concat (map render_piece ps) ++ 0 :: tail) by by rewrite <-!app_assoc.
      rewrite (app_assoc lit). apply IH; try done; [by rewrite forallb_app, Hlit|by rewrite <-app_assoc|simpl in *; lia].
    + destruct (directive_ok d) eqn:Hok; [|done]. cbn [iterate render_piece piece_arg].
      rewrite (app_assoc lit t1), length_app in Hl.
      destruct (print_step_conv e size st don rest lit d t1 (concat (map render_piece ps) ++ 0 :: tail)
        (concat (map piece_arg ps)) Hlit Hok E1 Hr) as (st1 & Est & Hr1 & Es1 & Ef1); [lia|].
      rewrite <-(app_assoc (render d)). cbn [app]. rewrite Est.
      destruct (IH [] st1 _ _ n t2 eq_refl eq_refl Hr1) as (st2 & E & Hr2 & Es2 & Ef2).
      * cbn [app]. rewrite length_drop. lia.
      * unfold render_piece at 1, render in Hn. rewrite length_app in Hn. simpl in Hn. lia.
      * cbn [app] in *. exists st2. split; [done|]. rewrite drop_drop, <-length_app, <-!app_assoc in Hr2.
        split; [done|]. split; congruence.
    + simplify_eq. cbn [iterate render_piece piece_arg]. rewrite (app_assoc lit), length_app in Hl.
      destruct (print_step_percent e size st don rest lit (concat (map render_piece ps) ++ 0 :: tail)
        (concat (map piece_arg ps)) Hlit Hr) as (st1 & Est & Hr1 & Es1 & Ef1); [lia|].
      rewrite <-(app_assoc (BS "%%")). cbn [app] in *. rewrite Est.
      destruct (IH [] st1 _ _ n t2 eq_refl eq_refl Hr1) as (st2 & E & Hr2 & Es2 & Ef2).
      * cbn [app]. rewrite length_drop. lia.
      * simpl in Hn. lia.
      * cbn [app] in *. exists st2. split; [done|]. rewrite drop_drop, <-length_app, <-!app_assoc in Hr2.
        split; [done|]. split; congruence.
Qed.

Lemma fill_negative fuel s i n c :
  n < 0 → 0 <= i → (0 < fuel)%nat → (length s < fuel + Z.to_nat i)%nat → fill fuel s i n c = Fail OutOfBounds.
Proof.
  revert s i n. induction fuel as [|fuel IH]; intros s i n Hn Hi H0 Hf; [lia|]. cbn [fill].
  destruct (Z.eqb_spec n 0); [lia|]. unfold wr. destruct (Z.ltb_spec i 0); [lia|].
  destruct (Z.leb_spec (Z.of_nat (length s)) i) as [|Hlt]; [done|].
  cbn [orb mbind res_bind]. apply IH; [lia|lia|lia|]. rewrite length_insert. lia.
Qed.

Lemma put_too_long bs : ∀ s i,
  0 <= i <= Z.of_nat (length s) → (length s < Z.to_nat i + length bs)%nat → put s i bs = Fail OutOfBounds.
Proof.
  induction bs as [|b bs IH]; intros s i Hi Hl; simpl in Hl; [lia|]. cbn [put]. unfold wr.
  destruct (Z.ltb_spec i 0); [lia|]. destruct (Z.leb_spec (Z.of_nat (length s)) i); [done|].
  cbn [orb mbind res_bind]. apply IH; rewrite length_insert; lia.
Qed.

(** A hexadecimal field of two digits with the alternate form. *)
Definition two_digit_field (fl v : Z) : bool :=
  match conv_field (CH "x") (Spec fl 3 (-1) 0) [AInt v] with
  | Some (Ok (Field ds 2 (-1) (Spec fl' 3 (-1) 0) 120, [])) => (length ds =? 2)%nat && (fl' =? Z.lor fl HEXPREFIX)
  | _ => false
  end.

Lemma hex_field fl v :
  two_digit_field fl v = true →
  ∃ ds, length ds = 2%nat ∧
    conv_field (CH "x") (Spec fl 3 (-1) 0) [AInt v] =
      Some (Ok (Field ds 2 (-1) (Spec (Z.lor fl HEXPREFIX) 3 (-1) 0) (CH "x"), [])).
Proof.
  unfold two_digit_field. destruct (conv_field _ _ _) as [r|]; [|done]. intros H.
  repeat case_match; try done. subst. apply andb_prop in H as [H1 H2]. apply Z.eqb_eq in H2 as ->.
  apply Nat.eqb_eq in H1. by exists cp0.
Qed.

Lemma two_digits v :
  16 <= v < 256 → two_digit_field ALT v = true ∧ two_digit_field (Z.lor ALT ZEROPAD) v = true.
Proof.
  intros Hv. assert (Hb : is_byte v) by (unfold is_byte; lia).
  assert (H : (v <? 16) || (two_digit_field ALT v && two_digit_field (Z.lor ALT ZEROPAD) v) = true) by byte_check v.
  destruct (Z.ltb_spec v 16); [lia|]. by apply andb_prop in H.
Qed.

Lemma print_step_fail e size buffer f tail v ch format sp x :
  parse_spec (S (S (length tail))) tail [AInt v] (Spec 0 0 (-1) 0) = Ok (ch, format, [AInt v], sp) →
  conv_field ch sp [AInt v] = Some (Ok (f, [])) → emit_field (POut buffer 0 0 [] 0) f = Fail x →
  u__vsnprintf e buffer size (CH "%" :: tail) [AInt v] = Fail x.
Proof.
  intros E1 E2 E3. unfold u__vsnprintf. cbn [length iterate].
  assert (E : print_step e size (POut buffer 0 0 [] 0, CH "%" :: tail, [AInt v]) = Fail x); [|by rewrite E].
  unfold print_step.
  change (format_span (CH "%" :: tail)) with (@Ok (list Z * list Z) ([], CH "%" :: tail)). cbn [mbind res_bind].
  change (write (POut buffer 0 0 [] 0) []) with (Ok (POut buffer 0 0 [] 0)). cbn [mbind res_bind].
  change (rd (CH "%" :: tail) 0) with (Ok (CH "%")). cbn [mbind res_bind Z.eqb].
  change (drop 1 (CH "%" :: tail)) with tail. change (length (CH "%" :: tail)) with (S (length tail)).
  rewrite E1. cbn [mbind res_bind]. rewrite E2. cbn [mbind res_bind fst]. by rewrite E3.
Qed.

Lemma emit_hex_blank buffer ds :
  length ds = 2%nat →
  emit_field (POut buffer 0 0 [] 0) (Field ds 2 (-1) (Spec (Z.lor ALT HEXPREFIX) 3 (-1) 0) (CH "x")) = Fail OutOfBounds.
Proof. intros Hd. destruct buffer as [|y buffer]; [done|]. done. Qed.

Lemma emit_hex_zero buffer ds :
  length ds = 2%nat →
  emit_field (POut buffer 0 0 [] 0)
    (Field ds 2 (-1) (Spec (Z.lor (Z.lor ALT ZEROPAD) HEXPREFIX) 3 (-1) 0) (CH "x")) = Fail OutOfBounds.
Proof.
  intros Hd. destruct buffer as [|y [|y' buffer]]; [done|done|].
  assert (H : fill_loop (48 :: 120 :: buffer) 2 (-1) 48 = Fail OutOfBounds) by (apply fill_negative; lia).
  destruct ds as [|d1 [|d2 [|]]]; try done.
  assert (P := put_ok [] [48; 120] (y :: y' :: buffer) ltac:(simpl; lia)). change (put (y :: y' :: buffer) 0 [48; 120] = Ok (48 :: 120 :: buffer)) in P.
  cbv -[fill_loop put]. rewrite P. by rewrite H.
Qed.

(** The whole function: what [print_loop] leaves, with the NUL. *)
Lemma vsnprintf_stores e buffer buffer_size ps tail text :
  format_text ps = Some text → (length text < length buffer)%nat → Z.of_nat (length text) < buffer_size →
  Z.of_nat (length buffer) < 2 ^ 32 →
  u__vsnprintf e buffer buffer_size (concat (map render_piece ps) ++ 0 :: tail) (concat (map piece_arg ps)) =
    Ok (POut (text ++ 0 :: drop (S (length text)) buffer) (Z.of_nat (length text)) (Z.of_nat (length text)) [] 0).
Proof.
  intros Ht Hl Hs Hb. unfold u__vsnprintf.
  destruct (print_loop e buffer_size tail ps [] (POut buffer 0 0 [] 0) [] buffer
    (S (length (concat (map render_piece ps) ++ 0 :: tail))) text eq_refl Ht) as (st & E & (Eb & Ep & Er & _) & Est & Efl).
  - split; [done|]. by split.
  - cbn [app]. lia.
  - rewrite length_app. simpl. lia.
  - cbn [app] in *. rewrite E. cbn [mbind res_bind]. rewrite Er. destruct (Z.ltb_spec (Z.of_nat (length text)) buffer_size); [|lia].
    destruct (drop (length text) buffer) as [|y rest] eqn:Ed.
    { apply (f_equal length) in Ed. rewrite length_drop in Ed. simpl in Ed. lia. }
    assert (E2 := put_ok text [0] (y :: rest) ltac:(simpl; lia)). simpl in E2. rewrite drop_0 in E2.
    rewrite Eb, Ep. destruct (wr _ _ _) as [b|]; [|done]. cbn [mbind res_bind] in *. injection E2 as ->.
    unfold set_pbuf. rewrite Est, Efl. cbn [stored flag_exit].
    replace (S (length text)) with (length text + 1)%nat by lia. rewrite <-drop_drop, Ed. done.
Qed.

(** ** Properties *)

(** C23: for a format of text, [%%] and conversions [d i u o x X c s] with flags in any order, a width, a
    precision and a length modifier, and a buffer with room for the result, [u__vsnprintf] stores the text that
    the C standard gives for the arguments, with the commas of the quote flag, and a NUL, changes nothing behind it and returns the
    length. The exceptions are in the specification: a precision of [%s] is the exact number of
    characters (they are not looked at), [%#.0o] of zero is empty, and a width of one
    more than the hexadecimal digits with the alternate form has no text. *)
Theorem u__vsnprintf_correct e buffer buffer_size ps tail text :
  format_text ps = Some text → (length text < length buffer)%nat → Z.of_nat (length text) < buffer_size →
  Z.of_nat (length buffer) < 2 ^ 32 →
  u__vsnprintf e buffer buffer_size (concat (map render_piece ps) ++ 0 :: tail) (concat (map piece_arg ps)) =
    Ok (POut (text ++ 0 :: drop (S (length text)) buffer) (Z.of_nat (length text)) (Z.of_nat (length text)) [] 0).
Proof. apply vsnprintf_stores. Qed.

Lemma u__vsnprintf_correct_witness :
  let ps := [Text (BS "a"); Conv (Directive (BS "+") (Some 6) (Some 3) [] (CH "d") (AInt 42)); Percent;
             Conv (Directive (BS "0#") (Some 8) None (BS "l") (CH "X") (ALong 255));
             Conv (Directive (BS "'-") (Some 10) None [] (CH "u") (AInt (-1)));
             Conv (Directive [] None None [] (CH "s") (AStr (Some (BS "hi" ++ [0]))))] in
  u__vsnprintf env0 (replicate 40 1) 40 (BS "a%+6.3d%%%0#8lX%'-10u%s" ++ [0]) [AInt 42; ALong 255; AInt (-1); AStr (Some (BS "hi" ++ [0]))] =
    Ok (POut (BS "a  +042%0X0000FF4,294,967,295hi" ++ 0 :: replicate 8 1) 31 31 [] 0).
Proof.
  intros ps. exact (u__vsnprintf_correct env0 (replicate 40 1) 40 ps [] (BS "a  +042%0X0000FF4,294,967,295hi")
    ltac:(vm_compute; reflexivity) ltac:(vm_compute; lia) ltac:(reflexivity) ltac:(reflexivity)).
Defined.

(** C25: with the alternate form, hexadecimal digits in a field one character wider than they are go wrong. The
    prefix is written over the blank and one character more: at the start of the buffer that is a write
    before it, after other text its last character is lost. With zero padding the count of zeros goes to -1, and the loop,
    which stops at zero only, runs out of every buffer. *)
Theorem u__vsnprintf_hex_width e v size tail buffer :
  16 <= v < 256 →
  (u__vsnprintf e buffer size (BS "%#3x" ++ 0 :: tail) [AInt v] = Fail OutOfBounds) ∧
  (u__vsnprintf e buffer size (BS "%#03x" ++ 0 :: tail) [AInt v] = Fail OutOfBounds) ∧
  match u__vsnprintf env0 (replicate 8 1) 8 (BS "a%#3x" ++ [0]) [AInt 255] with
  | Ok st => take (Z.to_nat (ret st)) (pbuf st) = BS "0xff" | Fail _ => False
  end.
Proof.
  intros Hv. split; [|split; [|vm_compute; reflexivity]].
  - destruct (hex_field ALT v) as (ds & Hd & E); [by apply (two_digits v) in Hv as [? ?]|].
    eapply print_step_fail; [reflexivity|exact E|by apply emit_hex_blank].
  - destruct (hex_field (Z.lor ALT ZEROPAD) v) as (ds & Hd & E); [by apply (two_digits v) in Hv as [? ?]|].
    eapply print_step_fail; [reflexivity|exact E|by apply emit_hex_zero].
Qed.

Lemma u__vsnprintf_hex_width_witness :
  u__vsnprintf env0 (replicate 64 1) 64 (BS "%#3x" ++ [0]) [AInt 0xAB] = Fail OutOfBounds.
Proof. exact (proj1 (u__vsnprintf_hex_width env0 0xAB 64 [] (replicate 64 1) ltac:(lia))). Defined.

(** The size of the buffer is not looked at before characters are stored: plain text that is longer than
    the buffer is written behind its end, whatever [buffer_size] says. *)
Theorem u__vsnprintf_overflow e buffer buffer_size lit tail args :
  forallb (λ c, negb (c =? 0) && negb (c =? CH "%")) lit = true → (length buffer < length lit)%nat →
  u__vsnprintf e buffer buffer_size (lit ++ 0 :: tail) args = Fail OutOfBounds.
Proof.
  intros Hlit Hl. unfold u__vsnprintf.
  assert (E : print_step e buffer_size (POut buffer 0 0 [] 0, lit ++ 0 :: tail, args) = Fail OutOfBounds).
  { unfold print_step. rewrite format_span_plain by (done || by left). cbn [mbind res_bind].
    unfold write. cbn [pbuf bp]. rewrite put_too_long by lia. done. }
  rewrite length_app. replace (S _) with (S (length lit + length (0 :: tail))) by lia. cbn [iterate]. by rewrite E.
Qed.

Lemma u__vsnprintf_overflow_witness :
  u__vsnprintf env0 (replicate 4 1) 4 (BS "too long" ++ [0]) [] = Fail OutOfBounds.
Proof. exact (u__vsnprintf_overflow env0 (replicate 4 1) 4 (BS "too long") [] [] eq_refl ltac:(simpl; lia)). Defined.
