(* ===== verification/Path.v ===== *)
(** * Path names ([u_canonicalize_pathname], [src/ulib/base/utility.c])

    The function only shortens the C string it is given: the model's [path] is the contents
    of the string, without its NUL, which reads as 0 at the index after the last character; reading
    behind it is a fault. A copy down is [take] and [drop], storing a NUL is [take]. *)

From S2P Require Import Prelude.

Definition SLASH : Z := CH "/".
Definition DOT : Z := CH ".".

Definition char_at (path : list Z) (i : Z) : res Z := rd (path ++ [0]) i.

(** [for (src = ..., dst = ...; ( *dst = *src); ++src, ++dst) {}] *)
Definition copy_down (path : list Z) (dst src : Z) : list Z :=
  take (Z.to_nat dst) path ++ drop (Z.to_nat src) path.

(** [path[i] = 0] *)
Definition cut (path : list Z) (i : Z) : list Z := take (Z.to_nat i) path.

(** The path and [is_modified]. *)
Abbreviation pstate := (list Z * bool)%type.

(** How many slashes a string starts with: [while ( *(++s) == '/') {}]. *)
Fixpoint slashes (s : list Z) : Z :=
  match s with [] => 0 | c :: s' => if c =? SLASH then 1 + slashes s' else 0 end.

(** Collapse multiple slashes. *)
Definition collapse_step (st : pstate * Z) : res (pstate * Z + pstate) :=
  let '((path, m), p) := st in
  c ← char_at path p;
  if c =? 0 then Ok (inr (path, m))
  else
    double ← (if c =? SLASH then c1 ← char_at path (p + 1); Ok (c1 =? SLASH) else Ok false);
    if double : bool then
      let s := p + 2 + slashes (drop (Z.to_nat (p + 2)) path) in
      Ok (inl ((copy_down path (p + 1) s, true), p + 1))
    else Ok (inl ((path, m), p + 1)).

(** Collapse ["/./"]. *)
Definition dot_step (st : pstate * Z) : res (pstate * Z + pstate) :=
  let '((path, m), p) := st in
  c ← char_at path p;
  if c =? 0 then Ok (inr (path, m))
  else
    dot ← (if c =? SLASH then
             c1 ← char_at path (p + 1);
             if c1 =? DOT then c2 ← char_at path (p + 2); Ok (c2 =? SLASH) else Ok false
           else Ok false);
    if dot : bool then Ok (inl ((copy_down path p (p + 2), true), p))
    else Ok (inl ((path, m), p + 1)).

(** [do { *p-- = '\0'; } while (p > lpath && *p == '/')]: [p] is the last character. *)
Definition trailing_step (st : pstate) : res (pstate + pstate) :=
  let '(path, m) := st in
  let p := Z.of_nat (length path) - 1 in
  if 0 <? p then
    c ← char_at path p;
    Ok (if c =? SLASH then inl (cut path p, true) else inr (path, m))
  else Ok (inr (path, m)).

(** Remove a leading ["./"]; [inr] is the [return true] of the path ["./"]. *)
Definition leading_dot (st : pstate) : res (pstate + pstate) :=
  let '(path, m) := st in
  c0 ← char_at path 0;
  if c0 =? DOT then
    c1 ← char_at path 1;
    if c1 =? SLASH then
      c2 ← char_at path 2;
      Ok (if c2 =? 0 then inr (cut path 1, true) else inl (copy_down path 0 2, true))
    else Ok (inl (path, m))
  else Ok (inl (path, m)).

(** Remove a trailing ["/"] or ["/."]; [inr] is the end of the function. *)
Definition trailing_dot (st : pstate) : res (pstate + pstate) :=
  let '(path, m) := st in
  let len := Z.of_nat (length path) in
  if len <? 2 then Ok (inr (path, m))
  else
    c1 ← char_at path (len - 1);
    if c1 =? SLASH then Ok (inl (cut path (len - 1), true))
    else if c1 =? DOT then
      c2 ← char_at path (len - 2);
      if c2 =? SLASH then
        Ok (if len =? 2 then inr (cut path 1, true) else inl (cut path (len - 2), true))
      else Ok (inl (path, m))
    else Ok (inl (path, m)).

(** [s = p - 1; while (s >= lpath && *s != '/') --s; ++s]: the start of the token that ends at [p]. *)
Fixpoint token_start (path : list Z) (p : nat) : res Z :=
  match p with
  | O => Ok 0
  | S s => c ← char_at path (Z.of_nat s); if c =? SLASH then Ok (Z.of_nat p) else token_start path s
  end.

(** Is ["/.."], and the end of a token, at [p]? Then the character after it. *)
Definition dotdot_at (path : list Z) (p : Z) : res (option Z) :=
  c0 ← char_at path p;
  if negb (c0 =? SLASH) then Ok None
  else
    c1 ← char_at path (p + 1);
    if negb (c1 =? DOT) then Ok None
    else
      c2 ← char_at path (p + 2);
      if negb (c2 =? DOT) then Ok None
      else
        c3 ← char_at path (p + 3);
        Ok (if (c3 =? SLASH) || (c3 =? 0) then Some c3 else None).

(** Is the token from [s] to [p] [".."]? *)
Definition is_dotdot (path : list Z) (s p : Z) : res bool :=
  c0 ← char_at path s;
  if c0 =? DOT then c1 ← char_at path (s + 1); Ok ((c1 =? DOT) && (s + 2 =? p)) else Ok false.

(** A [".."] at the end of the path removes the token before it and ends the loop. *)
Definition trailing_dotdot (path : list Z) (s : Z) : res (list Z) :=
  if s =? 0 then
    c ← char_at path 0;
    path ← (if negb (c =? SLASH) then wr path 0 DOT else Ok path);
    Ok (cut path 1)
  else if s =? 1 then Ok (cut path s)
  else Ok (cut path (s - 1)).

(** Collapse ["/.."] with the previous part of the path. *)
Definition dotdot_step (st : pstate * Z) : res (pstate * Z + pstate) :=
  let '((path, m), p) := st in
  c0 ← char_at path p;
  if c0 =? 0 then Ok (inr (path, m)) else
  c1 ← char_at path (p + 1);
  if c1 =? 0 then Ok (inr (path, m)) else
  c2 ← char_at path (p + 2);
  if c2 =? 0 then Ok (inr (path, m)) else
  d ← dotdot_at path p;
  match d with
  | None => Ok (inl ((path, m), p + 1))
  | Some c3 =>
      s ← token_start path (Z.to_nat p);
      dd ← is_dotdot path s p;
      if dd : bool then Ok (inl ((path, m), p + 3))
      else if negb (c3 =? 0) then
        root ← (if s =? 0 then c ← char_at path s; Ok (if c =? SLASH then 1 else 0) else Ok 0);
        Ok (inl ((copy_down path (s + root) (p + 4), true), if 0 <? s then s - 1 else s))
      else
        path ← trailing_dotdot path s; Ok (inr (path, true))
  end.

(** Every loop but the last one moves [p] or shortens the path; the last one may go back to the
    token before, but then it has removed more than that. *)
Definition u_canonicalize_pathname (path : list Z) : res pstate :=
  let n := (2 * length path + 2)%nat in
  st ← iterate n collapse_step ((path, false), 0);
  st ← iterate n dot_step (st, 0);
  st ← iterate n trailing_step st;
  r ← leading_dot st;
  match r with
  | inr st => Ok st
  | inl st =>
      r ← trailing_dot st;
      match r with
      | inr st => Ok st
      | inl st => iterate n dotdot_step (st, 0)
      end
  end.

(** ** Specification: the components of a path *)

(** The tokens between slashes. *)
Fixpoint split_slash (path : list Z) : list (list Z) :=
  match path with
  | [] => [[]]
  | c :: path' =>
      if c =? SLASH then [] :: split_slash path'
      else match split_slash path' with t :: ts => (c :: t) :: ts | [] => [] end
  end.

Fixpoint join_slash (ts : list (list Z)) : list Z :=
  match ts with
  | [] => []
  | [t] => t
  | t :: ts' => t ++ SLASH :: join_slash ts'
  end.

Definition is_absolute (path : list Z) : bool :=
  match path with c :: _ => c =? SLASH | [] => false end.

(** The components: neither empty nor ["."]. *)
Definition components (path : list Z) : list (list Z) :=
  filter (λ t, t ≠ [] ∧ t ≠ [DOT]) (split_slash path).

(** [".."] takes the component before it away; at the start of a relative path it stays, at the
    root it does nothing. [kept] is reversed. *)
Fixpoint resolve (absolute : bool) (kept todo : list (list Z)) : list (list Z) :=
  match todo with
  | [] => rev kept
  | t :: todo' =>
      if decide (t = [DOT; DOT]) then
        match kept with
        | [] => if absolute then resolve absolute [] todo' else resolve absolute [t] todo'
        | k :: kept' =>
            if decide (k = [DOT; DOT]) then resolve absolute (t :: kept) todo'
            else resolve absolute kept' todo'
        end
      else resolve absolute (t :: kept) todo'
  end.

Definition canonical (path : list Z) : list Z :=
  match path with
  | [] => []
  | _ =>
      let cs := resolve (is_absolute path) [] (components path) in
      if is_absolute path then SLASH :: join_slash cs
      else match cs with [] => [DOT] | _ => join_slash cs end
  end.

(** A token: no slash and no NUL. A component is also not empty and not ["."]. *)
Definition token (t : list Z) : Prop := (SLASH ∉ t) ∧ (0 ∉ t).
Definition good (t : list Z) : Prop := token t ∧ t ≠ [] ∧ t ≠ [DOT].

(** The path of the components [cs]. *)
Definition render (absolute : bool) (cs : list (list Z)) : list Z :=
  if absolute then SLASH :: join_slash cs else match cs with [] => [DOT] | _ => join_slash cs end.

(** A part of the function leaves its state alone, or shortens the path and says so. *)
Definition shortens (st st' : pstate) : Prop :=
  st' = st ∨ st'.2 = true ∧ (length st'.1 < length st.1)%nat.

(** The tokens after the first one, without those in [P], except at the end. *)
Fixpoint prune (P : list Z → bool) (ts : list (list Z)) : list (list Z) :=
  match ts with
  | [] => []
  | t :: ts' => match ts' with [] => [t] | _ => if P t then prune P ts' else t :: prune P ts' end
  end.

Definition is_empty (t : list Z) : bool := bool_decide (t = []).
Definition is_dot (t : list Z) : bool := bool_decide (t = [DOT]).

(** ** Lemmas *)

Lemma char_at_app a b k : 0 <= k → char_at (a ++ b) (Z.of_nat (length a) + k) = char_at b k.
Proof.
  intros Hk. unfold char_at, rd. rewrite <-app_assoc.
  destruct (Z.ltb_spec (Z.of_nat (length a) + k) 0); [lia|]. destruct (Z.ltb_spec k 0); [lia|].
  rewrite lookup_app_r by lia. by replace (Z.to_nat (Z.of_nat (length a) + k) - length a)%nat with (Z.to_nat k) by lia.
Qed.

Lemma char_at_app_0 a b : char_at (a ++ b) (Z.of_nat (length a)) = char_at b 0.
Proof. rewrite <-(Z.add_0_r (Z.of_nat (length a))). by apply char_at_app. Qed.

Lemma char_at_end a : char_at a (Z.of_nat (length a)) = Ok 0.
Proof. rewrite <-(app_nil_r a) at 1. by rewrite char_at_app_0. Qed.

Lemma char_at_cons c b k : 1 <= k → char_at (c :: b) k = char_at b (k - 1).
Proof.
  intros Hk. replace k with (Z.of_nat (length [c]) + (k - 1)) at 1 by (simpl; lia).
  by rewrite <-(char_at_app [c] b (k - 1)) by lia.
Qed.

Lemma shortens_refl st : shortens st st.
Proof. by left. Qed.

Lemma shortens_trans st1 st2 st3 : shortens st1 st2 → shortens st2 st3 → shortens st1 st3.
Proof.
  intros [->|[H1 H2]] [->|[H3 H4]]; unfold shortens; auto. right. split; [done|lia].
Qed.

Lemma copy_down_app a b c : copy_down (a ++ b ++ c) (Z.of_nat (length a)) (Z.of_nat (length (a ++ b))) = a ++ c.
Proof.
  unfold copy_down. rewrite !Nat2Z.id, take_app_length. rewrite app_assoc, drop_app_length. done.
Qed.

Lemma cut_app a b i : i = Z.of_nat (length a) → cut (a ++ b) i = a.
Proof. intros ->. unfold cut. by rewrite Nat2Z.id, take_app_length. Qed.

Lemma join_cons c t ts : join_slash ((c :: t) :: ts) = c :: join_slash (t :: ts).
Proof. by destruct ts. Qed.

Lemma join_nil_cons t ts : join_slash ([] :: t :: ts) = SLASH :: join_slash (t :: ts).
Proof. done. Qed.

Lemma join_cons2 t u us : join_slash (t :: u :: us) = t ++ SLASH :: join_slash (u :: us).
Proof. done. Qed.

Lemma token_cons c t : token (c :: t) ↔ c ≠ SLASH ∧ c ≠ 0 ∧ token t.
Proof.
  unfold token. rewrite !not_elem_of_cons. split.
  - intros [[H1 H2] [H3 H4]]. auto.
  - intros (H1 & H2 & H3 & H4). auto.
Qed.

Lemma token_nil : token [].
Proof. split; apply not_elem_of_nil. Qed.

Lemma join_split path : join_slash (split_slash path) = path.
Proof.
  induction path as [|c path IH]; [done|]. simpl. destruct (Z.eqb_spec c SLASH) as [->|].
  - destruct (split_slash path) eqn:E; [by destruct path; simpl in E; repeat case_match|].
    rewrite join_nil_cons. by rewrite IH.
  - destruct (split_slash path) eqn:E; [by destruct path; simpl in E; repeat case_match|].
    by rewrite join_cons, IH.
Qed.

Lemma split_tokens path : (0 ∉ path) → Forall token (split_slash path) ∧ split_slash path ≠ [].
Proof.
  induction path as [|c path IH]; intros H0; simpl; [split; [|done]; repeat constructor; apply not_elem_of_nil|].
  apply not_elem_of_cons in H0 as [Hc H0]. destruct (IH H0) as [Ht Hn].
  destruct (Z.eqb_spec c SLASH); [split; [|done]; constructor; [apply token_nil|done]|].
  destruct (split_slash path) as [|t ts]; [done|]. apply Forall_cons in Ht as [Ht ?].
  split; [|done]. constructor; [by apply token_cons|done].
Qed.

Lemma split_join ts : Forall token ts → ts ≠ [] → split_slash (join_slash ts) = ts.
Proof.
  induction ts as [|t ts IH]; intros Ht Hn; [done|]. apply Forall_cons in Ht as [Ht Hts].
  clear Hn. induction t as [|c t IHt].
  - destruct ts as [|u us]; [done|]. rewrite join_nil_cons. cbn [split_slash]. by rewrite Z.eqb_refl, IH.
  - rewrite join_cons. apply token_cons in Ht as (Hc & _ & Ht). cbn [split_slash].
    destruct (Z.eqb_spec c SLASH); [done|]. by rewrite IHt.
Qed.

Lemma prune_nonempty P t ts : prune P (t :: ts) ≠ [].
Proof.
  revert t. induction ts as [|u us IH]; intros t; [done|]. change (prune P (t :: u :: us)) with
    (if P t then prune P (u :: us) else t :: prune P (u :: us)). by destruct (P t).
Qed.

Lemma prune_cons P t u us : prune P (t :: u :: us) = if P t then prune P (u :: us) else t :: prune P (u :: us).
Proof. done. Qed.

(** The first two loops prune tokens. *)
Lemma slashes_join ts :
  Forall token ts → ts ≠ [] →
  ∃ w ws, drop (Z.to_nat (slashes (join_slash ts))) (join_slash ts) = join_slash (w :: ws) ∧
    0 <= slashes (join_slash ts) ∧ Forall token (w :: ws) ∧ prune is_empty ts = w :: prune is_empty ws.
Proof.
  induction ts as [|t ts IH]; intros Ht Hn; [done|]. apply Forall_cons in Ht as [Ht Hts].
  destruct ts as [|u us].
  - exists t, []. destruct t as [|c t]; [splits; [done|done|by constructor|done]|].
    assert (Hc := Ht). apply token_cons in Hc as (Hc & _). simpl.
    destruct (Z.eqb_spec c SLASH); [done|]. splits; [done|done|by constructor|done].
  - destruct t as [|c t].
    + destruct (IH Hts ltac:(done)) as (w & ws & E & Hs & Hw & Hp). exists w, ws.
      rewrite join_nil_cons. cbn [slashes]. rewrite Z.eqb_refl. splits; [|lia|done|done].
      replace (Z.to_nat (1 + _)) with (S (Z.to_nat (slashes (join_slash (u :: us))))) by lia. done.
    + exists (c :: t), (u :: us). rewrite join_cons. assert (Hc := Ht). apply token_cons in Hc as (Hc & _).
      cbn [slashes]. destruct (Z.eqb_spec c SLASH); [done|].
      rewrite drop_0, prune_cons. splits; [done|done|by constructor|done].
Qed.

Lemma slashes_bound s : 0 <= slashes s <= Z.of_nat (length s).
Proof. induction s as [|c s IH]; simpl; [lia|]. destruct (c =? SLASH); lia. Qed.

(** At a doubled slash: what is left after the copy. *)
Lemma collapse_double don v vs :
  Forall token (v :: vs) →
  let path := don ++ SLASH :: SLASH :: join_slash (v :: vs) in
  let p := Z.of_nat (length don) in
  ∃ w ws, copy_down path (p + 1) (p + 2 + slashes (drop (Z.to_nat (p + 2)) path)) = (don ++ [SLASH]) ++ join_slash (w :: ws) ∧
    Forall token (w :: ws) ∧ prune is_empty (v :: vs) = w :: prune is_empty ws ∧
    (length (join_slash (w :: ws)) ≤ length (join_slash (v :: vs)))%nat.
Proof.
  intros Hts path p. destruct (slashes_join (v :: vs) Hts ltac:(done)) as (w & ws & E & Hs & Hw & Hp).
  exists w, ws. assert (Hb := slashes_bound (join_slash (v :: vs))).
  set (d := join_slash (v :: vs)) in *. set (k := Z.to_nat (slashes d)) in *.
  assert (Ed : d = take k d ++ join_slash (w :: ws)) by (by rewrite <-E, take_drop).
  assert (Ek : length (take k d) = k) by (rewrite length_take; lia).
  split; [|splits; [done|done|apply (f_equal length) in Ed; rewrite length_app in Ed; lia]].
  subst path p. replace (Z.to_nat (Z.of_nat (length don) + 2)) with (length (don ++ [SLASH; SLASH])) by (rewrite length_app; simpl; lia).
  replace (don ++ SLASH :: SLASH :: d) with ((don ++ [SLASH; SLASH]) ++ d) by (by rewrite <-app_assoc).
  rewrite drop_app_length.
  replace ((don ++ [SLASH; SLASH]) ++ d) with ((don ++ [SLASH]) ++ (SLASH :: take k d) ++ join_slash (w :: ws))
    by (rewrite <-!app_assoc; cbn [app]; by rewrite <-Ed).
  replace (Z.of_nat (length don) + 1) with (Z.of_nat (length (don ++ [SLASH]))) by (rewrite length_app; simpl; lia).
  replace (Z.of_nat (length don) + 2 + slashes d) with
    (Z.of_nat (length ((don ++ [SLASH]) ++ SLASH :: take k d))) by (rewrite !length_app; simpl; lia).
  apply copy_down_app.
Qed.

Lemma collapse_ok : ∀ n t ts don m,
  token t → Forall token ts → (length (join_slash (t :: ts)) < n)%nat →
  ∃ st, iterate n collapse_step ((don ++ join_slash (t :: ts), m), Z.of_nat (length don)) = Ok st ∧
    st.1 = don ++ join_slash (t :: prune is_empty ts) ∧ shortens (don ++ join_slash (t :: ts), m) st.
Proof.
  induction n as [|n IH]; intros t ts don m Ht Hts Hn; [lia|]. cbn [iterate].
  unfold collapse_step at 1. rewrite char_at_app_0.
  assert (Hsnoc : ∀ c r, don ++ c :: r = (don ++ [c]) ++ r) by (intros; by rewrite <-app_assoc).
  assert (Hlen : ∀ c, Z.of_nat (length don) + 1 = Z.of_nat (length (don ++ [c]))) by (intros; rewrite length_app; simpl; lia).
  destruct t as [|c t].
  - destruct ts as [|u us].
    + simpl. eexists. splits; [done|done|apply shortens_refl].
    + rewrite join_nil_cons in *. change (char_at (SLASH :: ?r) 0) with (@Ok Z SLASH). cbn [mbind res_bind].
      change (SLASH =? 0) with false. change (SLASH =? SLASH) with true. cbn iota.
      rewrite char_at_app, char_at_cons by lia. change (1 - 1) with 0.
      destruct u as [|c' u]; [destruct us as [|v vs]|].
      * change (char_at (join_slash [[]]) 0) with (@Ok Z 0). cbn [mbind res_bind]. change (0 =? SLASH) with false.
        cbn iota. rewrite Hsnoc, (Hlen SLASH).
        destruct (IH [] [] (don ++ [SLASH]) m token_nil ltac:(by constructor)) as (st & -> & E1 & E2); [simpl in *; lia|].
        exists st. split; [done|]. split; [|done]. by rewrite E1, <-app_assoc.
      * rewrite join_nil_cons in *. change (char_at (SLASH :: ?r) 0) with (@Ok Z SLASH). cbn [mbind res_bind].
        change (SLASH =? SLASH) with true. cbn iota. apply Forall_cons in Hts as [_ Hts].
        destruct (collapse_double don v vs Hts) as (w & ws & -> & Hw & Hp & Hlw). rewrite (Hlen SLASH).
        apply Forall_cons in Hw as [Hw Hws].
        destruct (IH w ws (don ++ [SLASH]) true Hw Hws) as (st & -> & E1 & E2); [cbn [length] in Hn; lia|].
        exists st. split; [done|]. split.
        -- rewrite E1, prune_cons. change (is_empty []) with true. cbn iota. by rewrite Hp, <-app_assoc.
        -- eapply shortens_trans; [|exact E2]. right. split; [done|]. cbn [fst]. rewrite !length_app. cbn [length]. lia.
      * apply Forall_cons in Hts as [Hu Hts]. assert (Hc := Hu). apply token_cons in Hc as (Hc & _).
        rewrite join_cons. change (char_at (c' :: ?r) 0) with (@Ok Z c'). cbn [mbind res_bind].
        apply Z.eqb_neq in Hc. rewrite Hc. cbn iota. rewrite <-join_cons, Hsnoc, (Hlen SLASH).
        destruct (IH (c' :: u) us (don ++ [SLASH]) m Hu Hts) as (st & -> & E1 & E2); [simpl in *; lia|].
        exists st. split; [done|]. split; [|done]. rewrite E1, <-app_assoc.
        destruct us as [|v vs]; [done|]. rewrite prune_cons. done.
  - assert (Hc := Ht). apply token_cons in Hc as (Hc & Hc0 & Ht'). apply Z.eqb_neq in Hc, Hc0.
    rewrite !join_cons in *. change (char_at (c :: ?r) 0) with (@Ok Z c). cbn [mbind res_bind].
    rewrite Hc0, Hc. cbn [mbind res_bind]. rewrite Hsnoc, (Hlen c).
    destruct (IH t ts (don ++ [c]) m Ht' Hts) as (st & -> & E1 & E2); [simpl in *; lia|].
    exists st. split; [done|]. split; [|done]. by rewrite E1, <-app_assoc.
Qed.

Lemma dot_ok : ∀ n t ts don m,
  token t → Forall token ts → (length (join_slash (t :: ts)) < n)%nat →
  ∃ st, iterate n dot_step ((don ++ join_slash (t :: ts), m), Z.of_nat (length don)) = Ok st ∧
    st.1 = don ++ join_slash (t :: prune is_dot ts) ∧ shortens (don ++ join_slash (t :: ts), m) st.
Proof.
  induction n as [|n IH]; intros t ts don m Ht Hts Hn; [lia|]. cbn [iterate].
  unfold dot_step at 1. rewrite char_at_app_0.
  assert (Hsnoc : ∀ c r, don ++ c :: r = (don ++ [c]) ++ r) by (intros; by rewrite <-app_assoc).
  assert (Hlen : ∀ c, Z.of_nat (length don) + 1 = Z.of_nat (length (don ++ [c]))) by (intros; rewrite length_app; simpl; lia).
  destruct t as [|c t].
  - destruct ts as [|u us]; [eexists; splits; [done|done|apply shortens_refl]|].
    rewrite join_nil_cons in *. change (char_at (SLASH :: ?r) 0) with (@Ok Z SLASH). cbn [mbind res_bind].
    change (SLASH =? 0) with false. change (SLASH =? SLASH) with true. cbn iota.
    rewrite !char_at_app, !char_at_cons by lia. change (1 - 1) with 0. change (2 - 1) with 1.
    apply Forall_cons in Hts as [Hu Hts].
    assert (Hgo : (us ≠ [] → u ≠ [DOT]) → ∃ st,
      iterate n dot_step ((don ++ SLASH :: join_slash (u :: us), m), Z.of_nat (length don) + 1) = Ok st ∧
      st.1 = don ++ join_slash ([] :: prune is_dot (u :: us)) ∧ shortens (don ++ SLASH :: join_slash (u :: us), m) st).
    { intros Hd. rewrite Hsnoc, (Hlen SLASH).
      destruct (IH u us (don ++ [SLASH]) m Hu Hts) as (st & -> & E1 & E2); [simpl in *; lia|].
      exists st. split; [done|]. split; [|done]. rewrite E1, <-app_assoc.
      destruct us as [|v vs]; [done|]. rewrite prune_cons.
      assert (Hf : is_dot u = false) by (apply bool_decide_eq_false_2; auto). by rewrite Hf. }
    destruct u as [|c1 u].
    + destruct us as [|v vs]; [|rewrite join_nil_cons in *];
        [change (char_at (join_slash [[]]) 0) with (@Ok Z 0)|change (char_at (SLASH :: ?r) 0) with (@Ok Z SLASH)];
        cbn [mbind res_bind]; by apply Hgo.
    + assert (Hc := Hu). apply token_cons in Hc as (Hc & Hc0 & Hu'). rewrite join_cons in *.
      change (char_at (c1 :: ?r) 0) with (@Ok Z c1). cbn [mbind res_bind].
      destruct (Z.eqb_spec c1 DOT) as [->|Hdot]; [|by apply Hgo; intros _ [= ?]].
      rewrite char_at_cons by lia. change (1 - 1) with 0. destruct u as [|c2 u].
      * destruct us as [|v vs]; [change (char_at (join_slash [[]]) 0) with (@Ok Z 0); by apply Hgo|].
        rewrite join_nil_cons in *. change (char_at (SLASH :: ?r) 0) with (@Ok Z SLASH). cbn [mbind res_bind].
        change (SLASH =? SLASH) with true. cbn iota.
        replace (don ++ SLASH :: DOT :: SLASH :: join_slash (v :: vs)) with
          (don ++ [SLASH; DOT] ++ join_slash ([] :: v :: vs)) by done.
        replace (Z.of_nat (length don) + 2) with (Z.of_nat (length (don ++ [SLASH; DOT]))) by (rewrite length_app; simpl; lia).
        rewrite copy_down_app.
        destruct (IH [] (v :: vs) don true token_nil Hts) as (st & -> & E1 & E2); [simpl in *; lia|].
        exists st. split; [done|]. split; [done|]. eapply shortens_trans; [|exact E2].
        right. split; [done|]. simpl. rewrite !length_app. simpl. lia.
      * apply token_cons in Hu' as (Hc2%Z.eqb_neq & _). rewrite join_cons in *.
        change (char_at (c2 :: ?r) 0) with (@Ok Z c2). cbn [mbind res_bind]. rewrite Hc2. by apply Hgo.
  - assert (Hc := Ht). apply token_cons in Hc as (Hc & Hc0 & Ht'). apply Z.eqb_neq in Hc, Hc0.
    rewrite !join_cons in *. change (char_at (c :: ?r) 0) with (@Ok Z c). cbn [mbind res_bind].
    rewrite Hc0, Hc. cbn [mbind res_bind]. rewrite Hsnoc, (Hlen c).
    destruct (IH t ts (don ++ [c]) m Ht' Hts) as (st & -> & E1 & E2); [simpl in *; lia|].
    exists st. split; [done|]. split; [|done]. by rewrite E1, <-app_assoc.
Qed.

Lemma prune_snoc P gs l : prune P (gs ++ [l]) = filter (λ t, P t = false) gs ++ [l].
Proof.
  induction gs as [|g gs IH]; [done|]. simpl app. destruct (gs ++ [l]) eqn:E; [by destruct gs|].
  rewrite prune_cons, IH. destruct (P g) eqn:Hg; [by rewrite filter_cons_False by (by rewrite Hg)|].
  by rewrite filter_cons_True.
Qed.

Lemma join_snoc gs l : gs ≠ [] → join_slash (gs ++ [l]) = join_slash gs ++ SLASH :: l.
Proof.
  induction gs as [|g gs IH]; intros Hn; [done|]. destruct gs as [|h hs]; [done|].
  cbn [app] in *. rewrite !join_cons2, <-app_assoc. cbn [app]. by rewrite IH.
Qed.

Lemma good_inv t : good t → ∃ c t', t = c :: t' ∧ c ≠ SLASH ∧ c ≠ 0 ∧ token t'.
Proof.
  intros (Ht & Hn & _). destruct t as [|c t]; [done|]. apply token_cons in Ht as (? & ? & ?). eauto 10.
Qed.

Lemma good_last t : good t → ∃ t' c, t = t' ++ [c] ∧ c ≠ SLASH ∧ (c = DOT → ∃ t'' d, t' = t'' ++ [d] ∧ d ≠ SLASH).
Proof.
  intros ([Hs _] & Hn & Hd). destruct (exists_last Hn) as (t' & c & ->). exists t', c.
  assert (c ≠ SLASH) by (intros ->; apply Hs; apply elem_of_app; right; by left). splits; [done|done|].
  intros ->. destruct (decide (t' = [])) as [->|Hn']; [done|].
  destruct (exists_last Hn') as (t'' & d & ->). exists t'', d. split; [done|].
  intros ->. apply Hs. rewrite <-app_assoc. apply elem_of_app. right. by left.
Qed.

(** The path of components that are all good ends neither with a slash nor with ["/."]. *)
Lemma join_last gs : Forall good gs → gs ≠ [] →
  ∃ p c, join_slash gs = p ++ [c] ∧ c ≠ SLASH ∧ (c = DOT → ∃ q d, p = q ++ [d] ∧ d ≠ SLASH).
Proof.
  intros Hg Hn. destruct (exists_last Hn) as (hs & g & ->). apply Forall_app in Hg as [_ Hg].
  apply Forall_cons in Hg as [Hg _]. destruct (good_last g Hg) as (t' & c & -> & Hc & Hd).
  destruct (decide (hs = [])) as [->|Hhs].
  - exists t', c. splits; [done|done|done].
  - exists (join_slash hs ++ SLASH :: t'), c. rewrite join_snoc, <-app_assoc by done. splits; [done|done|].
    intros ->. destruct (Hd eq_refl) as (t'' & d & -> & Hne). exists (join_slash hs ++ SLASH :: t''), d.
    by rewrite <-app_assoc.
Qed.

Lemma join_head gs : Forall good gs → gs ≠ [] → ∃ c r, join_slash gs = c :: r ∧ c ≠ SLASH ∧ c ≠ 0.
Proof.
  intros Hg Hn. destruct gs as [|g gs]; [done|]. apply Forall_cons in Hg as [Hg _].
  destruct (good_inv g Hg) as (c & t' & -> & ? & ? & _). rewrite join_cons. eauto.
Qed.

Lemma render_last absolute cs : Forall good cs → cs ≠ [] →
  ∃ p c, render absolute cs = p ++ [c] ∧ c ≠ SLASH ∧ (c = DOT → ∃ q d, p = q ++ [d] ∧ (d ≠ SLASH)).
Proof.
  intros Hg Hn. destruct (join_last cs Hg Hn) as (p & c & E & Hc & Hd). unfold render. destruct absolute.
  - exists (SLASH :: p), c. rewrite E. splits; [done|done|]. intros Hdot.
    destruct (Hd Hdot) as (q & d & -> & ?). by exists (SLASH :: q), d.
  - exists p, c. rewrite <-E. splits; [by destruct cs|done|done].
Qed.

Lemma char_at_last p c r : char_at (p ++ c :: r) (Z.of_nat (length p)) = Ok c.
Proof. by rewrite char_at_app_0. Qed.

(** *** The middle of the function *)

Lemma trailing_none n p c m : c ≠ SLASH → iterate (S n) trailing_step (p ++ [c], m) = Ok (p ++ [c], m).
Proof.
  intros Hc%Z.eqb_neq. simpl. rewrite length_app. simpl.
  destruct (Z.ltb_spec 0 (Z.of_nat (length p + 1) - 1)); [|done].
  replace (Z.of_nat (length p + 1) - 1) with (Z.of_nat (length p)) by lia.
  rewrite char_at_last. cbn [mbind res_bind]. by rewrite Hc.
Qed.

Lemma trailing_one n p c m :
  c ≠ SLASH → iterate (S (S n)) trailing_step ((p ++ [c]) ++ [SLASH], m) = Ok (p ++ [c], true).
Proof.
  intros Hc. cbn [iterate]. unfold trailing_step at 1. rewrite length_app. cbn [length].
  replace (Z.of_nat (length (p ++ [c]) + 1) - 1) with (Z.of_nat (length (p ++ [c]))) by lia.
  destruct (Z.ltb_spec 0 (Z.of_nat (length (p ++ [c])))) as [_|H]; [|rewrite length_app in H; simpl in H; lia].
  rewrite char_at_last. cbn [mbind res_bind]. change (SLASH =? SLASH) with true. cbn iota.
  rewrite cut_app by done. by apply (trailing_none n).
Qed.

Lemma leading_dot_none c r m : c ≠ DOT → leading_dot (c :: r, m) = Ok (inl (c :: r, m)).
Proof.
  intros Hc%Z.eqb_neq. unfold leading_dot. change (char_at (c :: r) 0) with (@Ok Z c).
  cbn [mbind res_bind]. by rewrite Hc.
Qed.

Lemma leading_dot_good g gs m :
  good g → leading_dot (join_slash (g :: gs), m) = Ok (inl (join_slash (g :: gs), m)).
Proof.
  intros Hg. assert (Hd := Hg). destruct Hd as (_ & _ & Hd). destruct (good_inv g Hg) as (c & t & -> & Hc & _ & Ht).
  rewrite join_cons. destruct (Z.eq_dec c DOT) as [->|]; [|by apply leading_dot_none].
  destruct t as [|c' t]; [done|]. apply token_cons in Ht as (Hc'%Z.eqb_neq & _).
  rewrite join_cons. unfold leading_dot. change (char_at (DOT :: ?r) 0) with (@Ok Z DOT).
  change (char_at (DOT :: c' :: ?r) 1) with (@Ok Z c'). cbn [mbind res_bind]. by rewrite Hc'.
Qed.

Lemma leading_dot_some gs m : gs ≠ [] → (∃ c r, join_slash gs = c :: r ∧ c ≠ 0) →
  leading_dot (join_slash ([DOT] :: gs), m) = Ok (inl (join_slash gs, true)).
Proof.
  intros Hn (c & r & E & Hc%Z.eqb_neq). destruct gs as [|g gs]; [done|]. rewrite join_cons2, E. unfold leading_dot.
  change (char_at ([DOT] ++ SLASH :: c :: r) 0) with (@Ok Z DOT).
  change (char_at ([DOT] ++ SLASH :: c :: r) 1) with (@Ok Z SLASH).
  change (char_at ([DOT] ++ SLASH :: c :: r) 2) with (@Ok Z c). cbn [mbind res_bind].
  change (DOT =? DOT) with true. change (SLASH =? SLASH) with true. cbn iota. by rewrite Hc.
Qed.

Lemma trailing_dot_none p d c m :
  c ≠ SLASH → (c = DOT → d ≠ SLASH) → trailing_dot ((p ++ [d]) ++ [c], m) = Ok (inl ((p ++ [d]) ++ [c], m)).
Proof.
  intros Hc%Z.eqb_neq Hd. unfold trailing_dot. rewrite !length_app. cbn [length].
  destruct (Z.ltb_spec (Z.of_nat (length p + 1 + 1)) 2); [lia|].
  replace (Z.of_nat (length p + 1 + 1) - 1) with (Z.of_nat (length (p ++ [d]))) by (rewrite length_app; simpl; lia).
  rewrite char_at_last. cbn [mbind res_bind]. rewrite Hc. destruct (Z.eqb_spec c DOT) as [->|]; [|done].
  replace (Z.of_nat (length p + 1 + 1) - 2) with (Z.of_nat (length p)) by lia.
  rewrite <-app_assoc. cbn [app]. rewrite char_at_last. cbn [mbind res_bind].
  destruct (Z.eqb_spec d SLASH); [by destruct Hd|]. done.
Qed.

Lemma trailing_dot_some p m :
  trailing_dot (p ++ [SLASH; DOT], m) = Ok (if decide (p = []) then inr ([SLASH], true) else inl (p, true)).
Proof.
  unfold trailing_dot. rewrite length_app. cbn [length].
  destruct (Z.ltb_spec (Z.of_nat (length p + 2)) 2); [lia|].
  replace (p ++ [SLASH; DOT]) with ((p ++ [SLASH]) ++ [DOT]) at 1 by (by rewrite <-app_assoc).
  replace (Z.of_nat (length p + 2) - 1) with (Z.of_nat (length (p ++ [SLASH]))) by (rewrite length_app; simpl; lia).
  rewrite char_at_last. cbn [mbind res_bind]. change (DOT =? SLASH) with false. change (DOT =? DOT) with true. cbn iota.
  replace (Z.of_nat (length p + 2) - 2) with (Z.of_nat (length p)) by lia.
  rewrite char_at_last. cbn [mbind res_bind]. change (SLASH =? SLASH) with true. cbn iota.
  rewrite (cut_app p [SLASH; DOT] (Z.of_nat (length p))) by done. case_decide as Hp; [by subst|].
  destruct (Z.eqb_spec (Z.of_nat (length p + 2)) 2) as [E|]; [|done].
  destruct p; [done|simpl in E; lia].
Qed.

(** *** The last loop *)

(** The part of a path before its token [t] when [kept] (reversed) are the tokens before. *)
Definition before (absolute : bool) (kept : list (list Z)) : list Z :=
  (if absolute then [SLASH] else []) ++ concat (map (λ t, t ++ [SLASH]) (rev kept)).

Lemma before_snoc absolute k kept : before absolute (k :: kept) = before absolute kept ++ k ++ [SLASH].
Proof. unfold before. simpl. by rewrite map_app, concat_app, app_assoc; simpl; rewrite app_nil_r. Qed.

Lemma before_render absolute kept t ts :
  before absolute kept ++ join_slash (t :: ts) = render absolute (rev kept ++ t :: ts).
Proof.
  revert t ts. induction kept as [|k kept IH]; intros t ts; [by destruct absolute|].
  rewrite before_snoc. simpl rev. rewrite <-!app_assoc. cbn [app].
  change (k ++ SLASH :: join_slash (t :: ts)) with (join_slash (k :: t :: ts)). apply IH.
Qed.

(** At the slash after [a]: the loop looks at the next token [u]. *)
Lemma dotdot_at_token a u us :
  good u → Forall good us →
  dotdot_at (a ++ SLASH :: join_slash (u :: us)) (Z.of_nat (length a)) =
    Ok (if decide (u = [DOT; DOT]) then Some (match us with [] => 0 | _ => SLASH end) else None).
Proof.
  intros Hu Hus. unfold dotdot_at. rewrite char_at_last. cbn [mbind res_bind].
  change (SLASH =? SLASH) with true. cbn [negb]. rewrite !char_at_app by lia.
  rewrite !char_at_cons by lia. change (1 - 1) with 0. change (2 - 1) with 1. change (3 - 1) with 2.
  destruct Hu as (Hu & Hn & Hd). destruct u as [|c1 u]; [done|]. apply token_cons in Hu as (_ & _ & Hu).
  rewrite join_cons. change (char_at (c1 :: ?r) 0) with (@Ok Z c1). cbn [mbind res_bind].
  rewrite !(char_at_cons c1) by lia. change (1 - 1) with 0. change (2 - 1) with 1.
  destruct (Z.eqb_spec c1 DOT) as [->|]; cbn [negb]; [|by rewrite decide_False by congruence].
  destruct u as [|c2 u]; [by destruct us|]. apply token_cons in Hu as (_ & _ & Hu).
  rewrite join_cons. change (char_at (c2 :: ?r) 0) with (@Ok Z c2). cbn [mbind res_bind].
  rewrite (char_at_cons c2) by lia. change (1 - 1) with 0.
  destruct (Z.eqb_spec c2 DOT) as [->|]; cbn [negb]; [|by rewrite decide_False by congruence].
  destruct u as [|c3 u]; [by destruct us|]. apply token_cons in Hu as (H1%Z.eqb_neq & H2%Z.eqb_neq & _).
  rewrite join_cons. change (char_at (c3 :: ?r) 0) with (@Ok Z c3). cbn [mbind res_bind].
  rewrite H1, H2. cbn [orb]. by rewrite decide_False by congruence.
Qed.

Lemma token_start_ok a t r :
  token t → (a = [] ∨ ∃ a', a = a' ++ [SLASH]) →
  token_start (a ++ t ++ r) (length a + length t) = Ok (Z.of_nat (length a)).
Proof.
  intros Ht Ha. revert r. induction t as [|c t IH] using rev_ind; intros r.
  - cbn [length app]. rewrite Nat.add_0_r. destruct Ha as [->|(a' & ->)]; [done|].
    rewrite length_app, Nat.add_1_r. cbn [token_start]. rewrite <-app_assoc. cbn [app].
    rewrite char_at_last. done.
  - rewrite length_app, Nat.add_1_r, Nat.add_succ_r. cbn [token_start].
    rewrite <-app_assoc. cbn [app]. rewrite <-length_app, app_assoc, char_at_last. cbn [mbind res_bind].
    assert (Hc : token t ∧ c ≠ SLASH).
    { destruct Ht as [H1 H2]. rewrite elem_of_app in H1, H2. split; [split; auto|].
      intros ->. apply H1. right. by left. }
    destruct Hc as [Htt Hc%Z.eqb_neq]. rewrite Hc, length_app, <-app_assoc. by apply IH.
Qed.

Lemma is_dotdot_ok a t r :
  good t → is_dotdot (a ++ t ++ SLASH :: r) (Z.of_nat (length a)) (Z.of_nat (length a + length t)) =
    Ok (bool_decide (t = [DOT; DOT])).
Proof.
  intros (Ht & Hn & Hd). unfold is_dotdot. rewrite char_at_app_0, char_at_app by lia.
  destruct t as [|c t]; [done|]. apply token_cons in Ht as (_ & _ & Ht). cbn [app].
  change (char_at (c :: ?r) 0) with (@Ok Z c). cbn [mbind res_bind]. rewrite char_at_cons by lia. change (1 - 1) with 0.
  destruct (Z.eqb_spec c DOT) as [->|]; [|by rewrite bool_decide_eq_false_2 by congruence].
  destruct t as [|c2 t]; [done|]. cbn [app]. change (char_at (c2 :: ?r) 0) with (@Ok Z c2). cbn [mbind res_bind].
  destruct (Z.eqb_spec c2 DOT) as [->|]; [|by rewrite bool_decide_eq_false_2 by congruence]. cbn [andb length].
  f_equal. destruct t as [|c3 t]; cbn [length].
  - rewrite bool_decide_eq_true_2 by done. apply Z.eqb_eq. lia.
  - rewrite bool_decide_eq_false_2 by done. apply Z.eqb_neq. lia.
Qed.

Lemma join_no_nul ts : Forall token ts → (0 ∉ join_slash ts).
Proof.
  induction ts as [|t ts IH]; intros Ht; [apply not_elem_of_nil|]. apply Forall_cons in Ht as [[_ Ht] Hts].
  destruct ts as [|u us]; [done|]. rewrite join_cons2, elem_of_app, elem_of_cons.
  intros [?|[?|?]]; [done|done|]. by apply IH.
Qed.

Lemma good_tokens ts : Forall good ts → Forall token ts.
Proof. intros H. eapply Forall_impl; [exact H|]. by intros t []. Qed.

(** A character other than a slash: the loop goes on, unless less than two characters follow. *)
Lemma dotdot_step_char a c b m :
  c ≠ SLASH → c ≠ 0 → (0 ∉ b) →
  dotdot_step ((a ++ c :: b, m), Z.of_nat (length a)) =
    if decide (length b ≤ 1)%nat then Ok (inr (a ++ c :: b, m))
    else Ok (inl ((a ++ c :: b, m), Z.of_nat (length a) + 1)).
Proof.
  intros Hc%Z.eqb_neq Hc0%Z.eqb_neq Hb. unfold dotdot_step. rewrite char_at_last. cbn [mbind res_bind]. rewrite Hc0.
  rewrite !char_at_app, !char_at_cons by lia. change (1 - 1) with 0. change (2 - 1) with 1.
  destruct b as [|c1 b]; [done|]. apply not_elem_of_cons in Hb as [H1 Hb].
  change (char_at (c1 :: b) 0) with (@Ok Z c1). cbn [mbind res_bind]. destruct (Z.eqb_spec c1 0); [done|].
  rewrite char_at_cons by lia. change (1 - 1) with 0. destruct b as [|c2 b]; [done|].
  apply not_elem_of_cons in Hb as [H2 Hb]. change (char_at (c2 :: b) 0) with (@Ok Z c2). cbn [mbind res_bind].
  destruct (Z.eqb_spec c2 0); [done|]. unfold dotdot_at. rewrite char_at_last. cbn [mbind res_bind]. by rewrite Hc.
Qed.

(** What the step does at the slash before [".."]. *)
Definition at_dotdot (path : list Z) (m : bool) (p : Z) (last : bool) : res (pstate * Z + pstate) :=
  s ← token_start path (Z.to_nat p);
  dd ← is_dotdot path s p;
  if dd : bool then Ok (inl ((path, m), p + 3))
  else if negb last then
    root ← (if s =? 0 then c ← char_at path s; Ok (if c =? SLASH then 1 else 0) else Ok 0);
    Ok (inl ((copy_down path (s + root) (p + 4), true), if 0 <? s then s - 1 else s))
  else path ← trailing_dotdot path s; Ok (inr (path, true)).

Lemma dotdot_step_slash a u us m :
  good u → Forall good us →
  let path := a ++ SLASH :: join_slash (u :: us) in
  dotdot_step ((path, m), Z.of_nat (length a)) =
    if decide (us = [] ∧ length u = 1%nat) then Ok (inr (path, m))
    else if decide (u = [DOT; DOT]) then at_dotdot path m (Z.of_nat (length a)) (bool_decide (us = []))
    else Ok (inl ((path, m), Z.of_nat (length a) + 1)).
Proof.
  intros Hu Hus path. unfold dotdot_step. subst path. rewrite char_at_last. cbn [mbind res_bind].
  change (SLASH =? 0) with false. cbn iota. rewrite !char_at_app, !char_at_cons by lia.
  change (1 - 1) with 0. change (2 - 1) with 1. rewrite dotdot_at_token by done.
  assert (Hz := join_no_nul (u :: us) (good_tokens (u :: us) ltac:(by constructor))).
  destruct (good_inv u Hu) as (c1 & u' & -> & _ & Hc1%Z.eqb_neq & _). rewrite join_cons in *.
  change (char_at (c1 :: ?r) 0) with (@Ok Z c1). cbn [mbind res_bind]. rewrite Hc1.
  apply not_elem_of_cons in Hz as [_ Hz]. rewrite char_at_cons by lia. change (1 - 1) with 0.
  destruct (join_slash (u' :: us)) as [|c2 r] eqn:E.
  - assert (u' = [] ∧ us = []) as [-> ->]; [|done].
    destruct us, u'; try done; by rewrite join_cons in E.
  - apply not_elem_of_cons in Hz as [Hc2 Hz]. change (char_at (c2 :: r) 0) with (@Ok Z c2). cbn [mbind res_bind].
    destruct (Z.eqb_spec c2 0) as [|_]; [done|].
    destruct (decide (us = [] ∧ length (c1 :: u') = 1%nat)) as [[-> Hl]|_]; [by destruct u'|].
    destruct (decide (c1 :: u' = [DOT; DOT])); [|done]. unfold at_dotdot.
    destruct us as [|v vs]; [by rewrite bool_decide_eq_true_2|by rewrite bool_decide_eq_false_2].
Qed.

Definition ends_in (r : res pstate) (st : pstate) (path : list Z) : Prop :=
  ∃ st', r = Ok st' ∧ st'.1 = path ∧ shortens st st'.

Lemma ends_in_shorter r path m st' path' :
  (length st'.1 < length path)%nat → st'.2 = true → ends_in r st' path' → ends_in r (path, m) path'.
Proof.
  intros Hl Hm (st2 & E & E1 & Hs). exists st2. split; [done|]. split; [done|].
  eapply shortens_trans; [|exact Hs]. by right.
Qed.

(** At the root of an absolute path. *)
Lemma dotdot_root_step u us m :
  good u → Forall good us →
  let path := SLASH :: join_slash (u :: us) in
  dotdot_step ((path, m), 0) =
    if decide (us = [] ∧ length u = 1%nat) then Ok (inr (path, m))
    else if decide (u = [DOT; DOT]) then
      if decide (us = []) then Ok (inr ([SLASH], true)) else Ok (inl ((SLASH :: join_slash us, true), 0))
    else Ok (inl ((path, m), 1)).
Proof.
  intros Hu Hus path. etransitivity; [exact (dotdot_step_slash [] u us m Hu Hus)|].
  cbn [app length]. fold path. case_decide; [done|]. case_decide as Hd; [|done].
  unfold at_dotdot. change (token_start path (Z.to_nat (Z.of_nat 0))) with (@Ok Z 0). cbn [mbind res_bind].
  change (is_dotdot path 0 (Z.of_nat 0)) with (@Ok bool false). cbn [mbind res_bind].
  change (char_at path 0) with (@Ok Z SLASH). change (0 =? 0) with true. cbn iota. cbn [mbind res_bind].
  change (SLASH =? SLASH) with true. cbn iota. cbn [mbind res_bind].
  destruct us as [|v vs]; [done|]. rewrite bool_decide_eq_false_2, decide_False by done. cbn [negb].
  subst path u. rewrite join_cons2. done.
Qed.

Lemma trailing_dotdot_ok absolute kept t r :
  good t → Forall good kept →
  trailing_dotdot (before absolute kept ++ t ++ r) (Z.of_nat (length (before absolute kept))) =
    Ok (render absolute (rev kept)).
Proof.
  intros Ht Hk. unfold trailing_dotdot. destruct kept as [|k kept].
  - destruct absolute; [done|]. destruct (good_inv t Ht) as (c & t' & -> & Hc%Z.eqb_neq & _).
    cbn [before app rev map concat length]. change (Z.of_nat 0) with 0. change (0 =? 0) with true. cbn iota.
    change (char_at (c :: ?r) 0) with (@Ok Z c). cbn [mbind res_bind]. rewrite Hc. cbn [negb].
    unfold wr. rewrite (proj2 (Z.leb_gt _ _)) by (simpl; lia). done.
  - rewrite before_snoc. apply Forall_cons in Hk as [Hk _].
    assert (Hl : (2 ≤ length (before absolute kept ++ k ++ [SLASH]))%nat).
    { destruct (good_inv k Hk) as (c & k' & -> & _). rewrite !length_app. simpl. lia. }
    destruct (Z.eqb_spec (Z.of_nat (length (before absolute kept ++ k ++ [SLASH]))) 0); [lia|].
    destruct (Z.eqb_spec (Z.of_nat (length (before absolute kept ++ k ++ [SLASH]))) 1); [lia|].
    rewrite app_assoc, <-!app_assoc.
    rewrite (app_assoc _ k), cut_app by (rewrite !length_app; simpl; lia).
    simpl rev. rewrite <-before_render. done.
Qed.

(** After a token that is not [".."]: it goes, with the [".."]. *)
Lemma at_dotdot_normal absolute kept t us m :
  good t → t ≠ [DOT; DOT] → Forall good kept →
  let pre := before absolute kept in
  at_dotdot (pre ++ t ++ SLASH :: join_slash ([DOT; DOT] :: us)) m
      (Z.of_nat (length pre + length t)) (bool_decide (us = [])) =
    Ok (if decide (us = []) then inr (render absolute (rev kept), true)
        else inl ((pre ++ join_slash us, true), Z.max 0 (Z.of_nat (length pre) - 1))).
Proof.
  intros Ht Hd Hk pre. unfold at_dotdot. rewrite Nat2Z.id.
  assert (Hpre : pre = [] ∨ ∃ a', pre = a' ++ [SLASH]).
  { subst pre. destruct kept as [|k kept]; [destruct absolute; [right; by exists []|by left]|right].
    exists (before absolute kept ++ k). by rewrite before_snoc, app_assoc. }
  rewrite token_start_ok by (by try destruct Ht). cbn [mbind res_bind].
  rewrite is_dotdot_ok by done. rewrite (bool_decide_eq_false_2 (t = _)) by done. cbn [mbind res_bind].
  destruct us as [|v vs]; [rewrite bool_decide_eq_true_2 by done|rewrite bool_decide_eq_false_2 by done];
    cbn [negb mbind res_bind].
  - rewrite decide_True by done. subst pre. by rewrite trailing_dotdot_ok.
  - rewrite decide_False by done.
    assert (Hroot : (root ← (if Z.of_nat (length pre) =? 0 then
        c ← char_at (pre ++ t ++ SLASH :: join_slash ([DOT; DOT] :: v :: vs)) (Z.of_nat (length pre));
        Ok (if c =? SLASH then 1 else 0) else Ok 0); Ok root) = Ok 0).
    { destruct (good_inv t Ht) as (c & t' & -> & Hc%Z.eqb_neq & _). cbn [app]. rewrite char_at_last.
      cbn [mbind res_bind]. rewrite Hc. by destruct (_ =? 0). }
    destruct (if _ =? 0 then _ else _) as [root|]; [|done]. cbn [mbind res_bind] in *. injection Hroot as ->.
    rewrite Z.add_0_r. do 3 f_equal; [f_equal|zcases; lia].
    rewrite join_cons2, <-(copy_down_app pre (t ++ SLASH :: [DOT; DOT] ++ [SLASH]) (join_slash (v :: vs))).
    replace (Z.of_nat (length pre + length t) + 4) with
      (Z.of_nat (length (pre ++ t ++ SLASH :: [DOT; DOT] ++ [SLASH]))) by (rewrite !length_app; simpl; lia).
    by rewrite <-(app_assoc t).
Qed.

(** After a token [".."] the loop steps over the next one. *)
Lemma at_dotdot_dotdot absolute kept r m last :
  let pre := before absolute kept in
  at_dotdot (pre ++ [DOT; DOT] ++ SLASH :: r) m (Z.of_nat (length pre + 2)) last =
    Ok (inl ((pre ++ [DOT; DOT] ++ SLASH :: r, m), Z.of_nat (length pre + 2) + 3)).
Proof.
  intros pre. unfold at_dotdot. rewrite Nat2Z.id.
  assert (Hpre : pre = [] ∨ ∃ a', pre = a' ++ [SLASH]).
  { subst pre. destruct kept as [|k kept]; [destruct absolute; [right; by exists []|by left]|right].
    exists (before absolute kept ++ k). by rewrite before_snoc, app_assoc. }
  assert (Ht : token [DOT; DOT]) by (apply token_cons; splits; [done|done|]; apply token_cons; splits; [done|done|apply token_nil]).
  rewrite (token_start_ok pre [DOT; DOT]) by done. cbn [mbind res_bind].
  rewrite (is_dotdot_ok pre [DOT; DOT]) by (splits; done). rewrite bool_decide_eq_true_2 by done. done.
Qed.

Lemma join_app a b ts : join_slash ((a ++ b) :: ts) = a ++ join_slash (b :: ts).
Proof. induction a as [|c a IH]; [done|]. cbn [app]. by rewrite join_cons, IH. Qed.

Lemma good_length ts t : Forall good ts → ts ≠ [] → (length (join_slash (t :: ts)) ≥ length t + 2)%nat.
Proof.
  intros Hg Hn. destruct ts as [|u us]; [done|]. apply Forall_cons in Hg as [Hg _].
  destruct (good_inv u Hg) as (c & u' & -> & _). rewrite join_cons2, join_cons, length_app. simpl. lia.
Qed.

Lemma resolve_normal absolute kept u us :
  u ≠ [DOT; DOT] → resolve absolute kept (u :: us) = resolve absolute (u :: kept) us.
Proof. intros Hu. simpl. by rewrite decide_False. Qed.

Lemma resolve_first u us : resolve false [] (u :: us) = resolve false [u] us.
Proof. simpl. by case_decide; [subst|]. Qed.

Lemma resolve_pop absolute kept t us :
  t ≠ [DOT; DOT] → resolve absolute (t :: kept) ([DOT; DOT] :: us) = resolve absolute kept us.
Proof. intros Ht. simpl. by rewrite decide_False. Qed.

Lemma resolve_keep absolute kept us :
  resolve absolute ([DOT; DOT] :: kept) ([DOT; DOT] :: us) = resolve absolute ([DOT; DOT] :: [DOT; DOT] :: kept) us.
Proof. done. Qed.

Lemma render_length absolute kept t r :
  good t → Forall good kept →
  (length (render absolute (rev kept)) < length (before absolute kept ++ t ++ SLASH :: r))%nat.
Proof.
  intros Ht Hk. destruct (good_inv t Ht) as (c & t' & -> & _). destruct kept as [|k kept].
  - rewrite !length_app. destruct absolute; simpl; lia.
  - simpl rev. rewrite <-before_render, before_snoc, !length_app. simpl. lia.
Qed.

Abbreviation loop_a n := (∀ rest m, Forall good rest → rest ≠ [] → (2 * length (SLASH :: join_slash rest) < n)%nat →
  ends_in (iterate n dotdot_step ((SLASH :: join_slash rest, m), 0)) (SLASH :: join_slash rest, m)
    (render true (resolve true [] rest))).

Abbreviation loop_b n := (∀ absolute kept a b rest m, good (a ++ b) → Forall good kept → Forall good rest →
  let path := before absolute kept ++ join_slash ((a ++ b) :: rest) in
  let p := length (before absolute kept ++ a) in
  (2 * length path < n + p)%nat →
  ends_in (iterate n dotdot_step ((path, m), Z.of_nat p)) (path, m)
    (render absolute (resolve absolute ((a ++ b) :: kept) rest))).

Lemma loop_a_step n : loop_a n → loop_b n → loop_a (S n).
Proof.
  intros IHa IHb rest m Hg Hn Hl. destruct rest as [|u us]; [done|]. apply Forall_cons in Hg as [Hu Hus].
  cbn [iterate]. rewrite dotdot_root_step by done. case_decide as Hend.
  { destruct Hend as [-> Hu1]. eexists. split; [done|]. split; [|apply shortens_refl].
    rewrite resolve_normal by (intros ->; done). done. }
  case_decide as Hdd.
  - subst u. destruct us as [|v vs]; [rewrite decide_True by done|rewrite decide_False by done].
    + eexists. split; [done|]. split; [done|]. right. split; [done|]. simpl. lia.
    + eapply ends_in_shorter; [| |apply (IHa (v :: vs) true); [done|done|]]; [| done|];
        rewrite join_cons2 in *; cbn [fst length app] in *; lia.
  - rewrite resolve_normal by done.
    apply (IHb true [] [] u us m); [done|done|done|]. cbn [before app length] in *. simpl in Hl |- *. lia.
Qed.

Lemma loop_b_char n absolute kept a c b rest m :
  loop_b n → good (a ++ c :: b) → Forall good kept → Forall good rest →
  let path := before absolute kept ++ join_slash ((a ++ c :: b) :: rest) in
  let p := length (before absolute kept ++ a) in
  (2 * length path < S n + p)%nat →
  ends_in (iterate (S n) dotdot_step ((path, m), Z.of_nat p)) (path, m)
    (render absolute (resolve absolute ((a ++ c :: b) :: kept) rest)).
Proof.
  intros IHb Ht Hk Hr path p Hl. cbn [iterate].
  assert (E : path = (before absolute kept ++ a) ++ c :: join_slash (b :: rest))
    by (subst path; by rewrite join_app, join_cons, app_assoc).
  assert (Hc : c ≠ SLASH ∧ c ≠ 0 ∧ token b).
  { destruct Ht as ([H1 H2] & _). rewrite elem_of_app, elem_of_cons in H1, H2.
    split; [intros ->; tauto|]. split; [intros ->; tauto|]. split; tauto. }
  destruct Hc as (Hc & Hc0 & Hb). rewrite E. subst p. rewrite dotdot_step_char; [|done|done|].
  2:{ apply join_no_nul. constructor; [done|by apply good_tokens]. }
  rewrite <-E. case_decide as Hlen.
  - assert (rest = []) as ->.
    { destruct rest; [done|]. assert (Hg := good_length _ b Hr ltac:(done)). lia. }
    eexists. split; [done|]. split; [|apply shortens_refl]. subst path. cbn [fst resolve rev].
    apply (before_render absolute kept (a ++ c :: b) []).
  - replace (Z.of_nat (length (before absolute kept ++ a)) + 1) with
      (Z.of_nat (length (before absolute kept ++ a ++ [c]))) by (rewrite !length_app; simpl; lia).
    assert (Et : a ++ c :: b = (a ++ [c]) ++ b) by (by rewrite <-app_assoc).
    assert (H := IHb absolute kept (a ++ [c]) b rest m). rewrite <-Et in H. apply H; try done.
    assert (El : length (before absolute kept ++ a ++ [c]) = S (length (before absolute kept ++ a)))
      by (rewrite !length_app; simpl; lia).
    subst path. lia.
Qed.

Lemma loop_b_end n absolute kept t rest m :
  loop_b n → good t → Forall good kept → Forall good rest →
  let path := before absolute kept ++ join_slash (t :: rest) in
  let p := length (before absolute kept ++ t) in
  (2 * length path < n + p)%nat →
  ends_in (iterate n dotdot_step ((path, m), Z.of_nat p)) (path, m)
    (render absolute (resolve absolute (t :: kept) rest)).
Proof.
  intros IHb Ht Hk Hr path p. assert (H := IHb absolute kept t [] rest m).
  rewrite app_nil_r in H. by apply H.
Qed.

Lemma loop_b_pop n absolute kept us m :
  loop_a n → loop_b n → Forall good kept → Forall good us → us ≠ [] →
  let path := before absolute kept ++ join_slash us in
  (2 * length path < n + (length (before absolute kept) - 1))%nat →
  ends_in (iterate n dotdot_step ((path, m), Z.max 0 (Z.of_nat (length (before absolute kept)) - 1))) (path, m)
    (render absolute (resolve absolute kept us)).
Proof.
  intros IHa IHb Hk Hus Hn path Hl. destruct us as [|v vs]; [done|]. destruct kept as [|k kept].
  - destruct absolute; [apply IHa; [done|done|subst path; simpl in *; lia]|].
    rewrite resolve_first. apply Forall_cons in Hus as [Hv Hvs].
    apply (IHb false [] [] v vs m); [done|done|done|]. subst path. simpl in *. lia.
  - apply Forall_cons in Hk as [Hk Hks].
    assert (E : path = before absolute kept ++ join_slash (k :: v :: vs)).
    { subst path. rewrite before_snoc, join_cons2, <-!app_assoc. done. }
    rewrite E. rewrite before_snoc, !length_app in Hl |- *. cbn [length] in Hl |- *.
    replace (Z.max 0 _) with (Z.of_nat (length (before absolute kept ++ k))) by (rewrite length_app; lia).
    apply loop_b_end; [done|done|done|done|]. rewrite <-E, length_app. lia.
Qed.

Lemma loop_b_slash n absolute kept t rest m :
  loop_a n → loop_b n → good t → Forall good kept → Forall good rest →
  let path := before absolute kept ++ join_slash (t :: rest) in
  let p := length (before absolute kept ++ t) in
  (2 * length path < S n + p)%nat →
  ends_in (iterate (S n) dotdot_step ((path, m), Z.of_nat p)) (path, m)
    (render absolute (resolve absolute (t :: kept) rest)).
Proof.
  intros IHa IHb Ht Hk Hr path p Hl. destruct rest as [|u us].
  { subst path p. cbn [iterate join_slash]. unfold dotdot_step.
    rewrite char_at_end.
    eexists. split; [done|]. split; [apply (before_render absolute kept t [])|apply shortens_refl]. }
  apply Forall_cons in Hr as [Hu Hus].
  assert (E : path = (before absolute kept ++ t) ++ SLASH :: join_slash (u :: us)) by (by rewrite <-app_assoc).
  assert (E2 : path = before absolute (t :: kept) ++ join_slash (u :: us)) by (rewrite before_snoc, E, <-!app_assoc; done).
  cbn [iterate]. rewrite E. subst p. rewrite dotdot_step_slash, <-E by done. case_decide as Hend.
  { destruct Hend as [-> Hu1]. eexists. split; [done|]. split; [|apply shortens_refl].
    rewrite resolve_normal by (intros ->; done). rewrite E2. apply (before_render absolute (t :: kept) u []). }
  case_decide as Hdd; [subst u|].
  2:{ rewrite resolve_normal by done. rewrite E2 in *.
      replace (Z.of_nat (length (before absolute kept ++ t)) + 1) with (Z.of_nat (length (before absolute (t :: kept) ++ [])))
        by (rewrite before_snoc, !length_app; simpl; lia).
      apply (IHb absolute (t :: kept) [] u us m); [done|by constructor|done|].
      rewrite before_snoc in *. rewrite !length_app in *. simpl in *. lia. }
  rewrite length_app. destruct (decide (t = [DOT; DOT])) as [->|Hd].
  - rewrite E, <-app_assoc, at_dotdot_dotdot, app_assoc, <-E, resolve_keep. rewrite E2 in *.
    replace (Z.of_nat (length (before absolute kept) + 2) + 3) with
      (Z.of_nat (length (before absolute ([DOT; DOT] :: kept) ++ [DOT; DOT]))) by (rewrite before_snoc, !length_app; simpl; lia).
    apply loop_b_end; [done|done|by constructor|done|].
    rewrite before_snoc in *. rewrite !length_app in *. simpl in *. lia.
  - assert (Hsh : (length (render absolute (rev kept)) < length path)%nat) by
      (rewrite E, <-app_assoc; by apply render_length).
    rewrite E, <-app_assoc, at_dotdot_normal, app_assoc, <-E, resolve_pop by done. case_decide as Hus0.
    + subst us. eexists. split; [done|]. split; [done|]. right. split; [done|]. exact Hsh.
    + assert (Hlen : length path = (length (before absolute kept ++ join_slash us) + length t + 4)%nat)
        by (rewrite E; destruct us; [done|]; rewrite join_cons2, !length_app; cbn [length]; rewrite length_app; simpl; lia).
      eapply ends_in_shorter; [| |apply loop_b_pop; try done]; [cbn [fst]; lia|done|].
      rewrite length_app in Hl. lia.
Qed.

Lemma loops_ok n : loop_a n ∧ loop_b n.
Proof.
  induction n as [|n [IHa IHb]]; [split; intros; [lia|]|].
  - exfalso. subst path p. revert H2. rewrite join_app, !length_app. lia.
  - split; [by apply loop_a_step|]. intros absolute kept a b rest m Ht Hk Hr path p Hl. destruct b as [|c b].
    + subst path p. rewrite app_nil_r in *. by apply loop_b_slash.
    + by apply loop_b_char.
Qed.

(** *** The parts together *)

Lemma last_loop n absolute cs m :
  Forall good cs → cs ≠ [] → (2 * length (render absolute cs) < n)%nat →
  ends_in (iterate n dotdot_step ((render absolute cs, m), 0)) (render absolute cs, m)
    (render absolute (resolve absolute [] cs)).
Proof.
  intros Hg Hn Hl. destruct (loops_ok n) as [IHa IHb]. destruct absolute; [by apply IHa|].
  destruct cs as [|c cs]; [done|]. apply Forall_cons in Hg as [Hc Hcs]. rewrite resolve_first.
  apply (IHb false [] [] c cs m); [done|done|done|]. simpl in *. lia.
Qed.

(** From the removal of a trailing ["/."] on. *)
Definition end_part (n : nat) (st : pstate) : res pstate :=
  r ← trailing_dot st;
  match r with inr st => Ok st | inl st => iterate n dotdot_step (st, 0) end.

(** From the removal of a leading ["./"] on. *)
Definition tail_part (n : nat) (st : pstate) : res pstate :=
  r ← leading_dot st;
  match r with inr st => Ok st | inl st => end_part n st end.

Lemma end_render n absolute cs m :
  Forall good cs → (2 * length (render absolute cs) < n)%nat →
  ends_in (end_part n (render absolute cs, m)) (render absolute cs, m) (render absolute (resolve absolute [] cs)).
Proof.
  intros Hg Hl. unfold end_part. destruct (decide (cs = [])) as [->|Hn].
  { destruct absolute; eexists; (split; [done|]); split; [done|apply shortens_refl|done|apply shortens_refl]. }
  destruct (render_last absolute cs Hg Hn) as (p & c & E & Hc & Hd).
  destruct (decide (p = [])) as [->|Hp].
  - rewrite E. eexists. split; [done|]. split; [|apply shortens_refl]. cbn [fst app] in *. rewrite <-E.
    destruct absolute; [injection E as <- E; by destruct (join_head cs Hg Hn) as (? & ? & ? & _)|].
    destruct cs as [|g cs]; [done|]. destruct cs as [|h cs].
    + rewrite resolve_first, <-resolve_first, resolve_normal; [done|]. intros ->. done.
    + exfalso. apply Forall_cons in Hg as [_ Hg]. assert (H := good_length _ g Hg ltac:(done)).
      apply (f_equal length) in E. cbn [render length] in E. lia.
  - destruct (exists_last Hp) as (q & d & ->). rewrite E, trailing_dot_none; [|done|].
    + cbn [mbind res_bind]. rewrite <-E. by apply last_loop.
    + intros Hdot. destruct (Hd Hdot) as (q' & d' & Eq & Hd'). by apply app_inj_tail in Eq as [_ ->].
Qed.

Lemma render_nonempty absolute cs : Forall good cs → render absolute cs ≠ [].
Proof.
  intros Hg. destruct absolute; [done|]. destruct cs as [|c cs]; [done|].
  destruct (join_head (c :: cs) Hg ltac:(done)) as (x & r & E & _). cbn [render]. by rewrite E.
Qed.

Lemma end_render_dot n absolute cs m :
  Forall good cs → cs ≠ [] → (2 * length (render absolute cs) < n)%nat →
  ends_in (end_part n (render absolute cs ++ [SLASH; DOT], m)) (render absolute cs ++ [SLASH; DOT], m)
    (render absolute (resolve absolute [] cs)).
Proof.
  intros Hg Hn Hl. unfold end_part. rewrite trailing_dot_some, decide_False by (by apply render_nonempty).
  cbn [mbind res_bind]. eapply ends_in_shorter; [| |by apply last_loop]; [|done].
  cbn [fst]. rewrite length_app. simpl. lia.
Qed.

(** A path that does not start with ["./"]. *)
Lemma leading_dot_render absolute cs suffix m :
  Forall good cs → (suffix = [] ∨ cs ≠ [] ∧ ∃ l, suffix = SLASH :: l) →
  leading_dot (render absolute cs ++ suffix, m) = Ok (inl (render absolute cs ++ suffix, m)).
Proof.
  intros Hg Hs. destruct absolute; [by apply leading_dot_none|]. destruct cs as [|g gs].
  { destruct Hs as [->|[? _]]; done. }
  apply Forall_cons in Hg as [Hg _]. cbn [render]. destruct Hs as [->|[_ (l & ->)]].
  - rewrite app_nil_r. by apply leading_dot_good.
  - rewrite <-join_snoc by done. by apply leading_dot_good.
Qed.

Lemma tail_render n absolute cs m :
  Forall good cs → (2 * length (render absolute cs) < n)%nat →
  ends_in (tail_part n (render absolute cs, m)) (render absolute cs, m) (render absolute (resolve absolute [] cs)).
Proof.
  intros Hg Hl. unfold tail_part. assert (E := leading_dot_render absolute cs [] m Hg (or_introl eq_refl)).
  rewrite app_nil_r in E. rewrite E. by apply end_render.
Qed.

Lemma tail_render_dot n absolute cs m :
  Forall good cs → cs ≠ [] → (2 * length (render absolute cs) < n)%nat →
  ends_in (tail_part n (render absolute cs ++ [SLASH; DOT], m)) (render absolute cs ++ [SLASH; DOT], m)
    (render absolute (resolve absolute [] cs)).
Proof.
  intros Hg Hn Hl. unfold tail_part. rewrite leading_dot_render; [|done|eauto]. by apply end_render_dot.
Qed.

Lemma join_dot_length ts : ts ≠ [] → length (join_slash ([DOT] :: ts)) = (length (join_slash ts) + 2)%nat.
Proof. intros Hn. destruct ts as [|t ts]; [done|]. rewrite join_cons2. cbn [app length]. lia. Qed.

Lemma tail_dot n cs m :
  Forall good cs → cs ≠ [] → (2 * length (join_slash cs) < n)%nat →
  ends_in (tail_part n (join_slash ([DOT] :: cs), m)) (join_slash ([DOT] :: cs), m) (render false (resolve false [] cs)).
Proof.
  intros Hg Hn Hl. destruct (join_head cs Hg Hn) as (c & r & E & _ & Hc). unfold tail_part.
  rewrite leading_dot_some by eauto. cbn [mbind res_bind].
  assert (Er : join_slash cs = render false cs) by (by destruct cs).
  eapply ends_in_shorter; [| |rewrite Er; apply end_render; [done|by rewrite <-Er]]; [|done].
  destruct cs as [|t ts]; [done|]. rewrite join_cons2. cbn [fst app length render]. lia.
Qed.

Lemma tail_dot_dot n cs m :
  Forall good cs → (2 * length (join_slash ([DOT] :: cs)) < n)%nat →
  ends_in (tail_part n (join_slash ([DOT] :: cs ++ [[DOT]]), m)) (join_slash ([DOT] :: cs ++ [[DOT]]), m)
    (render false (resolve false [] cs)).
Proof.
  intros Hg Hl. destruct (decide (cs = [])) as [->|Hn].
  { eexists. split; [done|]. split; [done|]. right. split; [done|]. simpl. lia. }
  destruct (join_head cs Hg Hn) as (c & r & E & _ & Hc).
  assert (Es := join_snoc cs [DOT] Hn). assert (Hn2 : cs ++ [[DOT]] ≠ []) by (by destruct cs).
  assert (Er : join_slash cs = render false cs) by (by destruct cs). unfold tail_part.
  rewrite leading_dot_some; [|done|rewrite Es, E; cbn [app]; eauto]. cbn [mbind res_bind]. rewrite Es.
  eapply ends_in_shorter; [| |rewrite Er; apply end_render_dot; [done|done|]]; [|done|].
  - cbn [fst]. rewrite <-Er, join_dot_length, Es by done. lia.
  - rewrite <-Er. rewrite join_dot_length in Hl by done. lia.
Qed.

(** From the removal of trailing slashes on. *)
Definition middle_part (n : nat) (st : pstate) : res pstate :=
  st ← iterate n trailing_step st; tail_part n st.

Lemma middle_none n p c m path' :
  (0 < n)%nat → c ≠ SLASH →
  ends_in (tail_part n (p ++ [c], m)) (p ++ [c], m) path' →
  ends_in (middle_part n (p ++ [c], m)) (p ++ [c], m) path'.
Proof. intros Hn Hc H. unfold middle_part. destruct n as [|n]; [lia|]. by rewrite trailing_none. Qed.

Lemma middle_one n p c m path' :
  (1 < n)%nat → c ≠ SLASH →
  ends_in (tail_part n (p ++ [c], true)) (p ++ [c], true) path' →
  ends_in (middle_part n ((p ++ [c]) ++ [SLASH], m)) ((p ++ [c]) ++ [SLASH], m) path'.
Proof.
  intros Hn Hc H. unfold middle_part. destruct n as [|[|n]]; [lia..|]. rewrite trailing_one by done.
  cbn [mbind res_bind]. eapply ends_in_shorter; [| |exact H]; [|done]. cbn [fst]. rewrite !length_app. simpl. lia.
Qed.

(** The tokens of a path with the last one apart: the first one is empty for an absolute path. *)
Definition kept_tokens (ts : list (list Z)) : list (list Z) := filter (λ t, t ≠ [] ∧ t ≠ [DOT]) ts.

Lemma kept_good ts : Forall good ts → kept_tokens ts = ts.
Proof. intros H. apply filter_all. eapply Forall_impl; [exact H|]. by intros t (_ & ? & ?). Qed.

Lemma middle_render n absolute cs m :
  Forall good cs → cs ≠ [] → (2 * length (render absolute cs) < n)%nat →
  ends_in (middle_part n (render absolute cs, m)) (render absolute cs, m) (render absolute (resolve absolute [] cs)).
Proof.
  intros Hg Hn Hl. assert (H := tail_render n absolute cs m Hg Hl).
  destruct (render_last absolute cs Hg Hn) as (p & c & E & Hc & _). rewrite E in *.
  apply middle_none; [lia|done|done].
Qed.

Lemma middle_render_slash n absolute cs m :
  Forall good cs → cs ≠ [] → (2 * length (render absolute cs) + 1 < n)%nat →
  ends_in (middle_part n (render absolute cs ++ [SLASH], m)) (render absolute cs ++ [SLASH], m)
    (render absolute (resolve absolute [] cs)).
Proof.
  intros Hg Hn Hl. assert (H := tail_render n absolute cs true Hg ltac:(lia)).
  destruct (render_last absolute cs Hg Hn) as (p & c & E & Hc & _). rewrite E in *.
  apply middle_one; [lia|done|done].
Qed.

Lemma middle_render_dot n absolute cs m :
  Forall good cs → cs ≠ [] → (2 * length (render absolute cs) < n)%nat →
  ends_in (middle_part n (render absolute cs ++ [SLASH; DOT], m)) (render absolute cs ++ [SLASH; DOT], m)
    (render absolute (resolve absolute [] cs)).
Proof.
  intros Hg Hn Hl. assert (H := tail_render_dot n absolute cs m Hg Hn Hl).
  change [SLASH; DOT] with ([SLASH] ++ [DOT]) in *. rewrite app_assoc in *. apply middle_none; [lia|done|done].
Qed.

Lemma token_cases l : token l → l = [] ∨ l = [DOT] ∨ good l.
Proof. intros H. destruct (decide (l = [])); [auto|]. destruct (decide (l = [DOT])); [auto|]. by do 2 right. Qed.

(** A path that starts with the token ["."]. *)
Lemma middle_dot n gs l m :
  Forall good gs → token l → (2 * length (join_slash ([DOT] :: gs ++ [l])) + 1 < n)%nat →
  ends_in (middle_part n (join_slash ([DOT] :: gs ++ [l]), m)) (join_slash ([DOT] :: gs ++ [l]), m)
    (render false (resolve false [] (kept_tokens (gs ++ [l])))).
Proof.
  intros Hg Hl Hn. unfold kept_tokens. rewrite filter_app. fold (kept_tokens gs). rewrite kept_good by done.
  destruct (token_cases l Hl) as [->|[->|Hgl]].
  - change (filter _ [[]]) with (@nil (list Z)). rewrite app_nil_r.
    change (join_slash ([DOT] :: gs ++ [[]])) with (join_slash (([DOT] :: gs) ++ [[]])) in *.
    rewrite join_snoc in * by done. destruct (decide (gs = [])) as [->|Hgs].
    { apply (middle_one n [] DOT m); [rewrite length_app in Hn; lia|done|].
      apply (tail_render n false [] true); [done|]. rewrite length_app in Hn. cbn [render]. cbn [join_slash] in Hn. lia. }
    rewrite length_app in Hn. assert (H := tail_dot n gs true Hg Hgs).
    rewrite join_dot_length in Hn by done. specialize (H ltac:(lia)).
    destruct (join_last gs Hg Hgs) as (p & c & E & Hc & _). destruct gs as [|g gs]; [done|].
    rewrite join_cons2, E in *. change ([DOT] ++ SLASH :: p ++ [c]) with ((DOT :: SLASH :: p) ++ [c]) in *.
    apply middle_one; [lia|done|done].
  - change (filter _ [[DOT]]) with (@nil (list Z)). rewrite app_nil_r.
    assert (H := tail_dot_dot n gs m Hg). change ([DOT] :: gs ++ [[DOT]]) with (([DOT] :: gs) ++ [[DOT]]) in *.
    rewrite join_snoc in * by done. change (SLASH :: [DOT]) with ([SLASH] ++ [DOT]) in *. rewrite app_assoc in *.
    rewrite !length_app in Hn. apply middle_none; [lia|done|]. apply H. lia.
  - assert (Hl1 : Forall good [l]) by (constructor; [done|constructor]).
    change (filter _ [l]) with (kept_tokens [l]). rewrite (kept_good [l]) by done. assert (Hg2 : Forall good (gs ++ [l])) by (by apply Forall_app_2).
    assert (Hn2 : gs ++ [l] ≠ []) by (by destruct gs). rewrite join_dot_length in Hn by done.
    assert (H := tail_dot n (gs ++ [l]) m Hg2 Hn2 ltac:(lia)).
    destruct (join_last (gs ++ [l]) Hg2 Hn2) as (p & c & E & Hc & _).
    assert (Ej : join_slash ([DOT] :: gs ++ [l]) = (DOT :: SLASH :: p) ++ [c]).
    { destruct (gs ++ [l]) as [|g r]; [done|]. by rewrite join_cons2, E. }
    rewrite Ej in *. apply middle_none; [lia|done|done].
Qed.

(** A path that starts with another token, empty for an absolute path. *)
Lemma middle_other n absolute base gs l m :
  (absolute = true ∧ base = gs ∨ absolute = false ∧ ∃ g, base = g :: gs) → Forall good base → token l →
  let path := join_slash (if absolute then [] :: gs ++ [l] else base ++ [l]) in
  (2 * length path + 1 < n)%nat →
  ends_in (middle_part n (path, m)) (path, m) (render absolute (resolve absolute [] (kept_tokens (base ++ [l])))).
Proof.
  intros Hb Hg Hl path Hn. unfold kept_tokens. rewrite filter_app. fold (kept_tokens base). rewrite kept_good by done.
  assert (Hpath : path = if absolute then SLASH :: join_slash (base ++ [l]) else join_slash (base ++ [l])).
  { subst path. destruct Hb as [[-> Hb]|[-> _]]; [rewrite Hb; by destruct gs|done]. }
  clearbody path. destruct (decide (base = [])) as [->|Hne].
  - destruct Hb as [[-> _]|[-> (? & ?)]]; [|done]. cbn [app] in *. subst path.
    destruct (token_cases l Hl) as [->|[->|Hgl]].
    + destruct n as [|n]; [simpl in Hn; lia|]. apply (tail_render (S n) true []); [done|simpl in *; lia].
    + destruct n as [|n]; [simpl in Hn; lia|]. eexists. split; [done|]. split; [done|]. right. split; [done|simpl; lia].
    + assert (Hl1 : Forall good [l]) by (constructor; [done|constructor]).
      change (filter _ [l]) with (kept_tokens [l]). rewrite kept_good by done.
      apply (middle_render n true [l]); [done|done|cbn [render]; lia].
  - assert (Er : ∀ r, r ≠ [] → (if absolute then SLASH :: join_slash r else join_slash r) = render absolute r)
      by (intros r Hr; destruct absolute, r; done).
    destruct (token_cases l Hl) as [->|[->|Hgl]].
    + rewrite join_snoc in Hpath by done. change (filter _ [[]]) with (@nil (list Z)). rewrite app_nil_r.
      assert (E : path = render absolute base ++ [SLASH]) by (rewrite Hpath, <-Er by done; by destruct absolute).
      rewrite E, length_app in *. apply middle_render_slash; [done|done|lia].
    + rewrite join_snoc in Hpath by done. change (filter _ [[DOT]]) with (@nil (list Z)). rewrite app_nil_r.
      assert (E : path = render absolute base ++ [SLASH; DOT]) by (rewrite Hpath, <-Er by done; by destruct absolute).
      rewrite E, length_app in *. apply middle_render_dot; [done|done|lia].
    + assert (Hl1 : Forall good [l]) by (constructor; [done|constructor]).
      change (filter _ [l]) with (kept_tokens [l]). rewrite (kept_good [l]) by done.
      rewrite Er in Hpath by (by destruct base). subst path.
      apply middle_render; [by apply Forall_app_2|by destruct base|lia].
Qed.

(** The path without its doubled slashes and ["/./"]: the tokens after the first are pruned. *)
Lemma pruned_tokens t0 gs l :
  Forall token gs →
  ∃ hs, prune is_dot (prune is_empty (gs ++ [l])) = hs ++ [l] ∧ Forall good hs ∧
    kept_tokens (t0 :: gs ++ [l]) = kept_tokens (t0 :: hs ++ [l]).
Proof.
  intros Hg. rewrite !prune_snoc. eexists. split; [done|]. split.
  - apply Forall_forall. intros t Ht. apply list_elem_of_filter in Ht as [Hd Ht].
    apply list_elem_of_filter in Ht as [He Ht]. rewrite Forall_forall in Hg. split; [by apply Hg|].
    split; [by apply bool_decide_eq_false in He|by apply bool_decide_eq_false in Hd].
  - unfold kept_tokens. change (t0 :: ?a ++ [l]) with ([t0] ++ a ++ [l]). rewrite !filter_app. do 2 f_equal.
    rewrite !list_filter_filter. apply list_filter_iff. intros t.
    unfold is_dot, is_empty. rewrite !bool_decide_eq_false. tauto.
Qed.

Lemma canonical_tokens t0 ts :
  Forall token (t0 :: ts) → join_slash (t0 :: ts) ≠ [] →
  canonical (join_slash (t0 :: ts)) =
    let absolute := bool_decide (t0 = []) in render absolute (resolve absolute [] (kept_tokens (t0 :: ts))).
Proof.
  intros Ht Hn. assert (Ha : is_absolute (join_slash (t0 :: ts)) = bool_decide (t0 = [])).
  { destruct t0 as [|c t]; [by destruct ts|]. rewrite join_cons. apply Forall_cons in Ht as [Ht _].
    apply token_cons in Ht as (Hc%Z.eqb_neq & _). done. }
  unfold canonical, components. rewrite split_join, Ha by done. destruct (join_slash _); done.
Qed.

Lemma single_ok n t0 m :
  token t0 → t0 ≠ [] → (2 * length t0 + 1 < n)%nat →
  ends_in (middle_part n (t0, m)) (t0, m) (render false (resolve false [] (kept_tokens [t0]))).
Proof.
  intros Ht Hne Hn. destruct (token_cases t0 Ht) as [->|[->|Hg]]; [done| |].
  - apply (middle_none n [] DOT m); [lia|done|]. apply (tail_render n false []); [done|simpl in *; lia].
  - assert (Hg1 : Forall good [t0]) by (constructor; [done|constructor]). rewrite kept_good by done.
    apply (middle_render n false [t0]); [done|done|simpl; lia].
Qed.

Lemma prune_tokens P ts : Forall token ts → Forall token (prune P ts).
Proof.
  induction ts as [|t ts IH]; intros Ht; [done|]. apply Forall_cons in Ht as [Ht Hts].
  destruct ts as [|u us]; [by constructor|]. rewrite prune_cons. destruct (P t); [by apply IH|].
  constructor; [done|by apply IH].
Qed.

Lemma shortens_length st st' : shortens st st' → (length st'.1 ≤ length st.1)%nat.
Proof. intros [->|[_ H]]; lia. Qed.

(** From the pruned tokens on. *)
Lemma pruned_ok n t0 ts m :
  Forall token (t0 :: ts) → join_slash (t0 :: ts) ≠ [] →
  let path := join_slash (t0 :: prune is_dot (prune is_empty ts)) in
  (2 * length path + 1 < n)%nat →
  ends_in (middle_part n (path, m)) (path, m) (canonical (join_slash (t0 :: ts))).
Proof.
  intros Ht Hne path Hn. rewrite canonical_tokens by done. cbv zeta. apply Forall_cons in Ht as [Ht0 Hts].
  destruct (decide (ts = [])) as [->|Hts0].
  { rewrite bool_decide_eq_false_2 by done. by apply single_ok. }
  destruct (exists_last Hts0) as (gs & l & ->). apply Forall_app in Hts as [Hgs Hl].
  apply Forall_cons in Hl as [Hl _]. destruct (pruned_tokens t0 gs l Hgs) as (hs & Ep & Hhs & ->).
  subst path. rewrite Ep in *. destruct (token_cases t0 Ht0) as [->|[->|Hg0]].
  - rewrite bool_decide_eq_true_2 by done. apply (middle_other n true hs hs l m); [by left|done|done|done].
  - rewrite bool_decide_eq_false_2 by done. by apply (middle_dot n hs l m).
  - rewrite bool_decide_eq_false_2 by (by destruct Hg0 as (_ & ? & _)).
    apply (middle_other n false (t0 :: hs) hs l m); [right; eauto|by constructor|done|done].
Qed.

Lemma canonicalize_ends path :
  (0 ∉ path) → path ≠ [] → ends_in (u_canonicalize_pathname path) (path, false) (canonical path).
Proof.
  intros H0 Hne. destruct (split_tokens path H0) as [Ht Hn]. assert (Ej := join_split path).
  destruct (split_slash path) as [|t0 ts]; [done|]. unfold u_canonicalize_pathname.
  set (n := (2 * length path + 2)%nat).
  assert (Ht' := Ht). apply Forall_cons in Ht' as [Ht0 Hts].
  destruct (collapse_ok n t0 ts [] false Ht0 Hts ltac:(rewrite Ej; lia)) as ([p1 m1] & E1 & Ep1 & Hs1).
  cbn [app fst length] in *. rewrite Ej in E1, Hs1. change (Z.of_nat 0) with 0 in E1.
  assert (Hl1 := shortens_length _ _ Hs1). cbn [fst] in Hl1. subst p1.
  assert (Htp := prune_tokens is_empty ts Hts).
  destruct (dot_ok n t0 (prune is_empty ts) [] m1 Ht0 Htp ltac:(lia)) as ([p2 m2] & E2 & Ep2 & Hs2).
  cbn [app fst length] in *. change (Z.of_nat 0) with 0 in E2.
  assert (Hl2 := shortens_length _ _ Hs2). cbn [fst] in Hl2. subst p2.
  rewrite E1. cbn [mbind res_bind]. rewrite E2. cbn [mbind res_bind].
  destruct (pruned_ok n t0 ts m2 Ht ltac:(by rewrite Ej) ltac:(lia)) as (st & E3 & Ep3 & Hs3).
  unfold middle_part, tail_part, end_part in E3. exists st. split; [exact E3|]. rewrite Ej in Ep3.
  split; [done|]. eapply shortens_trans; [exact Hs1|]. by eapply shortens_trans.
Qed.

(** C39: [u_canonicalize_pathname] terminates without reading behind the NUL of its argument, for every
    string, and leaves the canonical form of the path: its components, without the empty ones and
    ["."], with each [".."] resolved against the component before it, which stays at the start
    of a relative path and does nothing at the root; the empty relative path is ["."]. It returns
    whether the path was changed. *)
Theorem u_canonicalize_pathname_correct path :
  (0 ∉ path) →
  u_canonicalize_pathname path = Ok (canonical path, bool_decide (canonical path ≠ path)).
Proof.
  intros H0. destruct (decide (path = [])) as [->|Hne]; [done|].
  destruct (canonicalize_ends path H0 Hne) as ([p m] & -> & <- & Hs). cbn [fst]. do 2 f_equal.
  destruct Hs as [[= -> ->]|[Hm Hl]]; cbn [fst snd] in *.
  - by rewrite bool_decide_eq_false_2 by auto.
  - rewrite Hm, bool_decide_eq_true_2; [done|]. intros ->. lia.
Qed.

Lemma u_canonicalize_pathname_correct_witness :
  (0 ∉ BS "/a//./b/../../../c/.") ∧
  u_canonicalize_pathname (BS "/a//./b/../../../c/.") = Ok (BS "/c", true).
Proof.
  assert (H : 0 ∉ BS "/a//./b/../../../c/.").
  { intros H. repeat (apply elem_of_cons in H as [H|H]; [discriminate|]). by apply elem_of_nil in H. }
  split; [exact H|]. exact (u_canonicalize_pathname_correct _ H).
Defined.
