(* ===== verification/HashMap.v ===== *)
(** * The hash table ([UHashMap<void*>], [UHashMap<T*>], [src/ulib/container/hash_map.cpp],
    [include/ulib/container/hash_map.h])

    A table of collision lists; a node is identified by its address and its [next] by the order of its
    list. The object remembers the node and the index of the last search, on which the operations
    [...AfterFind] work. The reference counts of the keys, the construction of elements and the debug
    output are not modelled; [gperf], a perfect hash a program may install, is a parameter, and so is
    [granted], the number of entries [UMemoryPool::_malloc] gives for a request. *)

From stdpp Require Import gmap.
From S2P Require Import Prelude CType Hash.

(** [U_GET_NEXT_PRIME_NUMBER] ([include/ulib/base/hash.h]). *)
Definition prime_steps : list (Z * Z) :=
  [(53, 97); (97, 193); (193, 389); (389, 769); (769, 1543); (1543, 3079); (3079, 6151); (6151, 12289);
   (12289, 24593); (24593, 49157); (49157, 98317); (98317, 196613); (196613, 393241);
   (393241, 786433); (786433, 1572869); (1572869, 3145739); (3145739, 6291469); (6291469, 12582917);
   (12582917, 25165843); (25165843, 50331653); (50331653, 100663319); (100663319, 201326611);
   (201326611, 402653189); (402653189, 805306457); (805306457, 805306457); (1610612741, 3221225473)].

Definition next_prime (sz : Z) : Z :=
  match find (λ s, sz <=? s.1) prime_steps with Some s => s.2 | None => 4294967291 end.

Record hnode := HNode { address : Z; nelem : Z; nkey : list Z; nhash : Z }.

#[global] Instance hnode_eq_dec : EqDecision hnode.
Proof. solve_decision. Defined.

(** The fields of the object; [node] is 0 for the null pointer. *)
Record uhashmap := UHashMap {
  table : list (list hnode); length_ : Z; capacity : Z; ignore_case : bool;
  node : Z; index : Z; hash : Z }.

Definition set_table (m : uhashmap) (t : list (list hnode)) : uhashmap :=
  UHashMap t (length_ m) (capacity m) (ignore_case m) (node m) (index m) (hash m).
Definition set_length (m : uhashmap) (n : Z) : uhashmap :=
  UHashMap (table m) n (capacity m) (ignore_case m) (node m) (index m) (hash m).
Definition set_cursor (m : uhashmap) (node index hash : Z) : uhashmap :=
  UHashMap (table m) (length_ m) (capacity m) (ignore_case m) node index hash.

(** The comparison of keys of the same length: [memcmp] or [strncasecmp], which stops after a NUL. *)
Fixpoint same_nocase (a b : list Z) : bool :=
  match a, b with
  | x :: a', y :: b' => (tolower x =? tolower y) && ((x =? 0) || same_nocase a' b')
  | _, _ => true
  end.

Definition key_equal (ignore_case : bool) (a b : list Z) : bool :=
  (length a =? length b)%nat && (if ignore_case then same_nocase a b else bool_decide (a = b)).

Definition key_hash (ignore_case : bool) (k : list Z) : res Z := u_hash u_seed_hash k (length k) ignore_case.

(** The node a non-null pointer points to; a fault when it is not in the list. *)
Definition deref (bucket : list hnode) (p : Z) : res hnode :=
  match find (λ n, address n =? p) bucket with Some n => Ok n | None => Fail OutOfBounds end.

Section Operations.
Context (gperf : option (list Z → Z)) (granted : Z → Z).

Definition allocate (m : uhashmap) (n : Z) : uhashmap :=
  let n := granted n in
  UHashMap (replicate (Z.to_nat n) []) (length_ m) n (ignore_case m) (node m) (index m) (hash m).

(** [UHashMap(ignore_case)] and [allocate(n)]; the fields of the cursor are not initialised. *)
Definition new_table (ignore_case : bool) (n : Z) : uhashmap :=
  allocate (UHashMap [] 0 0 ignore_case 0 0 0) n.

Definition lookup_key (keyr : list Z) (m : uhashmap) : res uhashmap :=
  r ← match gperf with
      | Some g => Ok (g keyr, hash m)
      | None => h ← key_hash (ignore_case m) keyr; Ok (h mod capacity m, h)
      end;
  let '(index, hash) := r in
  bucket ← rd (table m) index;
  Ok (set_cursor m
    (match find (λ n, key_equal (ignore_case m) (nkey n) keyr) bucket with Some n => address n | None => 0 end)
    index hash).

(** The node the cursor points to. *)
Definition current (m : uhashmap) : res hnode := bucket ← rd (table m) (index m); deref bucket (node m).

Definition size_ (m : uhashmap) : Z := length_ m.

Definition find_key (key : list Z) (m : uhashmap) : res (bool * uhashmap) :=
  m ← lookup_key key m; Ok (negb (node m =? 0), m).

Definition at_key (key : list Z) (m : uhashmap) : res (Z * uhashmap) :=
  m ← lookup_key key m;
  if negb (node m =? 0) then n ← current m; Ok (nelem n, m) else Ok (0, m).

(** [addr] is the address of the new node. *)
Definition insertAfterFind (addr : Z) (key : list Z) (elem : Z) (m : uhashmap) : res uhashmap :=
  bucket ← rd (table m) (index m);
  t ← wr (table m) (index m) (HNode addr elem key (hash m) :: bucket);
  Ok (set_cursor (set_length (set_table m t) (u32 (length_ m + 1))) addr (index m) (hash m)).

Definition insert (addr : Z) (key : list Z) (elem : Z) (m : uhashmap) : res uhashmap :=
  m ← lookup_key key m; insertAfterFind addr key elem m.

Definition replaceAfterFind (elem : Z) (m : uhashmap) : res uhashmap :=
  bucket ← rd (table m) (index m);
  _ ← deref bucket (node m);
  t ← wr (table m) (index m)
    (map (λ n, if address n =? node m then HNode (address n) elem (nkey n) (nhash n) else n) bucket);
  Ok (set_table m t).

(** [UHashMap<T*>::insertAfterFind] and [UHashMap<T*>::insert]: a node found has its element replaced. *)
Definition T_insertAfterFind (addr : Z) (key : list Z) (elem : Z) (m : uhashmap) : res uhashmap :=
  if negb (node m =? 0) then replaceAfterFind elem m else insertAfterFind addr key elem m.

Definition T_insert (addr : Z) (key : list Z) (elem : Z) (m : uhashmap) : res uhashmap :=
  m ← lookup_key key m; T_insertAfterFind addr key elem m.

(** The loop that moves the node found to the front of its list: [front] are the nodes passed, reversed. *)
Fixpoint move_to_front (front bucket : list hnode) (p : Z) : list hnode :=
  match bucket with
  | [] => rev front
  | n :: bucket' =>
      if address n =? p then n :: rev front ++ bucket' else move_to_front (n :: front) bucket' p
  end.

(** [_eraseAfterFind]: the node is moved to the front and unlinked; it is returned, as the pointer is kept. *)
Definition unlinkAfterFind (m : uhashmap) : res (hnode * uhashmap) :=
  bucket ← rd (table m) (index m);
  let bucket := move_to_front [] bucket (node m) in
  n ← deref bucket (node m);
  t ← wr (table m) (index m) (drop 1 bucket);
  Ok (n, set_table m t).

Definition eraseAfterFind (m : uhashmap) : res uhashmap :=
  r ← unlinkAfterFind m; Ok (set_length r.2 (u32 (length_ m - 1))).

Definition erase (key : list Z) (m : uhashmap) : res (Z * uhashmap) :=
  m ← lookup_key key m;
  if negb (node m =? 0) then
    n ← current m;
    m ← eraseAfterFind m; Ok (nelem n, m)
  else Ok (0, m).

Definition replaceKey (key : list Z) (m : uhashmap) : res uhashmap :=
  r ← unlinkAfterFind m;
  let '(pnode, m) := r in
  m ← lookup_key key m;
  bucket ← rd (table m) (index m);
  t ← wr (table m) (index m) (HNode (address pnode) (nelem pnode) key (hash m) :: bucket);
  Ok (set_cursor (set_table m t) (address pnode) (index m) (hash m)).

(** [node->next = table[index]; table[index] = node] for a node of the old table. *)
Definition relink (capacity : Z) (r : res (list (list hnode))) (n : hnode) : res (list (list hnode)) :=
  t ← r;
  let i := nhash n mod capacity in
  bucket ← rd t i; wr t i (n :: bucket).

Definition reserve (n : Z) (m : uhashmap) : res uhashmap :=
  let new_capacity := next_prime n in
  if new_capacity =? capacity m then Ok m
  else
    let m' := allocate m new_capacity in
    t ← fold_left (relink (capacity m')) (concat (table m)) (Ok (table m'));
    Ok (match last (concat (table m)) with
        | Some n => set_cursor (set_table m' t) 0 (nhash n mod capacity m') (hash m)
        | None => set_table m' t
        end).

(** [for (...; index < _capacity; ++index) if (table[index]) ...]: the first list that is not empty,
    from [index] on. *)
Fixpoint first_from (buckets : list (list hnode)) (i : Z) : option (Z * hnode) :=
  match buckets with
  | [] => None
  | [] :: buckets' => first_from buckets' (i + 1)
  | (n :: _) :: _ => Some (i, n)
  end.

Definition first (m : uhashmap) : bool * uhashmap :=
  match first_from (table m) 0 with
  | Some (i, n) => (true, set_cursor m (address n) i (hash m))
  | None => (false, set_cursor m (node m) (capacity m) (hash m))
  end.

(** The node after [p] in its list. *)
Fixpoint next_in (bucket : list hnode) (p : Z) : res (option hnode) :=
  match bucket with
  | [] => Fail OutOfBounds
  | n :: bucket' => if address n =? p then Ok (head bucket') else next_in bucket' p
  end.

Definition next (m : uhashmap) : res (bool * uhashmap) :=
  bucket ← rd (table m) (index m);
  n ← next_in bucket (node m);
  match n with
  | Some n => Ok (true, set_cursor m (address n) (index m) (hash m))
  | None =>
      Ok (match first_from (drop (Z.to_nat (index m + 1)) (table m)) (index m + 1) with
          | Some (i, n) => (true, set_cursor m (address n) i (hash m))
          | None => (false, set_cursor m 0 (capacity m) (hash m))
          end)
  end.

(** The loop of a program over the table: [if (t.first()) do { ... } while (t.next())]. *)
Definition next_step (st : list (list Z * Z) * uhashmap) :
    res (list (list Z * Z) * uhashmap + list (list Z * Z)) :=
  let '(seen, m) := st in
  n ← current m;
  let seen := seen ++ [(nkey n, nelem n)] in
  r ← next m;
  Ok (if r.1 : bool then inl (seen, r.2) else inr seen).

Definition traverse (m : uhashmap) : res (list (list Z * Z)) :=
  let '(b, m) := first m in
  if b : bool then iterate (length (concat (table m))) next_step ([], m) else Ok [].

Definition getKeys (m : uhashmap) : list (list Z) := map nkey (concat (table m)).

(** [callForAllEntry]: the client function has a state of its own, does not change the table, and
    returns whether it called [stopCallForAllEntry]; [stop] is [stop_call_for_all_entry]. *)
Fixpoint call_entries {S} (function : list Z → Z → S → S * bool) (entries : list hnode) (s : S)
    (stop : bool) : S * bool :=
  match entries with
  | [] => (s, stop)
  | n :: entries' =>
      let '(s, b) := function (nkey n) (nelem n) s in
      if stop || b then (s, false) else call_entries function entries' s false
  end.

Definition callForAllEntry {S} (function : list Z → Z → S → S * bool) (m : uhashmap) (s : S)
    (stop : bool) : S * bool :=
  call_entries function (concat (table m)) s stop.

Definition clear (m : uhashmap) : uhashmap :=
  if negb (length_ m =? 0) then
    UHashMap (map (λ _, []) (table m)) 0 (capacity m) (ignore_case m) 0 (capacity m) (hash m)
  else m.

(** [callWithDeleteForAllEntry]: the client function also returns whether the entry is to be removed. The
    flag is looked at before each call; [None] for it is the early return. *)
Fixpoint delete_bucket {S} (function : list Z → Z → S → S * bool * bool) (bucket : list hnode) (s : S)
    (stop : bool) : list hnode * S * option bool :=
  match bucket with
  | [] => ([], s, Some stop)
  | n :: bucket' =>
      if stop then (bucket, s, None)
      else
        let '(s, b, remove) := function (nkey n) (nelem n) s in
        let '(kept, s, r) := delete_bucket function bucket' s b in
        (if remove : bool then kept else n :: kept, s, r)
  end.

Fixpoint delete_table {S} (function : list Z → Z → S → S * bool * bool) (t : list (list hnode)) (s : S)
    (stop : bool) : list (list hnode) * S * option bool :=
  match t with
  | [] => ([], s, Some stop)
  | bucket :: t' =>
      let '(kept, s, r) := delete_bucket function bucket s stop in
      match r with
      | None => (kept :: t', s, None)
      | Some stop => let '(t', s, r) := delete_table function t' s stop in (kept :: t', s, r)
      end
  end.

(** The cursor is left where the loops end; here it stays. *)
Definition callWithDeleteForAllEntry {S} (function : list Z → Z → S → S * bool * bool) (m : uhashmap)
    (s : S) (stop : bool) : uhashmap * S * bool :=
  let '(t, s, r) := delete_table function (table m) s stop in
  (set_table (set_length m (u32 (length_ m - Z.of_nat (length (concat (table m)) - length (concat t))))) t,
   s, match r with None => false | Some stop => stop end).
End Operations.

(** ** Specification: a finite map over keys up to [canon] *)

(** What the table relies on: on the keys used, comparison is equality of [canon], and keys that
    are equal have the same hash. *)
Class KeyLaws (ignore_case : bool) (ok : list Z → Prop) (canon : list Z → list Z) := {
  equal_canon a b : ok a → ok b → key_equal ignore_case a b = bool_decide (canon a = canon b);
  hash_total a : ok a → ∃ h, key_hash ignore_case a = Ok h ∧ 0 <= h;
  hash_canon a b : ok a → ok b → canon a = canon b → key_hash ignore_case a = key_hash ignore_case b }.

Section Invariant.
Context (ic : bool) (ok : list Z → Prop) (canon : list Z → list Z).

Definition nodes (m : uhashmap) : list hnode := concat (table m).

(** A node in list [i]. *)
Definition placed (m : uhashmap) (i : nat) (n : hnode) : Prop :=
  ok (nkey n) ∧ address n ≠ 0 ∧ key_hash (ignore_case m) (nkey n) = Ok (nhash n) ∧
  nhash n mod capacity m = Z.of_nat i.

(** The invariant of the lists, which also holds while [length_] is being brought up to date. *)
Definition table_inv (m : uhashmap) : Prop :=
  0 < capacity m ∧ Z.of_nat (length (table m)) = capacity m ∧
  (∀ i bucket, table m !! i = Some bucket → Forall (placed m i) bucket) ∧
  NoDup (map address (nodes m)) ∧ NoDup (map (λ n, canon (nkey n)) (nodes m)).

Definition hm_inv (m : uhashmap) : Prop :=
  table_inv m ∧ length_ m = u32 (Z.of_nat (length (nodes m))).

Definition entry (n : hnode) : list Z * Z := (canon (nkey n), nelem n).
Definition map_of (l : list hnode) : gmap (list Z) Z := list_to_map (map entry l).
Definition to_map (m : uhashmap) : gmap (list Z) Z := map_of (nodes m).

Definition represents (m : uhashmap) (g : gmap (list Z) Z) : Prop :=
  ignore_case m = ic ∧ hm_inv m ∧ to_map m = g.
End Invariant.

(** The operations of a program, their results, and the same on a finite map. *)
Inductive hop :=
  | Put (addr : Z) (key : list Z) (elem : Z)
  | Get (key : list Z)
  | Has (key : list Z)
  | Erase (key : list Z)
  | Rename (key key' : list Z)
  | Reserve (n : Z)
  | Clear
  | Size.

Definition run_hop (granted : Z → Z) (op : hop) (m : uhashmap) : res (Z * uhashmap) :=
  match op with
  | Put addr key elem => m ← T_insert None addr key elem m; Ok (0, m)
  | Get key => at_key None key m
  | Has key => r ← find_key None key m; Ok (Z.b2z r.1, r.2)
  | Erase key => erase None key m
  | Rename key key' =>
      r ← find_key None key m;
      if r.1 : bool then m ← replaceKey None key' r.2; Ok (1, m) else Ok (0, r.2)
  | Reserve n => m ← reserve granted n m; Ok (0, m)
  | Clear => Ok (0, clear m)
  | Size => Ok (size_ m, m)
  end.

Definition spec_hop (canon : list Z → list Z) (op : hop) (g : gmap (list Z) Z) : Z * gmap (list Z) Z :=
  match op with
  | Put _ key elem => (0, <[canon key := elem]> g)
  | Get key => (default 0 (g !! canon key), g)
  | Has key => (match g !! canon key with Some _ => 1 | None => 0 end, g)
  | Erase key => (default 0 (g !! canon key), delete (canon key) g)
  | Rename key key' =>
      match g !! canon key with
      | Some e => (1, <[canon key' := e]> (delete (canon key) g))
      | None => (0, g)
      end
  | Reserve _ => (0, g)
  | Clear => (0, ∅)
  | Size => (u32 (Z.of_nat (size g)), g)
  end.

(** The keys are among those the laws speak of, a new node's address is not in use, and a key
    is only renamed to one that is not there; [clear] tests a length of 32 bits. *)
Definition hop_ok (ok : list Z → Prop) (canon : list Z → list Z) (op : hop) (m : uhashmap) : Prop :=
  match op with
  | Put addr key _ => ok key ∧ addr ≠ 0 ∧ (addr ∉ map address (nodes m))
  | Get key | Has key | Erase key => ok key
  | Rename key key' => ok key ∧ ok key' ∧ delete (canon key) (to_map canon m) !! canon key' = None
  | Clear => Z.of_nat (length (nodes m)) < 2 ^ 32
  | Reserve _ | Size => True
  end.

#[export] Instance hop_ok_dec ok canon `{!∀ k, Decision (ok k)} op m : Decision (hop_ok ok canon op m).
Proof. destruct op; simpl; apply _. Defined.

(** A program: its operations in order, with their results. *)
Fixpoint run_hops (granted : Z → Z) (ops : list hop) (m : uhashmap) : res (list Z * uhashmap) :=
  match ops with
  | [] => Ok ([], m)
  | op :: ops' =>
      r ← run_hop granted op m; r' ← run_hops granted ops' r.2; Ok (r.1 :: r'.1, r'.2)
  end.

Fixpoint spec_hops (canon : list Z → list Z) (ops : list hop) (g : gmap (list Z) Z) :
    list Z * gmap (list Z) Z :=
  match ops with
  | [] => ([], g)
  | op :: ops' => let r := spec_hop canon op g in
                  let r' := spec_hops canon ops' r.2 in (r.1 :: r'.1, r'.2)
  end.

(** Each operation is used as it may be in the state it meets. *)
Fixpoint hops_ok (ok : list Z → Prop) (canon : list Z → list Z) (granted : Z → Z) (ops : list hop)
    (m : uhashmap) : Prop :=
  match ops with
  | [] => True
  | op :: ops' =>
      hop_ok ok canon op m ∧
      match run_hop granted op m with Ok (_, m') => hops_ok ok canon granted ops' m' | Fail _ => True end
  end.

#[export] Instance hops_ok_dec ok canon `{!∀ k, Decision (ok k)} granted ops m :
  Decision (hops_ok ok canon granted ops m).
Proof.
  revert m. induction ops as [|op ops IH]; intros m; simpl; [apply _|].
  destruct (run_hop granted op m) as [[r m']|f]; apply _.
Defined.

(** ** Lists of lists *)

(** One list and the rest of the table, before and after that list is changed. *)
Lemma concat_split {A} (t : list (list A)) i b :
  t !! i = Some b → ∃ rest, concat t ≡ₚ b ++ rest ∧ ∀ b', concat (<[i := b']> t) ≡ₚ b' ++ rest.
Proof.
  revert i. induction t as [|a t IH]; intros [|i] H; try done.
  - simplify_eq/=. by exists (concat t).
  - destruct (IH i H) as (rest & E & E'). exists (a ++ rest). simpl.
    split; [rewrite E|intros b'; rewrite E']; apply Permutation_app_swap_app.
Qed.

Lemma concat_replicate_nil {A} n : concat (replicate n (@nil A)) = [].
Proof. by induction n. Qed.

Lemma concat_map_nil {A B} (t : list A) : concat (map (λ _, @nil B) t) = [].
Proof. by induction t. Qed.

Lemma wr_lookup {A} (l : list A) i a x : l !! i = Some x → wr l (Z.of_nat i) a = Ok (<[i := a]> l).
Proof.
  intros H%lookup_lt_Some. unfold wr. rewrite Nat2Z.id. zcases; simpl; first [done|lia].
Qed.

(** The node at an address of a list where it occurs once. *)
Section Address.
Context (pre post : list hnode) (n : hnode).
Hypothesis Hnd : NoDup (map address (pre ++ n :: post)).

Lemma other_addresses : Forall (λ x, address x ≠ address n) (pre ++ post).
Proof.
  rewrite map_app in Hnd. simpl in Hnd. apply NoDup_app in Hnd as (_ & Hpre & [Hn _]%NoDup_cons).
  apply Forall_app. split; apply Forall_forall; intros x Hx E.
  - apply (Hpre (address x)); [by apply list_elem_of_fmap_2|]. rewrite E. by left.
  - apply Hn. rewrite <- E. by apply list_elem_of_fmap_2.
Qed.

Lemma deref_at : deref (pre ++ n :: post) (address n) = Ok n.
Proof.
  destruct (proj1 (Forall_app _ _ _) other_addresses) as [Hpre _]. unfold deref. clear Hnd.
  induction Hpre as [|x pre' Hx _ IH]; simpl; zcases; done.
Qed.

Lemma map_at (f : hnode → hnode) :
  map (λ x, if address x =? address n then f x else x) (pre ++ n :: post) = pre ++ f n :: post.
Proof.
  destruct (proj1 (Forall_app _ _ _) other_addresses) as [Hpre Hpost]. clear Hnd.
  assert (H : ∀ l, Forall (λ x, address x ≠ address n) l →
    map (λ x, if address x =? address n then f x else x) l = l).
  { induction 1 as [|x l Hx _ IH]; simpl; [done|]. zcases; [done|]. by rewrite IH. }
  rewrite map_app. simpl. rewrite Z.eqb_refl, !H; done.
Qed.

Lemma move_to_front_at front :
  move_to_front front (pre ++ n :: post) (address n) = n :: rev front ++ pre ++ post.
Proof.
  destruct (proj1 (Forall_app _ _ _) other_addresses) as [Hpre _]. clear Hnd.
  revert front. induction Hpre as [|x pre' Hx _ IH]; intros front; simpl.
  - by rewrite Z.eqb_refl.
  - zcases; [done|]. rewrite IH. simpl. by rewrite <- app_assoc.
Qed.

Lemma next_in_at : next_in (pre ++ n :: post) (address n) = Ok (head post).
Proof.
  destruct (proj1 (Forall_app _ _ _) other_addresses) as [Hpre _]. clear Hnd.
  induction Hpre as [|x pre' Hx _ IH]; simpl; zcases; done.
Qed.
End Address.

(** ** The table as a map *)

Section Refinement.
Context {ic : bool} {ok : list Z → Prop} {canon : list Z → list Z} `{!KeyLaws ic ok canon}.
Context (granted : Z → Z).

Implicit Types (m : uhashmap) (n : hnode) (l : list hnode) (k : list Z).

Abbreviation key_of := (λ n, canon (nkey n)).

Lemma map_of_cons n l : map_of canon (n :: l) = <[canon (nkey n) := nelem n]> (map_of canon l).
Proof. done. Qed.

Lemma fst_entry l : map fst (map (entry canon) l) = map key_of l.
Proof. rewrite map_map. done. Qed.

Lemma map_of_perm l l' : NoDup (map key_of l) → l ≡ₚ l' → map_of canon l = map_of canon l'.
Proof.
  intros H E. unfold map_of. apply list_to_map_proper; [|by rewrite E].
  change (NoDup (map fst (map (entry canon) l))). by rewrite fst_entry.
Qed.

Lemma map_of_None l c : map_of canon l !! c = None ↔ c ∉ map key_of l.
Proof.
  unfold map_of. rewrite <- not_elem_of_list_to_map. 
  change (c ∉ map fst (map (entry canon) l) ↔ c ∉ map key_of l). by rewrite fst_entry.
Qed.

Lemma map_of_size l : NoDup (map key_of l) → size (map_of canon l) = length l.
Proof.
  intros H. unfold map_of. rewrite map_size_list_to_map; [apply length_map|].
  change (NoDup (map fst (map (entry canon) l))). by rewrite fst_entry.
Qed.

(** What an operation has to establish when it changes one list. *)
Lemma table_inv_update m m' (i : nat) b b' rest :
  table_inv ok canon m → table m !! i = Some b → (∀ b', concat (<[i := b']> (table m)) ≡ₚ b' ++ rest) →
  table m' = <[i := b']> (table m) → capacity m' = capacity m → ignore_case m' = ignore_case m →
  Forall (placed ok m i) b' → NoDup (map address (b' ++ rest)) → NoDup (map key_of (b' ++ rest)) →
  table_inv ok canon m' ∧ nodes m' ≡ₚ b' ++ rest.
Proof.
  intros (Hc & Hl & Hp & _) Hi Hrest Ht Hcap Hic Hb' Ha Hk.
  assert (E : nodes m' ≡ₚ b' ++ rest) by (unfold nodes; rewrite Ht; apply Hrest).
  split; [|done]. repeat split.
  - by rewrite Hcap.
  - by rewrite Ht, length_insert, Hcap.
  - intros j bj. rewrite Ht. intros Hj. unfold placed. rewrite Hcap, Hic. destruct (decide (j = i)) as [->|Hne].
    + rewrite list_lookup_insert_eq in Hj by (by apply lookup_lt_Some in Hi). by simplify_eq.
    + rewrite list_lookup_insert_ne in Hj by done. by apply Hp.
  - by rewrite E.
  - by rewrite E.
Qed.

(** Apply it to the table of the goal. *)
Ltac updated m i b b' rest :=
  match goal with
  | |- table_inv _ _ ?m' ∧ _ => destruct (table_inv_update m m' i b b' rest) as [Hi' Hn']
  end.

(** [lookup]: the list of the key, and either its node in there or no such key in the table. *)
Lemma lookup_spec m k :
  table_inv ok canon m → ignore_case m = ic → ok k →
  ∃ (i : nat) b h p, lookup_key None k m = Ok (set_cursor m p (Z.of_nat i) h) ∧ table m !! i = Some b ∧
    key_hash ic k = Ok h ∧ h mod capacity m = Z.of_nat i ∧
    ((∃ pre n post, b = pre ++ n :: post ∧ p = address n ∧ p ≠ 0 ∧ canon (nkey n) = canon k) ∨
     p = 0 ∧ (canon k ∉ map key_of (nodes m))).
Proof.
  intros (Hc & Hl & Hp & _) Hic Hk. destruct (hash_total k Hk) as (h & Eh & Hh).
  assert (Hr := Z.mod_pos_bound h (capacity m) Hc).
  destruct (lookup_lt_is_Some_2 (table m) (Z.to_nat (h mod capacity m))) as [b Hb]; [lia|].
  exists (Z.to_nat (h mod capacity m)), b, h. rewrite Z2Nat.id by lia. eexists.
  unfold lookup_key. rewrite Hic, Eh. cbn [mbind res_bind].
  pose proof (rd_lookup _ _ _ Hb) as Erd. rewrite Z2Nat.id in Erd by lia. rewrite Erd. cbn [mbind res_bind].
  splits; [done..|]. assert (Hbp := Hp _ _ Hb).
  assert (Hf : ∀ n, n ∈ b → key_equal ic (nkey n) k = bool_decide (canon (nkey n) = canon k)).
  { intros n Hn. rewrite Forall_forall in Hbp. apply equal_canon; [apply (Hbp n Hn)|done]. }
  destruct (find _ b) as [n|] eqn:E.
  - left. apply find_some in E as [Hin%list_elem_of_In Ek].
    apply list_elem_of_split in Hin as Hs. destruct Hs as (pre & post & ->). exists pre, n, post.
    rewrite Forall_forall in Hbp. rewrite Hf in Ek by done. apply bool_decide_eq_true in Ek.
    splits; try done. apply (Hbp n Hin).
  - right. split; [done|]. intros Hin. apply list_elem_of_fmap in Hin as (n & En & Hn).
    unfold nodes in Hn. apply list_elem_of_In, in_concat in Hn as (bj & Hbj & Hn).
    apply list_elem_of_In, list_elem_of_lookup in Hbj as [j Hj]. assert (Hpj := Hp _ _ Hj).
    apply list_elem_of_In in Hn. rewrite Forall_forall in Hpj. destruct (Hpj n Hn) as (Hok & _ & Hhash & Hmod).
    rewrite Hic, (hash_canon (nkey n) k), Eh in Hhash by done.
    injection Hhash as Ehn. rewrite <- Ehn in Hmod.
    assert (j = Z.to_nat (h mod capacity m)) as -> by lia.
    rewrite Hb in Hj. injection Hj as <-.
    eapply find_none in E; [|by apply list_elem_of_In]. simpl in E.
    rewrite Hf in E by done. by apply bool_decide_eq_false in E.
Qed.

(** [lookup] only looks at the list of the key. *)
Lemma lookup_at m k (i : nat) b h :
  ignore_case m = ic → key_hash ic k = Ok h → h mod capacity m = Z.of_nat i → table m !! i = Some b →
  lookup_key None k m
  = Ok (set_cursor m (match find (λ n, key_equal ic (nkey n) k) b with Some n => address n | None => 0 end)
         (Z.of_nat i) h).
Proof.
  intros Hic Hh Hi Hb. unfold lookup_key. rewrite Hic, Hh. cbn [mbind res_bind].
  by rewrite Hi, (rd_lookup _ _ _ Hb).
Qed.

(** A new node in front of its list. *)
Lemma front_spec m (i : nat) b addr k e h :
  table_inv ok canon m → ignore_case m = ic → ok k → table m !! i = Some b →
  key_hash ic k = Ok h → h mod capacity m = Z.of_nat i → (canon k ∉ map key_of (nodes m)) →
  addr ≠ 0 → (addr ∉ map address (nodes m)) →
  ∃ t, wr (table m) (Z.of_nat i) (HNode addr e k h :: b) = Ok t ∧
    ∀ m', table m' = t → capacity m' = capacity m → ignore_case m' = ignore_case m →
    table_inv ok canon m' ∧ nodes m' ≡ₚ HNode addr e k h :: nodes m.
Proof.
  intros Hm Hic Hk Hb Hh Hi Hnew Ha Hfresh. rewrite (wr_lookup _ _ _ _ Hb). eexists. split; [done|].
  intros m' Ht' Hc' Hic'. destruct (concat_split _ _ _ Hb) as (rest & E & E').
  pose proof Hm as (_ & _ & Hp & Hnd & Hnk). unfold nodes in *. rewrite E in *.
  apply (table_inv_update m m' i b (HNode addr e k h :: b) rest); try done.
  - constructor; [|by apply Hp]. unfold placed. by rewrite Hic.
  - simpl. by apply NoDup_cons.
  - simpl. by apply NoDup_cons.
Qed.

Lemma insertAfterFind_spec m (i : nat) b h p addr k e :
  table_inv ok canon m → ignore_case m = ic → ok k → table m !! i = Some b →
  key_hash ic k = Ok h → h mod capacity m = Z.of_nat i → (canon k ∉ map key_of (nodes m)) →
  addr ≠ 0 → (addr ∉ map address (nodes m)) →
  ∃ m', insertAfterFind addr k e (set_cursor m p (Z.of_nat i) h) = Ok m' ∧ table_inv ok canon m' ∧
    nodes m' ≡ₚ HNode addr e k h :: nodes m ∧ ignore_case m' = ic ∧ length_ m' = u32 (length_ m + 1).
Proof.
  intros Hm Hic Hk Hb Hh Hi Hnew Ha Hfresh.
  destruct (front_spec m i b addr k e h) as (t & Et & Hf); try done. unfold insertAfterFind.
  cbn [table set_cursor index hash length_]. rewrite (rd_lookup _ _ _ Hb). cbn [mbind res_bind].
  rewrite Et. cbn [mbind res_bind]. eexists. split; [done|].
  match goal with |- table_inv _ _ ?m' ∧ _ => by destruct (Hf m') as [? ?] end.
Qed.

(** The node found is taken out of its list, which is reordered. *)
Lemma unlinkAfterFind_spec m (i : nat) pre n post h :
  table_inv ok canon m → table m !! i = Some (pre ++ n :: post) →
  ∃ m', unlinkAfterFind (set_cursor m (address n) (Z.of_nat i) h) = Ok (n, m') ∧ table_inv ok canon m' ∧
    nodes m ≡ₚ n :: nodes m' ∧ ignore_case m' = ignore_case m ∧ length_ m' = length_ m.
Proof.
  intros Hm Hb. unfold unlinkAfterFind. cbn [table set_cursor index node].
  rewrite (rd_lookup _ _ _ Hb). cbn [mbind res_bind].
  destruct (concat_split _ _ _ Hb) as (rest & E & E'). pose proof Hm as (_ & _ & Hp & Hnd & Hnk).
  unfold nodes in *. rewrite E in *.
  assert (Hnd' : NoDup (map address (pre ++ n :: post))) by (rewrite map_app in Hnd; by apply NoDup_app in Hnd as [? _]).
  assert (Ed : deref (n :: pre ++ post) (address n) = Ok n).
  { apply (deref_at [] (pre ++ post) n). clear -Hnd'. by rewrite <- Permutation_middle in Hnd'. }
  rewrite (move_to_front_at pre post n Hnd'). cbn [rev app]. rewrite Ed. cbn [mbind res_bind]. rewrite (wr_lookup _ _ _ _ Hb). cbn [mbind res_bind]. eexists. split; [done|].
  assert (Ep : (pre ++ n :: post) ++ rest ≡ₚ n :: (pre ++ post) ++ rest) by by rewrite <- Permutation_middle.
  rewrite Ep in Hnd, Hnk. apply NoDup_cons in Hnd as [_ Hnd], Hnk as [_ Hnk].
  updated m i (pre ++ n :: post) (pre ++ post) rest; [exact Hm|exact Hb|exact E'|done..| |exact Hnd|exact Hnk|].
  - apply Hp in Hb. apply Forall_app in Hb as [? [_ ?]%Forall_cons].
    by apply Forall_app.
  - splits; [exact Hi'| |done|done]. unfold nodes in Hn'. simpl in Hn' |- *. by rewrite Hn', E, Ep.
Qed.

(** The element of the node found is replaced. *)
Lemma replaceAfterFind_spec m (i : nat) pre n post h e :
  table_inv ok canon m → table m !! i = Some (pre ++ n :: post) →
  ∃ m' l, replaceAfterFind e (set_cursor m (address n) (Z.of_nat i) h) = Ok m' ∧ table_inv ok canon m' ∧
    nodes m ≡ₚ n :: l ∧ nodes m' ≡ₚ HNode (address n) e (nkey n) (nhash n) :: l ∧
    ignore_case m' = ignore_case m ∧ length_ m' = length_ m.
Proof.
  intros Hm Hb. unfold replaceAfterFind. cbn [table set_cursor index node].
  rewrite (rd_lookup _ _ _ Hb). cbn [mbind res_bind].
  destruct (concat_split _ _ _ Hb) as (rest & E & E'). pose proof Hm as (_ & _ & Hp & Hnd & Hnk).
  unfold nodes in *. rewrite E in *.
  assert (Hnd' : NoDup (map address (pre ++ n :: post))) by (rewrite map_app in Hnd; by apply NoDup_app in Hnd as [? _]).
  rewrite (deref_at _ _ _ Hnd'). cbn [mbind res_bind].
  rewrite (map_at _ _ _ Hnd' (λ n, HNode (address n) e (nkey n) (nhash n))), (wr_lookup _ _ _ _ Hb).
  cbn [mbind res_bind]. eexists _, ((pre ++ post) ++ rest). split; [done|].
  assert (Ep : ∀ n, (pre ++ n :: post) ++ rest ≡ₚ n :: (pre ++ post) ++ rest) by (intros; by rewrite <- Permutation_middle).
  updated m i (pre ++ n :: post) (pre ++ HNode (address n) e (nkey n) (nhash n) :: post) rest;
    [exact Hm|exact Hb|exact E'|done..| | | |].
  - apply Hp in Hb. apply Forall_app in Hb as [? [Hn ?]%Forall_cons]. apply Forall_app. split; [done|].
    constructor; [exact Hn|done].
  - rewrite Ep in Hnd |- *. exact Hnd.
  - rewrite Ep in Hnk |- *. exact Hnk.
  - splits; [exact Hi'|by rewrite E, Ep| |done|done]. unfold nodes in Hn'. simpl in Hn' |- *. by rewrite Hn', Ep.
Qed.

(** The nodes of the old table are put in front of the lists of the new one. *)
Lemma relink_all m l t :
  0 < capacity m → Z.of_nat (length t) = capacity m →
  (∀ i b, t !! i = Some b → Forall (placed ok m i) b) →
  Forall (λ n, ok (nkey n) ∧ address n ≠ 0 ∧ key_hash (ignore_case m) (nkey n) = Ok (nhash n)) l →
  ∃ t', fold_left (relink (capacity m)) l (Ok t) = Ok t' ∧ Z.of_nat (length t') = capacity m ∧
    (∀ i b, t' !! i = Some b → Forall (placed ok m i) b) ∧ concat t' ≡ₚ l ++ concat t.
Proof.
  intros Hc Hl Hp Hall. revert t Hl Hp. induction Hall as [|n l (Hk & Ha & Hh) _ IH]; intros t Hl Hp; [by exists t|].
  assert (Hr := Z.mod_pos_bound (nhash n) (capacity m) Hc).
  destruct (lookup_lt_is_Some_2 t (Z.to_nat (nhash n mod capacity m))) as [b Hb]; [lia|].
  pose proof (rd_lookup _ _ _ Hb) as Erd. pose proof (wr_lookup _ _ (n :: b) _ Hb) as Ewr.
  rewrite Z2Nat.id in Erd, Ewr by lia.
  cbn [fold_left]. unfold relink at 2. cbn [mbind res_bind]. rewrite Erd. cbn [mbind res_bind]. rewrite Ewr.
  destruct (IH (<[Z.to_nat (nhash n mod capacity m) := n :: b]> t)) as (t' & E & Hl' & Hp' & Hperm).
  - by rewrite length_insert.
  - intros i b'. destruct (decide (i = Z.to_nat (nhash n mod capacity m))) as [->|Hne]; intros Hb'.
    + rewrite list_lookup_insert_eq in Hb' by lia. injection Hb' as <-. constructor; [|by apply Hp].
      repeat split; [done..|]. lia.
    + rewrite list_lookup_insert_ne in Hb' by done. by apply Hp.
  - exists t'. splits; [done..|]. rewrite Hperm. destruct (concat_split _ _ _ Hb) as (rest & E1 & E2).
    rewrite E1, E2. simpl. by rewrite <- Permutation_middle.
Qed.

Lemma next_prime_pos sz : 0 < next_prime sz.
Proof.
  unfold next_prime. destruct (find _ _) as [s|] eqn:E; [|done].
  apply find_some in E as [Hin _].
  assert (H : forallb (λ s, 0 <? s.2) prime_steps = true) by reflexivity.
  rewrite forallb_forall in H. specialize (H _ Hin). simpl in H. lia.
Qed.

Lemma reserve_spec m sz :
  (∀ sz, 0 < sz → 0 < granted sz) → table_inv ok canon m →
  ∃ m', reserve granted sz m = Ok m' ∧ table_inv ok canon m' ∧ nodes m' ≡ₚ nodes m ∧
    ignore_case m' = ignore_case m ∧ length_ m' = length_ m.
Proof.
  intros Hg Hm. unfold reserve. destruct (Z.eqb_spec (next_prime sz) (capacity m)); [by exists m|].
  pose proof (Hg _ (next_prime_pos sz)) as Hpos.
  pose proof Hm as (Hc & Hl & Hp & Hnd & Hnk).
  destruct (relink_all (allocate granted m (next_prime sz)) (nodes m) (table (allocate granted m (next_prime sz))))
    as (t & Et & Htl & Htp & Hperm).
  - done.
  - simpl. rewrite length_replicate. lia.
  - intros i b Hb. simpl in Hb. apply lookup_replicate in Hb as [-> _]. done.
  - unfold nodes. apply Forall_forall. intros x (b & Hb & Hx)%list_elem_of_In%in_concat.
    apply list_elem_of_In, list_elem_of_lookup in Hb as [i Hi]. apply list_elem_of_In in Hx.
    specialize (Hp _ _ Hi). rewrite Forall_forall in Hp. destruct (Hp x Hx) as (? & ? & ? & _). done.
  - unfold nodes in Et. rewrite Et. cbn [mbind res_bind]. eexists. split; [done|].
    simpl in Hperm. rewrite concat_replicate_nil, app_nil_r in Hperm.
    destruct (last _) as [n'|]; (split; [|done]); repeat split; try done; unfold nodes; simpl; by rewrite Hperm.
Qed.

Lemma to_map_cons m n l :
  table_inv ok canon m → nodes m ≡ₚ n :: l →
  to_map canon m = <[canon (nkey n) := nelem n]> (map_of canon l) ∧ map_of canon l !! canon (nkey n) = None.
Proof.
  intros (_ & _ & _ & _ & Hnk) E. split; [by apply (map_of_perm _ (n :: l))|].
  rewrite E in Hnk. apply NoDup_cons in Hnk as [Hn _]. by apply map_of_None.
Qed.

(** The refinement, operation by operation. *)
Definition implemented (op : hop) (m : uhashmap) : Prop :=
  ∃ r m', run_hop granted op m = Ok (r, m') ∧ r = (spec_hop canon op (to_map canon m)).1 ∧
    represents ic ok canon m' (spec_hop canon op (to_map canon m)).2.

Section Step.
Context (m : uhashmap) (Hic : ignore_case m = ic) (Hm : hm_inv ok canon m).

Lemma put_implemented addr k e : hop_ok ok canon (Put addr k e) m → implemented (Put addr k e) m.
Proof.
  intros (Hk & Ha & Hfresh). destruct Hm as [Ht Hlen]. unfold implemented, represents. simpl. unfold T_insert, T_insertAfterFind.
  destruct (lookup_spec m k Ht Hic Hk) as (i & b & h & p & -> & Hb & Hh & Hi & [H|[-> Hnew]]); cbn [mbind res_bind].
  - destruct H as (pre & n & post & -> & -> & Hp & En). simpl. destruct (Z.eqb_spec (address n) 0); [done|]. simpl.
    destruct (replaceAfterFind_spec m i pre n post h e Ht Hb) as (m' & l & -> & Ht' & El & El' & Hic' & Hlen').
    cbn [mbind res_bind]. eexists _, _. splits; [done..| |split; [done|]|].
    + by rewrite Hic', Hic.
    + by rewrite Hlen', Hlen, El, El'.
    + destruct (to_map_cons _ _ _ Ht' El') as [-> _], (to_map_cons _ _ _ Ht El) as [-> _].
      simpl. by rewrite En, insert_insert_eq.
  - simpl. destruct (insertAfterFind_spec m i b h 0 addr k e) as (m' & -> & Ht' & El & Hic' & Hlen'); try done.
    cbn [mbind res_bind]. eexists _, _. splits; [done..|split; [done|]|].
    + rewrite Hlen', Hlen, El. simpl. unfold u32. rewrite Zplus_mod_idemp_l. f_equal. lia.
    + by destruct (to_map_cons _ _ _ Ht' El) as [-> _].
Qed.

(** After a lookup, the table is what it was, and the node is that of the key. *)
Lemma lookup_map k :
  ok k → ∃ (i : nat) h p, lookup_key None k m = Ok (set_cursor m p (Z.of_nat i) h) ∧
    ((∃ pre n post, table m !! i = Some (pre ++ n :: post) ∧ p = address n ∧ (address n =? 0) = false ∧
       canon (nkey n) = canon k ∧ to_map canon m !! canon k = Some (nelem n) ∧
       current (set_cursor m p (Z.of_nat i) h) = Ok n) ∨
     p = 0 ∧ to_map canon m !! canon k = None).
Proof.
  intros Hk. destruct Hm as [Ht Hlen].
  destruct (lookup_spec m k Ht Hic Hk) as (i & b & h & p & E & Hb & Hh & Hi & [H|[-> Hnew]]);
    exists i, h; [|exists 0; split; [done|right]; split; [done|by apply map_of_None]].
  destruct H as (pre & n & post & -> & -> & Hp & En). exists (address n). split; [done|left].
  exists pre, n, post. destruct (concat_split _ _ _ Hb) as (rest & Er & _).
  pose proof Ht as (_ & _ & _ & Hnd & _). unfold nodes in Hnd. rewrite Er, map_app in Hnd.
  apply NoDup_app in Hnd as [Hnd _]. splits; try done.
  - by apply Z.eqb_neq.
  - rewrite <- Permutation_middle in Er. destruct (to_map_cons _ _ _ Ht Er) as [-> _].
    by rewrite En, lookup_insert_eq.
  - unfold current. simpl. rewrite (rd_lookup _ _ _ Hb). cbn [mbind res_bind]. by apply deref_at.
Qed.

Lemma found_implemented k : ok k → implemented (Get k) m ∧ implemented (Has k) m.
Proof.
  intros Hk. unfold implemented. simpl. unfold at_key, find_key.
  destruct (lookup_map k Hk) as (i & h & p & -> & [(pre & n & post & Hb & -> & Hp & _ & E & Ec)|[-> E]]);
    rewrite E; cbn [mbind res_bind]; simpl; rewrite ?Hp; simpl; rewrite ?Ec; cbn [mbind res_bind];
    split; eexists _, _; splits; try done; by split; [|split].
Qed.

Lemma erase_implemented k : ok k → implemented (Erase k) m.
Proof.
  intros Hk. unfold implemented, represents. simpl. unfold erase.
  destruct (lookup_map k Hk) as (i & h & p & -> & [(pre & n & post & Hb & -> & Hp & En & E & Ec)|[-> E]]);
    rewrite E; cbn [mbind res_bind]; simpl.
  - rewrite Hp. simpl. rewrite Ec. cbn [mbind res_bind]. unfold eraseAfterFind. destruct Hm as [Ht Hlen].
    destruct (unlinkAfterFind_spec m i pre n post h Ht Hb) as (m' & -> & Ht' & El & Hic' & Hlen').
    cbn [mbind res_bind]. eexists _, _. splits; [done..| |split; [done|]|]; simpl.
    + by rewrite Hic', Hic.
    + rewrite Hlen, El. simpl. unfold u32. rewrite Zminus_mod_idemp_l. f_equal. unfold nodes. simpl. lia.
    + destruct (to_map_cons _ _ _ Ht El) as [-> Hn]. rewrite En in *. by rewrite delete_insert_id.
  - eexists _, _. splits; [done..|]. simpl. by rewrite delete_id.
Qed.

Lemma rename_implemented k k' : hop_ok ok canon (Rename k k') m → implemented (Rename k k') m.
Proof.
  intros (Hk & Hk' & Hnone). unfold implemented, represents. simpl. unfold find_key.
  destruct (lookup_map k Hk) as (i & h & p & -> & [(pre & n & post & Hb & -> & Hp & En & E & Ec)|[-> E]]);
    rewrite E; cbn [mbind res_bind]; simpl; [|by eexists _, _].
  rewrite Hp. simpl. unfold replaceKey. destruct Hm as [Ht Hlen]. pose proof Ht as (_ & _ & _ & Hnd & _).
  destruct (unlinkAfterFind_spec m i pre n post h Ht Hb) as (m' & -> & Ht' & El & Hic' & Hlen').
  cbn [mbind res_bind]. destruct (to_map_cons _ _ _ Ht El) as [Em Hn]. rewrite En in *.
  rewrite Em, delete_insert_id in Hnone by done.
  destruct (lookup_spec m' k' Ht' ltac:(by rewrite Hic') Hk') as (i' & b' & h' & p' & -> & Hb' & Hh' & Hi' & Hf).
  destruct Hf as [(pre' & n' & post' & -> & _ & _ & En')|[-> Hnew]].
  { exfalso. apply map_of_None in Hnone. apply Hnone. rewrite <- En'. unfold nodes.
    destruct (concat_split _ _ _ Hb') as (rest & Er & _). rewrite Er, <- app_assoc, map_app.
    apply elem_of_app. right. left. }
  cbn [mbind res_bind table set_cursor index hash]. rewrite (rd_lookup _ _ _ Hb'). cbn [mbind res_bind].
  rewrite El in Hnd. apply NoDup_cons in Hnd as [Hfresh _].
  destruct (front_spec m' i' b' (address n) k' (nelem n) h') as (t & -> & Hf); try done; [by rewrite Hic'|by apply Z.eqb_neq|].
  cbn [mbind res_bind]. eexists _, _. split; [done|split; [done|]]. simpl.
  match goal with |- _ ∧ hm_inv _ _ ?m'' ∧ _ => destruct (Hf m'') as [Ht'' El'']; [done..|] end.
  splits; [|split; [exact Ht''|]|].
  - simpl. by rewrite Hic', Hic.
  - simpl. by rewrite Hlen', Hlen, El, El''.
  - destruct (to_map_cons _ _ _ Ht'' El'') as [-> _]. simpl. by rewrite Em, delete_insert_id.
Qed.

Lemma reserve_implemented sz : (∀ sz, 0 < sz → 0 < granted sz) → implemented (Reserve sz) m.
Proof.
  intros Hg. destruct Hm as [Ht Hlen]. unfold implemented, represents. simpl.
  destruct (reserve_spec m sz Hg Ht) as (m' & -> & Ht' & El & Hic' & Hlen').
  cbn [mbind res_bind]. eexists _, _. splits; [done..|by rewrite Hic'|split; [done|]|].
  - by rewrite Hlen', Hlen, El.
  - destruct Ht as (_ & _ & _ & _ & Hnk). symmetry. by apply map_of_perm.
Qed.

Lemma clear_implemented : Z.of_nat (length (nodes m)) < 2 ^ 32 → implemented Clear m.
Proof.
  intros Hlt. destruct Hm as [Ht Hlen]. pose proof Ht as (Hc & Hl & Hp & _). unfold implemented, represents. simpl.
  eexists _, _. split; [done|split; [done|]]. rewrite u32_small in Hlen by lia. unfold clear.
  destruct (Z.eqb_spec (length_ m) 0) as [E|E]; simpl.
  - destruct (nodes m) eqn:En; [|simpl in Hlen; lia]. unfold to_map. rewrite En.
    splits; [done|split; [done|by rewrite En]|done].
  - unfold to_map, nodes, hm_inv, table_inv, nodes. simpl. rewrite concat_map_nil. splits; try done.
    + by rewrite length_map.
    + intros i b (x & -> & _)%list_lookup_fmap_Some. done.
    + apply NoDup_nil_2.
    + apply NoDup_nil_2.
Qed.

Lemma size_implemented : implemented Size m.
Proof.
  destruct Hm as [Ht Hlen]. pose proof Ht as (_ & _ & _ & _ & Hnk). unfold implemented. simpl. eexists _, _.
  splits; [done| |done]. unfold size_, to_map. by rewrite map_of_size.
Qed.
End Step.

Lemma new_table_represents sz :
  0 < granted sz → represents ic ok canon (new_table granted ic sz) ∅.
Proof.
  intros Hg. unfold represents, hm_inv, table_inv, to_map, nodes. simpl. rewrite concat_replicate_nil. splits; try done.
  - rewrite length_replicate. lia.
  - intros i b [-> _]%lookup_replicate. done.
  - apply NoDup_nil_2.
  - apply NoDup_nil_2.
Qed.

Lemma hop_implemented op m :
  (∀ sz, 0 < sz → 0 < granted sz) → ignore_case m = ic → hm_inv ok canon m → hop_ok ok canon op m →
  implemented op m.
Proof.
  intros Hg Hic Hm Hok. destruct op.
  - by apply put_implemented.
  - by apply found_implemented.
  - by apply found_implemented.
  - by apply erase_implemented.
  - by apply rename_implemented.
  - by apply reserve_implemented.
  - by apply clear_implemented.
  - by apply size_implemented.
Qed.

(** The first list that is not empty. *)
Lemma first_from_spec t j :
  match first_from t j with
  | Some (i, n) => ∃ (k : nat) post, i = j + Z.of_nat k ∧ t !! k = Some (n :: post) ∧ concat (take k t) = []
  | None => concat t = []
  end.
Proof.
  revert j. induction t as [|[|n b] t IH]; intros j; simpl.
  - done.
  - specialize (IH (j + 1)). destruct (first_from t (j + 1)) as [[i n]|]; [|done].
    destruct IH as (k & post & -> & Hk & Hc). exists (S k), post. simpl. split; [lia|done].
  - exists 0%nat, b. simpl. split; [lia|done].
Qed.
Lemma run_hops_implemented ops m :
  (∀ sz, 0 < sz → 0 < granted sz) → ignore_case m = ic → hm_inv ok canon m → hops_ok ok canon granted ops m →
  ∃ m', run_hops granted ops m = Ok ((spec_hops canon ops (to_map canon m)).1, m') ∧
    represents ic ok canon m' (spec_hops canon ops (to_map canon m)).2.
Proof.
  intros Hg. revert m. induction ops as [|op ops IH]; intros m Hic Hm Hok; simpl; [by exists m|].
  destruct Hok as [Hop Hok]. destruct (hop_implemented op m Hg Hic Hm Hop) as (r & m' & E & -> & Hic' & Hm' & <-).
  rewrite E in Hok |- *. cbn [mbind res_bind]. destruct (IH m' Hic' Hm' Hok) as (m'' & E' & Hm'').
  simpl. rewrite E'. by exists m''.
Qed.
End Refinement.

(** ** The loop over the entries *)

Section Traverse.
Context (ok : list Z → Prop) (canon : list Z → list Z) (t : list (list hnode)).
Context (Hnd : NoDup (map address (concat t))).

Definition kv (n : hnode) : list Z * Z := (nkey n, nelem n).

(** The nodes before the cursor have been seen. *)
Definition at_node (st : list (list Z * Z) * uhashmap) (i : nat) pre n post : Prop :=
  table st.2 = t ∧ t !! i = Some (pre ++ n :: post) ∧ index st.2 = Z.of_nat i ∧ node st.2 = address n ∧
  st.1 = map kv (concat (take i t) ++ pre).

Lemma bucket_nodup i b : t !! i = Some b → NoDup (map address b).
Proof.
  intros Hb. destruct (concat_split _ _ _ Hb) as (rest & E & _). rewrite E, map_app in Hnd.
  by apply NoDup_app in Hnd as [? _].
Qed.

Lemma concat_at i b : t !! i = Some b → concat t = concat (take i t) ++ b ++ concat (drop (S i) t).
Proof. intros Hb. rewrite <- (take_drop_middle t i b Hb) at 1. by rewrite concat_app. Qed.

Lemma next_step_at st i pre n post :
  at_node st i pre n post →
  match next_step st with
  | Ok (inl st') => (∃ i' pre' n' post', at_node st' i' pre' n' post') ∧ st'.1 = st.1 ++ [kv n]
  | Ok (inr r) => r = map kv (concat t)
  | Fail _ => False
  end.
Proof.
  destruct st as [seen m]. intros (Ht & Hb & Hi & Hn & Hs). simpl in Ht, Hi, Hn, Hs.
  pose proof (bucket_nodup _ _ Hb) as Hnb. unfold next_step, current, next.
  rewrite Ht, Hi, Hn, (rd_lookup _ _ _ Hb). cbn [mbind res_bind].
  rewrite (deref_at _ _ _ Hnb). cbn [mbind res_bind]. rewrite (next_in_at _ _ _ Hnb). cbn [mbind res_bind].
  destruct post as [|n' post]; simpl.
  - pose proof (first_from_spec (drop (Z.to_nat (Z.of_nat i + 1)) t) (Z.of_nat i + 1)) as Hf.
    replace (Z.to_nat (Z.of_nat i + 1)) with (S i) in * by lia.
    destruct (first_from _ _) as [[j n']|]; simpl.
    + destruct Hf as (k & post & -> & Hk & Hc). split; [|done]. exists (S i + k)%nat, [], n', post.
      rewrite lookup_drop in Hk. unfold at_node. splits; simpl; [done|done|lia|done|].
      rewrite Hs, app_nil_r, <- Nat.add_succ_l, <- take_take_drop, concat_app, Hc, app_nil_r.
      rewrite (take_S_r _ _ _ Hb), concat_app. simpl. by rewrite app_nil_r, app_assoc, (map_app _ _ [n]).
    + rewrite Hs, (concat_at _ _ Hb), Hf, !map_app, app_nil_r. simpl. by rewrite app_assoc.
  - split; [|done]. exists i, (pre ++ [n]), n', post. unfold at_node. splits; simpl; [done| |done|done|].
    + by rewrite Hb, <- app_assoc.
    + by rewrite Hs, app_assoc, (map_app _ _ [n]).
Qed.

Lemma traverse_list m : table m = t → traverse m = Ok (map kv (concat t)).
Proof.
  intros Ht. unfold traverse, first. pose proof (first_from_spec t 0) as Hf. rewrite Ht.
  destruct (first_from t 0) as [[i n]|]; [|by rewrite Hf]. destruct Hf as (k & post & -> & Hk & Hc).
  edestruct (iterate_total next_step
    (λ st, ∃ i pre n post, at_node st i pre n post) (λ r, r = map kv (concat t))
    (λ st, length (concat t) - S (length st.1))%nat) as (r & Er & Hr); [| | |rewrite Er; by f_equal].
  - intros st (i & pre & n' & post' & Hat). pose proof (next_step_at _ _ _ _ _ Hat) as Hstep.
    destruct (next_step st) as [[st'|r]|]; [|done|done]. destruct Hstep as [Hst' Es]. split; [done|].
    destruct Hst' as (i' & pre' & n'' & post'' & _ & Hb' & _ & _ & Es'). rewrite Es.
    apply (f_equal length) in Es'. rewrite Es, (concat_at _ _ Hb') in *. 
    rewrite length_map, !length_app in *. simpl in *. lia.
  - exists k, [], n, post. unfold at_node. splits; simpl; [done|done|lia|done|]. by rewrite Hc.
  - simpl. rewrite Ht, (concat_at _ _ Hk), !length_app. simpl. lia.
Qed.
End Traverse.

(** ** Keys for which the table keeps its promise *)

Lemma key_hash_total ic k : bytes k → ∃ h, key_hash ic k = Ok h ∧ 0 <= h.
Proof.
  intros Hk. destruct (u_hash_string u_seed_hash k ic Hk) as (s & tl & _ & _ & _ & E).
  eexists. split; [exact E|]. apply murmur_fmix_range.
Qed.

(** The keys that are compared byte by byte. *)
#[export] Instance exact_keys : KeyLaws false bytes id.
Proof.
  split.
  - intros a b _ _. unfold key_equal. destruct (decide (a = b)) as [->|Hne].
    + by rewrite Nat.eqb_refl, !bool_decide_eq_true_2.
    + by rewrite !bool_decide_eq_false_2, andb_false_r.
  - apply key_hash_total.
  - intros a b _ _ E. by unfold id in E; rewrite E.
Qed.

(** The keys of a table that ignores case: without NUL, and in lower case after the last block of
    four bytes, which the hash does not fold. *)
Definition nocase_key (k : list Z) : Prop :=
  bytes k ∧ (0 ∉ k) ∧ Forall (λ c, tolower c = c) (drop (length k / 4 * 4) k).

#[export] Instance nocase_key_dec k : Decision (nocase_key k).
Proof. unfold nocase_key. apply _. Defined.

Lemma same_nocase_map a b :
  0 ∉ a → length a = length b → same_nocase a b = bool_decide (map tolower a = map tolower b).
Proof.
  revert b. induction a as [|x a IH]; intros [|y b] H0 Hl; try done. simpl. apply not_elem_of_cons in H0 as [Hx H0].
  destruct (Z.eqb_spec x 0); [done|]. rewrite orb_false_l, (IH b) by (done || simpl in Hl; lia).
  destruct (Z.eqb_spec (tolower x) (tolower y)) as [E|E]; simpl.
  - rewrite E. apply bool_decide_ext. by split; [intros ->|intros [= ?]].
  - symmetry. apply bool_decide_eq_false. congruence.
Qed.

Lemma map_fixed {A} (f : A → A) l : Forall (λ x, f x = x) l → map f l = l.
Proof. induction 1 as [|x l E _ IH]; simpl; [done|]. by rewrite E, IH. Qed.

Lemma tail_is_drop (s tl : list Z) : (length s mod 4 = 0)%nat → (length tl < 4)%nat →
  drop (length (s ++ tl) / 4 * 4) (s ++ tl) = tl.
Proof.
  intros Hs Hl. assert (Hd := Nat.div_mod_eq (length s) 4). rewrite length_app.
  replace ((length s + length tl) / 4 * 4)%nat with (length s); [apply drop_app_length|].
  rewrite (Nat.div_mod_eq (length s) 4) at 2. rewrite Hs, Nat.add_0_r, (Nat.mul_comm 4), Nat.div_add_l by lia.
  rewrite (Nat.div_small (length tl)) by lia. lia.
Qed.

#[export] Instance nocase_keys : KeyLaws true nocase_key (map tolower).
Proof.
  split.
  - intros a b (_ & H0 & _) _. unfold key_equal. destruct (Nat.eqb_spec (length a) (length b)) as [E|E].
    + by apply same_nocase_map.
    + symmetry. apply bool_decide_eq_false. intros Em. apply E.
      by rewrite <- (length_map tolower a), Em, length_map.
  - intros a [Ha _]. by apply key_hash_total.
  - intros a b (Ha & _ & Hta) (Hb & _ & Htb) E. unfold key_hash.
    assert (El : length a = length b) by by rewrite <- (length_map tolower a), E, length_map.
    destruct (u_hash_string u_seed_hash a true Ha) as (s & tl & -> & Hs & Hl & ->).
    destruct (u_hash_string u_seed_hash b true Hb) as (s' & tl' & -> & Hs' & Hl' & ->).
    rewrite tail_is_drop in Hta, Htb by done. rewrite El. rewrite !length_app in El.
    assert (length s = length s') by (assert (Hd := Nat.div_mod_eq (length s) 4);
      assert (Hd' := Nat.div_mod_eq (length s') 4); lia).
    rewrite !map_app in E. apply app_inj_1 in E as [E Et]; [|by rewrite !length_map].
    rewrite (map_fixed _ _ Hta), (map_fixed _ _ Htb) in Et. rewrite !murmur_fold_nocase.
    by rewrite <- (map_u__tolower s), <- (map_u__tolower s'), E, Et.
Qed.

(** ** Properties *)

(** C1: the hash table implements a finite map. From an empty table, of any size, any sequence of
    insertions, lookups, removals, changes of key, resizings, clearings and size queries completes without
    a fault, every operation returns what it returns on a finite map of the keys, up to the equality the
    table compares keys with, and the final table holds the final map. *)
Theorem hashmap_refines_map (ic : bool) ok canon `{!KeyLaws ic ok canon} (granted : Z → Z) n ops :
  (∀ n, 0 < n → 0 < granted n) → 0 < n →
  hops_ok ok canon granted ops (new_table granted ic n) →
  ∃ m', run_hops granted ops (new_table granted ic n) = Ok ((spec_hops canon ops ∅).1, m') ∧
    represents ic ok canon m' (spec_hops canon ops ∅).2.
Proof.
  intros Hg Hn Hok. destruct (new_table_represents (ok:=ok) (canon:=canon) (ic:=ic) granted n (Hg n Hn)) as (Hic & Hm & E).
  rewrite <- E. by apply run_hops_implemented.
Qed.

Definition sample_ops : list hop :=
  [Put 1 (BS "Key1") 10; Put 2 (BS "Key2x") 20; Put 3 (BS "KEY1") 11; Get (BS "key1"); Has (BS "none");
   Rename (BS "kEY1") (BS "Key3"); Reserve 100; Get (BS "KEY3"); Erase (BS "key2x"); Size; Clear; Size].

Lemma hashmap_refines_map_witness :
  hops_ok nocase_key (map tolower) id sample_ops (new_table id true 53) ∧
  ∃ m', run_hops id sample_ops (new_table id true 53) = Ok ([0; 0; 0; 11; 0; 1; 0; 11; 20; 1; 0; 0], m') ∧
    represents true nocase_key (map tolower) m' ∅.
Proof.
  assert (Hok : hops_ok nocase_key (map tolower) id sample_ops (new_table id true 53)).
  { apply (bool_decide_eq_true_1 (hops_ok nocase_key (map tolower) id sample_ops (new_table id true 53))).
    vm_compute. reflexivity. }
  split; [exact Hok|].
  assert (E : spec_hops (map tolower) sample_ops ∅ = ([0; 0; 0; 11; 0; 1; 0; 11; 20; 1; 0; 0], ∅))
    by (vm_compute; reflexivity).
  destruct (hashmap_refines_map true nocase_key (map tolower) id 53 sample_ops) as (m' & Er & H);
    [done|lia|exact Hok|]. rewrite E in Er, H. exists m'. exact (conj Er H).
Defined.

(** C2: the loop [if (t.first()) do ... while (t.next())] ends and stays in the table; the keys it meets
    are those of [getKeys], no two of them equal, and an entry is met exactly when the map the table
    stands for has it. *)
Theorem hashmap_traverse_entries ok canon m :
  table_inv ok canon m →
  ∃ seen, traverse m = Ok seen ∧ map fst seen = getKeys m ∧ NoDup (map canon (map fst seen)) ∧
    ∀ c e, to_map canon m !! c = Some e ↔ ∃ k, (k, e) ∈ seen ∧ canon k = c.
Proof.
  intros (_ & _ & _ & Hnd & Hnk). exists (map kv (nodes m)).
  rewrite (traverse_list (table m) Hnd) by done. splits; [done|by rewrite map_map|by rewrite !map_map|].
  intros c e. unfold to_map, map_of. rewrite <- elem_of_list_to_map by by rewrite <- fst_entry in Hnk.
  split.
  - intros (n & [= -> ->] & Hn)%list_elem_of_fmap. exists (nkey n). split; [|done].
    by apply (list_elem_of_fmap_2 kv).
  - intros (k & (n & [= -> ->] & Hn)%list_elem_of_fmap & <-). by apply (list_elem_of_fmap_2 (entry canon)).
Qed.

(** A table with two entries in one list. *)
Definition sample_table : uhashmap :=
  match run_hops id [Put 1 (BS "abc") 10; Put 2 (BS "xy") 20; Put 3 (BS "xyz") 30] (new_table id false 1) with
  | Ok (_, m) => m
  | Fail _ => new_table id false 1
  end.

Lemma sample_table_inv : hm_inv bytes id sample_table.
Proof.
  unfold sample_table.
  destruct (run_hops_implemented (ok:=bytes) (canon:=id) id
    [Put 1 (BS "abc") 10; Put 2 (BS "xy") 20; Put 3 (BS "xyz") 30] (new_table id false 1)) as (m & -> & _ & Hm & _).
  - done.
  - done.
  - apply (new_table_represents (ok:=bytes) (canon:=id) (ic:=false) id 1). done.
  - apply (bool_decide_eq_true_1 (hops_ok bytes id id
      [Put 1 (BS "abc") 10; Put 2 (BS "xy") 20; Put 3 (BS "xyz") 30] (new_table id false 1))).
    vm_compute. reflexivity.
  - exact Hm.
Qed.

Lemma hashmap_traverse_entries_witness :
  table_inv bytes id sample_table ∧ ∃ seen, traverse sample_table = Ok seen ∧ map fst seen = getKeys sample_table.
Proof.
  split; [apply sample_table_inv|].
  destruct (hashmap_traverse_entries bytes id sample_table) as (seen & H1 & H2 & _); [apply sample_table_inv|].
  exists seen. split; [exact H1|exact H2].
Defined.

(** [UHashMap<void*>::insert] on a key that is there does not overwrite its value: the size grows, the
    new value hides the old one, and erasing the key brings the old one back. *)
Theorem hashmap_insert_shadows (ic : bool) ok canon `{!KeyLaws ic ok canon} addr k e e0 m :
  ignore_case m = ic → hm_inv ok canon m → ok k → addr ≠ 0 → to_map canon m !! canon k = Some e0 →
  ∃ m1 m2 m3 m4, insert None addr k e m = Ok m1 ∧ length_ m1 = u32 (length_ m + 1) ∧
    at_key None k m1 = Ok (e, m2) ∧ erase None k m2 = Ok (e, m3) ∧ at_key None k m3 = Ok (e0, m4).
Proof.
  intros Hic Hm Hk Ha He. pose proof Hm as [Ht Hlen]. unfold insert.
  destruct (lookup_spec m k Ht Hic Hk) as (i & b & h & p & -> & Hb & Hh & Hi & _).
  cbn [mbind res_bind]. unfold insertAfterFind. cbn [table set_cursor index hash length_].
  rewrite (rd_lookup _ _ _ Hb). cbn [mbind res_bind]. rewrite (wr_lookup _ _ _ _ Hb). cbn [mbind res_bind].
  set (m1 := set_cursor (set_length (set_table m (<[i:=HNode addr e k h :: b]> (table m))) (u32 (length_ m + 1)))
    addr (Z.of_nat i) h).
  assert (Hb1 : table m1 !! i = Some (HNode addr e k h :: b))
    by (apply list_lookup_insert_eq; by apply lookup_lt_Some in Hb).
  assert (El : lookup_key None k m1 = Ok m1).
  { rewrite (lookup_at m1 k i _ h) by done. simpl. by rewrite equal_canon, bool_decide_eq_true_2. }
  assert (Ec : current m1 = Ok (HNode addr e k h)).
  { unfold current. cbn [index node set_cursor m1]. rewrite (rd_lookup _ _ _ Hb1). cbn [mbind res_bind].
    unfold deref. simpl. by rewrite Z.eqb_refl. }
  assert (En : negb (node m1 =? 0) = true) by (apply negb_true_iff; by apply Z.eqb_neq).
  set (m3 := set_length (set_table m1 (table m)) (u32 (u32 (length_ m + 1) - 1))).
  destruct (found_implemented id m3 Hic) with (k := k) as [(r & m4 & Er & -> & _) _]; [|done|].
  { split; [exact Ht|]. change (u32 (u32 (length_ m + 1) - 1) = u32 (Z.of_nat (length (nodes m)))). rewrite Hlen.
    unfold u32. Z.div_mod_to_equations. lia. }
  exists m1, m1, m3, m4. splits; [done|done| | |].
  - unfold at_key. rewrite El. cbn [mbind res_bind]. by rewrite En, Ec.
  - unfold erase, eraseAfterFind, unlinkAfterFind. rewrite El. cbn [mbind res_bind]. rewrite En, Ec. cbn [mbind res_bind].
    cbn [index node set_cursor m1]. fold m1. rewrite (rd_lookup _ _ _ Hb1). cbn [mbind res_bind]. simpl.
    rewrite Z.eqb_refl. simpl. unfold deref. simpl. rewrite Z.eqb_refl. cbn [mbind res_bind].
    rewrite (wr_lookup _ _ _ _ Hb1). cbn [mbind res_bind]. simpl. by rewrite list_insert_insert_eq, list_insert_id.
  - change (at_key None k m3 = Ok (default 0 (to_map canon m !! canon k), m4)) in Er. by rewrite Er, He.
Qed.

Lemma hashmap_insert_shadows_witness :
  ∃ m1 m2 m3 m4, insert None 4 (BS "xy") 99 sample_table = Ok m1 ∧ length_ m1 = 4 ∧
    at_key None (BS "xy") m1 = Ok (99, m2) ∧ erase None (BS "xy") m2 = Ok (99, m3) ∧
    at_key None (BS "xy") m3 = Ok (20, m4).
Proof.
  apply (hashmap_insert_shadows false bytes id 4 (BS "xy") 99 20 sample_table);
    [reflexivity|apply sample_table_inv| |done|vm_compute; reflexivity].
  repeat (constructor; [unfold is_byte; lia|]). constructor.
Defined.

(** A table that ignores case does not find a key in the other letter case when the hash, which does
    not fold the last bytes of a key, sends the two elsewhere, although the comparison says they are
    equal: [A] is stored, [a] is not found, a second [insert] adds a second entry. With keys of four
    letters it is found. *)
Theorem hashmap_ignore_case_misses :
  key_equal true (BS "A") (BS "a") = true ∧
  (∃ m, run_hops id [Put 1 (BS "A") 10; Has (BS "a"); Put 2 (BS "a") 20; Get (BS "A"); Size] (new_table id true 53)
    = Ok ([0; 0; 0; 10; 2], m)) ∧
  (∃ m, run_hops id [Put 1 (BS "KEYS") 10; Has (BS "keys"); Put 2 (BS "keys") 20; Get (BS "Keys"); Size]
      (new_table id true 53)
    = Ok ([0; 1; 0; 20; 1], m)).
Proof. split; [reflexivity|]. split; eexists; vm_compute; reflexivity. Qed.
