(* ===== verification/Timer.v ===== *)
(** * Time values, events and the timer list ([src/ulib/timeval.cpp], [include/ulib/timeval.h],
    [src/ulib/event/event_time.cpp], [src/ulib/timer.cpp])

    A [UTimer] node holds an alarm; [first] is the list of deadlines and [pool] the nodes to use again. The
    clock ([gettimeofday]) and the virtual [handlerTime] of the alarms are parameters: the handler changes
    a state of the program's own and does not touch the list. [setitimer] is recorded as the value it is
    given. Seconds and microseconds are the [long]s of the program, of 64 bits: the instants and the delays of the
    theorems are below [2 ^ 50] seconds, so that no sum or product leaves the type ([longs_in_range]). *)

From stdpp Require Import sorting.
From S2P Require Import Prelude.

(** ** Time values *)

Definition U_SECOND : Z := 1000000.

Record timeval := TimeVal { tv_sec : Z; tv_usec : Z }.

#[global] Instance timeval_eq_dec : EqDecision timeval.
Proof. solve_decision. Defined.

(** The division of C truncates. *)
Definition adjust (t : timeval) : timeval :=
  let riporto := tv_usec t `quot` U_SECOND in
  let t := if negb (riporto =? 0) then TimeVal (tv_sec t + riporto) (tv_usec t `rem` U_SECOND) else t in
  if tv_usec t <? 0 then TimeVal (tv_sec t - 1) (tv_usec t + U_SECOND) else t.

Definition isZero (t : timeval) : bool := (tv_sec t =? 0) && (tv_usec t =? 0).
Definition isNegativ (t : timeval) : bool := (tv_sec t <? 0) || (tv_usec t <? 0).
Definition add (t : timeval) (sec micro_sec : Z) : timeval := adjust (TimeVal (tv_sec t + sec) (tv_usec t + micro_sec)).
Definition sub (t : timeval) (sec micro_sec : Z) : timeval := adjust (TimeVal (tv_sec t - sec) (tv_usec t - micro_sec)).
Definition add_micro (t : timeval) (micro_sec : Z) : timeval :=
  add t (micro_sec `quot` U_SECOND) (micro_sec `rem` U_SECOND).
Definition sub_micro (t : timeval) (micro_sec : Z) : timeval :=
  sub t (micro_sec `quot` U_SECOND) (micro_sec `rem` U_SECOND).
Definition getSecond (t : timeval) : Z := tv_sec t + (if 500000 <=? tv_usec t then 1 else 0).
Definition getMilliSecond (t : timeval) : Z := tv_sec t * 1000 + tv_usec t `quot` 1000.
Definition timeval_less (a b : timeval) : bool :=
  (tv_sec a <? tv_sec b) || ((tv_sec a =? tv_sec b) && (tv_usec a <? tv_usec b)).

(** ** Events: a delay, and the time it is counted from *)

Record event := Event { eid : Z; delay : timeval; ctime : timeval }.

#[global] Instance event_eq_dec : EqDecision event.
Proof. solve_decision. Defined.

Definition expire_sec (e : event) : Z := tv_sec (ctime e) + tv_sec (delay e).
Definition expire_usec (e : event) : Z := tv_usec (ctime e) + tv_usec (delay e).

Definition event_less (a b : event) : bool :=
  (expire_sec a <? expire_sec b) || ((expire_sec a =? expire_sec b) && (expire_usec a <? expire_usec b)).

Definition isOld (u_now : timeval) (e : event) : bool :=
  (expire_sec e <? tv_sec u_now) || ((expire_sec e =? tv_sec u_now) && (expire_usec e <? tv_usec u_now)).

Definition isExpired (u_now : timeval) (e : event) : bool :=
  let diff := (expire_sec e - tv_sec u_now) * 1000 + (expire_usec e - tv_usec u_now) `quot` 1000 in
  if diff <=? 0 then true
  else
    let delta := getMilliSecond (delay e) `quot` 128 in
    diff <=? delta.

Definition setTimerVal (u_now : timeval) (e : event) : timeval :=
  adjust (TimeVal (expire_sec e - tv_sec u_now) (expire_usec e - tv_usec u_now)).

(** ** The list of timers *)

(** [pool] holds nodes with or without an alarm; [ticks] counts the readings of the clock. *)
Record timers := Timers {
  first : list event; pool : list (option event); u_now : timeval; it_value : timeval; ticks : nat }.

Section Timers.
Context {E : Type} (async : bool) (gettimeofday : nat → timeval) (handlerTime : event → E → Z * E).

Definition read_clock (s : timers) : timers :=
  Timers (first s) (pool s) (gettimeofday (ticks s)) (it_value s) (S (ticks s)).

Definition set_first (s : timers) (l : list event) : timers := Timers l (pool s) (u_now s) (it_value s) (ticks s).
Definition set_pool (s : timers) (l : list (option event)) : timers := Timers (first s) l (u_now s) (it_value s) (ticks s).
Definition setitimer (s : timers) (t : timeval) : timers := Timers (first s) (pool s) (u_now s) t (ticks s).

(** The loop of [insertEntry]: in front of the first node that is later. *)
Fixpoint insert_sorted (e : event) (l : list event) : list event :=
  match l with
  | [] => [e]
  | x :: l' => if event_less e x then e :: l else x :: insert_sorted e l'
  end.

Definition insertEntry (e : event) (s : timers) : timers :=
  let s := read_clock s in
  set_first s (insert_sorted (Event (eid e) (delay e) (u_now s)) (first s)).

Definition callHandlerTime (e : event) (s : timers) (env : E) : timers * E :=
  let '(result, env) := handlerTime e env in
  if result =? 0 then (insertEntry e s, env)
  else (set_pool s ((if async then None else Some e) :: pool s), env).

(** One round of the loop of [setTimer]. *)
Definition setTimer_step (bsignal : bool) (st : timers * E) : res (timers * E + timers * E) :=
  let '(s, env) := st in
  match first s with
  | [] => Ok (inr (setitimer s (TimeVal 0 0), env))
  | item :: next =>
      if (if bsignal then isExpired (u_now s) item else isOld (u_now s) item) then
        Ok (inl (callHandlerTime item (set_first s next) env))
      else Ok (inr (setitimer s (setTimerVal (u_now s) item), env))
  end.

Definition setTimer (fuel : nat) (bsignal : bool) (s : timers) (env : E) : res (timers * E) :=
  iterate fuel (setTimer_step bsignal) (read_clock s, env).

(** A node of the pool is used again. *)
Definition insert (fuel : nat) (a : event) (set_timer : bool) (s : timers) (env : E) : res (timers * E) :=
  let s := insertEntry a (set_pool s (drop 1 (pool s))) in
  if set_timer then setTimer fuel false s env else Ok (s, env).

(** The loop of [erase]; [a] is the address of the alarm. *)
Fixpoint erase_first (a : Z) (l : list event) : list event * bool :=
  match l with
  | [] => ([], false)
  | e :: l' => if eid e =? a then (l', true) else let '(l', found) := erase_first a l' in (e :: l', found)
  end.

Definition erase (fuel : nat) (a : Z) (flag_reuse set_timer : bool) (s : timers) (env : E) : res (timers * E) :=
  let '(l, found) := erase_first a (first s) in
  let s := set_first s l in
  let s := if found && flag_reuse then set_pool s (None :: pool s) else s in
  if set_timer then setTimer fuel false s env else Ok (s, env).

Definition clear (s : timers) : timers := set_pool (set_first s []) [].

Definition stop (s : timers) : timers := setitimer s (TimeVal 0 0).

Definition isHandler (a : Z) (s : timers) : bool := existsb (λ e, eid e =? a) (first s).
Definition empty (s : timers) : bool := match first s with [] => true | _ => false end.
Definition isRunning (s : timers) : bool := negb (isZero (it_value s)).
End Timers.

(** ** Specification *)

(** Microseconds. *)
Definition total (t : timeval) : Z := tv_sec t * U_SECOND + tv_usec t.
Definition normal (t : timeval) : Prop := 0 <= tv_usec t < U_SECOND.
Definition expire_total (e : event) : Z := expire_sec e * U_SECOND + expire_usec e.

(** Seconds that are not negative, and are not too many for [long] arithmetic, and microseconds below a million. *)
Definition instant_ok (t : timeval) : Prop := 0 <= tv_sec t < 2 ^ 50 ∧ normal t.

(** What [gettimeofday] gives, and what the program gives to [insert]. *)
Definition clock_ok (gettimeofday : nat → timeval) : Prop := ∀ k, instant_ok (gettimeofday k).
Definition delay_ok (e : event) : Prop := instant_ok (delay e).

Definition alarm_ok (e : event) : Prop := delay_ok e ∧ instant_ok (ctime e).

(** The microseconds of the deadline do not carry into its seconds; so for delays of whole seconds. *)
Definition no_carry (e : event) : Prop := expire_usec e < U_SECOND.

(** The order the list is kept in, and the order in time. *)
Definition not_after (a b : event) : Prop := event_less b a = false.
Definition in_time (a b : event) : Prop := expire_total a <= expire_total b.
Definition nearly_in_time (a b : event) : Prop := expire_total a < expire_total b + U_SECOND.

Definition timers_ok (s : timers) : Prop := StronglySorted not_after (first s) ∧ Forall alarm_ok (first s).

Definition due (bsignal : bool) (now : timeval) (e : event) : bool :=
  if bsignal then isExpired now e else isOld now e.

(** The handlers of the alarms of a list called one after the other, the clock having been read [k] times: the
    alarms to put back, each with the time of the reading that follows its handler, the state of the
    program, and how often the clock has been read then. *)
Fixpoint fire {E} (gettimeofday : nat → timeval) (handlerTime : event → E → Z * E) (k : nat) (l : list event) (env : E) :
    list event * E * nat :=
  match l with
  | [] => ([], env, k)
  | e :: l' =>
      let r := handlerTime e env in
      if r.1 =? 0 then
        let f := fire gettimeofday handlerTime (S k) l' r.2 in
        (Event (eid e) (delay e) (gettimeofday k) :: f.1.1, f.1.2, f.2)
      else fire gettimeofday handlerTime k l' r.2
  end.

(** Each of the alarms is due, by the last reading of the clock, when its handler is called. *)
Fixpoint due_in_turn {E} (gettimeofday : nat → timeval) (handlerTime : event → E → Z * E) (bsignal : bool) (k : nat)
    (l : list event) (env : E) : Prop :=
  match l with
  | [] => True
  | e :: l' =>
      let r := handlerTime e env in
      due bsignal (gettimeofday (pred k)) e = true ∧
      due_in_turn gettimeofday handlerTime bsignal (if r.1 =? 0 then S k else k) l' r.2
  end.

(** [n + 1] readings of the clock from the [k]th on are at most [w] microseconds apart. *)
Definition span (gettimeofday : nat → timeval) (k n : nat) (w : Z) : Prop :=
  ∀ i j, (k <= i <= k + n)%nat → (k <= j <= k + n)%nat → total (gettimeofday j) <= total (gettimeofday i) + w.

(** The delay of an alarm is longer than [w] microseconds, by what the tests for alarms that are due
    are not exact: a 128th of the delay and a millisecond, or a second for microseconds that carry. *)
Definition rests (bsignal : bool) (w : Z) (e : event) : Prop :=
  if bsignal then w + total (delay e) / 128 + 1000 <= total (delay e)
  else w + (if tv_usec (delay e) =? 0 then 0 else U_SECOND) <= total (delay e).

(** ** Time values *)

Lemma adjust_spec t : total (adjust t) = total t ∧ normal (adjust t).
Proof.
  destruct t as [s u]. unfold adjust, total, normal, U_SECOND. simpl.
  destruct (Z.eqb_spec (u `quot` 1000000) 0) as [E|E]; simpl; zcases; simpl;
    Z.to_euclidean_division_equations; lia.
Qed.

Lemma normal_unique t t' : normal t → normal t' → total t = total t' → t = t'.
Proof. destruct t, t'. unfold normal, total, U_SECOND. simpl. intros. f_equal; lia. Qed.

(** ** The order of the list *)

Section Order.
Implicit Types e x : event.

Lemma event_less_spec a b :
  event_less a b = true ↔ expire_sec a < expire_sec b ∨ expire_sec a = expire_sec b ∧ expire_usec a < expire_usec b.
Proof. unfold event_less. lia. Qed.

Lemma not_after_spec a b :
  not_after a b ↔ expire_sec a < expire_sec b ∨ expire_sec a = expire_sec b ∧ expire_usec a <= expire_usec b.
Proof. unfold not_after. rewrite <- not_true_iff_false, event_less_spec. lia. Qed.

#[export] Instance not_after_trans : Transitive not_after.
Proof. intros a b c. rewrite !not_after_spec. lia. Qed.

Lemma event_less_not_after a b : event_less a b = true → not_after a b.
Proof. rewrite event_less_spec, not_after_spec. lia. Qed.

Lemma insert_sorted_perm e l : insert_sorted e l ≡ₚ e :: l.
Proof.
  induction l as [|x l IH]; simpl; [done|]. destruct (event_less e x); [done|].
  rewrite IH. apply perm_swap.
Qed.

Lemma insert_sorted_sorted e l : StronglySorted not_after l → StronglySorted not_after (insert_sorted e l).
Proof.
  induction 1 as [|x l Hl IH Hx]; simpl; [by repeat constructor|].
  destruct (event_less e x) eqn:Hlt.
  - constructor; [by constructor|]. apply event_less_not_after in Hlt. constructor; [done|].
    eapply Forall_impl; [exact Hx|]. intros y Hy. by transitivity x.
  - constructor; [done|]. rewrite insert_sorted_perm. by constructor.
Qed.

Lemma erase_first_sub a l : Forall (λ y, y ∈ l) (erase_first a l).1.
Proof.
  induction l as [|x l IH]; simpl; [done|]. destruct (eid x =? a); simpl.
  - apply Forall_forall. by right.
  - destruct (erase_first a l) as [l1 f]. constructor; [by left|]. eapply Forall_impl; [exact IH|]. by right.
Qed.

Lemma erase_first_ok (P : event → Prop) a l :
  StronglySorted not_after l → Forall P l → StronglySorted not_after (erase_first a l).1 ∧ Forall P (erase_first a l).1.
Proof.
  intros Hs HP. split; cycle 1.
  { eapply Forall_impl; [apply erase_first_sub|]. rewrite Forall_forall in HP. exact HP. }
  clear HP. induction Hs as [|x l Hl IH Hx]; simpl; [constructor|]. destruct (eid x =? a); [done|].
  pose proof (erase_first_sub a l) as Hsub. destruct (erase_first a l) as [l' f]. constructor; [done|].
  eapply Forall_impl; [exact Hsub|]. rewrite Forall_forall in Hx. apply Hx.
Qed.
End Order.

Lemma expire_usec_range e : alarm_ok e → 0 <= expire_usec e < 2 * U_SECOND.
Proof. unfold alarm_ok, delay_ok, instant_ok, normal, expire_usec, U_SECOND. lia. Qed.

(** What the tests of the alarms compute is within the [long]s of the program. *)
Lemma longs_in_range e now : alarm_ok e → instant_ok now →
  let in_long z := - 2 ^ 63 <= z < 2 ^ 63 in
  let diff := (expire_sec e - tv_sec now) * 1000 in
  in_long (expire_sec e) ∧ in_long (expire_usec e) ∧ in_long (expire_sec e - tv_sec now) ∧ in_long diff ∧
  in_long (diff + (expire_usec e - tv_usec now) `quot` 1000) ∧ in_long (tv_sec (delay e) * 1000) ∧
  in_long (getMilliSecond (delay e)) ∧ in_long (tv_sec (setTimerVal now e)) ∧ in_long (tv_usec (setTimerVal now e)).
Proof.
  intros Ha Hn. cbv zeta. destruct (adjust_spec (TimeVal (expire_sec e - tv_sec now) (expire_usec e - tv_usec now))) as [Ht Hu].
  fold (setTimerVal now e) in Ht, Hu. revert Ha Hn Ht Hu.
  unfold alarm_ok, delay_ok, instant_ok, normal, getMilliSecond, total, expire_sec, expire_usec, U_SECOND. cbn [tv_sec tv_usec].
  intros. Z.to_euclidean_division_equations. splits; lia.
Qed.

Lemma not_due_later now bsignal e :
  normal now → alarm_ok e → due bsignal now e = false → total now <= expire_total e.
Proof.
  intros Hn He%expire_usec_range. revert Hn He. unfold normal, total, expire_total, U_SECOND. intros Hn Hu. destruct bsignal; simpl.
  - unfold isExpired. zcases; try done. intros _. Z.to_euclidean_division_equations. lia.
  - unfold isOld. lia.
Qed.

Lemma not_after_nearly a b : alarm_ok a → alarm_ok b → not_after a b → nearly_in_time a b.
Proof.
  intros Ha%expire_usec_range Hb%expire_usec_range. rewrite not_after_spec.
  unfold nearly_in_time, expire_total, U_SECOND in *. lia.
Qed.

Lemma not_after_in_time a b : alarm_ok a ∧ no_carry a → alarm_ok b ∧ no_carry b → not_after a b → in_time a b.
Proof.
  intros [Ha%expire_usec_range Ha'] [Hb%expire_usec_range Hb']. rewrite not_after_spec.
  unfold in_time, no_carry, expire_total, U_SECOND in *. lia.
Qed.

Lemma sorted_weaken {A} (P : A → Prop) (R Q : A → A → Prop) l :
  (∀ a b, P a → P b → R a b → Q a b) → Forall P l → StronglySorted R l → StronglySorted Q l.
Proof.
  intros H Hp Hs. revert Hp. induction Hs as [|x l Hs IH Hx]; [by constructor|]. intros [Px Pl]%Forall_cons. constructor; [by apply IH|].
  rewrite Forall_forall in Hx, Pl |- *. intros y Hy. apply H; [done|by apply Pl|by apply Hx].
Qed.

Lemma timers_ok_nearly s : timers_ok s → StronglySorted nearly_in_time (first s).
Proof. intros [Hs Ha]. eapply sorted_weaken; [|exact Ha|exact Hs]. exact not_after_nearly. Qed.

Lemma timers_ok_in_time s : timers_ok s → Forall no_carry (first s) → StronglySorted in_time (first s).
Proof. intros [Hs Ha] Hc. eapply sorted_weaken; [exact not_after_in_time| |exact Hs]. by apply Forall_and. Qed.

Lemma timers_ok_same s s' : first s' = first s → timers_ok s → timers_ok s'.
Proof. unfold timers_ok. by intros ->. Qed.

Lemma timers_ok_tail s item next : timers_ok s → first s = item :: next → timers_ok (set_first s next) ∧ alarm_ok item.
Proof. intros [Hs Ha] Ef. rewrite Ef in Hs, Ha. apply StronglySorted_inv in Hs as [Hs _]. by apply Forall_cons in Ha as [Hi Ha]. Qed.

Lemma insertEntry_ok clock e s : clock_ok clock → delay_ok e → timers_ok s → timers_ok (insertEntry clock e s).
Proof.
  intros Hclock He [Hs Ha]. split; simpl; [by apply insert_sorted_sorted|]. rewrite insert_sorted_perm.
  constructor; [|done]. split; [done|]. apply Hclock.
Qed.

(** ** The rounds of [setTimer] *)

Section Rounds.
Context {E : Type} (async : bool) (gettimeofday : nat → timeval) (handlerTime : event → E → Z * E).
Context (Hclock : clock_ok gettimeofday).
Implicit Types (s : timers) (env : E) (e : event).

Abbreviation step := (setTimer_step async gettimeofday handlerTime).
Abbreviation fire := (fire gettimeofday handlerTime).
Abbreviation due_in_turn := (due_in_turn gettimeofday handlerTime).

Lemma callHandlerTime_ok e s env :
  delay_ok e → timers_ok s → timers_ok (callHandlerTime async gettimeofday handlerTime e s env).1.
Proof.
  intros He Hs. unfold callHandlerTime. destruct (handlerTime e env) as [r env'].
  destruct (r =? 0); [by apply insertEntry_ok|done].
Qed.

(** The value of the interval timer is the time to the first deadline. *)
Definition armed s : Prop :=
  match first s with
  | [] => it_value s = TimeVal 0 0
  | e :: _ => normal (it_value s) ∧ 0 <= tv_sec (it_value s) ∧ total (it_value s) = expire_total e - total (u_now s)
  end.

Lemma setTimer_round bsignal s env : timers_ok s ∧ normal (u_now s) →
  match step bsignal (s, env) with
  | Ok (inl st) => timers_ok st.1 ∧ normal (u_now st.1)
  | Ok (inr r) => timers_ok r.1 ∧ armed r.1 ∧ normal (u_now r.1) ∧
      match first r.1 with [] => True | e :: _ => due bsignal (u_now r.1) e = false end
  | Fail _ => True
  end.
Proof.
  intros [Hs Hn]. unfold setTimer_step. destruct (first s) as [|item next] eqn:Ef.
  - splits; try done; [by unfold armed; simpl; rewrite Ef|by simpl; rewrite Ef].
  - destruct (timers_ok_tail s item next Hs Ef) as [Hs' Hi].
    change (if bsignal then isExpired (u_now s) item else isOld (u_now s) item) with (due bsignal (u_now s) item).
    destruct (due bsignal (u_now s) item) eqn:Ed.
    + split; [apply callHandlerTime_ok; [apply Hi|done]|]. unfold callHandlerTime.
      destruct (handlerTime item env) as [r env']. destruct (r =? 0); [apply Hclock|done].
    + splits; [done| |done|by simpl; rewrite Ef]. unfold armed. simpl. rewrite Ef.
      pose proof (not_due_later _ _ _ Hn Hi Ed) as Hl. unfold setTimerVal.
      edestruct adjust_spec as [Ht Hnn]. assert (Hv : total (setTimerVal (u_now s) item) = expire_total item - total (u_now s)).
      { unfold setTimerVal. rewrite Ht. unfold expire_total, total. simpl. lia. }
      split; [exact Hnn|]. unfold setTimerVal in Hv. split; [|exact Hv].
      revert Hv Hnn Hl. unfold total at 1, normal, U_SECOND. lia.
Qed.

Lemma setTimer_ok fuel bsignal s env s' env' :
  timers_ok s → setTimer async gettimeofday handlerTime fuel bsignal s env = Ok (s', env') →
  timers_ok s' ∧ armed s' ∧ normal (u_now s') ∧ match first s' with [] => True | e :: _ => due bsignal (u_now s') e = false end.
Proof.
  intros Hs. apply (iterate_partial _ (λ st, timers_ok st.1 ∧ normal (u_now st.1)) (λ r, timers_ok r.1 ∧ armed r.1 ∧ normal (u_now r.1) ∧
    match first r.1 with [] => True | e :: _ => due bsignal (u_now r.1) e = false end)).
  - intros [s1 env1] H1. pose proof (setTimer_round bsignal s1 env1 H1) as H. by destruct (step bsignal (s1, env1)) as [[?|?]|].
  - split; [by apply (timers_ok_same s)|apply Hclock].
Qed.

(** ** The handlers of one call of [setTimer] *)

Lemma fire_app l e k env :
  fire k (l ++ [e]) env
  = let f := fire k l env in let r := handlerTime e f.1.2 in
    if r.1 =? 0 then (f.1.1 ++ [Event (eid e) (delay e) (gettimeofday f.2)], r.2, S f.2) else (f.1.1, r.2, f.2).
Proof.
  revert k env. induction l as [|x l IH]; intros k env; simpl; [by destruct ((handlerTime e env).1 =? 0)|].
  rewrite !IH. simpl. destruct ((handlerTime x env).1 =? 0); [|done]. by destruct (_ =? 0).
Qed.

Lemma due_in_turn_app bsignal l e k env :
  due_in_turn bsignal k (l ++ [e]) env ↔
  due_in_turn bsignal k l env ∧ due bsignal (gettimeofday (pred (fire k l env).2)) e = true.
Proof.
  revert k env. induction l as [|x l IH]; intros k env; simpl; [tauto|].
  destruct ((handlerTime x env).1 =? 0); simpl; rewrite IH; tauto.
Qed.

Lemma fire_count l k env : (k <= (fire k l env).2 <= k + length l)%nat.
Proof.
  revert k env. induction l as [|x l IH]; intros k env; simpl; [lia|].
  destruct ((handlerTime x env).1 =? 0); simpl.
  - specialize (IH (S k) (handlerTime x env).2). lia.
  - specialize (IH k (handlerTime x env).2). lia.
Qed.

Lemma rests_not_due bsignal w e c now :
  delay_ok e → normal c → normal now → 0 <= w → total now <= total c + w → rests bsignal w e →
  due bsignal now (Event (eid e) (delay e) c) = false.
Proof.
  destruct e as [i [ds du] c0], c as [cs cu], now as [ns nu].
  unfold delay_ok, rests, instant_ok, normal, total, due, U_SECOND. cbn [tv_sec tv_usec delay eid]. intros [Hd Hu] Hc Hn Hw Hnow. destruct bsignal.
  - unfold isExpired, getMilliSecond, expire_sec, expire_usec. cbn [tv_sec tv_usec delay ctime].
    intros H. pose proof (Z.quot_rem' (cu + du - nu) 1000). pose proof (Z.rem_bound_abs (cu + du - nu) 1000 ltac:(lia)).
    assert (Hms : (ds * 1000 + du `quot` 1000) `quot` 128 * 1000 <= (ds * 1000000 + du) / 128).
    { rewrite (Z.quot_div_nonneg du), Z.quot_div_nonneg by (Z.div_mod_to_equations; lia). Z.div_mod_to_equations. lia. }
    assert (0 <= (ds * 1000000 + du) / 128) by (apply Z.div_pos; lia). zcases; [lia| |done]. lia.
  - unfold isOld, expire_sec, expire_usec. cbn [tv_sec tv_usec delay ctime]. zcases; cbn; lia.
Qed.

(** What a round keeps: the alarms [l] of the list [s0] have been called, [rest] have not. *)
Definition called bsignal s0 env0 (st : timers * E) l rest : Prop :=
  let f := fire (S (ticks s0)) l env0 in
  timers_ok st.1 ∧ u_now st.1 = gettimeofday (pred f.2) ∧ ticks st.1 = f.2 ∧
  first s0 ≡ₚ l ++ rest ∧ first st.1 ≡ₚ rest ++ f.1.1 ∧ st.2 = f.1.2 ∧ due_in_turn bsignal (S (ticks s0)) l env0 ∧
  Forall (λ e, ∀ j, (ticks s0 <= j <= ticks s0 + length (first s0))%nat → due bsignal (gettimeofday j) e = false) f.1.1.

Context (bsignal : bool) (w : Z) (s0 : timers) (env0 : E).
Context (Hspan : span gettimeofday (ticks s0) (length (first s0)) w) (Hok0 : timers_ok s0).
Context (Hrests : ∀ e env, e ∈ first s0 → (handlerTime e env).1 = 0 → rests bsignal w e).

(** The readings of a round are among those that are close together. *)
Lemma reading_in_span l rest : first s0 ≡ₚ l ++ rest →
  (S (ticks s0) <= (fire (S (ticks s0)) l env0).2 <= S (ticks s0) + length l)%nat ∧ (length l + length rest = length (first s0))%nat.
Proof. intros Hp. split; [apply fire_count|]. rewrite Hp. by rewrite length_app. Qed.

Lemma called_item st l rest item : called bsignal s0 env0 st l rest → item ∈ first st.1 → due bsignal (u_now st.1) item = true →
  ∃ rest', rest ≡ₚ item :: rest' ∧ item ∈ first s0.
Proof.
  intros (_ & Hnow & _ & H0 & H1 & _ & _ & Hag) Hin Hd. destruct (reading_in_span l rest H0) as [Hc Hl].
  rewrite H1 in Hin. apply elem_of_app in Hin as [Hin|Hin]; cycle 1.
  { rewrite Forall_forall in Hag. specialize (Hag _ Hin (pred (fire (S (ticks s0)) l env0).2) ltac:(lia)). congruence. }
  apply elem_of_Permutation in Hin as [rest' Hr]. exists rest'. split; [done|].
  rewrite H0, Hr. apply elem_of_app. right. left.
Qed.

Lemma called_step st l rest item next :
  called bsignal s0 env0 st l rest → first st.1 = item :: next → due bsignal (u_now st.1) item = true →
  ∃ rest', rest ≡ₚ item :: rest' ∧
    called bsignal s0 env0 (callHandlerTime async gettimeofday handlerTime item (set_first st.1 next) st.2) (l ++ [item]) rest'.
Proof.
  intros Hcall Ef Ed. destruct (called_item st l rest item Hcall) as (rest' & Hr & Hi0); [rewrite Ef; left|done|].
  exists rest'. split; [done|]. destruct Hcall as (Hok & Hnow & Ht & H0 & H1 & Henv & Hdue & Hag). destruct st as [s env]. cbn [fst snd] in *.
  destruct (timers_ok_tail s item next Hok Ef) as [Hok' Hi].
  rewrite Ef, Hr in H1. apply Permutation_cons_inv in H1.
  destruct (reading_in_span l rest H0) as [Hc Hl]. rewrite Hr in Hl. cbn [length] in Hl.
  unfold called. rewrite due_in_turn_app, fire_app. cbv zeta. rewrite <-Henv.
  set (k := (fire (S (ticks s0)) l env0).2) in *. pose proof (callHandlerTime_ok item _ env (proj1 Hi) Hok') as Hok2.
  specialize (Hrests item env Hi0). unfold callHandlerTime in *. destruct (handlerTime item env) as [r env'] eqn:Eh. cbn [fst snd] in *.
  rewrite <-Hnow. destruct (Z.eqb_spec r 0) as [->|Hr0]; cbn [fst snd]; splits; try done.
  - simpl. by rewrite Ht.
  - simpl. by rewrite Ht.
  - by rewrite H0, Hr, <-app_assoc.
  - simpl. rewrite insert_sorted_perm, Ht, H1, app_assoc. apply Permutation_cons_append.
  - apply Forall_app. split; [done|]. repeat constructor. intros j Hj. apply (rests_not_due _ w); [apply Hi|apply Hclock|apply Hclock| | |by apply Hrests].
    + pose proof (Hspan (ticks s0) (ticks s0) ltac:(lia) ltac:(lia)). lia.
    + apply Hspan; lia.
  - by rewrite H0, Hr, <-app_assoc.
Qed.

Lemma rounds_called n : ∀ st l rest, length rest = n → called bsignal s0 env0 st l rest →
  ∃ r l' rest', iterate (S n) (step bsignal) st = Ok r ∧ called bsignal s0 env0 r l' rest'.
Proof.
  induction n as [|n IH]; intros st l rest Hn Hc; cbn [iterate]; destruct (first st.1) as [|item next] eqn:Ef;
    destruct st as [s env]; cbn [fst snd] in *; unfold setTimer_step at 1; rewrite Ef.
  all: try (eexists _, l, rest; split; [done|]; exact Hc).
  all: change (if bsignal then isExpired (u_now s) item else isOld (u_now s) item) with (due bsignal (u_now s) item);
    destruct (due bsignal (u_now s) item) eqn:Ed; [|eexists _, l, rest; split; [done|]; exact Hc].
  - destruct (called_step (s, env) l rest item next Hc Ef Ed) as (rest' & Hr & _). apply Permutation_length in Hr. simpl in Hr. lia.
  - destruct (called_step (s, env) l rest item next Hc Ef Ed) as (rest' & Hr & Hc'). apply (IH _ (l ++ [item]) rest'); [|exact Hc'].
    apply Permutation_length in Hr. simpl in Hr. lia.
Qed.

Lemma setTimer_called :
  ∃ s' env' l rest, setTimer async gettimeofday handlerTime (S (length (first s0))) bsignal s0 env0 = Ok (s', env') ∧
    called bsignal s0 env0 (s', env') l rest.
Proof.
  destruct (rounds_called (length (first s0)) (read_clock gettimeofday s0, env0) [] (first s0)) as ([s' env'] & l & rest & Er & Hc); [done| |by exists s', env', l, rest].
  unfold called. simpl. rewrite app_nil_r. by splits.
Qed.
End Rounds.

(** ** Properties *)

(** The states a program reaches with its timers, with any clock, handlers and alarms. The flag says whether
    the last operation set the interval timer. *)
Inductive reachable {E} (async : bool) (gettimeofday : nat → timeval) (handlerTime : event → E → Z * E) :
    bool → timers * E → Prop :=
  | reach_start s env : first s = [] → reachable async gettimeofday handlerTime false (s, env)
  | reach_insert set fuel a set_timer s env st :
      reachable async gettimeofday handlerTime set (s, env) → delay_ok a →
      insert async gettimeofday handlerTime fuel a set_timer s env = Ok st →
      reachable async gettimeofday handlerTime set_timer st
  | reach_erase set fuel a flag_reuse set_timer s env st :
      reachable async gettimeofday handlerTime set (s, env) →
      erase async gettimeofday handlerTime fuel a flag_reuse set_timer s env = Ok st →
      reachable async gettimeofday handlerTime set_timer st
  | reach_alarm set fuel bsignal s env st :
      reachable async gettimeofday handlerTime set (s, env) →
      setTimer async gettimeofday handlerTime fuel bsignal s env = Ok st →
      reachable async gettimeofday handlerTime true st
  | reach_clear set s env :
      reachable async gettimeofday handlerTime set (s, env) →
      reachable async gettimeofday handlerTime false (clear s, env)
  | reach_stop set s env :
      reachable async gettimeofday handlerTime set (s, env) →
      reachable async gettimeofday handlerTime false (stop s, env).

Lemma reachable_ok {E} async gettimeofday (handlerTime : event → E → Z * E) set st :
  clock_ok gettimeofday → reachable async gettimeofday handlerTime set st → timers_ok st.1 ∧ (set = true → armed st.1).
Proof.
  intros Hclock. induction 1 as [s env Hf|set fuel a b s env st _ [IH _] Ha Ei|set fuel a b b' s env st _ [IH _] Ei
    |set fuel b s env st _ [IH _] Ei|set s env _ IH|set s env _ [IH _]]; cbn [fst] in *; try (split; [|done]).
  - unfold timers_ok. rewrite Hf. split; constructor.
  - assert (Hi : timers_ok (insertEntry gettimeofday a (set_pool s (drop 1 (pool s))))) by by apply insertEntry_ok.
    unfold insert in Ei. destruct b; [|by simplify_eq]. destruct st. by eapply setTimer_ok in Ei as (? & ? & _).
  - unfold erase in Ei. pose proof (erase_first_ok alarm_ok a (first s) (proj1 IH) (proj2 IH)) as [Hs1 Ha1].
    destruct (erase_first a (first s)) as [l f]. destruct st as [s' env']. destruct b', (f && b); try by simplify_eq.
    + by eapply setTimer_ok in Ei as (? & ? & _).
    + by eapply setTimer_ok in Ei as (? & ? & _).
  - destruct st. by eapply setTimer_ok in Ei as (? & ? & _).
  - split; constructor.
  - exact IH.
Qed.

(** C27: in every state a program reaches with its timers, the list is in the order of time up to less than a
    second - no alarm stands in front of one whose deadline is a second or more earlier - and exactly in the
    order of time when no deadline carries microseconds into its seconds ([no_carry]; with a carry two can be
    exchanged, [timer_order_carry]). When the last operation set the interval timer, its value is the time
    left to the deadline of the first alarm, not negative and normalised, or zero when there is none.
    The clock is any that gives seconds that are not negative and microseconds below a million, and so are the
    delays. *)
Theorem timers_invariant {E} async gettimeofday (handlerTime : event → E → Z * E) set s env :
  clock_ok gettimeofday → reachable async gettimeofday handlerTime set (s, env) →
  StronglySorted nearly_in_time (first s) ∧
  (Forall no_carry (first s) → StronglySorted in_time (first s)) ∧
  (set = true →
   match first s with
   | [] => it_value s = TimeVal 0 0
   | e :: _ => normal (it_value s) ∧ 0 <= tv_sec (it_value s) ∧ total (it_value s) = expire_total e - total (u_now s)
   end).
Proof.
  intros Hclock Hr. destruct (reachable_ok _ _ _ _ _ Hclock Hr) as [Hok Ha].
  split; [by apply timers_ok_nearly|]. split; [by apply timers_ok_in_time|exact Ha].
Qed.

Definition sample_timers : timers := Timers [] [] (TimeVal 0 0) (TimeVal 0 0) 0.

(** A clock that advances by a second. *)
Definition ticking (k : nat) : timeval := TimeVal (Z.of_nat k mod 2 ^ 40) 0.

Lemma ticking_ok : clock_ok ticking.
Proof. intros k. unfold instant_ok, normal, U_SECOND, ticking. cbn [tv_sec tv_usec]. pose proof (Z.mod_pos_bound (Z.of_nat k) (2 ^ 40)). lia. Qed.

(** Two alarms, of four seconds and of three and a half; the second insertion sets the interval timer. *)
Lemma timers_invariant_witness :
  ∃ s env, reachable false ticking (λ e l, (-1, eid e :: l)) true (s, env) ∧ map eid (first s) = [1; 2] ∧
    StronglySorted in_time (first s) ∧ it_value s = TimeVal 2 0.
Proof.
  set (handler := λ e l, (-1, eid e :: l)).
  assert (H : ∃ s env, reachable false ticking handler true (s, env) ∧ map eid (first s) = [1; 2] ∧
    it_value s = TimeVal 2 0 ∧ Forall no_carry (first s)).
  { eexists _, _. split; [eapply (reach_insert _ _ _ false 5 (Event 2 (TimeVal 3 500000) (TimeVal 0 0)) true)|].
    - eapply (reach_insert _ _ _ false 5 (Event 1 (TimeVal 4 0) (TimeVal 0 0)) false _ []).
      + by apply (reach_start false ticking handler sample_timers).
      + unfold delay_ok, instant_ok, normal, U_SECOND. simpl. lia.
      + reflexivity.
    - unfold delay_ok, instant_ok, normal, U_SECOND. simpl. lia.
    - reflexivity.
    - split; [reflexivity|]. split; [reflexivity|]. repeat constructor. }
  destruct H as (s & env & Hr & He & Hv & Hc). exists s, env. split; [exact Hr|]. split; [exact He|]. split; [|exact Hv].
  exact (proj1 (proj2 (timers_invariant false ticking handler true s env ticking_ok Hr)) Hc).
Defined.


(** A clock that stands at five seconds for three readings and goes on from ten. *)
Definition jumping (k : nat) : timeval := if (k <? 3)%nat then TimeVal 5 0 else TimeVal 10 (Z.of_nat k mod 1000000).

(** The handler of the first alarm asks to be called again. *)
Definition again_first (e : event) (l : list Z) : Z * list Z := (if eid e =? 1 then 0 else -1, eid e :: l).

Definition three_timers : timers :=
  Timers [Event 1 (TimeVal 1 0) (TimeVal 5 0); Event 2 (TimeVal 2 0) (TimeVal 5 0); Event 3 (TimeVal 9 0) (TimeVal 5 0)]
    [] (TimeVal 5 0) (TimeVal 0 0) 3.

Lemma jumping_ok : clock_ok jumping.
Proof.
  intros k. unfold instant_ok, normal, jumping, U_SECOND. destruct (k <? 3)%nat; cbn [tv_sec tv_usec]; [lia|]. split; [lia|]. apply Z.mod_pos_bound. lia.
Qed.

Lemma jumping_span : span jumping 3 3 3.
Proof.
  intros i j Hi Hj. unfold jumping, total, U_SECOND. destruct (Nat.ltb_spec i 3), (Nat.ltb_spec j 3); try lia.
  cbn [tv_sec tv_usec]. rewrite !Z.mod_small by lia. lia.
Qed.

Lemma three_timers_reachable : reachable true jumping again_first false (three_timers, []).
Proof.
  eapply (reach_insert _ _ _ false 1 (Event 3 (TimeVal 9 0) (TimeVal 0 0)) false).
  - eapply (reach_insert _ _ _ false 1 (Event 2 (TimeVal 2 0) (TimeVal 0 0)) false).
    + eapply (reach_insert _ _ _ false 1 (Event 1 (TimeVal 1 0) (TimeVal 0 0)) false).
      * by apply (reach_start true jumping again_first sample_timers []).
      * unfold delay_ok, instant_ok, normal, U_SECOND. simpl. lia.
      * reflexivity.
    + unfold delay_ok, instant_ok, normal, U_SECOND. simpl. lia.
    + reflexivity.
  - unfold delay_ok, instant_ok, normal, U_SECOND. simpl. lia.
  - reflexivity.
Qed.


(** When no alarm carries microseconds into the seconds, the order of the list and the test for old
    alarms are those of time. With a carry they are not: of two alarms the later can come first, so that
    the other stays in the list when its time has passed, and an alarm is taken for old, and called, before
    its time. An alarm due exactly now is not old, and then the interval timer is stopped though an alarm
    is in the list. *)
Theorem timer_order_carry :
  (∀ a b, 0 <= expire_usec a < U_SECOND → 0 <= expire_usec b < U_SECOND →
     event_less a b = true ↔ expire_total a < expire_total b) ∧
  (∀ now e, normal now → 0 <= expire_usec e < U_SECOND → isOld now e = true ↔ expire_total e < total now) ∧
  (let late := Event 1 (TimeVal 10 600000) (TimeVal 0 900000) in
   let early := Event 2 (TimeVal 11 0) (TimeVal 0 100000) in
   let now := TimeVal 11 200000 in
   expire_total early < total now < expire_total late ∧
   first (insertEntry (λ _, TimeVal 0 900000) late (Timers [early] [] (TimeVal 0 0) (TimeVal 0 0) 0)) = [late; early] ∧
   (∃ s, setTimer false (λ _, now) (λ e l, (-1, eid e :: l)) 3 true
      (Timers [late; early] [] (TimeVal 0 0) (TimeVal 0 0) 0) [] = Ok (s, []) ∧ first s = [late; early]) ∧
   (∃ s, setTimer false (λ _, now) (λ e l, (-1, eid e :: l)) 3 false
      (Timers [late] [] (TimeVal 0 0) (TimeVal 0 0) 0) [] = Ok (s, [1]))) ∧
  (∀ e now, expire_sec e = tv_sec now → expire_usec e = tv_usec now →
     ∃ s, setTimer false (λ _, now) (λ e l, (-1, eid e :: l)) 1 false
       (Timers [e] [] (TimeVal 0 0) (TimeVal 0 0) 0) [] = Ok (s, []) ∧ first s = [e] ∧ isRunning s = false).
Proof.
  splits.
  - intros a b. unfold event_less, expire_total, U_SECOND. lia.
  - intros now e. unfold normal, isOld, expire_total, total, U_SECOND. lia.
  - cbv zeta. splits; [vm_compute; done|vm_compute; done|reflexivity|eexists; split; reflexivity|eexists; reflexivity].
  - intros e now Hs Hu. unfold setTimer, setTimer_step. simpl. unfold isOld. rewrite Hs, Hu, !Z.ltb_irrefl, andb_false_r.
    simpl. eexists. splits; [done|done|]. unfold isRunning, setTimerVal. rewrite Hs, Hu, !Z.sub_diag. done.
Qed.

(** Addition and subtraction of time values, by seconds and microseconds or by microseconds alone and
    whatever their signs, are exact and give a value with microseconds from 0 to 999999; on such values the
    comparison is that of time. *)
Theorem timeval_arithmetic t sec micro_sec :
  (normal (add t sec micro_sec) ∧ total (add t sec micro_sec) = total t + sec * U_SECOND + micro_sec) ∧
  (normal (sub t sec micro_sec) ∧ total (sub t sec micro_sec) = total t - sec * U_SECOND - micro_sec) ∧
  (normal (add_micro t micro_sec) ∧ total (add_micro t micro_sec) = total t + micro_sec) ∧
  (normal (sub_micro t micro_sec) ∧ total (sub_micro t micro_sec) = total t - micro_sec) ∧
  ∀ t', normal t → normal t' → timeval_less t t' = true ↔ total t < total t'.
Proof.
  assert (Hadj : ∀ s u, normal (adjust (TimeVal s u)) ∧ total (adjust (TimeVal s u)) = s * U_SECOND + u).
  { intros s u. destruct (adjust_spec (TimeVal s u)) as [H1 H2]. split; [exact H2|rewrite H1; done]. }
  unfold add_micro, sub_micro, add, sub. pose proof (Z.quot_rem' micro_sec U_SECOND) as Hq. splits;
    try (eapply Hadj || (rewrite (proj2 (Hadj _ _)); unfold total; lia)).
  intros t' H H'. unfold normal, timeval_less, total, U_SECOND in *. lia.
Qed.
