(* ===== verification/Sort.v ===== *)
(** * Sorting and searching vectors of strings ([UVector<UString>] in [src/ulib/container/vector.cpp],
    the comparisons of [UStringRep] in [include/ulib/string.h], [src/ulib/string.cpp])

    A string is its bytes; in memory it is followed by a NUL. The part of the vector a call of [mksort]
    works on is a list of strings; the pointers into it are indexes. *)

From stdpp Require Import sorting.
From S2P Require Import Prelude.

(** ** Comparison *)

(** The sign of [memcmp(a, b, n)] on two strings of [n] bytes. *)
Fixpoint memcmp (a b : list Z) : Z :=
  match a, b with
  | x :: a', y :: b' => if x =? y then memcmp a' b' else x - y
  | _, _ => 0
  end.

(** [UStringRep::compare(rep)]; the difference of the lengths, of 32 bits, becomes an [int]. *)
Definition compare (a b : list Z) : Z :=
  let min := Nat.min (length a) (length b) in
  let r := memcmp (take min a) (take min b) in
  if r =? 0 then i32 (Z.of_nat (length a) - Z.of_nat (length b)) else r.

(** [UStringRep::compare(rep, depth)]. *)
Definition compare_depth (a b : list Z) (depth : nat) : Z :=
  let min := Nat.min (length a) (length b) in
  let next := i32 (Z.of_nat (length a) - Z.of_nat (length b)) in
  if (min <? depth)%nat then next
  else
    let r := memcmp (take (min - depth) (drop depth a)) (take (min - depth) (drop depth b)) in
    if r =? 0 then next else r.

(** ** [mksort] *)

Definition get (a : list (list Z)) (i : nat) : res (list Z) := rd a (Z.of_nat i).

(** [ch]: the [char] at [depth], which is signed. *)
Definition chfunc (a : list (list Z)) (i depth : nat) : res Z :=
  t ← get a i; c ← rd (t ++ [0]) (Z.of_nat depth); Ok (schar c).

Definition swap2 (a : list (list Z)) (i j : nat) : res (list (list Z)) :=
  x ← get a i; y ← get a j; Ok (<[j := x]> (<[i := y]> a)).

Fixpoint vecswap2 (a : list (list Z)) (i j n : nat) : res (list (list Z)) :=
  match n with
  | O => Ok a
  | S n' => a ← swap2 a i j; vecswap2 a (S i) (S j) n'
  end.

Definition med3func (v : list (list Z)) (a b c depth : nat) : res nat :=
  va ← chfunc v a depth; vb ← chfunc v b depth;
  if va =? vb then Ok a
  else
    vc ← chfunc v c depth;
    if (vc =? va) || (vc =? vb) then Ok c
    else
      Ok (if va <? vb then (if vb <? vc then b else if va <? vc then c else a)
          else (if vc <? vb then b else if va <? vc then a else c)).

(** The inner loop of [inssort]: [front] is what is in front of the string, the nearest first. *)
Fixpoint sink (depth : nat) (x : list Z) (front : list (list Z)) : list (list Z) :=
  match front with
  | [] => [x]
  | y :: front' => if compare_depth y x depth <=? 0 then x :: front else y :: sink depth x front'
  end.

Definition inssort (a : list (list Z)) (depth : nat) : list (list Z) :=
  rev (fold_left (λ front x, sink depth x front) a []).

(** The pointers of the partition. *)
Record cut := Cut { pa : nat; pb : nat; pc : nat; pd : nat }.

(** One round of the loop that moves [pb] up: the new state, or [inr] when it stops. *)
Definition up_step (depth : nat) (partval : Z) (st : list (list Z) * cut) :
    res (list (list Z) * cut + list (list Z) * cut) :=
  let '(a, k) := st in
  if (pb k <=? pc k)%nat then
    c ← chfunc a (pb k) depth;
    let r := c - partval in
    if r <=? 0 then
      if r =? 0 then a ← swap2 a (pa k) (pb k); Ok (inl (a, Cut (S (pa k)) (S (pb k)) (pc k) (pd k)))
      else Ok (inl (a, Cut (pa k) (S (pb k)) (pc k) (pd k)))
    else Ok (inr st)
  else Ok (inr st).

Definition down_step (depth : nat) (partval : Z) (st : list (list Z) * cut) :
    res (list (list Z) * cut + list (list Z) * cut) :=
  let '(a, k) := st in
  if (pb k <=? pc k)%nat then
    c ← chfunc a (pc k) depth;
    let r := c - partval in
    if 0 <=? r then
      if r =? 0 then a ← swap2 a (pc k) (pd k); Ok (inl (a, Cut (pa k) (pb k) (pc k - 1) (pd k - 1)))
      else Ok (inl (a, Cut (pa k) (pb k) (pc k - 1) (pd k)))
    else Ok (inr st)
  else Ok (inr st).

Definition partition_step (depth : nat) (partval : Z) (st : list (list Z) * cut) :
    res (list (list Z) * cut + list (list Z) * cut) :=
  let n := S (length st.1) in
  st ← iterate n (up_step depth partval) st;
  st ← iterate n (down_step depth partval) st;
  let '(a, k) := st in
  if (pc k <? pb k)%nat then Ok (inr st)
  else a ← swap2 a (pb k) (pc k); Ok (inl (a, Cut (pa k) (S (pb k)) (pc k - 1) (pd k))).

(** The pivot, for more than ten strings. *)
Definition choose_pivot (a : list (list Z)) (depth : nat) : res nat :=
  let n := length a in
  let d := (n / 8)%nat in
  r ← (if (50 <? n)%nat then
         pl ← med3func a 0 d (2 * d) depth;
         pm ← med3func a (n / 2 - d) (n / 2) (n / 2 + d) depth;
         pn ← med3func a (n - 1 - 2 * d) (n - 1 - d) (n - 1) depth; Ok (pl, pm, pn)
       else Ok (0, n / 2, n - 1)%nat);
  let '(pl, pm, pn) := r in
  med3func a pl pm pn depth.

(** The partition: smaller, equal and greater strings, and where the parts meet. *)
Definition split3 (a : list (list Z)) (depth : nat) : res (list (list Z) * cut) :=
  let n := length a in
  pm ← choose_pivot a depth;
  a ← swap2 a 0 pm;
  partval ← chfunc a 0 depth;
  st ← iterate n (partition_step depth partval) (a, Cut 1 1 (n - 1) (n - 1));
  let '(a, k) := st in
  let r := Nat.min (pa k) (pb k - pa k) in
  a ← vecswap2 a 0 (pb k - r) r;
  let r := Nat.min (pd k - pc k) (n - pd k - 1) in
  a ← vecswap2 a (pb k) (n - r) r;
  Ok (a, k).

Fixpoint mksort (fuel : nat) (a : list (list Z)) (depth : nat) : res (list (list Z)) :=
  match fuel with
  | O => Fail OutOfFuel
  | S fuel =>
      let n := length a in
      if (n <=? 10)%nat then Ok (inssort a depth)
      else
        st ← split3 a depth;
        let '(a, k) := st in
        let r := (pb k - pa k)%nat in
        l ← (if (1 <? r)%nat then mksort fuel (take r a) depth else Ok (take r a));
        let a := l ++ drop r a in
        let m := (pa k + n - pd k - 1)%nat in
        c ← chfunc a r depth;
        e ← (if negb (c =? 0) then mksort fuel (take m (drop r a)) (S depth) else Ok (take m (drop r a)));
        let r' := (pd k - pc k)%nat in
        g ← (if (1 <? r')%nat then mksort fuel (drop (n - r') a) depth else Ok (drop (n - r') a));
        Ok (l ++ e ++ g)
  end.

(** Enough calls: one for each character, and the NUL, of each string. *)
Definition weight (depth : nat) (a : list (list Z)) : nat := sum_list_with (λ s, (S (length s) - depth)%nat) a.
Definition sort_fuel (a : list (list Z)) (depth : nat) : nat := S (weight depth a).

(** [sort(false)]. *)
Definition sort (a : list (list Z)) : res (list (list Z)) := mksort (sort_fuel a 0) a 0.

(** ** [findSorted] *)

Definition find_step (v : list (list Z)) (target : list Z) (st : Z * Z) : res (Z * Z + option Z) :=
  let '(low, high) := st in
  if 1 <? high - low then
    let probe := Z.shiftr (u32 (low + high)) 1 in
    key ← rd v probe;
    let cmp := compare key target in
    Ok (if 0 <? cmp then inl (low, probe) else if cmp =? 0 then inr (Some probe) else inl (probe, high))
  else if low =? -1 then Ok (inr None)
  else
    key ← rd v low;
    Ok (inr (if negb (compare key target =? 0) then None else Some low)).

Definition findSorted (v : list (list Z)) (target : list Z) : res (option Z) :=
  iterate (S (length v)) (find_step v target) (-1, Z.of_nat (length v)).

(** ** The lexicographic order *)

Fixpoint lexcmp (a b : list Z) : comparison :=
  match a, b with
  | [], [] => Eq
  | [], _ => Lt
  | _, [] => Gt
  | x :: a', y :: b' => match x ?= y with Eq => lexcmp a' b' | c => c end
  end.

Definition lle (a b : list Z) : Prop := lexcmp a b ≠ Gt.

Lemma lexcmp_refl a : lexcmp a a = Eq.
Proof. induction a as [|x a IH]; simpl; [done|]. by rewrite Z.compare_refl. Qed.

Lemma lexcmp_eq a b : lexcmp a b = Eq → a = b.
Proof.
  revert b. induction a as [|x a IH]; intros [|y b]; simpl; try done.
  destruct (Z.compare_spec x y) as [->| |]; [|done..]. intros H. f_equal. by apply IH.
Qed.

Lemma lexcmp_antisym a b : lexcmp b a = CompOpp (lexcmp a b).
Proof.
  revert b. induction a as [|x a IH]; intros [|y b]; simpl; try done.
  rewrite (Z.compare_antisym x y). destruct (x ?= y); simpl; auto.
Qed.

#[export] Instance lle_trans : Transitive lle.
Proof.
  unfold lle. intros a. induction a as [|x a IH]; intros [|y b] [|z c]; simpl; try done.
  destruct (Z.compare_spec x y), (Z.compare_spec y z), (Z.compare_spec x z); try lia; try done.
  apply IH.
Qed.

Lemma lle_total a b : lle a b ∨ lle b a.
Proof. unfold lle. rewrite (lexcmp_antisym a b). destruct (lexcmp a b); simpl; auto. Qed.

Lemma lle_antisym a b : lle a b → lle b a → a = b.
Proof.
  unfold lle. rewrite (lexcmp_antisym a b). intros H1 H2. apply lexcmp_eq. by destruct (lexcmp a b).
Qed.

Lemma lle_lt_trans a b c : lle a b → lexcmp b c = Lt → lexcmp a c = Lt.
Proof.
  intros Hab Hbc. assert (Hac : lle a c) by (transitivity b; [done|]; unfold lle; by rewrite Hbc).
  unfold lle in Hac. destruct (lexcmp a c) eqn:E; [|done|done]. apply lexcmp_eq in E as ->.
  unfold lle in Hab. by rewrite lexcmp_antisym, Hbc in Hab.
Qed.

Lemma gt_lle_trans a b c : lle a b → lexcmp a c = Gt → lexcmp b c = Gt.
Proof.
  intros Hab Hac. rewrite (lexcmp_antisym c b). rewrite (lexcmp_antisym c a) in Hac.
  rewrite CompOpp_iff in Hac. unfold lle in Hab. destruct (lexcmp c b) eqn:E; simpl; [..|done|].
  - apply lexcmp_eq in E as ->. by rewrite lexcmp_antisym, Hac in Hab.
  - exfalso. assert (H : lle b c) by (unfold lle; by rewrite lexcmp_antisym, E).
    apply (lle_trans a b c Hab) in H. unfold lle in H. by rewrite lexcmp_antisym, Hac in H.
Qed.

(** The comparison functions decide it, for strings the length of which is an [int]. *)
Lemma memcmp_lex a b la lb :
  (la = Z.of_nat (length a)) → lb = Z.of_nat (length b) → la < 2 ^ 31 → lb < 2 ^ 31 →
  let min := Nat.min (length a) (length b) in
  let r := memcmp (take min a) (take min b) in
  ((if r =? 0 then i32 (la - lb) else r) ?= 0) = lexcmp a b.
Proof.
  intros Ha Hb Hla Hlb. simpl.
  assert (Hi : i32 (la - lb) = la - lb) by (unfold i32; rewrite Z.mod_small by lia; lia). rewrite Hi. clear Hi Hla Hlb.
  replace (la - lb) with (Z.of_nat (length a) - Z.of_nat (length b)) by lia. clear la lb Ha Hb.
  revert b. induction a as [|x a IH]; intros [|y b]; try done. simpl.
  destruct (Z.eqb_spec x y) as [->|Hne].
  - rewrite Z.compare_refl, <- IH. replace (Z.of_nat (S (length a)) - Z.of_nat (S (length b)))
      with (Z.of_nat (length a) - Z.of_nat (length b)) by lia. done.
  - destruct (Z.eqb_spec (x - y) 0); [lia|]. destruct (Z.compare_spec x y); [lia|..].
    + apply Z.compare_lt_iff. lia.
    + apply Z.compare_gt_iff. lia.
Qed.

Definition short (s : list Z) : Prop := Z.of_nat (length s) < 2 ^ 31.

Lemma compare_lex a b : short a → short b → (compare a b ?= 0) = lexcmp a b.
Proof. intros Ha Hb. by apply memcmp_lex. Qed.

Lemma compare_depth_lex a b d :
  (d <= length a)%nat → (d <= length b)%nat → short a → short b →
  (compare_depth a b d ?= 0) = lexcmp (drop d a) (drop d b).
Proof.
  unfold short. intros Ha Hb Hsa Hsb. unfold compare_depth. destruct (Nat.ltb_spec (Nat.min (length a) (length b)) d); [lia|].
  rewrite <- (memcmp_lex (drop d a) (drop d b) (Z.of_nat (length a) - Z.of_nat d) (Z.of_nat (length b) - Z.of_nat d));
    rewrite ?length_drop; try lia.
  replace (Z.of_nat (length a) - Z.of_nat d - (Z.of_nat (length b) - Z.of_nat d))
    with (Z.of_nat (length a) - Z.of_nat (length b)) by lia.
  by replace (Nat.min (length a - d) (length b - d)) with (Nat.min (length a) (length b) - d)%nat by lia.
Qed.

Lemma compare_depth_le a b d :
  (d <= length a)%nat → (d <= length b)%nat → short a → short b →
  (compare_depth a b d <=? 0) = true ↔ lle (drop d a) (drop d b).
Proof.
  intros. unfold lle. rewrite <- compare_depth_lex by done. rewrite Z.leb_le. apply Z.compare_le_iff.
Qed.

(** ** The character at a depth *)

Definition cval (d : nat) (s : list Z) : Z := schar (nth d (s ++ [0]) 0).

(** Strings the sort can work on from depth [d]: ASCII, without NUL, at least [d] long. *)
Definition deep (d : nat) (s : list Z) : Prop :=
  Forall (λ c, 0 < c < 128) s ∧ (d <= length s)%nat ∧ short s.

Lemma chfunc_at (a : list (list Z)) i d s :
  a !! i = Some s → (d <= length s)%nat → chfunc a i d = Ok (cval d s).
Proof.
  intros Ha Hd. unfold chfunc, get. rewrite (rd_lookup _ _ _ Ha). cbn [mbind res_bind].
  destruct (lookup_lt_is_Some_2 (s ++ [0]) d) as [c Hc]; [rewrite length_app; simpl; lia|].
  rewrite (rd_lookup _ _ _ Hc). cbn [mbind res_bind]. unfold cval. by rewrite (nth_lookup_Some _ _ _ _ Hc).
Qed.

(** It starts what is left of the string; the NUL means that nothing is left. *)
Lemma cval_drop d s :
  deep d s → (cval d s = 0 ∧ drop d s = []) ∨ (0 < cval d s ∧ drop d s = cval d s :: drop (S d) s ∧ deep (S d) s).
Proof.
  intros (Hc & Hd & Hs). unfold cval. destruct (decide (d = length s)) as [->|Hne].
  - left. rewrite drop_all, app_nth2, Nat.sub_diag by lia. done.
  - right. destruct (lookup_lt_is_Some_2 s d) as [c Hl]; [lia|].
    rewrite (nth_lookup_Some _ _ _ c) by by apply lookup_app_l_Some.
    rewrite (drop_S _ _ _ Hl). pose proof (Forall_lookup_1 _ _ _ _ Hc Hl) as Hb. simpl in Hb.
    unfold schar. zcases; [|lia]. split; [lia|]. split; [done|]. split; [done|]. split; [lia|done].
Qed.

Lemma cval_less d s t : deep d s → deep d t → cval d s < cval d t → lle (drop d s) (drop d t).
Proof.
  intros Hs Ht Hlt. unfold lle.
  destruct (cval_drop d s Hs) as [[E ->]|(E & -> & _)], (cval_drop d t Ht) as [[E' ->]|(E' & -> & _)]; simpl; try lia; try done.
  by rewrite (proj2 (Z.compare_lt_iff _ _) Hlt).
Qed.

Lemma cval_equal d s t :
  deep d s → deep d t → cval d s = cval d t → lle (drop (S d) s) (drop (S d) t) → lle (drop d s) (drop d t).
Proof.
  intros Hs Ht He. unfold lle.
  destruct (cval_drop d s Hs) as [[E ->]|(E & -> & _)], (cval_drop d t Ht) as [[E' ->]|(E' & -> & _)]; simpl; try lia; try done.
  by rewrite He, Z.compare_refl.
Qed.

(** ** Insertion sort *)

(** The order of the strings from a depth on. *)
Definition from (d : nat) (s t : list Z) : Prop := lle (drop d s) (drop d t).

#[export] Instance from_trans d : Transitive (from d).
Proof. intros s t u. unfold from. apply lle_trans. Qed.

Lemma StronglySorted_snoc {A} (R : A → A → Prop) l x :
  StronglySorted R l → Forall (λ y, R y x) l → StronglySorted R (l ++ [x]).
Proof.
  induction 1 as [|y l Hl IH Hy]; intros Hx; simpl; [by repeat constructor|].
  apply Forall_cons in Hx as [Hyx Hx]. constructor; [auto|]. apply Forall_app. by repeat constructor.
Qed.

Lemma StronglySorted_rev {A} (R : A → A → Prop) l :
  StronglySorted (λ x y, R y x) l → StronglySorted R (rev l).
Proof.
  induction 1 as [|x l Hl IH Hx]; simpl; [constructor|]. apply StronglySorted_snoc; [done|].
  by rewrite <- (Permutation_rev l).
Qed.

Lemma sink_perm d x front : sink d x front ≡ₚ x :: front.
Proof.
  induction front as [|y front IH]; simpl; [done|]. destruct (compare_depth y x d <=? 0); [done|].
  rewrite IH. apply perm_swap.
Qed.

Lemma sink_sorted d x front :
  deep d x → Forall (deep d) front → StronglySorted (λ s t, from d t s) front →
  StronglySorted (λ s t, from d t s) (sink d x front).
Proof.
  intros Hx Hf Hs. induction Hs as [|y front Hs IH Hy]; simpl; [by repeat constructor|].
  apply Forall_cons in Hf as [Hdy Hf]. pose proof Hx as (_ & Hlx & Hsx). pose proof Hdy as (_ & Hly & Hsy).
  destruct (compare_depth y x d <=? 0) eqn:E.
  - apply compare_depth_le in E; [|done..]. constructor; [by constructor|]. constructor; [done|].
    eapply Forall_impl; [exact Hy|]. intros z Hz. simpl. unfold from in *. by transitivity (drop d y).
  - constructor; [by apply IH|]. rewrite sink_perm. constructor; [|done]. unfold from.
    destruct (lle_total (drop d x) (drop d y)) as [H|H]; [done|].
    apply compare_depth_le in H; [|done..]. by rewrite E in H.
Qed.

Lemma inssort_spec d a :
  Forall (deep d) a → inssort a d ≡ₚ a ∧ StronglySorted (from d) (inssort a d).
Proof.
  intros Ha. unfold inssort.
  assert (H : ∀ front, Forall (deep d) front → StronglySorted (λ s t, from d t s) front →
    fold_left (λ front x, sink d x front) a front ≡ₚ a ++ front ∧
    StronglySorted (λ s t, from d t s) (fold_left (λ front x, sink d x front) a front)).
  { induction Ha as [|x a Hx _ IH]; intros front Hf Hs; simpl; [done|].
    destruct (IH (sink d x front)) as [Hp Hs'].
    - rewrite sink_perm. by constructor.
    - by apply sink_sorted.
    - split; [|done]. rewrite Hp, sink_perm. by rewrite <- Permutation_middle. }
  destruct (H [] (Forall_nil_2 _) (SSorted_nil _)) as [Hp Hs]. split.
  - rewrite <- Permutation_rev, Hp. by rewrite app_nil_r.
  - by apply StronglySorted_rev.
Qed.

(** ** Exchanges *)

Lemma lookup_mid {A} (l1 : list A) x l2 : (l1 ++ x :: l2) !! length l1 = Some x.
Proof. by rewrite lookup_app_r, Nat.sub_diag. Qed.

Lemma get_mid (l1 : list (list Z)) x l2 i : i = length l1 → get (l1 ++ x :: l2) i = Ok x.
Proof. intros ->. unfold get. apply rd_lookup, lookup_mid. Qed.

Lemma swap2_at l1 x l2 y l3 i j :
  i = length l1 → j = (length l1 + S (length l2))%nat →
  swap2 (l1 ++ x :: l2 ++ y :: l3) i j = Ok (l1 ++ y :: l2 ++ x :: l3).
Proof.
  intros -> ->. unfold swap2. rewrite (get_mid l1 x _ _ eq_refl). cbn [mbind res_bind].
  assert (E : ∀ z, l1 ++ z :: l2 ++ y :: l3 = (l1 ++ z :: l2) ++ y :: l3) by (intros; by rewrite <- app_assoc).
  rewrite (E x), get_mid by (rewrite length_app; simpl; lia). cbn [mbind res_bind]. rewrite <- (E x).
  rewrite insert_app_r_alt, Nat.sub_diag by lia. simpl. rewrite (E y), insert_app_r_alt by (rewrite length_app; simpl; lia).
  rewrite length_app. simpl. rewrite Nat.sub_diag. simpl. by rewrite <- app_assoc.
Qed.

Lemma swap2_self l1 x l2 i : i = length l1 → swap2 (l1 ++ x :: l2) i i = Ok (l1 ++ x :: l2).
Proof.
  intros ->. unfold swap2. rewrite (get_mid l1 x _ _ eq_refl). cbn [mbind res_bind].
  assert (H := lookup_mid l1 x l2). by rewrite list_insert_insert_eq, list_insert_id.
Qed.

(** Moving a string to the place where two segments meet; the segment between is turned. *)
Lemma swap2_left l1 l x l2 i j :
  i = length l1 → j = (length l1 + length l)%nat →
  ∃ l', l' ≡ₚ l ∧ swap2 (l1 ++ l ++ x :: l2) i j = Ok (l1 ++ x :: l' ++ l2).
Proof.
  intros -> ->. destruct l as [|y l].
  - exists []. split; [done|]. simpl. rewrite Nat.add_0_r. by apply swap2_self.
  - exists (l ++ [y]). split; [symmetry; apply Permutation_cons_append|]. simpl.
    rewrite swap2_at by (simpl; lia). by rewrite <- app_assoc.
Qed.

Lemma swap2_right l1 x l l2 i j :
  i = length l1 → j = (length l1 + length l)%nat →
  ∃ l', l' ≡ₚ l ∧ swap2 (l1 ++ x :: l ++ l2) i j = Ok (l1 ++ l' ++ x :: l2).
Proof.
  intros -> ->. destruct l as [|y l _] using rev_ind.
  - exists []. split; [done|]. simpl. rewrite Nat.add_0_r. by apply swap2_self.
  - exists (y :: l). split; [apply Permutation_cons_append|]. rewrite <- app_assoc. simpl.
    rewrite swap2_at by (rewrite ?length_app; simpl; lia). done.
Qed.

Lemma vecswap2_at l1 xs l2 ys l3 i j n :
  length xs = n → length ys = n → i = length l1 → j = (length l1 + n + length l2)%nat →
  vecswap2 (l1 ++ xs ++ l2 ++ ys ++ l3) i j n = Ok (l1 ++ ys ++ l2 ++ xs ++ l3).
Proof.
  revert l1 xs l2 ys l3 i j. induction n as [|n IH]; intros l1 xs l2 ys l3 i j Hx Hy -> ->.
  - by destruct xs, ys.
  - destruct xs as [|x xs], ys as [|y ys]; try done. simpl in Hx, Hy. cbn [vecswap2].
    assert (E : ∀ x y : list Z, l1 ++ (x :: xs) ++ l2 ++ (y :: ys) ++ l3 = l1 ++ x :: (xs ++ l2) ++ y :: ys ++ l3).
    { intros. simpl. by rewrite <- app_assoc. }
    rewrite E, swap2_at by (rewrite ?length_app; lia). cbn [mbind res_bind].
    assert (E' : l1 ++ y :: (xs ++ l2) ++ x :: ys ++ l3 = (l1 ++ [y]) ++ xs ++ (l2 ++ [x]) ++ ys ++ l3).
    { by rewrite <- !app_assoc. }
    rewrite E', IH by (rewrite ?length_app; simpl; lia). by rewrite <- !app_assoc.
Qed.

(** Two neighbouring segments, exchanged up to the order of their strings. *)
Lemma vecswap2_segments l1 xs ys l2 i j n :
  n = Nat.min (length xs) (length ys) → i = length l1 → (j + n)%nat = (length l1 + length xs + length ys)%nat →
  ∃ xs' ys', xs' ≡ₚ xs ∧ ys' ≡ₚ ys ∧ vecswap2 (l1 ++ xs ++ ys ++ l2) i j n = Ok (l1 ++ ys' ++ xs' ++ l2).
Proof.
  intros -> Hi Hj. destruct (Nat.le_ge_cases (length xs) (length ys)) as [Hle|Hge].
  - rewrite (Nat.min_l _ _ Hle) in *. exists xs, (drop (length ys - length xs) ys ++ take (length ys - length xs) ys).
    split; [done|split; [by rewrite Permutation_app_comm, take_drop|]].
    rewrite <- (take_drop (length ys - length xs) ys) at 1. rewrite <- !app_assoc.
    apply vecswap2_at; rewrite ?length_drop, ?length_take; lia.
  - rewrite (Nat.min_r _ _ Hge) in *. exists (drop (length ys) xs ++ take (length ys) xs), ys.
    split; [by rewrite Permutation_app_comm, take_drop|split; [done|]].
    rewrite <- (take_drop (length ys) xs) at 1. rewrite <- !app_assoc.
    apply vecswap2_at; rewrite ?length_drop, ?length_take; lia.
Qed.

(** ** The partition *)

Section Partition.
Context (d : nat) (v : Z) (a0 : list (list Z)) (Ha0 : Forall (λ s : list Z, (d <= length s)%nat) a0).
Implicit Types (a : list (list Z)) (k : cut) (eL ls un gs eR : list (list Z)).

(** Equal to the pivot, smaller, not looked at yet, greater, and equal again. *)
Definition parts a k eL ls un gs eR : Prop :=
  a = eL ++ ls ++ un ++ gs ++ eR ∧ a ≡ₚ a0 ∧
  pa k = length eL ∧ pb k = (length eL + length ls)%nat ∧
  S (pc k) = (length eL + length ls + length un)%nat ∧
  S (pd k) = (length eL + length ls + length un + length gs)%nat ∧
  (0 < length eL)%nat ∧ Forall (λ s, cval d s = v) (eL ++ eR) ∧
  Forall (λ s, cval d s < v) ls ∧ Forall (λ s, v < cval d s) gs.

Lemma parts_ch a k eL ls un gs eR l1 x l2 i :
  parts a k eL ls un gs eR → a = l1 ++ x :: l2 → i = length l1 → chfunc a i d = Ok (cval d x).
Proof.
  intros (_ & Hp & _) E ->. apply chfunc_at; [rewrite E; apply lookup_mid|].
  rewrite <- Hp, E in Ha0. by apply Forall_app in Ha0 as [_ [? _]%Forall_cons].
Qed.

(** The loop that moves [pb]. *)
Lemma up_loop n a k eL ls un gs eR :
  parts a k eL ls un gs eR → (length un < n)%nat →
  ∃ a' k' eL' ls' un', iterate n (up_step d v) (a, k) = Ok (a', k') ∧ parts a' k' eL' ls' un' gs eR ∧
    (length un' <= length un)%nat ∧ match un' with [] => True | x :: _ => v < cval d x end.
Proof.
  revert a k eL ls un. induction n as [|n IH]; intros a k eL ls un H Hn; [lia|].
  pose proof H as (Ea & Hp & Hpa & Hpb & Hpc & Hpd & Hpos & He & Hl & Hg). cbn [iterate]. unfold up_step.
  destruct un as [|x un].
  - simpl in Hpc. destruct (Nat.leb_spec (pb k) (pc k)); [lia|]. by exists a, k, eL, ls, [].
  - simpl in Hpc, Hpd. destruct (Nat.leb_spec (pb k) (pc k)); [|lia].
    assert (E : a = (eL ++ ls) ++ x :: un ++ gs ++ eR) by by rewrite Ea, <- !app_assoc.
    rewrite (parts_ch _ _ _ _ _ _ _ _ _ _ _ H E) by by rewrite length_app.
    cbn [mbind res_bind]. destruct (Z.leb_spec (cval d x - v) 0); [destruct (Z.eqb_spec (cval d x - v) 0)|].
    + destruct (swap2_left eL ls x (un ++ gs ++ eR) (pa k) (pb k)) as (ls' & Hls & Es); [done|lia|].
      rewrite Ea. simpl. rewrite Es. cbn [mbind res_bind].
      destruct (IH (eL ++ x :: ls' ++ un ++ gs ++ eR) (Cut (S (pa k)) (S (pb k)) (pc k) (pd k)) (eL ++ [x]) ls' un)
        as (a' & k' & eL' & ls'' & un' & Ei & Hparts & Hle & Hx); [|simpl in Hn; lia|].
      2: { exists a', k', eL', ls'', un'. simpl. splits; [done|done|lia|done]. }
      pose proof (Permutation_length Hls) as Hlen. unfold parts. simpl. rewrite !length_app, <- !app_assoc. simpl.
      splits; [done| |lia..| |by rewrite Hls|done].
      * rewrite <- Hp, Ea, Hls. apply Permutation_app_head. simpl. by rewrite Permutation_middle.
      * rewrite Forall_app in He |- *. rewrite Forall_cons. split; [apply He|split; [lia|apply He]].
    + destruct (IH a (Cut (pa k) (S (pb k)) (pc k) (pd k)) eL (ls ++ [x]) un)
        as (a' & k' & eL' & ls'' & un' & Ei & Hparts & Hle & Hx); [|simpl in Hn; lia|].
      2: { exists a', k', eL', ls'', un'. simpl. splits; [done|done|lia|done]. }
      unfold parts. simpl. rewrite !length_app. simpl.
      splits; [by rewrite Ea, <- !app_assoc|done|lia..|done| |done].
      apply Forall_app. split; [done|]. repeat constructor. lia.
    + exists a, k, eL, ls, (x :: un). splits; [done|done|done|lia].
Qed.

(** The loop that moves [pc]. *)
Lemma down_loop n a k eL ls un gs eR :
  parts a k eL ls un gs eR → (length un < n)%nat → match un with [] => True | x :: _ => v < cval d x end →
  ∃ a' k' un' gs' eR', iterate n (down_step d v) (a, k) = Ok (a', k') ∧ parts a' k' eL ls un' gs' eR' ∧
    (length un' <= length un)%nat ∧ 
    (un' = [] ∨ ∃ x un'' y, un' = x :: un'' ++ [y] ∧ cval d y < v < cval d x).
Proof.
  revert a k un gs eR. induction n as [|n IH]; intros a k un gs eR H Hn Hfirst; [lia|].
  pose proof H as (Ea & Hp & Hpa & Hpb & Hpc & Hpd & Hpos & He & Hl & Hg). cbn [iterate]. unfold down_step.
  destruct un as [|y un _] using rev_ind.
  - simpl in Hpc. destruct (Nat.leb_spec (pb k) (pc k)); [lia|]. exists a, k, [], gs, eR. auto.
  - rewrite length_app in Hpc, Hpd, Hn. simpl in Hpc, Hpd, Hn. destruct (Nat.leb_spec (pb k) (pc k)); [|lia].
    assert (E : a = (eL ++ ls ++ un) ++ y :: gs ++ eR) by by rewrite Ea, <- !app_assoc.
    rewrite (parts_ch _ _ _ _ _ _ _ _ _ _ _ H E) by (rewrite !length_app; lia).
    cbn [mbind res_bind]. destruct (Z.leb_spec 0 (cval d y - v)); [destruct (Z.eqb_spec (cval d y - v) 0)|].
    + destruct (swap2_right (eL ++ ls ++ un) y gs eR (pc k) (pd k)) as (gs' & Hgs & Es); [rewrite !length_app; lia..|].
      rewrite E, Es. cbn [mbind res_bind].
      destruct (IH ((eL ++ ls ++ un) ++ gs' ++ y :: eR) (Cut (pa k) (pb k) (pc k - 1) (pd k - 1)) un gs' (y :: eR))
        as (a' & k' & un' & gs'' & eR' & Ei & Hparts & Hle & Hx); [|lia|by destruct un|].
      2: { exists a', k', un', gs'', eR'. rewrite length_app. splits; [done|done|lia|done]. }
      pose proof (Permutation_length Hgs) as Hlen. unfold parts. simpl. rewrite <- !app_assoc.
      splits; [done| |lia..| |done|by rewrite Hgs].
      * rewrite <- Hp, Ea, Hgs, <- !app_assoc. do 3 apply Permutation_app_head. simpl. by rewrite Permutation_middle.
      * rewrite Forall_app, Forall_cons. apply Forall_app in He as [? ?]. splits; [done|lia|done].
    + destruct (IH a (Cut (pa k) (pb k) (pc k - 1) (pd k)) un (y :: gs) eR)
        as (a' & k' & un' & gs'' & eR' & Ei & Hparts & Hle & Hx); [|lia|by destruct un|].
      2: { exists a', k', un', gs'', eR'. rewrite length_app. splits; [done|done|lia|done]. }
      unfold parts. simpl. splits; [by rewrite Ea, <- !app_assoc|done|lia..|done|done|].
      constructor; [lia|done].
    + exists a, k, (un ++ [y]), gs, eR. splits; [done|done|done|]. right. destruct un as [|x un]; simpl in Hfirst; [lia|].
      exists x, un, y. split; [done|lia].
Qed.

(** The loops together. *)
Lemma partition_loop n a k eL ls un gs eR :
  parts a k eL ls un gs eR → (length un < n)%nat →
  ∃ a' k' eL' ls' gs' eR', iterate n (partition_step d v) (a, k) = Ok (a', k') ∧ parts a' k' eL' ls' [] gs' eR'.
Proof.
  revert a k eL ls un gs eR. induction n as [|n IH]; intros a k eL ls un gs eR H Hn; [lia|].
  cbn [iterate]. unfold partition_step at 1. cbn [fst].
  assert (Hun : (length un < S (length a))%nat) by (destruct H as (-> & _); rewrite !length_app; lia).
  destruct (up_loop (S (length a)) a k eL ls un gs eR H Hun) as (a1 & k1 & eL1 & ls1 & un1 & E1 & H1 & Hle1 & Hfirst).
  destruct (down_loop (S (length a)) a1 k1 eL1 ls1 un1 gs eR H1 ltac:(lia) Hfirst)
    as (a2 & k2 & un2 & gs2 & eR2 & E2 & H2 & Hle2 & Hlast).
  rewrite E1. cbn [mbind res_bind]. rewrite E2. cbn [mbind res_bind].
  pose proof H2 as (Ea & Hp & Hpa & Hpb & Hpc & Hpd & Hpos & He & Hl & Hg).
  destruct Hlast as [->|(x & un3 & y & -> & Hxy)].
  - simpl in Hpc. destruct (Nat.ltb_spec (pc k2) (pb k2)); [|lia]. by exists a2, k2, eL1, ls1, gs2, eR2.
  - cbn [length] in Hpc, Hpd, Hle2. rewrite length_app in Hpc, Hpd, Hle2. cbn [length] in Hpc, Hpd, Hle2.
    destruct (Nat.ltb_spec (pc k2) (pb k2)); [lia|].
    assert (E : a2 = (eL1 ++ ls1) ++ x :: un3 ++ y :: gs2 ++ eR2) by (rewrite Ea, <- !app_assoc; simpl; by rewrite <- !app_assoc).
    rewrite E, swap2_at by (rewrite length_app; lia). cbn [mbind res_bind].
    apply (IH _ _ eL1 (ls1 ++ [y]) un3 (x :: gs2) eR2); [|lia].
    unfold parts. simpl. rewrite length_app, <- !app_assoc. simpl. splits; [done| |lia..|done| |constructor; [lia|done]].
    + rewrite <- Hp, E, <- !app_assoc. do 2 apply Permutation_app_head.
      rewrite <- !Permutation_middle. apply perm_swap.
    + apply Forall_app. split; [done|]. repeat constructor. lia.
Qed.
End Partition.

Section Pivot.
Context (d : nat) (a : list (list Z)) (Ha : Forall (λ s : list Z, (d <= length s)%nat) a).

Lemma chfunc_ok i : (i < length a)%nat → ∃ c, chfunc a i d = Ok c.
Proof.
  intros Hi. destruct (lookup_lt_is_Some_2 a i Hi) as [s Hs]. eexists. apply (chfunc_at _ _ _ _ Hs).
  by apply (Forall_lookup_1 _ _ _ _ Ha Hs).
Qed.

Lemma med3func_ok i j k :
  (i < length a)%nat → (j < length a)%nat → (k < length a)%nat → ∃ m, med3func a i j k d = Ok m ∧ (m < length a)%nat.
Proof.
  intros Hi Hj Hk. unfold med3func.
  destruct (chfunc_ok i Hi) as [va ->], (chfunc_ok j Hj) as [vb ->], (chfunc_ok k Hk) as [vc ->]. cbn [mbind res_bind].
  repeat case_match; eauto.
Qed.

Lemma choose_pivot_ok : (10 < length a)%nat → ∃ m, choose_pivot a d = Ok m ∧ (m < length a)%nat.
Proof.
  intros Hn. unfold choose_pivot. assert (Hd := Nat.div_mod_eq (length a) 8). assert (Hh := Nat.div_mod_eq (length a) 2).
  assert (Hm := Nat.mod_upper_bound (length a) 8 ltac:(lia)). assert (Hm' := Nat.mod_upper_bound (length a) 2 ltac:(lia)).
  destruct (Nat.ltb_spec 50 (length a)); cbn [mbind res_bind].
  - destruct (med3func_ok 0 (length a / 8) (2 * (length a / 8))) as (pl & -> & Hpl); [lia..|].
    destruct (med3func_ok (length a / 2 - length a / 8) (length a / 2) (length a / 2 + length a / 8)) as (pm & -> & Hpm); [lia..|].
    destruct (med3func_ok (length a - 1 - 2 * (length a / 8)) (length a - 1 - length a / 8) (length a - 1)) as (pn & -> & Hpn); [lia..|].
    cbn [mbind res_bind]. by apply med3func_ok.
  - apply med3func_ok; lia.
Qed.
End Pivot.

Lemma split3_spec d a :
  Forall (λ s : list Z, (d <= length s)%nat) a → (10 < length a)%nat →
  ∃ v ls eq gs k, split3 a d = Ok (ls ++ eq ++ gs, k) ∧ ls ++ eq ++ gs ≡ₚ a ∧
    (pb k - pa k)%nat = length ls ∧ (pa k + length a - pd k - 1)%nat = length eq ∧
    (pd k - pc k)%nat = length gs ∧ (0 < length eq)%nat ∧
    Forall (λ s, cval d s = v) eq ∧ Forall (λ s, cval d s < v) ls ∧ Forall (λ s, v < cval d s) gs.
Proof.
  intros Ha Hn. unfold split3. destruct (choose_pivot_ok d a Ha Hn) as (m & -> & Hm). cbn [mbind res_bind].
  destruct (lookup_lt_is_Some_2 a m Hm) as [x Hx]. pose proof (take_drop_middle a m x Hx) as Ea.
  destruct (swap2_left [] (take m a) x (drop (S m) a) 0 m) as (l' & Hl' & Es); [done|rewrite length_take; simpl; lia|].
  simpl in Es. rewrite Ea in Es. rewrite Es. cbn [mbind res_bind].
  assert (Hp0 : x :: l' ++ drop (S m) a ≡ₚ a).
  { rewrite Hl'. transitivity (take m a ++ x :: drop (S m) a); [apply Permutation_middle|by rewrite Ea]. }
  pose proof (Permutation_length Hp0) as Hlen. simpl in Hlen.
  rewrite (chfunc_at _ 0 d x) by (done || by apply (Forall_lookup_1 _ _ _ _ Ha Hx)). cbn [mbind res_bind].
  destruct (partition_loop d (cval d x) a Ha (length a) (x :: l' ++ drop (S m) a) (Cut 1 1 (length a - 1) (length a - 1))
    [x] [] (l' ++ drop (S m) a) [] []) as (a1 & k & eL & ls & gs & eR & -> & H).
  { unfold parts. simpl. rewrite app_nil_r. splits; [done|done|done|done|lia|lia|lia|by constructor|constructor|constructor]. }
  { lia. }
  destruct H as (-> & Hp & Hpa & Hpb & Hpc & Hpd & Hpos & He & Hl & Hg). simpl in *.
  pose proof (Permutation_length Hp) as Hlen'. rewrite !length_app in Hlen'. cbn [mbind res_bind].
  destruct (vecswap2_segments [] eL ls (gs ++ eR) 0 (pb k - Nat.min (pa k) (pb k - pa k)) (Nat.min (pa k) (pb k - pa k)))
    as (eL' & ls' & HeL & Hls & E1); [lia|done|simpl; lia|].
  simpl in E1. rewrite E1. cbn [mbind res_bind].
  destruct (vecswap2_segments (ls' ++ eL') gs eR [] (pb k) (length a - Nat.min (pd k - pc k) (length a - pd k - 1))
    (Nat.min (pd k - pc k) (length a - pd k - 1))) as (gs' & eR' & Hgs & HeR & E2).
  { lia. } { rewrite length_app, HeL, Hls. lia. } { rewrite length_app, HeL, Hls. lia. }
  rewrite !app_nil_r, <- !app_assoc in E2. rewrite E2. cbn [mbind res_bind].
  pose proof (Permutation_length HeL). pose proof (Permutation_length Hls).
  pose proof (Permutation_length HeR). pose proof (Permutation_length Hgs).
  exists (cval d x), ls', (eL' ++ eR'), gs', k. rewrite <- !app_assoc, !length_app.
  splits; try lia; try done.
  - rewrite <- Hp, Hls, HeL, HeR, Hgs, (Permutation_app_comm eR gs), !app_assoc. by rewrite (Permutation_app_comm ls eL).
  - by rewrite HeL, HeR.
  - by rewrite Hls.
  - by rewrite Hgs.
Qed.

(** ** The sort *)

#[export] Instance weight_proper d : Proper ((≡ₚ) ==> (=)) (weight d).
Proof. unfold weight. intros a b H. induction H; simpl; lia. Qed.

Lemma weight_app d a b : weight d (a ++ b) = (weight d a + weight d b)%nat.
Proof. apply sum_list_with_app. Qed.

Lemma weight_length d a : Forall (deep d) a → (length a <= weight d a)%nat.
Proof. unfold weight. induction 1 as [|s a (_ & Hd & _) _ IH]; cbn [sum_list_with length]; lia. Qed.

Lemma weight_S d a : Forall (deep (S d)) a → weight d a = (weight (S d) a + length a)%nat.
Proof. unfold weight. induction 1 as [|s a (_ & Hd & _) _ IH]; cbn [sum_list_with length]; lia. Qed.

Lemma sorted_from_equal d v a :
  Forall (deep d) a → Forall (λ s, cval d s = v) a → StronglySorted (from (S d)) a → StronglySorted (from d) a.
Proof.
  intros Hd Hv Hs. induction Hs as [|x a Hs IH Hx]; [constructor|].
  apply Forall_cons in Hd as [Hdx Hd], Hv as [Hvx Hv]. constructor; [by apply IH|].
  rewrite Forall_forall in Hx, Hd, Hv |- *. intros y Hy. apply cval_equal; [done|by apply Hd| |by apply Hx].
  by rewrite Hvx, Hv.
Qed.

Lemma sorted_ended d a : Forall (deep d) a → Forall (λ s, cval d s = 0) a → StronglySorted (from d) a.
Proof.
  intros Hd Hv. assert (H : Forall (λ s, drop d s = []) a).
  { apply Forall_forall. intros s Hin. rewrite Forall_forall in Hd, Hv.
    destruct (cval_drop d s (Hd s Hin)) as [[_ E]|[E _]]; [done|]. specialize (Hv s Hin). lia. }
  clear Hd Hv. induction H as [|x a Hx Ha IH]; constructor; [done|]. eapply Forall_impl; [exact Ha|].
  intros y Hy. unfold from. by rewrite Hx, Hy.
Qed.

Lemma deep_S d s : deep d s → cval d s ≠ 0 → deep (S d) s.
Proof. intros Hs Hc. by destruct (cval_drop d s Hs) as [[? _]|(_ & _ & ?)]. Qed.

Lemma sorted_small d (a : list (list Z)) : (length a <= 1)%nat → StronglySorted (from d) a.
Proof. destruct a as [|x [|y a]]; simpl; intros; [constructor|by repeat constructor|lia]. Qed.

(** Smaller, equal and greater strings, each part sorted, are sorted. *)
Lemma sorted_three d v ls eq gs l e g :
  Forall (deep d) ls → Forall (deep d) eq → Forall (deep d) gs →
  Forall (λ s, cval d s < v) ls → Forall (λ s, cval d s = v) eq → Forall (λ s, v < cval d s) gs →
  l ≡ₚ ls → e ≡ₚ eq → g ≡ₚ gs →
  StronglySorted (from d) l → StronglySorted (from d) e → StronglySorted (from d) g →
  StronglySorted (from d) (l ++ e ++ g).
Proof.
  intros Hdl Hde Hdg Hvl Hve Hvg Hpl Hpe Hpg Hsl Hse Hsg. rewrite Forall_forall in Hdl, Hde, Hdg, Hvl, Hve, Hvg.
  apply StronglySorted_app_2; [|done|apply StronglySorted_app_2; [|done|done]].
  - intros s t Hs Ht. rewrite Hpl in Hs. rewrite Hpe, Hpg in Ht. specialize (Hvl s Hs). specialize (Hdl s Hs).
    apply elem_of_app in Ht as [Ht|Ht]; apply cval_less; auto; [rewrite (Hve t Ht); done|].
    specialize (Hvg t Ht). lia.
  - intros s t Hs Ht. rewrite Hpe in Hs. rewrite Hpg in Ht. apply cval_less; auto. rewrite (Hve s Hs). by apply Hvg.
Qed.

Lemma chfunc_mid d l x r n :
  n = length l → (d <= length x)%nat → chfunc (l ++ x :: r) n d = Ok (cval d x).
Proof. intros -> Hd. apply chfunc_at; [apply lookup_mid|done]. Qed.

Lemma mksort_spec fuel d a :
  Forall (deep d) a → (weight d a < fuel)%nat →
  ∃ a', mksort fuel a d = Ok a' ∧ a' ≡ₚ a ∧ StronglySorted (from d) a'.
Proof.
  revert d a. induction fuel as [|fuel IH]; intros d a Ha Hw; [lia|]. cbn [mksort].
  destruct (Nat.leb_spec (length a) 10) as [Hle|Hgt].
  { eexists. split; [done|]. by apply inssort_spec. }
  destruct (split3_spec d a) as (v & ls & eq & gs & k & E & Hp & Hls & Heq & Hgs & Hpos & Hve & Hvl & Hvg); [|done|].
  { eapply Forall_impl; [exact Ha|]. by intros s (_ & ? & _). }
  rewrite E. cbn [mbind res_bind]. rewrite Hls, Heq, Hgs.
  rewrite <- Hp in Ha, Hw. pose proof (Permutation_length Hp) as Hlen. rewrite !length_app in Hlen.
  apply Forall_app in Ha as [Hdl [Hde Hdg]%Forall_app]. rewrite !weight_app in Hw.
  pose proof (weight_length d eq Hde) as Hwe.
  assert (Hl : ∃ l, (if (1 <? length ls)%nat then mksort fuel ls d else Ok ls) = Ok l ∧ l ≡ₚ ls ∧ StronglySorted (from d) l).
  { destruct (Nat.ltb_spec 1 (length ls)); [apply IH; [done|lia]|]. exists ls. split; [done|split; [done|by apply sorted_small]]. }
  assert (Hg : ∃ g, (if (1 <? length gs)%nat then mksort fuel gs d else Ok gs) = Ok g ∧ g ≡ₚ gs ∧ StronglySorted (from d) g).
  { destruct (Nat.ltb_spec 1 (length gs)); [apply IH; [done|lia]|]. exists gs. split; [done|split; [done|by apply sorted_small]]. }
  assert (He : ∃ e, (if negb (v =? 0) then mksort fuel eq (S d) else Ok eq) = Ok e ∧ e ≡ₚ eq ∧ StronglySorted (from d) e).
  { destruct (Z.eqb_spec v 0) as [->|Hv0]; simpl; [exists eq; split; [done|split; [done|by apply sorted_ended]]|].
    assert (HdS : Forall (deep (S d)) eq).
    { rewrite Forall_forall in Hde, Hve |- *. intros s Hs. apply deep_S; [by apply Hde|]. by rewrite Hve. }
    destruct (IH (S d) eq) as (e & Ee & Hpe & Hse); [done|rewrite (weight_S d eq HdS) in Hw; lia|].
    exists e. split; [done|split; [done|]]. apply (sorted_from_equal d v); [by rewrite Hpe|by rewrite Hpe|done]. }
  destruct Hl as (l & El & Hpl & Hsl), Hg as (g & Eg & Hpg & Hsg), He as (e & Ee & Hpe & Hse).
  rewrite take_app_length, drop_app_length, El. cbn [mbind res_bind].
  destruct eq as [|x eq]; [simpl in Hpos; lia|].
  assert (Hll : length l = length ls) by by rewrite Hpl.
  assert (Hdx : (d <= length x)%nat) by by apply Forall_cons in Hde as [(_ & ? & _) _].
  change (l ++ (x :: eq) ++ gs) with (l ++ x :: eq ++ gs). rewrite (chfunc_mid d l x _ _ (eq_sym Hll) Hdx).
  change (x :: eq ++ gs) with ((x :: eq) ++ gs). cbn [mbind res_bind].
  apply Forall_cons in Hve as Hvx. destruct Hvx as [-> _].
  rewrite <- Hll, drop_app_length, take_app_length, Ee. cbn [mbind res_bind].
  replace (length a - length gs)%nat with (length (l ++ x :: eq)) by (rewrite length_app; lia).
  rewrite app_assoc, drop_app_length, Eg. cbn [mbind res_bind].
  eexists. split; [done|split; [by rewrite Hpl, Hpe, Hpg|]].
  by apply (sorted_three d v ls (x :: eq) gs).
Qed.

(** ** Binary search *)

Section Find.
Context (v : list (list Z)) (target : list Z).
Context (Hs : StronglySorted lle v) (Hv : Forall short v) (Ht : short target) (Hlen : Z.of_nat (length v) < 2 ^ 30).

Lemma sorted_lookup i j s t : v !! i = Some s → v !! j = Some t → (i <= j)%nat → lle s t.
Proof.
  intros Hi Hj Hle. destruct (decide (i = j)) as [->|Hne].
  - simplify_eq. unfold lle. by rewrite lexcmp_refl.
  - rewrite <- (take_drop (S i) v) in Hs. apply (StronglySorted_app_1_elem_of _ _ _ _ _ Hs).
    + apply list_elem_of_lookup. exists i. rewrite lookup_take_lt by lia. done.
    + apply list_elem_of_lookup. exists (j - S i)%nat. rewrite lookup_drop. by replace (S i + (j - S i))%nat with j by lia.
Qed.

(** What is at [low] and before is smaller than the target, what is at [high] and after is greater. *)
Definition bracket (st : Z * Z) : Prop :=
  -1 <= st.1 < st.2 ∧ st.2 <= Z.of_nat (length v) ∧
  (∀ i s, v !! i = Some s → Z.of_nat i <= st.1 → lexcmp s target = Lt) ∧
  (∀ i s, v !! i = Some s → st.2 <= Z.of_nat i → lexcmp s target = Gt).

Definition found (r : option Z) : Prop :=
  match r with
  | Some i => 0 <= i ∧ v !! Z.to_nat i = Some target
  | None => target ∉ v
  end.

Lemma find_step_ok st :
  bracket st →
  match find_step v target st with
  | Ok (inl st') => bracket st' ∧ (Z.to_nat (st'.2 - st'.1 - 1) < Z.to_nat (st.2 - st.1 - 1))%nat
  | Ok (inr r) => found r
  | Fail _ => False
  end.
Proof.
  destruct st as [low high]. intros ([Hl Hlh] & Hh & Hlow & Hhigh). simpl in Hl, Hlh, Hh, Hlow, Hhigh.
  unfold find_step. destruct (Z.ltb_spec 1 (high - low)) as [Hgap|Hgap].
  - unfold u32. rewrite Z.mod_small, Z.shiftr_div_pow2 by lia. change (2 ^ 1) with 2.
    assert (Hp : low < (low + high) / 2 < high) by (Z.div_mod_to_equations; lia).
    destruct (lookup_lt_is_Some_2 v (Z.to_nat ((low + high) / 2))) as [key Hk]; [lia|].
    pose proof (rd_lookup _ _ _ Hk) as Er. rewrite Z2Nat.id in Er by lia. rewrite Er. cbn [mbind res_bind].
    pose proof (compare_lex key target (Forall_lookup_1 _ _ _ _ Hv Hk) Ht) as Hc.
    destruct (Z.ltb_spec 0 (compare key target)); [|destruct (Z.eqb_spec (compare key target) 0) as [E|E]].
    + rewrite (proj2 (Z.compare_gt_iff _ _)) in Hc by lia. split; [|simpl; lia]. unfold bracket. simpl.
      splits; [lia|lia|lia|done|]. intros i s Hi Hle. pose proof (sorted_lookup _ _ _ _ Hk Hi ltac:(lia)) as Hks.
      by apply (gt_lle_trans key).
    + simpl. split; [lia|]. rewrite E in Hc. symmetry in Hc. apply lexcmp_eq in Hc as ->. done.
    + rewrite (proj2 (Z.compare_lt_iff _ _)) in Hc by lia. split; [|simpl; lia]. unfold bracket. simpl.
      splits; [lia|lia|lia| |done]. intros i s Hi Hle. pose proof (sorted_lookup _ _ _ _ Hi Hk ltac:(lia)) as Hks.
      by apply (lle_lt_trans s key).
  - assert (high = low + 1) as -> by lia.
    assert (Hout : target ∉ v).
    { intros [i Hi]%list_elem_of_lookup. destruct (Z.le_gt_cases (Z.of_nat i) low) as [Hle|Hgt].
      - specialize (Hlow i target Hi Hle). by rewrite lexcmp_refl in Hlow.
      - specialize (Hhigh i target Hi ltac:(lia)). by rewrite lexcmp_refl in Hhigh. }
    destruct (Z.eqb_spec low (-1)) as [->|Hne]; [done|].
    destruct (lookup_lt_is_Some_2 v (Z.to_nat low)) as [key Hk]; [lia|].
    pose proof (rd_lookup _ _ _ Hk) as Er. rewrite Z2Nat.id in Er by lia. rewrite Er. cbn [mbind res_bind].
    pose proof (compare_lex key target (Forall_lookup_1 _ _ _ _ Hv Hk) Ht) as Hc.
    rewrite (Hlow _ _ Hk) in Hc by lia. rewrite Z.compare_lt_iff in Hc.
    destruct (Z.eqb_spec (compare key target) 0); [lia|done].
Qed.

Lemma findSorted_found : ∃ r, findSorted v target = Ok r ∧ found r.
Proof.
  apply (iterate_total _ bracket found (λ st, Z.to_nat (st.2 - st.1 - 1))); [apply find_step_ok| |simpl; lia].
  unfold bracket. simpl. splits; [lia|lia|lia|lia|]. intros i s Hi%lookup_lt_Some Hle. lia.
Qed.
End Find.

(** ** Properties *)

(** The strings [sort] is right for. *)
Definition ascii_string (s : list Z) : Prop := Forall (λ c, 0 < c < 128) s ∧ short s.

Lemma sort_ok a :
  Forall ascii_string a → ∃ a', sort a = Ok a' ∧ a' ≡ₚ a ∧ StronglySorted lle a'.
Proof.
  intros Ha. destruct (mksort_spec (sort_fuel a 0) 0 a) as (a' & E & Hp & Hs).
  - eapply Forall_impl; [exact Ha|]. intros s [H1 H2]. split; [done|split; [lia|done]].
  - unfold sort_fuel. lia.
  - exists a'. split; [exact E|split; [exact Hp|exact Hs]].
Qed.

(** C3: the three-way radix quicksort terminates, reads inside the strings, and sorts: for strings of ASCII
    characters without NUL the result is a permutation of the vector in lexicographic order. *)
Theorem sort_correct a :
  Forall ascii_string a → ∃ a', sort a = Ok a' ∧ a' ≡ₚ a ∧ StronglySorted lle a'.
Proof. apply sort_ok. Qed.

Definition sample_words : list (list Z) :=
  [BS "pear"; BS "fig"; BS "apple"; BS ""; BS "figs"; BS "kiwi"; BS "plum"; BS "fig"; BS "lime"; BS "date";
   BS "peach"; BS "melon"; BS "fi"].

Lemma sample_words_ascii : Forall ascii_string sample_words.
Proof.
  unfold sample_words. repeat (constructor; [split; [repeat constructor; lia|unfold short; simpl; lia]|]). constructor.
Qed.

Lemma sort_correct_witness :
  ∃ a', sort sample_words = Ok a' ∧ StronglySorted lle a' ∧ a' !! 0%nat = Some (BS "").
Proof.
  destruct (sort_correct sample_words sample_words_ascii) as (a' & E & _ & Hs).
  exists a'. split; [exact E|split; [exact Hs|]].
  assert (E' : match sort sample_words with Ok l => l !! 0%nat | Fail _ => None end = Some (BS "")) by (vm_compute; reflexivity).
  rewrite E in E'. exact E'.
Defined.

(** In a vector sorted by [sort], [findSorted] ends, stays in the vector and finds a string exactly when
    it is there, at the index it returns. *)
Theorem findSorted_after_sort a target :
  Forall ascii_string a → short target → Z.of_nat (length a) < 2 ^ 30 →
  ∃ a' r, sort a = Ok a' ∧ findSorted a' target = Ok r ∧
    match r with Some i => 0 <= i ∧ a' !! Z.to_nat i = Some target | None => target ∉ a end.
Proof.
  intros Ha Ht Hlen.
  destruct (mksort_spec (sort_fuel a 0) 0 a) as (a' & E & Hp & Hs); [|unfold sort_fuel; lia|].
  { eapply Forall_impl; [exact Ha|]. intros s [H1 H2]. split; [done|split; [lia|done]]. }
  destruct (findSorted_found a' target) as (r & Er & Hr).
  - exact Hs.
  - rewrite Hp. eapply Forall_impl; [exact Ha|]. by intros s [_ ?].
  - done.
  - by rewrite Hp.
  - exists a', r. split; [exact E|split; [exact Er|]]. destruct r; [done|]. unfold found in Hr. by rewrite Hp in Hr.
Qed.

Lemma findSorted_after_sort_witness :
  ∃ a' r, sort sample_words = Ok a' ∧ findSorted a' (BS "figs") = Ok r ∧ r = Some 6.
Proof.
  destruct (findSorted_after_sort sample_words (BS "figs")) as (a' & r & E & Er & _);
    [exact sample_words_ascii|unfold short; simpl; lia|simpl; lia|].
  exists a', r. split; [exact E|split; [exact Er|]].
  assert (E' : match sort sample_words with Ok l => findSorted l (BS "figs") | Fail _ => Ok None end = Ok (Some 6))
    by (vm_compute; reflexivity).
  rewrite E, Er in E'. injection E' as E'. exact E'.
Defined.

(** Eleven words, one of which starts with the byte 0xE8. *)
Definition latin_words : list (list Z) :=
  [BS "a"; BS "b"; BS "c"; BS "d"; BS "e"; [0xE8; 0x72]; BS "g"; BS "h"; BS "i"; BS "l"; BS "m"].

(** Bytes over 127 are negative where the sort splits a vector of more than ten strings, and positive
    where it compares: the result is not in the order of [compare], and [findSorted] misses a string that
    is in the vector. Ten strings are sorted well. *)
Theorem sort_high_bytes :
  (∃ a', sort latin_words = Ok a' ∧ a' ≡ₚ latin_words ∧ ¬ StronglySorted lle a' ∧
     findSorted a' [0xE8; 0x72] = Ok None) ∧
  (∃ a', sort (take 10 latin_words) = Ok a' ∧ StronglySorted lle a' ∧ findSorted a' [0xE8; 0x72] = Ok (Some 9)).
Proof.
  split.
  - eexists. splits; [vm_compute; reflexivity| | |vm_compute; reflexivity].
    + apply (Permutation_middle (take 5 latin_words) (drop 6 latin_words) [0xE8; 0x72]).
    + intros [_ H]%StronglySorted_inv. apply Forall_cons in H as [H _]. by apply H.
  - eexists. splits; [vm_compute; reflexivity| |vm_compute; reflexivity].
    repeat (constructor; [|repeat (constructor; [vm_compute; discriminate|]); constructor]). constructor.
Qed.
