(* ===== verification/Vector.v ===== *)
(** * Vectors ([UVector<void*>] in [src/ulib/container/vector.cpp], [include/ulib/container/vector.h])

    [vec] is an array of [capacity] cells, a cell not written yet is [None]. [granted] is the number of cells
    [UMemoryPool::_malloc] gives for a request. The integers are the [uint32_t] of the program. *)

From S2P Require Import Prelude.

Record uvector := UVector { vec : list (option Z); length_ : Z; capacity : Z }.

(** [memcpy(dst + i, src + j, n)] and [memmove], on cells. *)
Definition copy (dst : list (option Z)) (i : Z) (src : list (option Z)) (j n : Z) : res (list (option Z)) :=
  if (i <? 0) || (j <? 0) || (n <? 0) || (Z.of_nat (length dst) <? i + n) || (Z.of_nat (length src) <? j + n)
  then Fail OutOfBounds
  else Ok (take (Z.to_nat i) dst ++ take (Z.to_nat n) (drop (Z.to_nat j) src) ++ drop (Z.to_nat (i + n)) dst).

Definition memmove (v : list (option Z)) (dst src n : Z) : res (list (option Z)) := copy v dst v src n.

(** A cell that is read must have been written. *)
Definition cell (v : list (option Z)) (i : Z) : res Z :=
  c ← rd v i; match c with Some e => Ok e | None => Fail OutOfBounds end.

(** [for (uint32_t i = 0; i < n; ++i) vec[pos++] = elem]. *)
Fixpoint fill (v : list (option Z)) (pos : Z) (n : nat) (elem : Z) : res (list (option Z)) :=
  match n with
  | O => Ok v
  | S n' => v ← wr v pos (Some elem); fill v (pos + 1) n' elem
  end.

Section Operations.
Context (granted : Z → Z).

Definition malloc (n : Z) : list (option Z) := replicate (Z.to_nat n) None.

Definition new_vector (n : Z) : uvector := UVector (malloc (granted n)) 0 (granted n).

Definition push (elem : Z) (m : uvector) : res uvector :=
  m ← (if length_ m =? capacity m then
         let cap := granted (u32 (Z.shiftl (capacity m) 1)) in
         v ← (if negb (length_ m =? 0) then copy (malloc cap) 0 (vec m) 0 (length_ m) else Ok (malloc cap));
         Ok (UVector v (length_ m) cap)
       else Ok m);
  v ← wr (vec m) (length_ m) (Some elem);
  Ok (UVector v (u32 (length_ m + 1)) (capacity m)).

Definition insert (pos elem : Z) (m : uvector) : res uvector :=
  m ← (if length_ m =? capacity m then
         let cap := granted (u32 (Z.shiftl (capacity m) 1)) in
         v ← copy (malloc cap) 0 (vec m) 0 pos;
         v ← copy v (pos + 1) (vec m) pos (length_ m - pos);
         Ok (UVector v (length_ m) cap)
       else
         v ← memmove (vec m) (pos + 1) pos (length_ m - pos);
         Ok (UVector v (length_ m) (capacity m)));
  v ← wr (vec m) pos (Some elem);
  Ok (UVector v (u32 (length_ m + 1)) (capacity m)).

Definition insert_n (pos n elem : Z) (m : uvector) : res uvector :=
  let new_length := u32 (length_ m + n) in
  m ← (if capacity m <? new_length then
         let cap := granted (u32 (Z.shiftl new_length 1)) in
         v ← copy (malloc cap) 0 (vec m) 0 pos;
         v ← copy v (pos + n) (vec m) pos (length_ m - pos);
         Ok (UVector v (length_ m) cap)
       else
         v ← memmove (vec m) (pos + n) pos (length_ m - pos);
         Ok (UVector v (length_ m) (capacity m)));
  v ← fill (vec m) pos (Z.to_nat n) elem;
  Ok (UVector v new_length (capacity m)).

Definition reserve (n : Z) (m : uvector) : res uvector :=
  if n =? capacity m then Ok m
  else
    let n := if n =? 0 then 64 else n in
    let cap := granted n in
    v ← (if negb (length_ m =? 0) then copy (malloc cap) 0 (vec m) 0 (length_ m) else Ok (malloc cap));
    Ok (UVector v (length_ m) cap).

Definition at_ (pos : Z) (m : uvector) : res Z := cell (vec m) pos.

Definition replace (pos elem : Z) (m : uvector) : res uvector :=
  v ← wr (vec m) pos (Some elem); Ok (UVector v (length_ m) (capacity m)).

Definition top (m : uvector) : res Z := cell (vec m) (u32 (length_ m - 1)).

Definition pop (m : uvector) : res (Z * uvector) :=
  let n := u32 (length_ m - 1) in
  e ← cell (vec m) n; Ok (e, UVector (vec m) n (capacity m)).

Definition erase (pos : Z) (m : uvector) : res uvector :=
  let n := u32 (length_ m - 1) in
  v ← (if negb (n =? 0) then memmove (vec m) pos (pos + 1) (n - pos) else Ok (vec m));
  Ok (UVector v n (capacity m)).

Definition erase_range (first last : Z) (m : uvector) : res uvector :=
  let new_length := u32 (length_ m - (last - first)) in
  v ← (if negb (new_length =? 0) then memmove (vec m) first last (length_ m - last) else Ok (vec m));
  Ok (UVector v new_length (capacity m)).

Definition swap (from to : Z) (m : uvector) : res uvector :=
  a ← cell (vec m) from; b ← cell (vec m) to;
  v ← wr (vec m) from (Some b); v ← wr v to (Some a);
  Ok (UVector v (length_ m) (capacity m)).

Definition U_NOT_FOUND : Z := 2 ^ 32 - 1.

(** The loop of [find] from index [i] on. *)
Fixpoint find_from (v : list (option Z)) (i : Z) (n : nat) (elem : Z) : res Z :=
  match n with
  | O => Ok U_NOT_FOUND
  | S n' => e ← cell v i; if e =? elem then Ok i else find_from v (i + 1) n' elem
  end.

Definition find (elem : Z) (m : uvector) : res Z := find_from (vec m) 0 (Z.to_nat (length_ m)) elem.
End Operations.

(** ** Specification: a list *)

Inductive vop :=
  | Push (e : Z) | Insert (pos e : Z) | InsertN (pos n e : Z) | Reserve (n : Z) | At (pos : Z)
  | Replace (pos e : Z) | Top | Pop | EraseAt (pos : Z) | EraseRange (first last : Z)
  | Swap (from to : Z) | Find (e : Z).

Definition run_vop (granted : Z → Z) (op : vop) (m : uvector) : res (Z * uvector) :=
  match op with
  | Push e => m ← push granted e m; Ok (0, m)
  | Insert pos e => m ← insert granted pos e m; Ok (0, m)
  | InsertN pos n e => m ← insert_n granted pos n e m; Ok (0, m)
  | Reserve n => m ← reserve granted n m; Ok (0, m)
  | At pos => e ← at_ pos m; Ok (e, m)
  | Replace pos e => m ← replace pos e m; Ok (0, m)
  | Top => e ← top m; Ok (e, m)
  | Pop => pop m
  | EraseAt pos => m ← erase pos m; Ok (0, m)
  | EraseRange first last => m ← erase_range first last m; Ok (0, m)
  | Swap from to => m ← swap from to m; Ok (0, m)
  | Find e => r ← find e m; Ok (r, m)
  end.

Fixpoint position (l : list Z) (e : Z) : option nat :=
  match l with
  | [] => None
  | x :: l' => if x =? e then Some 0%nat else S <$> position l' e
  end.

Definition spec_vop (op : vop) (l : list Z) : Z * list Z :=
  match op with
  | Push e => (0, l ++ [e])
  | Insert pos e => (0, take (Z.to_nat pos) l ++ e :: drop (Z.to_nat pos) l)
  | InsertN pos n e => (0, take (Z.to_nat pos) l ++ replicate (Z.to_nat n) e ++ drop (Z.to_nat pos) l)
  | Reserve _ => (0, l)
  | At pos => (nth (Z.to_nat pos) l 0, l)
  | Replace pos e => (0, <[Z.to_nat pos := e]> l)
  | Top => (List.last l 0, l)
  | Pop => (List.last l 0, removelast l)
  | EraseAt pos => (0, delete (Z.to_nat pos) l)
  | EraseRange first last => (0, take (Z.to_nat first) l ++ drop (Z.to_nat last) l)
  | Swap from to =>
      (0, <[Z.to_nat to := nth (Z.to_nat from) l 0]> (<[Z.to_nat from := nth (Z.to_nat to) l 0]> l))
  | Find e => (match position l e with Some i => Z.of_nat i | None => U_NOT_FOUND end, l)
  end.

(** A program: its operations in order, with their results. *)
Fixpoint run_vops (granted : Z → Z) (ops : list vop) (m : uvector) : res (list Z * uvector) :=
  match ops with
  | [] => Ok ([], m)
  | op :: ops' => r ← run_vop granted op m; r' ← run_vops granted ops' r.2; Ok (r.1 :: r'.1, r'.2)
  end.

Fixpoint spec_vops (ops : list vop) (l : list Z) : list Z * list Z :=
  match ops with
  | [] => ([], l)
  | op :: ops' => let r := spec_vop op l in let r' := spec_vops ops' r.2 in (r.1 :: r'.1, r'.2)
  end.

(** What the assertions of the code ask for, and that the doubled capacity is below 2^32. *)
Definition vop_ok (op : vop) (m : uvector) : Prop :=
  match op with
  | Push _ => capacity m < 2 ^ 31
  | Insert pos _ => 0 <= pos <= length_ m ∧ capacity m < 2 ^ 31
  | InsertN pos n _ => 0 <= pos <= length_ m ∧ 0 < n ∧ length_ m + n < 2 ^ 31
  | Reserve n => 0 <= n < 2 ^ 32 ∧ length_ m <= (if n =? 0 then 64 else n)
  | At pos | Replace pos _ | EraseAt pos => 0 <= pos < length_ m
  | Top | Pop => 0 < length_ m
  | EraseRange first last => 0 <= first < last ∧ last <= length_ m
  | Swap from to => 0 <= from < length_ m ∧ 0 <= to < length_ m
  | Find _ => True
  end.

Fixpoint vops_ok (granted : Z → Z) (ops : list vop) (m : uvector) : Prop :=
  match ops with
  | [] => True
  | op :: ops' =>
      vop_ok op m ∧ match run_vop granted op m with Ok (_, m') => vops_ok granted ops' m' | Fail _ => True end
  end.

(** The vector holds the list: the first cells are its elements. *)
Definition holds (m : uvector) (l : list Z) : Prop :=
  0 < capacity m ∧ Z.of_nat (length (vec m)) = capacity m ∧ length_ m = Z.of_nat (length l) ∧
  length_ m < 2 ^ 32 ∧ ∃ rest, vec m = map Some l ++ rest.

(** ** Cells *)

Lemma copy_at d1 d2 d3 s1 s2 s3 i j n :
  i = Z.of_nat (length d1) → j = Z.of_nat (length s1) → n = Z.of_nat (length s2) → length d2 = length s2 →
  copy (d1 ++ d2 ++ d3) i (s1 ++ s2 ++ s3) j n = Ok (d1 ++ s2 ++ d3).
Proof.
  intros -> -> -> Hd. unfold copy. rewrite !length_app, Hd. zcases; simpl; try lia.
  rewrite !Nat2Z.id, take_app_length, drop_app_length, take_app_length. do 2 f_equal. f_equal.
  rewrite app_assoc. apply drop_app_length'. rewrite length_app. lia.
Qed.

Lemma copy_start d2 d3 s2 s3 n :
  n = Z.of_nat (length s2) → length d2 = length s2 → copy (d2 ++ d3) 0 (s2 ++ s3) 0 n = Ok (s2 ++ d3).
Proof. intros Hn Hd. by apply (copy_at [] d2 d3 [] s2 s3). Qed.

Lemma wr_at {A} (l1 : list A) x l2 i a :
  i = Z.of_nat (length l1) → wr (l1 ++ x :: l2) i a = Ok (l1 ++ a :: l2).
Proof.
  intros ->. unfold wr. rewrite length_app. simpl. zcases; simpl; try lia.
  by rewrite Nat2Z.id, insert_app_r_alt, Nat.sub_diag.
Qed.

Lemma cell_at l rest (i : nat) e : l !! i = Some e → cell (map Some l ++ rest) (Z.of_nat i) = Ok e.
Proof.
  intros H. unfold cell. rewrite (rd_lookup _ _ (Some e)); [done|].
  apply lookup_app_l_Some. change (map Some l) with (Some <$> l). by rewrite list_lookup_fmap, H.
Qed.

Lemma fill_at l1 l2 l3 i e :
  i = Z.of_nat (length l1) → fill (l1 ++ l2 ++ l3) i (length l2) e = Ok (l1 ++ replicate (length l2) (Some e) ++ l3).
Proof.
  revert l1 i. induction l2 as [|x l2 IH]; intros l1 i ->; simpl; [done|].
  rewrite wr_at by done. cbn [mbind res_bind].
  replace (l1 ++ Some e :: l2 ++ l3) with ((l1 ++ [Some e]) ++ l2 ++ l3) by by rewrite <- app_assoc.
  rewrite IH by (rewrite length_app; simpl; lia). by rewrite <- app_assoc.
Qed.

Lemma split_at {A} (l : list A) (n : Z) :
  0 <= n <= Z.of_nat (length l) → ∃ a b, l = a ++ b ∧ n = Z.of_nat (length a).
Proof.
  intros H. exists (take (Z.to_nat n) l), (drop (Z.to_nat n) l). rewrite take_drop, length_take. split; [done|lia].
Qed.

Lemma replicate_split {A} (x : A) (n : Z) a b :
  Z.of_nat a + Z.of_nat b = n → replicate (Z.to_nat n) x = replicate a x ++ replicate b x.
Proof. intros H. rewrite <- replicate_add. f_equal. lia. Qed.

(** ** The operations *)

Section Refinement.
Context (granted : Z → Z) (Hgranted : ∀ n, 0 < n → n <= granted n).

Definition implemented (op : vop) (m : uvector) (l : list Z) : Prop :=
  ∃ m', run_vop granted op m = Ok ((spec_vop op l).1, m') ∧ holds m' (spec_vop op l).2.

Lemma doubled c : 0 < c < 2 ^ 31 → c < granted (u32 (Z.shiftl c 1)).
Proof.
  intros Hc. rewrite Z.shiftl_mul_pow2, u32_small by lia. pose proof (Hgranted (c * 2 ^ 1)). lia.
Qed.

(** Room for [n] cells more at a position: what the code does before it writes. *)
Lemma insert_room m a b (n : nat) (p : Z) :
  holds m (a ++ b) → (0 < n)%nat → p = Z.of_nat (length a) →
  (∀ c, length_ m + Z.of_nat n <= c →
    ∃ hole rest, (v ← copy (malloc c) 0 (vec m) 0 p; copy v (p + Z.of_nat n) (vec m) p (length_ m - p))
      = Ok (map Some a ++ hole ++ map Some b ++ rest) ∧ length hole = n ∧
      Z.of_nat (length (map Some a ++ hole ++ map Some b ++ rest)) = c) ∧
  (length_ m + Z.of_nat n <= capacity m →
    ∃ hole rest, memmove (vec m) (p + Z.of_nat n) p (length_ m - p)
      = Ok (map Some a ++ hole ++ map Some b ++ rest) ∧ length hole = n ∧
      Z.of_nat (length (map Some a ++ hole ++ map Some b ++ rest)) = capacity m).
Proof.
  intros (Hc & Hv & Hl & Hlt & rest & Ev) Hn ->. rewrite map_app, <- app_assoc in Ev.
  rewrite length_app in Hl. rewrite Ev, !length_app, !length_map in Hv. split.
  - intros c Hc'. exists (replicate n None), (replicate (Z.to_nat c - length a - n - length b) None).
    rewrite !length_app, !length_map, !length_replicate. splits; [|done|lia].
    unfold malloc. rewrite (replicate_split None c (length a) (n + length b + (Z.to_nat c - length a - n - length b))) by lia.
    rewrite Ev, copy_start by by rewrite ?length_replicate, length_map.
    cbn [mbind res_bind]. rewrite !replicate_add, <- app_assoc.
    pose proof (copy_at (map Some a ++ replicate n None) (replicate (length b) None)
      (replicate (Z.to_nat c - length a - n - length b) None) (map Some a) (map Some b) rest) as H.
    rewrite <- !app_assoc in H. apply H; rewrite ?length_app, ?length_map, ?length_replicate; lia.
  - intros Hle. unfold memmove. rewrite Ev.
    destruct (split_at (map Some b ++ rest) (Z.of_nat n)) as (hole & rest1 & E1 & Hh);
      [rewrite length_app, length_map; lia|].
    destruct (split_at rest1 (Z.of_nat (length b))) as (old & rest2 & E2 & Ho).
    { apply (f_equal length) in E1. rewrite !length_app, length_map in E1. lia. }
    exists hole, rest2. splits; [|lia|].
    + pose proof (copy_at (map Some a ++ hole) old rest2 (map Some a) (map Some b) rest) as H.
      rewrite <- !app_assoc, <- E2, <- E1 in H. apply H; rewrite ?length_app, ?length_map; lia.
    + apply (f_equal length) in E1. rewrite E2, !length_app, length_map in E1. rewrite !length_app, !length_map. lia.
Qed.

(** Establishing [holds]. *)
Lemma holds_intro l rest (n c : Z) v :
  v = map Some l ++ rest → 0 < c → Z.of_nat (length v) = c → n = Z.of_nat (length l) → n < 2 ^ 32 →
  holds (UVector v n c) l.
Proof. intros -> ? ? ? ?. unfold holds. simpl. splits; try done. by exists rest. Qed.

Lemma vec_push_implemented m l e : holds m l → vop_ok (Push e) m → implemented (Push e) m l.
Proof.
  intros (Hc & Hv & Hl & Hlt & rest & Ev) Hok. simpl in Hok. unfold implemented. simpl. unfold push.
  rewrite Ev, length_app, length_map in Hv. destruct (Z.eqb_spec (length_ m) (capacity m)) as [Efull|Efull].
  - destruct (Z.eqb_spec (length_ m) 0); [lia|]. cbn [negb].
    pose proof (doubled (capacity m) ltac:(lia)) as Hd. set (c := granted _) in *.
    unfold malloc. rewrite (replicate_split None c (length l) (S (Z.to_nat c - length l - 1))) by lia.
    rewrite Ev, copy_start by (rewrite ?length_replicate, length_map; lia). cbn [mbind res_bind vec length_ capacity].
    cbn [replicate]. rewrite wr_at by (rewrite length_map; lia). cbn [mbind res_bind]. eexists. split; [done|].
    eapply (holds_intro _ (replicate (Z.to_nat c - length l - 1) None)).
    + by rewrite map_app, <- app_assoc.
    + lia.
    + rewrite !length_app. simpl. rewrite length_map, length_replicate. lia.
    + rewrite u32_small, length_app by lia. simpl. lia.
    + rewrite u32_small by lia. lia.
  - cbn [mbind res_bind]. destruct rest as [|x rest]; [simpl in Hv; lia|]. simpl in Hv.
    rewrite Ev, wr_at by (rewrite length_map; lia). cbn [mbind res_bind]. eexists. split; [done|].
    eapply (holds_intro _ rest).
    + by rewrite map_app, <- app_assoc.
    + lia.
    + rewrite !length_app. simpl. rewrite length_map. lia.
    + rewrite u32_small, length_app by lia. simpl. lia.
    + rewrite u32_small by lia. lia.
Qed.

(** The hole is filled. *)
Lemma fill_room l1 hole l2 rest p n e :
  p = Z.of_nat (length l1) → length hole = n →
  fill (map Some l1 ++ hole ++ map Some l2 ++ rest) p n e
  = Ok (map Some (l1 ++ replicate n e ++ l2) ++ rest).
Proof.
  intros -> <-. rewrite fill_at by by rewrite length_map. f_equal.
  assert (Hr : map Some (replicate (length hole) e) = replicate (length hole) (Some e)) by apply fmap_replicate.
  by rewrite !map_app, Hr, <- !app_assoc.
Qed.

Lemma vec_insert_n_implemented m l pos n e :
  holds m l → vop_ok (InsertN pos n e) m → implemented (InsertN pos n e) m l.
Proof.
  intros Hm (Hp & Hn & Hlt). pose proof Hm as (Hc & Hv & Hl & _ & _).
  destruct (split_at l pos ltac:(lia)) as (a & b & -> & ->). unfold implemented. simpl. unfold insert_n.
  rewrite !Nat2Z.id, take_app_length, drop_app_length. rewrite u32_small by lia.
  destruct (insert_room m a b (Z.to_nat n) _ Hm ltac:(lia) eq_refl) as [Hgrow Hmove]. rewrite Z2Nat.id in Hgrow, Hmove by lia.
  destruct (Z.ltb_spec (capacity m) (length_ m + n)).
  - pose proof (Hgranted (u32 (Z.shiftl (length_ m + n) 1))) as Hg.
    rewrite Z.shiftl_mul_pow2, u32_small in Hg |- * by lia. set (c := granted _) in *.
    destruct (Hgrow c ltac:(lia)) as (hole & rest & E & Hh & Hcap).
    destruct (copy (malloc c) 0 _ 0 _) as [v|]; [|done]. cbn [mbind res_bind] in E |- *. rewrite E. cbn [mbind res_bind vec length_ capacity].
    rewrite fill_room by done. cbn [mbind res_bind]. eexists. split; [done|].
    eapply holds_intro; [done|lia| | |lia]; rewrite !length_app in *; rewrite ?length_map, ?length_app, ?length_replicate in *; lia.
  - destruct (Hmove ltac:(lia)) as (hole & rest & E & Hh & Hcap). rewrite E. cbn [mbind res_bind vec length_ capacity].
    rewrite fill_room by done. cbn [mbind res_bind]. eexists. split; [done|].
    eapply holds_intro; [done|lia| | |lia]; rewrite !length_app in *; rewrite ?length_map, ?length_app, ?length_replicate in *; lia.
Qed.

Lemma vec_insert_implemented m l pos e : holds m l → vop_ok (Insert pos e) m → implemented (Insert pos e) m l.
Proof.
  intros Hm (Hp & Hlt). pose proof Hm as (Hc & Hv & Hl & _ & rest0 & Ev).
  assert (Hle : length_ m <= capacity m) by (rewrite Ev, length_app, length_map in Hv; lia).
  destruct (split_at l pos ltac:(lia)) as (a & b & -> & ->). unfold implemented. simpl. unfold insert.
  rewrite !Nat2Z.id, take_app_length, drop_app_length.
  destruct (insert_room m a b 1 _ Hm ltac:(lia) eq_refl) as [Hgrow Hmove].
  assert (Hend : ∀ c hole rest, length hole = 1%nat → 0 < c →
    Z.of_nat (length (map Some a ++ hole ++ map Some b ++ rest)) = c →
    ∃ m', (v ← wr (map Some a ++ hole ++ map Some b ++ rest) (Z.of_nat (length a)) (Some e);
           Ok (UVector v (u32 (length_ m + 1)) c)) = Ok m' ∧ holds m' (a ++ e :: b)).
  { intros c [|x [|]] rest Hh Hc' Hcap; try done. simpl. rewrite wr_at by by rewrite length_map. cbn [mbind res_bind].
    eexists. split; [done|]. rewrite length_app in Hl. rewrite !length_app, !length_map in Hcap. simpl in Hcap.
    rewrite ?length_app, ?length_map in Hcap.
    eapply (holds_intro _ rest); [by rewrite map_app, <- app_assoc|done| | |];
      rewrite ?length_app; simpl; rewrite ?length_app, ?length_map, ?u32_small by lia; lia. }
  destruct (Z.eqb_spec (length_ m) (capacity m)) as [Efull|Efull].
  - pose proof (doubled (capacity m) ltac:(lia)) as Hd. set (c := granted _) in *.
    destruct (Hgrow c ltac:(lia)) as (hole & rest & E & Hh & Hcap). change (Z.of_nat 1) with 1 in E.
    destruct (copy (malloc c) 0 _ 0 _) as [v|]; [|done]. cbn [mbind res_bind] in E |- *. rewrite E. cbn [mbind res_bind vec length_ capacity].
    destruct (Hend c hole rest Hh ltac:(lia) Hcap) as (m' & -> & Hm'). by exists m'.
  - destruct (Hmove ltac:(lia)) as (hole & rest & E & Hh & Hcap). change (Z.of_nat 1) with 1 in E.
    rewrite E. cbn [mbind res_bind vec length_ capacity].
    destruct (Hend (capacity m) hole rest Hh Hc Hcap) as (m' & -> & Hm'). by exists m'.
Qed.

Lemma vec_reserve_implemented m l n : holds m l → vop_ok (Reserve n) m → implemented (Reserve n) m l.
Proof.
  intros Hm (Hn & Hle). pose proof Hm as (Hc & Hv & Hl & Hlt & rest & Ev). unfold implemented. simpl. unfold reserve.
  destruct (n =? capacity m); [by exists m|].
  set (n' := if n =? 0 then 64 else n) in *. assert (Hn' : 0 < n') by (unfold n'; zcases; lia).
  pose proof (Hgranted n' Hn') as Hg. set (c := granted n') in *.
  assert (E : (if negb (length_ m =? 0) then copy (malloc c) 0 (vec m) 0 (length_ m) else Ok (malloc c))
    = Ok (map Some l ++ replicate (Z.to_nat c - length l) None)).
  { unfold malloc. rewrite (replicate_split None c (length l) (Z.to_nat c - length l)) by lia.
    destruct (Z.eqb_spec (length_ m) 0) as [E0|E0]; simpl.
    - destruct l; [done|simpl in Hl; lia].
    - rewrite Ev. apply copy_start; rewrite ?length_replicate, length_map; lia. }
  rewrite E. cbn [mbind res_bind]. eexists. split; [done|].
  eapply holds_intro; [done|lia| |lia|lia]. rewrite length_app, length_map, length_replicate. lia.
Qed.

Lemma read_at m l (i : nat) : holds m l → (i < length l)%nat → cell (vec m) (Z.of_nat i) = Ok (nth i l 0).
Proof.
  intros (_ & _ & _ & _ & rest & ->) Hi. destruct (lookup_lt_is_Some_2 l i Hi) as [e He].
  rewrite (cell_at _ _ _ e He). f_equal. symmetry. by apply nth_lookup_Some.
Qed.

Lemma write_at m l (i : nat) e :
  holds m l → (i < length l)%nat →
  ∃ v, wr (vec m) (Z.of_nat i) (Some e) = Ok v ∧ holds (UVector v (length_ m) (capacity m)) (<[i := e]> l).
Proof.
  intros (Hc & Hv & Hl & Hlt & rest & Ev) Hi. destruct (split_at l (Z.of_nat i) ltac:(lia)) as (a & b & -> & Ei).
  assert (i = length a) as -> by lia. destruct b as [|x b]; [rewrite app_nil_r in Hi; lia|].
  rewrite Ev, map_app, <- app_assoc. simpl. rewrite wr_at by by rewrite length_map. eexists. split; [done|].
  rewrite insert_app_r_alt, Nat.sub_diag by lia. simpl.
  rewrite Ev in Hv. rewrite !length_app, length_map in *. simpl in *. rewrite !length_app in Hv.
  eapply (holds_intro _ rest); [by rewrite map_app, <- app_assoc|done| | |done];
    rewrite ?length_app; simpl; rewrite ?length_app, ?length_map in *; simpl in *; lia.
Qed.

Lemma vec_at_implemented m l pos : holds m l → vop_ok (At pos) m → implemented (At pos) m l.
Proof.
  intros Hm Hok. pose proof Hm as (_ & _ & Hl & _). simpl in Hok. unfold implemented. simpl. unfold at_.
  pose proof (read_at m l (Z.to_nat pos) Hm ltac:(lia)) as E. rewrite Z2Nat.id in E by lia. rewrite E. by exists m.
Qed.

Lemma vec_replace_implemented m l pos e : holds m l → vop_ok (Replace pos e) m → implemented (Replace pos e) m l.
Proof.
  intros Hm Hok. pose proof Hm as (_ & _ & Hl & _). simpl in Hok. unfold implemented. simpl. unfold replace.
  destruct (write_at m l (Z.to_nat pos) e Hm ltac:(lia)) as (v & E & Hv). rewrite Z2Nat.id in E by lia. rewrite E.
  by eexists.
Qed.

Lemma vec_swap_implemented m l i j : holds m l → vop_ok (Swap i j) m → implemented (Swap i j) m l.
Proof.
  intros Hm Hok. pose proof Hm as (_ & _ & Hl & _). simpl in Hok. unfold implemented. simpl. unfold swap.
  pose proof (read_at m l (Z.to_nat i) Hm ltac:(lia)) as Ei. pose proof (read_at m l (Z.to_nat j) Hm ltac:(lia)) as Ej.
  rewrite Z2Nat.id in Ei, Ej by lia. rewrite Ei, Ej. cbn [mbind res_bind].
  destruct (write_at m l (Z.to_nat i) (nth (Z.to_nat j) l 0) Hm ltac:(lia)) as (v & E & Hv).
  rewrite Z2Nat.id in E by lia. rewrite E. cbn [mbind res_bind].
  destruct (write_at _ _ (Z.to_nat j) (nth (Z.to_nat i) l 0) Hv) as (v' & E' & Hv'); [rewrite length_insert; lia|].
  rewrite Z2Nat.id in E' by lia. simpl in E'. rewrite E'. by eexists.
Qed.

Lemma vec_last_implemented m l : holds m l → 0 < length_ m → implemented Top m l ∧ implemented Pop m l.
Proof.
  intros Hm Hok. pose proof Hm as (Hc & Hv & Hl & Hlt & rest & Ev). unfold implemented. simpl. unfold top, pop.
  destruct l as [|x l _] using rev_ind; [simpl in Hl; lia|]. rewrite length_app in Hl. simpl in Hl.
  rewrite u32_small by lia. replace (length_ m - 1) with (Z.of_nat (length l)) by lia.
  rewrite (read_at m _ _ Hm) by (rewrite length_app; simpl; lia). cbn [mbind res_bind].
  rewrite last_last, removelast_last, app_nth2, Nat.sub_diag by lia. split; [by exists m|]. eexists. split; [done|].
  rewrite map_app, <- app_assoc in Ev. by eapply holds_intro; [|..|lia].
Qed.

(** Elements are moved down over a gap. *)
Lemma close_gap m a gap b :
  holds m (a ++ gap ++ b) →
  ∃ v, memmove (vec m) (Z.of_nat (length a)) (Z.of_nat (length a + length gap)) (Z.of_nat (length b)) = Ok v ∧
    Z.of_nat (length v) = capacity m ∧ ∃ rest, v = map Some (a ++ b) ++ rest.
Proof.
  intros (Hc & Hv & Hl & Hlt & rest & Ev). unfold memmove. rewrite Ev, !map_app, <- !app_assoc.
  destruct (split_at (map Some gap ++ map Some b ++ rest) (Z.of_nat (length b))) as (hole & tl & Et & Hh).
  { rewrite !length_app, !length_map. lia. }
  assert (Hlen : (length hole + length tl = length gap + length b + length rest)%nat).
  { apply (f_equal length) in Et. rewrite !length_app, !length_map in Et. lia. }
  pose proof (copy_at (map Some a) hole tl (map Some a ++ map Some gap) (map Some b) rest) as E.
  rewrite <- !app_assoc, <- Et in E. rewrite E; [|rewrite ?length_app, ?length_map; lia..].
  eexists. split; [done|]. split; [|by exists tl; rewrite <- app_assoc].
  rewrite Ev, !map_app in Hv. rewrite !length_app, !length_map in *. lia.
Qed.

Lemma vec_erase_range_implemented m l i j : holds m l → vop_ok (EraseRange i j) m → implemented (EraseRange i j) m l.
Proof.
  intros Hm Hok. pose proof Hm as (Hc & Hv & Hl & Hlt & _). simpl in Hok. unfold implemented. simpl. unfold erase_range.
  destruct (split_at l j ltac:(lia)) as (ab & b & -> & Hj).
  destruct (split_at ab i ltac:(lia)) as (a & gap & -> & Hi). rewrite <- app_assoc in *.
  rewrite !length_app in *. destruct (close_gap m a gap b Hm) as (v & E & Hv' & rest & Ev).
  replace (take (Z.to_nat i) (a ++ gap ++ b)) with a by (rewrite Hi, Nat2Z.id; by rewrite take_app_length).
  replace (drop (Z.to_nat j) (a ++ gap ++ b)) with b by (rewrite app_assoc, drop_app_length'; [done|rewrite length_app; lia]).
  rewrite u32_small by lia. destruct (Z.eqb_spec (length_ m - (j - i)) 0) as [E0|E0]; cbn [negb].
  - cbn [mbind res_bind]. eexists. split; [done|]. destruct a, b; try (simpl in *; lia).
    by apply (holds_intro [] (vec m)); [|..|lia].
  - replace (length_ m - j) with (Z.of_nat (length b)) by lia. rewrite Hi, Hj, E. cbn [mbind res_bind].
    eexists. split; [done|]. eapply holds_intro; [done|done|done| |lia]. rewrite length_app. lia.
Qed.

Lemma vec_erase_implemented m l pos : holds m l → vop_ok (EraseAt pos) m → implemented (EraseAt pos) m l.
Proof.
  intros Hm Hok. pose proof Hm as (_ & _ & Hl & _). simpl in Hok.
  destruct (vec_erase_range_implemented m l pos (pos + 1) Hm) as (m' & E & Hm'); [simpl; lia|].
  unfold implemented. cbn [run_vop spec_vop fst snd] in *. unfold erase, erase_range in *.
  replace (length_ m - (pos + 1 - pos)) with (length_ m - 1) in E by lia.
  exists m'. rewrite delete_take_drop. replace (S (Z.to_nat pos)) with (Z.to_nat (pos + 1)) by lia. split; [|done].
  destruct (Z.eqb_spec (u32 (length_ m - 1)) 0); cbn [negb] in *; [done|].
  pose proof Hm as (_ & _ & _ & Hlt & _).
  by replace (u32 (length_ m - 1) - pos) with (length_ m - (pos + 1)) by (rewrite u32_small by lia; lia).
Qed.

Lemma vec_find_implemented m l e : holds m l → implemented (Find e) m l.
Proof.
  intros Hm. pose proof Hm as (_ & _ & Hl & _ & rest & Ev). unfold implemented. simpl. unfold find.
  rewrite Hl, Nat2Z.id, Ev.
  assert (H : ∀ a b, l = a ++ b → find_from (map Some l ++ rest) (Z.of_nat (length a)) (length b) e
    = Ok (match position b e with Some i => Z.of_nat (length a + i) | None => U_NOT_FOUND end)).
  { intros a b. revert a. induction b as [|x b IH]; intros a ->; [done|]. cbn [length find_from].
    rewrite (cell_at _ _ _ x) by by rewrite lookup_app_r, Nat.sub_diag. cbn [mbind res_bind]. simpl.
    destruct (Z.eqb_spec x e); [by rewrite Nat.add_0_r|].
    pose proof (IH (a ++ [x]) ltac:(by rewrite <- app_assoc)) as E. rewrite length_app in E. simpl in E.
    replace (Z.of_nat (length a) + 1) with (Z.of_nat (length a + 1)) by lia. rewrite E.
    destruct (position b e) as [i|]; simpl; [|done]. do 2 f_equal. lia. }
  pose proof (H [] l eq_refl) as E. change (Z.of_nat (length [])) with 0 in E. rewrite E.
  exists m. by destruct (position l e).
Qed.

Lemma vec_vop_implemented op m l : holds m l → vop_ok op m → implemented op m l.
Proof.
  intros Hm Hok. destruct op.
  - by apply vec_push_implemented.
  - by apply vec_insert_implemented.
  - by apply vec_insert_n_implemented.
  - by apply vec_reserve_implemented.
  - by apply vec_at_implemented.
  - by apply vec_replace_implemented.
  - by apply vec_last_implemented.
  - by apply vec_last_implemented.
  - by apply vec_erase_implemented.
  - by apply vec_erase_range_implemented.
  - by apply vec_swap_implemented.
  - by apply vec_find_implemented.
Qed.

Lemma vec_run_vops_implemented ops m l :
  holds m l → vops_ok granted ops m →
  ∃ m', run_vops granted ops m = Ok ((spec_vops ops l).1, m') ∧ holds m' (spec_vops ops l).2.
Proof.
  revert m l. induction ops as [|op ops IH]; intros m l Hm Hok; simpl; [by exists m|].
  destruct Hok as [Hop Hok]. destruct (vec_vop_implemented op m l Hm Hop) as (m' & E & Hm'). rewrite E in Hok |- *.
  cbn [mbind res_bind]. destruct (IH _ _ Hm' Hok) as (m'' & E' & Hm''). simpl. rewrite E'. by exists m''.
Qed.
End Refinement.

(** ** Properties *)

(** C4: a vector is a list. From a new vector, any sequence of insertions at the end, before an element or of
    several copies, removals, exchanges, reads, searches and changes of capacity that respects the
    assertions of the code completes without reading a cell that was not written or going out of the array,
    and returns what it returns on the list. *)
Theorem vector_refines_list granted n ops :
  (∀ n, 0 < n → n <= granted n) → 0 < n → vops_ok granted ops (new_vector granted n) →
  ∃ m', run_vops granted ops (new_vector granted n) = Ok ((spec_vops ops []).1, m') ∧
    holds m' (spec_vops ops []).2.
Proof.
  intros Hg Hn Hok. apply vec_run_vops_implemented; [done| |done]. pose proof (Hg n Hn). unfold new_vector, malloc.
  eapply (holds_intro [] (replicate (Z.to_nat (granted n)) None)); [done|lia| |done|done].
  rewrite length_replicate. lia.
Qed.

Definition sample_vops : list vop :=
  [Push 1; Push 2; Push 3; Insert 1 9; InsertN 2 3 7; At 2; Find 3; Find 5; EraseRange 1 4; Swap 0 1; Top; Reserve 64;
   EraseAt 0; Replace 0 4; Pop; At 0].

(** A vector of capacity 1, so that the array is reallocated on the way. *)
Lemma vector_refines_list_witness :
  vops_ok id sample_vops (new_vector id 1) ∧
  ∃ m', run_vops id sample_vops (new_vector id 1)
    = Ok ([0; 0; 0; 0; 0; 7; 6; U_NOT_FOUND; 0; 0; 3; 0; 0; 0; 3; 4], m') ∧ holds m' [4; 2].
Proof.
  assert (Hok : vops_ok id sample_vops (new_vector id 1)) by (vm_compute; intuition congruence).
  split; [exact Hok|].
  destruct (vector_refines_list id 1 sample_vops) as (m' & E & H); [intros; unfold id; lia|lia|exact Hok|].
  exists m'. exact (conj E H).
Defined.
