(* ===== verification/Search.v ===== *)
(** * Searching and splitting strings ([src/ulib/base/utility.c]; [split] and [join] of
    [UVector<UString>] in [src/ulib/container/vector.cpp], [UTokenizer::next(token, c)] in
    [src/ulib/tokenizer.cpp])

    A pointer is an offset into the memory [m]; [end] is the offset after the text. *)

From S2P Require Import Prelude CType.

(** ** Substrings *)

(** The loop of [u_rmatch]; [j] characters of the needle are left before this one. *)
Fixpoint rmatch_loop (haystack needle : list Z) (hh : Z) (j : nat) : res bool :=
  a ← rd needle (Z.of_nat j);
  b ← rd haystack hh;
  if a =? b then match j with O => Ok true | S j' => rmatch_loop haystack needle (hh - 1) j' end
  else Ok false.

Definition u_rmatch (haystack : list Z) (haystack_len : nat) (needle : list Z) (needle_len : nat) : res bool :=
  if (needle_len <=? haystack_len)%nat then
    match needle_len with
    | O => Fail OutOfBounds
    | S j => rmatch_loop haystack needle (Z.of_nat haystack_len - 1) j
    end
  else Ok false.

(** [memcmp(s, a, n) == 0]. *)
Fixpoint memequal (s a : list Z) (n : nat) : res bool :=
  match n with
  | O => Ok true
  | S n' =>
      match s, a with
      | x :: s', y :: a' => if x =? y then memequal s' a' n' else Ok false
      | _, _ => Fail OutOfBounds
      end
  end.

(** [for (; (pos + n1) <= n; ++pos) if (memcmp(s + pos, a, n1) == 0) ...]: [left] positions are left. *)
Fixpoint find_loop (s : list Z) (pos : nat) (a : list Z) (n1 left : nat) : res (option Z) :=
  match left with
  | O => Ok None
  | S left' =>
      e ← memequal (drop pos s) a n1;
      if e : bool then Ok (Some (Z.of_nat pos)) else find_loop s (S pos) a n1 left'
  end.

Definition u_find (s : list Z) (n : nat) (a : list Z) (n1 : nat) : res (option Z) :=
  if (n =? 0)%nat then Ok None
  else if (n1 =? 1)%nat then c ← rd a 0; memchr s c n
  else find_loop s 0 a n1 (S n - n1).

(** [strncmp(a, b, n) == 0]. *)
Fixpoint strnequal (a b : list Z) (n : nat) : res bool :=
  match n with
  | O => Ok true
  | S n' =>
      match a, b with
      | x :: a', y :: b' => if x =? y then (if x =? 0 then Ok true else strnequal a' b' n') else Ok false
      | _, _ => Fail OutOfBounds
      end
  end.

Definition u_startsWith (a : list Z) (n1 : Z) (b : list Z) (n2 : Z) : res bool :=
  let diff := i32 (n1 - n2) in
  if 0 <=? diff then strnequal a b (Z.to_nat n2) else Ok false.

Definition u_endsWith (a : list Z) (n1 : Z) (b : list Z) (n2 : Z) : res bool :=
  let diff := i32 (n1 - n2) in
  if 0 <=? diff then strnequal (drop (Z.to_nat diff) a) b (Z.to_nat n2) else Ok false.

(** [while (s < end && p( *s)) ++s], for at most [n] characters. *)
Fixpoint skip_while (p : Z → bool) (m : list Z) (s : Z) (n : nat) : res Z :=
  match n with
  | O => Ok s
  | S n' => c ← rd m s; if p c then skip_while p m (s + 1) n' else Ok s
  end.

Definition vdigit : list Z := [1; 1; 1; 1; 1; 1; 1; 1; 1; 1; 0; 0; 0; 0; 0; 0].

Definition is_number_digit (c : Z) : bool :=
  (Z.shiftr c 4 =? 3) && negb (nth (Z.to_nat (Z.land c 15)) vdigit 0 =? 0).

Definition u_isNumber (m : list Z) (n : Z) : res bool :=
  c ← rd m 0;
  let s := if (c =? CH "+") || (c =? CH "-") then 1 else 0 in
  s ← skip_while is_number_digit m s (Z.to_nat (n - s)); Ok (s =? n).

(** ** Tokens *)

(** [u__strpbrk]: the first of the [n] characters from [s] on that is in the list. *)
Fixpoint u__strpbrk (m : list Z) (s : Z) (n : nat) (accept : list Z) : res (option Z) :=
  match n with
  | O => Ok None
  | S n' =>
      c ← rd m s;
      if existsb (Z.eqb c) accept then Ok (Some s) else u__strpbrk m (s + 1) n' accept
  end.

Definition find_char_step (m : list Z) (end_ c : Z) (s : Z) : res (Z + Z) :=
  if (end_ - s <? 0) then Fail OutOfBounds
  else
    r ← memchr (drop (Z.to_nat s) m) c (Z.to_nat (end_ - s));
    match r with
    | None => Ok (inr end_)
    | Some k =>
        let s := s + k in
        a ← rd m (s - 1);
        if a =? CH "\" then
          b ← rd m (s - 2);
          Ok (if negb (b =? CH "\") then inl (s + 1) else inr s)
        else Ok (inr s)
    end.

Definition u_find_char (m : list Z) (s end_ c : Z) : res Z :=
  iterate (S (length m)) (find_char_step m end_ c) s.

(** White space, and line comments when [line_comment] is not NUL. *)
Fixpoint skipws (fuel : nat) (m : list Z) (s end_ line_comment : Z) : res Z :=
  match fuel with
  | O => Fail OutOfFuel
  | S fuel' =>
      s ← skip_while u__isspace m s (Z.to_nat (end_ - s));
      if negb (line_comment =? 0) then
        c ← rd m s;
        if c =? line_comment then
          r ← memchr (drop (Z.to_nat s) m) 10 (Z.to_nat (end_ - s));
          match r with
          | Some k => skipws fuel' m (s + k) end_ line_comment
          | None => Ok end_
          end
        else Ok s
      else Ok s
  end.

Definition u_skip (m : list Z) (s end_ : Z) (delim : option (list Z)) (line_comment : Z) : res Z :=
  match delim with
  | Some d => skip_while (strchr_lit d) m s (Z.to_nat (end_ - s))
  | None => skipws (S (length m)) m s end_ line_comment
  end.

(** The end of the token and its start, null when there is none. *)
Definition u_delimit_token (m : list Z) (s end_ : Z) (delim : option (list Z)) (skip_line_comment : Z) :
    res (Z * option Z) :=
  s ← u_skip m s end_ delim skip_line_comment;
  if s =? end_ then Ok (end_ + 1, None)
  else
    c ← rd m s;
    let p := s in
    let s := s + 1 in
    if (c =? 34) || (c =? CH "'") then
      s ← u_find_char m s end_ c;
      match delim with
      | Some _ => Ok (if s <? end_ then s + 1 else s, Some p)
      | None => Ok (s, Some (p + 1))
      end
    else
      match delim with
      | Some d =>
          r ← u__strpbrk m s (Z.to_nat (end_ - s)) d;
          Ok (match r with Some s => s | None => end_ end, Some p)
      | None =>
          s ← skip_while (λ c, negb (u__isspace c)) m s (Z.to_nat (end_ - s)); Ok (s, Some p)
      end.

(** One round of [u_split]: the memory, the place in it, and [argv]. *)
Definition split_step (end_ : Z) (delim : option (list Z)) (st : list Z * Z * list Z) :
    res (list Z * Z * list Z + list Z * list Z) :=
  let '(m, s, argv) := st in
  if s <? end_ then
    r ← u_delimit_token m s end_ delim 0;
    let '(s, p) := r in
    if s <=? end_ then
      match p with
      | Some p => m ← wr m s 0; Ok (inl (m, s + 1, argv ++ [p]))
      | None => Fail OutOfBounds
      end
    else Ok (inl (m, s, argv))
  else Ok (inr (m, argv)).

(** The memory after it, and the starts of the words. *)
Definition u_split (m : list Z) (n : Z) (delim : option (list Z)) : res (list Z * list Z) :=
  iterate (S (length m)) (split_step n delim) (m, 0, []).

(** The search for the end of a group. One round of the loop: the place, and the level. *)
Fixpoint group_match (m : list Z) (s : Z) (delimitor : list Z) (from : Z) (i n : nat) : res bool :=
  match n with
  | O => Ok true
  | S n' =>
      a ← rd m (s + Z.of_nat i); b ← rd delimitor (from + Z.of_nat i);
      if a =? b then group_match m s delimitor from (S i) n' else Ok false
  end.

(** [checked] says that [s < end] is to be tested: [goto loop] does not. *)
Definition strpend_step (m : list Z) (end_ : Z) (delimitor : list Z) (n : nat) (skip_line_comment : Z)
    (st : Z * Z * bool) : res (Z * Z * bool + option Z) :=
  let '(s, level, checked) := st in
  if checked && negb (s <? end_) then Ok (inr None)
  else
    let s := s + 1 in
    c ← rd m s;
    if u__isspace c then Ok (inl (s, level, true))
    else if c =? skip_line_comment then
      if end_ <? s then Fail OutOfBounds
      else
        r ← memchr (drop (Z.to_nat s) m) 10 (Z.to_nat (end_ - s));
        Ok (match r with Some k => inl (s + k, level, true) | None => inr None end)
    else
      open ← rd delimitor 0; close ← rd delimitor (Z.of_nat n); before ← rd m (s - 1);
      if (c =? open) && negb (before =? CH "\") then
        e ← group_match m s delimitor 0 1 (n - 1);
        Ok (if e : bool then inl (s, level + 1, true) else inl (s, level, false))
      else if (c =? close) && negb (before =? CH "\") then
        e ← group_match m s delimitor (Z.of_nat n) 1 (n - 1);
        Ok (if e : bool then (if level - 1 =? 0 then inr (Some s) else inl (s, level - 1, true))
            else inl (s, level, false))
      else Ok (inl (s, level, true)).

Definition u_strpend (m : list Z) (slen : Z) (delimitor : list Z) (skip_line_comment : Z) : res (option Z) :=
  iterate (S (length m)) (strpend_step m slen delimitor (length delimitor / 2) skip_line_comment) (0, 1, true).

(** [UTokenizer::next(token, c)] on the text left: the token, and the text left after it. *)
Fixpoint until (c : Z) (token text : list Z) : list Z * list Z :=
  match text with
  | [] => (token, [])
  | y :: text' => if y =? c then (token, text') else until c (token ++ [y]) text'
  end.

Fixpoint next_token (c : Z) (text : list Z) : option (list Z * list Z) :=
  match text with
  | [] => None
  | x :: text' => if x =? c then next_token c text' else Some (until c [x] text')
  end.

(** [split(str, delim)] for a character: a text in double quotes loses its first and last characters. *)
Definition split_char_step (delim : Z) (st : list Z * list (list Z)) :
    res (list Z * list (list Z) + list (list Z)) :=
  let '(text, tokens) := st in
  match next_token delim text with
  | None => Ok (inr tokens)
  | Some (token, text) => Ok (inl (text, tokens ++ [token]))
  end.

Definition split_char (str : list Z) (delim : Z) : res (list (list Z)) :=
  let text := match str with
              | 34 :: text => removelast text
              | _ => str
              end in
  iterate (S (length str)) (split_char_step delim) (text, []).

(** [join(t, tlen)]. *)
Fixpoint join (v : list (list Z)) (t : list Z) : list Z :=
  match v with
  | [] => []
  | [s] => s
  | s :: v' => s ++ t ++ join v' t
  end.

(** ** Substrings are found *)

Lemma rd_nth_app (pre : list Z) x post : rd (pre ++ x :: post) (Z.of_nat (length pre)) = Ok x.
Proof. apply rd_lookup. by rewrite lookup_app_r, Nat.sub_diag. Qed.

Lemma rmatch_loop_spec h n x hrest nrest y :
  length h = length n → ∀ pre,
  rmatch_loop (pre ++ h ++ x :: hrest) (n ++ y :: nrest) (Z.of_nat (length pre + length h)) (length n)
  = Ok (bool_decide (h ++ [x] = n ++ [y])).
Proof.
  revert n x hrest nrest y. induction h as [|x' h IH] using rev_ind; intros n x hrest nrest y Hl pre.
  - destruct n; [|done]. simpl. rewrite Nat.add_0_r, rd_nth_app. cbn [mbind res_bind].
    destruct (Z.eqb_spec y x) as [->|Hne]; f_equal; symmetry; [by apply bool_decide_eq_true|].
    apply bool_decide_eq_false. congruence.
  - destruct n as [|y' n _] using rev_ind; rewrite !length_app in Hl |- *; simpl in Hl |- *; [lia|].
    replace (length n + 1)%nat with (S (length n)) by lia. cbn [rmatch_loop].
    rewrite <- !app_assoc. simpl.
    replace (n ++ y' :: y :: nrest) with ((n ++ [y']) ++ y :: nrest) by by rewrite <- app_assoc.
    replace (pre ++ h ++ x' :: x :: hrest) with ((pre ++ h ++ [x']) ++ x :: hrest) by by rewrite <- !app_assoc.
    replace (Z.of_nat (S (length n))) with (Z.of_nat (length (n ++ [y']))) by (rewrite length_app; simpl; lia).
    rewrite rd_nth_app. cbn [mbind res_bind].
    replace (Z.of_nat (length pre + (length h + 1))) with (Z.of_nat (length (pre ++ h ++ [x']))) by (rewrite !length_app; simpl; lia).
    rewrite rd_nth_app. cbn [mbind res_bind]. rewrite <- !app_assoc. simpl.
    destruct (Z.eqb_spec y x) as [->|Hne].
    + replace (Z.of_nat _ - 1) with (Z.of_nat (length pre + length h)) by (rewrite !length_app; simpl; lia).
      rewrite IH by lia. f_equal. apply bool_decide_ext. change ([x'; x]) with ([x'] ++ [x]). change ([y'; x]) with ([y'] ++ [x]).
      rewrite !app_assoc. split; [by intros ->|]. intros H. by apply app_inj_2 in H as [? _].
    + f_equal. symmetry. apply bool_decide_eq_false. change ([x'; x]) with ([x'] ++ [x]). change ([y'; y]) with ([y'] ++ [y]).
      rewrite !app_assoc. intros H. apply app_inj_2 in H as [_ [= H]]; [|done]. by rewrite H in Hne.
Qed.

(** An occurrence of [a] at position [i] of [s]. *)
Definition occurs (s a : list Z) (i : nat) : Prop := ∃ pre post, s = pre ++ a ++ post ∧ i = length pre.

Lemma memequal_spec s a n :
  (n <= length s)%nat → (n <= length a)%nat → memequal s a n = Ok (bool_decide (take n s = take n a)).
Proof.
  revert s a. induction n as [|n IH]; intros [|x s] [|y a] Hs Ha; simpl in *; try lia; try done.
  destruct (Z.eqb_spec x y) as [->|Hne].
  - rewrite IH by lia. f_equal. apply bool_decide_ext. split; [by intros ->|by intros [= ?]].
  - f_equal. symmetry. apply bool_decide_eq_false. congruence.
Qed.

Lemma occurs_take s a i :
  occurs s a i ↔ (i + length a <= length s)%nat ∧ take (length a) (drop i s) = a.
Proof.
  split.
  - intros (pre & post & -> & ->). rewrite !length_app, drop_app_length, take_app_length. split; [lia|done].
  - intros [Hl Ht]. exists (take i s), (drop (i + length a) s). split.
    + rewrite <- Ht at 1. rewrite <- (take_drop i s) at 1. f_equal. rewrite <- (take_drop (length a) (drop i s)) at 1.
      by rewrite drop_drop.
    + rewrite length_take. lia.
Qed.

Lemma find_loop_spec s rest a pos left :
  (pos + left + length a = S (length s))%nat → (∀ j, (j < pos)%nat → ¬ occurs s a j) →
  ∃ r, find_loop (s ++ rest) pos a (length a) left = Ok r ∧
    match r with
    | Some i => occurs s a (Z.to_nat i) ∧ ∀ j, (Z.of_nat j < i) → ¬ occurs s a j
    | None => ∀ j, ¬ occurs s a j
    end.
Proof.
  revert pos. induction left as [|left IH]; intros pos Hsum Hno; simpl.
  - exists None. split; [done|]. intros j Hj. destruct (Nat.lt_ge_cases j pos) as [Hlt|Hge]; [by apply (Hno j)|].
    apply occurs_take in Hj as [Hj _]. lia.
  - rewrite drop_app_le, memequal_spec by (rewrite ?length_app, ?length_drop; lia). cbn [mbind res_bind].
    rewrite take_app_le, firstn_all by (rewrite length_drop; lia). case_bool_decide as E.
    + exists (Some (Z.of_nat pos)). split; [done|]. rewrite Nat2Z.id. split; [|intros j Hj; apply Hno; lia].
      apply occurs_take. split; [lia|done].
    + apply IH; [lia|]. intros j Hj. destruct (decide (j = pos)) as [->|Hne]; [|apply Hno; lia].
      intros [_ H]%occurs_take. done.
Qed.

Lemma memchr_spec s rest c :
  ∃ r, memchr (s ++ rest) c (length s) = Ok r ∧
    match r with
    | Some i => 0 <= i ∧ s !! Z.to_nat i = Some c ∧ ∀ j, Z.of_nat j < i → s !! j ≠ Some c
    | None => c ∉ s
    end.
Proof.
  induction s as [|x s (r & E & Hr)]; simpl.
  - exists None. split; [by destruct rest|]. apply not_elem_of_nil.
  - destruct (Z.eqb_spec x c) as [->|Hne].
    + exists (Some 0). repeat split; [done|]. intros j Hj. lia.
    + rewrite E. cbn [mbind res_bind]. eexists. split; [done|]. destruct r as [i|]; simpl.
      * destruct Hr as (Hi & Hs & Hbefore). split; [lia|]. replace (Z.to_nat (1 + i)) with (S (Z.to_nat i)) by lia.
        split; [done|]. intros [|j] Hj; simpl; [congruence|]. apply Hbefore. lia.
      * apply not_elem_of_cons. split; [congruence|done].
Qed.

Lemma occurs_char s c i : occurs s [c] i ↔ s !! i = Some c.
Proof.
  split.
  - intros (pre & post & -> & ->). simpl. by rewrite lookup_app_r, Nat.sub_diag.
  - intros H. exists (take i s), (drop (S i) s). simpl. rewrite take_drop_middle by done. split; [done|].
    rewrite length_take. apply lookup_lt_Some in H. lia.
Qed.

(** ** Words *)

(** The maximal runs of characters that are not separators; [cur] is a run already begun. *)
Fixpoint words (sep : Z → bool) (cur : option (list Z)) (l : list Z) : list (list Z) :=
  match l with
  | [] => option_list cur
  | c :: l' => if sep c then option_list cur ++ words sep None l' else words sep (Some (default [] cur ++ [c])) l'
  end.

(** The C string at an offset, when it is terminated. *)
Fixpoint take_string (m : list Z) : option (list Z) :=
  match m with
  | [] => None
  | c :: m' => if c =? 0 then Some [] else (λ s, c :: s) <$> take_string m'
  end.

Definition c_string (m : list Z) (p : Z) : option (list Z) := take_string (drop (Z.to_nat p) m).

Lemma take_string_at w rest : (0 ∉ w) → take_string (w ++ 0 :: rest) = Some w.
Proof.
  induction w as [|c w IH]; intros H; simpl; [done|]. apply not_elem_of_cons in H as [Hc H].
  destruct (Z.eqb_spec c 0); [done|]. by rewrite IH.
Qed.

Lemma take_string_app m x w : take_string m = Some w → take_string (m ++ x) = Some w.
Proof.
  revert w. induction m as [|c m IH]; intros w; simpl; [done|]. destruct (c =? 0); [done|].
  destruct (take_string m) as [w'|]; simpl; [|done]. intros [= <-]. by rewrite (IH w').
Qed.

Lemma c_string_app m x p w : c_string m p = Some w → c_string (m ++ x) p = Some w.
Proof.
  unfold c_string. intros H. destruct (Nat.le_gt_cases (Z.to_nat p) (length m)) as [Hle|Hgt].
  - rewrite drop_app_le by done. by apply take_string_app.
  - rewrite drop_ge in H by lia. done.
Qed.

Lemma skip_while_run (p : Z → bool) pre run post n :
  Forall (λ c, p c = true) run → (length run <= n)%nat →
  match post with [] => n = length run | c :: _ => p c = false ∨ n = length run end →
  skip_while p (pre ++ run ++ post) (Z.of_nat (length pre)) n = Ok (Z.of_nat (length pre + length run)).
Proof.
  intros Hrun. revert pre n. induction Hrun as [|c run Hc _ IH]; intros pre n Hn Hpost; simpl in *.
  - rewrite Nat.add_0_r. destruct post as [|c post]; [by subst n|]. destruct n as [|n]; [done|].
    simpl. rewrite rd_nth_app. cbn [mbind res_bind]. destruct Hpost as [->|Hpost]; [done|lia].
  - destruct n as [|n]; [lia|]. cbn [skip_while]. rewrite rd_nth_app. cbn [mbind res_bind]. rewrite Hc.
    replace (pre ++ c :: run ++ post) with ((pre ++ [c]) ++ run ++ post) by by rewrite <- app_assoc.
    replace (Z.of_nat (length pre) + 1) with (Z.of_nat (length (pre ++ [c]))) by (rewrite length_app; simpl; lia).
    rewrite IH; [rewrite length_app; simpl; f_equal; lia|lia|].
    destruct post; [lia|]. destruct Hpost as [|]; [by left|right; lia].
Qed.

Lemma strpbrk_run d pre run post n :
  Forall (λ c, existsb (Z.eqb c) d = false) run → (length run <= n)%nat →
  match post with [] => n = length run | c :: _ => existsb (Z.eqb c) d = true ∨ n = length run end →
  u__strpbrk (pre ++ run ++ post) (Z.of_nat (length pre)) n d
  = Ok (if (n =? length run)%nat then None else Some (Z.of_nat (length pre + length run))).
Proof.
  intros Hrun. revert pre n. induction Hrun as [|c run Hc _ IH]; intros pre n Hn Hpost; simpl in *.
  - rewrite Nat.add_0_r. destruct n as [|n]; [done|]. destruct post as [|c post]; [done|].
    simpl. rewrite rd_nth_app. cbn [mbind res_bind]. destruct Hpost as [->|Hpost]; [done|lia].
  - destruct n as [|n]; [lia|]. cbn [u__strpbrk]. rewrite rd_nth_app. cbn [mbind res_bind]. rewrite Hc.
    replace (pre ++ c :: run ++ post) with ((pre ++ [c]) ++ run ++ post) by by rewrite <- app_assoc.
    replace (Z.of_nat (length pre) + 1) with (Z.of_nat (length (pre ++ [c]))) by (rewrite length_app; simpl; lia).
    change (S n =? S (length run))%nat with (n =? length run)%nat.
    rewrite IH; [rewrite length_app; simpl; destruct (n =? length run)%nat; [done|do 2 f_equal; lia]|lia|].
    destruct post; [lia|]. destruct Hpost as [|]; [by left|right; lia].
Qed.

Lemma wr_end (a : list Z) x l y : wr (a ++ x :: l) (Z.of_nat (length a)) y = Ok (a ++ y :: l).
Proof.
  unfold wr. rewrite length_app. simpl. zcases; simpl; try lia. by rewrite Nat2Z.id, insert_app_r_alt, Nat.sub_diag.
Qed.

(** A word, between separators and its NUL. *)
Lemma word_at pre seps word l :
  (0 ∉ word) → c_string (pre ++ seps ++ word ++ 0 :: l) (Z.of_nat (length pre + length seps)) = Some word.
Proof.
  intros H. unfold c_string. rewrite Nat2Z.id, <- length_app, app_assoc, drop_app_length. by apply take_string_at.
Qed.

Section Split.
Context (delim : option (list Z)).

(** What separates words: white space, or the characters of [delim]. *)
Definition separates (c : Z) : bool :=
  match delim with Some d => existsb (Z.eqb c) d | None => u__isspace c end.

Definition quote (c : Z) : bool := (c =? 34) || (c =? CH "'").

(** The characters of a text that [u_split] takes apart at the separators only. *)
Definition plain (c : Z) : Prop := c ≠ 0 ∧ quote c = false.

Lemma skip_separators pre seps post n :
  Forall (λ c, separates c = true) seps → (length seps <= n)%nat →
  match post with [] => n = length seps | c :: _ => (separates c = false ∧ c ≠ 0) ∨ n = length seps end →
  u_skip (pre ++ seps ++ post) (Z.of_nat (length pre)) (Z.of_nat (length pre + n)) delim 0
  = Ok (Z.of_nat (length pre + length seps)).
Proof.
  intros Hs Hn Hpost. unfold u_skip, separates in *. destruct delim as [d|].
  - replace (Z.to_nat _) with n by lia. apply skip_while_run; [|done|].
    + eapply Forall_impl; [exact Hs|]. intros c Hc. simpl in *. unfold strchr_lit. by rewrite Hc, orb_true_r.
    + destruct post; [done|]. destruct Hpost as [[H H0]|]; [left|by right]. unfold strchr_lit. rewrite H.
      by destruct (Z.eqb_spec z 0).
  - cbn [skipws]. replace (Z.to_nat _) with n by lia. rewrite skip_while_run; [done|done|done|].
    destruct post; [done|]. destruct Hpost as [[H _]|]; [by left|by right].
Qed.

(** The end of the word that begins at [c]. *)
Lemma delimit_word pre seps c word post n :
  Forall (λ c, separates c = true) seps → plain c → separates c = false →
  Forall (λ c, separates c = false) word → (length seps + S (length word) <= n)%nat →
  match post with
  | [] => n = (length seps + S (length word))%nat
  | x :: _ => separates x = true ∨ n = (length seps + S (length word))%nat
  end →
  u_delimit_token (pre ++ seps ++ c :: word ++ post) (Z.of_nat (length pre)) (Z.of_nat (length pre + n)) delim 0
  = Ok (Z.of_nat (length pre + length seps + S (length word)), Some (Z.of_nat (length pre + length seps))).
Proof.
  intros Hs [Hc0 Hq] Hc Hw Hn Hpost. unfold u_delimit_token.
  rewrite skip_separators; [|done|lia|by left]. cbn [mbind res_bind].
  destruct (Z.eqb_spec (Z.of_nat (length pre + length seps)) (Z.of_nat (length pre + n))); [lia|].
  rewrite app_assoc, <- length_app, rd_nth_app. cbn [mbind res_bind]. fold (quote c). rewrite Hq.
  replace ((pre ++ seps) ++ c :: word ++ post) with ((pre ++ seps ++ [c]) ++ word ++ post) by by rewrite <- !app_assoc.
  replace (Z.of_nat (length (pre ++ seps)) + 1) with (Z.of_nat (length (pre ++ seps ++ [c]))) by (rewrite !length_app; simpl; lia).
  unfold separates in *. destruct delim as [d|].
  - rewrite strpbrk_run; [|done|rewrite !length_app; simpl; lia|].
    + cbn [mbind res_bind]. do 2 f_equal. destruct (Nat.eqb_spec (Z.to_nat (Z.of_nat (length pre + n) -
        Z.of_nat (length (pre ++ seps ++ [c])))) (length word)) as [E|E]; rewrite !length_app in *; simpl in *; lia.
    + rewrite !length_app. simpl. destruct post; [lia|]. destruct Hpost; [by left|right; lia].
  - rewrite skip_while_run; [cbn [mbind res_bind]; do 2 f_equal| |rewrite !length_app; simpl; lia|].
    + rewrite !length_app. simpl. lia.
    + eapply Forall_impl; [exact Hw|]. intros x Hx. simpl. by rewrite Hx.
    + rewrite !length_app. simpl. destruct post as [|x post]; [lia|].
      destruct Hpost as [Hx|]; [left; by rewrite Hx|right; lia].
Qed.

Lemma span_of (p : Z → bool) l :
  ∃ a b, l = a ++ b ∧ Forall (λ c, p c = true) a ∧ match b with [] => True | c :: _ => p c = false end.
Proof.
  induction l as [|c l (a & b & -> & Ha & Hb)]; [by exists [], []|]. destruct (p c) eqn:E.
  - exists (c :: a), b. split; [done|]. split; [by constructor|done].
  - by exists [], (c :: a ++ b).
Qed.

Lemma words_seps sep seps l : Forall (λ c, sep c = true) seps → words sep None (seps ++ l) = words sep None l.
Proof. induction 1 as [|c seps Hc _ IH]; simpl; [done|]. by rewrite Hc. Qed.

Lemma words_word sep cur word l :
  Forall (λ c, sep c = false) word →
  words sep (Some cur) (word ++ l) = match l with
    | [] => [cur ++ word]
    | x :: l' => if sep x then (cur ++ word) :: words sep None l' else words sep (Some (cur ++ word)) l
    end.
Proof.
  intros Hw. revert cur. induction Hw as [|c word Hc _ IH]; intros cur; simpl.
  - rewrite app_nil_r. destruct l as [|x l]; [done|]. simpl. by destruct (sep x).
  - rewrite Hc. simpl. rewrite IH. destruct l; by rewrite <- app_assoc.
Qed.

(** One round of the loop finds the next word and ends it with a NUL, *)
Lemma split_step_word pre seps c word x l n argv :
  Forall (λ c, separates c = true) seps → plain c → separates c = false →
  Forall (λ c, separates c = false) word → (length seps + S (length word) <= n)%nat →
  (separates x = true ∨ n = (length seps + S (length word))%nat) →
  split_step (Z.of_nat (length pre + n)) delim (pre ++ seps ++ c :: word ++ x :: l, Z.of_nat (length pre), argv)
  = Ok (inl (pre ++ seps ++ c :: word ++ 0 :: l, Z.of_nat (length pre + length seps + S (S (length word))),
             argv ++ [Z.of_nat (length pre + length seps)])).
Proof.
  intros Hs Hp Hc Hw Hn Hx. unfold split_step.
  destruct (Z.ltb_spec (Z.of_nat (length pre)) (Z.of_nat (length pre + n))); [|lia].
  rewrite delimit_word by done. cbn [mbind res_bind].
  destruct (Z.leb_spec (Z.of_nat (length pre + length seps + S (length word))) (Z.of_nat (length pre + n))); [|lia].
  assert (Hm : ∀ x l, pre ++ seps ++ c :: word ++ x :: l = (pre ++ seps ++ c :: word) ++ x :: l)
    by (intros; by rewrite <- !app_assoc).
  assert (Hlen : (length pre + length seps + S (length word))%nat = length (pre ++ seps ++ c :: word))
    by (rewrite !length_app; simpl; lia).
  rewrite !Hm, Hlen, wr_end. cbn [mbind res_bind]. repeat f_equal. rewrite <- Hlen. lia.
Qed.

(** or the end of the text. *)
Lemma split_step_end pre seps l argv :
  Forall (λ c, separates c = true) seps → (0 < length seps)%nat →
  split_step (Z.of_nat (length pre + length seps)) delim (pre ++ seps ++ l, Z.of_nat (length pre), argv)
  = Ok (inl (pre ++ seps ++ l, Z.of_nat (length pre + length seps) + 1, argv)).
Proof.
  intros Hs Hpos. unfold split_step.
  destruct (Z.ltb_spec (Z.of_nat (length pre)) (Z.of_nat (length pre + length seps))); [|lia].
  unfold u_delimit_token. rewrite skip_separators; [|done|lia|by destruct l; [|right]].
  cbn [mbind res_bind]. rewrite Z.eqb_refl. cbn [mbind res_bind].
  destruct (Z.leb_spec (Z.of_nat (length pre + length seps) + 1) (Z.of_nat (length pre + length seps))); [lia|done].
Qed.

Lemma split_stop n m s e argv : e <= s → iterate (S n) (split_step e delim) (m, s, argv) = Ok (m, argv).
Proof. intros H. simpl. unfold split_step. destruct (Z.ltb_spec s e); [lia|done]. Qed.

Lemma split_loop n suf pre argv rest :
  (length suf < n)%nat → Forall plain suf →
  ∃ suf' argv', iterate n (split_step (Z.of_nat (length pre + length suf)) delim)
      (pre ++ suf ++ 0 :: rest, Z.of_nat (length pre), argv)
    = Ok (pre ++ suf' ++ 0 :: rest, argv ++ argv') ∧ length suf' = length suf ∧
    map (c_string (pre ++ suf' ++ 0 :: rest)) argv' = map Some (words separates None suf).
Proof.
  revert suf pre argv. induction n as [|n IH]; intros suf pre argv Hn Hp; [lia|].
  destruct (decide (length suf = 0%nat)) as [E0|Hne].
  { destruct suf; [|done]. exists [], []. rewrite app_nil_r, Nat.add_0_r. split; [by apply split_stop|done]. }
  destruct n as [|n]; [lia|]. cbn [iterate].
  destruct (span_of separates suf) as (seps & tail & -> & Hseps & Htail).
  rewrite length_app in Hn, Hne |- *. apply Forall_app in Hp as [_ Hp]. rewrite words_seps by done.
  destruct tail as [|c tail].
  { rewrite app_nil_r, Nat.add_0_r, split_step_end by (done || (simpl in Hne; lia)). exists seps, [].
    rewrite app_nil_r. split; [apply split_stop; lia|]. simpl. split; [lia|done]. }
  destruct (span_of (λ c, negb (separates c)) tail) as (word & post & -> & Hword & Hpost).
  assert (Hw : Forall (λ c, separates c = false) word).
  { eapply Forall_impl; [exact Hword|]. intros x Hx. by apply negb_true_iff in Hx. }
  apply Forall_cons in Hp as [Hc Hp]. cbn [length] in *. rewrite length_app in *.
  assert (Hnz : 0 ∉ c :: word).
  { apply Forall_app in Hp as [Hp _]. apply not_elem_of_cons. split; [by destruct Hc|]. intros Hin.
    rewrite Forall_forall in Hp. by destruct (Hp 0 Hin). }
  cbn [words]. rewrite Htail. cbn [default]. rewrite words_word by done.
  rewrite <- app_assoc. cbn [app]. rewrite <- app_assoc. destruct post as [|x post].
  - cbn [app]. rewrite split_step_word; [|done..|simpl; lia|right; simpl; lia].
    exists (seps ++ c :: word), [Z.of_nat (length pre + length seps)].
    rewrite <- app_assoc. cbn [app]. split; [apply split_stop; simpl; lia|split; [rewrite length_app; simpl; lia|]].
    pose proof (word_at pre seps (c :: word) rest Hnz) as E. simpl in E |- *. by rewrite E.
  - apply negb_false_iff in Hpost. cbn [app]. rewrite split_step_word; [|done..|simpl; lia|by left].
    set (pre' := pre ++ seps ++ c :: word ++ [0]).
    assert (Hm : ∀ l, pre ++ seps ++ c :: word ++ 0 :: l = pre' ++ l)
      by (intros l; unfold pre'; rewrite <- !app_assoc; simpl; by rewrite <- !app_assoc).
    assert (Hpre : length pre' = (length pre + length seps + S (S (length word)))%nat)
      by (unfold pre'; rewrite !length_app; simpl; rewrite length_app; simpl; lia).
    apply Forall_app in Hp as [_ [_ Hp]%Forall_cons]. simpl in Hn.
    destruct (IH post pre' (argv ++ [Z.of_nat (length pre + length seps)]) ltac:(lia) Hp) as (suf' & argv' & Ei & Hl & Hargs).
    exists (seps ++ c :: word ++ 0 :: suf'), (Z.of_nat (length pre + length seps) :: argv').
    rewrite <- app_assoc. cbn [app]. rewrite <- app_assoc. cbn [app]. rewrite !Hm, <- Hpre. rewrite <- app_assoc in Ei.
    replace (length pre + (length seps + S (length word + length (x :: post))))%nat with (length pre' + length post)%nat by (simpl; lia).
    split; [exact Ei|]. split; [rewrite length_app; simpl; rewrite length_app; simpl; lia|].
    rewrite Hpost. simpl. rewrite Hargs. f_equal. rewrite <- Hm. apply (word_at pre seps (c :: word) (suf' ++ 0 :: rest) Hnz).
Qed.
End Split.

(** ** Groups *)

Section Group.
Context (o c k : Z) (Hoc : o ≠ c) (Ho : u__isspace o = false ∧ o ≠ k ∧ o ≠ CH "\") (Hc : u__isspace c = false ∧ c ≠ k ∧ c ≠ CH "\").

(** Text in which the groups are closed, without the character that starts a comment and without backslash. *)
Inductive balanced : list Z → Prop :=
  | balanced_nil : balanced []
  | balanced_char x t : x ≠ o → x ≠ c → x ≠ k → x ≠ CH "\" → balanced t → balanced (x :: t)
  | balanced_group t1 t2 : balanced t1 → balanced t2 → balanced (o :: t1 ++ c :: t2).

Context (m : list Z) (end_ : Z).

Abbreviation step := (strpend_step m end_ [o; c] 1 k).

(** The round that reads [x], and what was before it. *)
Lemma strpend_char s level b x :
  rd m s = Ok b → rd m (s + 1) = Ok x → b ≠ CH "\" → s < end_ → x ≠ k →
  step (s, level, true)
  = if u__isspace x then Ok (inl (s + 1, level, true))
    else if x =? o then Ok (inl (s + 1, level + 1, true))
    else if x =? c then Ok (if level - 1 =? 0 then inr (Some (s + 1)) else inl (s + 1, level - 1, true))
    else Ok (inl (s + 1, level, true)).
Proof.
  intros Hb Hx Hbs Hlt Hk. unfold strpend_step. destruct (Z.ltb_spec s end_); [|lia]. cbn [andb negb]. rewrite Hx.
  cbn [mbind res_bind]. destruct (u__isspace x); [done|]. destruct (Z.eqb_spec x k); [done|].
  change (rd [o; c] 0) with (@Ok Z o). change (rd [o; c] (Z.of_nat 1)) with (@Ok Z c).
  replace (s + 1 - 1) with s by lia. rewrite Hb. cbn [mbind res_bind].
  destruct (Z.eqb_spec b (CH "\")); [done|]. cbn [negb]. rewrite !andb_true_r.
  destruct (x =? o); [done|]. destruct (x =? c); [|done]. cbn [mbind res_bind group_match Nat.sub]. done.
Qed.

(** A balanced text is passed at the level it is met at. *)
Lemma strpend_balanced t :
  balanced t → ∀ pre post s level b n,
  m = pre ++ t ++ post → s + 1 = Z.of_nat (length pre) → rd m s = Ok b → b ≠ CH "\" → 1 <= level →
  s + Z.of_nat (length t) <= end_ →
  iterate (length t + n) step (s, level, true) = iterate n step (s + Z.of_nat (length t), level, true) ∧
  ∃ b', rd m (s + Z.of_nat (length t)) = Ok b' ∧ b' ≠ CH "\".
Proof.
  induction 1 as [|x t Hxo Hxc Hxk Hxb Ht IH|t1 t2 Ht1 IH1 Ht2 IH2]; intros pre post s level b n Em Hs Hb Hbs Hl Hend.
  - simpl. rewrite Z.add_0_r. split; [done|by exists b].
  - simpl in Hend. assert (Hx : rd m (s + 1) = Ok x) by (rewrite Hs, Em; apply rd_nth_app).
    cbn [length Nat.add iterate]. rewrite (strpend_char s level b x) by (done || lia).
    assert (E : (if u__isspace x then Ok (inl (s + 1, level, true)) else if x =? o then Ok (inl (s + 1, level + 1, true))
      else if x =? c then Ok (if level - 1 =? 0 then inr (Some (s + 1)) else inl (s + 1, level - 1, true))
      else Ok (inl (s + 1, level, true))) = Ok (inl (s + 1, level, true)) :> res (Z * Z * bool + option Z)).
    { destruct (u__isspace x); [done|]. destruct (Z.eqb_spec x o); [done|]. by destruct (Z.eqb_spec x c). }
    rewrite E. destruct (IH (pre ++ [x]) post (s + 1) level x n) as [Ei Hb'];
      [by rewrite Em, <- app_assoc|rewrite length_app; simpl; lia|done..|lia|].
    rewrite Ei. replace (s + Z.of_nat (S (length t))) with (s + 1 + Z.of_nat (length t)) by lia. done.
  - cbn [length] in Hend |- *. rewrite length_app in Hend |- *. cbn [length] in Hend |- *.
    assert (Hx : rd m (s + 1) = Ok o) by (rewrite Hs, Em; apply rd_nth_app).
    cbn [Nat.add iterate]. rewrite (strpend_char s level b o) by (done || lia || by destruct Ho as (_ & ? & _)).
    destruct Ho as (Hos & Hok & Hob). rewrite Hos, Z.eqb_refl.
    destruct (IH1 (pre ++ [o]) (c :: t2 ++ post) (s + 1) (level + 1) o (S (length t2 + n))) as [E1 (b1 & Hb1 & Hb1s)];
      [rewrite Em, <- !app_assoc; simpl; by rewrite <- app_assoc|rewrite length_app; simpl; lia|done|done|lia|lia|].
    replace (length t1 + S (length t2) + n)%nat with (length t1 + S (length t2 + n))%nat by lia. rewrite E1.
    cbn [iterate]. set (s1 := s + 1 + Z.of_nat (length t1)) in *.
    assert (Em1 : m = (pre ++ o :: t1) ++ c :: t2 ++ post) by (rewrite Em, <- !app_assoc; simpl; by rewrite <- app_assoc).
    assert (Hc1 : rd m (s1 + 1) = Ok c).
    { replace (s1 + 1) with (Z.of_nat (length (pre ++ o :: t1))) by (rewrite length_app; simpl; lia).
      rewrite Em1. apply rd_nth_app. }
    destruct Hc as (Hcs & Hck & Hcb). rewrite (strpend_char s1 (level + 1) b1 c) by (done || lia).
    rewrite Hcs, Z.eqb_refl. destruct (Z.eqb_spec c o); [congruence|].
    destruct (Z.eqb_spec (level + 1 - 1) 0); [lia|]. replace (level + 1 - 1) with level by lia.
    destruct (IH2 (pre ++ o :: t1 ++ [c]) post (s1 + 1) level c n) as [E2 Hb2];
      [by rewrite Em1, <- !app_assoc; simpl; rewrite <- !app_assoc|rewrite !length_app; simpl; rewrite length_app; simpl; lia
      |done|done|done|lia|].
    rewrite E2. replace (s + Z.of_nat (S (length t1 + S (length t2)))) with (s1 + 1 + Z.of_nat (length t2)) by lia. done.
Qed.
End Group.

(** ** Splitting at a character *)

Lemma until_app d token tok rest :
  (d ∉ tok) → until d token (tok ++ rest)
  = match rest with [] => (token ++ tok, []) | x :: r => if x =? d then (token ++ tok, r) else until d (token ++ tok) rest end.
Proof.
  revert token. induction tok as [|y tok IH]; intros token H; simpl.
  - rewrite !app_nil_r. by destruct rest as [|x rest]; [|simpl; destruct (x =? d)].
  - apply not_elem_of_cons in H as [Hy H]. destruct (Z.eqb_spec y d); [congruence|]. rewrite IH by done.
    by rewrite <- app_assoc.
Qed.

Lemma next_token_app d tok rest :
  tok ≠ [] → (d ∉ tok) → match rest with [] => True | x :: _ => x = d end →
  next_token d (tok ++ rest) = Some (tok, drop 1 rest).
Proof.
  intros Hne H Hrest. destruct tok as [|x tok]; [done|]. apply not_elem_of_cons in H as [Hx H]. simpl.
  destruct (Z.eqb_spec x d); [congruence|]. rewrite until_app by done. simpl. destruct rest as [|y rest]; [done|].
  subst y. by rewrite Z.eqb_refl.
Qed.

Lemma split_char_loop d v n tokens :
  Forall (λ t, t ≠ [] ∧ (d ∉ t)) v → (length v < n)%nat →
  iterate n (split_char_step d) (join v [d], tokens) = Ok (tokens ++ v).
Proof.
  intros Hv. revert n tokens. induction Hv as [|t v [Hne Hd] Hv IH]; intros n tokens Hn.
  - destruct n; [lia|]. simpl. by rewrite app_nil_r.
  - destruct n as [|n]; [lia|]. cbn [iterate]. unfold split_char_step at 1. simpl in Hn.
    assert (E : next_token d (join (t :: v) [d]) = Some (t, join v [d])).
    { destruct v as [|u v]; [pose proof (next_token_app d t [] Hne Hd I) as E; by rewrite app_nil_r in E|].
      change (join (t :: u :: v) [d]) with (t ++ [d] ++ join (u :: v) [d]). by rewrite next_token_app. }
    rewrite E, IH by lia. by rewrite <- app_assoc.
Qed.

Lemma join_length v d : Forall (λ t : list Z, t ≠ []) v → (length v <= length (join v [d]))%nat.
Proof.
  induction 1 as [|t v Ht Hv IH]; [done|]. destruct t; [done|]. destruct v as [|u v]; [simpl; lia|].
  change (join ((z :: t) :: u :: v) [d]) with ((z :: t) ++ [d] ++ join (u :: v) [d]).
  rewrite length_app. simpl in *. lia.
Qed.

(** ** Properties *)

(** [u_find] searches for a string inside another: it ends, reads inside the two, and returns the first
    position at which the whole of the second is found, or null when there is none. *)
Theorem u_find_correct s rest a :
  (0 < length a)%nat →
  ∃ r, u_find (s ++ rest) (length s) a (length a) = Ok r ∧
    match r with
    | Some i => occurs s a (Z.to_nat i) ∧ ∀ j, Z.of_nat j < i → ¬ occurs s a j
    | None => ∀ j, ¬ occurs s a j
    end.
Proof.
  intros Ha. unfold u_find. destruct (Nat.eqb_spec (length s) 0) as [E|E].
  { exists None. split; [done|]. intros j [Hj _]%occurs_take. lia. }
  destruct (Nat.eqb_spec (length a) 1) as [E1|E1].
  - destruct a as [|c [|]]; try done. change (rd [c] 0) with (@Ok Z c). cbn [mbind res_bind].
    destruct (memchr_spec s rest c) as (r & -> & Hr). exists r. split; [done|]. destruct r as [i|].
    + destruct Hr as (Hi & Hs & Hbefore). split; [by apply occurs_char|]. intros j Hj Ho%occurs_char. by apply (Hbefore j).
    + intros j Hj%occurs_char. apply Hr. by apply list_elem_of_lookup_2 in Hj.
  - destruct (Nat.le_gt_cases (length a) (length s)) as [Hle|Hgt].
    + apply find_loop_spec; [lia|]. intros j Hj. lia.
    + replace (S (length s) - length a)%nat with 0%nat by lia. exists None. split; [done|].
      intros j [Hj _]%occurs_take. lia.
Qed.

Lemma u_find_correct_witness :
  ∃ r, u_find (BS "the cat sat" ++ [0]) 11 (BS "at") 2 = Ok r ∧ r = Some 5 ∧ occurs (BS "the cat sat") (BS "at") 5.
Proof.
  destruct (u_find_correct (BS "the cat sat") [0] (BS "at")) as (r & E & Hr); [simpl; lia|].
  assert (E' : u_find (BS "the cat sat" ++ [0]) 11 (BS "at") 2 = Ok (Some 5)) by (vm_compute; reflexivity).
  pose proof (eq_trans (eq_sym E) E') as Er. injection Er as ->. exists (Some 5). split; [exact E|]. split; [reflexivity|apply Hr].
Defined.

(** [u_rmatch] tells whether a string ends with another. *)
Theorem u_rmatch_correct haystack needle rest rest' :
  (0 < length needle)%nat →
  ∃ b, u_rmatch (haystack ++ rest) (length haystack) (needle ++ rest') (length needle) = Ok b ∧
    (b = true ↔ ∃ pre, haystack = pre ++ needle).
Proof.
  intros Hn. unfold u_rmatch. destruct (Nat.leb_spec (length needle) (length haystack)) as [Hle|Hgt].
  - destruct needle as [|y n _] using rev_ind; [simpl in Hn; lia|]. rewrite length_app in *. simpl in *.
    replace (length n + 1)%nat with (S (length n)) in * by lia.
    destruct haystack as [|x h _] using rev_ind; [simpl in Hle; lia|]. rewrite length_app in *. simpl in *.
    rewrite <- !app_assoc. simpl. rewrite <- (take_drop (length h - length n) h), <- app_assoc.
    replace (Z.of_nat _ - 1) with (Z.of_nat (length (take (length h - length n) h) + length (drop (length h - length n) h)))
      by (rewrite ?length_app, length_take, length_drop; lia).
    rewrite rmatch_loop_spec by (rewrite length_drop; lia). eexists. split; [done|]. rewrite bool_decide_eq_true. split.
    + intros E. exists (take (length h - length n) h). by rewrite <- E, app_assoc.
    + intros [pre E]. rewrite <- app_assoc in E. apply app_inj_1 in E as [_ E]; [done|].
      apply (f_equal length) in E. rewrite !length_app, length_take, length_drop in *. simpl in E. lia.
  - exists false. split; [done|]. split; [done|]. intros [pre ->]. rewrite length_app in Hgt. lia.
Qed.

Lemma u_rmatch_correct_witness :
  ∃ b, u_rmatch (BS "index.html" ++ [0]) 10 (BS ".html" ++ [0]) 5 = Ok b ∧ (b = true ↔ ∃ pre, BS "index.html" = pre ++ BS ".html").
Proof. apply (u_rmatch_correct (BS "index.html") (BS ".html") [0] [0]). simpl. lia. Defined.

(** C28: [u_split] takes a text without quotes apart into its words: it ends, writes only inside the text and
    the NUL after it, and [argv] points, in order, to the maximal runs of characters that are not white
    space (or not in [delim]), each now ended by a NUL. *)
Theorem u_split_words delim text rest :
  Forall plain text →
  ∃ text' argv, u_split (text ++ 0 :: rest) (Z.of_nat (length text)) delim = Ok (text' ++ 0 :: rest, argv) ∧
    length text' = length text ∧
    map (c_string (text' ++ 0 :: rest)) argv = map Some (words (separates delim) None text).
Proof.
  intros Hp. apply (split_loop delim (S (length (text ++ 0 :: rest))) text [] [] rest); [|done].
  rewrite length_app. simpl. lia.
Qed.

Lemma u_split_words_witness :
  ∃ text' argv, u_split (BS "  ls -l  /tmp" ++ [0]) 13 None = Ok (text' ++ [0], argv) ∧ length text' = 13%nat ∧
    map (c_string (text' ++ [0])) argv = map Some [BS "ls"; BS "-l"; BS "/tmp"].
Proof.
  apply (u_split_words None (BS "  ls -l  /tmp") []). repeat (constructor; [split; [discriminate|reflexivity]|]). constructor.
Defined.

(** Splitting at a character gives back the tokens that [join] put together with it, when they are not
    empty, do not contain it and the first does not begin with a double quote. *)
Theorem split_join_roundtrip v d :
  Forall (λ t, t ≠ [] ∧ (d ∉ t)) v → head (join v [d]) ≠ Some 34 → split_char (join v [d]) d = Ok v.
Proof.
  intros Hv Hq. unfold split_char.
  assert (E : match join v [d] with 34 :: text => removelast text | _ => join v [d] end = join v [d]).
  { destruct (join v [d]) as [|x l]; [done|]. simpl in Hq. repeat (case_match; try done). }
  rewrite E. apply (split_char_loop d v _ []); [done|].
  pose proof (join_length v d) as H. eapply Nat.le_lt_trans; [apply H|lia].
  eapply Forall_impl; [exact Hv|]. by intros t [? _].
Qed.

Lemma split_join_roundtrip_witness :
  split_char (BS "usr,local,bin") (CH ",") = Ok [BS "usr"; BS "local"; BS "bin"].
Proof.
  apply (split_join_roundtrip [BS "usr"; BS "local"; BS "bin"] (CH ",")); [|discriminate].
  repeat (constructor; [split; [discriminate|apply (bool_decide_eq_true_1 (_ ∉ _)); reflexivity]|]). constructor.
Defined.

(** [u_strpend] finds the character that closes a group: with the text between balanced, without
    backslash and comment character, it returns the place of the closing character, also when that is the
    character just after the [slen] it was given. *)
Theorem u_strpend_balanced o c k t rest slen :
  o ≠ c → (u__isspace o = false ∧ o ≠ k ∧ o ≠ CH "\") → (u__isspace c = false ∧ c ≠ k ∧ c ≠ CH "\") →
  balanced o c k t → Z.of_nat (length t) + 1 <= slen →
  u_strpend (o :: t ++ c :: rest) slen [o; c] k = Ok (Some (Z.of_nat (length t) + 1)).
Proof.
  intros Hoc Ho Hc Ht Hlen. unfold u_strpend. change (length [o; c] / 2)%nat with 1%nat.
  set (m := o :: t ++ c :: rest). assert (Hm : length m = (length t + S (S (length rest)))%nat)
    by (unfold m; simpl; rewrite length_app; simpl; lia).
  replace (S (length m)) with (length t + S (S (S (length rest))))%nat by lia.
  destruct (strpend_balanced o c k Hoc Ho Hc m slen t Ht [o] (c :: rest) 0 1 o (S (S (S (length rest)))))
    as [E (b & Hb & Hbs)]; [done|done|done|apply Ho|lia|lia|].
  rewrite E. cbn [iterate]. rewrite (strpend_char o c k m slen _ _ b c).
  - destruct Hc as (-> & _ & _). destruct (Z.eqb_spec c o); [congruence|]. by rewrite Z.eqb_refl.
  - done.
  - replace (0 + Z.of_nat (length t) + 1) with (Z.of_nat (length (o :: t))) by (simpl; lia).
    apply (rd_nth_app (o :: t)).
  - done.
  - lia.
  - apply Hc.
Qed.

Lemma u_strpend_balanced_witness :
  u_strpend (BS "(a(b)c(d(e)))z") 13 (BS "()") 0 = Ok (Some 12).
Proof.
  apply (u_strpend_balanced (CH "(") (CH ")") 0 (BS "a(b)c(d(e))") (BS "z")); [done|by splits|by splits| |simpl; lia].
  do 1 (apply balanced_char; [done..|]).
  apply (balanced_group _ _ _ (BS "b") (BS "c(d(e))")); repeat (apply balanced_char; [done..|]); [constructor|].
  apply (balanced_group _ _ _ (BS "d(e)") []); [|constructor]. repeat (apply balanced_char; [done..|]).
  apply (balanced_group _ _ _ (BS "e") []); repeat (apply balanced_char; [done..|]); constructor.
Defined.
