(* ===== verification/Memory.v ===== *)
(** * Memory that is read and written in blocks

    The contents of a mapped file is a list of bytes. [mrd] and [mwr] are [memcpy] out of it and into it,
    [get4] and [put4] the macros [u_get_unaligned] and [u_put_unaligned] of [include/ulib/base/macro.h]
    for a [uint32_t] on a little endian machine. *)

From S2P Require Import Prelude.

Definition mrd (m : list Z) (p n : Z) : res (list Z) :=
  if (p <? 0) || (n <? 0) || (Z.of_nat (length m) <? p + n) then Fail OutOfBounds
  else Ok (take (Z.to_nat n) (drop (Z.to_nat p) m)).

Definition mwr (m : list Z) (p : Z) (bs : list Z) : res (list Z) :=
  if (p <? 0) || (Z.of_nat (length m) <? p + Z.of_nat (length bs)) then Fail OutOfBounds
  else Ok (take (Z.to_nat p) m ++ bs ++ drop (Z.to_nat p + length bs) m).

Definition le32 (v : Z) : list Z := [v mod 256; v / 256 mod 256; v / 65536 mod 256; v / 16777216 mod 256].

Definition of_le (bs : list Z) : Z := foldr (λ b v, b + 256 * v) 0 bs.

Definition get4 (m : list Z) (p : Z) : res Z := bs ← mrd m p 4; Ok (of_le bs).

Definition put4 (m : list Z) (p v : Z) : res (list Z) := mwr m p (le32 v).

(** ** Reading and writing *)

Lemma of_le32 v : 0 <= v < 2 ^ 32 → of_le (le32 v) = v.
Proof. intros Hv. cbn [of_le le32 foldr]. Z.div_mod_to_equations. lia. Qed.

Lemma mrd_ok m p n : 0 <= p → 0 <= n → p + n <= Z.of_nat (length m) →
  mrd m p n = Ok (take (Z.to_nat n) (drop (Z.to_nat p) m)).
Proof. intros. unfold mrd. zcases; (lia || done). Qed.

Lemma mrd_inv m p n bs : mrd m p n = Ok bs →
  0 <= p ∧ 0 <= n ∧ p + n <= Z.of_nat (length m) ∧ bs = take (Z.to_nat n) (drop (Z.to_nat p) m) ∧
  Z.of_nat (length bs) = n.
Proof.
  unfold mrd. zcases; cbn [orb]; try done. intros [= <-]. splits; try lia; try done.
  rewrite length_take, length_drop. lia.
Qed.

Lemma mwr_inv m p bs m' : mwr m p bs = Ok m' →
  0 <= p ∧ p + Z.of_nat (length bs) <= Z.of_nat (length m) ∧
  m' = take (Z.to_nat p) m ++ bs ++ drop (Z.to_nat p + length bs) m ∧ length m' = length m.
Proof.
  unfold mwr. zcases; cbn [orb]; try done. intros [= <-]. splits; try lia; try done.
  rewrite !length_app, length_take, length_drop. lia.
Qed.

Lemma mwr_ok m p bs : 0 <= p → p + Z.of_nat (length bs) <= Z.of_nat (length m) →
  ∃ m', mwr m p bs = Ok m' ∧ length m' = length m.
Proof.
  intros Hp Hl. destruct (mwr m p bs) as [m'|] eqn:E.
  - exists m'. split; [done|]. by apply mwr_inv in E as (_ & _ & _ & ?).
  - unfold mwr in E. destruct (Z.ltb_spec p 0); [lia|].
    destruct (Z.ltb_spec (Z.of_nat (length m)) (p + Z.of_nat (length bs))); [lia|done].
Qed.

(** What was stored is read back, and a block beside it is as before. *)
Lemma mrd_mwr_same m p bs m' : mwr m p bs = Ok m' → mrd m' p (Z.of_nat (length bs)) = Ok bs.
Proof.
  intros H. apply mwr_inv in H as (Hp & Hl & -> & Hl'). rewrite mrd_ok by lia. rewrite Nat2Z.id.
  rewrite drop_app_length' by (rewrite length_take; lia). by rewrite take_app_length.
Qed.

Lemma mrd_mwr_ne m p bs m' q n :
  mwr m p bs = Ok m' → q + n <= p ∨ p + Z.of_nat (length bs) <= q → mrd m' q n = mrd m q n.
Proof.
  intros H Hq. apply mwr_inv in H as (Hp & Hl & E & Hl'). unfold mrd. rewrite Hl'.
  destruct (Z.ltb_spec q 0); [done|]. destruct (Z.ltb_spec n 0); [done|].
  destruct (Z.ltb_spec (Z.of_nat (length m)) (q + n)); [done|]. cbn [orb]. f_equal. subst m'.
  apply list_eq. intros i. destruct (decide (i < Z.to_nat n)%nat) as [Hi|Hi].
  - rewrite !lookup_take_lt, !lookup_drop by lia. destruct Hq as [Hq|Hq].
    + rewrite lookup_app_l by (rewrite length_take; lia). by rewrite lookup_take_lt by lia.
    + rewrite lookup_app_r by (rewrite length_take; lia). rewrite length_take.
      rewrite lookup_app_r by lia. rewrite lookup_drop. f_equal. lia.
  - rewrite !lookup_take_ge by lia. done.
Qed.

(** Writing what is there. *)
Lemma mwr_id m p bs : mrd m p (Z.of_nat (length bs)) = Ok bs → mwr m p bs = Ok m.
Proof.
  intros H. apply mrd_inv in H as (Hp & _ & Hl & E & _). rewrite Nat2Z.id in E. unfold mwr.
  destruct (Z.ltb_spec p 0); [lia|]. destruct (Z.ltb_spec (Z.of_nat (length m)) (p + Z.of_nat (length bs))); [lia|].
  cbn [orb]. f_equal. rewrite E at 1. rewrite <-drop_drop, take_drop. by rewrite take_drop.
Qed.

(** A part of a block that was read. *)
Lemma mrd_sub m p n bs k j : mrd m p n = Ok bs → 0 <= k → 0 <= j → k + j <= n →
  mrd m (p + k) j = Ok (take (Z.to_nat j) (drop (Z.to_nat k) bs)).
Proof.
  intros H Hk Hj Hn. apply mrd_inv in H as (Hp & _ & Hl & -> & _). rewrite mrd_ok by lia.
  f_equal. rewrite skipn_firstn_comm, take_take, drop_drop. f_equal; [lia|]. f_equal. lia.
Qed.

(** Two blocks read one after the other. *)
Lemma mrd_app m p a b A B : mrd m p a = Ok A → mrd m (p + a) b = Ok B → mrd m p (a + b) = Ok (A ++ B).
Proof.
  intros H1 H2. apply mrd_inv in H1 as (Hp & Ha & Hl & -> & Hla). apply mrd_inv in H2 as (_ & Hb & Hl2 & -> & _).
  rewrite mrd_ok by lia. rewrite (Z2Nat.inj_add a b) by lia. rewrite <-take_take_drop. f_equal. f_equal.
  rewrite drop_drop. do 2 f_equal. lia.
Qed.

(** Two blocks stored one after the other. *)
Lemma mwr_app m p a b m1 m2 :
  mwr m p a = Ok m1 → mwr m1 (p + Z.of_nat (length a)) b = Ok m2 → mwr m p (a ++ b) = Ok m2.
Proof.
  intros H1 H2. apply mwr_inv in H1 as (Hp & Hl & E1 & Hl1). apply mwr_inv in H2 as (Hp2 & Hl2 & -> & _).
  unfold mwr. rewrite length_app. destruct (Z.ltb_spec p 0); [lia|].
  destruct (Z.ltb_spec (Z.of_nat (length m)) (p + Z.of_nat (length a + length b))); [lia|]. cbn [orb]. f_equal.
  rewrite Z2Nat.inj_add, Nat2Z.id by lia. rewrite E1, <-app_assoc.
  replace (take (Z.to_nat p + length a) (take (Z.to_nat p) m ++ a ++ drop (Z.to_nat p + length a) m))
    with (take (Z.to_nat p) m ++ a).
  2:{ rewrite app_assoc. rewrite take_app_length'; [done|]. rewrite length_app, length_take. lia. }
  rewrite <-app_assoc. do 3 f_equal. rewrite app_assoc, drop_app_ge by (rewrite length_app, length_take; lia).
  rewrite drop_drop. f_equal. rewrite length_app, length_take. lia.
Qed.

Lemma put4_inv m p v m' : put4 m p v = Ok m' → length m' = length m.
Proof. intros H. by apply mwr_inv in H as (_ & _ & _ & ?). Qed.

Lemma put4_ok m p v : 0 <= p → p + 4 <= Z.of_nat (length m) → ∃ m', put4 m p v = Ok m' ∧ length m' = length m.
Proof. intros. apply mwr_ok; simpl; lia. Qed.

Lemma get4_put4 m p v m' : put4 m p v = Ok m' → 0 <= v < 2 ^ 32 → get4 m' p = Ok v.
Proof.
  intros H Hv. unfold get4. change 4 with (Z.of_nat (length (le32 v))). rewrite (mrd_mwr_same m p _ m') by done.
  cbn [mbind res_bind]. by rewrite of_le32.
Qed.

Lemma mrd_put4_ne m p v m' q n : put4 m p v = Ok m' → q + n <= p ∨ p + 4 <= q → mrd m' q n = mrd m q n.
Proof. intros H Hq. eapply mrd_mwr_ne; [exact H|]. done. Qed.

Lemma get4_put4_ne m p v m' q : put4 m p v = Ok m' → q + 4 <= p ∨ p + 4 <= q → get4 m' q = get4 m q.
Proof. intros H Hq. unfold get4. by rewrite (mrd_put4_ne m p v m') by done. Qed.

Lemma get4_mwr_ne m p bs m' q :
  mwr m p bs = Ok m' → q + 4 <= p ∨ p + Z.of_nat (length bs) <= q → get4 m' q = get4 m q.
Proof. intros H Hq. unfold get4. by rewrite (mrd_mwr_ne m p bs m') by done. Qed.

(** A number in a block that was read. *)
Lemma get4_sub m p n bs k v : mrd m p n = Ok bs → 0 <= k → k + 4 <= n →
  take 4 (drop (Z.to_nat k) bs) = le32 v → 0 <= v < 2 ^ 32 → get4 m (p + k) = Ok v.
Proof.
  intros H Hk Hn E Hv. unfold get4. rewrite (mrd_sub m p n bs k 4) by (done || lia).
  cbn [mbind res_bind]. change (Z.to_nat 4) with 4%nat. by rewrite E, of_le32.
Qed.
