(* ===== verification/Cache.v ===== *)
(** * The cache ([UCache], [src/ulib/cache.cpp], [include/ulib/cache.h])

    A mapped file with a hash table of links and a ring of entries. A link is the exclusive or of the
    positions of the two neighbours in the list of a bucket. [x] is the memory after the header, whose five
    numbers are fields here. The clock is an argument; files and directories are given by their contents. The
    assertions of the debug build, among them the ranges of the lengths, are not modelled. *)

From S2P Require Import Prelude Memory Hash Strftime Strptime.

Record cache := Cache {
  x : list Z; size : Z; hsize : Z; writer : Z; oldest : Z; unused : Z; start : Z; ttl : Z }.

Definition U_NO_TTL : Z := 2 ^ 32 - 1.
Definition sizeof_entry : Z := 16.
Definition sizeof_info : Z := 20.

Definition set_x (m : list Z) (c : cache) : cache :=
  Cache m (size c) (hsize c) (writer c) (oldest c) (unused c) (start c) (ttl c).
Definition set_ring (w o u : Z) (c : cache) : cache :=
  Cache (x c) (size c) (hsize c) w o u (start c) (ttl c).
Definition set_ttl (t : Z) (c : cache) : cache :=
  Cache (x c) (size c) (hsize c) (writer c) (oldest c) (unused c) (start c) t.

(** ** Making a cache *)

Definition getHSize_step (size hsize : Z) : res (Z + Z) :=
  if hsize <=? size / sizeof_entry then Ok (inl (u32 (Z.shiftl hsize 1))) else Ok (inr hsize).

Definition getHSize (size : Z) : res Z := iterate 32 (getHSize_step size) 4.

Definition getTime (now : Z) (c : cache) : Z := u32 (now - start c).

(** [init] on the file [_x]: a file that was there before has its header read, and its time of
    modification is the time of reference. *)
Definition init (_x : list Z) (size : Z) (bexist : bool) (mtime now : Z) : res cache :=
  let m := drop (Z.to_nat sizeof_info) _x in
  if bexist then
    size ← get4 _x 0; hsize ← get4 _x 4; writer ← get4 _x 8; oldest ← get4 _x 12; unused ← get4 _x 16;
    Ok (Cache m size hsize writer oldest unused mtime 0)
  else
    let size := u32 (size - sizeof_info) in
    hsize ← getHSize size;
    Ok (Cache m size hsize hsize size size now 0).

(** [open(path, size)]; an empty file is one that was not there. *)
Definition open_cache (_x : list Z) (size mtime now : Z) : res cache :=
  if negb (Z.of_nat (length _x) =? 0) then init _x size true mtime now
  else init (replicate (Z.to_nat size) 0) size false mtime now.

(** ** Operations *)

Definition hash (c : cache) (key : list Z) : res Z :=
  v ← u_cdb_hash key (length key) false; Ok (v * 4 mod hsize c).

Definition replace (m : list Z) (pos value : Z) : res (list Z) :=
  v ← get4 m pos; put4 m pos (Z.lxor value v).

(** One turn of the loop of [add], which ends when there is room for the entry. [U_ERROR] ends the program. *)
Definition evict_step (entrylen : Z) (c : cache) : res (cache + cache) :=
  if u32 (writer c + entrylen) <=? oldest c then Ok (inr c)
  else if (oldest c =? unused c) && (writer c <=? hsize c) then Fail Aborted
  else
    let c := if oldest c =? unused c then set_ring (hsize c) (hsize c) (writer c) c else c in
    pos ← get4 (x c) (oldest c);
    m ← replace (x c) pos (oldest c);
    keylen ← get4 m (oldest c + 4);
    datalen ← get4 m (oldest c + 8);
    let o := u32 (oldest c + (sizeof_entry + keylen + datalen)) in
    Ok (inl (set_x m (if o =? unused c then set_ring (writer c) (size c) (size c) c
                      else set_ring (writer c) o (unused c) c))).

(** The entry of [key] is linked in, and the position of its text returned. *)
Definition add (now : Z) (key : list Z) (datalen _ttl : Z) (c : cache) : res (cache * Z) :=
  let keylen := Z.of_nat (length key) in
  let entrylen := u32 (sizeof_entry + keylen + datalen) in
  c ← iterate (S (S (length (x c)))) (evict_step entrylen) c;
  index ← hash c key;
  pos ← get4 (x c) index;
  m ← put4 (x c) index (writer c);
  m ← (if negb (pos =? 0) then replace m pos (Z.lxor index (writer c)) else Ok m);
  let expire := if negb (_ttl =? 0) then u32 (getTime now c + _ttl) else U_NO_TTL in
  m ← put4 m (writer c) (Z.lxor pos index);
  m ← put4 m (writer c + 4) keylen;
  m ← put4 m (writer c + 8) datalen;
  m ← put4 m (writer c + 12) expire;
  Ok (set_x m (set_ring (u32 (writer c + entrylen)) (oldest c) (unused c) c), writer c + sizeof_entry).

(** [add(_key, _data, _ttl)]. *)
Definition add_data (now : Z) (key data : list Z) (_ttl : Z) (c : cache) : res cache :=
  r ← add now key (Z.of_nat (length data)) _ttl c;
  m ← mwr (x r.1) r.2 key;
  m ← mwr m (r.2 + Z.of_nat (length key)) data;
  Ok (set_x m r.1).

(** The NUL behind the content is stored with it. *)
Definition addContent (now : Z) (key content : list Z) (_ttl : Z) (c : cache) : res cache :=
  add_data now key (content ++ [0]) _ttl c.

(** Whether the entry at [pos] has this key, and has not been found to be expired. *)
Definition entry_matches (m : list Z) (key : list Z) (pos time_expire : Z) : res bool :=
  if negb (time_expire =? 0) then
    keylen ← get4 m (pos + 4);
    if keylen =? Z.of_nat (length key) then
      p ← mrd m (pos + sizeof_entry) keylen; Ok (bool_decide (p = key))
    else Ok false
  else Ok false.

(** One turn of the loop of [get]; the state is [loop], [prevpos] and [pos], the result what was
    found and the memory, in which an entry may have been marked as expired. *)
Definition get_step (time : Z) (key m : list Z) (st : Z * Z * Z) :
    res (Z * Z * Z + list Z * option (list Z * Z)) :=
  let '(loop, prevpos, pos) := st in
  if pos =? 0 then Ok (inr (m, None)) else
  time_expire ← get4 m (pos + 12);
  b ← entry_matches m key pos time_expire;
  if b : bool then
    if negb (time_expire =? U_NO_TTL) && (time_expire <=? time) then
      m ← put4 m (pos + 12) 0; Ok (inr (m, None))
    else
      datalen ← get4 m (pos + 8);
      data ← mrd m (pos + sizeof_entry + Z.of_nat (length key)) datalen;
      Ok (inr (m, Some (data, time_expire)))
  else if 100 <? loop + 1 then Ok (inr (m, None))
  else link ← get4 m pos; Ok (inl (loop + 1, pos, Z.lxor prevpos link)).

Definition get (now : Z) (key : list Z) (c : cache) : res (cache * option (list Z)) :=
  index ← hash c key;
  pos ← get4 (x c) index;
  r ← iterate 102 (get_step (getTime now c) key (x c)) (0, index, pos);
  let '(m, found) := r in
  match found with
  | Some (data, time_expire) => Ok (set_ttl time_expire (set_x m c), Some data)
  | None => Ok (set_x m c, None)
  end.

(** [getContent] takes the NUL off; for a missing key the length goes below zero. *)
Definition getContent (now : Z) (key : list Z) (c : cache) : res (cache * list Z) :=
  r ← get now key c;
  match r.2 with
  | Some data => Ok (r.1, take (length data - 1) data)
  | None => Fail OutOfBounds
  end.

(** ** Directories *)

Definition basename (s : list Z) : list Z :=
  match list_find (λ c, c = CH "/") (reverse s) with
  | Some (i, _) => drop (length s - i) s
  | None => s
  end.

Fixpoint add_all (now : Z) (items : list (list Z * list Z)) (c : cache) : res cache :=
  match items with
  | [] => Ok c
  | (name, content) :: items => c ← addContent now (basename name) content 0 c; add_all now items c
  end.

(** [loadContentOf] for the files found; [truncated] is whether [ftruncate] succeeds. *)
Definition loadContentOf (now : Z) (files : list (list Z * list Z)) (truncated : bool) (c : cache) : res cache :=
  c ← add_all now (filter (λ f, f.2 ≠ []) files) c;
  if (writer c <? size c) && truncated then
    let w := writer c in
    Ok (Cache (take (Z.to_nat w) (x c)) w (hsize c) w w w (start c) (ttl c))
  else Ok c.

(** The size of the file for a directory, and that of its hash table. *)
Definition dir_size (files : list (list Z * list Z)) : res (Z * Z) :=
  let vec := filter (λ f, f.2 ≠ []) files in
  let size := foldl (λ n (f : list Z * list Z),
    u32 (n + (sizeof_entry + Z.of_nat (length (basename f.1)) + Z.of_nat (length f.2) + 1))) 0 vec in
  let size := u32 (size + sizeof_info) in
  h ← getHSize size;
  hsize ← getHSize (u32 (size + h));
  Ok (u32 (size + hsize), hsize).

(** [open(path, dir_template)] when the file is new: the contents that are not empty are added with the
    names of the files in their order. *)
Definition open_dir (files : list (list Z * list Z)) (now : Z) : res cache :=
  r ← dir_size files;
  c ← init (replicate (Z.to_nat r.1) 0) r.1 false now now;
  add_all now (zip (map fst files) (filter (λ d, d ≠ []) (map snd files))) c.

(** ** The stream operators *)

Definition print (m : list Z) (pos : Z) : res (list Z * Z) :=
  keylen ← get4 m (pos + 4);
  datalen ← get4 m (pos + 8);
  let pos := pos + sizeof_entry in
  key ← mrd m pos keylen;
  let pos := pos + keylen in
  data ← mrd m pos datalen;
  Ok (BS "+" ++ decimal 10 keylen ++ BS "," ++ decimal 10 datalen ++ BS ":" ++ key ++ BS "->" ++ data ++ [10],
      pos + datalen).

Definition print_loop_step (m : list Z) (stop : Z) (st : list Z * Z) : res (list Z * Z + list Z) :=
  if st.2 <? stop then r ← print m st.2; Ok (inl (st.1 ++ r.1, r.2)) else Ok (inr st.1).

Definition write_cache (c : cache) : res (list Z) :=
  let fuel := S (length (x c)) in
  os ← iterate fuel (print_loop_step (x c) (unused c)) ([], oldest c);
  os ← iterate fuel (print_loop_step (x c) (writer c)) (os, hsize c);
  Ok (os ++ [10]).

(** [is >> c] and [is >> n] skip blanks; a number without a sign that fits an [uint32_t]. *)
Fixpoint skip_blanks (inp : list Z) : list Z :=
  match inp with c :: inp' => if isspace c then skip_blanks inp' else inp | [] => [] end.

Fixpoint read_digits (inp : list Z) (n : Z) : Z * list Z :=
  match inp with
  | c :: inp' => if isdigit c then read_digits inp' (n * 10 + (c - CH "0")) else (n, inp)
  | [] => (n, [])
  end.

Definition read_number (inp : list Z) : res (Z * list Z) :=
  let inp := skip_blanks inp in
  match inp with
  | c :: _ =>
      if isdigit c then
        let '(n, inp) := read_digits inp 0 in if n <? 2 ^ 32 then Ok (n, inp) else Fail OutOfBounds
      else Fail OutOfBounds
  | [] => Fail OutOfBounds
  end.

Fixpoint skip_line (inp : list Z) : list Z :=
  match inp with c :: inp' => if c =? 10 then inp' else skip_line inp' | [] => [] end.

(** One turn of the loop of [operator>>]. A number that is not there leaves variables without a value, and so
    does a key that is cut off. The array for the key has 1000 characters. *)
Definition read_step (now : Z) (st : list Z * cache) : res (list Z * cache + list Z * cache) :=
  let '(inp, c) := st in
  match skip_blanks inp with
  | [] => Ok (inr ([], c))
  | ch :: inp =>
      if ch =? CH "#" then Ok (inl (skip_line inp, c))
      else if negb (ch =? CH "+") then Ok (inr (inp, c))
      else
        r ← read_number inp;
        let '(keylen, inp) := r in
        r ← read_number (drop 1 inp);
        let '(datalen, inp) := r in
        let inp := drop 1 inp in
        if (1000 <? keylen) || (Z.of_nat (length inp) <? keylen) then Fail OutOfBounds else
        let key := take (Z.to_nat keylen) inp in
        r ← add now key datalen 0 c;
        let '(c, ptr) := r in
        m ← mwr (x c) ptr key;
        let inp := drop 2 (drop (Z.to_nat keylen) inp) in
        m ← mwr m (ptr + keylen) (take (Z.to_nat datalen) inp);
        Ok (inl (drop 1 (drop (Z.to_nat datalen) inp), set_x m c))
  end.

Definition read_cache (now : Z) (inp : list Z) (c : cache) : res (list Z * cache) :=
  iterate (S (length inp)) (read_step now) (inp, c).

(** ** Specification: a queue of entries *)

Record entry := Entry { e_key : list Z; e_data : list Z; e_exp : Z }.

#[global] Instance entry_eq_dec : EqDecision entry.
Proof. solve_decision. Defined.

Definition elen (e : entry) : Z := sizeof_entry + Z.of_nat (length (e_key e)) + Z.of_nat (length (e_data e)).

Definition total (q : list entry) : Z := foldr (λ e n, elen e + n) 0 q.

Definition cdb_hash (key : list Z) : Z :=
  match u_cdb_hash key (length key) false with Ok v => v | Fail _ => 0 end.

Definition bucket (hs : Z) (key : list Z) : Z := cdb_hash key * 4 mod hs.

(** The entries from the oldest to the newest: the first [r_old] of them were written before the writer
    went back to the start, and end at [r_top]. *)
Record ring := Ring { r_q : list entry; r_old : nat; r_top : Z }.

Definition olds (r : ring) : list entry := take (r_old r) (r_q r).
Definition news (r : ring) : list entry := drop (r_old r) (r_q r).

(** The oldest entries are given up until [len] bytes are free between the new and the old ones. *)
Fixpoint make_room (fuel : nat) (sz hs len : Z) (r : ring) : option ring :=
  if hs + total (news r) + len <=? r_top r - total (olds r) then Some r
  else
    match fuel, r_q r with
    | S fuel', _ :: q =>
        let old := if (r_old r =? 0)%nat then length (r_q r) else r_old r in
        let top := if (r_old r =? 0)%nat then hs + total (r_q r) else r_top r in
        make_room fuel' sz hs len (Ring q (old - 1) (if (old =? 1)%nat then sz else top))
    | _, _ => None
    end.

Definition ring_add (sz hs : Z) (e : entry) (r : ring) : option ring :=
  r ← make_room (S (length (r_q r))) sz hs (elen e) r;
  Some (Ring (r_q r ++ [e]) (r_old r) (r_top r)).

(** The newest entry of the key among [n] entries of its bucket, with its place. *)
Fixpoint search (hs : Z) (n : nat) (key : list Z) (l : list entry) : option (nat * entry) :=
  match l with
  | [] => None
  | e :: l =>
      if bucket hs (e_key e) =? bucket hs key then
        match n with
        | O => None
        | S n =>
            if negb (e_exp e =? 0) && bool_decide (e_key e = key) then Some (O, e)
            else prod_map S id <$> search hs n key l
        end
      else prod_map S id <$> search hs n key l
  end.

Definition expired (e : entry) : entry := Entry (e_key e) (e_data e) 0.

Definition ring_get (hs time : Z) (key : list Z) (r : ring) : ring * option (list Z) :=
  match search hs 101 key (reverse (r_q r)) with
  | None => (r, None)
  | Some (i, e) =>
      if negb (e_exp e =? U_NO_TTL) && (e_exp e <=? time) then
        (Ring (reverse (<[i := expired e]> (reverse (r_q r)))) (r_old r) (r_top r), None)
      else (r, Some (e_data e))
  end.

(** ** The entries in memory *)

Definition body (e : entry) : list Z :=
  le32 (Z.of_nat (length (e_key e))) ++ le32 (Z.of_nat (length (e_data e))) ++ le32 (e_exp e) ++
  e_key e ++ e_data e.

(** A list of links: each one is the exclusive or of the positions before and after it. *)
Fixpoint links (m : list Z) (prev : Z) (l : list Z) : Prop :=
  match l with
  | [] => True
  | p :: l => get4 m p = Ok (Z.lxor prev (hd 0 l)) ∧ links m p l
  end.

Definition head_slot (hs i : Z) : Prop := 0 <= i < hs ∧ (4 | i).

Definition chain (hs i : Z) (bl : list (Z * entry)) : list Z :=
  map fst (filter (λ b, bucket hs (e_key b.2) = i) (reverse bl)).

Definition apart (b c : Z * entry) : Prop := b.1 + elen b.2 <= c.1 ∨ c.1 + elen c.2 <= b.1.

(** The blocks [bl], from the oldest to the newest, are in the memory [m] between [hs] and [sz]. *)
Record wf (hs sz : Z) (bl : list (Z * entry)) (m : list Z) : Prop := {
  wf_range : Forall (λ b, hs <= b.1 ∧ b.1 + elen b.2 <= sz ∧ 0 <= e_exp b.2 < 2 ^ 32) bl;
  wf_apart : ForallOrdPairs apart bl;
  wf_body : Forall (λ b, mrd m (b.1 + 4) (elen b.2 - 4) = Ok (body b.2)) bl;
  wf_chain : ∀ i, head_slot hs i → links m 0 (i :: chain hs i bl) }.

Fixpoint place (p : Z) (q : list entry) : list (Z * entry) :=
  match q with [] => [] | e :: q => (p, e) :: place (p + elen e) q end.

Definition blocks (c : cache) (r : ring) : list (Z * entry) :=
  place (oldest c) (olds r) ++ place (hsize c) (news r).

(** The size of the memory and of the hash table. *)
Definition sizes_ok (hs sz : Z) : Prop := 0 < hs ∧ (4 | hs) ∧ hs <= sz < 2 ^ 31.

Record represents (c : cache) (r : ring) : Prop := {
  rep_sizes : sizes_ok (hsize c) (size c);
  rep_length : Z.of_nat (length (x c)) = size c;
  rep_old : (r_old r ≤ length (r_q r))%nat;
  rep_writer : writer c = hsize c + total (news r);
  rep_oldest : oldest c = unused c - total (olds r);
  rep_unused : unused c = r_top r ∧ unused c <= size c;
  rep_order : writer c <= oldest c;
  rep_top : r_old r = O → r_top r = size c;
  rep_wf : wf (hsize c) (size c) (blocks c r) (x c) }.
