(* ===== verification/CacheFacts.v ===== *)
(** * What the cache of [Cache] promises

    The links of the buckets, the room that is made for an entry, the operations on a cache that represents a
    queue, sequences of operations, the text of the stream operators and the caches made of directories. *)

From S2P Require Import Prelude Memory Hash Strftime Strptime Cache.

(** ** Lemmas *)

Lemma cdb_hash_ok key : u_cdb_hash key (length key) false = Ok (cdb_hash key).
Proof.
  unfold cdb_hash. assert (H : ∀ h, ∃ v, cdb_loop false h key (length key) = Ok v).
  { induction key as [|c key IH]; intros h; simpl; [eauto|]. apply IH. }
  unfold u_cdb_hash. destruct (H 5381) as [v ->]. done.
Qed.

Lemma hash_ok c key : hash c key = Ok (bucket (hsize c) key).
Proof. unfold hash. rewrite cdb_hash_ok. done. Qed.

Lemma bucket_slot hs sz key : sizes_ok hs sz → head_slot hs (bucket hs key).
Proof.
  intros (H0 & [k ->] & H). unfold head_slot, bucket. split; [apply Z.mod_pos_bound; lia|].
  rewrite Z.mul_mod_distr_r by lia. by exists (cdb_hash key mod k).
Qed.

Lemma elen_ge e : 16 <= elen e.
Proof. unfold elen, sizeof_entry. lia. Qed.

Lemma total_nonneg q : 0 <= total q.
Proof. induction q as [|e q IH]; simpl; [lia|]. pose proof (elen_ge e). lia. Qed.

Lemma total_app q r : total (q ++ r) = total q + total r.
Proof. induction q as [|e q IH]; simpl; lia. Qed.

Lemma length_body e : Z.of_nat (length (body e)) = elen e - 4.
Proof. unfold body, elen, sizeof_entry. rewrite !length_app. simpl. lia. Qed.

Lemma place_app p q r : place p (q ++ r) = place p q ++ place (p + total q) r.
Proof.
  revert p. induction q as [|e q IH]; intros p; simpl; [by rewrite Z.add_0_r|]. rewrite IH. do 3 f_equal. lia.
Qed.

Lemma place_snd p q : map snd (place p q) = q.
Proof. revert p. induction q as [|e q IH]; intros p; simpl; [done|]. by rewrite IH. Qed.

Lemma place_range p q b : b ∈ place p q → p <= b.1 ∧ b.1 + elen b.2 <= p + total q.
Proof.
  revert p. induction q as [|e q IH]; intros p; simpl; [by intros ?%not_elem_of_nil|].
  pose proof (elen_ge e). pose proof (total_nonneg q).
  intros [->|Hb]%elem_of_cons; simpl; [lia|]. apply IH in Hb. lia.
Qed.

(** A slot is the place of a link: a head of the hash table or the start of a block. *)
Definition is_slot (hs : Z) (bl : list (Z * entry)) (s : Z) : Prop :=
  head_slot hs s ∨ ∃ b, b ∈ bl ∧ b.1 = s.

Section Blocks.
Context {hs sz : Z} {bl : list (Z * entry)} {m : list Z}.
Hypothesis Hwf : wf hs sz bl m.
Hypothesis Hsz : sizes_ok hs sz.

Lemma block_range b : b ∈ bl → hs <= b.1 ∧ b.1 + elen b.2 <= sz ∧ 0 <= e_exp b.2 < 2 ^ 32.
Proof. intros Hb. by apply (proj1 (Forall_forall _ _) (wf_range _ _ _ _ Hwf)). Qed.

Lemma block_body b : b ∈ bl → mrd m (b.1 + 4) (elen b.2 - 4) = Ok (body b.2).
Proof. intros Hb. by apply (proj1 (Forall_forall _ _) (wf_body _ _ _ _ Hwf)). Qed.

Lemma blocks_apart b c : b ∈ bl → c ∈ bl → b = c ∨ apart b c.
Proof.
  intros Hb Hc. destruct (ForallOrdPairs_In (wf_apart _ _ _ _ Hwf) b c) as [|[|]]; [by apply list_elem_of_In..| | |].
  - by left.
  - by right.
  - right. unfold apart in *. lia.
Qed.

Lemma slot_range s : is_slot hs bl s → 0 <= s < 2 ^ 31 ∧ s + 4 <= sz.
Proof.
  destruct Hsz as (H0 & [k Ek] & H). intros [[Hs [j Ej]]|(b & Hb & <-)]; [lia|].
  pose proof (block_range b Hb). pose proof (elen_ge b.2). lia.
Qed.

Lemma slots_apart s t : is_slot hs bl s → is_slot hs bl t → s = t ∨ s + 4 <= t ∨ t + 4 <= s.
Proof.
  destruct Hsz as (H0 & [k Ek] & H).
  intros [[Hs [j Ej]]|(b & Hb & Eb)] [[Ht [j' Ej']]|(c & Hc & Ec)].
  - lia.
  - pose proof (block_range c Hc). lia.
  - pose proof (block_range b Hb). lia.
  - destruct (blocks_apart b c Hb Hc) as [->|Ha]; [left; lia|].
    pose proof (elen_ge b.2). pose proof (elen_ge c.2). unfold apart in Ha. lia.
Qed.

Lemma slot_body s b : is_slot hs bl s → b ∈ bl → s + 4 <= b.1 + 4 ∨ b.1 + elen b.2 <= s.
Proof.
  intros [[Hs Hd]|(c & Hc & <-)] Hb; [pose proof (block_range b Hb); lia|].
  destruct (blocks_apart b c Hb Hc) as [->|Ha]; [by left|]. unfold apart in Ha. pose proof (elen_ge c.2). lia.
Qed.

Lemma chain_elem i p : p ∈ chain hs i bl → ∃ b, b ∈ bl ∧ b.1 = p ∧ bucket hs (e_key b.2) = i.
Proof.
  unfold chain. rewrite list_elem_of_fmap. intros (b & -> & Hb).
  apply list_elem_of_filter in Hb as [Hi Hb]. exists b. by rewrite elem_of_reverse in Hb.
Qed.

Lemma chain_slot i p : head_slot hs i → p ∈ i :: chain hs i bl → is_slot hs bl p.
Proof.
  intros Hi [->|Hp]%elem_of_cons; [by left|]. apply chain_elem in Hp as (b & Hb & E & _). right. by exists b.
Qed.

(** The chains of two buckets have no slot in common. *)
Lemma chains_disjoint i j p :
  head_slot hs i → head_slot hs j → p ∈ i :: chain hs i bl → p ∈ j :: chain hs j bl → i = j.
Proof.
  intros Hi Hj. rewrite !elem_of_cons. intros [->|Hp] [->|Hq]; try done.
  - apply chain_elem in Hq as (b & Hb & E & _). pose proof (block_range b Hb). unfold head_slot in Hi. lia.
  - apply chain_elem in Hp as (b & Hb & E & _). pose proof (block_range b Hb). unfold head_slot in Hj. lia.
  - apply chain_elem in Hp as (b & Hb & Eb & Hbi). apply chain_elem in Hq as (c & Hc & Ec & Hci).
    destruct (blocks_apart b c Hb Hc) as [->|Ha]; [congruence|].
    pose proof (elen_ge b.2). pose proof (elen_ge c.2). unfold apart in Ha. lia.
Qed.
End Blocks.

Lemma blocks_nodup hs sz bl m : wf hs sz bl m → NoDup bl.
Proof.
  intros Hwf. assert (Ha := wf_apart _ _ _ _ Hwf). clear Hwf. induction Ha as [|b bl Hb Ha IH]; [constructor|].
  constructor; [|done]. intros Hin. apply (proj1 (Forall_forall _ _) Hb) in Hin.
  pose proof (elen_ge b.2). unfold apart in Hin. lia.
Qed.

Lemma chain_nodup hs sz bl m i : wf hs sz bl m → head_slot hs i → NoDup (i :: chain hs i bl).
Proof.
  intros Hwf Hi. constructor.
  - intros Hp. apply (chain_elem (bl := bl)) in Hp as (b & Hb & E & _). pose proof (block_range Hwf b Hb).
    unfold head_slot in Hi. lia.
  - unfold chain. apply NoDup_fmap_2_strong.
    + intros b c Hb Hc E. rewrite list_elem_of_filter, elem_of_reverse in Hb, Hc. destruct Hb as [_ Hb], Hc as [_ Hc].
      destruct (blocks_apart Hwf b c Hb Hc) as [|Ha]; [done|]. pose proof (elen_ge b.2). pose proof (elen_ge c.2).
      unfold apart in Ha. lia.
    + apply NoDup_filter. rewrite reverse_Permutation. by eapply blocks_nodup.
Qed.

Lemma links_frame m m' l q : links m q l → (∀ a, a ∈ l → get4 m' a = get4 m a) → links m' q l.
Proof.
  revert q. induction l as [|p l IH]; intros q; [done|]. intros [Hp Hl] Hf. split.
  - rewrite Hf; [done|]. by left.
  - apply IH; [done|]. intros a Ha. apply Hf. by right.
Qed.

(** The last element is taken off a list of links when its position is added to the link before it. *)
Lemma links_pop m m' t a c q :
  links m q (c ++ [t]) → last c = Some a → NoDup c →
  (∀ b, b ∈ c → b ≠ a → get4 m' b = get4 m b) → (∀ v, get4 m a = Ok v → get4 m' a = Ok (Z.lxor t v)) →
  links m' q c.
Proof.
  revert q. induction c as [|b c IH]; intros q; [done|]. intros [Hb Hc] Hlast Hnd Hf Ha. destruct c as [|b' c].
  - simpl in *. simplify_eq. split; [|done]. rewrite (Ha _ Hb). f_equal.
    rewrite (Z.lxor_comm q), <-Z.lxor_assoc, Z.lxor_nilpotent, Z.lxor_0_l, Z.lxor_0_r. done.
  - apply NoDup_cons in Hnd as [Hnb Hnd]. change (last (b' :: c) = Some a) in Hlast.
    assert (Hac : a ∈ b' :: c) by (by apply last_Some_elem_of). split.
    + rewrite Hf; [done|by left|]. by intros ->.
    + apply IH; try done. intros y Hy Hne. apply Hf; [by right|done].
Qed.

Lemma links_last m q c t : links m q (c ++ [t]) → c ≠ [] → ∃ a, last c = Some a ∧ get4 m t = Ok a.
Proof.
  revert q. induction c as [|b c IH]; intros q; [done|]. intros [Hb Hc] _. destruct c as [|b' c].
  - exists b. split; [done|]. simpl in Hc. destruct Hc as [Hc _]. by rewrite Z.lxor_0_r in Hc.
  - change (last (b :: b' :: c)) with (last (b' :: c)). by eapply IH.
Qed.

Lemma chain_cons hs i b bl :
  chain hs i (b :: bl) = if decide (bucket hs (e_key b.2) = i) then chain hs i bl ++ [b.1] else chain hs i bl.
Proof.
  unfold chain. rewrite reverse_cons, filter_app. case_decide as E.
  - rewrite filter_cons_True by done. by rewrite map_app.
  - rewrite filter_cons_False by done. by rewrite app_nil_r.
Qed.

Lemma chain_snoc hs i b bl :
  chain hs i (bl ++ [b]) = if decide (bucket hs (e_key b.2) = i) then b.1 :: chain hs i bl else chain hs i bl.
Proof.
  unfold chain. rewrite reverse_snoc. case_decide as E.
  - by rewrite filter_cons_True.
  - by rewrite filter_cons_False.
Qed.

(** A link stored in a slot leaves the bodies and the other links alone. *)
Lemma store_slot hs sz bl m s v m' : wf hs sz bl m → sizes_ok hs sz → is_slot hs bl s → put4 m s v = Ok m' →
  (∀ b, b ∈ bl → mrd m' (b.1 + 4) (elen b.2 - 4) = Ok (body b.2)) ∧
  (∀ t, is_slot hs bl t → t ≠ s → get4 m' t = get4 m t).
Proof.
  intros Hwf Hsz Hs E. split.
  - intros b Hb. rewrite (mrd_put4_ne _ _ _ _ _ _ E); [by apply (block_body Hwf)|].
    pose proof (slot_body Hwf s b Hs Hb). lia.
  - intros t Ht Hne. apply (get4_put4_ne _ _ _ _ _ E). pose proof (slots_apart Hwf Hsz s t Hs Ht). lia.
Qed.

Lemma replace_ok m pos value v :
  get4 m pos = Ok v → 0 <= v < 2 ^ 32 → 0 <= value < 2 ^ 32 → 0 <= pos → pos + 4 <= Z.of_nat (length m) →
  ∃ m', replace m pos value = Ok m' ∧ put4 m pos (Z.lxor value v) = Ok m' ∧ get4 m' pos = Ok (Z.lxor value v) ∧
    length m' = length m.
Proof.
  intros E Hv Hval Hp Hl. destruct (put4_ok m pos (Z.lxor value v)) as (m' & E' & Hl'); [lia..|].
  exists m'. splits; [unfold replace; by rewrite E|done| |done].
  eapply get4_put4; [exact E'|]. by apply lxor_range.
Qed.

Lemma chain_hd_range hs sz bl m i : wf hs sz bl m → sizes_ok hs sz → head_slot hs i →
  0 <= hd 0 (chain hs i bl) < 2 ^ 31.
Proof.
  intros Hwf Hsz Hi. destruct (chain hs i bl) as [|p l] eqn:E; simpl; [lia|].
  apply (slot_range Hwf Hsz). apply (chain_slot i); [done|]. rewrite E. right. by left.
Qed.

(** The links of a well-formed memory are 32 bit numbers. *)
Lemma links_range m q l p v : links m q l → p ∈ l → get4 m p = Ok v →
  0 <= q < 2 ^ 32 → Forall (λ p, 0 <= p < 2 ^ 32) l → 0 <= v < 2 ^ 32.
Proof.
  revert q. induction l as [|a l IH]; intros q; [by intros _ ?%not_elem_of_nil|].
  intros [Ha Hl] Hp E Hq Hf. apply Forall_cons in Hf as [Har Hf]. apply elem_of_cons in Hp as [->|Hp].
  - rewrite Ha in E. injection E as <-. apply lxor_range; [done|]. destruct l; simpl; [lia|]. by apply Forall_cons in Hf as [? _].
  - by apply (IH a).
Qed.

Lemma slots_range32 hs sz bl m i : wf hs sz bl m → sizes_ok hs sz → head_slot hs i →
  Forall (λ p, 0 <= p < 2 ^ 32) (i :: chain hs i bl).
Proof.
  intros Hwf Hsz Hi. apply Forall_forall. intros p Hp. apply (chain_slot _ _ Hi) in Hp.
  apply (slot_range Hwf Hsz) in Hp. lia.
Qed.

Lemma wf_tail_range hs sz b bl m : wf hs sz (b :: bl) m →
  Forall (λ b, hs <= b.1 ∧ b.1 + elen b.2 <= sz ∧ 0 <= e_exp b.2 < 2 ^ 32) bl ∧ ForallOrdPairs apart bl.
Proof.
  intros [Hr Ha _ _]. apply Forall_cons in Hr as [_ Hr]. split; [done|]. by inversion Ha.
Qed.

(** The oldest block is unlinked. *)
Lemma wf_pop hs sz b bl m : wf hs sz (b :: bl) m → sizes_ok hs sz → Z.of_nat (length m) = sz →
  ∃ pos m', get4 m b.1 = Ok pos ∧ replace m pos b.1 = Ok m' ∧ wf hs sz bl m' ∧ length m' = length m ∧
    mrd m' (b.1 + 4) (elen b.2 - 4) = Ok (body b.2).
Proof.
  intros Hwf Hsz Hl. set (i := bucket hs (e_key b.2)). assert (Hi : head_slot hs i) by (by eapply bucket_slot).
  assert (Hc : links m 0 ((i :: chain hs i bl) ++ [b.1])).
  { pose proof (wf_chain _ _ _ _ Hwf i Hi) as Hc. rewrite chain_cons, decide_True in Hc by done. done. }
  destruct (links_last _ _ _ _ Hc) as (a & Ha & Eb); [done|].
  assert (Hin : a ∈ i :: chain hs i bl) by (by apply last_Some_elem_of).
  assert (Hsub : ∀ j p, head_slot hs j → p ∈ j :: chain hs j bl → is_slot hs (b :: bl) p).
  { intros j p Hj Hp. apply (chain_slot (bl := bl) j p Hj) in Hp as [?|(c & Hc' & E)]; [by left|].
    right. exists c. split; [by right|done]. }
  assert (Hslot := Hsub i a Hi Hin). destruct (slot_range Hwf Hsz a Hslot) as [Ha1 Ha2].
  assert (Hbr := block_range Hwf b (list_elem_of_here _ _)). pose proof (elen_ge b.2).
  assert (Hv : ∃ v, get4 m a = Ok v).
  { unfold get4. rewrite mrd_ok by lia. eauto. }
  destruct Hv as [v Ev]. exists a.
  assert (Hvr : 0 <= v < 2 ^ 32).
  { eapply (links_range m 0 ((i :: chain hs i bl) ++ [b.1])); [done| |exact Ev|lia|].
    - apply elem_of_app. by left.
    - pose proof (slots_range32 _ _ _ _ i Hwf Hsz Hi) as Hr. rewrite chain_cons, decide_True in Hr by done. done. }
  destruct Hsz as (Hh0 & Hh4 & Hsz3). assert (Hsz : sizes_ok hs sz) by done.
  destruct (replace_ok m a b.1 v Ev Hvr) as (m' & Er & Ep & Eg & Hl'); [lia..|].
  destruct (store_slot _ _ _ _ _ _ _ Hwf Hsz Hslot Ep) as [Hbody Hlink].
  exists m'. split; [done|]. split; [done|]. split; [|split; [done|apply Hbody; by left]].
  destruct (wf_tail_range _ _ _ _ _ Hwf) as [Hr Hap]. split; [done|done| |].
  - apply Forall_forall. intros c Hc'. apply Hbody. by right.
  - intros j Hj. destruct (decide (i = j)) as [<-|Hne].
    + eapply links_pop; [exact Hc|exact Ha| | |].
      * pose proof (chain_nodup _ _ _ _ i Hwf Hi) as Hnd. rewrite chain_cons, decide_True in Hnd by done.
        change (NoDup ((i :: chain hs i bl) ++ [b.1])) in Hnd. by apply NoDup_app in Hnd as [? _].
      * intros p Hp Hpa. apply Hlink; [by apply (Hsub i)|done].
      * intros w Ew. rewrite Eg. congruence.
    + pose proof (wf_chain _ _ _ _ Hwf j Hj) as Hcj. rewrite chain_cons, decide_False in Hcj by done.
      eapply links_frame; [exact Hcj|]. intros p Hp. apply Hlink; [by apply (Hsub j)|]. intros ->.
      apply Hne, (chains_disjoint Hwf i j a Hi Hj).
      * rewrite chain_cons, decide_True by done. rewrite elem_of_cons, elem_of_app in *. tauto.
      * by rewrite chain_cons, decide_False.
Qed.

(** A new link after the head of a list. *)
Lemma links_push m m' i w l :
  links m 0 (i :: l) → get4 m' i = Ok w → get4 m' w = Ok (Z.lxor i (hd 0 l)) →
  (∀ p v, head l = Some p → get4 m p = Ok v → get4 m' p = Ok (Z.lxor (Z.lxor i w) v)) →
  (∀ p, p ∈ tail l → get4 m' p = get4 m p) → links m' 0 (i :: w :: l).
Proof.
  intros [_ Hl] Hi Hw Hp Hf. split; [by rewrite Hi, Z.lxor_0_l|]. split; [done|].
  destruct l as [|p l]; [done|]. destruct Hl as [Ep Hl]. split; [|by eapply links_frame].
  rewrite (Hp p _ eq_refl Ep). f_equal.
  rewrite (Z.lxor_comm i w), Z.lxor_assoc, <-(Z.lxor_assoc i i), Z.lxor_nilpotent, Z.lxor_0_l. done.
Qed.

Lemma ForallOrdPairs_snoc {A} (R : A → A → Prop) l b :
  ForallOrdPairs R l → Forall (λ a, R a b) l → ForallOrdPairs R (l ++ [b]).
Proof.
  induction 1 as [|a l Ha Hl IH]; intros Hb; [by repeat constructor|].
  apply Forall_cons in Hb as [Hab Hb]. constructor; [|by apply IH]. apply Forall_app. by repeat constructor.
Qed.

(** The head of a bucket and the first link of its chain are redirected to the block at [w]. *)
Lemma redirect_ok hs sz bl m i w :
  wf hs sz bl m → sizes_ok hs sz → Z.of_nat (length m) = sz → head_slot hs i → hs <= w < 2 ^ 31 →
  let pos := hd 0 (chain hs i bl) in
  get4 m i = Ok pos ∧
  ∃ m1 m2, put4 m i w = Ok m1 ∧
    (if negb (pos =? 0) then replace m1 pos (Z.lxor i w) else Ok m1) = Ok m2 ∧ length m2 = length m ∧
    get4 m2 i = Ok w ∧ (∀ p v, head (chain hs i bl) = Some p → get4 m p = Ok v → get4 m2 p = Ok (Z.lxor (Z.lxor i w) v)) ∧
    (∀ p, is_slot hs bl p → p ≠ i → head (chain hs i bl) ≠ Some p → get4 m2 p = get4 m p) ∧
    (∀ b, b ∈ bl → mrd m2 (b.1 + 4) (elen b.2 - 4) = Ok (body b.2)).
Proof.
  intros Hwf Hsz Hl Hi Hw pos. pose proof (wf_chain _ _ _ _ Hwf i Hi) as Hc. assert (Hhs : 0 < hs) by apply Hsz.
  assert (Hsi : is_slot hs bl i) by by left. destruct (slot_range Hwf Hsz i Hsi) as [Hi1 Hi2].
  assert (H := Hc). destruct H as [Ei Hc']. rewrite Z.lxor_0_l in Ei. split; [done|].
  destruct (put4_ok m i w) as (m1 & E1 & Hl1); [lia..|].
  destruct (store_slot _ _ _ _ _ _ _ Hwf Hsz Hsi E1) as [Hb1 Hs1].
  assert (G1 : get4 m1 i = Ok w) by (eapply get4_put4; [exact E1|lia]).
  exists m1. pose proof (chain_hd_range _ _ _ _ i Hwf Hsz Hi) as Hpos. fold pos in Hpos.
  destruct (chain hs i bl) as [|p l] eqn:El; cbn [hd] in pos.
  { exists m1. splits; try done. intros p Hp Hpi _. by apply Hs1. }
  assert (Hsp : is_slot hs bl p).
  { apply (chain_slot i); [done|]. rewrite El. right. by left. }
  destruct (slot_range Hwf Hsz p Hsp) as [Hp1 Hp2].
  assert (Hip : p ≠ i).
  { pose proof (chain_nodup _ _ _ _ i Hwf Hi) as Hnd. rewrite El in Hnd. apply NoDup_cons in Hnd as [Hnd _].
    intros ->. apply Hnd. by left. }
  assert (Hp0 : p ≠ 0).
  { destruct (chain_elem (hs := hs) (bl := bl) i p) as (b & Hb & <- & _); [rewrite El; by left|].
    pose proof (block_range Hwf b Hb). destruct Hsz. lia. }
  destruct Hc' as [Ep _]. set (v := Z.lxor i (hd 0 l)) in *.
  assert (Hv : 0 <= v < 2 ^ 32).
  { eapply (links_range m 0 (i :: p :: l)); [exact Hc| |exact Ep|lia|].
    - right. by left.
    - pose proof (slots_range32 _ _ _ _ i Hwf Hsz Hi) as Hr. by rewrite El in Hr. }
  destruct (replace_ok m1 p (Z.lxor i w) v) as (m2 & Er & E2 & G2 & Hl2); [|done|apply lxor_range; lia|lia|lia|].
  { by rewrite Hs1. }
  exists m2. unfold pos. destruct (Z.eqb_spec p 0) as [|_]; [done|]. splits; try done; [lia|..].
  - rewrite (get4_put4_ne _ _ _ _ _ E2); [done|]. pose proof (slots_apart Hwf Hsz p i Hsp Hsi). lia.
  - intros p' v' [= <-] E'. rewrite G2. congruence.
  - intros q Hq Hqi Hqp. rewrite (get4_put4_ne _ _ _ _ _ E2); [by apply Hs1|].
    assert (q ≠ p) by (intros ->; by apply Hqp). pose proof (slots_apart Hwf Hsz p q Hsp Hq). lia.
  - intros b Hb. rewrite (mrd_put4_ne _ _ _ _ _ _ E2); [by apply Hb1|]. pose proof (slot_body Hwf p b Hsp Hb). lia.
Qed.

(** The block is stored at [w], after its links are there. *)
Lemma wf_push hs sz bl m m2 m3 w e :
  let i := bucket hs (e_key e) in let pos := hd 0 (chain hs i bl) in
  wf hs sz bl m → sizes_ok hs sz → hs <= w → w + elen e <= sz → 0 <= e_exp e < 2 ^ 32 →
  Forall (λ b, apart b (w, e)) bl → get4 m2 i = Ok w →
  (∀ p v, head (chain hs i bl) = Some p → get4 m p = Ok v → get4 m2 p = Ok (Z.lxor (Z.lxor i w) v)) →
  (∀ p, is_slot hs bl p → p ≠ i → head (chain hs i bl) ≠ Some p → get4 m2 p = get4 m p) →
  (∀ b, b ∈ bl → mrd m2 (b.1 + 4) (elen b.2 - 4) = Ok (body b.2)) →
  mwr m2 w (le32 (Z.lxor pos i) ++ body e) = Ok m3 → wf hs sz (bl ++ [(w, e)]) m3.
Proof.
  intros i pos Hwf Hsz Hw Hwe Hexp Hap Gi Gp Gs Hb2 E3. assert (Hi : head_slot hs i) by (by eapply bucket_slot).
  assert (Hlen : Z.of_nat (length (le32 (Z.lxor pos i) ++ body e)) = elen e).
  { rewrite length_app, Nat2Z.inj_add, length_body. simpl. lia. }
  assert (Hwr := mrd_mwr_same _ _ _ _ E3). rewrite Hlen in Hwr. pose proof (elen_ge e) as Hge.
  assert (Hslot : ∀ p, is_slot hs bl p → get4 m3 p = get4 m2 p).
  { intros p Hp. apply (get4_mwr_ne _ _ _ _ _ E3). rewrite Hlen. destruct Hp as [[Hp [k Ek]]|(b & Hb & <-)].
    - destruct Hsz as (? & [j Ej] & ?). lia.
    - apply (proj1 (Forall_forall _ _) Hap) in Hb. unfold apart in Hb. cbn [fst snd] in Hb.
      pose proof (elen_ge b.2). lia. }
  pose proof (chain_hd_range _ _ _ _ i Hwf Hsz Hi) as Hpos. pose proof (slot_range Hwf Hsz i (or_introl Hi)) as Hir.
  split.
  - apply Forall_app. split; [apply (wf_range _ _ _ _ Hwf)|]. by apply Forall_singleton.
  - apply ForallOrdPairs_snoc; [apply (wf_apart _ _ _ _ Hwf)|done].
  - apply Forall_app. split.
    + apply Forall_forall. intros b Hb. rewrite (mrd_mwr_ne _ _ _ _ _ _ E3); [by apply Hb2|].
      rewrite Hlen. apply (proj1 (Forall_forall _ _) Hap) in Hb. unfold apart in Hb. cbn [fst snd] in Hb. lia.
    + apply Forall_singleton. cbn [fst snd]. rewrite (mrd_sub _ _ _ _ 4 (elen e - 4) Hwr) by lia. f_equal.
      change (Z.to_nat 4) with 4%nat. cbn [app le32 drop]. rewrite drop_0, take_ge; [done|].
      pose proof (length_body e). lia.
  - intros j Hj. rewrite chain_snoc. cbn [fst snd]. fold i. destruct (decide (i = j)) as [<-|Hne].
    + apply (links_push m); [by apply (wf_chain _ _ _ _ Hwf)|rewrite Hslot by (by left); done| | |].
      * replace w with (w + 0) at 1 by lia. eapply get4_sub; [exact Hwr|lia|lia| |].
        -- change (Z.to_nat 0) with 0%nat. rewrite drop_0, Z.lxor_comm. done.
        -- rewrite Z.lxor_comm. apply lxor_range; [|lia]. fold pos in Hpos. lia.
      * intros p v Hp E. rewrite Hslot; [by apply Gp|]. apply (chain_slot i); [done|].
        right. destruct (chain hs i bl); [done|]. simplify_eq/=. by left.
      * intros p Hp. pose proof (chain_nodup _ _ _ _ i Hwf Hi) as Hnd.
        destruct (chain hs i bl) as [|a l] eqn:El; [by apply not_elem_of_nil in Hp|]. cbn [head tail] in *.
        assert (Hps : is_slot hs bl p).
        { apply (chain_slot i); [done|]. rewrite El. right. by right. }
        apply NoDup_cons in Hnd as [Hn [Hna _]%NoDup_cons]. rewrite Hslot by done. apply Gs; [done|..].
        -- intros ->. apply Hn. by right.
        -- intros [= ->]. done.
    + eapply links_frame; [by apply (wf_chain _ _ _ _ Hwf)|]. intros p Hp.
      assert (Hps : is_slot hs bl p) by (by apply (chain_slot j)). rewrite Hslot by done.
      apply Gs; [done|..].
      * intros ->. apply Hne, (chains_disjoint Hwf i j i Hi Hj); [by left|done].
      * intros Hhd. apply Hne, (chains_disjoint Hwf i j p Hi Hj); [|done]. right.
        destruct (chain hs i bl); [done|]. simplify_eq/=. by left.
Qed.

(** ** Marking an entry as expired *)

Lemma elen_expired e : elen (expired e) = elen e.
Proof. done. Qed.

Lemma body_split e :
  body e = (le32 (Z.of_nat (length (e_key e))) ++ le32 (Z.of_nat (length (e_data e)))) ++ le32 (e_exp e) ++
           e_key e ++ e_data e.
Proof. unfold body. by rewrite <-app_assoc. Qed.

Lemma mark_body m p e m' :
  mrd m (p + 4) (elen e - 4) = Ok (body e) → put4 m (p + 12) 0 = Ok m' →
  mrd m' (p + 4) (elen e - 4) = Ok (body (expired e)).
Proof.
  intros Hb E. pose proof (elen_ge e). rewrite body_split. cbn [e_key e_data e_exp expired].
  replace (elen e - 4) with (8 + (4 + (elen e - 16))) by lia.
  apply mrd_app; [|apply mrd_app].
  - rewrite (mrd_put4_ne _ _ _ _ _ _ E) by lia. rewrite <-(Z.add_0_r (p + 4)).
    rewrite (mrd_sub _ _ _ _ 0 8 Hb) by lia. done.
  - replace (p + 4 + 8) with (p + 12) by lia. apply (mrd_mwr_same _ _ _ _ E).
  - rewrite (mrd_put4_ne _ _ _ _ _ _ E) by lia. replace (p + 4 + 8 + 4) with (p + 4 + 12) by lia.
    rewrite (mrd_sub _ _ _ _ 12 (elen e - 16) Hb) by lia. f_equal. rewrite body_split.
    change (Z.to_nat 12) with 12%nat. cbn [app le32 drop]. rewrite drop_0. apply take_ge.
    unfold elen, sizeof_entry. rewrite length_app. lia.
Qed.

Lemma ForallOrdPairs_mid {A} (R : A → A → Prop) l1 b b' l2 :
  (∀ c, R c b → R c b') → (∀ c, R b c → R b' c) → ForallOrdPairs R (l1 ++ b :: l2) → ForallOrdPairs R (l1 ++ b' :: l2).
Proof.
  intros H1 H2. induction l1 as [|a l1 IH]; simpl; intros H; inversion H as [|? ? Ha Hl]; subst.
  - constructor; [|done]. eapply Forall_impl; [exact Ha|]. done.
  - constructor; [|by apply IH]. apply Forall_app in Ha as [Ha Hb]. apply Forall_cons in Hb as [Hb Hc].
    apply Forall_app. split; [done|]. constructor; auto.
Qed.

Lemma chain_expired hs i l1 p e l2 : chain hs i (l1 ++ (p, expired e) :: l2) = chain hs i (l1 ++ (p, e) :: l2).
Proof.
  unfold chain. rewrite !reverse_app, !reverse_cons, !filter_app, !map_app. do 2 f_equal.
  rewrite !filter_cons. cbn [fst snd e_key expired]. by case_decide.
Qed.

Lemma wf_mark hs sz l1 p e l2 m m' :
  wf hs sz (l1 ++ (p, e) :: l2) m → sizes_ok hs sz → put4 m (p + 12) 0 = Ok m' →
  wf hs sz (l1 ++ (p, expired e) :: l2) m'.
Proof.
  intros Hwf Hsz E. set (bl := l1 ++ (p, e) :: l2). fold bl in Hwf.
  assert (Hpe : (p, e) ∈ bl) by (unfold bl; rewrite elem_of_app, elem_of_cons; tauto).
  pose proof (block_range Hwf _ Hpe) as (Hp1 & Hp2 & Hp3). cbn [fst snd] in *. pose proof (elen_ge e).
  assert (Hlink : ∀ s, is_slot hs bl s → get4 m' s = get4 m s).
  { intros s Hs. apply (get4_put4_ne _ _ _ _ _ E). pose proof (slot_body Hwf s _ Hs Hpe). simpl in *. lia. }
  assert (Hnew : mrd m' (p + 4) (elen e - 4) = Ok (body (expired e))).
  { eapply mark_body; [|exact E]. exact (block_body Hwf _ Hpe). }
  assert (Hbody : ∀ b, b ∈ bl → b ≠ (p, e) → mrd m' (b.1 + 4) (elen b.2 - 4) = Ok (body b.2)).
  { intros b Hb Hne. rewrite (mrd_put4_ne _ _ _ _ _ _ E); [by apply (block_body Hwf)|].
    destruct (blocks_apart Hwf b _ Hb Hpe) as [|Ha]; [done|]. unfold apart in Ha. simpl in Ha. pose proof (elen_ge b.2). lia. }
  pose proof (blocks_nodup _ _ _ _ Hwf) as Hnd. unfold bl in Hnd. apply NoDup_app in Hnd as (Hn1 & Hn2 & Hn3).
  apply NoDup_cons in Hn3 as [Hn3 Hn4]. destruct Hwf as [Hr Ha _ Hc]. unfold bl in *. split.
  - apply Forall_app in Hr as [Hr1 Hr2]. apply Forall_cons in Hr2 as [Hr2 Hr3]. apply Forall_app. split; [done|].
    constructor; [|done]. simpl in *. rewrite elen_expired. lia.
  - by eapply ForallOrdPairs_mid; [..|exact Ha].
  - apply Forall_app. split; [|constructor; [exact Hnew|]]; apply Forall_forall; intros b Hb; apply Hbody.
    1, 3: rewrite elem_of_app, elem_of_cons; tauto.
    + intros ->. apply (Hn2 _ Hb). by left.
    + by intros ->.
  - intros i Hi. rewrite chain_expired. eapply links_frame; [by apply Hc|]. intros s Hs. apply Hlink.
    by apply (chain_slot i).
Qed.

(** ** The operations on a cache that represents a ring *)

Lemma body_fields m p e : mrd m (p + 4) (elen e - 4) = Ok (body e) → elen e < 2 ^ 31 → 0 <= e_exp e < 2 ^ 32 →
  get4 m (p + 4) = Ok (Z.of_nat (length (e_key e))) ∧ get4 m (p + 8) = Ok (Z.of_nat (length (e_data e))) ∧
  get4 m (p + 12) = Ok (e_exp e) ∧ mrd m (p + 16) (Z.of_nat (length (e_key e))) = Ok (e_key e) ∧
  mrd m (p + 16 + Z.of_nat (length (e_key e))) (Z.of_nat (length (e_data e))) = Ok (e_data e).
Proof.
  intros Hb Hl Hexp. assert (He : elen e = 16 + Z.of_nat (length (e_key e)) + Z.of_nat (length (e_data e))) by done.
  splits.
  - rewrite <-(Z.add_0_r (p + 4)). eapply get4_sub; [exact Hb|lia|lia|done|lia].
  - replace (p + 8) with (p + 4 + 4) by lia. eapply get4_sub; [exact Hb|lia|lia|done|lia].
  - replace (p + 12) with (p + 4 + 8) by lia. eapply get4_sub; [exact Hb|lia|lia|done|lia].
  - replace (p + 16) with (p + 4 + 12) by lia. rewrite (mrd_sub _ _ _ _ 12 _ Hb) by lia. f_equal.
    change (Z.to_nat 12) with 12%nat. unfold body. cbn [app le32 drop]. rewrite drop_0, Nat2Z.id. apply take_app_length.
  - replace (p + 16 + Z.of_nat (length (e_key e))) with (p + 4 + (12 + Z.of_nat (length (e_key e)))) by lia.
    rewrite (mrd_sub _ _ _ _ _ _ Hb) by lia. f_equal. rewrite Nat2Z.id, Z2Nat.inj_add, Nat2Z.id by lia.
    rewrite <-drop_drop. change (Z.to_nat 12) with 12%nat. unfold body. cbn [app le32 drop].
    by rewrite drop_0, drop_app_length, take_ge.
Qed.

Lemma length_total q : 16 * Z.of_nat (length q) <= total q.
Proof. induction q as [|e q IH]; simpl; [lia|]. pose proof (elen_ge e). lia. Qed.

Lemma total_split r : total (r_q r) = total (olds r) + total (news r).
Proof. unfold olds, news. by rewrite <-total_app, take_drop. Qed.

(** The fields that only [open] and the truncation change. *)
Definition same_frame (c c' : cache) : Prop :=
  size c' = size c ∧ hsize c' = hsize c ∧ start c' = start c ∧ length (x c') = length (x c).

Lemma same_frame_refl c : same_frame c c.
Proof. done. Qed.

Lemma same_frame_trans c c' c'' : same_frame c c' → same_frame c' c'' → same_frame c c''.
Proof. intros (?&?&?&?) (?&?&?&?). repeat split; congruence. Qed.

(** At the end of the memory the writer goes back to the start: all entries are old ones. *)
Lemma represents_wrap c r : represents c r → r_old r = O → r_q r ≠ [] →
  represents (set_ring (hsize c) (hsize c) (writer c) c)
    (Ring (r_q r) (length (r_q r)) (hsize c + total (r_q r))).
Proof.
  intros [Hsz Hl Ho Hw Hold [Hu Hus] Hord Htop Hwf] H0 Hq. unfold olds, news in *. rewrite H0 in *.
  rewrite take_0, drop_0 in *. simpl in Hold.
  split; cbn [size hsize writer oldest unused x set_ring r_q r_old r_top olds news]; try done.
  - unfold news. cbn [r_q r_old]. rewrite drop_all. simpl. lia.
  - unfold olds. cbn [r_q r_old]. rewrite firstn_all. lia.
  - lia.
  - by destruct (r_q r).
  - unfold blocks, olds, news in *. cbn [r_q r_old oldest hsize set_ring]. rewrite firstn_all, drop_all, app_nil_r.
    by rewrite H0, take_0, drop_0 in Hwf.
Qed.

(** One turn of the loop that unlinks the oldest entry. *)
Lemma evict_step_run len c e bl :
  sizes_ok (hsize c) (size c) → Z.of_nat (length (x c)) = size c → 0 <= writer c →
  wf (hsize c) (size c) ((oldest c, e) :: bl) (x c) → oldest c ≠ unused c →
  writer c + len < 2 ^ 32 → 0 <= len → oldest c < writer c + len →
  ∃ m', evict_step len c = Ok (inl (set_x m' (if oldest c + elen e =? unused c
      then set_ring (writer c) (size c) (size c) c else set_ring (writer c) (oldest c + elen e) (unused c) c))) ∧
    wf (hsize c) (size c) bl m' ∧ length m' = length (x c).
Proof.
  intros Hsz Hl Hw0 Hwf Hou Hlen Hlen0 Hroom. assert (Hsz3 : size c < 2 ^ 31) by apply Hsz. assert (Hhs : 0 < hsize c) by apply Hsz.
  pose proof (block_range Hwf _ (list_elem_of_here _ _)) as (Hr1 & Hr2 & Hr3). cbn [fst snd] in *. pose proof (elen_ge e).
  destruct (wf_pop _ _ _ _ _ Hwf Hsz Hl) as (pos & m' & Ep & Er & Hwf' & Hlm & Hb). cbn [fst snd] in *.
  destruct (body_fields m' (oldest c) e Hb) as (Fk & Fd & _); [lia|done|].
  exists m'. split; [|done]. unfold evict_step. rewrite u32_small by lia.
  destruct (Z.leb_spec (writer c + len) (oldest c)); [lia|].
  destruct (Z.eqb_spec (oldest c) (unused c)); [lia|]. cbn [andb]. rewrite Ep. cbn [mbind res_bind]. rewrite Er.
  cbn [mbind res_bind]. rewrite Fk. cbn [mbind res_bind]. rewrite Fd. cbn [mbind res_bind].
  replace (oldest c + (sizeof_entry + _ + _)) with (oldest c + elen e) by (unfold elen; lia).
  by rewrite u32_small by lia.
Qed.

(** The oldest entry is given up. *)
Lemma evict_one len c r e q :
  represents c r → r_old r ≠ O → r_q r = e :: q → writer c + len < 2 ^ 32 → 0 <= len → oldest c < writer c + len →
  ∃ c', evict_step len c = Ok (inl c') ∧ same_frame c c' ∧
    represents c' (Ring q (r_old r - 1) (if (r_old r =? 1)%nat then size c else r_top r)).
Proof.
  intros Hrep Hold0 Hq Hlen Hlen0 Hroom. destruct Hrep as [Hsz Hl Ho Hw Hold [Hu Hus] Hord Htop Hwf].
  destruct (r_old r) as [|k] eqn:Ek; [done|]. rewrite Hq in Ho. simpl in Ho.
  assert (Eo : olds r = e :: take k q) by (unfold olds; by rewrite Hq, Ek).
  assert (En : news r = drop k q) by (unfold news; by rewrite Hq, Ek).
  unfold blocks in Hwf. rewrite Eo, En in Hwf. cbn [place app] in Hwf. rewrite Eo in Hold. cbn [total foldr] in Hold.
  fold (total (take k q)) in Hold. pose proof (total_nonneg (take k q)) as Htn. pose proof (elen_ge e) as Hge.
  rewrite En in Hw. pose proof (total_nonneg (drop k q)). assert (0 < hsize c) by apply Hsz.
  destruct (evict_step_run len c e _ Hsz Hl ltac:(lia) Hwf ltac:(lia) Hlen Hlen0 Hroom) as (m' & E & Hwf' & Hlm).
  rewrite E. eexists. split; [done|]. destruct k as [|k].
  - cbn [Nat.eqb Nat.sub]. rewrite take_0 in *. simpl in Hold. rewrite drop_0 in *.
    destruct (Z.eqb_spec (oldest c + elen e) (unused c)); [|lia]. split; [done|].
    split; unfold olds, news, blocks, olds, news;
      cbn [size hsize writer oldest unused x set_x set_ring r_q r_old r_top]; rewrite ?take_0, ?drop_0; try done; simpl; lia.
  - cbn [Nat.eqb Nat.sub]. destruct q as [|e' q]; [simpl in Ho; lia|]. cbn [take drop] in *.
    assert (0 < total (e' :: take k q)) by (simpl; pose proof (elen_ge e'); pose proof (total_nonneg (take k q)); lia).
    destruct (Z.eqb_spec (oldest c + elen e) (unused c)); [lia|]. split; [done|].
    split; unfold olds, news, blocks, olds, news;
      cbn [size hsize writer oldest unused x set_x set_ring r_q r_old r_top take drop]; try done; simpl in *; lia.
Qed.

Lemma represents_bounds c r : represents c r →
  0 < hsize c ∧ hsize c <= writer c ∧ writer c <= oldest c ∧ oldest c <= unused c ∧ unused c <= size c < 2 ^ 31 ∧
  total (r_q r) <= size c - hsize c.
Proof.
  intros [Hsz Hl Ho Hw Hold [Hu Hus] Hord Htop Hwf]. rewrite total_split.
  pose proof (total_nonneg (olds r)). pose proof (total_nonneg (news r)). destruct Hsz. lia.
Qed.

Lemma evict_empty len c r : represents c r → r_q r = [] → writer c + len < 2 ^ 32 → 0 <= len →
  oldest c < writer c + len → evict_step len c = Fail Aborted.
Proof.
  intros [Hsz Hl Ho Hw Hold [Hu Hus] Hord Htop Hwf] Hq Hlen Hlen0 Hroom. unfold olds, news in *. rewrite Hq in *.
  simpl in Ho. rewrite take_nil, drop_nil in *. simpl in *. specialize (Htop ltac:(lia)). destruct Hsz.
  unfold evict_step. rewrite u32_small by lia. destruct (Z.leb_spec (writer c + len) (oldest c)); [lia|].
  destruct (Z.eqb_spec (oldest c) (unused c)); [|lia]. by destruct (Z.leb_spec (writer c) (hsize c)); [|lia].
Qed.

Lemma evict_wrap len c r : represents c r → r_old r = O → r_q r ≠ [] → writer c + len < 2 ^ 32 → 0 < len →
  oldest c < writer c + len →
  evict_step len c = evict_step len (set_ring (hsize c) (hsize c) (writer c) c).
Proof.
  intros [Hsz Hl Ho Hw Hold [Hu Hus] Hord Htop Hwf] H0 Hq Hlen Hlen0 Hroom. unfold olds, news in *. rewrite H0 in *.
  rewrite take_0, drop_0 in *. simpl in Hold. destruct (r_q r) as [|e q]; [done|]. simpl in Hw.
  pose proof (elen_ge e). pose proof (total_nonneg q). destruct Hsz as (Hh & _ & Hs).
  unfold evict_step. cbn [writer oldest unused hsize set_ring x]. rewrite !u32_small by lia.
  destruct (Z.leb_spec (writer c + len) (oldest c)); [lia|]. destruct (Z.leb_spec (hsize c + len) (hsize c)); [lia|].
  destruct (Z.eqb_spec (oldest c) (unused c)); [|lia]. destruct (Z.leb_spec (writer c) (hsize c)); [lia|].
  destruct (Z.eqb_spec (hsize c) (writer c)); [lia|]. done.
Qed.

Lemma evict_any len c r e q : represents c r → r_q r = e :: q → writer c + len < 2 ^ 32 → 0 < len →
  oldest c < writer c + len →
  let old := if (r_old r =? 0)%nat then length (r_q r) else r_old r in
  let top := if (r_old r =? 0)%nat then hsize c + total (r_q r) else r_top r in
  ∃ c', evict_step len c = Ok (inl c') ∧ same_frame c c' ∧
    represents c' (Ring q (old - 1) (if (old =? 1)%nat then size c else top)).
Proof.
  intros Hrep Eq Hlen Hlen0 Hgt old top. unfold old, top. pose proof (represents_bounds c r Hrep).
  destruct (r_old r =? 0)%nat eqn:E0.
  - apply Nat.eqb_eq in E0. rewrite (evict_wrap len c r) by (done || lia || by rewrite Eq).
    assert (Hw := represents_wrap c r Hrep E0 ltac:(by rewrite Eq)).
    destruct (evict_one len _ _ e q Hw) as (c' & E & Hfr & Hrep'); cbn [r_old r_q writer oldest set_ring];
      [by rewrite Eq|done|lia|lia|lia|]. by exists c'.
  - apply Nat.eqb_neq in E0. destruct (evict_one len c r e q) as (c' & E & Hfr & Hrep'); [done..|lia|lia|].
    by exists c'.
Qed.

(** The loop of [add] makes the room that [make_room] makes. *)
Lemma evict_loop len : 0 < len < 2 ^ 31 → ∀ fuel n c r,
  represents c r → (length (r_q r) ≤ fuel)%nat → (fuel < n)%nat →
  match make_room fuel (size c) (hsize c) len r with
  | Some r' => ∃ c', iterate n (evict_step len) c = Ok c' ∧ represents c' r' ∧ same_frame c c' ∧ writer c' + len <= oldest c'
  | None => iterate n (evict_step len) c = Fail Aborted
  end.
Proof.
  intros Hlen fuel. induction fuel as [|fuel IH]; intros n c r Hrep Hf Hn; (destruct n as [|n]; [lia|]);
    cbn [make_room iterate]; pose proof (represents_bounds c r Hrep) as (Hh & Hhw & Hwo & Hou & Hus & _);
    replace (hsize c + total (news r) + len <=? r_top r - total (olds r)) with (writer c + len <=? oldest c)
      by (by rewrite (rep_writer _ _ Hrep), (rep_oldest _ _ Hrep), (proj1 (rep_unused _ _ Hrep)));
    (destruct (Z.leb_spec (writer c + len) (oldest c)) as [Hle|Hgt];
      [exists c; unfold evict_step at 1; rewrite u32_small by lia; destruct (Z.leb_spec (writer c + len) (oldest c)); [|lia]; done|]).
  - rewrite (evict_empty len c r) by (done || lia || by destruct (r_q r); [|simpl in Hf; lia]). done.
  - destruct (r_q r) as [|e q] eqn:Eq; [by rewrite (evict_empty len c r) by (done || lia)|].
    destruct (evict_any len c r e q Hrep Eq) as (c' & E & Hfr & Hrep'); [lia..|]. rewrite E. rewrite Eq in Hrep'.
    specialize (IH n c' _ Hrep'). destruct Hfr as (F1 & F2 & F3 & F4). rewrite F1, F2 in IH.
    specialize (IH ltac:(simpl in *; lia) ltac:(lia)). destruct (make_room _ _ _ _ _) as [r'|]; [|done].
    destruct IH as (c'' & ? & ? & ? & ?). exists c''. splits; try done. by eapply same_frame_trans.
Qed.

(** The header and the text of a block, stored in six pieces. *)
Lemma store_block m w link e : 0 <= w → w + elen e <= Z.of_nat (length m) →
  ∃ m3 m4 m5 m6 m7 m8, put4 m w link = Ok m3 ∧
    put4 m3 (w + 4) (Z.of_nat (length (e_key e))) = Ok m4 ∧ put4 m4 (w + 8) (Z.of_nat (length (e_data e))) = Ok m5 ∧
    put4 m5 (w + 12) (e_exp e) = Ok m6 ∧ mwr m6 (w + 16) (e_key e) = Ok m7 ∧
    mwr m7 (w + 16 + Z.of_nat (length (e_key e))) (e_data e) = Ok m8 ∧
    mwr m w (le32 link ++ body e) = Ok m8 ∧ length m8 = length m.
Proof.
  intros Hw Hl. unfold elen, sizeof_entry in Hl.
  destruct (put4_ok m w link) as (m3 & E3 & L3); [lia..|].
  destruct (put4_ok m3 (w + 4) (Z.of_nat (length (e_key e)))) as (m4 & E4 & L4); [lia..|].
  destruct (put4_ok m4 (w + 8) (Z.of_nat (length (e_data e)))) as (m5 & E5 & L5); [lia..|].
  destruct (put4_ok m5 (w + 12) (e_exp e)) as (m6 & E6 & L6); [lia..|].
  destruct (mwr_ok m6 (w + 16) (e_key e)) as (m7 & E7 & L7); [lia..|].
  destruct (mwr_ok m7 (w + 16 + Z.of_nat (length (e_key e))) (e_data e)) as (m8 & E8 & L8); [lia..|].
  exists m3, m4, m5, m6, m7, m8. splits; try done; [|congruence]. unfold put4 in *.
  assert (A4 := mwr_app _ _ _ _ _ _ E3 E4). assert (A5 := mwr_app _ _ _ _ _ _ A4 E5).
  assert (A6 := mwr_app _ _ _ _ _ _ A5 E6). assert (A7 := mwr_app _ _ _ _ _ _ A6 E7).
  assert (E8' : mwr m7 (w + Z.of_nat (length ((((le32 link ++ le32 (Z.of_nat (length (e_key e)))) ++
      le32 (Z.of_nat (length (e_data e)))) ++ le32 (e_exp e)) ++ e_key e))) (e_data e) = Ok m8).
  { rewrite <-E8. f_equal. rewrite !length_app. simpl. lia. }
  assert (A8 := mwr_app _ _ _ _ _ _ A7 E8'). rewrite <-A8. unfold body. by rewrite <-!app_assoc.
Qed.

Definition expire_time (now _ttl : Z) (c : cache) : Z :=
  if negb (_ttl =? 0) then u32 (getTime now c + _ttl) else U_NO_TTL.

Lemma expire_range now _ttl c : 0 <= expire_time now _ttl c < 2 ^ 32.
Proof. unfold expire_time, U_NO_TTL. destruct (negb _); [apply u32_range|lia]. Qed.

(** The new entry is stored at the writer, when there is room for it. *)
Lemma write_entry c r now key data _ttl :
  let e := Entry key data (expire_time now _ttl c) in
  represents c r → writer c + elen e <= oldest c →
  ∃ m, (index ← hash c key; pos ← get4 (x c) index; m ← put4 (x c) index (writer c);
        m ← (if negb (pos =? 0) then replace m pos (Z.lxor index (writer c)) else Ok m);
        m ← put4 m (writer c) (Z.lxor pos index); m ← put4 m (writer c + 4) (Z.of_nat (length key));
        m ← put4 m (writer c + 8) (Z.of_nat (length data)); m ← put4 m (writer c + 12) (expire_time now _ttl c);
        m ← mwr m (writer c + 16) key; mwr m (writer c + 16 + Z.of_nat (length key)) data) = Ok m ∧
    length m = length (x c) ∧
    represents (set_x m (set_ring (writer c + elen e) (oldest c) (unused c) c)) (Ring (r_q r ++ [e]) (r_old r) (r_top r)).
Proof.
  intros e Hrep Hroom. pose proof (represents_bounds c r Hrep) as (Hh & Hhw & Hwo & Hou & Hus & _).
  destruct Hrep as [Hsz Hl Ho Hw Hold [Hu Hus'] Hord Htop Hwf].
  assert (Hi := bucket_slot _ _ key Hsz). set (i := bucket (hsize c) key) in *.
  destruct (redirect_ok _ _ _ _ i (writer c) Hwf Hsz Hl Hi ltac:(lia)) as (E0 & m1 & m2 & E1 & E2 & L2 & Gi & Gp & Gs & Hb2).
  destruct (store_block m2 (writer c) (Z.lxor (hd 0 (chain (hsize c) i (blocks c r))) i) e) as
    (m3 & m4 & m5 & m6 & m7 & m8 & E3 & E4 & E5 & E6 & E7 & E8 & Eall & L8); [lia..|].
  exists m8. rewrite hash_ok. fold i. cbn [mbind res_bind]. rewrite E0. cbn [mbind res_bind]. rewrite E1.
  cbn [mbind res_bind]. rewrite E2. cbn [mbind res_bind]. rewrite E3. cbn [mbind res_bind]. cbn [e e_key e_data e_exp] in *.
  rewrite E4. cbn [mbind res_bind]. rewrite E5. cbn [mbind res_bind]. rewrite E6. cbn [mbind res_bind]. rewrite E7.
  cbn [mbind res_bind]. split; [done|]. split; [congruence|].
  assert (Hwf' : wf (hsize c) (size c) (blocks c r ++ [(writer c, e)]) m8).
  { eapply (wf_push (hsize c) (size c) (blocks c r) (x c) m2); try done; [lia|apply expire_range|].
    apply Forall_app. split; apply Forall_forall; intros b Hb; apply place_range in Hb; unfold apart; cbn [fst snd]; lia. }
  assert (Eq : drop (r_old r) (r_q r ++ [e]) = news r ++ [e]) by (by rewrite drop_app_le).
  assert (Et : take (r_old r) (r_q r ++ [e]) = olds r) by (by rewrite take_app_le).
  split; unfold olds, news, blocks, olds, news; cbn [size hsize writer oldest unused x set_x set_ring r_q r_old r_top];
    rewrite ?Eq, ?Et; try done; try lia.
  - rewrite length_app. lia.
  - rewrite total_app. simpl. lia.
  - rewrite place_app, app_assoc. cbn [place]. by rewrite <-Hw.
Qed.

(** Both sides of an implication begin with the same computation. *)
Ltac bind_step :=
  match goal with |- (?r ≫= _) = _ → _ => destruct r; cbn [mbind res_bind fst snd x set_x] end.

Lemma add_data_ok now key data _ttl c r :
  let e := Entry key data (expire_time now _ttl c) in
  represents c r → elen e < 2 ^ 31 →
  match ring_add (size c) (hsize c) e r with
  | Some r' => ∃ c', add_data now key data _ttl c = Ok c' ∧ represents c' r' ∧ same_frame c c'
  | None => add_data now key data _ttl c = Fail Aborted
  end.
Proof.
  intros e Hrep He. pose proof (elen_ge e) as Hge. unfold ring_add, add_data, add.
  assert (Elen : sizeof_entry + Z.of_nat (length key) + Z.of_nat (length data) = elen e) by done.
  rewrite Elen, (u32_small (elen e)) by lia.
  pose proof (represents_bounds c r Hrep) as (Hh0 & _ & _ & _ & Hus & Htot). pose proof (length_total (r_q r)).
  pose proof (rep_length _ _ Hrep).
  pose proof (evict_loop (elen e) ltac:(lia) (S (length (r_q r))) (S (S (length (x c)))) c r Hrep ltac:(lia) ltac:(lia)) as Hev.
  destruct (make_room _ _ _ _ _) as [r1|]; cbn [mbind option_bind]; [|by rewrite Hev].
  destruct Hev as (c1 & E1 & Hrep1 & Hfr & Hroom). rewrite E1. cbn [mbind res_bind].
  assert (Hx : expire_time now _ttl c = expire_time now _ttl c1).
  { unfold expire_time, getTime. by destruct Hfr as (_ & _ & -> & _). }
  unfold e in *. rewrite Hx in *. clear e.
  destruct (write_entry c1 r1 now key data _ttl Hrep1 Hroom) as (m & Em & Lm & Hrep2).
  pose proof (represents_bounds c1 r1 Hrep1). rewrite (u32_small (writer c1 + _)) by lia.
  exists (set_x m (set_ring (writer c1 + elen (Entry key data (expire_time now _ttl c1))) (oldest c1) (unused c1) c1)).
  split; [|split; [done|]].
  - fold (expire_time now _ttl c1). revert Em. rewrite hash_ok. cbn [mbind res_bind].
    change sizeof_entry with 16. repeat (bind_step; [|done]). intros E. rewrite E. done.
  - eapply same_frame_trans; [done|]. by repeat split.
Qed.

(** ** Looking an entry up *)

Lemma search_0 hs key l : search hs 0 key l = None.
Proof. induction l as [|e l IH]; simpl; [done|]. destruct (_ =? _); [done|]. by rewrite IH. Qed.

Lemma search_lookup hs n key l i e : search hs n key l = Some (i, e) →
  l !! i = Some e ∧ e_exp e ≠ 0 ∧ e_key e = key.
Proof.
  revert n i. induction l as [|a l IH]; intros n i; simpl; [done|].
  assert (Hn : ∀ k, prod_map S id <$> search hs k key l = Some (i, e) → (a :: l) !! i = Some e ∧ e_exp e ≠ 0 ∧ e_key e = key).
  { intros k. destruct (search hs k key l) as [[i' e']|] eqn:E; [|done]. intros [= <- <-]. by apply (IH k). }
  destruct (_ =? _); [|by apply Hn]. destruct n as [|n]; [done|].
  destruct (Z.eqb_spec (e_exp a) 0); cbn [negb andb]; [by apply Hn|]. case_bool_decide; [|by apply Hn].
  intros [= <- <-]. done.
Qed.

Definition stored (m : list Z) (b : Z * entry) : Prop :=
  mrd m (b.1 + 4) (elen b.2 - 4) = Ok (body b.2) ∧ elen b.2 < 2 ^ 31 ∧ 0 <= e_exp b.2 < 2 ^ 32 ∧ 0 < b.1.

Lemma entry_matches_ok m key p e : stored m (p, e) →
  entry_matches m key p (e_exp e) = Ok (negb (e_exp e =? 0) && bool_decide (e_key e = key)).
Proof.
  intros (Hb & Hl & Hx & _). cbn [fst snd] in *. destruct (body_fields m p e Hb Hl Hx) as (Fk & _ & _ & Fkey & _).
  unfold entry_matches. destruct (Z.eqb_spec (e_exp e) 0); [done|]. cbn [negb andb]. rewrite Fk. cbn [mbind res_bind].
  destruct (Z.eqb_spec (Z.of_nat (length (e_key e))) (Z.of_nat (length key))) as [El|Hne].
  - change sizeof_entry with 16. rewrite Fkey. done.
  - f_equal. symmetry. apply bool_decide_eq_false_2. intros E; by rewrite E in Hne.
Qed.

(** What [get] finds, for the block at the place the search gives. *)
Definition outcome (m : list Z) (time : Z) (bl : list (Z * entry)) (found : option (nat * entry)) :
    res (list Z * option (list Z * Z)) :=
  match found with
  | None => Ok (m, None)
  | Some (j, e) =>
      if negb (e_exp e =? U_NO_TTL) && (e_exp e <=? time) then
        match bl !! j with Some b => m' ← put4 m (b.1 + 12) 0; Ok (m', None) | None => Fail OutOfBounds end
      else Ok (m, Some (e_data e, e_exp e))
  end.

Lemma outcome_cons m time b bl found :
  outcome m time (b :: bl) (prod_map S id <$> found) = outcome m time bl found.
Proof. by destruct found as [[j e]|]. Qed.

Lemma get_loop hs key time m bl : ∀ n loop prev fuel,
  Forall (stored m) bl → links m prev (map fst (filter (λ b, bucket hs (e_key b.2) = bucket hs key) bl)) →
  (0 < n < fuel)%nat → loop = 101 - Z.of_nat n →
  iterate fuel (get_step time key m)
    (loop, prev, hd 0 (map fst (filter (λ b, bucket hs (e_key b.2) = bucket hs key) bl))) =
  outcome m time bl (search hs n key (map snd bl)).
Proof.
  induction bl as [|[p e] bl IH]; intros n loop prev fuel Hst Hli Hn Hloop; (destruct fuel as [|fuel]; [lia|]); [done|].
  apply Forall_cons in Hst as [Hb Hst]. cbn [map search snd]. revert Hli. rewrite filter_cons. cbn [snd].
  destruct (Z.eqb_spec (bucket hs (e_key e)) (bucket hs key)) as [Ei|Ei].
  2:{ rewrite decide_False by done. intros Hli. rewrite outcome_cons. by apply IH. }
  rewrite decide_True by done. cbn [map fst hd]. intros [Hp Hli]. destruct n as [|n]; [lia|].
  cbn [iterate]. unfold get_step at 1. destruct (Hb) as (Hbody & Hl & Hx & Hp0). cbn [fst snd] in *.
  destruct (body_fields m p e Hbody Hl Hx) as (_ & Fd & Fx & _ & Fdata).
  destruct (Z.eqb_spec p 0); [lia|]. rewrite Fx. cbn [mbind res_bind]. rewrite (entry_matches_ok m key p e Hb).
  cbn [mbind res_bind]. destruct (negb (e_exp e =? 0) && bool_decide (e_key e = key)) eqn:Em.
  - cbn [outcome lookup list_lookup]. destruct (negb (e_exp e =? U_NO_TTL) && (e_exp e <=? time)).
    + cbn [fst]. by destruct (put4 m (p + 12) 0).
    + rewrite Fd. cbn [mbind res_bind]. apply andb_prop in Em as [_ Em]. apply bool_decide_eq_true_1 in Em as <-.
      change sizeof_entry with 16. by rewrite Fdata.
  - destruct (Z.ltb_spec 100 (loop + 1)).
    + replace n with O by lia. by rewrite search_0.
    + rewrite Hp. cbn [mbind res_bind]. rewrite <-Z.lxor_assoc, Z.lxor_nilpotent, Z.lxor_0_l, outcome_cons.
      apply IH; [done|done|lia|lia].
Qed.

Lemma blocks_fst o h k q q' :
  map elen q' = map elen q →
  map fst (place o (take k q') ++ place h (drop k q')) = map fst (place o (take k q) ++ place h (drop k q)).
Proof.
  assert (Hp : ∀ q q', map elen q' = map elen q → ∀ p, map fst (place p q') = map fst (place p q)).
  { clear. induction q as [|e q IH]; intros [|e' q']; try done. simpl. intros [= E1 E2] p. rewrite E1. f_equal. by apply IH. }
  intros E. rewrite !map_app. f_equal; apply Hp.
  - by rewrite <-!firstn_map, E.
  - by rewrite <-!skipn_map, E.
Qed.

Lemma pairs_eq {A B} (l l' : list (A * B)) : map fst l = map fst l' → map snd l = map snd l' → l = l'.
Proof.
  revert l'. induction l as [|[a b] l IH]; intros [|[a' b'] l']; simpl; try done.
  intros [= -> E1] [= -> E2]. f_equal. by apply IH.
Qed.

Lemma blocks_snd c r : map snd (blocks c r) = r_q r.
Proof. unfold blocks, olds, news. by rewrite map_app, !place_snd, take_drop. Qed.

Lemma total_map q q' : map elen q' = map elen q → total q' = total q.
Proof.
  revert q'. induction q as [|e q IH]; intros [|e' q']; try done. simpl. intros [= -> E]. by rewrite (IH _ E).
Qed.

(** The ring with the entry at place [i], from the newest one, marked as expired. *)
Definition ring_mark (i : nat) (e : entry) (r : ring) : ring :=
  Ring (reverse (<[i := expired e]> (reverse (r_q r)))) (r_old r) (r_top r).

Lemma represents_mark c r i e : represents c r → reverse (r_q r) !! i = Some e →
  ∃ p m', reverse (blocks c r) !! i = Some (p, e) ∧ put4 (x c) (p + 12) 0 = Ok m' ∧ length m' = length (x c) ∧
    represents (set_x m' c) (ring_mark i e r).
Proof.
  intros [Hsz Hl Ho Hw Hold [Hu Hus] Hord Htop Hwf] He.
  assert (Eb : map snd (reverse (blocks c r)) = reverse (r_q r)) by (by rewrite <-(blocks_snd c r), fmap_reverse).
  rewrite <-Eb in He. apply list_lookup_fmap_Some in He as ([p e'] & -> & Hbi). cbn [snd]. exists p.
  apply take_drop_middle in Hbi as Hsplit. set (b1 := take i (reverse (blocks c r))) in *.
  set (b2 := drop (S i) (reverse (blocks c r))) in *.
  assert (Hbl : blocks c r = reverse b2 ++ (p, e') :: reverse b1).
  { rewrite <-(reverse_involutive (blocks c r)), <-Hsplit, reverse_app, reverse_cons, <-app_assoc. done. }
  rewrite Hbl in Hwf. assert (Hin : (p, e') ∈ reverse b2 ++ (p, e') :: reverse b1) by (rewrite elem_of_app, elem_of_cons; tauto).
  pose proof (block_range Hwf _ Hin) as (Hr1 & Hr2 & _). cbn [fst snd] in *. pose proof (elen_ge e'). destruct Hsz as (Hh & Hh4 & Hss).
  destruct (put4_ok (x c) (p + 12) 0) as (m' & E & Lm); [lia..|]. exists m'. splits; try done.
  assert (Hwf' := wf_mark _ _ _ _ _ _ _ _ Hwf (conj Hh (conj Hh4 Hss)) E).
  set (q' := reverse (<[i:=expired e']> (reverse (r_q r)))).
  assert (Eq' : q' = map snd (reverse b2 ++ (p, expired e') :: reverse b1)).
  { unfold q'. rewrite <-Eb, <-Hsplit, map_app. cbn [map snd].
    assert (Hi : i = length (map snd b1)).
    { rewrite length_map. unfold b1. apply lookup_lt_Some in Hbi. rewrite length_take. lia. }
    rewrite Hi at 1. rewrite insert_app_r_alt, Nat.sub_diag by lia. cbn [insert list_insert].
    rewrite reverse_app, reverse_cons, map_app. cbn [map snd]. rewrite <-app_assoc, !fmap_reverse. done. }
  assert (Eq : r_q r = map snd (reverse b2 ++ (p, e') :: reverse b1)) by (by rewrite <-Hbl, blocks_snd).
  assert (Elen : map elen q' = map elen (r_q r)) by (by rewrite Eq', Eq, !map_app).
  assert (Hbl' : place (oldest c) (take (r_old r) q') ++ place (hsize c) (drop (r_old r) q') = reverse b2 ++ (p, expired e') :: reverse b1).
  { apply pairs_eq; [|by rewrite map_app, !place_snd, take_drop]. rewrite (blocks_fst _ _ _ (r_q r)) by done.
    change (place (oldest c) _ ++ _) with (blocks c r). rewrite Hbl, !map_app. done. }
  split; unfold olds, news, blocks, olds, news, ring_mark; fold q'; cbn [size hsize writer oldest unused x set_x r_q r_old r_top]; try done.
  - lia.
  - apply (f_equal length) in Elen. rewrite !length_map in Elen. lia.
  - rewrite Hw. f_equal. symmetry. apply total_map. unfold news. by rewrite <-!skipn_map, Elen.
  - rewrite Hold. f_equal. symmetry. apply total_map. unfold olds. by rewrite <-!firstn_map, Elen.
  - by rewrite Hbl'.
Qed.

Lemma stored_blocks c r : represents c r → Forall (stored (x c)) (reverse (blocks c r)).
Proof.
  intros [Hsz Hl Ho Hw Hold [Hu Hus] Hord Htop Hwf]. apply Forall_forall. intros b Hb. apply elem_of_reverse in Hb.
  rewrite reverse_involutive in Hb. pose proof (block_range Hwf b Hb). destruct Hsz.
  split; [by apply (block_body Hwf)|]. lia.
Qed.

Lemma get_ok c r now key :
  represents c r →
  ∃ c', get now key c = Ok (c', (ring_get (hsize c) (getTime now c) key r).2) ∧
    represents c' (ring_get (hsize c) (getTime now c) key r).1 ∧ same_frame c c'.
Proof.
  intros Hrep. assert (Hsz := rep_sizes _ _ Hrep). assert (Hi := bucket_slot _ _ key Hsz).
  pose proof (wf_chain _ _ _ _ (rep_wf _ _ Hrep) _ Hi) as [Eh Hli]. rewrite Z.lxor_0_l in Eh.
  unfold get. rewrite hash_ok. cbn [mbind res_bind]. rewrite Eh. cbn [mbind res_bind].
  unfold chain in *. rewrite (get_loop (hsize c) key (getTime now c) (x c) (reverse (blocks c r)) 101);
    [|by apply stored_blocks|done|lia|lia].
  replace (map snd (reverse (blocks c r))) with (reverse (r_q r)) by (by rewrite <-(blocks_snd c r), <-fmap_reverse).
  unfold ring_get.
  destruct (search (hsize c) 101 key (reverse (r_q r))) as [[i e]|] eqn:Es; cbn [outcome mbind res_bind];
    [|exists (set_x (x c) c); split; [done|split; [by destruct c, Hrep|done]]].
  apply search_lookup in Es as (Hl & _ & _).
  destruct (negb (e_exp e =? U_NO_TTL) && (e_exp e <=? getTime now c)); cbn [mbind res_bind].
  - destruct (represents_mark c r i e Hrep Hl) as (p & m' & Eb & E & Lm & Hrep'). rewrite Eb. cbn [fst]. rewrite E.
    cbn [mbind res_bind]. exists (set_x m' c). split; [done|]. split; [done|]. by repeat split.
  - exists (set_ttl (e_exp e) (set_x (x c) c)). split; [done|]. split; [|done]. by destruct c, Hrep.
Qed.

(** ** New caches *)

Lemma getHSize_ok size : 0 <= size < 2 ^ 32 →
  ∃ k, getHSize size = Ok (2 ^ k) ∧ 2 <= k <= 28 ∧ size / 16 < 2 ^ k ∧ (k = 2 ∨ 2 ^ k <= size / 8).
Proof.
  intros Hs. assert (Hd : 0 <= size / 16 < 2 ^ 28) by (Z.div_mod_to_equations; lia).
  destruct (iterate_total (getHSize_step size)
    (λ h, ∃ k, h = 2 ^ k ∧ 2 <= k <= 28 ∧ (k = 2 ∨ 2 ^ k <= size / 8))
    (λ h, ∃ k, h = 2 ^ k ∧ 2 <= k <= 28 ∧ size / 16 < 2 ^ k ∧ (k = 2 ∨ 2 ^ k <= size / 8))
    (λ h, Z.to_nat (28 - Z.log2 h))) with (n := 32%nat) (s := 4) as (h & E & k & -> & Hk).
  - intros h (k & -> & Hk & Hor). unfold getHSize_step. change sizeof_entry with 16.
    destruct (Z.leb_spec (2 ^ k) (size / 16)) as [Hle|Hgt]; [|by exists k].
    assert (Hk28 : k < 28) by (apply (Z.pow_lt_mono_r_iff 2); lia).
    assert (E : u32 (Z.shiftl (2 ^ k) 1) = 2 ^ (k + 1)).
    { rewrite Z.shiftl_mul_pow2, <-Z.pow_add_r by lia. apply u32_small.
      split; [apply Z.pow_nonneg; lia|apply Z.pow_lt_mono_r; lia]. }
    rewrite E, !Z.log2_pow2 by lia. split; [|lia]. exists (k + 1). splits; try lia. right.
    rewrite Z.pow_add_r by lia. Z.div_mod_to_equations. lia.
  - exists 2. splits; lia.
  - vm_compute. lia.
  - exists k. split; [exact E|]. tauto.
Qed.

Lemma get4_zero n i : 0 <= i → i + 4 <= Z.of_nat n → get4 (replicate n 0) i = Ok 0.
Proof.
  intros Hi Hn. unfold get4. rewrite mrd_ok by (rewrite ?length_replicate; lia). cbn [mbind res_bind].
  rewrite drop_replicate, take_replicate. replace (Z.to_nat 4 `min` (n - Z.to_nat i))%nat with 4%nat by lia. done.
Qed.

Lemma getHSize_sizes size h : 4 <= size < 2 ^ 31 → getHSize size = Ok h → sizes_ok h size.
Proof.
  intros Hs E. destruct (getHSize_ok size) as (k & E' & Hk & _ & Hor); [lia|]. assert (h = 2 ^ k) as -> by congruence.
  assert (0 < 2 ^ k) by (apply Z.pow_pos_nonneg; lia). split; [done|]. split; [|destruct Hor as [-> |]; Z.div_mod_to_equations; lia].
  exists (2 ^ (k - 2)). replace 4 with (2 ^ 2) by done. rewrite <-Z.pow_add_r by lia. f_equal. lia.
Qed.

Lemma empty_represents m sz hs start ttl : sizes_ok hs sz → m = replicate (Z.to_nat sz) 0 →
  represents (Cache m sz hs hs sz sz start ttl) (Ring [] 0 sz).
Proof.
  intros Hsz ->. assert (H := Hsz). destruct H as (Hh & Hh4 & Hs).
  split; unfold olds, news; cbn [size hsize writer oldest unused x r_q r_old r_top take drop total foldr]; try done; try lia.
  - rewrite length_replicate. lia.
  - unfold blocks, olds, news. cbn [r_q r_old take drop place app]. split; try constructor.
    + rewrite get4_zero; [done|apply H|]. destruct H as [Hi [j Ej]], Hh4 as [k Ek]. lia.
    + done.
Qed.

Lemma new_cache sz now : 100 <= sz < 2 ^ 31 →
  ∃ c, open_cache [] sz 0 now = Ok c ∧ represents c (Ring [] 0 (size c)) ∧ size c = sz - 20 ∧ start c = now ∧
    getHSize (sz - 20) = Ok (hsize c).
Proof.
  intros Hs. unfold open_cache, init. cbn [length Z.of_nat Z.eqb negb]. change sizeof_info with 20.
  rewrite u32_small by lia. destruct (getHSize_ok (sz - 20)) as (k & E & _); [lia|]. rewrite E. cbn [mbind res_bind].
  eexists. split; [done|]. cbn [size hsize start]. splits; try done.
  apply empty_represents; [by apply getHSize_sizes; [lia|]|]. rewrite drop_replicate. f_equal. lia.
Qed.

(** ** Sequences of operations *)

Inductive op := OAdd (now : Z) (key data : list Z) (_ttl : Z) | OGet (now : Z) (key : list Z).

#[global] Instance op_eq_dec : EqDecision op.
Proof. solve_decision. Defined.

Definition op_ok (o : op) : Prop :=
  match o with
  | OAdd _ key data _ => 16 + Z.of_nat (length key) + Z.of_nat (length data) < 2 ^ 31
  | OGet _ _ => True
  end.

#[global] Instance op_ok_dec o : Decision (op_ok o).
Proof. destruct o; apply _. Defined.

(** The cache after the operations, with what the [get]s returned. *)
Fixpoint run (ops : list op) (c : cache) (answers : list (option (list Z))) :
    res (cache * list (option (list Z))) :=
  match ops with
  | [] => Ok (c, answers)
  | OAdd now key data _ttl :: ops => c ← add_data now key data _ttl c; run ops c answers
  | OGet now key :: ops => r ← get now key c; run ops r.1 (answers ++ [r.2])
  end.

(** The same on the queue, for a cache of size [sz] with a table of size [hs], made at the time [start]. *)
Fixpoint ring_run (sz hs start : Z) (ops : list op) (r : ring) (answers : list (option (list Z))) :
    option (ring * list (option (list Z))) :=
  match ops with
  | [] => Some (r, answers)
  | OAdd now key data _ttl :: ops =>
      let expire := if _ttl =? 0 then U_NO_TTL else u32 (u32 (now - start) + _ttl) in
      r ← ring_add sz hs (Entry key data expire) r; ring_run sz hs start ops r answers
  | OGet now key :: ops =>
      let '(r, answer) := ring_get hs (u32 (now - start)) key r in
      ring_run sz hs start ops r (answers ++ [answer])
  end.

Lemma run_ok ops : ∀ c r answers, represents c r → Forall op_ok ops →
  match ring_run (size c) (hsize c) (start c) ops r answers with
  | Some (r', answers') => ∃ c', run ops c answers = Ok (c', answers') ∧ represents c' r' ∧ same_frame c c'
  | None => run ops c answers = Fail Aborted
  end.
Proof.
  induction ops as [|[now key data _ttl|now key] ops IH]; intros c r answers Hrep Hok; cbn [run ring_run];
    [by exists c|apply Forall_cons in Hok as [Ho Hok]..].
  - replace (if _ttl =? 0 then U_NO_TTL else u32 (u32 (now - start c) + _ttl)) with (expire_time now _ttl c)
      by (unfold expire_time; by destruct (_ttl =? 0)).
    pose proof (add_data_ok now key data _ttl c r Hrep Ho) as Hadd. cbn zeta in Hadd.
    destruct (ring_add _ _ _ _) as [r1|]; cbn [mbind option_bind]; [|by rewrite Hadd].
    destruct Hadd as (c1 & E & Hrep1 & Hfr). rewrite E. cbn [mbind res_bind].
    specialize (IH c1 r1 answers Hrep1 Hok). assert (H := Hfr). destruct H as (F1 & F2 & F3 & _). rewrite F1, F2, F3 in IH.
    destruct (ring_run _ _ _ _ _ _) as [[r2 a2]|]; [|done]. destruct IH as (c2 & ? & ? & ?).
    exists c2. splits; try done. by eapply same_frame_trans.
  - destruct (get_ok c r now key Hrep) as (c1 & E & Hrep1 & Hfr). rewrite E. cbn [mbind res_bind fst snd].
    change (u32 (now - start c)) with (getTime now c).
    destruct (ring_get (hsize c) (getTime now c) key r) as [r1 answer]. cbn [fst snd] in *.
    specialize (IH c1 r1 (answers ++ [answer]) Hrep1 Hok). assert (H := Hfr). destruct H as (F1 & F2 & F3 & _). rewrite F1, F2, F3 in IH.
    destruct (ring_run _ _ _ _ _ _) as [[r2 a2]|]; [|done]. destruct IH as (c2 & ? & ? & ?).
    exists c2. splits; try done. by eapply same_frame_trans.
Qed.

(** ** The stream operators *)

Definition entry_text (e : entry) : list Z :=
  BS "+" ++ decimal 10 (Z.of_nat (length (e_key e))) ++ BS "," ++ decimal 10 (Z.of_nat (length (e_data e))) ++
  BS ":" ++ e_key e ++ BS "->" ++ e_data e ++ [10].

Definition dump_text (q : list entry) : list Z := concat (map entry_text q) ++ [10].

Lemma print_block m p e : stored m (p, e) → print m p = Ok (entry_text e, p + elen e).
Proof.
  intros (Hb & Hl & Hx & _). cbn [fst snd] in *. destruct (body_fields m p e Hb Hl Hx) as (Fk & Fd & _ & Fkey & Fdata).
  unfold print. rewrite Fk. cbn [mbind res_bind]. rewrite Fd. cbn [mbind res_bind]. change sizeof_entry with 16.
  rewrite Fkey. cbn [mbind res_bind]. rewrite Fdata. cbn [mbind res_bind]. unfold entry_text, elen, sizeof_entry.
  do 2 f_equal. lia.
Qed.

Lemma print_blocks m q : ∀ p fuel os, Forall (stored m) (place p q) → (length q < fuel)%nat →
  iterate fuel (print_loop_step m (p + total q)) (os, p) = Ok (os ++ concat (map entry_text q)).
Proof.
  induction q as [|e q IH]; intros p fuel os Hst Hf; (destruct fuel as [|fuel]; [simpl in Hf; lia|]);
    cbn [iterate total foldr map concat place] in *; unfold print_loop_step at 1; cbn [fst snd].
  - destruct (Z.ltb_spec p (p + 0)); [lia|]. by rewrite app_nil_r.
  - fold (total q) in *. pose proof (elen_ge e). pose proof (total_nonneg q). apply Forall_cons in Hst as [Hb Hst].
    destruct (Z.ltb_spec p (p + (elen e + total q))); [|lia]. rewrite (print_block _ _ _ Hb). cbn [mbind res_bind fst snd].
    rewrite Z.add_assoc, IH; [by rewrite app_assoc|done|simpl in Hf; lia].
Qed.

Lemma write_cache_ok c r : represents c r → write_cache c = Ok (dump_text (r_q r)).
Proof.
  intros Hrep. pose proof (stored_blocks c r Hrep) as Hst. apply Forall_reverse in Hst. rewrite reverse_involutive in Hst.
  unfold blocks in Hst. apply Forall_app in Hst as [Hst1 Hst2]. pose proof (represents_bounds c r Hrep) as (Hh & _ & _ & _ & Hus & Htot).
  pose proof (length_total (r_q r)). pose proof (rep_length _ _ Hrep) as Hl.
  assert (Hlen : (length (r_q r) = length (olds r) + length (news r))%nat) by (unfold olds, news; by rewrite <-length_app, take_drop).
  unfold write_cache. replace (unused c) with (oldest c + total (olds r)) by (rewrite (rep_oldest _ _ Hrep); lia).
  rewrite print_blocks by (done || lia). cbn [mbind res_bind app]. rewrite (rep_writer _ _ Hrep).
  rewrite print_blocks by (done || lia). cbn [mbind res_bind]. rewrite <-concat_app, <-map_app. unfold olds, news.
  by rewrite take_drop.
Qed.

Lemma isdigit_of n : isdigit (48 + n mod 10) = true.
Proof. pose proof (Z.mod_pos_bound n 10 ltac:(lia)). unfold isdigit. zcases; (lia || done). Qed.

Lemma read_decimal fuel n tail : 0 <= n < 10 ^ Z.of_nat fuel →
  read_digits (decimal fuel n ++ tail) 0 = read_digits tail n.
Proof.
  revert n tail. induction fuel as [|fuel IH]; intros n tail Hn; [simpl in Hn; simpl; f_equal; lia|].
  cbn [decimal]. destruct (Z.ltb_spec n 10).
  - cbn [app read_digits]. rewrite <-(Z.mod_small n 10) at 1 by lia. rewrite isdigit_of. f_equal. lia.
  - rewrite <-app_assoc, IH by (rewrite Nat2Z.inj_succ, Z.pow_succ_r in Hn by lia; Z.div_mod_to_equations; lia).
    cbn [app read_digits]. rewrite isdigit_of. f_equal. Z.div_mod_to_equations. lia.
Qed.

Lemma decimal_head fuel n : 0 <= n → ∃ d ds, decimal (S fuel) n = d :: ds ∧ isdigit d = true.
Proof.
  revert n. induction fuel as [|fuel IH]; intros n Hn.
  - cbn [decimal]. destruct (Z.ltb_spec n 10).
    + exists (48 + n), []. split; [done|]. rewrite <-(Z.mod_small n 10) by lia. apply isdigit_of.
    + exists (48 + n mod 10), []. split; [done|apply isdigit_of].
  - change (decimal (S (S fuel)) n) with (if n <? 10 then [48 + n] else decimal (S fuel) (n / 10) ++ [48 + n mod 10]).
    destruct (Z.ltb_spec n 10).
    + exists (48 + n), []. split; [done|]. rewrite <-(Z.mod_small n 10) by lia. apply isdigit_of.
    + destruct (IH (n / 10)) as (d & ds & -> & Hd); [Z.div_mod_to_equations; lia|]. by exists d, (ds ++ [48 + n mod 10]).
Qed.

Lemma read_number_decimal n c tail : 0 <= n < 2 ^ 31 → isdigit c = false →
  read_number (decimal 10 n ++ c :: tail) = Ok (n, c :: tail).
Proof.
  intros Hn Hc. destruct (decimal_head 9 n) as (d & ds & E & Hd); [lia|].
  assert (Hr := read_decimal 10 n (c :: tail) ltac:(lia)). rewrite E in *. unfold read_number. cbn [app skip_blanks] in *.
  assert (Hsp : isspace d = false) by (revert Hd; unfold isspace, isdigit; zcases; done || lia).
  rewrite Hsp, Hd, Hr. cbn [read_digits]. rewrite Hc. destruct (Z.ltb_spec n (2 ^ 32)); [done|lia].
Qed.

Lemma read_entry now e tail c : Z.of_nat (length (e_key e)) <= 1000 → elen e < 2 ^ 31 →
  read_step now (entry_text e ++ tail, c) = c ← add_data now (e_key e) (e_data e) 0 c; Ok (inl (tail, c)).
Proof.
  intros Hk Hl. unfold elen, sizeof_entry in Hl.
  assert (Et : entry_text e ++ tail = 43 :: decimal 10 (Z.of_nat (length (e_key e))) ++ 44 ::
    (decimal 10 (Z.of_nat (length (e_data e))) ++ 58 :: (e_key e ++ 45 :: 62 :: (e_data e ++ 10 :: tail)))).
  { unfold entry_text. repeat (progress (rewrite <-?app_assoc; cbn [app])). done. }
  rewrite Et. unfold read_step, add_data.
  change (skip_blanks (43 :: ?l)) with (43 :: l). cbn [Z.eqb Pos.eqb negb].
  rewrite read_number_decimal by (done || lia). cbn [mbind res_bind drop]. rewrite drop_0, read_number_decimal by (done || lia).
  cbn [mbind res_bind drop]. rewrite !drop_0, !Nat2Z.id.
  destruct (Z.ltb_spec 1000 (Z.of_nat (length (e_key e)))); [lia|].
  rewrite take_app_length, drop_app_length, length_app.
  destruct (Z.ltb_spec (Z.of_nat (length (e_key e) + length (45 :: 62 :: e_data e ++ 10 :: tail))) (Z.of_nat (length (e_key e)))); [lia|].
  cbn [orb].
  destruct (add now (e_key e) (Z.of_nat (length (e_data e))) 0 c) as [[c1 ptr]|]; [|done]. cbn [mbind res_bind fst snd].
  destruct (mwr (x c1) ptr (e_key e)) as [m1|]; [|done]. cbn [mbind res_bind].
  cbn [drop]. rewrite !drop_0, take_app_length, drop_app_length. cbn [drop].
  destruct (mwr m1 (ptr + Z.of_nat (length (e_key e))) (e_data e)); [by rewrite drop_0|done].
Qed.

(** Nothing is given up while everything fits. *)
Lemma ring_add_fits sz hs e q :
  hs + total q + elen e <= sz → ring_add sz hs e (Ring q 0 sz) = Some (Ring (q ++ [e]) 0 sz).
Proof.
  intros H. unfold ring_add. cbn [make_room r_q]. unfold news, olds. cbn [r_q r_old r_top]. rewrite take_0, drop_0.
  cbn [total foldr]. fold (total q). destruct (Z.leb_spec (hs + total q + elen e) (sz - 0)); [done|lia].
Qed.

Definition kept (e : entry) : entry := Entry (e_key e) (e_data e) U_NO_TTL.

Lemma total_kept q : total (map kept q) = total q.
Proof. induction q as [|e q IH]; simpl; [done|]. by rewrite IH. Qed.

Lemma read_entries now q : ∀ fuel c q0,
  represents c (Ring q0 0 (size c)) → Forall (λ e, Z.of_nat (length (e_key e)) <= 1000) q →
  hsize c + total q0 + total q <= size c → (length q < fuel)%nat →
  ∃ c', iterate fuel (read_step now) (dump_text q, c) = Ok ([], c') ∧ represents c' (Ring (q0 ++ map kept q) 0 (size c)) ∧
    same_frame c c'.
Proof.
  induction q as [|e q IH]; intros fuel c q0 Hrep Hk Hfit Hf; (destruct fuel as [|fuel]; [simpl in Hf; lia|]); cbn [iterate].
  - exists c. rewrite app_nil_r. split; [done|]. split; [done|]. by repeat split.
  - apply Forall_cons in Hk as [Hke Hk]. cbn [total foldr] in Hfit. fold (total q) in Hfit.
    pose proof (represents_bounds _ _ Hrep) as (Hh & _ & _ & _ & Hus & _). pose proof (total_nonneg q). pose proof (total_nonneg q0).
    unfold dump_text. cbn [map concat]. rewrite <-app_assoc, read_entry by (done || lia).
    pose proof (add_data_ok now (e_key e) (e_data e) 0 c _ Hrep) as Hadd.
    change (expire_time now 0 c) with U_NO_TTL in Hadd. cbn zeta in Hadd. fold (kept e) in Hadd.
    specialize (Hadd ltac:(change (elen (kept e)) with (elen e); lia)).
    rewrite ring_add_fits in Hadd by (change (elen (kept e)) with (elen e); lia).
    destruct Hadd as (c1 & E & Hrep1 & Hfr). rewrite E. cbn [mbind res_bind]. assert (H1 := Hfr). destruct H1 as (F1 & F2 & F3 & F4).
    rewrite <-F1 in Hrep1. destruct (IH fuel c1 (q0 ++ [kept e]) Hrep1 Hk) as (c2 & E2 & Hrep2 & Hfr2).
    + rewrite total_app, F1, F2. cbn [total foldr]. change (elen (kept e)) with (elen e). lia.
    + simpl in Hf. lia.
    + exists c2. split; [exact E2|]. split; [|by eapply same_frame_trans]. rewrite F1, <-app_assoc in Hrep2. exact Hrep2.
Qed.

(** ** Entries that fit *)

Definition item_entry (f : list Z * list Z) : entry := Entry (basename f.1) (f.2 ++ [0]) U_NO_TTL.

Lemma add_all_fits now items : ∀ c q0,
  represents c (Ring q0 0 (size c)) → hsize c + total q0 + total (map item_entry items) <= size c →
  ∃ c', add_all now items c = Ok c' ∧ represents c' (Ring (q0 ++ map item_entry items) 0 (size c)) ∧ same_frame c c'.
Proof.
  induction items as [|[name content] items IH]; intros c q0 Hrep Hfit; cbn [add_all map].
  - exists c. rewrite app_nil_r. split; [done|]. split; [done|]. by repeat split.
  - cbn [total foldr map] in Hfit. fold (total (map item_entry items)) in Hfit.
    pose proof (represents_bounds _ _ Hrep) as (Hh & _ & _ & _ & Hus & _). pose proof (total_nonneg (map item_entry items)).
    pose proof (total_nonneg q0). unfold addContent.
    pose proof (add_data_ok now (basename name) (content ++ [0]) 0 c _ Hrep) as Hadd.
    change (expire_time now 0 c) with U_NO_TTL in Hadd. cbn zeta in Hadd.
    change (Entry (basename name) (content ++ [0]) U_NO_TTL) with (item_entry (name, content)) in Hadd.
    rewrite ring_add_fits in Hadd by lia. specialize (Hadd ltac:(lia)).
    destruct Hadd as (c1 & E & Hrep1 & Hfr). rewrite E. cbn [mbind res_bind]. assert (H1 := Hfr). destruct H1 as (F1 & F2 & F3 & F4).
    rewrite <-F1 in Hrep1. destruct (IH c1 (q0 ++ [item_entry (name, content)]) Hrep1) as (c2 & E2 & Hrep2 & Hfr2).
    + rewrite total_app, F1, F2. cbn [total foldr]. lia.
    + exists c2. split; [exact E2|]. split; [|by eapply same_frame_trans]. rewrite F1, <-app_assoc in Hrep2. exact Hrep2.
Qed.

Lemma search_found hs l : ∀ n e, NoDup (map e_key l) → e ∈ l → e_exp e ≠ 0 → (length l ≤ n)%nat →
  ∃ i, search hs n (e_key e) l = Some (i, e).
Proof.
  induction l as [|a l IH]; intros n e Hnd He Hx Hn; [by apply not_elem_of_nil in He|].
  cbn [map] in Hnd. apply NoDup_cons in Hnd as [Ha Hnd]. cbn [search]. simpl in Hn. destruct n as [|n]; [lia|].
  apply elem_of_cons in He as [->|He].
  - rewrite Z.eqb_refl, bool_decide_eq_true_2 by done. destruct (Z.eqb_spec (e_exp a) 0); [done|]. by exists O.
  - assert (Hne : e_key a ≠ e_key e).
    { intros E. apply Ha. rewrite E. by apply (list_elem_of_fmap_2 e_key). }
    rewrite (bool_decide_eq_false_2 _ Hne), andb_false_r.
    destruct (_ =? _); [destruct (IH n e Hnd He Hx ltac:(lia)) as [i ->]|destruct (IH (S n) e Hnd He Hx ltac:(lia)) as [i ->]];
      by exists (S i).
Qed.

(** A search that finds nothing. *)
Lemma search_absent hs n key l : Forall (λ e, e_key e ≠ key) l → search hs n key l = None.
Proof.
  revert n. induction l as [|a l IH]; intros n Hl; [done|]. apply Forall_cons in Hl as [Ha Hl]. cbn [search].
  rewrite (bool_decide_eq_false_2 _ Ha), andb_false_r. rewrite (IH n Hl).
  destruct (_ =? _); [|done]. destruct n as [|n]; [done|]. by rewrite (IH n Hl).
Qed.

(** The contents of the items are found under their names. *)
Lemma getContent_items c items time path content :
  represents c (Ring (map item_entry items) 0 (size c)) → NoDup (map (λ f, basename f.1) items) →
  (length items ≤ 101)%nat → (path, content) ∈ items →
  ∃ c', getContent time (basename path) c = Ok (c', content).
Proof.
  intros Hrep Hnd Hlen Hin. destruct (get_ok c _ time (basename path) Hrep) as (c' & E & _ & _).
  unfold getContent. rewrite E. cbn [mbind res_bind fst snd]. unfold ring_get. cbn [r_q].
  destruct (search_found (hsize c) (reverse (map item_entry items)) 101 (item_entry (path, content))) as [i Es].
  - change (map e_key (reverse (map item_entry items))) with (e_key <$> reverse (item_entry <$> items)).
    rewrite fmap_reverse, reverse_Permutation, <-list_fmap_compose. exact Hnd.
  - apply elem_of_reverse. by apply (list_elem_of_fmap_2 item_entry).
  - done.
  - rewrite length_reverse, length_map. done.
  - cbn [item_entry e_key fst] in Es. rewrite Es. cbn [e_exp item_entry negb Z.eqb andb snd].
    exists c'. destruct (U_NO_TTL =? U_NO_TTL) eqn:Eu; [|by vm_compute in Eu]. cbn [negb andb snd e_data item_entry].
    rewrite length_app. simpl. rewrite Nat.add_sub, take_app_length. done.
Qed.

(** The keys of a queue are keys that were added. *)
Lemma make_room_suffix fuel sz hs len r r' : make_room fuel sz hs len r = Some r' → ∃ n, r_q r' = drop n (r_q r).
Proof.
  revert r. induction fuel as [|fuel IH]; intros r; cbn [make_room];
    (destruct (_ <=? _); [intros [= <-]; by exists O|]); [done|].
  destruct (r_q r) as [|e q] eqn:Eq; [done|]. intros (n & E)%IH. cbn [r_q] in E. by exists (S n).
Qed.

Lemma ring_add_suffix sz hs e r r' : ring_add sz hs e r = Some r' → ∃ n, r_q r' = drop n (r_q r) ++ [e].
Proof.
  unfold ring_add. destruct (make_room _ _ _ _ r) as [r1|] eqn:E; [|done]. intros [= <-]. cbn [r_q].
  apply make_room_suffix in E as [n ->]. by exists n.
Qed.

Definition short_key (o : op) : Prop :=
  match o with OAdd _ key _ _ => Z.of_nat (length key) <= 1000 | OGet _ _ => True end.

#[global] Instance short_key_dec o : Decision (short_key o).
Proof. destruct o; apply _. Defined.

Lemma ring_run_keys sz hs start ops : ∀ r answers r' answers',
  Forall short_key ops → Forall (λ e, Z.of_nat (length (e_key e)) <= 1000) (r_q r) →
  ring_run sz hs start ops r answers = Some (r', answers') → Forall (λ e, Z.of_nat (length (e_key e)) <= 1000) (r_q r').
Proof.
  induction ops as [|[now key data _ttl|now key] ops IH]; intros r answers r' answers' Hs Hr; cbn [ring_run];
    [by intros [= <- _]|apply Forall_cons in Hs as [Hk Hs]..].
  - destruct (ring_add _ _ _ r) as [r1|] eqn:E; [|done]. cbn [mbind option_bind]. apply IH; [done|].
    apply ring_add_suffix in E as [n ->]. apply Forall_app. split; [by apply Forall_drop|]. by apply Forall_singleton.
  - unfold ring_get. destruct (search _ _ _ _) as [[i e]|] eqn:Es; [|by apply IH].
    apply search_lookup in Es as (Hl & _). destruct (_ && _); [|by apply IH]. apply IH; [done|]. cbn [r_q].
    apply Forall_reverse, Forall_insert; [by apply Forall_reverse|]. cbn [expired e_key].
    apply (proj1 (Forall_forall _ _) Hr). by apply elem_of_reverse, (list_elem_of_lookup_2 _ i).
Qed.

(** The memory cut off behind the blocks. *)
Lemma wf_truncate hs sz w bl m : wf hs sz bl m → hs <= w <= Z.of_nat (length m) → (4 | hs) →
  Forall (λ b, b.1 + elen b.2 <= w) bl → wf hs w bl (take (Z.to_nat w) m).
Proof.
  intros Hwf Hw [k Ek] Hbl.
  assert (Hrd : ∀ p n, p + n <= w → mrd (take (Z.to_nat w) m) p n = mrd m p n).
  { intros p n Hpn. unfold mrd. destruct (Z.ltb_spec p 0); [done|]. destruct (Z.ltb_spec n 0); [done|].
    rewrite length_take. destruct (Z.ltb_spec (Z.of_nat (Z.to_nat w `min` length m)) (p + n)); [lia|].
    destruct (Z.ltb_spec (Z.of_nat (length m)) (p + n)); [lia|]. cbn [orb]. f_equal.
    rewrite skipn_firstn_comm, take_take. f_equal. lia. }
  assert (Hb : ∀ b, b ∈ bl → b.1 + elen b.2 <= w) by (intros b; by apply (proj1 (Forall_forall _ _) Hbl)).
  split.
  - apply Forall_forall. intros b Hin. pose proof (block_range Hwf b Hin). specialize (Hb b Hin). lia.
  - apply (wf_apart _ _ _ _ Hwf).
  - apply Forall_forall. intros b Hin. specialize (Hb b Hin). rewrite Hrd by lia. by apply (block_body Hwf).
  - intros i Hi. eapply links_frame; [by apply (wf_chain _ _ _ _ Hwf)|]. intros p Hp. unfold get4. rewrite Hrd; [done|].
    apply (chain_slot i) in Hp as [[Hp [j Ej]]|(b & Hin & <-)]; [lia| |done]. specialize (Hb b Hin). pose proof (elen_ge b.2). lia.
Qed.

Lemma ring_get_newest hs time r q e : r_q r = q ++ [e] → e_exp e ≠ 0 →
  (ring_get hs time (e_key e) r).2 = if negb (e_exp e =? U_NO_TTL) && (e_exp e <=? time) then None else Some (e_data e).
Proof.
  intros Eq Hx. unfold ring_get. rewrite Eq, reverse_snoc. cbn [search].
  rewrite Z.eqb_refl, bool_decide_eq_true_2 by done. destruct (Z.eqb_spec (e_exp e) 0); [done|]. cbn [negb andb].
  by destruct (_ && _).
Qed.

(** ** Directories *)

Lemma item_elen f : elen (item_entry f) = sizeof_entry + Z.of_nat (length (basename f.1)) + Z.of_nat (length f.2) + 1.
Proof. unfold elen. cbn [item_entry e_key e_data]. rewrite length_app. simpl. lia. Qed.

Lemma items_size files : ∀ n, 0 <= n → n + total (map item_entry files) < 2 ^ 32 →
  foldl (λ n (f : list Z * list Z),
    u32 (n + (sizeof_entry + Z.of_nat (length (basename f.1)) + Z.of_nat (length f.2) + 1))) n files =
  n + total (map item_entry files).
Proof.
  induction files as [|f files IH]; intros n Hn Hb; cbn [foldl map total foldr] in *; [lia|].
  fold (total (map item_entry files)) in *. rewrite <-item_elen. pose proof (elen_ge (item_entry f)).
  pose proof (total_nonneg (map item_entry files)). rewrite u32_small by lia. rewrite IH by lia. lia.
Qed.

(** The hash table that [init] makes is not larger than the one the size of the file was computed with. *)
Lemma dir_hsize S h1 h2 h3 : 0 <= S < 2 ^ 30 → getHSize S = Ok h1 → getHSize (S + h1) = Ok h2 →
  getHSize (S + h2 - 20) = Ok h3 → 0 < h2 <= 2 ^ 28 ∧ h3 <= h2.
Proof.
  intros HS E1 E2 E3. destruct (getHSize_ok S) as (k1 & E1' & Hk1 & H1 & _); [lia|].
  assert (h1 = 2 ^ k1) as -> by congruence. assert (P1 : 0 < 2 ^ k1 <= 2 ^ 28) by (split; [apply Z.pow_pos_nonneg; lia|apply Z.pow_le_mono_r; lia]).
  destruct (getHSize_ok (S + 2 ^ k1)) as (k2 & E2' & Hk2 & H2 & _); [lia|].
  assert (h2 = 2 ^ k2) as -> by congruence. assert (P2 : 4 <= 2 ^ k2 <= 2 ^ 28).
  { replace 4 with (2 ^ 2) by done. split; apply Z.pow_le_mono_r; lia. }
  destruct (Z.le_gt_cases 0 (S + 2 ^ k2 - 20)) as [Hpos|Hneg].
  2:{ split; [lia|]. unfold getHSize in E3. cbn [iterate] in E3. unfold getHSize_step at 1 in E3. change sizeof_entry with 16 in E3.
      destruct (Z.leb_spec 4 ((S + 2 ^ k2 - 20) / 16)); [Z.div_mod_to_equations; lia|]. simplify_eq. lia. }
  destruct (getHSize_ok (S + 2 ^ k2 - 20)) as (k3 & E3' & Hk3 & _ & H3); [lia|].
  assert (h3 = 2 ^ k3) as -> by congruence. split; [lia|]. apply Z.pow_le_mono_r; [lia|].
  destruct H3 as [-> |H3]; [lia|]. assert (Hd : 2 ^ k3 = 2 * 2 ^ (k3 - 1)) by (rewrite <-Z.pow_succ_r by lia; f_equal; lia).
  apply Z.lt_pred_le. destruct (Z.lt_ge_cases (k3 - 1) k2) as [|Hge]; [lia|].
  assert (Hge' : 2 ^ k2 <= 2 ^ (k3 - 1)) by (apply Z.pow_le_mono_r; lia). exfalso.
  destruct (Z.lt_ge_cases k1 k2) as [Hlt|Hle].
  - assert (Hd1 : 2 ^ (k1 + 1) <= 2 ^ k2) by (apply Z.pow_le_mono_r; lia). rewrite Z.pow_add_r in Hd1 by lia.
    Z.div_mod_to_equations. lia.
  - assert (Hd1 : 2 ^ k2 <= 2 ^ k1) by (apply Z.pow_le_mono_r; lia). Z.div_mod_to_equations. lia.
Qed.

(** The files fit the cache that is made for them. *)
Lemma open_dir_ok files now : Forall (λ f, f.2 ≠ []) files → files ≠ [] → total (map item_entry files) < 2 ^ 30 - 20 →
  ∃ c, open_dir files now = Ok c ∧ represents c (Ring (map item_entry files) 0 (size c)).
Proof.
  intros Hne Hf Ht. unfold open_dir, dir_size. rewrite (filter_all _ files Hne).
  pose proof (total_nonneg (map item_entry files)). rewrite items_size by lia.
  change sizeof_info with 20. rewrite u32_small by lia. set (S := 0 + total (map item_entry files) + 20).
  destruct (getHSize_ok S) as (k1 & E1 & Hk1 & _); [lia|]. rewrite E1. cbn [mbind res_bind].
  assert (P1 : 0 < 2 ^ k1 <= 2 ^ 28) by (split; [apply Z.pow_pos_nonneg; lia|apply Z.pow_le_mono_r; lia]).
  rewrite (u32_small (S + 2 ^ k1)) by lia.
  destruct (getHSize_ok (S + 2 ^ k1)) as (k2 & E2 & Hk2 & _); [lia|]. rewrite E2. cbn [mbind res_bind fst].
  assert (P2 : 4 <= 2 ^ k2 <= 2 ^ 28) by (replace 4 with (2 ^ 2) by done; split; apply Z.pow_le_mono_r; lia).
  rewrite (u32_small (S + 2 ^ k2)) by lia. unfold init. change sizeof_info with 20.
  rewrite u32_small by lia. destruct (getHSize_ok (S + 2 ^ k2 - 20)) as (k3 & E3 & Hk3 & _); [lia|]. rewrite E3. cbn [mbind res_bind].
  destruct (dir_hsize S _ _ _ ltac:(lia) E1 E2 E3) as [_ H3].
  assert (Hsz : sizes_ok (2 ^ k3) (S + 2 ^ k2 - 20)).
  { apply getHSize_sizes; [|done]. destruct files as [|f files]; [done|]. unfold S in *. cbn [map total foldr] in *.
    pose proof (elen_ge (item_entry f)). pose proof (total_nonneg (map item_entry files)). unfold total in *. lia. }
  replace (filter (λ d, d ≠ []) (map snd files)) with (map snd files).
  2:{ symmetry. apply filter_all. by apply Forall_fmap. }
  rewrite zip_fst_snd. rewrite drop_replicate. set (sz := S + 2 ^ k2 - 20) in *.
  destruct (add_all_fits now files
    (Cache (replicate (Z.to_nat (S + 2 ^ k2) - Z.to_nat 20) 0) sz (2 ^ k3) (2 ^ k3) sz sz now 0) [])
    as (c & E & Hrep & (F1 & _)).
  - apply empty_represents; [exact Hsz|]. f_equal. cbn [size]. unfold sz. lia.
  - cbn [hsize size total foldr]. fold (total (map item_entry files)). unfold sz, S. lia.
  - exists c. split; [exact E|]. cbn [size app] in Hrep. rewrite F1. exact Hrep.
Qed.

(** ** Properties *)

(** C21: the cache implements a queue of entries, for every sequence of additions and look-ups on a new
    file: the loops end, no access is outside of the memory, the look-ups give what the queue gives, and
    the program ends exactly when an entry does not fit the cache. *)
Theorem cache_refines_ring ops sz now :
  100 <= sz < 2 ^ 31 → Forall op_ok ops →
  ∃ hs, getHSize (sz - 20) = Ok hs ∧
    match ring_run (sz - 20) hs now ops (Ring [] 0 (sz - 20)) [] with
    | Some (r, answers) =>
        ∃ c, (c ← open_cache [] sz 0 now; run ops c []) = Ok (c, answers) ∧ represents c r
    | None => (c ← open_cache [] sz 0 now; run ops c []) = Fail Aborted
    end.
Proof.
  intros Hs Hok. destruct (new_cache sz now Hs) as (c & E & Hrep & Es & Est & Eh). exists (hsize c). split; [done|].
  rewrite E. cbn [mbind res_bind]. pose proof (run_ok ops c _ [] Hrep Hok) as Hr. rewrite Es, Est in Hr.
  destruct (ring_run _ _ _ _ _ _) as [[r a]|]; [|done]. destruct Hr as (c' & ? & ? & _). by exists c'.
Qed.

Lemma cache_refines_ring_witness :
  ∃ hs, getHSize 180 = Ok hs ∧
    match ring_run 180 hs 7 [OAdd 7 (BS "a") (replicate 40 65) 0; OAdd 8 (BS "b") (replicate 40 66) 5; OGet 9 (BS "b");
      OAdd 9 (BS "c") (replicate 60 67) 0; OGet 10 (BS "a"); OGet 13 (BS "b")] (Ring [] 0 180) [] with
    | Some (r, answers) =>
        ∃ c, (c ← open_cache [] 200 0 7; run [OAdd 7 (BS "a") (replicate 40 65) 0; OAdd 8 (BS "b") (replicate 40 66) 5; OGet 9 (BS "b");
      OAdd 9 (BS "c") (replicate 60 67) 0; OGet 10 (BS "a"); OGet 13 (BS "b")] c []) = Ok (c, answers) ∧ represents c r
    | None => (c ← open_cache [] 200 0 7; run [OAdd 7 (BS "a") (replicate 40 65) 0; OAdd 8 (BS "b") (replicate 40 66) 5; OGet 9 (BS "b");
      OAdd 9 (BS "c") (replicate 60 67) 0; OGet 10 (BS "a"); OGet 13 (BS "b")] c []) = Fail Aborted
    end.
Proof.
  apply (cache_refines_ring [OAdd 7 (BS "a") (replicate 40 65) 0; OAdd 8 (BS "b") (replicate 40 66) 5; OGet 9 (BS "b");
      OAdd 9 (BS "c") (replicate 60 67) 0; OGet 10 (BS "a"); OGet 13 (BS "b")] 200 7); [lia|].
  apply (bool_decide_eq_true_1 _). vm_compute. reflexivity.
Defined.

(** On a cache in any reachable state, an entry that was just added is found, until its time to live is
    over (never, when that is 0). *)
Theorem cache_get_added ops sz now time key data _ttl time' c answers c1 :
  100 <= sz < 2 ^ 31 → Forall op_ok (OAdd time key data _ttl :: ops) →
  (c ← open_cache [] sz 0 now; run ops c []) = Ok (c, answers) →
  0 <= time - now → 0 <= _ttl → time - now + _ttl < 2 ^ 32 - 1 → 0 <= time' - now < 2 ^ 32 →
  add_data time key data _ttl c = Ok c1 →
  ∃ c2, get time' key c1 = Ok (c2, if (_ttl =? 0) || (time' <? time + _ttl) then Some data else None).
Proof.
  intros Hs Hok Erun Ht0 Httl Ht Ht' Eadd. apply Forall_cons in Hok as [Ho Hok].
  destruct (new_cache sz now Hs) as (c0 & E0 & Hrep0 & Es & Est & _). rewrite E0 in Erun. cbn [mbind res_bind] in Erun.
  pose proof (run_ok ops c0 _ [] Hrep0 Hok) as Hr. destruct (ring_run _ _ _ _ _ _) as [[r a]|]; [|congruence].
  destruct Hr as (c' & E' & Hrep & Hfr). assert (c' = c) as -> by congruence. destruct Hfr as (_ & _ & F3 & _).
  pose proof (add_data_ok time key data _ttl c r Hrep Ho) as Hadd. cbn zeta in Hadd.
  set (e := Entry key data (expire_time time _ttl c)) in *.
  destruct (ring_add _ _ e r) as [r1|] eqn:Er; [|congruence]. destruct Hadd as (c1' & E1 & Hrep1 & (_ & _ & F1 & _)).
  assert (c1' = c1) as -> by congruence. apply ring_add_suffix in Er as [n En].
  destruct (get_ok c1 r1 time' key Hrep1) as (c2 & -> & _). exists c2. do 2 f_equal.
  assert (Ee : e_exp e = if _ttl =? 0 then U_NO_TTL else time - now + _ttl).
  { unfold e, expire_time, getTime. cbn [e_exp]. rewrite F3, Est. destruct (Z.eqb_spec _ttl 0); [done|]. cbn [negb].
    rewrite (u32_small (time - now)) by lia. rewrite u32_small by lia. done. }
  rewrite (ring_get_newest _ _ r1 _ e En) by (rewrite Ee; unfold U_NO_TTL; destruct (Z.eqb_spec _ttl 0); lia).
  rewrite Ee. unfold getTime, U_NO_TTL. rewrite F1, F3, Est, u32_small by lia.
  destruct (Z.eqb_spec _ttl 0); cbn [orb]; [done|]. zcases; (lia || done).
Qed.

Lemma cache_get_added_witness :
  match (c ← open_cache [] 200 0 7; run [OAdd 7 (BS "a") (BS "x") 0] c []) with
  | Ok (c, _) =>
      match add_data 9 (BS "a") (BS "yz") 5 c with
      | Ok c1 => (∃ c2, get 13 (BS "a") c1 = Ok (c2, Some (BS "yz"))) ∧ (∃ c2, get 14 (BS "a") c1 = Ok (c2, None))
      | Fail _ => False
      end
  | Fail _ => False
  end.
Proof.
  destruct (c ← open_cache [] 200 0 7; run [OAdd 7 (BS "a") (BS "x") 0] c []) as [[c a]|] eqn:E; [|by vm_compute in E].
  destruct (add_data 9 (BS "a") (BS "yz") 5 c) as [c1|] eqn:E1.
  - assert (Hok : Forall op_ok [OAdd 9 (BS "a") (BS "yz") 5; OAdd 7 (BS "a") (BS "x") 0])
      by (apply (bool_decide_eq_true_1 _); vm_compute; reflexivity).
    split.
    + exact (cache_get_added _ 200 7 9 (BS "a") (BS "yz") 5 13 c a c1 ltac:(lia) Hok E
        ltac:(lia) ltac:(lia) ltac:(lia) ltac:(lia) E1).
    + exact (cache_get_added _ 200 7 9 (BS "a") (BS "yz") 5 14 c a c1 ltac:(lia) Hok E
        ltac:(lia) ltac:(lia) ltac:(lia) ltac:(lia) E1).
  - vm_compute in E. injection E as <- <-. by vm_compute in E1.
Defined.

(** C22: what [operator<<] writes, [operator>>] reads back: a new cache of the same size gets the keys and data of all
    entries, in their order, and writes the same text. The times of expiry are lost: the entries read never
    expire. The keys may have 1000 characters, the size of the array they are read into. *)
Theorem cache_dump_load ops sz now now' c answers :
  100 <= sz < 2 ^ 31 → Forall op_ok ops → Forall short_key ops →
  (c ← open_cache [] sz 0 now; run ops c []) = Ok (c, answers) →
  ∃ r text c', represents c r ∧ write_cache c = Ok text ∧
    (c ← open_cache [] sz 0 now'; read_cache now' text c) = Ok ([], c') ∧
    represents c' (Ring (map kept (r_q r)) 0 (sz - 20)) ∧ write_cache c' = Ok text.
Proof.
  intros Hs Hok Hsk Erun. destruct (new_cache sz now Hs) as (c0 & E0 & Hrep0 & Es & Est & Eh).
  rewrite E0 in Erun. cbn [mbind res_bind] in Erun. pose proof (run_ok ops c0 _ [] Hrep0 Hok) as Hr.
  destruct (ring_run _ _ _ _ _ _) as [[r a]|] eqn:Er; [|congruence].
  destruct Hr as (c' & E' & Hrep & Hfr). assert (c' = c) as -> by congruence. destruct Hfr as (F1 & F2 & _ & _).
  apply ring_run_keys in Er; [|done|constructor]. pose proof (represents_bounds _ _ Hrep) as (Hh & _ & _ & _ & _ & Htot).
  destruct (new_cache sz now' Hs) as (c1 & E1 & Hrep1 & Es1 & Est1 & Eh1).
  assert (Ehh : hsize c1 = hsize c0) by congruence.
  assert (Hlen : (length (r_q r) < S (length (dump_text (r_q r))))%nat).
  { unfold dump_text. rewrite length_app. cut (length (r_q r) ≤ length (concat (map entry_text (r_q r))))%nat; [lia|].
    clear. induction (r_q r) as [|e q IH]; [done|]. cbn [map concat length]. rewrite length_app. unfold entry_text at 1. simpl. lia. }
  destruct (read_entries now' (r_q r) (S (length (dump_text (r_q r)))) c1 [] Hrep1 Er) as (c2 & E2 & Hrep2 & _);
    [simpl; lia|exact Hlen|].
  exists r, (dump_text (r_q r)), c2. rewrite Es1 in Hrep2. cbn [app] in Hrep2. splits; try done.
  - by apply write_cache_ok.
  - rewrite E1. exact E2.
  - rewrite (write_cache_ok c2 _ Hrep2). cbn [r_q]. f_equal. unfold dump_text. do 2 f_equal.
    rewrite map_map. by apply map_ext.
Qed.

Lemma cache_dump_load_witness :
  match (c ← open_cache [] 200 0 7; run [OAdd 7 (BS "a") (BS "x") 0; OAdd 7 (BS "key 2") (BS "+1,1:") 5] c []) with
  | Ok (c, _) =>
      ∃ r text c', represents c r ∧ write_cache c = Ok text ∧
        (c ← open_cache [] 200 0 9; read_cache 9 text c) = Ok ([], c') ∧
        represents c' (Ring (map kept (r_q r)) 0 180) ∧ write_cache c' = Ok text
  | Fail _ => False
  end.
Proof.
  destruct (c ← open_cache [] 200 0 7; run [OAdd 7 (BS "a") (BS "x") 0; OAdd 7 (BS "key 2") (BS "+1,1:") 5] c [])
    as [[c a]|] eqn:E; [|by vm_compute in E].
  assert (H1 : Forall op_ok [OAdd 7 (BS "a") (BS "x") 0; OAdd 7 (BS "key 2") (BS "+1,1:") 5])
    by (apply (bool_decide_eq_true_1 _); vm_compute; reflexivity).
  assert (H2 : Forall short_key [OAdd 7 (BS "a") (BS "x") 0; OAdd 7 (BS "key 2") (BS "+1,1:") 5])
    by (apply (bool_decide_eq_true_1 _); vm_compute; reflexivity).
  exact (cache_dump_load _ 200 7 9 c a ltac:(lia) H1 H2 E).
Defined.

(** A look-up that finds the newest entry of a key expired takes it away, so that the next look-up finds the
    entry the key had before, whatever that was replaced by. *)
Theorem cache_stale_entry sz now key old new _ttl time :
  100 <= sz < 2 ^ 31 → 32 + 2 * Z.of_nat (length key) + Z.of_nat (length old) + Z.of_nat (length new) <= (sz - 20) / 2 →
  0 < _ttl < 2 ^ 32 - 1 → _ttl <= time < 2 ^ 32 →
  ∃ c, (c ← open_cache [] sz 0 now;
        run [OAdd now key old 0; OAdd now key new _ttl; OGet (now + time) key; OGet (now + time) key] c []) =
    Ok (c, [None; Some old]).
Proof.
  intros Hs Hl Httl Ht. destruct (new_cache sz now Hs) as (c0 & E0 & Hrep0 & Es & Est & Eh). rewrite E0. cbn [mbind res_bind].
  destruct (getHSize_ok (sz - 20)) as (k & Ek & Hk & _ & Hor); [lia|].
  assert (Hhs : hsize c0 <= (sz - 20) / 2).
  { assert (hsize c0 = 2 ^ k) as -> by congruence. destruct Hor as [-> |]; Z.div_mod_to_equations; lia. }
  set (e1 := Entry key old U_NO_TTL). set (e2 := Entry key new _ttl).
  assert (Hok : Forall op_ok [OAdd now key old 0; OAdd now key new _ttl; OGet (now + time) key; OGet (now + time) key]).
  { repeat constructor; cbn [op_ok]; Z.div_mod_to_equations; lia. }
  pose proof (run_ok _ c0 _ [] Hrep0 Hok) as Hr. rewrite Es, Est in Hr. cbn [ring_run Z.eqb] in Hr. fold e1 in Hr.
  assert (L1 : elen e1 = 16 + Z.of_nat (length key) + Z.of_nat (length old)) by done.
  assert (L2 : elen e2 = 16 + Z.of_nat (length key) + Z.of_nat (length new)) by done.
  rewrite ring_add_fits in Hr by (cbn [total foldr]; Z.div_mod_to_equations; lia). cbn [mbind option_bind app] in Hr.
  replace (if _ttl =? 0 then U_NO_TTL else u32 (u32 (now - now) + _ttl)) with _ttl in Hr.
  2:{ destruct (Z.eqb_spec _ttl 0); [lia|]. rewrite Z.sub_diag, (u32_small 0), u32_small by lia. lia. }
  fold e2 in Hr. rewrite ring_add_fits in Hr by (cbn [total foldr]; Z.div_mod_to_equations; lia).
  cbn [mbind option_bind app] in Hr. replace (u32 (now + time - now)) with time in Hr by (rewrite u32_small; lia).
  assert (Eget1 : ring_get (hsize c0) time key (Ring [e1; e2] 0 (sz - 20)) = (Ring [e1; expired e2] 0 (sz - 20), None)).
  { unfold ring_get. cbn [r_q r_old r_top]. change (reverse [e1; e2]) with [e2; e1]. cbn [search e_key e1 e2 e_exp].
    rewrite Z.eqb_refl, bool_decide_eq_true_2 by done. destruct (Z.eqb_spec _ttl 0); [lia|]. cbn [negb andb e_exp].
    unfold U_NO_TTL. change (e_exp e2) with _ttl. destruct (Z.eqb_spec _ttl (2 ^ 32 - 1)); [lia|]. destruct (Z.leb_spec _ttl time); [done|lia]. }
  assert (Eget2 : ring_get (hsize c0) time key (Ring [e1; expired e2] 0 (sz - 20)) = (Ring [e1; expired e2] 0 (sz - 20), Some old)).
  { unfold ring_get. cbn [r_q r_old r_top]. change (reverse [e1; expired e2]) with [expired e2; e1].
    cbn [search e_key e1 e2 e_exp expired]. rewrite (Z.eqb_refl (bucket _ _)), bool_decide_eq_true_2 by done. done. }
  rewrite Eget1 in Hr. cbn [app] in Hr. rewrite Eget2 in Hr. destruct Hr as (c & E & _). by exists c.
Qed.

Lemma cache_stale_entry_witness :
  ∃ c, (c ← open_cache [] 200 0 7;
        run [OAdd 7 (BS "k") (BS "old") 0; OAdd 7 (BS "k") (BS "new") 5; OGet (7 + 5) (BS "k"); OGet (7 + 5) (BS "k")] c []) =
    Ok (c, [None; Some (BS "old")]).
Proof.
  exact (cache_stale_entry 200 7 (BS "k") (BS "old") (BS "new") 5 5 ltac:(lia) ltac:(vm_compute; discriminate)
    ltac:(lia) ltac:(lia)).
Defined.

(** The cache made for the files of a directory has room for all of them, and gives the contents of every one
    under its name, when no file is empty, the names are distinct and no more than the 101 entries that a look-up
    goes through. With an empty file, the contents that follow are stored under the names before
    theirs. *)
Theorem open_dir_contents files now :
  Forall (λ f, f.2 ≠ []) files → NoDup (map (λ f, basename f.1) files) → (0 < length files ≤ 101)%nat →
  total (map item_entry files) < 2 ^ 30 - 20 →
  (∃ c, open_dir files now = Ok c ∧
    ∀ path content time, (path, content) ∈ files →
      ∃ c', getContent time (basename path) c = Ok (c', content)) ∧
  (c ← open_dir [(BS "dir/a", []); (BS "dir/b", BS "text")] now; r ← getContent now (BS "a") c; Ok r.2) = Ok (BS "text") ∧
  (c ← open_dir [(BS "dir/a", []); (BS "dir/b", BS "text")] now; r ← get now (BS "b") c; Ok r.2) = Ok None.
Proof.
  intros Hne Hnd Hl Ht. split; [|split; vm_compute; reflexivity].
  destruct (open_dir_ok files now Hne) as (c & E & Hrep); [by destruct files; [simpl in Hl; lia|]|done|].
  exists c. split; [done|]. intros path content time Hin. eapply getContent_items; [exact Hrep|done|lia|done].
Qed.

Lemma open_dir_contents_witness :
  ∃ c, open_dir [(BS "d/a", BS "one"); (BS "d/b", BS "two")] 7 = Ok c ∧
    ∀ path content time, (path, content) ∈ [(BS "d/a", BS "one"); (BS "d/b", BS "two")] →
      ∃ c', getContent time (basename path) c = Ok (c', content).
Proof.
  refine (proj1 (open_dir_contents [(BS "d/a", BS "one"); (BS "d/b", BS "two")] 7 _ _ _ _)).
  - apply (bool_decide_eq_true_1 _). vm_compute. reflexivity.
  - apply (bool_decide_eq_true_1 _). vm_compute. reflexivity.
  - simpl. lia.
  - vm_compute. reflexivity.
Defined.

(** [loadContentOf] adds the files that are not empty and cuts the memory off behind the last entry: every
    entry, old and new, is still there. When the writer had gone back to the start, the old entries are cut
    off as well, but not their links: a look-up then reads behind the end. *)
Theorem loadContentOf_correct c q files now :
  represents c (Ring q 0 (size c)) → Forall (λ f, f.2 ≠ []) files →
  hsize c + total q + total (map item_entry files) <= size c →
  (∃ c', loadContentOf now files true c = Ok c' ∧ size c' = hsize c + total (q ++ map item_entry files) ∧
    represents c' (Ring (q ++ map item_entry files) 0 (size c'))) ∧
  (c ← open_cache [] 200 0 7;
   c ← add_data 7 (BS "a") (replicate 40 65) 0 c; c ← add_data 7 (BS "b") (replicate 40 66) 0 c;
   c ← add_data 7 (BS "c") (replicate 40 67) 0 c; c ← loadContentOf 7 [] true c; get 7 (BS "b") c) = Fail OutOfBounds.
Proof.
  intros Hrep Hne Hfit. split; [|vm_compute; reflexivity]. unfold loadContentOf. rewrite (filter_all _ files Hne).
  destruct (add_all_fits now files c q Hrep Hfit) as (c1 & E & Hrep1 & (F1 & F2 & F3 & F4)). rewrite E. cbn [mbind res_bind].
  rewrite <-F1 in Hrep1. pose proof (rep_writer _ _ Hrep1) as Hw. unfold news in Hw. cbn [r_q r_old] in Hw. rewrite drop_0 in Hw.
  rewrite <-F2. set (q' := q ++ map item_entry files) in *. rewrite andb_true_r.
  pose proof (represents_bounds _ _ Hrep1) as (Hh & Hhw & Hwo & Hou & Hus & _). pose proof (rep_length _ _ Hrep1) as Hlen.
  destruct (Z.ltb_spec (writer c1) (size c1)) as [Hlt|Hge]; [|by exists c1; splits; [|lia|]].
  eexists. split; [done|]. cbn [size]. split; [done|]. destruct Hrep1 as [Hsz _ _ _ _ _ _ _ Hwf].
  destruct Hsz as (S1 & S2 & S3).
  split; unfold olds, news, blocks, olds, news; cbn [size hsize writer oldest unused x r_q r_old r_top take drop place total foldr app];
    rewrite ?drop_0; try done; try lia.
  - split; [done|]. split; [done|lia].
  - rewrite length_take. lia.
  - rewrite take_0. simpl. lia.
  - rewrite take_0. unfold blocks, olds, news in Hwf. cbn [r_q r_old] in Hwf. rewrite take_0, drop_0 in Hwf.
    eapply wf_truncate; [exact Hwf|lia|done|]. apply Forall_forall. intros b Hb. cbn [place app] in Hb.
    apply place_range in Hb. lia.
Qed.

Lemma loadContentOf_correct_witness :
  match open_cache [] 200 0 7 with
  | Ok c =>
      ∃ c', loadContentOf 7 [(BS "d/a", BS "one")] true c = Ok c' ∧
        size c' = hsize c + total [item_entry (BS "d/a", BS "one")] ∧
        represents c' (Ring [item_entry (BS "d/a", BS "one")] 0 (size c'))
  | Fail _ => False
  end.
Proof.
  destruct (new_cache 200 7 ltac:(lia)) as (c & -> & Hrep & Es & _ & Eh).
  assert (E16 : getHSize 180 = Ok 16) by (vm_compute; reflexivity). change (200 - 20) with 180 in *.
  assert (Ehs : hsize c = 16) by congruence.
  refine (proj1 (loadContentOf_correct c [] [(BS "d/a", BS "one")] 7 Hrep _ _)).
  - apply (bool_decide_eq_true_1 _). vm_compute. reflexivity.
  - rewrite Ehs, Es. vm_compute. discriminate.
Defined.
