(* ===== verification/Probe.v ===== *)
(** * Open tables with linear probing

    The theory the constant databases of [Cdb] use, on lists: an entry is put into the first empty slot from
    its home on, around the end of the table, and nothing is removed. Entries with the same home are then
    found in the order they were put in, before the first empty slot. *)

From S2P Require Import Prelude.

(** The entries before the first empty slot. *)
Fixpoint until_none {A} (l : list (option A)) : list A :=
  match l with Some a :: l => a :: until_none l | _ => [] end.

Lemma until_none_app {A} (l l' : list (option A)) :
  until_none (l ++ l') = if decide (Forall is_Some l) then until_none l ++ until_none l' else until_none l.
Proof.
  induction l as [|[a|] l IH]; cbn [app until_none].
  - by destruct (decide _) as [|[]].
  - rewrite IH. destruct (decide (Forall is_Some l)) as [H|H], (decide (Forall is_Some (Some a :: l))) as [H'|H']; try done.
    + destruct H'. by constructor.
    + by apply Forall_cons in H' as [_ H'].
  - destruct (decide (Forall is_Some (None :: l))) as [H|H]; [|done]. by apply Forall_cons in H as [[? ?] _].
Qed.

Lemma until_none_all {A} (l : list (option A)) : Forall is_Some l → until_none l = omap id l.
Proof. induction 1 as [|[a|] l [? [= ->]] _ IH]; [done|]. cbn. by rewrite IH. Qed.

Lemma until_none_prefix {A} (l : list (option A)) : until_none l `prefix_of` omap id l.
Proof.
  induction l as [|[a|] l [k IH]]; [by exists []| |by exists (omap id l)].
  exists k. cbn. f_equal. exact IH.
Qed.

Lemma until_none_full {A} (l : list (option A)) : length (until_none l) = length l → Forall is_Some l.
Proof.
  induction l as [|[a|] l IH]; cbn; [done| |done]. intros [= E]. constructor; [by eexists|by apply IH].
Qed.

Lemma until_none_length {A} (l : list (option A)) : (length (until_none l) ≤ length l)%nat.
Proof. induction l as [|[a|] l IH]; cbn; lia. Qed.

(** The first empty slot. *)
Lemma until_none_stop {A} (l : list (option A)) :
  (length (until_none l) < length l)%nat →
  ∃ pre post, l = pre ++ None :: post ∧ Forall is_Some pre ∧ length pre = length (until_none l).
Proof.
  induction l as [|[a|] l IH]; cbn; intros H; [lia| |].
  - destruct IH as (pre & post & -> & Hp & Hl); [lia|]. exists (Some a :: pre), post. cbn. rewrite Hl.
    splits; [done| |done]. constructor; [by eexists|done].
  - exists [], l. done.
Qed.

Lemma omap_length_le {A} (l : list (option A)) : (length (omap id l) ≤ length l)%nat.
Proof. induction l as [|[a|] l IH]; cbn; lia. Qed.

Lemma omap_full {A} (l : list (option A)) : Forall is_Some l → length (omap id l) = length l.
Proof. induction 1 as [|[a|] l [? [= ->]] _ IH]; cbn; [done|]. by rewrite IH. Qed.

Section Probing.
Context {A : Type} (home : A → nat).

Definition at_home (s : nat) (l : list A) : list A := filter (λ a, home a = s) l.

(** The table [L] holds the entries [l]: seen from the slot [s] on, the entries with that home are those of
    [l], in their order, and none of them is behind an empty slot. *)
Record probing (L : list (option A)) (l : list A) : Prop := {
  pr_items : ∀ s, (s < length L)%nat → at_home s (omap id (rotate s L)) = at_home s l;
  pr_reach : ∀ s, (s < length L)%nat → at_home s (until_none (rotate s L)) = at_home s l;
  pr_count : length (omap id L) = length l }.

Lemma probing_empty n : probing (replicate n None) [].
Proof.
  assert (E : omap id (replicate n (@None A)) = []) by (induction n; done).
  split; [| |by rewrite E]; intros s _; rewrite rotate_replicate; [by rewrite E|by destruct n].
Qed.

Lemma rotate_insert_split s (L : list (option A)) q x :
  (q < length L)%nat → L !! q = Some None →
  ∃ pre post, rotate s L = pre ++ None :: post ∧ rotate s (<[q := x]> L) = pre ++ x :: post ∧
    length pre = rotate_nat_sub s q (length L).
Proof.
  intros Hq HL. rewrite rotate_insert_r by done. set (k := rotate_nat_sub s q (length L)).
  assert (Hk : rotate s L !! k = Some None) by (unfold k; by rewrite lookup_rotate_l).
  apply list_elem_of_split_length in Hk as (pre & post & E & El). exists pre, post.
  rewrite E. splits; [done| |done]. by rewrite El, insert_app_r_alt, Nat.sub_diag by lia.
Qed.

Lemma omap_middle (pre post : list (option A)) a :
  omap id (pre ++ Some a :: post) = omap id pre ++ a :: omap id post.
Proof. by rewrite omap_app. Qed.

Lemma omap_gap (pre post : list (option A)) : omap id (pre ++ None :: post) = omap id pre ++ omap id post.
Proof. by rewrite omap_app. Qed.

Lemma omap_rotate_length s (L : list (option A)) : length (omap id (rotate s L)) = length (omap id L).
Proof.
  unfold rotate. rewrite omap_app, length_app. rewrite <-(take_drop (s `mod` length L) L) at 5.
  rewrite omap_app, length_app. lia.
Qed.

(** The slot an entry is put into. *)
Definition free_slot (s : nat) (L : list (option A)) : nat :=
  rotate_nat_add s (length (until_none (rotate s L))) (length L).

Lemma free_slot_empty s L l : probing L l → (s < length L)%nat → (length l < length L)%nat →
  (length (until_none (rotate s L)) < length L)%nat ∧ (free_slot s L < length L)%nat ∧
  L !! free_slot s L = Some None.
Proof.
  intros Hp Hs Hl. assert (Hlt : (length (until_none (rotate s L)) < length L)%nat).
  { pose proof (until_none_length (rotate s L)) as Hle. rewrite length_rotate in Hle.
    destruct (decide (length (until_none (rotate s L)) = length L)) as [E|]; [|lia].
    assert (Hall : Forall is_Some (rotate s L)) by (apply until_none_full; by rewrite E, length_rotate).
    apply omap_full in Hall. rewrite omap_rotate_length, (pr_count _ _ Hp), length_rotate in Hall. lia. }
  split; [done|]. assert (Hf : (free_slot s L < length L)%nat) by (apply rotate_nat_add_lt; lia).
  split; [done|]. unfold free_slot. rewrite <-lookup_rotate_r by done.
  destruct (until_none_stop (rotate s L)) as (pre & post & E & _ & El); [by rewrite length_rotate|].
  rewrite <-El, E. by apply list_lookup_middle.
Qed.

Lemma at_home_nil s l l' : at_home s (l ++ l') = at_home s l → at_home s l' = [].
Proof.
  unfold at_home. rewrite filter_app. intros E. rewrite <-(app_nil_r (filter _ l)) in E at 2.
  by apply app_inv_head in E.
Qed.

Lemma at_home_prefix_nil s l l' : l `prefix_of` l' → at_home s l' = [] → at_home s l = [].
Proof. intros [k ->]. unfold at_home. rewrite filter_app. by intros [? _]%app_nil. Qed.

Lemma probing_insert L l a :
  probing L l → (home a < length L)%nat → (length l < length L)%nat →
  probing (<[free_slot (home a) L := Some a]> L) (l ++ [a]).
Proof.
  intros Hp Hh Hl. destruct (free_slot_empty (home a) L l Hp Hh Hl) as (Hlt & Hf & HL).
  set (q := free_slot (home a) L) in *.
  assert (Hsplit : ∀ s, (s < length L)%nat → ∃ pre post, rotate s L = pre ++ None :: post ∧
      rotate s (<[q := Some a]> L) = pre ++ Some a :: post ∧ (home a = s → Forall is_Some pre)).
  { intros s Hs. destruct (rotate_insert_split s L q (Some a) Hf HL) as (pre & post & E & E' & El).
    exists pre, post. splits; [done..|]. intros <-. unfold q, free_slot in El.
    rewrite rotate_nat_sub_add in El by done.
    destruct (until_none_stop (rotate (home a) L)) as (pre' & post' & F & Fs & Fl); [by rewrite length_rotate|].
    rewrite E in F. apply app_inj_1 in F as [-> _]; [done|]. rewrite E in Fl. congruence. }
  split.
  - rewrite length_insert. intros s Hs. destruct (Hsplit s Hs) as (pre & post & E & -> & Hpre).
    pose proof (pr_items _ _ Hp s Hs) as H1. pose proof (pr_reach _ _ Hp s Hs) as H2. rewrite E in H1, H2.
    rewrite omap_gap in H1. rewrite omap_middle. unfold at_home in *.
    rewrite filter_app in H1. rewrite filter_app, filter_cons, (filter_app _ l). cbn [filter list_filter].
    destruct (decide (home a = s)) as [Ea|Ea]; [|by rewrite H1, app_nil_r].
    specialize (Hpre Ea). rewrite until_none_app, decide_True in H2 by done. cbn [until_none] in H2.
    rewrite app_nil_r, until_none_all in H2 by done. rewrite <-H1 in H2.
    rewrite <-(app_nil_r (filter _ (omap id pre))) in H2 at 1. apply app_inv_head in H2. rewrite <-H1, <-H2.
    by rewrite app_nil_r.
  - rewrite length_insert. intros s Hs. destruct (Hsplit s Hs) as (pre & post & E & -> & Hpre).
    pose proof (pr_items _ _ Hp s Hs) as H1. pose proof (pr_reach _ _ Hp s Hs) as H2. rewrite E in H1, H2.
    rewrite omap_gap in H1. rewrite until_none_app in H2. rewrite until_none_app. cbn [until_none] in *.
    destruct (decide (Forall is_Some pre)) as [Hall|Hno].
    + rewrite app_nil_r in H2. rewrite until_none_all in * by done. rewrite <-H2 in H1. apply at_home_nil in H1.
      apply (at_home_prefix_nil s (until_none post)) in H1; [|apply until_none_prefix].
      unfold at_home in *. rewrite !filter_app, filter_cons, H1, H2. cbn [filter list_filter].
      by destruct (decide (home a = s)).
    + rewrite H2. unfold at_home. rewrite filter_app, filter_cons. destruct (decide (home a = s)) as [Ea|]; [|by rewrite app_nil_r].
      by destruct (Hno (Hpre Ea)).
  - pose proof (pr_count _ _ Hp) as Hc. destruct (rotate_insert_split 0 L q (Some a) Hf HL) as (pre & post & E & E' & _).
    rewrite <-(omap_rotate_length 0), E, omap_gap, length_app in Hc.
    rewrite <-(omap_rotate_length 0), E', omap_middle, !length_app. cbn [length]. lia.
Qed.

(** A table that holds all the entries there are. *)
Lemma probing_elem L l a : probing L l → Some a ∈ L → (home a < length L)%nat → a ∈ l.
Proof.
  intros Hp Ha Hh. assert (H : a ∈ at_home (home a) (omap id (rotate (home a) L))).
  { unfold at_home. apply list_elem_of_filter. split; [done|]. apply list_elem_of_omap. exists (Some a).
    split; [|done]. by apply elem_of_rotate. }
  rewrite (pr_items _ _ Hp) in H by done. unfold at_home in H. by apply list_elem_of_filter in H as [_ H].
Qed.
End Probing.
