(* ===== verification/Cdb.v ===== *)
(** * Constant databases ([UCDB], [src/ulib/db/cdb.cpp], [include/ulib/db/cdb.h])

    A mapped file: 512 pointers to hash tables, the records one behind the other, the hash tables. Pointers
    into the mapping are offsets in it. The branches for a file that could not be mapped, which read it with
    [pread], and the assertions of the debug build are not modelled. *)

From S2P Require Import Prelude CType Memory Hash Strftime HashMap Sort Search Probe.
From S2P Require Cache.

(** The members a search sets; [data] is the place of the data found and its length. *)
Record cursor := Cursor {
  hp : Z; slot : Z; nslot : Z; loop : Z; khash : Z; key : list Z; data : Z * Z }.

Record cdb := Cdb {
  file : list Z; nrecord : Z; start_hash_table_slot : Z; ignore_case : bool; hr : Z; cur : cursor }.

Definition set_file (m : list Z) (c : cdb) : cdb :=
  Cdb m (nrecord c) (start_hash_table_slot c) (ignore_case c) (hr c) (cur c).
Definition set_cur (k : cursor) (c : cdb) : cdb :=
  Cdb (file c) (nrecord c) (start_hash_table_slot c) (ignore_case c) (hr c) k.
Definition set_hr (p : Z) (c : cdb) : cdb :=
  Cdb (file c) (nrecord c) (start_hash_table_slot c) (ignore_case c) p (cur c).
Definition set_data (d : Z * Z) (c : cdb) : cdb :=
  let k := cur c in set_cur (Cursor (hp k) (slot k) (nslot k) (loop k) (khash k) (key k) d) c.
Definition set_loop (l : Z) (c : cdb) : cdb :=
  let k := cur c in set_cur (Cursor (hp k) (slot k) (nslot k) l (khash k) (key k) (data k)) c.
Definition set_hp (p : Z) (c : cdb) : cdb :=
  let k := cur c in set_cur (Cursor p (slot k) (nslot k) (loop k) (khash k) (key k) (data k)) c.
Definition set_slot (p n : Z) (c : cdb) : cdb :=
  let k := cur c in set_cur (Cursor (hp k) p n (loop k) (khash k) (key k) (data k)) c.

Definition CDB_NUM_HASH_TABLE_POINTER : Z := 512.
Definition sizeof_pointer : Z := 8.
Definition sizeof_header : Z := 8.
Definition sizeof_slot : Z := 8.

(** [start()] as an offset. *)
Definition start : Z := CDB_NUM_HASH_TABLE_POINTER * sizeof_pointer.

Definition sizeFor (_nrecord : Z) : Z :=
  u32 (CDB_NUM_HASH_TABLE_POINTER * sizeof_pointer + _nrecord * (sizeof_header + sizeof_slot)).

(** [open] on a file with these contents. *)
Definition open (m : list Z) (c : cdb) : res cdb :=
  let st_size := Z.of_nat (length m) in
  if st_size =? 0 then Ok (Cdb m 0 0 (ignore_case c) (hr c) (cur c))
  else
    s ← get4 m 0;
    Ok (Cdb m (u32 (u64 (st_size - s) / sizeof_slot)) s (ignore_case c) (hr c) (cur c)).

Definition cdb_hash (c : cdb) (t : list Z) : res Z := u_cdb_hash t (length t) (ignore_case c).

(** [setKey(_key)] and [cdb_hash()]. *)
Definition setKey (_key : list Z) (c : cdb) : res cdb :=
  h ← cdb_hash c _key;
  let k := cur c in
  Ok (set_cur (Cursor (hp k) (slot k) (nslot k) (loop k) h _key (data k)) c).

(** ** Searching *)

(** [u_equal(s1, s2, n, ignore_case) == 0] for two strings of [n] characters. *)
Definition u_equal (ignore_case : bool) (s1 s2 : list Z) : bool :=
  if ignore_case then same_nocase s1 s2 else bool_decide (s1 = s2).

Definition match_ (c : cdb) : res (cdb * bool) :=
  let dsize := Z.of_nat (length (key (cur c))) in
  dlen ← get4 (file c) (hr c + 4);
  let c := set_hr (hr c + sizeof_header) c in
  s ← mrd (file c) (hr c) dsize;
  if u_equal (ignore_case c) (key (cur c)) s then Ok (set_data (hr c + dsize, dlen) c, true)
  else Ok (set_data ((data (cur c)).1, dlen) c, false).

(** The next slot of the table. *)
Definition advance (slots : Z) (c : cdb) : res cdb :=
  let n := u32 (nslot (cur c) + 1) in
  if n =? slots then pos ← get4 (file c) (hp (cur c)); Ok (set_slot pos 0 c)
  else Ok (set_slot (slot (cur c) + sizeof_slot) n c).

(** One turn of the loop of [findNext]. *)
Definition findNext_step (c : cdb) : res (cdb + cdb * bool) :=
  slots ← get4 (file c) (hp (cur c) + 4);
  let c := set_loop (u32 (loop (cur c) + 1)) c in
  if slots <? loop (cur c) then Ok (inr (c, false))
  else
    c ← (if 1 <? loop (cur c) then advance slots c else Ok c);
    pos ← get4 (file c) (slot (cur c) + 4);
    if pos =? 0 then Ok (inr (c, false))
    else
      hash ← get4 (file c) (slot (cur c));
      if hash =? khash (cur c) then
        let c := set_hr pos c in
        klen ← get4 (file c) pos;
        if klen =? Z.of_nat (length (key (cur c))) then
          r ← match_ c; Ok (if r.2 : bool then inr (r.1, true) else inl r.1)
        else Ok (inl c)
      else Ok (inl c).

Definition findNext (c : cdb) : res (cdb * bool) :=
  slots ← get4 (file c) (hp (cur c) + 4);
  iterate (S (S (Z.to_nat slots))) findNext_step c.

Definition find (c : cdb) : res (cdb * bool) :=
  let offset := u32 (khash (cur c) mod CDB_NUM_HASH_TABLE_POINTER * sizeof_pointer) in
  let c := set_hp offset c in
  slots ← get4 (file c) (offset + 4);
  if negb (slots =? 0) then
    pos ← get4 (file c) offset;
    let n := khash (cur c) / CDB_NUM_HASH_TABLE_POINTER mod slots in
    let offset := u32 (pos + n * sizeof_slot) in
    let c := set_slot offset n c in
    p ← get4 (file c) (offset + 4);
    if negb (p =? 0) then findNext (set_loop 0 c) else Ok (c, false)
  else Ok (c, false).

(** [find(_key)]. *)
Definition find_key (_key : list Z) (c : cdb) : res (cdb * bool) := c ← setKey _key c; find c.

Definition elem (c : cdb) : res (list Z) := mrd (file c) (data (cur c)).1 (data (cur c)).2.

(** [operator[]], with the null string for a missing key. *)
Definition at_ (_key : list Z) (c : cdb) : res (cdb * list Z) :=
  r ← find_key _key c;
  if r.2 : bool then d ← elem r.1; Ok (r.1, d) else Ok (r.1, []).

(** ** Making a database *)

Definition makeStart (c : cdb) : cdb := Cdb (file c) 0 0 (ignore_case c) start (cur c).

(** A record, stored at [p]: the two lengths, the key and the data. *)
Definition put_record (m : list Z) (p : Z) (k d : list Z) : res (list Z) :=
  m ← put4 m p (Z.of_nat (length k));
  m ← put4 m (p + 4) (Z.of_nat (length d));
  m ← mwr m (p + sizeof_header) k;
  mwr m (p + sizeof_header + Z.of_nat (length k)) d.

(** [makeAdd(_key, _data)]. *)
Definition makeAdd (k d : list Z) (c : cdb) : res cdb :=
  m ← put_record (file c) (hr c) k d;
  Ok (Cdb m (u32 (nrecord c + 1)) (start_hash_table_slot c) (ignore_case c)
        (hr c + sizeof_header + Z.of_nat (length k) + Z.of_nat (length d)) (cur c)).

(** [makeAdd(src)] for the record at [p] of the mapping [src]. *)
Definition makeAdd_src (src : list Z) (p : Z) (c : cdb) : res cdb :=
  klen ← get4 src p;
  dlen ← get4 src (p + 4);
  let sz := u32 (sizeof_header + klen + dlen) in
  bs ← mrd src p sz;
  m ← mwr (file c) (hr c) bs;
  Ok (Cdb m (u32 (nrecord c + 1)) (start_hash_table_slot c) (ignore_case c) (hr c + sz) (cur c)).

Record cdb_tmp := Tmp { t_hash : Z; t_pos : Z; t_index : Z }.

#[global] Instance cdb_tmp_eq_dec : EqDecision cdb_tmp.
Proof. solve_decision. Defined.

(** [memset] to zero. *)
Definition clear_at (m : list Z) (p n : Z) : res (list Z) := mwr m p (replicate (Z.to_nat n) 0).

(** One turn over the records: the array [tmp] of [nrecord] entries is filled, the slots are counted. *)
Definition scan_step (ic : bool) (nrec eod : Z) (st : list Z * Z * list cdb_tmp) :
    res (list Z * Z * list cdb_tmp + list Z * list cdb_tmp) :=
  let '(m, ptr, tmp) := st in
  if eod <=? ptr then Ok (inr (m, tmp))
  else if nrec <=? Z.of_nat (length tmp) then Fail OutOfBounds
  else
    klen ← get4 m ptr;
    k ← mrd m (ptr + sizeof_header) klen;
    hash ← u_cdb_hash k (length k) ic;
    let index := hash mod CDB_NUM_HASH_TABLE_POINTER in
    slots ← get4 m (index * sizeof_pointer + 4);
    m ← put4 m (index * sizeof_pointer + 4) (u32 (slots + 1));
    dlen ← get4 m (ptr + 4);
    Ok (inl (m, ptr + sizeof_header + u32 (klen + dlen), tmp ++ [Tmp hash ptr index])).

(** The positions of the hash tables, from the table [i] on. *)
Fixpoint place_tables (n : nat) (i : Z) (m : list Z) (pos : Z) : res (list Z * Z) :=
  match n with
  | O => Ok (m, pos)
  | S n =>
      m ← put4 m (i * sizeof_pointer) pos;
      slots ← get4 m (i * sizeof_pointer + 4);
      place_tables n (i + 1) m (u32 (pos + slots * sizeof_slot))
  end.

(** One turn of the loop for an empty slot. *)
Definition probe_step (m : list Z) (base slots : Z) (n : Z) : res (Z + Z) :=
  p ← get4 m (base + n * sizeof_slot + 4);
  if p =? 0 then Ok (inr n)
  else Ok (inl (if u32 (n + 1) =? slots then 0 else u32 (n + 1))).

Definition store_tmp (m : list Z) (t : cdb_tmp) : res (list Z * (Z * Z)) :=
  base ← get4 m (t_index t * sizeof_pointer);
  slots ← get4 m (t_index t * sizeof_pointer + 4);
  if slots =? 0 then Fail Aborted
  else
    n ← iterate (S (Z.to_nat slots)) (probe_step m base slots) (t_hash t / CDB_NUM_HASH_TABLE_POINTER mod slots);
    m ← put4 m (base + n * sizeof_slot) (t_hash t);
    m ← put4 m (base + n * sizeof_slot + 4) (t_pos t);
    Ok (m, (base, n)).

(** The loop over [tmp], from the entry [i] on. *)
Fixpoint store_all (n : nat) (i : Z) (tmp : list cdb_tmp) (m : list Z) (sl : Z * Z) : res (list Z * (Z * Z)) :=
  match n with
  | O => Ok (m, sl)
  | S n => t ← rd tmp i; r ← store_tmp m t; store_all n (i + 1) tmp r.1 r.2
  end.

(** The result is the position behind the last table. *)
Definition makeFinish (reset : bool) (c : cdb) : res (cdb * Z) :=
  let eod := u32 (hr c) in
  let c := Cdb (file c) (nrecord c) eod (ignore_case c) (hr c) (cur c) in
  if 0 <? nrecord c then
    m ← clear_at (file c) 0 start;
    r ← iterate (S (length m)) (scan_step (ignore_case c) (nrecord c) (hr c)) (m, start, []);
    let '(m, tmp) := r in
    r ← place_tables (Z.to_nat CDB_NUM_HASH_TABLE_POINTER) 0 m eod;
    let '(m, pos) := r in
    m ← (if reset then clear_at m (hr c) (pos - eod) else Ok m);
    r ← store_all (Z.to_nat (nrecord c)) 0 tmp m (slot (cur c), nslot (cur c));
    let '(m, (sl, n)) := r in
    let last := match last tmp with Some t => t_pos t | None => hr c end in
    Ok (set_slot sl n (set_hp 0 (set_hr last (set_file m c))), pos)
  else Ok (c, eod).

(** ** Every record *)

(** [callForAllEntry(function)]: the function gets the place of a record. *)
Definition all_step {A} (function : list Z → Z → A → res A) (m : list Z) (stop : Z) (st : Z * A) :
    res (Z * A + A) :=
  let '(ptr, a) := st in
  if ptr <? stop then
    klen ← get4 m ptr;
    dlen ← get4 m (ptr + 4);
    a ← function m ptr a;
    Ok (inl (ptr + sizeof_header + klen + dlen, a))
  else Ok (inr a).

Definition callForAllEntry {A} (function : list Z → Z → A → res A) (c : cdb) (a : A) : res A :=
  iterate (S (length (file c))) (all_step function (file c) (start_hash_table_slot c)) (start, a).

(** [callForAllEntryExt]: in the order of the slots, until the function asks to stop; the function gets the
    hash of the slot and the place of the record, whose key and hash are those of the object meanwhile. *)
Definition ext_step {A} (function : list Z → Z → Z → A → res (A * bool)) (m : list Z) (st : Z * A) : res (Z * A + A) :=
  let '(sl, a) := st in
  if sl <? Z.of_nat (length m) then
    pos ← get4 m (sl + 4);
    if negb (pos =? 0) then
      khash ← get4 m sl;
      _ ← get4 m pos;
      r ← function m khash pos a;
      if r.2 : bool then Ok (inr r.1) else Ok (inl (sl + sizeof_slot, r.1))
    else Ok (inl (sl + sizeof_slot, a))
  else Ok (inr a).

Definition callForAllEntryExt {A} (function : list Z → Z → Z → A → res (A * bool)) (c : cdb) (a : A) : res A :=
  iterate (S (length (file c))) (ext_step function (file c)) (start_hash_table_slot c, a).

Definition getKeys (c : cdb) (vec : list (list Z)) : res (list (list Z)) :=
  callForAllEntry (λ m ptr vec, klen ← get4 m ptr; k ← mrd m (ptr + sizeof_header) klen; Ok (vec ++ [k])) c vec.

(** [_callForAllEntrySorted] for a function that does not stop it; [qsort] is that of the C library, which
    [UVector<UString>::sort] uses when the case is ignored. The result is the list of the calls. *)
Fixpoint find_all_sorted (c : cdb) (vkey : list (list Z)) (calls : list (list Z * list Z)) :
    res (list (list Z * list Z)) :=
  match vkey with
  | [] => Ok calls
  | k :: vkey =>
      r ← find_key k c;
      if r.2 : bool then d ← elem r.1; find_all_sorted r.1 vkey (calls ++ [(k, d)])
      else find_all_sorted r.1 vkey calls
  end.

Definition callForAllEntrySorted (qsort : list (list Z) → list (list Z)) (c : cdb) : res (list (list Z * list Z)) :=
  vkey ← getKeys c [];
  vkey ← (if 1 <? nrecord c then if ignore_case c then Ok (qsort vkey) else sort vkey else Ok vkey);
  if Z.of_nat (length vkey) <? nrecord c then Fail OutOfBounds
  else find_all_sorted c (take (Z.to_nat (nrecord c)) vkey) [].

(** [call(src)]: the key and the data the function gets. *)
Definition call (m : list Z) (src : Z) : res (list Z * list Z) :=
  klen ← get4 m src;
  dlen ← get4 m (src + 4);
  let src := src + sizeof_header in
  k ← mrd m src klen;
  d ← mrd m (src + klen) dlen;
  Ok (k, d).

(** [u_find] from [p] up to [stop], as an offset of the mapping. *)
Definition find_pattern (m : list Z) (p stop : Z) (pattern : list Z) : res (option Z) :=
  r ← u_find (drop (Z.to_nat p) m) (Z.to_nat (stop - p)) pattern (length pattern);
  Ok (fmap (M:=option) (Z.add p) r).

(** One turn of [_callForAllEntry] with a pattern, whose last place is [pp]. *)
Definition pattern_step (m : list Z) (stop : Z) (pattern : list Z) (st : Z * Z * list (list Z * list Z)) :
    res (Z * Z * list (list Z * list Z) + list (list Z * list Z)) :=
  let '(ptr, pp, calls) := st in
  klen ← get4 m ptr;
  dlen ← get4 m (ptr + 4);
  let tmp := ptr + sizeof_header + klen + dlen in
  if tmp <=? pp then Ok (inl (tmp, pp, calls))
  else
    kd ← call m ptr;
    let calls := calls ++ [kd] in
    if stop <=? tmp then Ok (inr calls)
    else
      r ← find_pattern m (tmp + sizeof_header) stop pattern;
      match r with
      | None => Ok (inr calls)
      | Some pp => Ok (inl (tmp, pp, calls))
      end.

(** One turn without one. *)
Definition entry_step (m : list Z) (stop : Z) (st : Z * list (list Z * list Z)) :
    res (Z * list (list Z * list Z) + list (list Z * list Z)) :=
  let '(ptr, calls) := st in
  klen ← get4 m ptr;
  dlen ← get4 m (ptr + 4);
  let tmp := ptr + sizeof_header + klen + dlen in
  kd ← call m ptr;
  if stop <=? tmp then Ok (inr (calls ++ [kd])) else Ok (inl (tmp, calls ++ [kd])).

(** [callForAllEntry(function, pattern)]: the keys and data the function is called with. *)
Definition callForAllEntry_pattern (pattern : option (list Z)) (c : cdb) : res (list (list Z * list Z)) :=
  let m := file c in
  let stop := start_hash_table_slot c in
  match pattern with
  | None => iterate (S (length m)) (entry_step m stop) (start, [])
  | Some pattern =>
      r ← find_pattern m (start + sizeof_header) stop pattern;
      match r with
      | None => Ok []
      | Some pp => iterate (S (length m)) (pattern_step m stop pattern) (start, pp, [])
      end
  end.

(** [getValuesWithKeyNask]: the function [u_pfn_match] points to and its flags are parameters; the flags
    change for a database that ignores case. The result has the values, their total size and the flags. *)
Definition FNM_CASEFOLD : Z := 16.

Definition mask_step (pfn : list Z → list Z → Z → bool) (m : list Z) (stop : Z) (mask : list Z) (flags : Z)
    (st : Z * list (list Z) * Z) : res (Z * list (list Z) * Z + list (list Z) * Z) :=
  let '(ptr, values, size) := st in
  klen ← get4 m ptr;
  dlen ← get4 m (ptr + 4);
  let tmp := ptr + sizeof_header + klen + dlen in
  k ← mrd m (ptr + sizeof_header) klen;
  st ← (if pfn k mask flags then d ← mrd m (tmp - dlen) dlen; Ok (values ++ [d], u32 (size + dlen))
        else Ok (values, size));
  if stop <=? tmp then Ok (inr st) else Ok (inl (tmp, st.1, st.2)).

Definition getValuesWithKeyNask (pfn : list Z → list Z → Z → bool) (flags : Z) (mask : list Z) (c : cdb) :
    res (list (list Z) * Z * Z) :=
  let flags := if ignore_case c then Z.lor flags FNM_CASEFOLD else flags in
  r ← iterate (S (length (file c))) (mask_step pfn (file c) (start_hash_table_slot c) mask flags) (start, [], 0);
  Ok (r, flags).

(** ** Printing and reading *)

Definition print_entry (m : list Z) (src : Z) (buffer : list Z) : res (list Z) :=
  klen ← get4 m src;
  dlen ← get4 m (src + 4);
  k ← mrd m (src + sizeof_header) klen;
  d ← mrd m (src + sizeof_header + klen) dlen;
  Ok (buffer ++ BS "+" ++ decimal 10 klen ++ BS "," ++ decimal 10 dlen ++ BS ":" ++ k ++ BS "->" ++ d ++ [10]).

Definition print (c : cdb) : res (list Z) :=
  if (length (file c) =? 0)%nat then Ok [] else callForAllEntry print_entry c [].

(** [operator<<]. *)
Definition write_cdb (c : cdb) : res (list Z) := text ← print c; Ok (text ++ [10]).

(** One turn of the loop of [operator>>]; a number that is not there leaves a variable without a value, and
    of a key or data cut off what is there is stored. *)
Definition read_step (st : list Z * Z * Z * list Z) : res (list Z * Z * Z * list Z + list Z * Z * Z * list Z) :=
  let '(m, ptr, n, inp) := st in
  match Cache.skip_blanks inp with
  | [] => Ok (inr (m, ptr, n, []))
  | ch :: inp =>
      if ch =? CH "#" then Ok (inl (m, ptr, n, Cache.skip_line inp))
      else if negb (ch =? CH "+") then Ok (inr (m, ptr, n, inp))
      else
        r ← Cache.read_number inp;
        let '(klen, inp) := r in
        r ← Cache.read_number (drop 1 inp);
        let '(dlen, inp) := r in
        let inp := drop 1 inp in
        m ← put4 m ptr klen;
        m ← put4 m (ptr + 4) dlen;
        let ptr := ptr + sizeof_header in
        m ← mwr m ptr (take (Z.to_nat klen) inp);
        let inp := drop 2 (drop (Z.to_nat klen) inp) in
        let ptr := ptr + klen in
        m ← mwr m ptr (take (Z.to_nat dlen) inp);
        Ok (inl (m, ptr + dlen, u32 (n + 1), drop 1 (drop (Z.to_nat dlen) inp)))
  end.

(** [operator>>]: the database made, whose file is cut at the end, and the input left. *)
Definition read_cdb (inp : list Z) (c : cdb) : res (cdb * list Z) :=
  let c := makeStart c in
  r ← iterate (S (length inp)) read_step (file c, hr c, nrecord c, inp);
  let '(m, ptr, n, inp) := r in
  r ← makeFinish true (Cdb m n (start_hash_table_slot c) (ignore_case c) ptr (cur c));
  Ok (set_file (take (Z.to_nat r.2) (file r.1)) r.1, inp).

(** ** [writeTo]: a hash table is saved

    [str] gives the string an element points to; with [func] the string comes from it, together with whether
    the node is to be deleted. The key of a node that was deleted is not there any more: using it for a
    record is a fault. The result of the walk is the memory, the place behind the last record, the number of
    records and the nodes that stay. *)
Definition value_of (str : Z → list Z) (func : option (Z → option (list Z) * bool)) (n : hnode) :
    option (list Z) * bool :=
  match func with None => (Some (str (nelem n)), false) | Some f => f (nelem n) end.

Fixpoint save_bucket (value : hnode → option (list Z) * bool) (bucket : list hnode) (m : list Z) (ptr : Z)
    (saved : Z) : res (list Z * Z * Z * list hnode) :=
  match bucket with
  | [] => Ok (m, ptr, saved, [])
  | n :: bucket =>
      let '(v, bdelete) := value n in
      r ← (match v with
           | Some d =>
               if bdelete : bool then Fail OutOfBounds else
               m ← put_record m ptr (nkey n) d;
               Ok (m, ptr + sizeof_header + Z.of_nat (length (nkey n)) + Z.of_nat (length d), saved + 1)
           | None => Ok (m, ptr, saved)
           end);
      let '(m, ptr, saved) := r in
      r ← save_bucket value bucket m ptr saved;
      let '(m, ptr, saved, rest) := r in
      Ok (m, ptr, saved, if bdelete then rest else n :: rest)
  end.

Fixpoint save_table (value : hnode → option (list Z) * bool) (tbl : list (list hnode)) (m : list Z) (ptr : Z)
    (saved : Z) : res (list Z * Z * Z * list (list hnode)) :=
  match tbl with
  | [] => Ok (m, ptr, saved, [])
  | b :: tbl =>
      r ← save_bucket value b m ptr saved;
      let '(m, ptr, saved, b) := r in
      r ← save_table value tbl m ptr saved;
      let '(m, ptr, saved, tbl) := r in
      Ok (m, ptr, saved, b :: tbl)
  end.

(** [space] is the member of the table of that name; the new file is all zero. The result is the file and
    the table. *)
Definition writeTo (str : Z → list Z) (func : option (Z → option (list Z) * bool)) (space : Z)
    (t : uhashmap) (c : cdb) : res (list Z * uhashmap) :=
  let n := if func is Some _ then 0 else length_ t in
  let sz := u32 (sizeFor n + space) in
  r ← save_table (value_of str func) (table t) (replicate (Z.to_nat sz) 0) start 0;
  let '(m, ptr, saved, tbl) := r in
  let deleted := Z.of_nat (length (concat (table t))) - Z.of_nat (length (concat tbl)) in
  r ← makeFinish true (Cdb m (if func is Some _ then saved else n) 0 (HashMap.ignore_case t) ptr (cur c));
  Ok (take (Z.to_nat r.2) (file r.1), set_length (set_table t tbl) (length_ t - deleted)).

(** ** Specification: a list of records *)

Definition rlen (r : list Z * list Z) : Z :=
  sizeof_header + Z.of_nat (length r.1) + Z.of_nat (length r.2).

Definition rtotal (recs : list (list Z * list Z)) : Z := foldr (λ r n, rlen r + n) 0 recs.

(** The keys two of which are the same for a database. *)
Definition canon (ic : bool) (k : list Z) : list Z := if ic then map tolower k else k.

(** What the hash folds. *)
Definition hash_fold (ic : bool) (k : list Z) : list Z := if ic then map u__tolower k else k.

(** Comparing without case stops at a NUL. *)
Definition key_ok (ic : bool) (k : list Z) : Prop := bytes k ∧ (ic = true → 0 ∉ k).

#[global] Instance key_ok_dec ic k : Decision (key_ok ic k).
Proof. unfold key_ok. destruct ic; [apply _|]. destruct (decide (bytes k)); [left; done|right; tauto]. Defined.

(** The data stored under a key, in the order the records were added. *)
Definition values (ic : bool) (k : list Z) (recs : list (list Z * list Z)) : list (list Z) :=
  map snd (filter (λ r, canon ic r.1 = canon ic k) recs).

(** The records are added one after the other. *)
Fixpoint add_all (recs : list (list Z * list Z)) (c : cdb) : res cdb :=
  match recs with [] => Ok c | r :: recs => c ← makeAdd r.1 r.2 c; add_all recs c end.

(** A database of these records: the file is cut behind the last table. *)
Definition make_database (recs : list (list Z * list Z)) (c : cdb) : res (list Z) :=
  c ← add_all recs (makeStart c);
  r ← makeFinish true c;
  Ok (take (Z.to_nat r.2) (file r.1)).

(** The characters of the keys and the data. *)
Definition text_size (recs : list (list Z * list Z)) : Z :=
  foldr (λ r n, Z.of_nat (length r.1) + Z.of_nat (length r.2) + n) 0 recs.

Definition data_size (recs : list (list Z * list Z)) : Z := foldr (λ r n, Z.of_nat (length r.2) + n) 0 recs.

(** A client that asks for everything under a key: [find], then [findNext] until it fails. *)
Fixpoint next_all (fuel : nat) (c : cdb) : res (list (list Z)) :=
  match fuel with
  | O => Fail OutOfFuel
  | S fuel =>
      r ← findNext c;
      if r.2 : bool then d ← elem r.1; l ← next_all fuel r.1; Ok (d :: l) else Ok []
  end.

Definition find_all (fuel : nat) (k : list Z) (c : cdb) : res (list (list Z)) :=
  r ← find_key k c;
  if r.2 : bool then d ← elem r.1; l ← next_all fuel r.1; Ok (d :: l) else Ok [].

(** ** The records and tables in the file *)

Definition hashv (ic : bool) (k : list Z) : Z := foldl cdb_step 5381 (hash_fold ic k).

Abbreviation block := (Z * (list Z * list Z))%type.

Fixpoint place (p : Z) (recs : list (list Z * list Z)) : list block :=
  match recs with [] => [] | r :: recs => (p, r) :: place (p + rlen r) recs end.

Definition stored (m : list Z) (b : block) : Prop :=
  0 <= b.1 ∧ b.1 + rlen b.2 <= Z.of_nat (length m) ∧
  Z.of_nat (length b.2.1) < 2 ^ 32 ∧ Z.of_nat (length b.2.2) < 2 ^ 32 ∧
  get4 m b.1 = Ok (Z.of_nat (length b.2.1)) ∧
  get4 m (b.1 + 4) = Ok (Z.of_nat (length b.2.2)) ∧
  mrd m (b.1 + sizeof_header) (Z.of_nat (length b.2.1)) = Ok b.2.1 ∧
  mrd m (b.1 + sizeof_header + Z.of_nat (length b.2.1)) (Z.of_nat (length b.2.2)) = Ok b.2.2.

Section Tables.
Context (ic : bool).

Definition hash_of (b : block) : Z := hashv ic b.2.1.
Definition index_of (b : block) : Z := hash_of b mod CDB_NUM_HASH_TABLE_POINTER.
Definition in_table (i : Z) (bl : list block) : list block := filter (λ b, index_of b = i) bl.
Definition slots_of (bl : list block) (i : Z) : Z := Z.of_nat (length (in_table i bl)).
Definition table_pos (eod : Z) (bl : list block) (i : Z) : Z :=
  eod + 8 * Z.of_nat (length (filter (λ b, index_of b < i) bl)).
Definition home_slot (n : Z) (b : block) : nat := Z.to_nat (hash_of b / CDB_NUM_HASH_TABLE_POINTER mod n).
Definition tmp_of (b : block) : cdb_tmp := Tmp (hash_of b) b.1 (index_of b).

Definition slot_holds (m : list Z) (p : Z) (o : option block) : Prop :=
  match o with
  | None => get4 m (p + 4) = Ok 0
  | Some b => get4 m p = Ok (hash_of b) ∧ get4 m (p + 4) = Ok b.1
  end.

Definition slots_at (m : list Z) (base : Z) (L : list (option block)) : Prop :=
  ∀ j o, L !! j = Some o → slot_holds m (base + Z.of_nat j * sizeof_slot) o.

(** The table [i] of a file for the blocks [bl], of which those of [done] are in the tables. *)
Definition table_ok (m : list Z) (eod : Z) (bl done : list block) (i : Z) : Prop :=
  get4 m (i * sizeof_pointer) = Ok (table_pos eod bl i) ∧
  get4 m (i * sizeof_pointer + 4) = Ok (slots_of bl i) ∧
  ∃ L, Z.of_nat (length L) = slots_of bl i ∧ slots_at m (table_pos eod bl i) L ∧
    probing (home_slot (slots_of bl i)) L (in_table i done).

Record database (m : list Z) (recs : list (list Z * list Z)) : Prop := {
  db_size : Z.of_nat (length m) = start + rtotal recs + sizeof_slot * Z.of_nat (length recs) ∧
            Z.of_nat (length m) < 2 ^ 32;
  db_keys : Forall (λ r, key_ok ic r.1) recs;
  db_stored : Forall (stored m) (place start recs);
  db_tables : ∀ i, 0 <= i < CDB_NUM_HASH_TABLE_POINTER →
    table_ok m (start + rtotal recs) (place start recs) (place start recs) i }.
End Tables.
