(* ===== verification/CdbFacts.v ===== *)
(** * What the constant databases of [Cdb] promise

    Making a database from records gives a file in which [find] and [findNext] enumerate the data of a key;
    the text of a database reads back; a hash table that is saved is looked up in the file. *)

From stdpp Require Import gmap sorting.
From S2P Require Import Prelude CType Memory Hash Strftime HashMap Sort Search Probe Cdb.
From S2P Require Cache CacheFacts.

Ltac pairs := f_equal; repeat (apply pair_equal_spec; split); (done || lia).
Ltac consts := unfold start, sizeof_header, sizeof_slot, sizeof_pointer, CDB_NUM_HASH_TABLE_POINTER in *.

(** ** What is outside of a range stays *)

Definition same_out (m m' : list Z) (lo hi : Z) : Prop :=
  length m' = length m ∧ ∀ q n, q + n <= lo ∨ hi <= q → mrd m' q n = mrd m q n.

Lemma same_out_refl m lo hi : same_out m m lo hi.
Proof. done. Qed.

Lemma same_out_trans m m' m'' lo hi : same_out m m' lo hi → same_out m' m'' lo hi → same_out m m'' lo hi.
Proof. intros [L1 H1] [L2 H2]. split; [congruence|]. intros q n Hq. by rewrite H2, H1. Qed.

Lemma same_out_widen m m' lo hi lo' hi' : same_out m m' lo hi → lo' <= lo → hi <= hi' → same_out m m' lo' hi'.
Proof. intros [L H] Hl Hh. split; [done|]. intros q n Hq. apply H. lia. Qed.

Lemma mwr_same_out m p bs m' : mwr m p bs = Ok m' → same_out m m' p (p + Z.of_nat (length bs)).
Proof.
  intros H. split; [by apply mwr_inv in H as (_ & _ & _ & ?)|]. intros q n Hq. by eapply mrd_mwr_ne.
Qed.

Lemma put4_same_out m p v m' : put4 m p v = Ok m' → same_out m m' p (p + 4).
Proof. intros H. apply mwr_same_out in H. done. Qed.

Lemma get4_same_out m m' lo hi q : same_out m m' lo hi → q + 4 <= lo ∨ hi <= q → get4 m' q = get4 m q.
Proof. intros [_ H] Hq. unfold get4. by rewrite H. Qed.

Lemma get4_inv m p v : get4 m p = Ok v → 0 <= p ∧ p + 4 <= Z.of_nat (length m).
Proof.
  unfold get4. destruct (mrd m p 4) eqn:E; [|done]. intros _. apply mrd_inv in E. lia.
Qed.

Lemma mrd_take m k p n : p + n <= Z.of_nat k → (k ≤ length m)%nat → mrd (take k m) p n = mrd m p n.
Proof.
  intros Hk Hl. unfold mrd. rewrite length_take. destruct (Z.ltb_spec p 0); [done|]. destruct (Z.ltb_spec n 0); [done|].
  cbn [orb]. destruct (Z.ltb_spec (Z.of_nat (k `min` length m)) (p + n)); [lia|].
  destruct (Z.ltb_spec (Z.of_nat (length m)) (p + n)); [lia|]. f_equal.
  rewrite skipn_firstn_comm, take_take. f_equal. lia.
Qed.

Lemma get4_take m k p : p + 4 <= Z.of_nat k → (k ≤ length m)%nat → get4 (take k m) p = get4 m p.
Proof. intros. unfold get4. by rewrite mrd_take. Qed.

Lemma get4_clear m p n m' q : clear_at m p n = Ok m' → p <= q → q + 4 <= p + n → get4 m' q = Ok 0.
Proof.
  intros H Hq Hn. pose proof (mrd_mwr_same _ _ _ _ H) as Hr. rewrite length_replicate, Z2Nat.id in Hr by lia.
  replace q with (p + (q - p)) by lia. eapply get4_sub; [exact Hr|lia|lia| |lia].
  rewrite drop_replicate, take_replicate. by replace (4 `min` (Z.to_nat n - Z.to_nat (q - p)))%nat with 4%nat by lia.
Qed.

Lemma clear_ok m p n : 0 <= p → 0 <= n → p + n <= Z.of_nat (length m) →
  ∃ m', clear_at m p n = Ok m' ∧ same_out m m' p (p + n).
Proof.
  intros Hp Hn Hl. destruct (mwr_ok m p (replicate (Z.to_nat n) 0)) as (m' & E & _); [lia|rewrite length_replicate; lia|].
  exists m'. split; [exact E|]. apply mwr_same_out in E. by rewrite length_replicate, Z2Nat.id in E by lia.
Qed.

(** ** Records *)

Lemma rlen_ge r : 8 <= rlen r.
Proof. unfold rlen. consts. lia. Qed.

Lemma rtotal_nonneg recs : 0 <= rtotal recs.
Proof. induction recs as [|r recs IH]; simpl; [lia|]. pose proof (rlen_ge r). fold (rtotal recs) in *. lia. Qed.

Lemma rtotal_app l l' : rtotal (l ++ l') = rtotal l + rtotal l'.
Proof. induction l as [|r l IH]; simpl; [done|]. unfold rtotal in *. lia. Qed.

Lemma length_rtotal recs : 8 * Z.of_nat (length recs) <= rtotal recs.
Proof. induction recs as [|r recs IH]; simpl; [lia|]. pose proof (rlen_ge r). unfold rtotal in *. lia. Qed.

Lemma place_records_app p l l' : place p (l ++ l') = place p l ++ place (p + rtotal l) l'.
Proof.
  revert p. induction l as [|r l IH]; intros p; simpl; [by rewrite Z.add_0_r|].
  rewrite IH. do 2 f_equal. unfold rtotal. f_equal. lia.
Qed.

Lemma place_records p recs : map snd (place p recs) = recs.
Proof. revert p. induction recs as [|r recs IH]; intros p; simpl; [done|]. by rewrite IH. Qed.

Lemma place_length p recs : length (place p recs) = length recs.
Proof. by rewrite <-(length_map snd), place_records. Qed.

Lemma record_range p recs b : b ∈ place p recs → p <= b.1 ∧ b.1 + rlen b.2 <= p + rtotal recs.
Proof.
  revert p. induction recs as [|r recs IH]; intros p; simpl; [by intros ?%not_elem_of_nil|].
  fold (rtotal recs). pose proof (rlen_ge r). pose proof (rtotal_nonneg recs).
  rewrite elem_of_cons. intros [->|Hb]; cbn [fst snd]; [lia|]. apply IH in Hb. lia.
Qed.

Lemma stored_same_out m m' lo hi b :
  same_out m m' lo hi → b.1 + rlen b.2 <= lo ∨ hi <= b.1 → stored m b → stored m' b.
Proof.
  intros Ho Hb (H0 & H1 & H2 & H3 & H4 & H5 & H6 & H7). unfold stored, rlen in *. consts.
  rewrite !(get4_same_out _ _ _ _ _ Ho) by lia. destruct Ho as [Hl Ho]. rewrite Hl, !Ho by lia. done.
Qed.

Lemma stored_outside m m' lo hi p recs :
  same_out m m' lo hi → p + rtotal recs <= lo ∨ hi <= p →
  Forall (stored m) (place p recs) → Forall (stored m') (place p recs).
Proof.
  intros Ho Hr. rewrite !Forall_forall. intros Hst b Hb. eapply stored_same_out; [exact Ho| |by apply Hst].
  apply record_range in Hb. lia.
Qed.

Lemma put_record_ok m p k d :
  0 <= p → p + rlen (k, d) <= Z.of_nat (length m) → Z.of_nat (length m) < 2 ^ 32 →
  ∃ m', put_record m p k d = Ok m' ∧ same_out m m' p (p + rlen (k, d)) ∧ stored m' (p, (k, d)).
Proof.
  intros Hp Hl Hm. unfold rlen in *. consts. cbn [fst snd] in *. unfold put_record. consts.
  destruct (put4_ok m p (Z.of_nat (length k))) as (m1 & E1 & L1); [lia..|]. rewrite E1. cbn [mbind res_bind].
  destruct (put4_ok m1 (p + 4) (Z.of_nat (length d))) as (m2 & E2 & L2); [lia..|]. rewrite E2. cbn [mbind res_bind].
  destruct (mwr_ok m2 (p + 8) k) as (m3 & E3 & L3); [lia..|]. rewrite E3. cbn [mbind res_bind].
  destruct (mwr_ok m3 (p + 8 + Z.of_nat (length k)) d) as (m4 & E4 & L4); [lia..|]. rewrite E4.
  exists m4. split; [done|]. assert (S1 := put4_same_out _ _ _ _ E1). assert (S2 := put4_same_out _ _ _ _ E2).
  assert (S3 := mwr_same_out _ _ _ _ E3). assert (S4 := mwr_same_out _ _ _ _ E4). split.
  { eapply same_out_trans; [eapply same_out_widen; [exact S1|lia..]|].
    eapply same_out_trans; [eapply same_out_widen; [exact S2|lia..]|].
    eapply same_out_trans; [eapply same_out_widen; [exact S3|lia..]|eapply same_out_widen; [exact S4|lia..]]. }
  unfold stored, rlen. consts. cbn [fst snd]. splits; try lia.
  - rewrite (get4_same_out _ _ _ _ _ S4), (get4_same_out _ _ _ _ _ S3), (get4_same_out _ _ _ _ _ S2) by lia.
    by apply (get4_put4 _ _ _ _ E1); lia.
  - rewrite (get4_same_out _ _ _ _ _ S4), (get4_same_out _ _ _ _ _ S3) by lia. apply (get4_put4 _ _ _ _ E2); lia.
  - destruct S4 as [_ S4]. rewrite S4 by lia. by apply (mrd_mwr_same _ _ _ _ E3).
  - by apply (mrd_mwr_same _ _ _ _ E4).
Qed.

Lemma makeAdd_ok k d c :
  0 <= hr c → hr c + rlen (k, d) <= Z.of_nat (length (file c)) → Z.of_nat (length (file c)) < 2 ^ 32 →
  0 <= nrecord c → nrecord c + 1 < 2 ^ 32 →
  ∃ m, makeAdd k d c = Ok (Cdb m (nrecord c + 1) (start_hash_table_slot c) (ignore_case c) (hr c + rlen (k, d)) (cur c)) ∧
    same_out (file c) m (hr c) (hr c + rlen (k, d)) ∧ stored m (hr c, (k, d)).
Proof.
  intros Hp Hl Hm Hn Hn'. destruct (put_record_ok (file c) (hr c) k d) as (m & E & Ho & Hs); [lia..|].
  exists m. split; [|done]. unfold makeAdd. rewrite E. cbn [mbind res_bind]. rewrite u32_small by lia.
  unfold rlen. cbn [fst snd]. do 2 f_equal. lia.
Qed.

Lemma add_all_ok recs : ∀ c,
  0 <= hr c → hr c + rtotal recs <= Z.of_nat (length (file c)) → Z.of_nat (length (file c)) < 2 ^ 32 →
  0 <= nrecord c → nrecord c + Z.of_nat (length recs) < 2 ^ 32 →
  ∃ m, add_all recs c
    = Ok (Cdb m (nrecord c + Z.of_nat (length recs)) (start_hash_table_slot c) (ignore_case c)
            (hr c + rtotal recs) (cur c)) ∧
    same_out (file c) m (hr c) (hr c + rtotal recs) ∧ Forall (stored m) (place (hr c) recs).
Proof.
  induction recs as [|[k d] recs IH]; intros c Hp Hl Hm Hn Hn'; cbn [add_all rtotal foldr place length] in *.
  - exists (file c). rewrite !Z.add_0_r. destruct c. done.
  - fold (rtotal recs) in *. pose proof (rtotal_nonneg recs). pose proof (rlen_ge (k, d)).
    destruct (makeAdd_ok k d c) as (m1 & E1 & S1 & R1); [lia..|]. cbn [fst snd]. rewrite E1. cbn [mbind res_bind].
    assert (L1 : length m1 = length (file c)) by apply S1.
    destruct (IH (Cdb m1 (nrecord c + 1) (start_hash_table_slot c) (ignore_case c) (hr c + rlen (k, d)) (cur c)))
      as (m2 & E2 & S2 & R2); cbn [file hr nrecord start_hash_table_slot ignore_case cur] in *; [lia..|].
    exists m2. rewrite E2. split; [do 2 f_equal; lia|]. split.
    + eapply same_out_trans; (eapply same_out_widen; [eassumption|lia..]).
    + constructor; [|done]. eapply stored_same_out; [exact S2|cbn [fst snd]; lia|done].
Qed.

(** ** Hashes *)

Lemma cdb_loop_ok ic k : ∀ h, cdb_loop ic h k (length k) = Ok (foldl cdb_step h (hash_fold ic k)).
Proof.
  induction k as [|c k IH]; intros h; [by destruct ic|]. cbn [cdb_loop length]. rewrite IH. by destruct ic.
Qed.

Lemma u_cdb_hash_ok ic k : u_cdb_hash k (length k) ic = Ok (hashv ic k).
Proof. apply cdb_loop_ok. Qed.

Lemma hashv_range ic k : bytes k → 0 <= hashv ic k < 2 ^ 32.
Proof.
  intros Hk. unfold hashv. assert (Hc : Forall (λ c, 0 <= c < 2 ^ 32) (hash_fold ic k)).
  { destruct ic; simpl.
    - apply Forall_map. eapply Forall_impl; [exact Hk|]. intros c Hc. cbn. unfold is_byte in Hc.
      unfold compose. assert (is_byte (u__tolower c)) by by apply u__tolower_byte. unfold is_byte in *. lia.
    - eapply Forall_impl; [exact Hk|]. unfold is_byte. cbn. lia. }
  assert (H : ∀ l h, Forall (λ c, 0 <= c < 2 ^ 32) l → 0 <= h < 2 ^ 32 → 0 <= foldl cdb_step h l < 2 ^ 32).
  { clear. induction l as [|c l IH]; intros h Hl Hh; [done|]. apply Forall_cons in Hl as [Hc Hl]. apply IH; [done|].
    unfold cdb_step. apply lxor_range; [apply u32_range|done]. }
  by apply H.
Qed.

Lemma hashv_canon ic k k' : canon ic k = canon ic k' → hashv ic k = hashv ic k'.
Proof.
  unfold hashv, canon, hash_fold. destruct ic; [|by intros ->].
  intros E. by rewrite <- (map_u__tolower k), E, map_u__tolower.
Qed.

Lemma canon_length ic k : length (canon ic k) = length k.
Proof. destruct ic; simpl; [by rewrite length_map|done]. Qed.

Lemma u_equal_canon ic k k' : key_ok ic k → length k = length k' →
  u_equal ic k k' = bool_decide (canon ic k = canon ic k').
Proof.
  intros [_ H0] Hl. destruct ic; simpl; [|done]. apply same_nocase_map; [by apply H0|done].
Qed.

Section Building.
Context (ic : bool).
Abbreviation index_of := (index_of ic).
Abbreviation hash_of := (hash_of ic).
Abbreviation slots_of := (slots_of ic).
Abbreviation in_table := (in_table ic).
Abbreviation table_pos := (table_pos ic).
Abbreviation tmp_of := (tmp_of ic).

Lemma index_range b : bytes b.2.1 → 0 <= index_of b < 512.
Proof. intros _. apply Z.mod_pos_bound. done. Qed.

Lemma in_table_snoc i bl b :
  in_table i (bl ++ [b]) = if decide (index_of b = i) then in_table i bl ++ [b] else in_table i bl.
Proof.
  unfold Cdb.in_table. rewrite filter_app, filter_cons, filter_nil.
  destruct (decide (index_of b = i)); [done|by rewrite app_nil_r].
Qed.

Lemma slots_of_le bl i : slots_of bl i <= Z.of_nat (length bl).
Proof. unfold Cdb.slots_of, Cdb.in_table. apply inj_le, length_filter. Qed.

(** One record is scanned. *)
Lemma scan_one nrec eod m p r rest done :
  Z.of_nat (length m) < 2 ^ 32 → 4096 <= p → eod = p + rtotal (r :: rest) → stored m (p, r) → bytes r.1 →
  Z.of_nat (length done) < nrec → nrec < 2 ^ 32 →
  (∀ i, 0 <= i < 512 → get4 m (i * 8 + 4) = Ok (slots_of done i)) →
  ∃ m', scan_step ic nrec eod (m, p, map tmp_of done)
      = Ok (inl (m', p + rlen r, map tmp_of (done ++ [(p, r)]))) ∧
    same_out m m' 0 4096 ∧ ∀ i, 0 <= i < 512 → get4 m' (i * 8 + 4) = Ok (slots_of (done ++ [(p, r)]) i).
Proof.
  intros Hm Hp -> Hst Hk Hn Hn2 Hc. destruct Hst as (_ & H1 & H2 & H3 & H4 & H5 & H6 & _). cbn [fst snd] in *.
  pose proof (rlen_ge r). pose proof (rtotal_nonneg rest). assert (Hr := hashv_range ic r.1 Hk).
  assert (Hi : 0 <= index_of (p, r) < 512) by by apply index_range.
  unfold scan_step. cbn [rtotal foldr]. fold (rtotal rest).
  destruct (Z.leb_spec (p + (rlen r + rtotal rest)) p); [lia|]. rewrite length_map.
  destruct (Z.leb_spec nrec (Z.of_nat (length done))); [lia|]. rewrite H4. cbn [mbind res_bind]. rewrite H6. cbn [mbind res_bind].
  rewrite u_cdb_hash_ok. cbn [mbind res_bind].
  change (hashv ic r.1 mod CDB_NUM_HASH_TABLE_POINTER) with (index_of (p, r)). change sizeof_pointer with 8.
  rewrite Hc by done. cbn [mbind res_bind]. pose proof (slots_of_le done (index_of (p, r))).
  assert (Hs0 : 0 <= slots_of done (index_of (p, r))) by (unfold Cdb.slots_of; lia). rewrite u32_small by lia.
  destruct (put4_ok m (index_of (p, r) * 8 + 4) (slots_of done (index_of (p, r)) + 1)) as (m' & E & L); [lia..|].
  rewrite E. cbn [mbind res_bind]. assert (Ho := put4_same_out _ _ _ _ E).
  rewrite (get4_same_out _ _ _ _ _ Ho) by lia. rewrite H5. cbn [mbind res_bind]. exists m'. split.
  { rewrite map_app. cbn [map]. do 4 f_equal. unfold rlen in *. consts. rewrite u32_small by lia. lia. }
  split; [eapply same_out_widen; [exact Ho|lia..]|]. intros i Hi'. unfold Cdb.slots_of in *. rewrite in_table_snoc.
  destruct (decide (index_of (p, r) = i)) as [<-|Hne].
  - rewrite (get4_put4 _ _ _ _ E) by lia. rewrite length_app. cbn [length]. f_equal. lia.
  - rewrite (get4_same_out _ _ _ _ _ Ho) by lia. by apply Hc.
Qed.

Lemma scan_ok nrec todo : ∀ done m p fuel eod,
  Z.of_nat (length m) < 2 ^ 32 → 4096 <= p → eod = p + rtotal todo → Forall (stored m) (place p todo) →
  Forall (λ r, bytes r.1) todo → Z.of_nat (length done + length todo) <= nrec → nrec < 2 ^ 32 →
  (length todo < fuel)%nat →
  (∀ i, 0 <= i < 512 → get4 m (i * 8 + 4) = Ok (slots_of done i)) →
  ∃ m', iterate fuel (scan_step ic nrec eod) (m, p, map tmp_of done)
      = Ok (m', map tmp_of (done ++ place p todo)) ∧
    same_out m m' 0 4096 ∧ ∀ i, 0 <= i < 512 → get4 m' (i * 8 + 4) = Ok (slots_of (done ++ place p todo) i).
Proof.
  induction todo as [|r todo IH]; intros done m p fuel eod Hm Hp He Hst Hk Hn Hn2 Hf Hc;
    (destruct fuel as [|fuel]; [simpl in Hf; lia|]); cbn [iterate place].
  - exists m. unfold scan_step. destruct (Z.leb_spec eod p); [|simpl in He; lia]. by rewrite app_nil_r.
  - apply Forall_cons in Hst as [Hr Hst]. apply Forall_cons in Hk as [Hkr Hk]. cbn [length] in *.
    destruct (scan_one nrec eod m p r todo done) as (m1 & E1 & S1 & C1); [done..|lia|done|done|].
    rewrite E1. cbn [rtotal foldr] in He. fold (rtotal todo) in He. pose proof (rlen_ge r).
    destruct (IH (done ++ [(p, r)]) m1 (p + rlen r) fuel eod) as (m2 & E2 & S2 & C2); try done.
    + destruct S1 as [-> _]. done.
    + lia.
    + lia.
    + eapply stored_outside; [exact S1|lia|done].
    + rewrite length_app. cbn [length]. lia.
    + lia.
    + exists m2. rewrite E2, <-app_assoc. split; [done|]. split; [by eapply same_out_trans|].
      intros i Hi. rewrite C2, <-app_assoc by done. done.
Qed.

(** ** The places of the tables *)

Lemma table_pos_0 eod bl : table_pos eod bl 0 = eod.
Proof.
  unfold Cdb.table_pos. assert (filter (λ b, index_of b < 0) bl = []) as ->; [|simpl; lia].
  induction bl as [|b bl IH]; [done|]. rewrite filter_cons_False; [done|].
  assert (0 <= index_of b < 512) by by apply Z.mod_pos_bound. lia.
Qed.

Lemma table_pos_512 eod bl : table_pos eod bl 512 = eod + 8 * Z.of_nat (length bl).
Proof.
  unfold Cdb.table_pos. rewrite filter_all; [done|]. apply Forall_forall. intros b _.
  assert (0 <= index_of b < 512) by by apply Z.mod_pos_bound. lia.
Qed.

Lemma table_pos_next eod bl i : table_pos eod bl (i + 1) = table_pos eod bl i + 8 * slots_of bl i.
Proof.
  unfold Cdb.table_pos, Cdb.slots_of, Cdb.in_table. rewrite <-Z.add_assoc. f_equal.
  rewrite <-Z.mul_add_distr_l, <-Nat2Z.inj_add. do 2 f_equal.
  induction bl as [|b bl IH]; [done|]. rewrite !filter_cons.
  destruct (decide (index_of b < i + 1)), (decide (index_of b < i)), (decide (index_of b = i)); simpl; lia.
Qed.

Lemma table_pos_mono eod bl i j : i <= j → table_pos eod bl i <= table_pos eod bl j.
Proof.
  intros Hij. replace j with (i + Z.of_nat (Z.to_nat (j - i))) by lia. induction (Z.to_nat (j - i)) as [|n IH].
  - by rewrite Z.add_0_r.
  - rewrite Nat2Z.inj_succ. replace (i + Z.succ (Z.of_nat n)) with (i + Z.of_nat n + 1) by lia.
    rewrite table_pos_next. unfold Cdb.slots_of. lia.
Qed.

Lemma table_pos_range eod bl i : 0 <= i < 512 →
  eod <= table_pos eod bl i ∧ table_pos eod bl i + 8 * slots_of bl i <= eod + 8 * Z.of_nat (length bl).
Proof.
  intros Hi. pose proof (table_pos_mono eod bl 0 i ltac:(lia)) as H0. rewrite table_pos_0 in H0. split; [done|].
  rewrite <-table_pos_next, <-table_pos_512. apply table_pos_mono. lia.
Qed.

Lemma tables_apart eod bl i j : i ≠ j →
  table_pos eod bl i + 8 * slots_of bl i <= table_pos eod bl j ∨
  table_pos eod bl j + 8 * slots_of bl j <= table_pos eod bl i.
Proof.
  intros Hij. rewrite <-!table_pos_next. destruct (Z.lt_ge_cases i j); [left|right]; apply table_pos_mono; lia.
Qed.

Lemma place_tables_ok eod bl n : ∀ i m,
  0 <= i → i + Z.of_nat n <= 512 → 4096 <= Z.of_nat (length m) →
  0 <= eod → eod + 8 * Z.of_nat (length bl) < 2 ^ 32 →
  (∀ j, 0 <= j < 512 → get4 m (j * 8 + 4) = Ok (slots_of bl j)) →
  (∀ j, 0 <= j < i → get4 m (j * 8) = Ok (table_pos eod bl j)) →
  ∃ m', place_tables n i m (table_pos eod bl i) = Ok (m', table_pos eod bl (i + Z.of_nat n)) ∧
    same_out m m' 0 4096 ∧
    (∀ j, 0 <= j < 512 → get4 m' (j * 8 + 4) = Ok (slots_of bl j)) ∧
    (∀ j, 0 <= j < i + Z.of_nat n → get4 m' (j * 8) = Ok (table_pos eod bl j)).
Proof.
  induction n as [|n IH]; intros i m Hi Hn Hm He Hb Hs Hp; cbn [place_tables].
  - exists m. rewrite Z.add_0_r. done.
  - change sizeof_pointer with 8. change sizeof_slot with 8.
    pose proof (table_pos_range eod bl i ltac:(lia)) as Hr. assert (0 <= slots_of bl i) by (unfold Cdb.slots_of; lia).
    destruct (put4_ok m (i * 8) (table_pos eod bl i)) as (m1 & E1 & L1); [lia..|]. rewrite E1. cbn [mbind res_bind].
    assert (S1 := put4_same_out _ _ _ _ E1). rewrite (get4_same_out _ _ _ _ _ S1), Hs by lia. cbn [mbind res_bind].
    rewrite u32_small, (Z.mul_comm _ 8), <-table_pos_next by lia.
    destruct (IH (i + 1) m1) as (m2 & E2 & S2 & C2 & P2); try lia.
    + intros j Hj. rewrite (get4_same_out _ _ _ _ _ S1) by lia. by apply Hs.
    + intros j Hj. destruct (decide (j = i)) as [->|]; [by apply (get4_put4 _ _ _ _ E1); lia|].
      rewrite (get4_same_out _ _ _ _ _ S1) by lia. apply Hp. lia.
    + exists m2. rewrite E2. replace (i + Z.of_nat (S n)) with (i + 1 + Z.of_nat n) by lia. split; [done|].
      split; [eapply same_out_trans; [eapply same_out_widen; [exact S1|lia..]|done]|done].
Qed.

(** ** Putting a record into its table *)

Lemma until_none_lookup {A} (l : list (option A)) j : (j < length (until_none l))%nat →
  ∃ a, l !! j = Some (Some a) ∧ until_none l !! j = Some a.
Proof.
  revert j. induction l as [|[a|] l IH]; cbn; intros j Hj; [lia| |lia]. destruct j as [|j]; [by exists a|].
  apply IH. lia.
Qed.

Lemma slot_next s j n : (0 < n)%nat → Z.of_nat n < 2 ^ 32 →
  (if u32 (Z.of_nat (rotate_nat_add s j n) + 1) =? Z.of_nat n then 0 else u32 (Z.of_nat (rotate_nat_add s j n) + 1))
  = Z.of_nat (rotate_nat_add s (S j) n).
Proof.
  intros Hn Hn2. unfold rotate_nat_add. set (x := Z.of_nat s + Z.of_nat j).
  replace (Z.of_nat s + Z.of_nat (S j)) with (x + 1) by lia.
  pose proof (Z.mod_pos_bound x (Z.of_nat n) ltac:(lia)). pose proof (Z.mod_pos_bound (x + 1) (Z.of_nat n) ltac:(lia)).
  rewrite !Z2Nat.id by lia. rewrite u32_small by lia. destruct (Z.eqb_spec (x mod Z.of_nat n + 1) (Z.of_nat n)) as [E|E].
  - apply (Z.mod_unique _ _ (x / Z.of_nat n + 1)); [lia|]. pose proof (Z.div_mod x (Z.of_nat n) ltac:(lia)). lia.
  - apply (Z.mod_unique _ _ (x / Z.of_nat n)); [lia|]. pose proof (Z.div_mod x (Z.of_nat n) ltac:(lia)). lia.
Qed.

Lemma slots_at_rotate m base (L : list (option block)) s j o :
  slots_at ic m base L → (j < length L)%nat → rotate s L !! j = Some o →
  slot_holds ic m (base + Z.of_nat (rotate_nat_add s j (length L)) * 8) o.
Proof. intros Hs Hj Ho. rewrite lookup_rotate_r in Ho by done. by apply Hs. Qed.

Lemma probe_ok m base (L : list (option block)) s :
  slots_at ic m base L → (0 < length L)%nat → Z.of_nat (length L) < 2 ^ 32 →
  (∀ b, Some b ∈ L → b.1 ≠ 0) → (length (until_none (rotate s L)) < length L)%nat →
  ∀ n j fuel, length (until_none (rotate s L)) = (j + n)%nat → (n < fuel)%nat →
  iterate fuel (probe_step m base (Z.of_nat (length L))) (Z.of_nat (rotate_nat_add s j (length L)))
  = Ok (Z.of_nat (free_slot s L)).
Proof.
  intros Hs H0 H32 Hnz Hfree. induction n as [|n IH]; intros j fuel En Hf; (destruct fuel as [|fuel]; [lia|]);
    cbn [iterate]; unfold probe_step at 1; change sizeof_slot with 8.
  - assert (Hn : rotate s L !! j = Some None).
    { destruct (until_none_stop (rotate s L)) as (pre & post & E & _ & El); [by rewrite length_rotate|].
      rewrite E. replace j with (length pre) by lia. by apply list_lookup_middle. }
    rewrite (slots_at_rotate m base L s j None) by (done || lia). cbn [mbind res_bind Z.eqb].
    unfold free_slot. by rewrite En, Nat.add_0_r.
  - destruct (until_none_lookup (rotate s L) j) as (b & Eb & _); [lia|].
    destruct (slots_at_rotate m base L s j (Some b)) as [_ E]; [done|lia|done|]. rewrite E. cbn [mbind res_bind].
    assert (b.1 ≠ 0) by (apply Hnz; apply list_elem_of_lookup_2 in Eb; by apply elem_of_rotate in Eb).
    destruct (Z.eqb_spec b.1 0); [done|]. rewrite slot_next by lia. apply IH; lia.
Qed.

Lemma home_lt n b : 0 < n → (home_slot ic n b < Z.to_nat n)%nat ∧ Z.of_nat (home_slot ic n b) = hash_of b / 512 mod n.
Proof.
  intros Hn. unfold home_slot, CDB_NUM_HASH_TABLE_POINTER. pose proof (Z.mod_pos_bound (hash_of b / 512) n Hn). lia.
Qed.

Lemma rotate_nat_add_0 s n : (s < n)%nat → rotate_nat_add s 0 n = s.
Proof. intros H. unfold rotate_nat_add. rewrite Z.add_0_r, Z.mod_small by lia. lia. Qed.

(** The slots of a table after one of them was written. *)
Lemma slots_at_insert m m1 m2 base (L : list (option block)) q b :
  slots_at ic m base L → (q < length L)%nat → 0 <= hash_of b < 2 ^ 32 → 0 <= b.1 < 2 ^ 32 →
  put4 m (base + Z.of_nat q * 8) (hash_of b) = Ok m1 → put4 m1 (base + Z.of_nat q * 8 + 4) b.1 = Ok m2 →
  slots_at ic m2 base (<[q := Some b]> L).
Proof.
  intros Hs Hq Hh Hb E1 E2 j o Hj. change sizeof_slot with 8.
  assert (S1 := put4_same_out _ _ _ _ E1). assert (S2 := put4_same_out _ _ _ _ E2).
  destruct (decide (j = q)) as [->|Hne].
  - rewrite list_lookup_insert_eq in Hj by done. injection Hj as <-. cbn [slot_holds]. split.
    + rewrite (get4_same_out _ _ _ _ _ S2) by lia. by apply (get4_put4 _ _ _ _ E1).
    + by apply (get4_put4 _ _ _ _ E2).
  - rewrite list_lookup_insert_ne in Hj by done. apply Hs in Hj. change sizeof_slot with 8 in Hj.
    destruct o as [b'|]; cbn [slot_holds] in *; rewrite !(get4_same_out _ _ _ _ _ S2), !(get4_same_out _ _ _ _ _ S1) by lia;
      done.
Qed.

Lemma slots_at_same_out m m' lo hi base (L : list (option block)) :
  same_out m m' lo hi → base + 8 * Z.of_nat (length L) <= lo ∨ hi <= base → slots_at ic m base L → slots_at ic m' base L.
Proof.
  intros Ho Hr Hs j o Hj. assert (Hlt := lookup_lt_Some _ _ _ Hj). apply Hs in Hj. change sizeof_slot with 8 in *.
  destruct o as [b|]; cbn [slot_holds] in *; rewrite !(get4_same_out _ _ _ _ _ Ho) by lia; done.
Qed.

(** The blocks a table is made for. *)
Definition blocks_ok (eod : Z) (bl : list block) : Prop :=
  Forall (λ b, 0 < b.1 < 2 ^ 32 ∧ bytes b.2.1) bl ∧ 4096 <= eod.

Lemma slots_of_snoc bl1 b bl2 : Z.of_nat (length (in_table (index_of b) bl1)) < slots_of (bl1 ++ b :: bl2) (index_of b).
Proof.
  unfold Cdb.slots_of, Cdb.in_table. rewrite filter_app, filter_cons_True, length_app by done. cbn [length]. lia.
Qed.

Lemma table_slot eod bl i q : 0 <= i < 512 → Z.of_nat q < slots_of bl i → ∃ p, p = table_pos eod bl i + Z.of_nat q * 8 ∧
  eod <= p ∧ p + 8 <= eod + 8 * Z.of_nat (length bl) ∧
  ∀ j, j ≠ i → table_pos eod bl j + 8 * slots_of bl j <= p ∨ p + 8 <= table_pos eod bl j.
Proof.
  intros Hi Hq. exists (table_pos eod bl i + Z.of_nat q * 8). pose proof (table_pos_range eod bl i Hi).
  splits; [done|lia|lia|]. intros j Hj. pose proof (tables_apart eod bl i j ltac:(done)). lia.
Qed.

(** The slot the loop of [makeFinish] takes for a block. *)
Lemma free_slot_found m eod done b rest :
  blocks_ok eod (done ++ b :: rest) → Z.of_nat (length (done ++ b :: rest)) < 2 ^ 32 →
  table_ok ic m eod (done ++ b :: rest) done (index_of b) →
  let n := slots_of (done ++ b :: rest) (index_of b) in
  ∃ L, 0 < n < 2 ^ 32 ∧ Z.of_nat (length L) = n ∧ slots_at ic m (table_pos eod (done ++ b :: rest) (index_of b)) L ∧
    (free_slot (home_slot ic n b) L < length L)%nat ∧
    iterate (S (Z.to_nat n)) (probe_step m (table_pos eod (done ++ b :: rest) (index_of b)) n)
      (hash_of b / 512 mod n) = Ok (Z.of_nat (free_slot (home_slot ic n b) L)) ∧
    probing (home_slot ic n) (<[free_slot (home_slot ic n b) L := Some b]> L) (in_table (index_of b) (done ++ [b])).
Proof.
  intros [Hbl He] Hlen (_ & _ & L & HL & Hs & Hp) n. exists L. pose proof (slots_of_snoc done b rest) as Hroom. fold n in Hroom, Hp, HL.
  pose proof (slots_of_le (done ++ b :: rest) (index_of b)). fold n in H.
  destruct (home_lt n b) as [Hh Hhz]; [lia|].
  assert (HlL : (length (in_table (index_of b) done) < length L)%nat) by lia.
  assert (HhL : (home_slot ic n b < length L)%nat) by lia.
  destruct (free_slot_empty _ _ _ _ Hp HhL HlL) as (Hu & Hf & _).
  splits; try lia; try done.
  - assert (Hnz : ∀ b', Some b' ∈ L → b'.1 ≠ 0).
    2:{ pose proof (probe_ok m _ L (home_slot ic n b) Hs ltac:(lia) ltac:(lia) Hnz Hu _ 0%nat (S (Z.to_nat n)) eq_refl
          ltac:(lia)) as Hpr. by rewrite rotate_nat_add_0, HL, Hhz in Hpr by done. }
    intros b' Hb'. destruct (home_lt n b') as [Hh' _]; [lia|].
    eapply probing_elem in Hb'; [|exact Hp|lia]. unfold Cdb.in_table in Hb'. apply list_elem_of_filter in Hb' as [_ Hb'].
    rewrite Forall_forall in Hbl. assert (Hx := Hbl b' ltac:(apply elem_of_app; by left)). lia.
  - rewrite in_table_snoc, decide_True by done. apply probing_insert; [done|lia|done].
Qed.

Lemma store_tmp_ok m eod done b rest :
  let bl := done ++ b :: rest in
  blocks_ok eod bl → eod + 8 * Z.of_nat (length bl) <= Z.of_nat (length m) → Z.of_nat (length m) < 2 ^ 32 →
  (∀ i, 0 <= i < 512 → table_ok ic m eod bl done i) →
  ∃ m' sl, store_tmp m (tmp_of b) = Ok (m', sl) ∧ same_out m m' eod (eod + 8 * Z.of_nat (length bl)) ∧
    ∀ i, 0 <= i < 512 → table_ok ic m' eod bl (done ++ [b]) i.
Proof.
  intros bl Hbl Hl Hm Ht. assert (Hi : 0 <= index_of b < 512) by by apply Z.mod_pos_bound.
  assert (Hlb : 4096 <= eod) by apply Hbl.
  destruct (free_slot_found m eod done b rest Hbl ltac:(fold bl; lia) (Ht _ Hi)) as (L & Hn & HL & Hs & Hf & Hprobe & Hp).
  fold bl in Hn, HL, Hs, Hf, Hprobe, Hp.
  set (n := slots_of bl (index_of b)) in *. set (q := free_slot (home_slot ic n b) L) in *.
  destruct (table_slot eod bl (index_of b) q Hi) as (p & Ep & Hp1 & Hp2 & Hapart); [fold n; lia|].
  assert (Hb : (0 < b.1 < 2 ^ 32) ∧ bytes b.2.1).
  { destruct Hbl as [Hbl _]. rewrite Forall_forall in Hbl. apply Hbl, elem_of_app. right. by left. }
  assert (Hhr := hashv_range ic b.2.1 (proj2 Hb)).
  destruct (put4_ok m p (hash_of b)) as (m1 & E1 & L1); [lia..|].
  destruct (put4_ok m1 (p + 4) b.1) as (m2 & E2 & L2); [lia..|].
  assert (S1 := put4_same_out _ _ _ _ E1). assert (S2 := put4_same_out _ _ _ _ E2).
  assert (S : same_out m m2 p (p + 8)) by (eapply same_out_trans; (eapply same_out_widen; [eassumption|lia..])).
  exists m2, (table_pos eod bl (index_of b), Z.of_nat q). split.
  { destruct (Ht _ Hi) as (Hpos & Hcnt & _). unfold store_tmp. cbn [t_index t_hash t_pos Cdb.tmp_of].
    rewrite Hpos. cbn [mbind res_bind]. rewrite Hcnt. cbn [mbind res_bind]. fold n. destruct (Z.eqb_spec n 0); [lia|].
    change CDB_NUM_HASH_TABLE_POINTER with 512. rewrite Hprobe. cbn [mbind res_bind]. change sizeof_slot with 8. rewrite <-Ep, E1.
    cbn [mbind res_bind]. by rewrite E2. }
  split; [eapply same_out_widen; [exact S|lia..]|]. intros i Hi'. destruct (Ht i Hi') as (Hpos & Hcnt & Li & HLi & Hsi & Hpi).
  unfold table_ok. change sizeof_pointer with 8 in *. rewrite !(get4_same_out _ _ _ _ _ S) by lia. splits; [done..|].
  destruct (decide (i = index_of b)) as [->|Hne].
  - exists (<[q := Some b]> L). rewrite length_insert. splits; [done| |exact Hp].
    rewrite Ep in E1, E2. eapply slots_at_insert; [exact Hs|done|exact Hhr|lia|exact E1|exact E2].
  - exists Li. rewrite in_table_snoc, decide_False by done. splits; [done| |done].
    eapply slots_at_same_out; [exact S| |done]. rewrite HLi. by apply Hapart.
Qed.

Lemma store_all_ok eod rest : ∀ done m sl,
  let bl := done ++ rest in
  blocks_ok eod bl → eod + 8 * Z.of_nat (length bl) <= Z.of_nat (length m) → Z.of_nat (length m) < 2 ^ 32 →
  (∀ i, 0 <= i < 512 → table_ok ic m eod bl done i) →
  ∃ m' sl', store_all (length rest) (Z.of_nat (length done)) (map tmp_of bl) m sl = Ok (m', sl') ∧
    same_out m m' eod (eod + 8 * Z.of_nat (length bl)) ∧ ∀ i, 0 <= i < 512 → table_ok ic m' eod bl bl i.
Proof.
  induction rest as [|b rest IH]; intros done m sl bl Hbl Hl Hm Ht; cbn [length store_all].
  - exists m, sl. split; [done|]. split; [done|]. unfold bl in *. by rewrite app_nil_r in *.
  - assert (Hrd : rd (map tmp_of bl) (Z.of_nat (length done)) = Ok (tmp_of b)).
    { apply rd_lookup. rewrite list_lookup_fmap. unfold bl. by rewrite list_lookup_middle. }
    rewrite Hrd. cbn [mbind res_bind]. destruct (store_tmp_ok m eod done b rest Hbl Hl Hm Ht) as (m1 & sl1 & E1 & S1 & T1).
    rewrite E1. cbn [mbind res_bind fst snd]. unfold bl in *. replace (done ++ b :: rest) with ((done ++ [b]) ++ rest) in * by by rewrite <-app_assoc.
    destruct (IH (done ++ [b]) m1 sl1) as (m2 & sl2 & E2 & S2 & T2); [done|..|done|].
    + destruct S1 as [-> _]. done.
    + destruct S1 as [-> _]. done.
    + rewrite length_app, Nat.add_1_r, Nat2Z.inj_succ in E2. exists m2, sl2. split; [exact E2|]. split; [by eapply same_out_trans|done].
Qed.

(** ** The whole of [makeFinish] *)

Lemma stored_take m k b : (k ≤ length m)%nat → b.1 + rlen b.2 <= Z.of_nat k → stored m b → stored (take k m) b.
Proof.
  intros Hk Hb (H0 & H1 & H2 & H3 & H4 & H5 & H6 & H7). unfold stored, rlen in *. consts.
  rewrite length_take, !get4_take, !mrd_take by lia. splits; (done || lia).
Qed.

Lemma table_ok_take m k eod bl done i : 4096 <= eod → (k ≤ length m)%nat → Z.of_nat k = eod + 8 * Z.of_nat (length bl) →
  0 <= i < 512 → table_ok ic m eod bl done i → table_ok ic (take k m) eod bl done i.
Proof.
  intros He Hk Hb Hi (H1 & H2 & L & HL & Hs & Hp). unfold table_ok. change sizeof_pointer with 8 in *.
  rewrite !get4_take by lia. splits; [done..|]. exists L. splits; [done| |done].
  pose proof (table_pos_range eod bl i Hi) as Hr. intros j o Hj. assert (Hlt := lookup_lt_Some _ _ _ Hj). apply Hs in Hj.
  change sizeof_slot with 8 in *. destruct o; cbn [slot_holds] in *; rewrite !get4_take by lia; done.
Qed.

Lemma empty_tables m m' eod bl :
  clear_at m eod (8 * Z.of_nat (length bl)) = Ok m' → 4096 <= eod →
  (∀ i, 0 <= i < 512 → get4 m (i * 8 + 4) = Ok (slots_of bl i)) →
  (∀ i, 0 <= i < 512 → get4 m (i * 8) = Ok (table_pos eod bl i)) →
  ∀ i, 0 <= i < 512 → table_ok ic m' eod bl [] i.
Proof.
  intros E He Hc Hp i Hi. pose proof (table_pos_range eod bl i Hi) as Hr.
  assert (S : same_out m m' eod (eod + 8 * Z.of_nat (length bl))).
  { apply mwr_same_out in E. rewrite length_replicate, Z2Nat.id in E by lia. done. }
  unfold table_ok. change sizeof_pointer with 8. rewrite !(get4_same_out _ _ _ _ _ S) by lia. splits; [by apply Hp|by apply Hc|].
  exists (replicate (Z.to_nat (slots_of bl i)) None).
  rewrite length_replicate. splits; [unfold Cdb.slots_of; lia| |apply probing_empty].
  intros j o Hj. apply lookup_replicate in Hj as [-> Hj]. cbn [slot_holds]. change sizeof_slot with 8.
  apply (get4_clear _ _ _ _ _ E); lia.
Qed.

Lemma place_blocks_ok p recs : 4096 <= p → p + rtotal recs < 2 ^ 32 → Forall (λ r, key_ok ic r.1) recs →
  Forall (λ b, 0 < b.1 < 2 ^ 32 ∧ bytes b.2.1) (place p recs).
Proof.
  intros Hp Hl Hk. apply Forall_forall. intros b Hb. assert (Hr := record_range _ _ _ Hb). pose proof (rlen_ge b.2).
  split; [lia|]. apply (list_elem_of_fmap_2 snd) in Hb. rewrite place_records in Hb. rewrite Forall_forall in Hk. by apply Hk.
Qed.

(** The memory after the headers were counted and the tables were placed. *)
Lemma tables_placed m recs eod :
  eod = 4096 + rtotal recs → eod + 8 * Z.of_nat (length recs) <= Z.of_nat (length m) → Z.of_nat (length m) < 2 ^ 32 →
  Forall (λ r, key_ok ic r.1) recs → Forall (stored m) (place 4096 recs) →
  ∃ m0 m1 m2, clear_at m 0 4096 = Ok m0 ∧ length m0 = length m ∧
    iterate (S (length m0)) (scan_step ic (Z.of_nat (length recs)) eod) (m0, 4096, []) = Ok (m1, map tmp_of (place 4096 recs)) ∧
    place_tables 512 0 m1 eod = Ok (m2, eod + 8 * Z.of_nat (length recs)) ∧ same_out m m2 0 4096 ∧
    (∀ i, 0 <= i < 512 → get4 m2 (i * 8 + 4) = Ok (slots_of (place 4096 recs) i)) ∧
    (∀ i, 0 <= i < 512 → get4 m2 (i * 8) = Ok (table_pos eod (place 4096 recs) i)).
Proof.
  intros He Hl Hm Hk Hst. pose proof (rtotal_nonneg recs). pose proof (length_rtotal recs).
  destruct (clear_ok m 0 4096) as (m0 & E0 & S0); [lia..|]. assert (L0 : length m0 = length m) by apply S0.
  destruct (scan_ok (Z.of_nat (length recs)) recs [] m0 4096 (S (length m0)) eod) as (m1 & E1 & S1 & C1); try (lia || done).
  { eapply stored_outside; [exact S0|lia|done]. }
  { eapply Forall_impl; [exact Hk|]. by intros r [Hb _]. }
  { intros i Hi. by apply (get4_clear _ _ _ _ _ E0); lia. }
  cbn [app map] in *. assert (L1 : length m1 = length m0) by apply S1.
  destruct (place_tables_ok eod (place 4096 recs) 512 0 m1) as (m2 & E2 & S2 & C2 & P2); rewrite ?place_length; try (lia || done).
  exists m0, m1, m2. rewrite table_pos_0 in E2. change (0 + Z.of_nat 512) with 512 in E2. rewrite table_pos_512, place_length in E2.
  splits; try done. eapply same_out_trans; [exact S0|]. by eapply same_out_trans.
Qed.

Lemma makeFinish_ok reset recs c :
  recs ≠ [] → ignore_case c = ic → nrecord c = Z.of_nat (length recs) → hr c = start + rtotal recs →
  hr c + sizeof_slot * Z.of_nat (length recs) <= Z.of_nat (length (file c)) → Z.of_nat (length (file c)) < 2 ^ 32 →
  Forall (λ r, key_ok ic r.1) recs → Forall (stored (file c)) (place start recs) →
  (reset = false → let n := sizeof_slot * Z.of_nat (length recs) in mrd (file c) (hr c) n = Ok (replicate (Z.to_nat n) 0)) →
  ∃ c' pos, makeFinish reset c = Ok (c', pos) ∧ pos = hr c + sizeof_slot * Z.of_nat (length recs) ∧
    (Z.to_nat pos ≤ length (file c'))%nat ∧
    ignore_case c' = ic ∧ nrecord c' = nrecord c ∧ database ic (take (Z.to_nat pos) (file c')) recs.
Proof.
  change start with 4096. change sizeof_slot with 8. intros Hne Hic Hn Hhr Hl Hm Hk Hst Hreset.
  set (eod := hr c) in *. pose proof (rtotal_nonneg recs).
  destruct (tables_placed (file c) recs eod) as (m0 & m1 & m2 & E0 & L0 & E1 & E2 & S2 & C2 & P2); [done..|].
  assert (Hlen : 0 < Z.of_nat (length recs)) by (destruct recs; [done|simpl; lia]).
  assert (L2 : length m2 = length (file c)) by apply S2.
  destruct (clear_ok m2 eod (8 * Z.of_nat (length recs))) as (m3 & E3 & S3); [lia..|].
  assert (L3 : length m3 = length m2) by apply S3.
  assert (Ht := λ E, empty_tables m2 m3 eod (place 4096 recs) E ltac:(lia) C2 P2). rewrite place_length in Ht. specialize (Ht E3).
  destruct (store_all_ok eod (place 4096 recs) [] m3 (slot (cur c), nslot (cur c))) as (m4 & sl & E4 & S4 & T4);
    cbn [app] in *; rewrite ?place_length in *; [split; [apply place_blocks_ok; (lia || done)|lia]|lia|lia|done|].
  assert (L4 : length m4 = length m3) by apply S4.
  set (last := match list.last (map tmp_of (place 4096 recs)) with Some t => t_pos t | None => hr c end).
  exists (set_slot sl.1 sl.2 (set_hp 0 (set_hr last (set_file m4 (Cdb (file c) (nrecord c) eod (ignore_case c) (hr c) (cur c)))))).
  exists (eod + 8 * Z.of_nat (length recs)). splits; try done; [|cbn; lia|].
  - unfold makeFinish. change start with 4096. rewrite u32_small by lia. cbn [nrecord file ignore_case hr cur].
    fold eod. rewrite Hn. destruct (Z.ltb_spec 0 (Z.of_nat (length recs))); [|lia]. rewrite E0. cbn [mbind res_bind]. rewrite Hic, E1.
    cbn [mbind res_bind]. change (Z.to_nat CDB_NUM_HASH_TABLE_POINTER) with 512%nat. fold eod. rewrite E2. cbn [mbind res_bind].
    replace (eod + 8 * Z.of_nat (length recs) - eod) with (8 * Z.of_nat (length recs)) by lia.
    assert (E3' : (if reset then clear_at m2 eod (8 * Z.of_nat (length recs)) else Ok m2) = Ok m3).
    { destruct reset; [done|]. rewrite <-E3. symmetry. apply mwr_id. rewrite length_replicate, Z2Nat.id by lia.
      destruct S2 as [_ S2]. rewrite S2 by lia. by apply Hreset. }
    rewrite E3'. cbn [mbind res_bind]. rewrite Nat2Z.id. change (Z.of_nat (length (@nil block))) with 0 in E4. rewrite E4. cbn [mbind res_bind]. by destruct sl.
  - cbn [file set_slot set_hp set_hr set_file set_cur]. set (k := Z.to_nat _).
    assert (Hk' : Z.of_nat k = eod + 8 * Z.of_nat (length recs)) by lia.
    split; change start with 4096; rewrite <-?Hhr; change sizeof_slot with 8.
    + rewrite length_take. lia.
    + done.
    + apply Forall_forall. intros b Hb. assert (Hr := record_range _ _ _ Hb). apply stored_take; [lia|lia|].
      rewrite Forall_forall in Hst. apply (stored_same_out m2 m4 eod (eod + 8 * Z.of_nat (length recs)));
        [by eapply same_out_trans|lia|]. apply (stored_same_out (file c) m2 0 4096); [done|lia|by apply Hst].
    + intros i Hi. apply table_ok_take; [lia|lia|by rewrite place_length|done|by apply T4].
Qed.
End Building.

(** ** Searching a database *)

Lemma filter_narrow {A} (P Q : A → Prop) `{∀ x, Decision (P x)} `{∀ x, Decision (Q x)} (l : list A) :
  (∀ x, P x → Q x) → filter P (filter Q l) = filter P l.
Proof.
  intros HPQ. induction l as [|x l IH]; [done|]. rewrite !(filter_cons _ _ l). destruct (decide (Q x)) as [HQ|HQ].
  - rewrite filter_cons, IH. done.
  - rewrite IH. destruct (decide (P x)); [naive_solver|done].
Qed.

Section Searching.
Context (ic : bool) (m : list Z) (recs : list (list Z * list Z)) (Hdb : database ic m recs).

Let bl := place start recs.
Let eod := start + rtotal recs.

Definition matches (k : list Z) (b : block) : Prop := canon ic b.2.1 = canon ic k.

#[local] Instance matches_dec k b : Decision (matches k b).
Proof. unfold matches. apply _. Defined.

Lemma block_facts b : b ∈ bl → stored m b ∧ key_ok ic b.2.1 ∧ 4096 <= b.1 < 2 ^ 32.
Proof.
  intros Hb. destruct Hdb as [[Hsz Hm] Hk Hst _]. rewrite Forall_forall in Hst. assert (Hr := record_range _ _ _ Hb).
  split; [by apply Hst|]. assert (H := Hst b Hb). destruct H as (H0 & H1 & _). pose proof (rlen_ge b.2).
  split; [|consts; lia]. apply (list_elem_of_fmap_2 snd) in Hb. unfold bl in Hb. rewrite place_records in Hb.
  rewrite Forall_forall in Hk. by apply Hk.
Qed.

Lemma db_start : get4 m 0 = Ok eod ∧ 0 <= eod ∧ Z.of_nat (length m) = eod + 8 * Z.of_nat (length recs) ∧ Z.of_nat (length m) < 2 ^ 32.
Proof.
  destruct (db_tables _ _ _ Hdb 0 ltac:(done)) as (H1 & _). rewrite table_pos_0 in H1. destruct (db_size _ _ _ Hdb) as [Hsz Hm].
  pose proof (rtotal_nonneg recs). unfold eod in *. consts. splits; (done || lia).
Qed.

(** [open] finds the number of the records and the end of their data. *)
Lemma open_ok c : open m c = Ok (Cdb m (Z.of_nat (length recs)) eod (ignore_case c) (hr c) (cur c)).
Proof.
  destruct db_start as (H0 & He & Hsz & Hm). unfold open. pose proof (get4_inv _ _ _ H0).
  destruct (Z.eqb_spec (Z.of_nat (length m)) 0); [lia|]. rewrite H0. cbn [mbind res_bind]. do 2 f_equal.
  rewrite Hsz. replace (eod + 8 * Z.of_nat (length recs) - eod) with (Z.of_nat (length recs) * 8) by lia.
  unfold u64, u32. change sizeof_slot with 8. rewrite (Z.mod_small _ (2 ^ 64)), Z.div_mul, Z.mod_small by lia. done.
Qed.

Context (k : list Z) (Hk : key_ok ic k).
Let i := hashv ic k mod 512.
Let n := slots_of ic bl i.
Let s := Z.to_nat (hashv ic k / 512 mod n).

Section Table.
Context (L : list (option block)) (HL : Z.of_nat (length L) = n) (Hn : 0 < n < 2 ^ 31)
  (Hs : slots_at ic m (table_pos ic eod bl i) L) (Hp : probing (home_slot ic n) L (in_table ic i bl)).

Lemma table_block b : Some b ∈ L → b ∈ bl.
Proof.
  intros Hb. destruct (home_lt ic n b ltac:(lia)) as [Hh _]. eapply probing_elem in Hb; [|exact Hp|lia].
  unfold in_table in Hb. by apply list_elem_of_filter in Hb as [_ Hb].
Qed.

Definition cursor_ok (c : cdb) (j : nat) : Prop :=
  file c = m ∧ ignore_case c = ic ∧ hp (cur c) = i * 8 ∧ key (cur c) = k ∧ khash (cur c) = hashv ic k ∧
  loop (cur c) = Z.of_nat j ∧ nslot (cur c) = Z.of_nat (rotate_nat_add s (j - 1) (length L)) ∧
  slot (cur c) = table_pos ic eod bl i + nslot (cur c) * 8.

Definition hits (j : nat) : list block := filter (matches k) (until_none (drop j (rotate s L))).

Lemma index_in : 0 <= i < 512.
Proof. by apply Z.mod_pos_bound. Qed.

Lemma header : get4 m (i * 8) = Ok (table_pos ic eod bl i) ∧ get4 m (i * 8 + 4) = Ok n.
Proof. destruct (db_tables _ _ _ Hdb i index_in) as (H1 & H2 & _). done. Qed.

(** Going on to the slot of the turn [j]. *)
Lemma advance_ok c j : cursor_ok c j →
  ∃ c', (if 1 <? Z.of_nat (S j) then advance n (set_loop (Z.of_nat (S j)) c) else Ok (set_loop (Z.of_nat (S j)) c)) = Ok c' ∧
    cursor_ok c' (S j).
Proof.
  intros (Hf & Hic & Hhp & Hkey & Hkh & Hlo & Hns & Hsl). destruct j as [|j].
  - exists (set_loop 1 c). split; [done|]. by splits.
  - destruct (Z.ltb_spec 1 (Z.of_nat (S (S j)))); [|lia]. unfold advance. cbn [nslot cur set_loop set_cur hp file slot].
    pose proof (slot_next s j (length L) ltac:(lia) ltac:(lia)) as Hnext.
    replace (S j - 1)%nat with j in Hns by lia. rewrite HL, <-Hns in Hnext. destruct header as [Hpos _].
    destruct (Z.eqb_spec (u32 (nslot (cur c) + 1)) n) as [E|E].
    + rewrite Hhp, Hf, Hpos. cbn [mbind res_bind]. eexists. split; [done|]. unfold cursor_ok.
      replace (S (S j) - 1)%nat with (S j) by lia. rewrite <-Hnext. splits; try done. cbn. lia.
    + eexists. split; [done|]. unfold cursor_ok. replace (S (S j) - 1)%nat with (S j) by lia.
      splits; try done. cbn [slot nslot cur set_slot set_cur set_loop]. rewrite Hsl. change sizeof_slot with 8.
      assert (u32 (nslot (cur c) + 1) = nslot (cur c) + 1); [|lia]. rewrite u32_small; [done|].
      pose proof (rotate_nat_add_lt s j (length L) ltac:(lia)). lia.
Qed.

Lemma match_ok c j b : cursor_ok c j → b ∈ bl → hr c = b.1 → Z.of_nat (length b.2.1) = Z.of_nat (length k) →
  ∃ c', match_ c = Ok (c', bool_decide (matches k b)) ∧ cursor_ok c' j ∧
    (matches k b → elem c' = Ok b.2.2).
Proof.
  intros (Hf & Hic & Hhp & Hkey & Hkh & Hlo & Hns & Hsl) Hb Hhr Hlen.
  destruct (block_facts b Hb) as ((_ & H1 & _ & _ & H4 & H5 & H6 & H7) & Hkb & _). unfold match_.
  cbn [set_hr cur file hr ignore_case]. rewrite Hkey, Hhr, Hf, H5. cbn [mbind res_bind]. rewrite <-Hlen, H6. cbn [mbind res_bind].
  rewrite Hic, u_equal_canon by (done || lia). unfold matches.
  destruct (decide (canon ic k = canon ic b.2.1)) as [E|E].
  - rewrite !bool_decide_eq_true_2 by done. eexists. split; [done|]. split; [by splits|]. intros _. unfold elem. cbn. by rewrite Hf.
  - rewrite !bool_decide_eq_false_2 by done. eexists. split; [done|]. split; [by splits|]. by intros ?.
Qed.

Lemma findNext_step_ok c j : cursor_ok c j → (j ≤ length L)%nat →
  match rotate s L !! j with
  | Some (Some b) =>
      ∃ c', findNext_step c = Ok (if decide (matches k b) then inr (c', true) else inl c') ∧ cursor_ok c' (S j) ∧
        (matches k b → elem c' = Ok b.2.2)
  | _ => ∃ c', findNext_step c = Ok (inr (c', false)) ∧ file c' = m ∧ ignore_case c' = ic
  end.
Proof.
  intros Hc Hj. assert (H := Hc). destruct H as (Hf & Hic & Hhp & _ & _ & Hlo & _ & _). destruct header as [_ Hcnt].
  unfold findNext_step. rewrite Hf, Hhp, Hcnt. cbn [mbind res_bind]. rewrite Hlo, u32_small by lia.
  replace (Z.of_nat j + 1) with (Z.of_nat (S j)) by lia. cbn [set_loop set_cur cur loop].
  destruct (Z.ltb_spec n (Z.of_nat (S j))).
  { rewrite lookup_ge_None_2 by (rewrite length_rotate; lia). eexists. by split. }
  destruct (advance_ok c j Hc) as (c1 & E1 & Hc1). change (set_cur _ c) with (set_loop (Z.of_nat (S j)) c).
  rewrite E1. cbn [mbind res_bind]. assert (H1 := Hc1). destruct H1 as (Hf1 & Hic1 & Hhp1 & Hkey1 & Hkh1 & Hlo1 & Hns1 & Hsl1).
  replace (S j - 1)%nat with j in Hns1 by lia. rewrite Hns1 in Hsl1.
  destruct (lookup_lt_is_Some_2 (rotate s L) j) as [o Ho]; [rewrite length_rotate; lia|].
  assert (Hslot := slots_at_rotate ic m _ L s j o Hs ltac:(lia) Ho). rewrite <-Hsl1 in Hslot. rewrite Ho, Hf1.
  destruct o as [b|]; cbn [slot_holds] in Hslot; [|rewrite Hslot; eexists; by split].
  destruct Hslot as [Hhash Hpos]. rewrite Hpos. cbn [mbind res_bind].
  assert (Hb : b ∈ bl) by (apply table_block; apply list_elem_of_lookup_2 in Ho; by apply elem_of_rotate in Ho).
  destruct (block_facts b Hb) as (Hst & Hkb & Hrange). destruct (Z.eqb_spec b.1 0); [lia|]. rewrite Hhash. cbn [mbind res_bind].
  rewrite Hkh1. destruct (Z.eqb_spec (hash_of ic b) (hashv ic k)) as [Eh|Eh].
  - destruct Hst as (_ & _ & _ & _ & H4 & _). cbn [set_hr file cur]. rewrite Hf1, H4. cbn [mbind res_bind]. rewrite Hkey1.
    destruct (Z.eqb_spec (Z.of_nat (length b.2.1)) (Z.of_nat (length k))) as [El|El].
    + destruct (match_ok (set_hr b.1 c1) (S j) b) as (c2 & E2 & Hc2 & He2); [by splits; rewrite ?Hsl1, ?Hns1, ?Nat.sub_0_r|done..|].
      rewrite E2. cbn [mbind res_bind fst snd]. exists c2.
      destruct (decide (matches k b)); [rewrite bool_decide_eq_true_2 by done|rewrite bool_decide_eq_false_2 by done]; done.
    + assert (Hno : ¬ matches k b).
      { intros Hm. apply El. by rewrite <-(canon_length ic b.2.1), Hm, canon_length. }
      eexists. rewrite decide_False by done. split; [done|]. split; [by splits; rewrite ?Hsl1, ?Hns1, ?Nat.sub_0_r|done].
  - assert (Hno : ¬ matches k b) by (intros Hm; apply Eh; by apply hashv_canon).
    eexists. rewrite decide_False by done. split; [done|done].
Qed.

Lemma hits_step j : hits j =
  match rotate s L !! j with
  | Some (Some b) => if decide (matches k b) then b :: hits (S j) else hits (S j)
  | _ => []
  end.
Proof.
  unfold hits. destruct (rotate s L !! j) as [[b|]|] eqn:E.
  - rewrite (drop_S _ (Some b)) by done. cbn [until_none]. by rewrite filter_cons.
  - by rewrite (drop_S _ None) by done.
  - apply lookup_ge_None in E. by rewrite drop_ge.
Qed.

Lemma findNext_loop : ∀ d j c fuel, cursor_ok c j → (j + d = length L)%nat → (d < fuel)%nat →
  match hits j with
  | [] => ∃ c', iterate fuel findNext_step c = Ok (c', false) ∧ file c' = m ∧ ignore_case c' = ic
  | b :: tl => ∃ c' j', iterate fuel findNext_step c = Ok (c', true) ∧ elem c' = Ok b.2.2 ∧
      cursor_ok c' j' ∧ (j' ≤ length L)%nat ∧ hits j' = tl
  end.
Proof.
  induction d as [|d IH]; intros j c fuel Hc Hj Hf; (destruct fuel as [|fuel]; [lia|]); cbn [iterate];
    assert (Hstep := findNext_step_ok c j Hc ltac:(lia)); rewrite hits_step.
  - rewrite lookup_ge_None_2 in * by (rewrite length_rotate; lia). destruct Hstep as (c' & -> & ?). eauto.
  - destruct (rotate s L !! j) as [[b|]|]; [|destruct Hstep as (c' & -> & ?); eauto..].
    destruct Hstep as (c' & E & Hc' & He). rewrite E. destruct (decide (matches k b)) as [Hm|Hm].
    + exists c', (S j). splits; try done; [by apply He|lia].
    + apply IH; [done|lia|lia].
Qed.

Lemma findNext_ok c j : cursor_ok c j → (j ≤ length L)%nat →
  match hits j with
  | [] => ∃ c', findNext c = Ok (c', false) ∧ file c' = m ∧ ignore_case c' = ic
  | b :: tl => ∃ c' j', findNext c = Ok (c', true) ∧ elem c' = Ok b.2.2 ∧
      cursor_ok c' j' ∧ (j' ≤ length L)%nat ∧ hits j' = tl
  end.
Proof.
  intros Hc Hj. unfold findNext. assert (H := Hc). destruct H as (Hf & _ & Hhp & _). destruct header as [_ Hcnt].
  rewrite Hf, Hhp, Hcnt. cbn [mbind res_bind]. apply (findNext_loop (length L - j)); [done|lia|lia].
Qed.

Lemma next_all_ok : ∀ fuel c j, cursor_ok c j → (j ≤ length L)%nat → (length (hits j) < fuel)%nat →
  next_all fuel c = Ok (map (λ b, b.2.2) (hits j)).
Proof.
  induction fuel as [|fuel IH]; intros c j Hc Hj Hf; [lia|]. cbn [next_all]. assert (H := findNext_ok c j Hc Hj).
  destruct (hits j) as [|b tl] eqn:Eh.
  - destruct H as (c' & -> & _). done.
  - destruct H as (c' & j' & E & He & Hc' & Hj' & Eh'). rewrite E. cbn [mbind res_bind fst snd]. rewrite He. cbn [mbind res_bind].
    rewrite (IH c' j') by (rewrite ?Eh'; cbn [length] in Hf; (done || lia)). by rewrite Eh'.
Qed.

Lemma s_lt : (s < length L)%nat.
Proof. pose proof (Z.mod_pos_bound (hashv ic k / 512) n ltac:(lia)). unfold s. lia. Qed.

Lemma matches_home b : matches k b → home_slot ic n b = s ∧ index_of ic b = i.
Proof.
  intros Hm. unfold home_slot, index_of, hash_of, s, i. change CDB_NUM_HASH_TABLE_POINTER with 512.
  by rewrite (hashv_canon ic _ _ Hm).
Qed.

Lemma hits_0 : hits 0 = filter (matches k) bl.
Proof.
  unfold hits. rewrite drop_0. rewrite <-(filter_narrow (matches k) (λ b, home_slot ic n b = s)) by (intros b Hm; by apply matches_home).
  pose proof (pr_reach _ _ _ Hp s s_lt) as Hr. unfold at_home in Hr. rewrite Hr.
  rewrite filter_narrow by (intros b Hm; by apply matches_home). unfold in_table.
  apply filter_narrow. intros b Hm. by apply matches_home.
Qed.
End Table.

Lemma values_ok : map (λ b : block, b.2.2) (filter (matches k) bl) = values ic k recs.
Proof.
  unfold values, bl. assert (H : ∀ l p, map (λ b : block, b.2.2) (filter (matches k) (place p l))
    = map snd (filter (λ r, canon ic r.1 = canon ic k) l)); [|apply H].
  induction l as [|r l IH]; intros p; [done|]. cbn [place]. rewrite !filter_cons. unfold matches at 1. cbn [snd].
  destruct (decide (canon ic r.1 = canon ic k)); simpl; by rewrite IH.
Qed.

Lemma empty_table : n <= 0 → filter (matches k) bl = [].
Proof.
  intros H0. assert (E : in_table ic i bl = []) by (apply nil_length_inv; unfold n, slots_of in H0; lia).
  apply (f_equal (filter (matches k))) in E. unfold in_table in E. rewrite filter_narrow in E; [done|].
  intros b Hm. unfold index_of, hash_of, i. by rewrite (hashv_canon ic _ _ Hm).
Qed.

(** What [find] and the calls of [findNext] behind it answer. *)
Lemma find_search c : file c = m → ignore_case c = ic →
  match filter (matches k) bl with
  | [] => ∃ c', find_key k c = Ok (c', false) ∧ file c' = m ∧ ignore_case c' = ic
  | b :: tl => ∃ c', find_key k c = Ok (c', true) ∧ elem c' = Ok b.2.2 ∧ file c' = m ∧ ignore_case c' = ic ∧
      ∀ fuel, (length tl < fuel)%nat → next_all fuel c' = Ok (map (λ b, b.2.2) tl)
  end.
Proof.
  intros Hf Hic. unfold find_key, setKey, cdb_hash. rewrite Hic, u_cdb_hash_ok. cbn [mbind res_bind]. unfold find.
  cbn [set_cur cur khash set_hp file]. change CDB_NUM_HASH_TABLE_POINTER with 512. change sizeof_pointer with 8. fold i.
  assert (Hi := index_in). fold i in Hi. rewrite u32_small by lia.
  destruct (db_tables _ _ _ Hdb i Hi) as (H1 & H2 & L & HL & Hs & Hp). fold bl eod n in H1, H2, HL, Hs, Hp.
  change sizeof_pointer with 8 in H1, H2. rewrite Hf, H2. cbn [mbind res_bind].
  destruct (Z.eqb_spec n 0) as [E|E].
  { rewrite empty_table by lia. eexists. done. }
  cbn [negb]. rewrite H1. cbn [mbind res_bind]. destruct db_start as (_ & He & Hsz & Hm).
  pose proof (table_pos_range ic eod bl i Hi) as Hr. assert (Hbl : length bl = length recs) by apply place_length. rewrite Hbl in Hr.
  assert (Hn : 0 < n < 2 ^ 31) by (unfold n, slots_of in *; lia). fold n in Hr.
  assert (Hsl := s_lt L HL Hn). fold i n s in Hsl. assert (Hsz' : Z.of_nat s = hashv ic k / 512 mod n).
  { unfold s. pose proof (Z.mod_pos_bound (hashv ic k / 512) n). lia. }
  rewrite <-Hsz'. change sizeof_slot with 8. rewrite u32_small by lia.
  match goal with |- context [set_loop 0 ?x] => set (c0 := set_loop 0 x) end.
  assert (Hc0 : cursor_ok L c0 0).
  { unfold cursor_ok. cbn. rewrite rotate_nat_add_0 by done. fold i n s. splits; (done || lia). }
  destruct (lookup_lt_is_Some_2 (rotate s L) 0) as [o Ho]; [rewrite length_rotate; lia|].
  assert (Hslot := slots_at_rotate ic m _ L s 0 o Hs ltac:(lia) Ho). rewrite rotate_nat_add_0 in Hslot by done.
  assert (H0 := hits_0 L HL Hn Hp). fold bl in H0. rewrite <-H0.
  assert (Hfind := findNext_ok L HL Hn Hs Hp c0 0 Hc0 ltac:(lia)).
  cbn [file set_slot set_hp set_cur]. rewrite Hf. destruct o as [b|]; cbn [slot_holds] in Hslot.
  - assert (Hb : b ∈ bl) by (eapply table_block; try done; apply list_elem_of_lookup_2 in Ho; by apply elem_of_rotate in Ho).
    destruct (block_facts b Hb) as (_ & _ & Hb0). destruct Hslot as [_ Hslot]. rewrite Hslot. cbn [mbind res_bind].
    destruct (Z.eqb_spec b.1 0); [lia|]. cbn [negb]. destruct (hits L 0) as [|b' tl].
    + destruct Hfind as (c' & E' & H'). by exists c'.
    + destruct Hfind as (c' & j' & E' & He' & Hc' & Hj' & Eh). exists c'. splits; try done; [by apply Hc'..|].
      intros fuel Hfu. subst tl. by eapply next_all_ok.
  - rewrite Hslot. cbn [mbind res_bind Z.eqb negb]. rewrite hits_step. fold i n s. rewrite Ho. by eexists.
Qed.

Lemma find_all_ok c fuel : file c = m → ignore_case c = ic → (length (values ic k recs) ≤ fuel)%nat →
  find_all fuel k c = Ok (values ic k recs).
Proof.
  intros Hf Hic Hfu. rewrite <-values_ok in *. rewrite length_map in Hfu. unfold find_all.
  assert (H := find_search c Hf Hic). destruct (filter (matches k) bl) as [|b tl].
  - by destruct H as (c' & -> & _).
  - destruct H as (c' & E & He & _ & _ & Hn). rewrite E. cbn [mbind res_bind fst snd]. rewrite He. cbn [mbind res_bind].
    cbn [length] in Hfu. by rewrite Hn by lia.
Qed.

Lemma at_ok c : file c = m → ignore_case c = ic → ∃ c', at_ k c = Ok (c', default [] (head (values ic k recs))).
Proof.
  intros Hf Hic. rewrite <-values_ok. unfold at_. assert (H := find_search c Hf Hic).
  destruct (filter (matches k) bl) as [|b tl].
  - destruct H as (c' & -> & _). by exists c'.
  - destruct H as (c' & E & He & _). rewrite E. cbn [mbind res_bind fst snd]. rewrite He. by exists c'.
Qed.
End Searching.

(** ** Going over the records *)

Lemma call_for_all {A} (f : list Z → Z → A → res A) (g : A → list Z * list Z → A) m recs : ∀ p a fuel,
  Forall (stored m) (place p recs) → (∀ b a, stored m b → f m b.1 a = Ok (g a b.2)) → (length recs < fuel)%nat →
  iterate fuel (all_step f m (p + rtotal recs)) (p, a) = Ok (foldl g a recs).
Proof.
  induction recs as [|r recs IH]; intros p a fuel Hst Hf Hfu; (destruct fuel as [|fuel]; [simpl in Hfu; lia|]);
    cbn [iterate]; unfold all_step at 1.
  - cbn [rtotal foldr]. destruct (Z.ltb_spec p (p + 0)); [lia|]. done.
  - cbn [rtotal foldr place foldl] in *. fold (rtotal recs). apply Forall_cons in Hst as [Hr Hst]. pose proof (rlen_ge r).
    pose proof (rtotal_nonneg recs). destruct (Z.ltb_spec p (p + (rlen r + rtotal recs))); [|lia].
    assert (Hcall := Hf _ a Hr). cbn [fst snd] in Hcall. destruct Hr as (_ & _ & _ & _ & H4 & H5 & _). cbn [fst snd] in *.
    rewrite H4. cbn [mbind res_bind]. rewrite H5. cbn [mbind res_bind]. rewrite Hcall. cbn [mbind res_bind].
    replace (p + sizeof_header + Z.of_nat (length r.1) + Z.of_nat (length r.2)) with (p + rlen r) by (unfold rlen; lia).
    rewrite Z.add_assoc. apply IH; [done|done|simpl in Hfu; lia].
Qed.

Lemma database_call {A} ic m recs c (f : list Z → Z → A → res A) (g : A → list Z * list Z → A) a :
  database ic m recs → file c = m → start_hash_table_slot c = start + rtotal recs →
  (∀ b a, stored m b → f m b.1 a = Ok (g a b.2)) → callForAllEntry f c a = Ok (foldl g a recs).
Proof.
  intros Hdb Hf Hs H. unfold callForAllEntry. rewrite Hf, Hs. apply call_for_all; [apply Hdb|done|].
  destruct (db_size _ _ _ Hdb) as [Hsz _]. pose proof (rtotal_nonneg recs). consts. lia.
Qed.

Lemma foldl_snoc_map {A B} (f : B → A) l a : foldl (λ v x, v ++ [f x]) a l = a ++ map f l.
Proof.
  revert a. induction l as [|x l IH]; intros a; simpl; [by rewrite app_nil_r|]. by rewrite IH, <-app_assoc.
Qed.

Lemma foldl_snoc_concat {A B} (f : B → list A) l a : foldl (λ v x, v ++ f x) a l = a ++ concat (map f l).
Proof.
  revert a. induction l as [|x l IH]; intros a; simpl; [by rewrite app_nil_r|]. by rewrite IH, <-app_assoc.
Qed.

Lemma getKeys_ok ic m recs c vec :
  database ic m recs → file c = m → start_hash_table_slot c = start + rtotal recs →
  getKeys c vec = Ok (vec ++ map fst recs).
Proof.
  intros Hdb Hf Hs. unfold getKeys.
  rewrite (database_call ic m recs c _ (λ vec r, vec ++ [r.1]) vec Hdb Hf Hs), foldl_snoc_map; [done|].
  intros b a (_ & _ & _ & _ & H4 & _ & H6 & _). rewrite H4. cbn [mbind res_bind]. by rewrite H6.
Qed.

(** ** The text of a database *)

Definition record_text (r : list Z * list Z) : list Z :=
  BS "+" ++ decimal 10 (Z.of_nat (length r.1)) ++ BS "," ++ decimal 10 (Z.of_nat (length r.2)) ++
  BS ":" ++ r.1 ++ BS "->" ++ r.2 ++ [10].

Lemma print_ok ic m recs c :
  database ic m recs → file c = m → start_hash_table_slot c = start + rtotal recs →
  print c = Ok (concat (map record_text recs)).
Proof.
  intros Hdb Hf Hs. unfold print. destruct (db_size _ _ _ Hdb) as [Hsz _]. pose proof (rtotal_nonneg recs).
  rewrite Hf. destruct (Nat.eqb_spec (length m) 0); [consts; lia|].
  rewrite (database_call ic m recs c _ (λ buf r, buf ++ record_text r) [] Hdb Hf Hs), foldl_snoc_concat; [done|].
  intros b a (_ & _ & _ & _ & H4 & H5 & H6 & H7). unfold print_entry. rewrite H4. cbn [mbind res_bind].
  rewrite H5. cbn [mbind res_bind]. rewrite H6. cbn [mbind res_bind]. by rewrite H7.
Qed.

Lemma read_step_record m p n r tail : Z.of_nat (length r.1) < 2 ^ 31 → Z.of_nat (length r.2) < 2 ^ 31 →
  read_step (m, p, n, record_text r ++ tail)
  = m' ← put_record m p r.1 r.2; Ok (inl (m', p + rlen r, u32 (n + 1), tail)).
Proof.
  intros Hk Hd. assert (Et : record_text r ++ tail = 43 :: decimal 10 (Z.of_nat (length r.1)) ++ 44 ::
    (decimal 10 (Z.of_nat (length r.2)) ++ 58 :: (r.1 ++ 45 :: 62 :: (r.2 ++ 10 :: tail)))).
  { unfold record_text. repeat (progress (rewrite <-?app_assoc; cbn [app])). done. }
  rewrite Et. unfold read_step, put_record. change (Cache.skip_blanks (43 :: ?l)) with (43 :: l). cbn [Z.eqb Pos.eqb negb].
  rewrite CacheFacts.read_number_decimal by (done || lia). cbn [mbind res_bind drop].
  rewrite drop_0, CacheFacts.read_number_decimal by (done || lia). cbn [mbind res_bind drop]. rewrite !drop_0, !Nat2Z.id.
  rewrite take_app_length, drop_app_length. destruct (put4 m p _) as [m1|]; [|done]. cbn [mbind res_bind].
  destruct (put4 m1 (p + 4) _) as [m2|]; [|done]. cbn [mbind res_bind].
  destruct (mwr m2 (p + sizeof_header) r.1) as [m3|]; [|done]. cbn [mbind res_bind drop].
  rewrite !drop_0, take_app_length, drop_app_length. cbn [drop]. rewrite !drop_0.
  replace (p + rlen r) with (p + sizeof_header + Z.of_nat (length r.1) + Z.of_nat (length r.2)) by (unfold rlen; lia).
  by destruct (mwr m3 _ r.2) as [m4|].
Qed.

Lemma read_records recs : ∀ m p n fuel,
  0 <= p → p + rtotal recs <= Z.of_nat (length m) → Z.of_nat (length m) < 2 ^ 32 →
  Forall (λ r, Z.of_nat (length r.1) < 2 ^ 31 ∧ Z.of_nat (length r.2) < 2 ^ 31) recs →
  0 <= n → n + Z.of_nat (length recs) < 2 ^ 32 → (length recs < fuel)%nat →
  ∃ m', iterate fuel read_step (m, p, n, concat (map record_text recs) ++ [10])
      = Ok (m', p + rtotal recs, n + Z.of_nat (length recs), []) ∧
    same_out m m' p (p + rtotal recs) ∧ Forall (stored m') (place p recs).
Proof.
  induction recs as [|r recs IH]; intros m p n fuel Hp Hl Hm Hlen Hn Hn' Hf;
    (destruct fuel as [|fuel]; [simpl in Hf; lia|]); cbn [iterate].
  - exists m. cbn [rtotal foldr map concat length app]. rewrite !Z.add_0_r. done.
  - apply Forall_cons in Hlen as [[Hk Hd] Hlen]. cbn [rtotal foldr map concat length place] in *. fold (rtotal recs) in *.
    pose proof (rtotal_nonneg recs). pose proof (rlen_ge r). rewrite <-app_assoc, read_step_record by done.
    destruct (put_record_ok m p r.1 r.2) as (m1 & E1 & S1 & R1); rewrite <-?surjective_pairing in *; [lia..|].
    rewrite E1. cbn [mbind res_bind]. rewrite u32_small by lia. assert (L1 : length m1 = length m) by apply S1.
    destruct (IH m1 (p + rlen r) (n + 1) fuel) as (m2 & E2 & S2 & R2); try (lia || done).
    exists m2. rewrite E2. split; [pairs|]. split.
    + eapply same_out_trans; (eapply same_out_widen; [eassumption|lia..]).
    + constructor; [|done]. eapply stored_same_out; [exact S2|cbn [fst snd]; lia|done].
Qed.

Lemma read_cdb_ok recs c :
  recs ≠ [] → Forall (λ r, key_ok (ignore_case c) r.1) recs →
  Forall (λ r, Z.of_nat (length r.1) < 2 ^ 31 ∧ Z.of_nat (length r.2) < 2 ^ 31) recs →
  start + rtotal recs + sizeof_slot * Z.of_nat (length recs) <= Z.of_nat (length (file c)) →
  Z.of_nat (length (file c)) < 2 ^ 32 →
  ∃ c', read_cdb (concat (map record_text recs) ++ [10]) c = Ok (c', []) ∧ database (ignore_case c) (file c') recs.
Proof.
  intros Hne Hk Hlen Hl Hm. consts. pose proof (rtotal_nonneg recs). unfold read_cdb.
  cbn [file hr nrecord ignore_case cur makeStart start_hash_table_slot]. change start with 4096.
  destruct (read_records recs (file c) 4096 0 (S (length (concat (map record_text recs) ++ [10]))))
    as (m1 & E1 & S1 & R1); [lia|lia|done|done|lia|lia| |].
  { rewrite length_app. cbn [length]. assert (length recs ≤ length (concat (map record_text recs)))%nat; [|lia].
    clear. induction recs as [|r recs IH]; cbn [map concat length]; [lia|]. rewrite length_app. unfold record_text at 1.
    cbn [app length]. lia. }
  rewrite E1. cbn [mbind res_bind]. assert (L1 : length m1 = length (file c)) by apply S1.
  destruct (makeFinish_ok (ignore_case c) true recs (Cdb m1 (0 + Z.of_nat (length recs)) 0 (ignore_case c) (4096 + rtotal recs) (cur c)))
    as (c2 & pos & E2 & Hpos & Hle & Hic & _ & Hdb); cbn [file hr nrecord ignore_case]; consts; try (lia || done).
  rewrite E2. cbn [mbind res_bind fst snd]. eexists. split; [done|]. exact Hdb.
Qed.

(** ** Saving a hash table *)

Section Saving.
Context (value : hnode → option (list Z) * bool).

Definition saved_records (l : list hnode) : list (list Z * list Z) :=
  omap (λ n, (λ d, (nkey n, d)) <$> (value n).1) l.

Definition kept_nodes (l : list hnode) : list hnode := filter (λ n, (value n).2 = false) l.

(** No node is deleted whose string is asked for. *)
Definition safe_node (n : hnode) : Prop := (value n).2 = true → (value n).1 = None.

Lemma saved_app l l' : saved_records (l ++ l') = saved_records l ++ saved_records l'.
Proof. apply omap_app. Qed.

Lemma save_bucket_ok b : ∀ m p n,
  Forall safe_node b → 0 <= p → p + rtotal (saved_records b) <= Z.of_nat (length m) → Z.of_nat (length m) < 2 ^ 32 →
  ∃ m', save_bucket value b m p n
      = Ok (m', p + rtotal (saved_records b), n + Z.of_nat (length (saved_records b)), kept_nodes b) ∧
    same_out m m' p (p + rtotal (saved_records b)) ∧ Forall (stored m') (place p (saved_records b)).
Proof.
  induction b as [|x b IH]; intros m p n Hs Hp Hl Hm; cbn [save_bucket].
  - exists m. cbn. rewrite !Z.add_0_r. done.
  - apply Forall_cons in Hs as [Hx Hs]. unfold saved_records, kept_nodes, safe_node in *. rewrite filter_cons. cbn [omap list_omap] in *.
    destruct (value x) as [[d|] del] eqn:Ev; cbn [fst snd fmap option_fmap option_map rtotal foldr length place] in *.
    + destruct del; [by specialize (Hx eq_refl)|]. rewrite decide_True by done.
      fold (rtotal (omap (λ n, (λ d, (nkey n, d)) <$> (value n).1) b)) in *.
      change (list_omap _ _ ?f b) with (omap f b) in *. set (rs := omap _ b) in *. fold (rtotal rs) in *.
      pose proof (rtotal_nonneg rs). pose proof (rlen_ge (nkey x, d)).
      destruct (put_record_ok m p (nkey x) d) as (m1 & E1 & S1 & R1); [lia..|]. rewrite E1. cbn [mbind res_bind].
      assert (L1 : length m1 = length m) by apply S1.
      replace (p + sizeof_header + Z.of_nat (length (nkey x)) + Z.of_nat (length d)) with (p + rlen (nkey x, d)) by (unfold rlen; simpl; lia).
      destruct (IH m1 (p + rlen (nkey x, d)) (n + 1)) as (m2 & E2 & S2 & R2); [done|lia..|]. rewrite E2. cbn [mbind res_bind].
      exists m2. split; [pairs|]. split.
      * eapply same_out_trans; (eapply same_out_widen; [eassumption|lia..]).
      * constructor; [|done]. eapply stored_same_out; [exact S2|cbn [fst snd]; lia|done].
    + destruct (IH m p n Hs Hp Hl Hm) as (m2 & E2 & H2). cbn [mbind res_bind]. rewrite E2. cbn [mbind res_bind].
      exists m2. split; [|done]. by destruct del.
Qed.

Lemma save_table_ok t : ∀ m p n,
  Forall safe_node (concat t) → 0 <= p → p + rtotal (saved_records (concat t)) <= Z.of_nat (length m) →
  Z.of_nat (length m) < 2 ^ 32 →
  ∃ m', save_table value t m p n
      = Ok (m', p + rtotal (saved_records (concat t)), n + Z.of_nat (length (saved_records (concat t))), map kept_nodes t) ∧
    same_out m m' p (p + rtotal (saved_records (concat t))) ∧ Forall (stored m') (place p (saved_records (concat t))).
Proof.
  induction t as [|b t IH]; intros m p n Hs Hp Hl Hm; cbn [save_table concat map].
  - exists m. cbn. rewrite !Z.add_0_r. done.
  - cbn [concat] in *. rewrite saved_app in *. rewrite rtotal_app, length_app, place_records_app in *.
    apply Forall_app in Hs as [Hb Hs]. pose proof (rtotal_nonneg (saved_records b)). pose proof (rtotal_nonneg (saved_records (concat t))).
    destruct (save_bucket_ok b m p n) as (m1 & E1 & S1 & R1); [done|lia..|]. rewrite E1. cbn [mbind res_bind].
    assert (L1 : length m1 = length m) by apply S1.
    destruct (IH m1 (p + rtotal (saved_records b)) (n + Z.of_nat (length (saved_records b)))) as (m2 & E2 & S2 & R2); [done|lia..|].
    rewrite E2. cbn [mbind res_bind]. exists m2. split; [pairs|]. split.
    + eapply same_out_trans; (eapply same_out_widen; [eassumption|lia..]).
    + apply Forall_app. split; [|done]. eapply stored_outside; [exact S2|lia|done].
Qed.
End Saving.

Lemma writeTo_ok str func space t c :
  let recs := saved_records (value_of str func) (concat (table t)) in
  let sz := sizeFor (if func is Some _ then 0 else length_ t) + space in
  recs ≠ [] → Forall (safe_node (value_of str func)) (concat (table t)) →
  (func = None → length_ t = Z.of_nat (length recs)) → Forall (λ r, key_ok (HashMap.ignore_case t) r.1) recs →
  start + rtotal recs + sizeof_slot * Z.of_nat (length recs) <= sz < 2 ^ 32 →
  ∃ m t', writeTo str func space t c = Ok (m, t') ∧ database (HashMap.ignore_case t) m recs ∧
    table t' = map (kept_nodes (value_of str func)) (table t) ∧
    length_ t' = length_ t - (Z.of_nat (length (concat (table t))) - Z.of_nat (length (concat (table t')))).
Proof.
  intros recs sz Hne Hs Hn Hk Hsz. unfold writeTo. fold sz. pose proof (rtotal_nonneg recs). consts. rewrite u32_small by lia.
  destruct (save_table_ok (value_of str func) (table t) (replicate (Z.to_nat sz) 0) 4096 0) as (m1 & E1 & S1 & R1);
    rewrite ?length_replicate; fold recs; [done|lia..|]. fold recs in E1, S1, R1. change (512 * 8) with 4096.
  rewrite E1. cbn [mbind res_bind]. assert (L1 : length m1 = Z.to_nat sz) by (destruct S1 as [-> _]; by rewrite length_replicate).
  set (nrec := if func is Some _ then 0 + Z.of_nat (length recs) else if func is Some _ then 0 else length_ t).
  assert (Hcnt : nrec = Z.of_nat (length recs)) by (unfold nrec; destruct func; [done|by apply Hn]).
  destruct (makeFinish_ok (HashMap.ignore_case t) true recs (Cdb m1 nrec 0 (HashMap.ignore_case t) (4096 + rtotal recs) (cur c)))
    as (c2 & pos & E2 & Hpos & Hle & Hic & _ & Hdb); cbn [file hr nrecord ignore_case]; consts; try (lia || done).
  rewrite E2. cbn [mbind res_bind fst snd]. eexists _, _. splits; [done|exact Hdb|done|done].
Qed.

(** ** A database of a list of records *)

Lemma rtotal_text recs : rtotal recs = 8 * Z.of_nat (length recs) + text_size recs.
Proof.
  induction recs as [|r recs IH]; [done|]. cbn [rtotal text_size foldr length]. fold (rtotal recs) (text_size recs).
  rewrite IH. unfold rlen. consts. lia.
Qed.

Lemma text_size_nonneg recs : 0 <= text_size recs.
Proof. induction recs as [|r recs IH]; cbn [text_size foldr]; [lia|]. fold (text_size recs). lia. Qed.

Lemma make_ok recs c :
  recs ≠ [] → Forall (λ r, key_ok (ignore_case c) r.1) recs →
  4096 + 16 * Z.of_nat (length recs) + text_size recs <= Z.of_nat (length (file c)) →
  Z.of_nat (length (file c)) < 2 ^ 32 →
  ∃ m, make_database recs c = Ok m ∧ database (ignore_case c) m recs ∧
    Z.of_nat (length m) = 4096 + 16 * Z.of_nat (length recs) + text_size recs.
Proof.
  intros Hne Hk Hl Hm. pose proof (rtotal_text recs). pose proof (text_size_nonneg recs). unfold make_database.
  destruct (add_all_ok recs (makeStart c)) as (m1 & E1 & S1 & R1);
    cbn [makeStart hr file nrecord start_hash_table_slot ignore_case cur] in *; [by consts|consts; lia|done|done|lia|].
  rewrite E1. cbn [mbind res_bind]. assert (L1 : length m1 = length (file c)) by apply S1.
  destruct (makeFinish_ok (ignore_case c) true recs (Cdb m1 (0 + Z.of_nat (length recs)) 0 (ignore_case c) (start + rtotal recs) (cur c)))
    as (c2 & pos & E2 & Hpos & Hle & Hic & _ & Hdb); cbn [file hr nrecord ignore_case]; try (consts; lia || done).
  rewrite E2. cbn [mbind res_bind fst snd]. eexists. split; [done|]. split; [exact Hdb|].
  destruct (db_size _ _ _ Hdb) as [-> _]. consts. lia.
Qed.

(** ** Going over all of them *)

Lemma call_ok m b : stored m b → call m b.1 = Ok b.2.
Proof.
  intros (_ & _ & _ & _ & H4 & H5 & H6 & H7). unfold call. rewrite H4. cbn [mbind res_bind]. rewrite H5. cbn [mbind res_bind].
  rewrite H6. cbn [mbind res_bind]. rewrite H7. cbn [mbind res_bind]. by rewrite <-surjective_pairing.
Qed.

Lemma entries_loop m recs : ∀ p calls fuel, recs ≠ [] →
  Forall (stored m) (place p recs) → (length recs ≤ fuel)%nat →
  iterate fuel (entry_step m (p + rtotal recs)) (p, calls) = Ok (calls ++ recs).
Proof.
  induction recs as [|r recs IH]; intros p calls fuel Hne Hst Hf; [done|]. destruct fuel as [|fuel]; [simpl in Hf; lia|].
  cbn [iterate rtotal foldr place] in *. fold (rtotal recs). apply Forall_cons in Hst as [Hr Hst]. unfold entry_step at 1.
  assert (Hcall := call_ok _ _ Hr). destruct Hr as (_ & _ & _ & _ & H4 & H5 & _). cbn [fst snd] in *.
  rewrite H4. cbn [mbind res_bind]. rewrite H5. cbn [mbind res_bind]. rewrite Hcall. cbn [mbind res_bind].
  replace (p + sizeof_header + Z.of_nat (length r.1) + Z.of_nat (length r.2)) with (p + rlen r) by (unfold rlen; lia).
  destruct recs as [|r' recs].
  - cbn [rtotal foldr]. destruct (Z.leb_spec (p + (rlen r + 0)) (p + rlen r)); [done|lia].
  - pose proof (rlen_ge r'). pose proof (rtotal_nonneg recs).
    destruct (Z.leb_spec (p + (rlen r + rtotal (r' :: recs))) (p + rlen r)) as [Hle|_].
    { cbn [rtotal foldr] in Hle. fold (rtotal recs) in Hle. lia. }
    rewrite Z.add_assoc, IH by (done || simpl in *; lia). by rewrite <-app_assoc.
Qed.

Lemma data_size_le {P : list Z * list Z → Prop} `{∀ r, Decision (P r)} recs :
  0 <= data_size (filter P recs) <= text_size recs.
Proof.
  induction recs as [|r recs IH]; [done|]. rewrite filter_cons. cbn [text_size foldr]. fold (text_size recs).
  destruct (decide (P r)); cbn [data_size foldr]; [fold (data_size (filter P recs))|]; lia.
Qed.

Lemma mask_loop pfn flags mask m recs : ∀ p vs size fuel, recs ≠ [] →
  Forall (stored m) (place p recs) → (length recs ≤ fuel)%nat →
  0 <= size → size + text_size recs < 2 ^ 32 →
  iterate fuel (mask_step pfn m (p + rtotal recs) mask flags) (p, vs, size)
  = Ok (vs ++ map snd (filter (λ r, pfn r.1 mask flags = true) recs),
        size + data_size (filter (λ r, pfn r.1 mask flags = true) recs)).
Proof.
  induction recs as [|r recs IH]; intros p vs size fuel Hne Hst Hf Hs Hsz; [done|]. destruct fuel as [|fuel]; [simpl in Hf; lia|].
  cbn [iterate rtotal foldr place text_size] in *. fold (rtotal recs) (text_size recs) in *. apply Forall_cons in Hst as [Hr Hst].
  pose proof (text_size_nonneg recs). destruct Hr as (_ & _ & _ & _ & H4 & H5 & H6 & H7). cbn [fst snd] in *. unfold mask_step at 1.
  rewrite H4. cbn [mbind res_bind]. rewrite H5. cbn [mbind res_bind]. rewrite H6. cbn [mbind res_bind].
  replace (p + sizeof_header + Z.of_nat (length r.1) + Z.of_nat (length r.2) - Z.of_nat (length r.2))
    with (p + sizeof_header + Z.of_nat (length r.1)) by lia. rewrite H7. cbn [mbind res_bind]. rewrite u32_small by lia.
  replace (p + sizeof_header + Z.of_nat (length r.1) + Z.of_nat (length r.2)) with (p + rlen r) by (unfold rlen; lia).
  rewrite filter_cons. set (st := if pfn r.1 mask flags then _ else _ : res (list (list Z) * Z)).
  assert (Est : ∃ v z, st = Ok (v, z) ∧ 0 <= z <= size + Z.of_nat (length r.2) ∧
      v ++ map snd (filter (λ r, pfn r.1 mask flags = true) recs)
      = vs ++ map snd (if decide (pfn r.1 mask flags = true) then r :: filter (λ r, pfn r.1 mask flags = true) recs
                       else filter (λ r, pfn r.1 mask flags = true) recs) ∧
      z + data_size (filter (λ r, pfn r.1 mask flags = true) recs)
      = size + data_size (if decide (pfn r.1 mask flags = true) then r :: filter (λ r, pfn r.1 mask flags = true) recs
                          else filter (λ r, pfn r.1 mask flags = true) recs)).
  { unfold st. destruct (pfn r.1 mask flags); cbn [decide decide_rel bool_eq_dec]; eexists _, _; (split; [done|]).
    - rewrite decide_True by done. cbn [map data_size foldr]. fold (data_size (filter (λ r, pfn r.1 mask flags = true) recs)).
      rewrite <-app_assoc. split; [lia|]. split; [done|lia].
    - rewrite decide_False by done. split; [lia|done]. }
  destruct Est as (v & z & -> & Hz & Ev & Ez). cbn [mbind res_bind fst snd]. rewrite <-Ev, <-Ez. destruct recs as [|r' recs].
  - cbn [rtotal foldr]. destruct (Z.leb_spec (p + (rlen r + 0)) (p + rlen r)); [|lia].
    rewrite filter_nil. cbn [map data_size foldr]. by rewrite app_nil_r, Z.add_0_r.
  - pose proof (rlen_ge r'). pose proof (rtotal_nonneg recs).
    destruct (Z.leb_spec (p + (rlen r + rtotal (r' :: recs))) (p + rlen r)) as [Hle|_].
    { cbn [rtotal foldr] in Hle. fold (rtotal recs) in Hle. lia. }
    rewrite Z.add_assoc. apply IH; (done || simpl in *; lia).
Qed.

(** ** Properties *)

Definition empty_cdb (ic : bool) (m : list Z) : cdb := Cdb m 0 0 ic 0 (Cursor 0 0 0 0 0 [] (0, 0)).

(** C17: a database made of a list of records is an associative list. Whatever the file held before, adding
    the records and finishing it succeeds; the file takes 4096 bytes, 16 for each record and the keys and
    data; when it is opened the number of records is right, and [find] followed by [findNext] gives the data
    stored under a key, all of them and in the order they were added, and nothing for other keys. *)
Theorem cdb_lookup recs c :
  recs ≠ [] → Forall (λ r, key_ok (ignore_case c) r.1) recs →
  4096 + 16 * Z.of_nat (length recs) + text_size recs <= Z.of_nat (length (file c)) →
  Z.of_nat (length (file c)) < 2 ^ 32 →
  ∃ m c', make_database recs c = Ok m ∧
    Z.of_nat (length m) = 4096 + 16 * Z.of_nat (length recs) + text_size recs ∧
    open m c = Ok c' ∧ nrecord c' = Z.of_nat (length recs) ∧
    ∀ k, key_ok (ignore_case c) k → find_all (S (length recs)) k c' = Ok (values (ignore_case c) k recs).
Proof.
  intros Hne Hk Hl Hm. destruct (make_ok recs c Hne Hk Hl Hm) as (m & E & Hdb & Hlen).
  eexists m, _. splits; [done|done|by apply (open_ok _ _ _ Hdb)|done|]. intros k Hkk.
  apply (find_all_ok _ m recs Hdb k Hkk); [done|done|]. unfold values. rewrite length_map.
  etrans; [apply length_filter|lia].
Qed.

Definition sample_records : list (list Z * list Z) :=
  [(BS "one", BS "1"); (BS "two", BS "2"); (BS "ONE", BS "uno"); (BS "", BS "nothing"); (BS "one", BS "I")].

Lemma cdb_lookup_witness :
  ∃ m c', make_database sample_records (empty_cdb true (replicate 4300 7)) = Ok m ∧ open m (empty_cdb true []) = Ok c' ∧
    find_all 6 (BS "One") c' = Ok [BS "1"; BS "uno"; BS "I"].
Proof.
  assert (Hk : Forall (λ r, key_ok true r.1) sample_records) by (apply (bool_decide_eq_true_1 _); vm_compute; reflexivity).
  assert (Hl : 4096 + 16 * Z.of_nat (length sample_records) + text_size sample_records <= Z.of_nat (length (replicate 4300 7)))
    by (rewrite length_replicate; vm_compute; discriminate).
  assert (Hm : Z.of_nat (length (replicate 4300 7)) < 2 ^ 32) by (rewrite length_replicate; reflexivity).
  destruct (cdb_lookup sample_records (empty_cdb true (replicate 4300 7)) ltac:(discriminate) Hk Hl Hm)
    as (m & c' & E & _ & Ho & _ & Hf).
  exists m, c'. split; [exact E|]. split; [exact Ho|]. apply (Hf (BS "One")).
  apply (bool_decide_eq_true_1 _). vm_compute. reflexivity.
Defined.

(** C20: the functions that go over all the records see each of them once, in the order they were added:
    [getKeys] gives their keys, [callForAllEntry] without a pattern calls its function with their keys and
    data, [print] writes them, and [getValuesWithKeyNask] gives the data of those whose key passes the test
    and their total size. *)
Theorem cdb_traversals recs c c' m vec pfn flags mask :
  recs ≠ [] → Forall (λ r, key_ok (ignore_case c) r.1) recs →
  4096 + 16 * Z.of_nat (length recs) + text_size recs <= Z.of_nat (length (file c)) →
  Z.of_nat (length (file c)) < 2 ^ 32 →
  make_database recs c = Ok m → open m c = Ok c' →
  let flags' := if ignore_case c then Z.lor flags FNM_CASEFOLD else flags in
  getKeys c' vec = Ok (vec ++ map fst recs) ∧
  callForAllEntry_pattern None c' = Ok recs ∧
  print c' = Ok (concat (map record_text recs)) ∧
  getValuesWithKeyNask pfn flags mask c'
  = Ok (map snd (filter (λ r, pfn r.1 mask flags' = true) recs),
        data_size (filter (λ r, pfn r.1 mask flags' = true) recs), flags').
Proof.
  intros Hne Hk Hl Hm E Eo flags'. destruct (make_ok recs c Hne Hk Hl Hm) as (m' & E' & Hdb & Hlen).
  rewrite E in E'. injection E' as <-.
  rewrite (open_ok _ _ _ Hdb) in Eo. injection Eo as <-. pose proof (text_size_nonneg recs).
  assert (Hst := db_stored _ _ _ Hdb). splits.
  - by apply (getKeys_ok _ _ _ _ _ Hdb).
  - apply entries_loop; [done|done|cbn [file]; lia].
  - by apply (print_ok _ _ _ _ Hdb).
  - unfold getValuesWithKeyNask. cbn [ignore_case file start_hash_table_slot]. fold flags'.
    rewrite mask_loop by (done || lia). done.
Qed.

Lemma cdb_traversals_witness :
  ∃ m c', make_database sample_records (empty_cdb true (replicate 4300 7)) = Ok m ∧
    open m (empty_cdb true (replicate 4300 7)) = Ok c' ∧
    getValuesWithKeyNask (λ k mask _, bool_decide (length k = length mask)) 1 (BS "???") c' =
    Ok ([BS "1"; BS "2"; BS "uno"; BS "I"], 6, 17).
Proof.
  assert (Hk : Forall (λ r, key_ok true r.1) sample_records) by (apply (bool_decide_eq_true_1 _); vm_compute; reflexivity).
  assert (Hl : 4096 + 16 * Z.of_nat (length sample_records) + text_size sample_records <= Z.of_nat (length (replicate 4300 7)))
    by (rewrite length_replicate; vm_compute; discriminate).
  assert (Hm : Z.of_nat (length (replicate 4300 7)) < 2 ^ 32) by (rewrite length_replicate; reflexivity).
  destruct (cdb_lookup sample_records (empty_cdb true (replicate 4300 7)) ltac:(discriminate) Hk Hl Hm)
    as (m & c' & E & _ & Ho & _). exists m, c'. split; [exact E|]. split; [exact Ho|].
  apply (cdb_traversals sample_records (empty_cdb true (replicate 4300 7)) c' m []
    (λ k mask _, bool_decide (length k = length mask)) 1 (BS "???") ltac:(discriminate) Hk Hl Hm E Ho).
Defined.

(** C19: the text of a database reads back. What [operator<<] writes, [operator>>] makes into a database that
    answers every lookup as the first one does, whatever the new file held before. *)
Theorem cdb_dump_load recs c c' c0 m :
  recs ≠ [] → Forall (λ r, key_ok (ignore_case c) r.1) recs →
  Forall (λ r, Z.of_nat (length r.1) < 2 ^ 31 ∧ Z.of_nat (length r.2) < 2 ^ 31) recs →
  4096 + 16 * Z.of_nat (length recs) + text_size recs <= Z.of_nat (length (file c)) →
  Z.of_nat (length (file c)) < 2 ^ 32 →
  make_database recs c = Ok m → open m c = Ok c' →
  ignore_case c0 = ignore_case c → length (file c0) = length (file c) →
  ∃ text c1 c2, write_cdb c' = Ok text ∧ read_cdb text c0 = Ok (c1, []) ∧ open (file c1) c0 = Ok c2 ∧
    length (file c1) = length m ∧
    ∀ k, key_ok (ignore_case c) k → find_all (S (length recs)) k c2 = find_all (S (length recs)) k c'.
Proof.
  intros Hne Hk Hlen Hl Hm E Eo Hic Hf. destruct (make_ok recs c Hne Hk Hl Hm) as (m' & E' & Hdb & Hsz).
  rewrite E in E'. injection E' as <-. rewrite (open_ok _ _ _ Hdb) in Eo. injection Eo as <-.
  pose proof (rtotal_text recs). rewrite <-Hic in Hk.
  destruct (read_cdb_ok recs c0 Hne Hk Hlen) as (c1 & Er & Hdb1); [consts; lia|lia|].
  eexists _, c1, _. splits.
  - unfold write_cdb. by rewrite (print_ok _ _ _ _ Hdb).
  - exact Er.
  - by apply (open_ok _ _ _ Hdb1).
  - destruct (db_size _ _ _ Hdb) as [H1 _], (db_size _ _ _ Hdb1) as [H2 _]. lia.
  - intros k Hkk. assert (Hv : (length (values (ignore_case c) k recs) ≤ S (length recs))%nat).
    { unfold values. rewrite length_map. etrans; [apply length_filter|lia]. }
    rewrite Hic in Hdb1. etrans; [by apply (find_all_ok _ _ _ Hdb1 k Hkk)|symmetry; by apply (find_all_ok _ _ _ Hdb k Hkk)].
Qed.

Lemma cdb_dump_load_witness :
  ∃ m c' text c1 c2, make_database sample_records (empty_cdb true (replicate 4300 7)) = Ok m ∧
    open m (empty_cdb true (replicate 4300 7)) = Ok c' ∧
    write_cdb c' = Ok text ∧ read_cdb text (empty_cdb true (replicate 4300 9)) = Ok (c1, []) ∧
    open (file c1) (empty_cdb true (replicate 4300 9)) = Ok c2 ∧
    find_all 6 (BS "ONE") c2 = find_all 6 (BS "ONE") c'.
Proof.
  assert (Hk : Forall (λ r, key_ok true r.1) sample_records) by (apply (bool_decide_eq_true_1 _); vm_compute; reflexivity).
  assert (Hl : 4096 + 16 * Z.of_nat (length sample_records) + text_size sample_records <= Z.of_nat (length (replicate 4300 7)))
    by (rewrite length_replicate; vm_compute; discriminate).
  assert (Hm : Z.of_nat (length (replicate 4300 7)) < 2 ^ 32) by (rewrite length_replicate; reflexivity).
  destruct (cdb_lookup sample_records (empty_cdb true (replicate 4300 7)) ltac:(discriminate) Hk Hl Hm)
    as (m & c' & E & _ & Ho & _).
  assert (Hs : Forall (λ r, Z.of_nat (length r.1) < 2 ^ 31 ∧ Z.of_nat (length r.2) < 2 ^ 31) sample_records)
    by (apply (bool_decide_eq_true_1 _); vm_compute; reflexivity).
  assert (Hn : length (file (empty_cdb true (replicate 4300 9))) = length (file (empty_cdb true (replicate 4300 7))))
    by (cbn [file empty_cdb]; rewrite !length_replicate; reflexivity).
  destruct (cdb_dump_load sample_records (empty_cdb true (replicate 4300 7)) c' (empty_cdb true (replicate 4300 9)) m
    ltac:(discriminate) Hk Hs Hl Hm E Ho eq_refl Hn) as (text & c1 & c2 & E1 & E2 & E3 & _ & E4).
  exists m, c', text, c1, c2. splits; [exact E|exact Ho|exact E1|exact E2|exact E3|]. apply (E4 (BS "ONE")).
  apply (bool_decide_eq_true_1 _). vm_compute. reflexivity.
Defined.

(** ** The hash table in the file *)

Lemma saved_all (str : Z → list Z) l :
  saved_records (value_of str None) l = map (λ n, (nkey n, str (nelem n))) l.
Proof. induction l as [|n l IH]; [done|]. cbn. by rewrite <-IH. Qed.

Lemma kept_all (str : Z → list Z) t : map (kept_nodes (value_of str None)) t = t.
Proof.
  rewrite <-(map_id t) at 2. apply map_ext. intros l. unfold kept_nodes. apply filter_all, Forall_forall. done.
Qed.

Lemma values_of_map ic (str : Z → list Z) l k :
  default [] (head (values ic k (map (λ n, (nkey n, str (nelem n))) l)))
  = match map_of (canon ic) l !! canon ic k with Some e => str e | None => [] end.
Proof.
  induction l as [|n l IH]; [done|]. rewrite map_of_cons. unfold values in *. cbn [map]. rewrite filter_cons. cbn [fst].
  destruct (decide (canon ic (nkey n) = canon ic k)) as [E|E].
  - rewrite E, lookup_insert_eq. done.
  - by rewrite lookup_insert_ne.
Qed.

(** C18: saving a hash table and looking up in the file is looking up in the table. For a table that
    satisfies the invariant of [UHashMap] and is not empty, and a [space] that covers the characters of the
    keys and values, [writeTo] makes a file; when it is opened the number of records is that of the entries,
    and every key gives the string its element points to, or the null string if the table has no such key. *)
Theorem writeTo_lookup (ok : list Z → Prop) str space t c :
  let ic := HashMap.ignore_case t in
  let recs := map (λ n, (nkey n, str (nelem n))) (nodes t) in
  hm_inv ok (canon ic) t → (∀ k, ok k → key_ok ic k) → nodes t ≠ [] →
  text_size recs <= space → 4096 + 16 * Z.of_nat (length (nodes t)) + space < 2 ^ 32 →
  ignore_case c = ic →
  ∃ m t' c', writeTo str None space t c = Ok (m, t') ∧ table t' = table t ∧ length_ t' = length_ t ∧
    open m c = Ok c' ∧ nrecord c' = length_ t ∧
    ∀ k, ok k → ∃ c'', at_ k c' = Ok (c'', match to_map (canon ic) t !! canon ic k with Some e => str e | None => [] end).
Proof.
  intros ic recs [(_ & _ & Hpl & _) Hlen] Hok Hne Hsp Hsz Hic. unfold nodes in *.
  assert (Hrl : length recs = length (concat (table t))) by apply length_map. pose proof (rtotal_text recs).
  pose proof (text_size_nonneg recs). rewrite u32_small in Hlen by lia.
  assert (Hk : Forall (λ r, key_ok ic r.1) recs).
  { apply Forall_map, Forall_forall. intros n Hn. cbn [fst]. apply Hok.
    apply list_elem_of_In, in_concat in Hn as (b & Hb & Hn). apply list_elem_of_In, list_elem_of_lookup in Hb as [i Hb].
    specialize (Hpl i b Hb). rewrite Forall_forall in Hpl. apply list_elem_of_In in Hn. by apply Hpl. }
  destruct (writeTo_ok str None space t c) as (m & t' & E & Hdb & Ht & Hl); rewrite ?saved_all; fold recs ic.
  - intros Er. apply Hne. by apply map_eq_nil in Er.
  - apply Forall_forall. intros n _ [=].
  - intros _. by rewrite Hlen, Hrl.
  - done.
  - unfold sizeFor. consts. rewrite u32_small by lia. lia.
  - rewrite saved_all in Hdb. fold recs ic in Hdb. rewrite kept_all in Ht. rewrite Ht in Hl. exists m, t'. eexists.
    splits; [done|done|lia|by apply (open_ok _ _ _ Hdb)|cbn; congruence|]. intros k Hkk. unfold to_map, nodes.
    rewrite <-values_of_map. fold recs. apply (at_ok _ m recs Hdb k (Hok k Hkk)); [done|done].
Qed.

Lemma writeTo_lookup_witness :
  ∃ m t' c' c'', writeTo (decimal 10) None 20 sample_table (empty_cdb false []) = Ok (m, t') ∧
    open m (empty_cdb false []) = Ok c' ∧ at_ (BS "xy") c' = Ok (c'', BS "20").
Proof.
  assert (Eic : HashMap.ignore_case sample_table = false) by (vm_compute; reflexivity).
  assert (Hok : ∀ k, bytes k → key_ok (HashMap.ignore_case sample_table) k).
  { rewrite Eic. intros k Hk. split; [exact Hk|discriminate]. }
  assert (Hinv : hm_inv bytes (canon (HashMap.ignore_case sample_table)) sample_table).
  { rewrite Eic. exact sample_table_inv. }
  assert (Hne : nodes sample_table ≠ []) by (vm_compute; discriminate).
  assert (Hsp : text_size (map (λ n, (nkey n, decimal 10 (nelem n))) (nodes sample_table)) <= 20) by (vm_compute; discriminate).
  assert (Hsz : 4096 + 16 * Z.of_nat (length (nodes sample_table)) + 20 < 2 ^ 32) by (vm_compute; reflexivity).
  assert (Hic : ignore_case (empty_cdb false []) = HashMap.ignore_case sample_table) by (vm_compute; reflexivity).
  destruct (writeTo_lookup bytes (decimal 10) 20 sample_table (empty_cdb false []) Hinv Hok Hne Hsp Hsz Hic)
    as (m & t' & c' & E & _ & _ & Eo & _ & H).
  assert (Hxy : bytes (BS "xy")) by (apply (bool_decide_eq_true_1 _); vm_compute; reflexivity).
  destruct (H (BS "xy") Hxy) as (c'' & Ea). exists m, t', c', c''.
  split; [exact E|]. split; [exact Eo|]. rewrite Ea. do 2 f_equal.
Defined.

(** ** In the order of the keys *)

Lemma find_all_sorted_ok ic m recs keys : database ic m recs → ∀ c calls,
  file c = m → ignore_case c = ic → Forall (λ k, key_ok ic k ∧ k ∈ map fst recs) keys →
  find_all_sorted c keys calls = Ok (calls ++ map (λ k, (k, default [] (head (values ic k recs)))) keys).
Proof.
  intros Hdb. induction keys as [|k keys IH]; intros c calls Hf Hic Hk; cbn [find_all_sorted map]; [by rewrite app_nil_r|].
  apply Forall_cons in Hk as [[Hkk Hin] Hk]. assert (H := find_search ic m recs Hdb k Hkk c Hf Hic).
  rewrite <-(values_ok ic recs k). destruct (filter (matches ic k) (place start recs)) as [|b tl] eqn:E.
  - exfalso. apply list_elem_of_fmap in Hin as (r & -> & Hr). rewrite <-(place_records start) in Hr.
    apply list_elem_of_fmap in Hr as (b & -> & Hb). eapply not_elem_of_nil. rewrite <-E. apply list_elem_of_filter.
    split; [done|exact Hb].
  - destruct H as (c' & -> & He & Hf' & Hic' & _). cbn [mbind res_bind fst snd]. rewrite He. cbn [mbind res_bind].
    rewrite IH by done. by rewrite <-app_assoc.
Qed.

(** [callForAllEntrySorted] calls its function once for each record, with the keys in order; the data is
    that of the first record with the key, so the data of the others with this key are never given. *)
Theorem callForAllEntrySorted_correct qsort recs c c' m :
  recs ≠ [] → ignore_case c = false → Forall (λ r, ascii_string r.1) recs →
  4096 + 16 * Z.of_nat (length recs) + text_size recs <= Z.of_nat (length (file c)) →
  Z.of_nat (length (file c)) < 2 ^ 32 →
  make_database recs c = Ok m → open m c = Ok c' →
  ∃ keys, keys ≡ₚ map fst recs ∧ StronglySorted lle keys ∧
    callForAllEntrySorted qsort c' = Ok (map (λ k, (k, default [] (head (values false k recs)))) keys).
Proof.
  intros Hne Hic Ha Hl Hm E Eo. assert (Hko : ∀ k, ascii_string k → key_ok false k).
  { intros k [Hk _]. split; [|done]. eapply Forall_impl; [exact Hk|]. unfold is_byte. cbn. lia. }
  assert (Hk : Forall (λ r, key_ok (ignore_case c) r.1) recs).
  { rewrite Hic. eapply Forall_impl; [exact Ha|]. cbn. auto. }
  destruct (make_ok recs c Hne Hk Hl Hm) as (m' & E' & Hdb & _). rewrite E in E'. injection E' as <-.
  rewrite (open_ok _ _ _ Hdb) in Eo. injection Eo as <-. rewrite Hic in *.
  assert (Ha' : Forall ascii_string (map fst recs)) by by apply Forall_map.
  destruct (sort_ok (map fst recs) Ha') as (keys & Es & Hp & Hs).
  assert (Hsort : ∃ keys', (if 1 <? Z.of_nat (length recs) then sort (map fst recs) else Ok (map fst recs)) = Ok keys' ∧
    keys' ≡ₚ map fst recs ∧ StronglySorted lle keys').
  { destruct (Z.ltb_spec 1 (Z.of_nat (length recs))); [by exists keys|]. exists (map fst recs). splits; [done..|].
    destruct recs as [|r [|]]; [done|by repeat constructor|simpl in *; lia]. }
  destruct Hsort as (keys' & Es' & Hp' & Hs'). exists keys'. splits; [done..|]. unfold callForAllEntrySorted.
  rewrite (getKeys_ok _ _ _ _ _ Hdb) by done. cbn [mbind res_bind app nrecord ignore_case]. rewrite ?Hic, Es'. cbn [mbind res_bind].
  assert (Hlk : length keys' = length recs) by by rewrite Hp', length_map. rewrite Hlk.
  destruct (Z.ltb_spec (Z.of_nat (length recs)) (Z.of_nat (length recs))); [lia|].
  rewrite Nat2Z.id, <-Hlk, firstn_all. rewrite (find_all_sorted_ok false m recs keys' Hdb); [done|done|done|].
  apply Forall_forall. intros k Hkk. rewrite Hp' in Hkk. split; [|done]. apply Hko. rewrite Forall_forall in Ha'. by apply Ha'.
Qed.

Definition repeated_records : list (list Z * list Z) := [(BS "one", BS "1"); (BS "two", BS "2"); (BS "one", BS "I")].

Lemma callForAllEntrySorted_correct_witness :
  ∃ m c' keys, make_database repeated_records (empty_cdb false (replicate 4200 0)) = Ok m ∧
    open m (empty_cdb false (replicate 4200 0)) = Ok c' ∧ keys ≡ₚ [BS "one"; BS "two"; BS "one"] ∧
    callForAllEntrySorted id c' = Ok (map (λ k, (k, default [] (head (values false k repeated_records)))) keys).
Proof.
  assert (Hk : Forall (λ r, key_ok false r.1) repeated_records) by (apply (bool_decide_eq_true_1 _); vm_compute; reflexivity).
  assert (Hl : 4096 + 16 * Z.of_nat (length repeated_records) + text_size repeated_records <= Z.of_nat (length (replicate 4200 0)))
    by (rewrite length_replicate; vm_compute; discriminate).
  assert (Hm : Z.of_nat (length (replicate 4200 0)) < 2 ^ 32) by (rewrite length_replicate; reflexivity).
  destruct (cdb_lookup repeated_records (empty_cdb false (replicate 4200 0)) ltac:(discriminate) Hk Hl Hm)
    as (m & c' & E & _ & Ho & _).
  assert (Ha : Forall (λ r, ascii_string r.1) repeated_records) by (apply (bool_decide_eq_true_1 _); vm_compute; reflexivity).
  destruct (callForAllEntrySorted_correct id repeated_records (empty_cdb false (replicate 4200 0)) c' m ltac:(discriminate) eq_refl
    Ha Hl Hm E Ho) as (keys & Hp & _ & Ec).
  exists m, c', keys. split; [exact E|]. split; [exact Ho|]. split; [exact Hp|exact Ec].
Defined.

(** ** Oddities *)

(** The file of a table without entries is opened as one with 512 records. *)
Lemma open_empty_database t c : length_ t = 0 → table t = [] →
  ∃ m t' c', writeTo (λ _, []) None 0 t c = Ok (m, t') ∧ open m c = Ok c' ∧ nrecord c' = 512.
Proof.
  intros Hl Ht. unfold writeTo. rewrite Hl, Ht. cbn [save_table mbind res_bind]. unfold makeFinish. cbn [nrecord hr].
  change (0 <? 0) with false. cbn [mbind res_bind fst snd file]. eexists (replicate 4096 0), _, _.
  split; [|split].
  - do 2 f_equal.
  - reflexivity.
  - reflexivity.
Qed.

(** A function that gives the string of a node and asks for its deletion makes [writeTo] use the key of a node
    that is gone. *)
Lemma writeTo_deleted_key (f : Z → list Z) space n t c :
  ∃ e, writeTo (λ _, []) (Some (λ e, (Some (f e), true))) space (set_table t [[n]]) c = Fail e.
Proof. eexists. reflexivity. Qed.

(** A pattern is found in a header too: a record whose key is one character long is given for [\001]. *)
Lemma pattern_in_header :
  ∃ c', (m ← make_database [(BS "one", BS "1"); (BS "x", BS "y")] (empty_cdb false (replicate 4200 0)); open m (empty_cdb false []))
    = Ok c' ∧ callForAllEntry_pattern (Some [1]) c' = Ok [(BS "x", BS "y")].
Proof. eexists. split; [vm_compute; reflexivity|vm_compute; reflexivity]. Qed.
