(* ===== verification/Rdb.v ===== *)
(** * Record databases ([URDB], [src/ulib/db/rdb.cpp], [include/ulib/db/rdb.h])

    A constant database with a journal over it: a mapped file with a hash table of binary search trees, whose
    nodes, keys and data are allocated one behind the other. Pointers into the mapping of the journal are
    offsets in it; the memory beyond the end of the file is not there. Whether the journal can be made longer,
    and a new file be made, is a parameter; the lock, the flushing and the other calls of the system are not
    modelled, nor is the length a search in the constant database without a result leaves behind, which is not
    used. *)

From S2P Require Import Prelude CType Memory Hash Strftime Strptime HashMap Sort Cdb.
From S2P Require Cache.

(** [UCDB::datum]: memory of the caller, of the journal or of the constant database, or the null pointer with
    the length [U_NOT_FOUND]. *)
Inductive datum :=
  | User (bs : list Z)
  | Journal (p n : Z)
  | Base (p n : Z)
  | Null.

(** What the system allows: [grow n], the journal can have [n] bytes; [creat n], a file of [n] bytes can be
    made, mapped and renamed. *)
Record env := Env { grow : Z → bool; creat : Z → bool }.

Record rdb := Rdb {
  base : cdb; journal : list Z; node : Z; pnode : Z; rkey : datum; rdata : datum; key1 : datum }.

Definition set_base (c : cdb) (r : rdb) : rdb :=
  Rdb c (journal r) (node r) (pnode r) (rkey r) (rdata r) (key1 r).
Definition set_journal (m : list Z) (r : rdb) : rdb :=
  Rdb (base r) m (node r) (pnode r) (rkey r) (rdata r) (key1 r).
Definition set_node (n p : Z) (r : rdb) : rdb :=
  Rdb (base r) (journal r) n p (rkey r) (rdata r) (key1 r).
Definition set_rkey (k : datum) (r : rdb) : rdb :=
  Rdb (base r) (journal r) (node r) (pnode r) k (rdata r) (key1 r).
Definition set_rdata (d : datum) (r : rdb) : rdb :=
  Rdb (base r) (journal r) (node r) (pnode r) (rkey r) d (key1 r).
Definition set_key1 (k : datum) (r : rdb) : rdb :=
  Rdb (base r) (journal r) (node r) (pnode r) (rkey r) (rdata r) k.

Definition U_NOT_FOUND : Z := 2 ^ 32 - 1.
Definition CACHE_HASHTAB_LEN : Z := 769.
Definition sizeof_node : Z := 24.
Definition sizeof_struct : Z := 4 * (4 + CACHE_HASHTAB_LEN).

(** The places of the numbers of [cache_struct]. *)
Definition RDB_off : Z := 0.
Definition RDB_sync : Z := 4.
Definition RDB_nrecord : Z := 8.
Definition RDB_reference : Z := 12.
Definition RDB_hashtab : Z := 16.

Definition datum_bytes (r : rdb) (d : datum) : res (list Z) :=
  match d with
  | User bs => Ok bs
  | Journal p n => mrd (journal r) p n
  | Base p n => mrd (file (base r)) p n
  | Null => Fail OutOfBounds
  end.

Definition dsize (d : datum) : Z :=
  match d with User bs => Z.of_nat (length bs) | Journal _ n | Base _ n => n | Null => U_NOT_FOUND end.

(** [UCDB::cdb_hash()] of the key. *)
Definition hash_key (r : rdb) : res rdb :=
  k ← datum_bytes r (rkey r); c ← setKey k (base r); Ok (set_base c r).

(** ** The hash tree *)

(** The sign of [strncasecmp] on two strings of the same length. *)
Fixpoint strncasecmp (a b : list Z) : Z :=
  match a, b with
  | x :: a', y :: b' =>
      if tolower x =? tolower y then if x =? 0 then 0 else strncasecmp a' b'
      else tolower x - tolower y
  | _, _ => 0
  end.

(** [u_equal(s1, s2, n, ignore_case)] for two strings of [n] characters. *)
Definition u_compare (ignore_case : bool) (s1 s2 : list Z) : Z :=
  if ignore_case then strncasecmp s1 s2 else memcmp s1 s2.

(** One turn of the loop of [htLookup]: the state is the journal and [pnode]. *)
Definition lookup_step (ic : bool) (k : list Z) (st : list Z * Z) : res (list Z * Z + list Z * Z * Z) :=
  let '(m, pnode) := st in
  node ← get4 m pnode;
  if node =? 0 then Ok (inr (m, pnode, 0))
  else
    len ← get4 m (node + 4);
    if len =? 0 then m ← put4 m pnode 0; Ok (inr (m, pnode, 0))
    else
      let n := Z.min (Z.of_nat (length k)) len in
      kp ← get4 m node;
      s ← mrd m kp n;
      let result := u_compare ic (take (Z.to_nat n) k) s in
      if result <? 0 then Ok (inl (m, node + 16))
      else if (result =? 0) && (len =? Z.of_nat (length k)) then Ok (inr (m, pnode, node))
      else Ok (inl (m, node + 20)).

Definition htLookup (r : rdb) : res (rdb * bool) :=
  k ← datum_bytes r (rkey r);
  st ← iterate (S (length (journal r))) (lookup_step (ignore_case (base r)) k)
         (journal r, RDB_hashtab + khash (cur (base r)) mod CACHE_HASHTAB_LEN * 4);
  let '(m, p, n) := st in
  Ok (set_node n p (set_journal m r), negb (n =? 0)).

Definition htAlloc (r : rdb) : res rdb :=
  n ← get4 (journal r) RDB_off;
  m ← put4 (journal r) RDB_off (u32 (n + sizeof_node));
  m ← put4 m (pnode r) n;
  m ← clear_at m n sizeof_node;
  Ok (set_node n (pnode r) (set_journal m r)).

Definition htRemoveAlloc (r : rdb) : res rdb :=
  n ← get4 (journal r) RDB_off;
  m ← put4 (journal r) RDB_off (u32 (n - sizeof_node));
  m ← put4 m (pnode r) 0;
  Ok (set_journal m r).

(** The key and the data have to be in the journal. *)
Definition htInsert (r : rdb) : res rdb :=
  match rkey r with
  | Journal kp kn =>
      d ← (match rdata r with
           | Journal p n => Ok (p, n)
           | Null => Ok (0, U_NOT_FOUND)
           | _ => Fail OutOfBounds
           end);
      m ← put4 (journal r) (node r) kp;
      m ← put4 m (node r + 4) kn;
      m ← put4 m (node r + 8) d.1;
      m ← put4 m (node r + 12) d.2;
      Ok (set_journal m r)
  | _ => Fail OutOfBounds
  end.

Definition isDeleted (r : rdb) : res (rdb * bool) :=
  p ← get4 (journal r) (node r + 8);
  if p =? 0 then
    n ← get4 (journal r) (node r + 12);
    m ← (if negb (n =? U_NOT_FOUND) then put4 (journal r) (node r + 12) U_NOT_FOUND else Ok (journal r));
    Ok (set_journal m r, true)
  else Ok (r, false).

(** ** Going over the entries *)

(** [function1] for the nodes of a tree: the subtrees come first. *)
Fixpoint visit {A} (fuel : nat) (f : list Z → Z → A → res (list Z * A)) (offset : Z) (m : list Z) (a : A) :
    res (list Z * A) :=
  match fuel with
  | O => Fail OutOfFuel
  | S fuel =>
      left ← get4 m (offset + 16);
      st ← (if negb (left =? 0) then visit fuel f left m a else Ok (m, a));
      right ← get4 st.1 (offset + 20);
      st ← (if negb (right =? 0) then visit fuel f right st.1 st.2 else Ok st);
      f st.1 offset st.2
  end.

Fixpoint visit_tables {A} (n : nat) (i : Z) (f : list Z → Z → A → res (list Z * A)) (m : list Z) (a : A) :
    res (list Z * A) :=
  match n with
  | O => Ok (m, a)
  | S n =>
      p ← get4 m (RDB_hashtab + i * 4);
      st ← (if negb (p =? 0) then visit (length m) f p m a else Ok (m, a));
      visit_tables n (i + 1) f st.1 st.2
  end.

(** What [makeAdd1], [print1], [call1] and [getKeys1] have in common: a node that is marked as deleted is left
    out, and made so if its length is not the one it should have. *)
Definition live {A} (f : list Z → list Z → A → res A) (m : list Z) (n : Z) (a : A) : res (list Z * A) :=
  dp ← get4 m (n + 8);
  dn ← get4 m (n + 12);
  if negb (dp =? 0) then
    kp ← get4 m n;
    kn ← get4 m (n + 4);
    k ← mrd m kp kn;
    d ← mrd m dp dn;
    a ← f k d a;
    Ok (m, a)
  else if negb (dn =? U_NOT_FOUND) then m ← put4 m (n + 12) U_NOT_FOUND; Ok (m, a)
  else Ok (m, a).

(** What [makeAdd2], [print2], [call2] and [getKeys2] have in common: a record of the constant database whose
    key is in the journal is left out. *)
Definition absent {A} (f : list Z → Z → A → res A) (r : rdb) (m : list Z) (khash pos : Z) (st : rdb * A) :
    res (rdb * A * bool) :=
  klen ← get4 m pos;
  let r := set_rkey (Base (pos + sizeof_header) klen) st.1 in
  k ← datum_bytes r (rkey r);
  let b := base r in
  let c := cur b in
  let r := set_base (set_cur (Cursor (hp c) (slot c) (nslot c) (loop c) khash k (Cdb.data c)) b) r in
  l ← htLookup r;
  if l.2 : bool then Ok (l.1, st.2, false) else a ← f m pos st.2; Ok (l.1, a, false).

(** [call(function1, function2)], for functions that do not stop it. *)
Definition walk {A} (f1 : list Z → list Z → A → res A) (f2 : list Z → Z → A → res A) (r : rdb) (a : A) :
    res (rdb * A) :=
  st ← visit_tables (Z.to_nat CACHE_HASHTAB_LEN) 0 (live f1) (journal r) a;
  let r := set_journal st.1 r in
  if (length (file (base r)) =? 0)%nat then Ok (r, st.2)
  else callForAllEntryExt (absent f2 r) (base r) (r, st.2).

(** ** The journal *)

Definition reset (r : rdb) : res rdb :=
  m ← put4 (journal r) RDB_off sizeof_struct;
  m ← put4 m RDB_sync 0;
  m ← put4 m RDB_nrecord 0;
  m ← clear_at m RDB_hashtab (CACHE_HASHTAB_LEN * 4);
  Ok (set_journal m r).

(** [reorganize]: the entries of the journal and the records of the constant database that are not in it go to
    a new constant database. *)
Definition reorganize (e : env) (r : rdb) : res (rdb * bool) :=
  off ← get4 (journal r) RDB_off;
  if sizeof_struct <? off then
    let sz := Z.of_nat (length (file (base r))) + Z.of_nat (length (journal r)) + sizeFor 4096 in
    if negb (creat e sz) then Ok (r, false) else
    let c := makeStart (Cdb (replicate (Z.to_nat sz) 0) 0 0 (ignore_case (base r)) 0 (cur (base r))) in
    st ← walk makeAdd makeAdd_src r c;
    f ← makeFinish false st.2;
    r ← reset st.1;
    let b := base r in
    Ok (set_base (Cdb (take (Z.to_nat f.2) (file f.1)) (nrecord f.1) (start_hash_table_slot f.1)
          (ignore_case b) (hr b) (cur b)) r, true)
  else Ok (r, true).

Definition resizeJournal (e : env) (oversize : Z) (r : rdb) : res (rdb * bool) :=
  let st_size := Z.of_nat (length (journal r)) in
  let oversize := if oversize <? st_size / 2 then st_size / 2 else oversize in
  if grow e (st_size + oversize) then Ok (set_journal (journal r ++ replicate (Z.to_nat oversize) 0) r, true)
  else
    let k := rkey r in
    let d := rdata r in
    let c := cur (base r) in
    f ← reorganize e (set_key1 k r);
    if f.2 : bool then
      let r := f.1 in
      let b := base r in
      l ← htLookup (set_base (set_cur (Cursor (hp (cur b)) (slot (cur b)) (nslot (cur b)) (loop (cur b)) (khash c)
                                         (Cdb.key c) (Cdb.data (cur b))) b) (set_rkey k (set_rdata d r)));
      Ok (l.1, true)
    else Ok f.

Fixpoint write_all (m : list Z) (p : Z) (iov : list (list Z)) : res (list Z * Z) :=
  match iov with
  | [] => Ok (m, p)
  | b :: iov => m ← mwr m p b; write_all m (p + Z.of_nat (length b)) iov
  end.

(** [writev] gives the place of the first block. *)
Definition writev (e : env) (iov : list (list Z)) (size : Z) (r : rdb) : res (rdb * option Z) :=
  off ← get4 (journal r) RDB_off;
  let sz := u32 (off + size + sizeof_node * 2) in
  let st_size := Z.of_nat (length (journal r)) in
  f ← (if st_size <? sz then resizeJournal e (u32 (sz - st_size)) r else Ok (r, true));
  let r := f.1 in
  if negb f.2 then Ok (r, None)
  else
    p ← get4 (journal r) RDB_off;
    w ← write_all (journal r) p iov;
    m ← put4 w.1 RDB_off w.2;
    Ok (set_journal m r, Some p).

Definition header (klen dlen : Z) : list Z := le32 klen ++ le32 dlen.

(** [logJournal(op)]: the key and the data are in the journal afterwards. *)
Definition log_remove (e : env) (r : rdb) : res (rdb * bool) :=
  k ← datum_bytes r (rkey r);
  let kn := dsize (rkey r) in
  w ← writev e [header kn U_NOT_FOUND; k] (u32 (sizeof_header + kn)) r;
  match w.2 with
  | Some p => Ok (set_rkey (Journal (p + sizeof_header) kn) w.1, true)
  | None => Ok (w.1, false)
  end.

Definition log_store (e : env) (r : rdb) : res (rdb * bool) :=
  k ← datum_bytes r (rkey r);
  d ← datum_bytes r (rdata r);
  let kn := dsize (rkey r) in
  let dn := dsize (rdata r) in
  w ← writev e [header kn dn; k; d] (u32 (sizeof_header + kn + dn)) r;
  match w.2 with
  | Some p =>
      let p := p + sizeof_header in
      Ok (set_rkey (Journal p kn) (set_rdata (Journal (p + kn) dn) w.1), true)
  | None => Ok (w.1, false)
  end.

Definition log_substitute (e : env) (r : rdb) : res (rdb * bool) :=
  k1 ← datum_bytes r (key1 r);
  k ← datum_bytes r (rkey r);
  d ← datum_bytes r (rdata r);
  let n1 := dsize (key1 r) in
  let kn := dsize (rkey r) in
  let dn := dsize (rdata r) in
  w ← writev e [header n1 U_NOT_FOUND; k1; header kn dn; k; d] (u32 (sizeof_header * 2 + n1 + kn + dn)) r;
  match w.2 with
  | Some p =>
      let p1 := p + sizeof_header in
      let p := p1 + n1 + sizeof_header in
      Ok (set_key1 (Journal p1 n1) (set_rkey (Journal p kn) (set_rdata (Journal (p + kn) dn) w.1)), true)
  | None => Ok (w.1, false)
  end.

(** [open] on a constant database that is open, and a journal with these contents. *)
Definition open (c : cdb) (jnl : list Z) (log_size : Z) (btruncate breference : bool) : res rdb :=
  let jnl := if btruncate then [] else jnl in
  let st_size := Z.of_nat (length (file c)) in
  let m := if negb (length jnl =? 0)%nat then jnl
           else replicate (Z.to_nat (if negb (log_size =? 0) then log_size
                                     else if negb (st_size =? 0) then st_size else 512 * 1024)) 0 in
  off ← get4 m RDB_off;
  m ← (if off =? 0 then put4 m RDB_off sizeof_struct else Ok m);
  m ← (if breference then n ← get4 m RDB_reference; put4 m RDB_reference (u32 (n + 1)) else Ok m);
  Ok (Rdb c m 0 0 (User []) (User []) (User [])).

(** [close(true)]: the journal that is left on disk. *)
Definition close (r : rdb) : res (list Z) :=
  n ← get4 (journal r) RDB_reference;
  let n := u32 (n - 1) in
  m ← put4 (journal r) RDB_reference n;
  off ← get4 m RDB_off;
  m ← put4 m RDB_sync off;
  Ok (if n =? 0 then take (Z.to_nat off) m else m).

(** [closeReorganize]: the constant database that is left; the journal is removed. *)
Definition closeReorganize (e : env) (r : rdb) : res (option (list Z)) :=
  m ← put4 (journal r) RDB_reference 1;
  f ← reorganize e (set_journal m r);
  if f.2 : bool then _ ← close f.1; Ok (Some (file (base f.1))) else Ok None.

Definition msync (r : rdb) : res rdb :=
  off ← get4 (journal r) RDB_off; m ← put4 (journal r) RDB_sync off; Ok (set_journal m r).

Definition beginTransaction (e : env) (r : rdb) : res (rdb * bool) := reorganize e r.
Definition commitTransaction (r : rdb) : res rdb := msync r.
Definition abortTransaction (r : rdb) : res rdb := reset r.

Definition size (r : rdb) : res Z :=
  n ← get4 (journal r) RDB_nrecord; Ok (u32 (nrecord (base r) + n)).

(** ** Services *)

(** [cdbLookup]: the data of the record found. *)
Definition cdbLookup (r : rdb) : res (rdb * bool) :=
  if (length (file (base r)) =? 0)%nat then Ok (r, false)
  else
    f ← find (base r);
    let r := set_base f.1 r in
    if f.2 : bool then Ok (set_rdata (Base (Cdb.data (cur f.1)).1 (Cdb.data (cur f.1)).2) r, true) else Ok (r, false).

Definition fetch (r : rdb) : res (rdb * bool) :=
  r ← hash_key r;
  l ← htLookup r;
  if l.2 : bool then
    del ← isDeleted l.1;
    if del.2 : bool then Ok (del.1, false)
    else
      p ← get4 (journal l.1) (node l.1 + 8);
      n ← get4 (journal l.1) (node l.1 + 12);
      Ok (set_rdata (Journal p n) l.1, true)
  else cdbLookup l.1.

(** [operator[]], with the null string for a missing key. *)
Definition at_ (_key : list Z) (r : rdb) : res (rdb * list Z) :=
  f ← fetch (set_rkey (User _key) r);
  if f.2 : bool then d ← datum_bytes f.1 (rdata f.1); Ok (f.1, d) else Ok (f.1, []).

Definition RDB_INSERT : Z := 0.
Definition RDB_REPLACE : Z := 1.

(** [dsize] and the contents are those of [d]. *)
Definition same_data (r : rdb) (a b : datum) : res bool :=
  if dsize a =? dsize b then
    x ← datum_bytes r a; y ← datum_bytes r b; Ok (bool_decide (x = y))
  else Ok false.

(** The end of [store]: the entry is logged and put into its node. *)
Definition store_entry (e : env) (exist : bool) (r : rdb) : res (rdb * Z) :=
  l ← log_store e r;
  if negb l.2 then r ← htRemoveAlloc l.1; Ok (r, -3)
  else
    r ← htInsert l.1;
    if exist then Ok (r, 0)
    else
      n ← get4 (journal r) RDB_nrecord;
      m ← put4 (journal r) RDB_nrecord (u32 (n + 1));
      Ok (set_journal m r, 0).

Definition store (e : env) (flag : Z) (r : rdb) : res (rdb * Z) :=
  r ← hash_key r;
  l ← htLookup r;
  let r := l.1 in
  if l.2 : bool then
    del ← (if flag =? RDB_INSERT then isDeleted r else Ok (r, true));
    let r := del.1 in
    if negb del.2 then Ok (r, -1)
    else
      p ← get4 (journal r) (node r + 8);
      n ← get4 (journal r) (node r + 12);
      same ← (if flag =? RDB_REPLACE then same_data r (Journal p n) (rdata r) else Ok false);
      if same : bool then Ok (r, 0) else store_entry e true r
  else
    let data_new := rdata r in
    f ← cdbLookup r;
    let r := f.1 in
    if f.2 && (flag =? RDB_INSERT) then Ok (r, -1)
    else
      same ← (if f.2 && (flag =? RDB_REPLACE) then same_data r (rdata r) data_new else Ok false);
      if same : bool then Ok (r, 0)
      else r ← htAlloc r; store_entry e f.2 (set_rdata data_new r).

(** The stores of a key and data given as strings. *)
Definition store_key (e : env) (_key _data : list Z) (flag : Z) (r : rdb) : res (rdb * Z) :=
  store e flag (set_rkey (User _key) (set_rdata (User _data) r)).

(** The store of a record that replaces [old_rec]: one that is not longer goes to the place of the old one,
    filled with blanks. The result has the new contents of this place. *)
Definition store_rec (e : env) (_key new_rec old_rec padding : list Z) (flag : Z) (r : rdb) :
    res (rdb * Z * list Z) :=
  if (flag =? RDB_REPLACE) && (Z.of_nat (length new_rec) <=? Z.of_nat (length old_rec)) then
    Ok (r, 0, new_rec ++ replicate (length old_rec - length new_rec) 32)
  else
    let x := if flag =? RDB_REPLACE then new_rec else new_rec ++ padding in
    s ← store_key e _key x flag r; Ok (s, old_rec).

(** [remove()]. *)
Definition remove (e : env) (r : rdb) : res (rdb * Z) :=
  r ← hash_key r;
  l ← htLookup r;
  let r := l.1 in
  st ← (if l.2 : bool then del ← isDeleted r; Ok (del.1, if del.2 : bool then -2 else 0)
        else f ← cdbLookup r; if f.2 : bool then r ← htAlloc f.1; Ok (r, 0) else Ok (f.1, -1));
  let r := st.1 in
  if st.2 =? 0 then
    l ← log_remove e r;
    if negb l.2 then r ← htRemoveAlloc l.1; Ok (r, -3)
    else
      r ← htInsert (set_rdata Null l.1);
      n ← get4 (journal r) RDB_nrecord;
      m ← put4 (journal r) RDB_nrecord (u32 (n - 1));
      Ok (set_journal m r, 0)
  else Ok st.

Definition remove_key (e : env) (_key : list Z) (r : rdb) : res (rdb * Z) :=
  remove e (set_rkey (User _key) r).

(** [substitute(key2, flag)]. *)
Definition substitute (e : env) (key2 : datum) (flag : Z) (r : rdb) : res (rdb * Z) :=
  let data2 := rdata r in
  r ← hash_key r;
  l ← htLookup (set_key1 (rkey r) r);
  let r := l.1 in
  st ← (if l.2 : bool then del ← isDeleted r; Ok (del.1, if del.2 : bool then -2 else 0)
        else f ← cdbLookup r; Ok (f.1, if f.2 : bool then 0 else -1));
  let r := st.1 in
  if negb (st.2 =? 0) then Ok st
  else
    let node1 := node r in
    let pnode1 := pnode r in
    r ← hash_key (set_rkey key2 r);
    l ← htLookup r;
    let r := l.1 in
    st ← (if l.2 : bool then
            del ← (if flag =? RDB_INSERT then isDeleted r else Ok (r, true));
            Ok (del.1, if del.2 : bool then 0 else -4)
          else
            f ← cdbLookup r;
            if f.2 && (flag =? RDB_INSERT) then Ok (f.1, -4) else r ← htAlloc f.1; Ok (r, 0));
    let r := st.1 in
    if negb (st.2 =? 0) then Ok st
    else
      l ← log_substitute e (set_rdata data2 r);
      if negb l.2 then r ← htRemoveAlloc l.1; Ok (r, -3)
      else
        r ← htInsert l.1;
        let r := set_rkey (key1 r) (set_rdata Null (set_node (node r) pnode1 r)) in
        r ← (if negb (node1 =? 0) then Ok (set_node node1 pnode1 r) else htAlloc r);
        r ← htInsert r;
        Ok (r, 0).

Definition substitute_key (e : env) (_key new_key _data : list Z) (flag : Z) (r : rdb) : res (rdb * Z) :=
  substitute e (User new_key) flag (set_rkey (User _key) (set_rdata (User _data) r)).

(** ** The entries *)

Definition getKeys (r : rdb) (vec : list (list Z)) : res (rdb * list (list Z)) :=
  walk (λ k _ vec, Ok (vec ++ [k]))
       (λ m pos vec, klen ← get4 m pos; k ← mrd m (pos + sizeof_header) klen; Ok (vec ++ [k])) r vec.

(** The keys and data a function is called with. *)
Definition callForAllEntry (r : rdb) : res (rdb * list (list Z * list Z)) :=
  walk (λ k d calls, Ok (calls ++ [(k, d)])) (λ m pos calls, kd ← call m pos; Ok (calls ++ [kd])) r [].

Definition entry_text (k d : list Z) : list Z :=
  BS "+" ++ decimal 10 (Z.of_nat (length k)) ++ BS "," ++ decimal 10 (Z.of_nat (length d)) ++ BS ":" ++
  k ++ BS "->" ++ d ++ [10].

Definition print (r : rdb) : res (rdb * list Z) :=
  walk (λ k d buffer, Ok (buffer ++ entry_text k d)) (λ m pos buffer, print_entry m pos buffer) r [].

Fixpoint fetch_all (r : rdb) (vkey : list (list Z)) (calls : list (list Z * list Z)) :
    res (rdb * list (list Z * list Z)) :=
  match vkey with
  | [] => Ok (r, calls)
  | k :: vkey =>
      f ← fetch (set_rkey (User k) r);
      if f.2 : bool then d ← datum_bytes f.1 (rdata f.1); fetch_all f.1 vkey (calls ++ [(k, d)])
      else fetch_all f.1 vkey calls
  end.

(** [callForAllEntrySorted]: [sorted] sorts the keys. *)
Definition callForAllEntrySorted (sorted : list (list Z) → res (list (list Z))) (r : rdb) :
    res (rdb * list (list Z * list Z)) :=
  n ← size r;
  if negb (n =? 0) then
    ks ← getKeys r [];
    vkey ← (if 1 <? Z.of_nat (length ks.2) then sorted ks.2 else Ok ks.2);
    fetch_all ks.1 vkey []
  else Ok (r, []).

(** [printSorted]: as many keys are asked for as the count says. *)
Definition printSorted (sorted : list (list Z) → res (list (list Z))) (r : rdb) : res (rdb * list Z) :=
  n ← size r;
  if negb (n =? 0) then
    ks ← getKeys r [];
    vkey ← (if 1 <? n then sorted ks.2 else Ok ks.2);
    if Z.of_nat (length vkey) <? n then Fail OutOfBounds
    else f ← fetch_all ks.1 (take (Z.to_nat n) vkey) []; Ok (f.1, concat (map (λ x, entry_text x.1 x.2) f.2))
  else Ok (r, []).

(** [strtol(ptr, &ptr, 10)], kept as an [uint32_t]; [ptr] stays where there is no number. *)
Definition strtol (ptr : list Z) : Z * list Z :=
  let inp := Cache.skip_blanks ptr in
  let '(negative, inp) := match inp with
    | c :: inp' => if c =? CH "-" then (true, inp') else if c =? CH "+" then (false, inp') else (false, inp)
    | [] => (false, [])
    end in
  match inp with
  | c :: _ =>
      if isdigit c then
        let '(n, rest) := Cache.read_digits inp 0 in
        (u32 (if negative : bool then Z.max (- 2 ^ 63) (- n) else Z.min (2 ^ 63 - 1) n), rest)
      else (0, ptr)
  | [] => (0, ptr)
  end.

(** [parseLine]: a line of the text of a database, from [+] on; the result is the key, the data and the rest. *)
Definition parseLine (ptr : list Z) : res (list Z * option (list Z) * list Z) :=
  let ptr := drop 1 ptr in
  r ← (match ptr with c :: ptr' => if c =? CH "0" then Ok (0, ptr') else Ok (strtol ptr) | [] => Fail OutOfBounds end);
  let '(kn, ptr) := r in
  let ptr := drop 1 ptr in
  r ← (match ptr with
       | c :: _ => if c =? CH "-" then Ok (U_NOT_FOUND, drop 2 ptr) else Ok (strtol ptr)
       | [] => Fail OutOfBounds
       end);
  let '(dn, ptr) := r in
  let ptr := drop 1 ptr in
  k ← mrd ptr 0 kn;
  let ptr := drop (Z.to_nat kn + 2) ptr in
  r ← (if dn =? U_NOT_FOUND then Ok (None, ptr) else d ← mrd ptr 0 dn; Ok (Some d, drop (Z.to_nat dn) ptr));
  let '(d, ptr) := r in
  match ptr with
  | c :: ptr' => Ok (k, d, if c =? 10 then ptr' else ptr)
  | [] => Fail OutOfBounds
  end.
