(* ===== verification/RdbHeap.v ===== *)
(** * The hash tree of the record databases

    The nodes of [Rdb] as a finite map of offsets, the search in it as a relation, and what the functions on
    the mapped memory do to it. A node is found by its key because every pointer to it is the end of the
    search for this key; a pointer that is not null is never changed. *)

From stdpp Require Import gmap.
From S2P Require Import Prelude CType Memory Hash HashMap Sort Cdb CdbFacts Rdb.

(** ** What stays of a memory that is written to, and may grow *)

Definition apart (q n : Z) (w : Z * Z) : Prop := q + n <= w.1 ∨ w.2 <= q.

Definition agree (W : list (Z * Z)) (m m' : list Z) : Prop :=
  (length m ≤ length m')%nat ∧
  ∀ q n bs, mrd m q n = Ok bs → Forall (apart q n) W → mrd m' q n = Ok bs.

Lemma agree_refl m : agree [] m m.
Proof. split; [done|]. by intros. Qed.

Lemma agree_trans W W' m m' m'' : agree W m m' → agree W' m' m'' → agree (W ++ W') m m''.
Proof. intros [L1 H1] [L2 H2]. split; [lia|]. intros q n bs E [Ha Hb]%Forall_app. eauto. Qed.

Lemma agree_mwr m p bs m' : mwr m p bs = Ok m' → agree [(p, p + Z.of_nat (length bs))] m m'.
Proof.
  intros H. assert (S := mwr_same_out _ _ _ _ H). destruct S as [L S]. split; [lia|]. intros q n b E HW.
  apply Forall_cons in HW as [Hw _]. unfold apart in Hw. cbn [fst snd] in Hw. by rewrite S.
Qed.

Lemma agree_put4 m p v m' : put4 m p v = Ok m' → agree [(p, p + 4)] m m'.
Proof. intros H. by apply agree_mwr in H. Qed.

Lemma agree_clear m p n m' : clear_at m p n = Ok m' → 0 <= n → agree [(p, p + n)] m m'.
Proof. intros H Hn. apply agree_mwr in H. by rewrite length_replicate, Z2Nat.id in H by lia. Qed.

Lemma agree_grow m n : agree [] m (m ++ replicate n 0).
Proof.
  split; [rewrite length_app; lia|]. intros q l bs E _. apply mrd_inv in E as (H0 & H1 & H2 & -> & _).
  rewrite mrd_ok by (rewrite ?length_app; lia). f_equal. rewrite drop_app_le by lia. rewrite take_app_le; [done|].
  rewrite length_drop. lia.
Qed.

Lemma get4_agree W m m' q v : agree W m m' → get4 m q = Ok v → Forall (apart q 4) W → get4 m' q = Ok v.
Proof.
  intros [_ H] E HW. unfold get4 in *. destruct (mrd m q 4) as [bs|] eqn:Eb; [|done].
  by rewrite (H _ _ _ Eb HW).
Qed.

(** ** The heap *)

Record rnode := RNode { n_key : list Z; n_val : option (list Z); n_left : Z; n_right : Z }.

Inductive place := Tab (i : Z) | Lft (p : Z) | Rgt (p : Z).

#[global] Instance place_eq_dec : EqDecision place.
Proof. solve_decision. Defined.

Record heap := Heap { tab : Z → Z; nodes : gmap Z rnode }.

Definition addr (s : place) : Z :=
  match s with Tab i => RDB_hashtab + i * 4 | Lft p => p + 16 | Rgt p => p + 20 end.

Definition val (h : heap) (s : place) : option Z :=
  match s with
  | Tab i => if (0 <=? i) && (i <? CACHE_HASHTAB_LEN) then Some (tab h i) else None
  | Lft p => n_left <$> nodes h !! p
  | Rgt p => n_right <$> nodes h !! p
  end.

Definition set_val (s : place) (v : Z) (h : heap) : heap :=
  match s with
  | Tab i => Heap (λ j, if j =? i then v else tab h j) (nodes h)
  | Lft p => Heap (tab h) (alter (λ n, RNode (n_key n) (n_val n) v (n_right n)) p (nodes h))
  | Rgt p => Heap (tab h) (alter (λ n, RNode (n_key n) (n_val n) (n_left n) v) p (nodes h))
  end.

Definition put_node (p : Z) (n : rnode) (h : heap) : heap := Heap (tab h) (<[p := n]> (nodes h)).

(** A new node at [p], to which the pointer [s] leads. *)
Definition add_node (s : place) (p : Z) (k : list Z) (v : option (list Z)) (h : heap) : heap :=
  put_node p (RNode k v 0 0) (set_val s p h).

(** A new key and new data for the node at [p]. *)
Definition upd_node (p : Z) (k : list Z) (v : option (list Z)) (n : rnode) (h : heap) : heap :=
  put_node p (RNode k v (n_left n) (n_right n)) h.

(** The constants of the journal. *)
Ltac rconsts := unfold sizeof_struct, sizeof_node, CACHE_HASHTAB_LEN, RDB_off, RDB_sync, RDB_nrecord, RDB_reference, RDB_hashtab, sizeof_header in *.

Section Heap.
Context (ic : bool).

Definition same (k k' : list Z) : Prop := canon ic k = canon ic k'.

#[export] Instance same_dec k k' : Decision (same k k').
Proof. unfold same. apply _. Defined.

Definition goes_left (k k' : list Z) : bool :=
  let n := Nat.min (length k) (length k') in u_compare ic (take n k) (take n k') <? 0.

Definition side (k k' : list Z) (p : Z) : place := if goes_left k k' then Lft p else Rgt p.

Inductive search (h : heap) (k : list Z) : place → place → Z → Prop :=
  | search_end s : val h s = Some 0 → search h k s s 0
  | search_found s p n : val h s = Some p → nodes h !! p = Some n → same k (n_key n) → search h k s s p
  | search_go s p n t v : val h s = Some p → nodes h !! p = Some n → ¬ same k (n_key n) →
      search h k (side k (n_key n) p) t v → search h k s t v.

Definition start_place (k : list Z) : place := Tab (hashv ic k mod CACHE_HASHTAB_LEN).

Definition owner (s : place) : Z := match s with Tab _ => 0 | Lft p | Rgt p => p end.

(** The keys of a database. *)
Definition key_good (k : list Z) : Prop := key_ok ic k ∧ k ≠ [].

Record heap_ok (h : heap) : Prop := {
  ho_null : nodes h !! 0 = None;
  ho_up : ∀ s v, val h s = Some v → v ≠ 0 → owner s < v ∧ is_Some (nodes h !! v);
  ho_key : ∀ p n, nodes h !! p = Some n → key_good (n_key n);
  ho_path : ∀ s p n, val h s = Some p → nodes h !! p = Some n → search h (n_key n) (start_place (n_key n)) s p;
  ho_reach : ∀ p n, nodes h !! p = Some n → ∃ s, search h (n_key n) (start_place (n_key n)) s p }.

(** ** Comparisons *)

Lemma memcmp_zero a b : length a = length b → memcmp a b = 0 ↔ a = b.
Proof.
  revert b. induction a as [|x a IH]; intros [|y b] Hl; try done. cbn [memcmp]. injection Hl as Hl.
  destruct (Z.eqb_spec x y) as [->|Hne].
  - rewrite IH by done. split; [by intros ->|by intros [= ->]].
  - split; [intros H; lia|by intros [= -> ->]].
Qed.

Lemma strncasecmp_memcmp a b : 0 ∉ a → strncasecmp a b = memcmp (map tolower a) (map tolower b).
Proof.
  revert b. induction a as [|x a IH]; intros [|y b] H0; try done. cbn [strncasecmp memcmp map].
  apply not_elem_of_cons in H0 as [Hx H0]. destruct (Z.eqb_spec (tolower x) (tolower y)); [|done].
  destruct (Z.eqb_spec x 0); [done|]. by apply IH.
Qed.

Lemma canon_take n k : canon ic (take n k) = take n (canon ic k).
Proof. destruct ic; simpl; [by rewrite firstn_map|done]. Qed.

Lemma u_compare_canon k k' : key_ok ic k → u_compare ic k k' = memcmp (canon ic k) (canon ic k').
Proof. intros [_ H0]. destruct ic; simpl; [|done]. apply strncasecmp_memcmp. by apply H0. Qed.

Lemma key_ok_take n k : key_ok ic k → key_ok ic (take n k).
Proof.
  intros [Hb H0]. split; [by apply Forall_take|]. intros E Hin. apply (H0 E).
  rewrite <-(take_drop n k). apply elem_of_app. by left.
Qed.

Lemma goes_left_canon k k' : key_ok ic k →
  goes_left k k' = (memcmp (take (Nat.min (length k) (length k')) (canon ic k))
                      (take (Nat.min (length k) (length k')) (canon ic k')) <? 0).
Proof. intros Hk. unfold goes_left. by rewrite u_compare_canon, !canon_take by by apply key_ok_take. Qed.

Lemma side_same k k1 k2 k' p : key_ok ic k1 → key_ok ic k2 → same k1 k2 → same k k' → side k1 k p = side k2 k' p.
Proof.
  intros H1 H2 E E'. unfold side. rewrite !goes_left_canon by done. unfold same in *.
  assert (L : length k1 = length k2) by by rewrite <-(canon_length ic k1), E, canon_length.
  assert (L' : length k = length k') by by rewrite <-(canon_length ic k), E', canon_length.
  by rewrite L, L', E, E'.
Qed.

(** What the loop of [htLookup] computes. *)
Lemma compare_same k k' : key_ok ic k →
  let n := Nat.min (length k) (length k') in
  let result := u_compare ic (take n k) (take n k') in
  same k k' ↔ result = 0 ∧ length k' = length k.
Proof.
  intros Hk n result. unfold result. rewrite u_compare_canon, !canon_take by by apply key_ok_take.
  assert (L : length (take n (canon ic k)) = length (take n (canon ic k'))) by (rewrite !length_take, !canon_length; lia).
  rewrite memcmp_zero by done. unfold same. split.
  - intros E. rewrite E. split; [done|]. by rewrite <-(canon_length ic k'), <-E, canon_length.
  - intros [E El]. unfold n in E. rewrite El, Nat.min_id in E.
    by rewrite !take_ge in E by (rewrite canon_length; lia).
Qed.

(** ** Searches *)

Lemma search_fun h k s t v t' v' : nodes h !! 0 = None → search h k s t v → search h k s t' v' → t = t' ∧ v = v'.
Proof.
  intros H0. induction 1 as [s Hs|s p n Hs Hp Hk|s p n t v Hs Hp Hk _ IH]; intros H'.
  - inversion H'; subst; simplify_eq; done.
  - inversion H'; subst; simplify_eq; done.
  - inversion H'; subst; simplify_eq; [done|]. by apply IH.
Qed.

(** The pointers on the way of a search that found something stay, and the keys up to the case. *)
Definition extends (h h' : heap) : Prop :=
  (∀ s v, val h s = Some v → v ≠ 0 → val h' s = Some v) ∧
  ∀ p n, nodes h !! p = Some n → ∃ n', nodes h' !! p = Some n' ∧ same (n_key n) (n_key n').

Lemma search_extends h h' k k' s t v : nodes h !! 0 = None → extends h h' → key_ok ic k → key_ok ic k' → same k k' →
  search h k s t v → v ≠ 0 → search h' k' s t v.
Proof.
  intros H0 [Hv Hn] Hk Hk' Hs. induction 1 as [s E|s p n E En Ek|s p n t v E En Ek _ IH]; intros Hv0; [done| |].
  - destruct (Hn _ _ En) as (n' & En' & Es). eapply search_found; [by apply Hv|done|]. unfold same in *. congruence.
  - assert (p ≠ 0) by (intros ->; congruence). destruct (Hn _ _ En) as (n' & En' & Es).
    eapply search_go; [by apply Hv|done|unfold same in *; congruence|].
    rewrite <-(side_same (n_key n) k k') by done. by apply IH.
Qed.

(** The search that ended at a null pointer finds the node this pointer is set to. *)
Lemma search_new h h' k s t p n : nodes h !! 0 = None → extends h h' → key_ok ic k → search h k s t 0 →
  val h' t = Some p → nodes h' !! p = Some n → same k (n_key n) → search h' k s t p.
Proof.
  intros H0 Hx Hk Hs Ht Hp Hsame. destruct Hx as [Hv Hn].
  remember 0 as v eqn:Ev in Hs. revert Ev. induction Hs as [s E|s q n0 E En Ek|s q n0 t v E En Ek _ IH]; intros Ev; subst.
  - by eapply search_found.
  - by rewrite H0 in En.
  - assert (q ≠ 0) by (intros ->; congruence). destruct (Hn _ _ En) as (n' & En' & Es).
    eapply search_go; [by apply Hv|done|unfold same in *; congruence|].
    rewrite <-(side_same (n_key n0) k k) by done. by apply IH.
Qed.

Lemma start_same k k' : same k k' → start_place k = start_place k'.
Proof. unfold same, start_place. intros E. by rewrite (hashv_canon ic k k'). Qed.

(** Two nodes have different keys. *)
Lemma keys_differ h p q n n' : heap_ok h → nodes h !! p = Some n → nodes h !! q = Some n' →
  same (n_key n) (n_key n') → p = q.
Proof.
  intros Hh Hp Hq Hs. destruct (ho_reach _ Hh _ _ Hp) as (s & H1), (ho_reach _ Hh _ _ Hq) as (t & H2).
  assert (Hq0 : q ≠ 0) by (intros ->; by rewrite (ho_null _ Hh) in Hq).
  assert (H2' : search h (n_key n) (start_place (n_key n')) t q).
  { eapply search_extends; [apply Hh| |apply (ho_key _ Hh _ _ Hq)|apply (ho_key _ Hh _ _ Hp)|by symmetry|exact H2|done].
    split; [done|]. intros p' n0 E. exists n0. split; [done|]. unfold same. done. }
  rewrite <-(start_same _ _ Hs) in H2'. 
  by destruct (search_fun _ _ _ _ _ _ _ (ho_null _ Hh) H1 H2') as [_ E].
Qed.

(** Two pointers to the same node are one. *)
Lemma val_inj h s t p : heap_ok h → val h s = Some p → val h t = Some p → p ≠ 0 → s = t.
Proof.
  intros Hh Hs Ht Hp. destruct (ho_up _ Hh _ _ Hs Hp) as [_ [n Hn]].
  pose proof (ho_path _ Hh _ _ _ Hs Hn) as H1. pose proof (ho_path _ Hh _ _ _ Ht Hn) as H2.
  by destruct (search_fun _ _ _ _ _ _ _ (ho_null _ Hh) H1 H2) as [E _].
Qed.

(** ** New nodes and new contents *)

Lemma val_place h s v : val h s = Some v →
  match s with Tab i => 0 <= i < CACHE_HASHTAB_LEN | Lft p | Rgt p => is_Some (nodes h !! p) end.
Proof.
  destruct s as [i|p|p]; cbn [val].
  - destruct (Z.leb_spec 0 i), (Z.ltb_spec i CACHE_HASHTAB_LEN); cbn [andb]; done.
  - destruct (nodes h !! p); [by eexists|done].
  - destruct (nodes h !! p); [by eexists|done].
Qed.

Lemma nodes_set_val h t x q : nodes (set_val t x h) !! q =
  match t with
  | Tab _ => nodes h !! q
  | Lft p => if decide (q = p) then (λ n, RNode (n_key n) (n_val n) x (n_right n)) <$> nodes h !! q else nodes h !! q
  | Rgt p => if decide (q = p) then (λ n, RNode (n_key n) (n_val n) (n_left n) x) <$> nodes h !! q else nodes h !! q
  end.
Proof.
  destruct t as [i|p|p]; cbn [set_val nodes]; [done| |]; destruct (decide (q = p)) as [->|Hne];
    by rewrite ?lookup_alter_eq, ?lookup_alter_ne.
Qed.

Lemma val_set_eq h t x y : val h t = Some y → val (set_val t x h) t = Some x.
Proof.
  intros Ht. pose proof (val_place _ _ _ Ht) as Hpl. destruct t as [i|q|q]; cbn [val].
  - destruct (Z.leb_spec 0 i), (Z.ltb_spec i CACHE_HASHTAB_LEN); try lia. cbn. by rewrite Z.eqb_refl.
  - destruct Hpl as [n Hn]. by rewrite nodes_set_val, decide_True, Hn by done.
  - destruct Hpl as [n Hn]. by rewrite nodes_set_val, decide_True, Hn by done.
Qed.

Lemma val_set_ne h s t x : s ≠ t → val (set_val t x h) s = val h s.
Proof.
  intros Hst. destruct s as [i|q|q]; cbn [val].
  - destruct (_ && _); [|done]. destruct t as [j|q|q]; cbn; try done. destruct (Z.eqb_spec i j); [congruence|done].
  - rewrite nodes_set_val. destruct t as [j|q'|q']; [done| |]; (destruct (decide (q = q')) as [->|]; [|done]); [done|].
    by destruct (nodes h !! q').
  - rewrite nodes_set_val. destruct t as [j|q'|q']; [done| |]; (destruct (decide (q = q')) as [->|]; [|done]); [|done].
    by destruct (nodes h !! q').
Qed.

Lemma val_put_ne h p n s : match s with Tab _ => True | Lft q | Rgt q => q ≠ p end → val (put_node p n h) s = val h s.
Proof. destruct s as [i|q|q]; cbn; [done| |]; intros Hq; by rewrite lookup_insert_ne by done. Qed.

Lemma set_val_kept h t x q n : nodes h !! q = Some n →
  ∃ n', nodes (set_val t x h) !! q = Some n' ∧ n_key n' = n_key n ∧ n_val n' = n_val n.
Proof.
  intros Hn. rewrite nodes_set_val. destruct t as [i|q'|q']; [by exists n| |]; destruct (decide (q = q')); rewrite Hn; eexists; done.
Qed.

Lemma set_val_none h t x q : nodes h !! q = None → nodes (set_val t x h) !! q = None.
Proof. intros Hn. rewrite nodes_set_val, Hn. destruct t; [done| |]; by destruct (decide _). Qed.

Section Adding.
Context (h : heap) (t : place) (p : Z) (k : list Z) (v : option (list Z)).
Context (Ht : val h t = Some 0) (Hp : nodes h !! p = None).

Abbreviation h' := (add_node t p k v h).

Lemma place_old s x : val h s = Some x → match s with Tab _ => True | Lft q | Rgt q => q ≠ p end.
Proof. intros Hs. pose proof (val_place _ _ _ Hs) as H. destruct s; [done| |]; intros ->; rewrite Hp in H; by destruct H. Qed.

Lemma nodes_new : nodes h' !! p = Some (RNode k v 0 0).
Proof. cbn. by rewrite lookup_insert_eq. Qed.

Lemma nodes_old q : q ≠ p → nodes h' !! q = nodes (set_val t p h) !! q.
Proof. intros Hq. cbn. by rewrite lookup_insert_ne. Qed.

Lemma node_kept q n : nodes h !! q = Some n → ∃ n', nodes h' !! q = Some n' ∧ n_key n' = n_key n ∧ n_val n' = n_val n.
Proof. intros Hn. assert (q ≠ p) by congruence. rewrite nodes_old by done. by apply set_val_kept. Qed.

Lemma node_inv q n' : nodes h' !! q = Some n' → q = p ∧ n' = RNode k v 0 0 ∨
  q ≠ p ∧ ∃ n, nodes h !! q = Some n ∧ n_key n' = n_key n ∧ n_val n' = n_val n.
Proof.
  intros H. destruct (decide (q = p)) as [->|Hq]; [rewrite nodes_new in H; injection H as <-; by left|]. right. split; [done|].
  destruct (nodes h !! q) as [n|] eqn:E.
  - destruct (node_kept q n E) as (n2 & E2 & Hk2). assert (n2 = n') as -> by congruence. by exists n.
  - rewrite nodes_old, set_val_none in H by done. done.
Qed.

Lemma val_new : val h' t = Some p.
Proof. unfold add_node. rewrite val_put_ne by by eapply place_old. by eapply val_set_eq. Qed.

Lemma val_old s x : s ≠ t → val h s = Some x → val h' s = Some x.
Proof. intros Hst Hs. unfold add_node. rewrite val_put_ne by by eapply place_old. by rewrite val_set_ne. Qed.

Lemma val_inv s x : val h' s = Some x → s = t ∧ x = p ∨ owner s = p ∧ x = 0 ∨ s ≠ t ∧ val h s = Some x.
Proof.
  intros Hs. destruct (decide (s = t)) as [->|Hne]; [left; rewrite val_new in Hs; by injection Hs|right].
  destruct (val h s) as [y|] eqn:E; [right; pose proof (val_old s y Hne E); split; congruence|left].
  pose proof (val_place _ _ _ Hs) as Hpl. destruct s as [i|q|q]; cbn [val owner] in *.
  - destruct (Z.leb_spec 0 i), (Z.ltb_spec i CACHE_HASHTAB_LEN); done.
  - destruct Hpl as [n Hn]. destruct (node_inv q n Hn) as [[-> ->]|(_ & n0 & E0 & _)]; [|by rewrite E0 in E].
    rewrite Hn in Hs. by injection Hs.
  - destruct Hpl as [n Hn]. destruct (node_inv q n Hn) as [[-> ->]|(_ & n0 & E0 & _)]; [|by rewrite E0 in E].
    rewrite Hn in Hs. by injection Hs.
Qed.

Lemma extends_add : extends h h'.
Proof.
  split.
  - intros s x Hs Hx. apply val_old; [|done]. intros ->. congruence.
  - intros q n Hn. destruct (node_kept q n Hn) as (n' & E & Ek & _). exists n'. split; [done|]. unfold same. by rewrite Ek.
Qed.

Lemma heap_ok_add : heap_ok h → key_good k → search h k (start_place k) t 0 → p ≠ 0 → owner t < p →
  heap_ok h'.
Proof.
  intros Hh Hk Hs Hp0 Hot. assert (Hnew : search h' k (start_place k) t p).
  { eapply search_new; [apply Hh|apply extends_add|apply Hk|exact Hs|apply val_new|apply nodes_new|done]. }
  assert (Hext : ∀ q n n' s, nodes h !! q = Some n → n_key n' = n_key n → search h (n_key n) (start_place (n_key n)) s q →
      search h' (n_key n') (start_place (n_key n')) s q).
  { intros q n n' s Hn Ek H. rewrite Ek. apply (search_extends h h' (n_key n) (n_key n) _ _ _ (ho_null _ Hh) extends_add);
      [apply (ho_key _ Hh _ _ Hn)|apply (ho_key _ Hh _ _ Hn)|done|done|]. intros ->. by rewrite (ho_null _ Hh) in Hn. }
  split.
  - destruct (nodes h' !! 0) as [n|] eqn:E; [|done]. apply node_inv in E as [[? _]|(_ & n0 & E & _)]; [done|].
    by rewrite (ho_null _ Hh) in E.
  - intros s x Hx Hx0. apply val_inv in Hx as [[-> ->]|[[_ ->]|[_ Hx]]]; [|done|].
    + split; [done|]. rewrite nodes_new. by eexists.
    + destruct (ho_up _ Hh _ _ Hx Hx0) as [Hlt [n Hn]]. split; [done|]. destruct (node_kept _ _ Hn) as (n' & -> & _). by eexists.
  - intros q n Hn. apply node_inv in Hn as [[-> ->]|(_ & n0 & E & -> & _)]; [done|]. by eapply ho_key.
  - intros s q n Hx Hn. apply node_inv in Hn as [[-> ->]|(Hq & n0 & E & Ek & _)].
    + apply val_inv in Hx as [[-> _]|[[_ Hx]|[_ Hx]]]; [done|by rewrite Hx in Hp0|].
      destruct (ho_up _ Hh _ _ Hx Hp0) as [_ [n Hn]]. congruence.
    + apply val_inv in Hx as [[_ ->]|[[_ ->]|[_ Hx]]]; [done|by rewrite (ho_null _ Hh) in E|].
      eapply Hext; [exact E|done|]. by eapply ho_path.
  - intros q n Hn. apply node_inv in Hn as [[-> ->]|(Hq & n0 & E & Ek & _)]; [by exists t|].
    destruct (ho_reach _ Hh _ _ E) as [s Hr]. exists s. by eapply Hext.
Qed.
End Adding.

Lemma val_upd h p k v n s : nodes h !! p = Some n → val (upd_node p k v n h) s = val h s.
Proof.
  intros Hn. destruct s as [i|q|q]; cbn [val upd_node put_node tab nodes]; [done| |];
    (destruct (decide (q = p)) as [->|]; [rewrite lookup_insert_eq, Hn|rewrite lookup_insert_ne by done]; done).
Qed.

Lemma nodes_upd h p k v n q : nodes (upd_node p k v n h) !! q =
  if decide (q = p) then Some (RNode k v (n_left n) (n_right n)) else nodes h !! q.
Proof.
  cbn. destruct (decide (q = p)) as [->|]; [by rewrite lookup_insert_eq|by rewrite lookup_insert_ne].
Qed.

Lemma heap_ok_upd h p k v n : heap_ok h → nodes h !! p = Some n → key_good k → same k (n_key n) →
  heap_ok (upd_node p k v n h).
Proof.
  intros Hh Hn Hk Hs. assert (Hx : extends h (upd_node p k v n h)).
  { split; [intros s x Hx _; by rewrite val_upd|]. intros q n0 E. rewrite nodes_upd.
    destruct (decide (q = p)) as [->|]; eexists; (split; [done|]); cbn; unfold same in *; congruence. }
  assert (Hinv : ∀ q n', nodes (upd_node p k v n h) !! q = Some n' → ∃ n0, nodes h !! q = Some n0 ∧ same (n_key n0) (n_key n') ∧ key_good (n_key n')).
  { intros q n' E. rewrite nodes_upd in E. destruct (decide (q = p)) as [->|].
    - injection E as <-. exists n. cbn. split; [done|]. split; [by symmetry|done].
    - exists n'. split; [done|]. split; [done|by eapply ho_key]. }
  split.
  - rewrite nodes_upd. destruct (decide (0 = p)) as [<-|]; [by rewrite (ho_null _ Hh) in Hn|apply Hh].
  - intros s x Hx' Hx0. rewrite val_upd in Hx' by done. destruct (ho_up _ Hh _ _ Hx' Hx0) as [? [n0 E]].
    split; [done|]. destruct Hx as [_ Hx]. destruct (Hx _ _ E) as (n' & -> & _). by eexists.
  - intros q n' E. by apply Hinv in E as (_ & _ & _ & ?).
  - intros s q n' Hv E. rewrite val_upd in Hv by done. destruct (Hinv _ _ E) as (n0 & E0 & Es & Hg).
    rewrite <-(start_same _ _ Es). eapply search_extends; [apply Hh|exact Hx|apply (ho_key _ Hh _ _ E0)|apply Hg|done| |].
    + by eapply ho_path.
    + intros ->. by rewrite (ho_null _ Hh) in E0.
  - intros q n' E. destruct (Hinv _ _ E) as (n0 & E0 & Es & Hg). destruct (ho_reach _ Hh _ _ E0) as [s Hr]. exists s.
    rewrite <-(start_same _ _ Es). eapply search_extends; [apply Hh|exact Hx|apply (ho_key _ Hh _ _ E0)|apply Hg|done|done|].
    intros ->. by rewrite (ho_null _ Hh) in E0.
Qed.

(** ** The heap in the journal *)

(** Memory of keys and data: behind the header, before [off], outside of the nodes. *)
Definition blob (h : heap) (off a l : Z) : Prop :=
  sizeof_struct <= a ∧ a + l <= off ∧ ∀ q, is_Some (nodes h !! q) → a + l <= q ∨ q + sizeof_node <= a.

Definition value_at (m : list Z) (h : heap) (off p : Z) (v : option (list Z)) : Prop :=
  match v with
  | None => get4 m (p + 8) = Ok 0 ∧ get4 m (p + 12) = Ok U_NOT_FOUND
  | Some d => ∃ dp, dp ≠ 0 ∧ get4 m (p + 8) = Ok dp ∧ get4 m (p + 12) = Ok (Z.of_nat (length d)) ∧
      mrd m dp (Z.of_nat (length d)) = Ok d ∧ blob h off dp (Z.of_nat (length d))
  end.

Definition key_at (m : list Z) (h : heap) (off p : Z) (k : list Z) : Prop :=
  ∃ kp, get4 m p = Ok kp ∧ get4 m (p + 4) = Ok (Z.of_nat (length k)) ∧ mrd m kp (Z.of_nat (length k)) = Ok k ∧
    blob h off kp (Z.of_nat (length k)).

Definition entry_size (n : rnode) : Z :=
  sizeof_node + sizeof_header + Z.of_nat (length (n_key n)) + match n_val n with Some d => Z.of_nat (length d) | None => 0 end.

Definition used (l : list (Z * rnode)) : Z := foldr (λ x n, entry_size x.2 + n) 0 l.

Record rep (m : list Z) (off : Z) (h : heap) : Prop := {
  rep_head : sizeof_struct <= off <= Z.of_nat (length m) ∧ Z.of_nat (length m) < 2 ^ 31;
  rep_off : get4 m RDB_off = Ok off;
  rep_val : ∀ s v, val h s = Some v → get4 m (addr s) = Ok v;
  rep_range : ∀ p, is_Some (nodes h !! p) → sizeof_struct <= p ∧ p + sizeof_node <= off;
  rep_apart : ∀ p q, is_Some (nodes h !! p) → is_Some (nodes h !! q) → p ≠ q → p + sizeof_node <= q ∨ q + sizeof_node <= p;
  rep_key : ∀ p n, nodes h !! p = Some n → key_at m h off p (n_key n);
  rep_value : ∀ p n, nodes h !! p = Some n → value_at m h off p (n_val n);
  rep_used : used (map_to_list (nodes h)) <= off - sizeof_struct }.

Lemma spot_range m off h s v : rep m off h → val h s = Some v → RDB_hashtab <= addr s ∧ addr s + 4 <= off.
Proof.
  intros Hr Hs. pose proof (val_place _ _ _ Hs) as Hpl. destruct (rep_head _ _ _ Hr) as [Ho _].
  destruct s as [i|p|p]; cbn [addr]; [rconsts; lia| |]; apply (rep_range _ _ _ Hr) in Hpl; rconsts; lia.
Qed.

Lemma places_apart m off h s t v w : rep m off h → val h s = Some v → val h t = Some w → s ≠ t →
  addr s + 4 <= addr t ∨ addr t + 4 <= addr s.
Proof.
  intros Hr Hs Ht Hne. pose proof (val_place _ _ _ Hs) as H1. pose proof (val_place _ _ _ Ht) as H2.
  assert (Hn : ∀ p q, is_Some (nodes h !! p) → is_Some (nodes h !! q) → p = q ∨ p + 24 <= q ∨ q + 24 <= p).
  { intros p q Hp Hq. destruct (decide (p = q)); [by left|right]. by apply (rep_apart _ _ _ Hr). }
  assert (Hl : ∀ p, is_Some (nodes h !! p) → 3092 <= p) by (intros p Hp; by apply (rep_range _ _ _ Hr)).
  destruct s as [i|p|p], t as [j|q|q]; cbn [addr] in *; rconsts;
    try (specialize (Hl p H1)); try (specialize (Hl q H2)); try (specialize (Hn p q H1 H2)); try lia.
  - assert (i ≠ j) by congruence. lia.
  - assert (p ≠ q) by congruence. lia.
  - assert (p ≠ q) by congruence. lia.
Qed.

(** The fields of a node that do not hold pointers to nodes. *)
Lemma place_fields m off h s v p : rep m off h → val h s = Some v → is_Some (nodes h !! p) →
  addr s + 4 <= p ∨ p + 16 <= addr s.
Proof.
  intros Hr Hs Hp. pose proof (val_place _ _ _ Hs) as H1. destruct (rep_range _ _ _ Hr p Hp) as [Hp1 _].
  destruct s as [i|q|q]; cbn [addr]; rconsts; [lia| |];
    (destruct (decide (p = q)) as [->|Hne]; [lia|]; pose proof (rep_apart _ _ _ Hr p q Hp H1 Hne); rconsts; lia).
Qed.

Lemma blob_place m off h s v a l : rep m off h → val h s = Some v → blob h off a l → addr s + 4 <= a ∨ a + l <= addr s.
Proof.
  intros Hr Hs (Ha & _ & Hb). pose proof (val_place _ _ _ Hs) as H1.
  destruct s as [i|q|q]; cbn [addr]; rconsts; [lia| |]; specialize (Hb q H1); lia.
Qed.

(** ** The search in memory *)

Lemma key_read m off h p n l : rep m off h → nodes h !! p = Some n → 0 <= l <= Z.of_nat (length (n_key n)) →
  ∃ kp, get4 m p = Ok kp ∧ get4 m (p + 4) = Ok (Z.of_nat (length (n_key n))) ∧
    mrd m kp l = Ok (take (Z.to_nat l) (n_key n)).
Proof.
  intros Hr Hn Hl. destruct (rep_key _ _ _ Hr p n Hn) as (kp & E1 & E2 & E3 & _). exists kp. splits; [done..|].
  pose proof (mrd_sub m kp _ _ 0 l E3 ltac:(lia) ltac:(lia) ltac:(lia)) as H. by rewrite Z.add_0_r, drop_0 in H.
Qed.

Lemma lookup_ok m off h k : heap_ok h → rep m off h → key_good k → ∀ fuel s v,
  val h s = Some v → (Z.to_nat (off - owner s) < fuel)%nat →
  ∃ t x, iterate fuel (lookup_step ic k) (m, addr s) = Ok (m, addr t, x) ∧ search h k s t x.
Proof.
  intros Hh Hr [Hk Hne]. induction fuel as [|fuel IH]; intros s v Hs Hf; [lia|]. cbn [iterate].
  unfold lookup_step at 1. rewrite (rep_val _ _ _ Hr _ _ Hs). cbn [mbind res_bind].
  destruct (Z.eqb_spec v 0) as [->|Hv]; [exists s, 0; split; [done|by apply search_end]|].
  destruct (ho_up _ Hh _ _ Hs Hv) as [Hup [n Hn]]. destruct (rep_range _ _ _ Hr v ltac:(by eexists)) as [_ Hvo].
  set (l := Z.min (Z.of_nat (length k)) (Z.of_nat (length (n_key n)))).
  destruct (key_read m off h v n l Hr Hn ltac:(lia)) as (kp & E1 & E2 & E3). rewrite E2. cbn [mbind res_bind].
  destruct (ho_key _ Hh _ _ Hn) as [_ Hkn]. assert (length (n_key n) ≠ 0%nat) by (by intros ?%nil_length_inv).
  destruct (Z.eqb_spec (Z.of_nat (length (n_key n))) 0); [lia|]. fold l. rewrite E1. cbn [mbind res_bind]. rewrite E3.
  cbn [mbind res_bind]. assert (El : Z.to_nat l = Nat.min (length k) (length (n_key n))) by lia. rewrite El.
  pose proof (compare_same k (n_key n) Hk) as Hcmp. cbn zeta in Hcmp. set (c := u_compare _ _ _) in *.
  assert (Hgo : ∀ s', val h s' ≠ None → owner s' = v → ¬ same k (n_key n) → side k (n_key n) v = s' →
    ∃ t x, iterate fuel (lookup_step ic k) (m, addr s') = Ok (m, addr t, x) ∧ search h k s t x).
  { intros s' Hs' Ho Hno Hsd. destruct (val h s') as [v'|] eqn:Ev; [|done]. destruct (IH s' v' Ev) as (t & x & E & Hsr); [rconsts; lia|].
    exists t, x. split; [done|]. eapply search_go; [done|done|done|by rewrite Hsd]. }
  unfold side, goes_left in Hgo. fold c in Hgo. destruct (Z.ltb_spec c 0).
  { apply (Hgo (Lft v)); [cbn; by rewrite Hn|done|rewrite Hcmp; lia|done]. }
  destruct (Z.eqb_spec c 0), (Z.eqb_spec (Z.of_nat (length (n_key n))) (Z.of_nat (length k))); cbn [andb];
    try (apply (Hgo (Rgt v)); [cbn; by rewrite Hn|done|rewrite Hcmp; lia|done]).
  exists s, v. split; [done|]. eapply search_found; [done|done|]. apply Hcmp. lia.
Qed.

(** [htLookup] of a key. *)
Lemma htLookup_ok r off h k : ignore_case (base r) = ic → heap_ok h → rep (journal r) off h → key_good k →
  datum_bytes r (rkey r) = Ok k → khash (cur (base r)) = hashv ic k →
  ∃ t x, htLookup r = Ok (set_node x (addr t) r, negb (x =? 0)) ∧ search h k (start_place k) t x.
Proof.
  intros Hic Hh Hr Hk Hkey Hkh. unfold htLookup. rewrite Hkey. cbn [mbind res_bind]. rewrite Hic, Hkh.
  change (RDB_hashtab + hashv ic k mod CACHE_HASHTAB_LEN * 4) with (addr (start_place k)).
  destruct (val h (start_place k)) as [v|] eqn:Ev.
  2:{ exfalso. cbn in Ev. pose proof (Z.mod_pos_bound (hashv ic k) CACHE_HASHTAB_LEN ltac:(done)).
      destruct (Z.leb_spec 0 (hashv ic k mod CACHE_HASHTAB_LEN)), (Z.ltb_spec (hashv ic k mod CACHE_HASHTAB_LEN) CACHE_HASHTAB_LEN);
        (done || lia). }
  destruct (rep_head _ _ _ Hr) as [Ho _].
  destruct (lookup_ok (journal r) off h k Hh Hr Hk (S (length (journal r))) _ v Ev) as (t & x & E & Hs); [cbn [owner start_place]; lia|].
  rewrite E. cbn [mbind res_bind]. exists t, x. split; [|done]. destruct r. done.
Qed.
End Heap.
