(* ===== verification/RdbFacts.v ===== *)
(** * Record databases: what the operations do

    The journal as a second table over the constant database: every operation on a journal that can grow is
    the operation on a map from keys to data, or to the mark of a deleted key, over the list of the records. *)

From stdpp Require Import gmap.
From S2P Require Import Prelude CType Memory Hash HashMap Sort Cdb CdbFacts Rdb RdbHeap.

Ltac aparts := unfold apart; repeat (apply Forall_cons; split); try apply Forall_nil; cbn [fst snd]; rconsts.
Ltac included := intros ?; cbn [app]; rewrite ?elem_of_app, ?elem_of_cons, ?elem_of_nil; tauto.

(** ** Writing to the journal *)

Lemma write_all_ok iov : ∀ m p, 0 <= p → p + Z.of_nat (length (concat iov)) <= Z.of_nat (length m) →
  ∃ m', write_all m p iov = Ok (m', p + Z.of_nat (length (concat iov))) ∧ mwr m p (concat iov) = Ok m'.
Proof.
  induction iov as [|b iov IH]; intros m p Hp Hl.
  - exists m. cbn [write_all concat length]. split; [by rewrite Z.add_0_r|]. unfold mwr. cbn [concat length] in Hl.
    destruct (Z.ltb_spec p 0), (Z.ltb_spec (Z.of_nat (length m)) (p + Z.of_nat (length (A:=Z) []))); cbn [length] in *; try lia. cbn [orb]. f_equal. simpl. rewrite Nat.add_0_r. apply take_drop.
  - cbn [concat] in *. rewrite length_app in *. destruct (mwr_ok m p b) as (m1 & E1 & L1); [lia..|].
    destruct (IH m1 (p + Z.of_nat (length b))) as (m2 & E2 & W2); [lia..|]. exists m2. cbn [write_all]. rewrite E1.
    cbn [mbind res_bind]. rewrite E2. split; [f_equal; f_equal; lia|]. by eapply mwr_app.
Qed.

(** A journal with room for another entry. *)
Definition room (m : list Z) (off : Z) : Prop := off + sizeof_node <= Z.of_nat (length m).

Lemma room_less m off : room m (off + sizeof_node) → room m off.
Proof. unfold room, sizeof_node. lia. Qed.

Lemma writev_ok e r iov size off : (∀ n, grow e n = true) →
  get4 (journal r) RDB_off = Ok off → sizeof_struct <= off → room (journal r) (off - sizeof_node) →
  Z.of_nat (length (journal r)) < 2 ^ 31 → size = Z.of_nat (length (concat iov)) → off + size + 48 <= 2 ^ 30 →
  ∃ m', writev e iov size r = Ok (set_journal m' r, Some off) ∧
    agree [(0, 4); (off, off + size)] (journal r) m' ∧ get4 m' RDB_off = Ok (off + size) ∧
    mrd m' off size = Ok (concat iov) ∧ room m' (off + size + sizeof_node) ∧ Z.of_nat (length m') < 2 ^ 31.
Proof.
  intros Hg Eo Ho Hroom Hl Es Hb. unfold room in *. rconsts. unfold writev, RDB_off. rewrite Eo. cbn [mbind res_bind].
  change (sizeof_node * 2) with 48. rewrite u32_small by lia.
  set (g := if Z.of_nat (length (journal r)) <? off + size + 48
            then resizeJournal e (u32 (off + size + 48 - Z.of_nat (length (journal r)))) r else Ok (r, true)).
  assert (Hgrow : ∃ m1, g = Ok (set_journal m1 r, true) ∧ agree [] (journal r) m1 ∧ off + size + 48 <= Z.of_nat (length m1) < 2 ^ 31).
  { subst g. destruct (Z.ltb_spec (Z.of_nat (length (journal r))) (off + size + 48)).
    - unfold resizeJournal. rewrite Hg, u32_small by lia. set (k := if _ <? _ then _ else _). eexists. split; [done|].
      split; [apply agree_grow|]. rewrite length_app, length_replicate.
      assert (0 <= off + size + 48 - Z.of_nat (length (journal r)) <= k ∧ k <= 2 ^ 30).
      { unfold k. destruct (Z.ltb_spec (off + size + 48 - Z.of_nat (length (journal r))) (Z.of_nat (length (journal r)) / 2));
          Z.div_mod_to_equations; lia. }
      unfold k in *. destruct (_ <? _); Z.div_mod_to_equations; lia.
    - exists (journal r). split; [by destruct r|]. split; [apply agree_refl|]. lia. }
  destruct Hgrow as (m1 & -> & A1 & L1 & L2). cbn [mbind res_bind fst snd negb journal set_journal].
  rewrite (get4_agree _ _ _ _ _ A1 Eo) by constructor. cbn [mbind res_bind].
  destruct (write_all_ok iov m1 off) as (m2 & E2 & W2); [lia..|]. rewrite E2, <-Es. cbn [mbind res_bind fst snd].
  assert (A2 := agree_mwr _ _ _ _ W2). rewrite <-Es in A2. pose proof (mwr_inv _ _ _ _ W2) as (_ & _ & _ & L2').
  destruct (put4_ok m2 0 (off + size)) as (m3 & E3 & L3); [lia..|]. rewrite E3. cbn [mbind res_bind].
  assert (A3 := agree_put4 _ _ _ _ E3). exists m3. split; [by destruct r|]. split; [|split; [|split; [|split]]]; try lia.
  - assert (A := agree_trans _ _ _ _ _ A1 (agree_trans _ _ _ _ _ A2 A3)). destruct A as [La A]. split; [done|].
    intros q n bs E HW. apply A; [done|]. apply Forall_cons in HW as [H1 HW]. by apply Forall_app_2; [|apply Forall_app_2; [|constructor]].
  - eapply get4_put4; [done|lia].
  - destruct A3 as [_ A3]. apply A3; [|aparts; lia]. rewrite Es. by eapply mrd_mwr_same.
Qed.

(** ** The heap after a write *)

Lemma blob_le h off off' a l : blob h off a l → off <= off' → blob h off' a l.
Proof. intros (H1 & H2 & H3) Ho. split; [done|]. split; [lia|done]. Qed.

Lemma used_perm l l' : l ≡ₚ l' → used l = used l'.
Proof. induction 1; unfold used in *; cbn [foldr] in *; lia. Qed.

Lemma used_insert (N : gmap Z rnode) p n : N !! p = None → used (map_to_list (<[p := n]> N)) = entry_size n + used (map_to_list N).
Proof. intros Hp. by rewrite (used_perm _ _ (map_to_list_insert N p n Hp)). Qed.

Lemma used_replace (N : gmap Z rnode) p n n' : N !! p = Some n →
  used (map_to_list (<[p := n']> N)) = used (map_to_list N) - entry_size n + entry_size n'.
Proof.
  intros Hp. rewrite <-insert_delete_eq, used_insert by apply lookup_delete_eq.
  rewrite <-(insert_delete_id N p n Hp) at 2. rewrite used_insert by apply lookup_delete_eq. lia.
Qed.

Lemma used_alter (N : gmap Z rnode) p f : (∀ n, entry_size (f n) = entry_size n) → used (map_to_list (alter f p N)) = used (map_to_list N).
Proof.
  intros Hf. destruct (N !! p) as [n|] eqn:E.
  - replace (alter f p N) with (<[p := f n]> N); [rewrite (used_replace _ _ n) by done; rewrite Hf; lia|].
    apply map_eq. intros i. destruct (decide (i = p)) as [->|]; [by rewrite lookup_insert_eq, lookup_alter_eq, E|].
    by rewrite lookup_insert_ne, lookup_alter_ne.
  - replace (alter f p N) with N; [done|]. apply map_eq. intros i. destruct (decide (i = p)) as [->|].
    + by rewrite lookup_alter_eq, E.
    + by rewrite lookup_alter_ne.
Qed.

Lemma used_set_val s x h : used (map_to_list (nodes (set_val s x h))) = used (map_to_list (nodes h)).
Proof. destruct s; cbn; [done| |]; by apply used_alter. Qed.

(** A range of the header, or behind what is in use. *)
Definition spare (off : Z) (w : Z * Z) : Prop := w.2 <= RDB_hashtab ∨ off <= w.1.
Ltac spares := repeat (apply Forall_cons; split); try apply Forall_nil; unfold spare; cbn [fst snd]; rconsts.

Lemma spare_apart off W q n : Forall (spare off) W → RDB_hashtab <= q → q + n <= off → Forall (apart q n) W.
Proof. intros HW Hq Hn. eapply Forall_impl; [exact HW|]. intros w [Hw|Hw]; unfold apart; lia. Qed.

(** A key and data in a part of the memory that is new. *)
Definition key_there (m : list Z) (lo hi p : Z) (k : list Z) : Prop :=
  ∃ kp, get4 m p = Ok kp ∧ get4 m (p + 4) = Ok (Z.of_nat (length k)) ∧ mrd m kp (Z.of_nat (length k)) = Ok k ∧
    lo <= kp ∧ kp + Z.of_nat (length k) <= hi.

Definition value_there (m : list Z) (lo hi p : Z) (v : option (list Z)) : Prop :=
  match v with
  | None => get4 m (p + 8) = Ok 0 ∧ get4 m (p + 12) = Ok U_NOT_FOUND
  | Some d => ∃ dp, get4 m (p + 8) = Ok dp ∧ get4 m (p + 12) = Ok (Z.of_nat (length d)) ∧
      mrd m dp (Z.of_nat (length d)) = Ok d ∧ lo <= dp ∧ dp + Z.of_nat (length d) <= hi
  end.

Lemma key_new m h off lo hi p k : (∀ q, is_Some (nodes h !! q) → q + sizeof_node <= lo) → sizeof_struct <= lo → hi <= off →
  key_there m lo hi p k → key_at m h off p k.
Proof.
  intros Hq Hlo Hhi (kp & H1 & H2 & H3 & H4 & H5). exists kp. splits; try done.
  split; [lia|]. split; [lia|]. intros q Hs. specialize (Hq q Hs). lia.
Qed.

Lemma value_new m h off lo hi p v : (∀ q, is_Some (nodes h !! q) → q + sizeof_node <= lo) → sizeof_struct <= lo → hi <= off →
  value_there m lo hi p v → value_at m h off p v.
Proof.
  intros Hq Hlo Hhi. destruct v as [d|]; [|done]. intros (dp & H1 & H2 & H3 & H4 & H5). exists dp.
  splits; try done; [rconsts; lia|]. split; [lia|]. split; [lia|]. intros q Hs. specialize (Hq q Hs). lia.
Qed.

(** A key and data that were there, in a heap with other nodes. *)
Lemma key_frame W m m' h h' off off' p k : agree W m m' → off <= off' → Forall (apart p 8) W →
  (∀ a l, blob h off a l → Forall (apart a l) W ∧ blob h' off a l) → key_at m h off p k → key_at m' h' off' p k.
Proof.
  intros HA Ho Hp Hb (kp & H1 & H2 & H3 & H4). destruct (Hb _ _ H4) as [H5 H6]. exists kp. splits.
  - eapply get4_agree; [exact HA|done|]. eapply Forall_impl; [exact Hp|]. unfold apart. intros w. lia.
  - eapply get4_agree; [exact HA|done|]. eapply Forall_impl; [exact Hp|]. unfold apart. intros w. lia.
  - by apply HA.
  - by eapply blob_le.
Qed.

Lemma value_frame W m m' h h' off off' p v : agree W m m' → off <= off' → Forall (apart (p + 8) 8) W →
  (∀ a l, blob h off a l → Forall (apart a l) W ∧ blob h' off a l) → value_at m h off p v → value_at m' h' off' p v.
Proof.
  intros HA Ho Hp Hb. assert (Hg : ∀ x, get4 m (p + 8) = Ok x → get4 m' (p + 8) = Ok x).
  { intros x E. eapply get4_agree; [exact HA|done|]. eapply Forall_impl; [exact Hp|]. unfold apart. intros w. lia. }
  assert (Hg' : ∀ x, get4 m (p + 12) = Ok x → get4 m' (p + 12) = Ok x).
  { intros x E. eapply get4_agree; [exact HA|done|]. eapply Forall_impl; [exact Hp|]. unfold apart. intros w. lia. }
  destruct v as [d|]; cbn [value_at]; [|intros [H1 H2]; auto]. intros (dp & H0 & H1 & H2 & H3 & H4).
  destruct (Hb _ _ H4) as [H5 H6]. exists dp. splits; auto; [by apply HA|by eapply blob_le].
Qed.

Lemma rep_write W m m' off off' h : rep m off h → agree W m m' → Forall (spare off) W → get4 m' RDB_off = Ok off' →
  off <= off' <= Z.of_nat (length m') → Z.of_nat (length m') < 2 ^ 31 → rep m' off' h.
Proof.
  intros Hr HA HW Ho Hoff Hl. pose proof (rep_head _ _ _ Hr) as [[Hs _] _].
  assert (Hb : ∀ a l, blob h off a l → Forall (apart a l) W ∧ blob h off a l).
  { intros a l Hb. split; [|done]. destruct Hb as (H1 & H2 & _). apply (spare_apart off); [done|rconsts; lia|done]. }
  assert (Hn : ∀ p, is_Some (nodes h !! p) → Forall (apart p 8) W ∧ Forall (apart (p + 8) 8) W).
  { intros p Hp. destruct (rep_range _ _ _ Hr p Hp). split; apply (spare_apart off); (done || (rconsts; lia)). }
  split.
  - lia.
  - done.
  - intros s v E. destruct (spot_range _ _ _ _ _ Hr E). eapply get4_agree; [exact HA|by apply (rep_val _ _ _ Hr)|].
    apply (spare_apart off); [done|done|lia].
  - intros p Hp. destruct (rep_range _ _ _ Hr p Hp). lia.
  - apply (rep_apart _ _ _ Hr).
  - intros p n E. eapply (key_frame _ _ _ h _ off); [exact HA|lia|by apply Hn; eexists|exact Hb|by apply (rep_key _ _ _ Hr)].
  - intros p n E. eapply (value_frame _ _ _ h _ off); [exact HA|lia|by apply Hn; eexists|exact Hb|by apply (rep_value _ _ _ Hr)].
  - pose proof (rep_used _ _ _ Hr). lia.
Qed.

Lemma rep_add W m m' off off' h t k v : rep m off h → val h t = Some 0 →
  agree ((addr t, addr t + 4) :: W) m m' → Forall (spare off) W → get4 m' RDB_off = Ok off' →
  off' <= Z.of_nat (length m') → Z.of_nat (length m') < 2 ^ 31 →
  get4 m' (addr t) = Ok off → get4 m' (off + 16) = Ok 0 → get4 m' (off + 20) = Ok 0 →
  key_at m' (add_node t off k v h) off' off k → value_at m' (add_node t off k v h) off' off v →
  off + sizeof_node <= off' → used (map_to_list (nodes h)) + entry_size (RNode k v 0 0) <= off' - sizeof_struct →
  rep m' off' (add_node t off k v h).
Proof.
  intros Hr Ht HA HW Ho Hl1 Hl2 Gt Gl Gr Hk Hv Hbig Hsz. assert (Hbig' : off + 24 <= off') by exact Hbig. pose proof (rep_head _ _ _ Hr) as [[Hs _] _].
  assert (Hp : nodes h !! off = None).
  { destruct (nodes h !! off) eqn:E; [|done]. destruct (rep_range _ _ _ Hr off ltac:(by eexists)). rconsts. lia. }
  assert (Hold : ∀ q n, nodes (add_node t off k v h) !! q = Some n → q ≠ off → is_Some (nodes h !! q)).
  { intros q n E Hq. destruct (node_inv h t off k v Hp q n E) as [[? _]|(_ & n0 & E0 & _)]; [done|by eexists]. }
  assert (Hold' : ∀ q, is_Some (nodes (add_node t off k v h) !! q) → q = off ∨ is_Some (nodes h !! q)).
  { intros q [n E]. destruct (decide (q = off)) as [->|Hq]; [by left|right; by eapply Hold]. }
  assert (Hb : ∀ a l, blob h off a l → Forall (apart a l) ((addr t, addr t + 4) :: W) ∧ blob (add_node t off k v h) off a l).
  { intros a l Hb. pose proof (blob_place _ _ _ _ _ _ _ Hr Ht Hb) as Hbt. destruct Hb as (H1 & H2 & H3). split.
    - apply Forall_cons. split; [unfold apart; simpl; lia|]. apply (spare_apart off); [done|rconsts; lia|done].
    - split; [done|]. split; [done|]. intros q Hq. destruct (Hold' q Hq) as [->|Hq']; [lia|auto]. }
  assert (Hn : ∀ q, is_Some (nodes h !! q) → Forall (apart q 8) ((addr t, addr t + 4) :: W) ∧
    Forall (apart (q + 8) 8) ((addr t, addr t + 4) :: W)).
  { intros q Hq. pose proof (place_fields _ _ _ _ _ _ Hr Ht Hq). destruct (rep_range _ _ _ Hr q Hq).
    split; apply Forall_cons; (split; [unfold apart; simpl; lia|apply (spare_apart off); (done || (rconsts; lia))]). }
  split.
  - rconsts; lia.
  - done.
  - intros s x Hx. destruct (val_inv h t off k v Ht Hp s x Hx) as [[-> ->]|[[Hw ->]|[Hne Hx']]]; [done| |].
    + destruct s as [i|q|q]; cbn [owner addr] in *; [rconsts; lia|by subst q..].
    + destruct (spot_range _ _ _ _ _ Hr Hx'). pose proof (places_apart _ _ _ _ _ _ _ Hr Hx' Ht Hne).
      eapply get4_agree; [exact HA|by apply (rep_val _ _ _ Hr)|].
      apply Forall_cons. split; [unfold apart; simpl; lia|by apply (spare_apart off)].
  - intros q Hq. destruct (Hold' q Hq) as [->|Hq']; [rconsts; lia|]. destruct (rep_range _ _ _ Hr q Hq'). lia.
  - intros q q' Hq Hq' Hne. destruct (Hold' q Hq) as [->|Hq1], (Hold' q' Hq') as [->|Hq2]; [done| | |by apply (rep_apart _ _ _ Hr)].
    + destruct (rep_range _ _ _ Hr q' Hq2). lia.
    + destruct (rep_range _ _ _ Hr q Hq1). lia.
  - intros q n E. destruct (node_inv h t off k v Hp q n E) as [[-> ->]|(Hq & n0 & E0 & -> & _)].
    + exact Hk.
    + eapply (key_frame _ _ _ h _ off); [exact HA|lia|by apply Hn; eexists|exact Hb|by apply (rep_key _ _ _ Hr)].
  - intros q n E. destruct (node_inv h t off k v Hp q n E) as [[-> ->]|(Hq & n0 & E0 & _ & ->)].
    + exact Hv.
    + eapply (value_frame _ _ _ h _ off); [exact HA|lia|by apply Hn; eexists|exact Hb|by apply (rep_value _ _ _ Hr)].
  - unfold add_node. cbn [put_node nodes]. rewrite used_insert by by apply set_val_none. rewrite used_set_val. lia.
Qed.

(** The nodes after one was added. *)
Lemma add_range m off h t k v q : rep m off h → is_Some (nodes (add_node t off k v h) !! q) → q = off ∨ is_Some (nodes h !! q).
Proof.
  intros Hr [n Hn]. assert (Hp : nodes h !! off = None).
  { destruct (nodes h !! off) eqn:E; [|done]. destruct (rep_range _ _ _ Hr off ltac:(by eexists)). rconsts. lia. }
  destruct (node_inv h t off k v Hp q n Hn) as [[-> _]|(_ & n0 & E & _)]; [by left|right; by eexists].
Qed.

Lemma rep_upd W m m' off off' lo h p n k v : rep m off h → nodes h !! p = Some n →
  agree ((p, p + 16) :: W) m m' → Forall (spare off) W → get4 m' RDB_off = Ok off' →
  off <= off' <= Z.of_nat (length m') → Z.of_nat (length m') < 2 ^ 31 →
  sizeof_struct <= lo → (∀ q, is_Some (nodes h !! q) → q + sizeof_node <= lo) →
  key_there m' lo off' p k → value_there m' lo off' p v →
  used (map_to_list (nodes h)) - entry_size n + entry_size (RNode k v 0 0) <= off' - sizeof_struct →
  rep m' off' (upd_node p k v n h).
Proof.
  intros Hr Hn HA HW Ho Hl1 Hl2 Hlo Hnodes Hk Hv Hsz. pose proof (rep_head _ _ _ Hr) as [[Hs _] _].
  assert (Hsame : ∀ q, is_Some (nodes (upd_node p k v n h) !! q) ↔ is_Some (nodes h !! q)).
  { intros q. rewrite nodes_upd. destruct (decide (q = p)) as [->|]; [|done]. rewrite Hn. split; by eexists. }
  assert (Hpr : is_Some (nodes h !! p)) by by eexists.
  assert (Hend : ∀ q, is_Some (nodes (upd_node p k v n h) !! q) → q + sizeof_node <= lo).
  { intros q Hq%Hsame. auto. }
  assert (Hb : ∀ a l, blob h off a l → Forall (apart a l) ((p, p + 16) :: W) ∧ blob (upd_node p k v n h) off a l).
  { intros a l (H1 & H2 & H3). split.
    - apply Forall_cons. split; [specialize (H3 p Hpr); unfold apart; cbn [fst snd]; rconsts; lia|].
      apply (spare_apart off); [done|rconsts; lia|done].
    - split; [done|]. split; [done|]. intros q Hq%Hsame. auto. }
  assert (Hother : ∀ q, is_Some (nodes h !! q) → q ≠ p → Forall (apart q 8) ((p, p + 16) :: W) ∧ Forall (apart (q + 8) 8) ((p, p + 16) :: W)).
  { intros q Hq Hne. pose proof (rep_apart _ _ _ Hr q p Hq Hpr Hne). destruct (rep_range _ _ _ Hr q Hq).
    split; apply Forall_cons; (split; [unfold apart; cbn [fst snd]; rconsts; lia|apply (spare_apart off); (done || (rconsts; lia))]). }
  split.
  - lia.
  - done.
  - intros s x Hx. rewrite val_upd in Hx by done. destruct (spot_range _ _ _ _ _ Hr Hx).
    pose proof (place_fields _ _ _ _ _ _ Hr Hx Hpr). eapply get4_agree; [exact HA|by apply (rep_val _ _ _ Hr)|].
    apply Forall_cons. split; [unfold apart; simpl; lia|by apply (spare_apart off)].
  - intros q Hq%Hsame. destruct (rep_range _ _ _ Hr q Hq). lia.
  - intros q q' Hq%Hsame Hq'%Hsame. by apply (rep_apart _ _ _ Hr).
  - intros q n' E. rewrite nodes_upd in E. destruct (decide (q = p)) as [->|Hq].
    + injection E as <-. apply (key_new _ _ _ lo off'); [exact Hend|done|lia|exact Hk].
    + eapply (key_frame _ _ _ h _ off); [exact HA|lia|by apply Hother; [eexists|]|exact Hb|by apply (rep_key _ _ _ Hr)].
  - intros q n' E. rewrite nodes_upd in E. destruct (decide (q = p)) as [->|Hq].
    + injection E as <-. apply (value_new _ _ _ lo off'); [exact Hend|done|lia|exact Hv].
    + eapply (value_frame _ _ _ h _ off); [exact HA|lia|by apply Hother; [eexists|]|exact Hb|by apply (rep_value _ _ _ Hr)].
  - unfold upd_node. cbn [put_node nodes]. rewrite (used_replace _ _ n) by done. unfold entry_size in *.
    cbn [n_key n_val] in *. lia.
Qed.

(** ** The parts of an operation *)

Definition in_journal (m : list Z) (lo hi : Z) (x : datum) (bs : list Z) : Prop :=
  ∃ p, x = Journal p (Z.of_nat (length bs)) ∧ mrd m p (Z.of_nat (length bs)) = Ok bs ∧
    lo <= p ∧ p + Z.of_nat (length bs) <= hi.

Definition held (m : list Z) (lo hi : Z) (x : datum) (v : option (list Z)) : Prop :=
  match v with None => x = Null | Some d => in_journal m lo hi x d end.

(** An entry was added to the log. *)
Record logged (m m' : list Z) (off off' : Z) : Prop := {
  lg_agree : agree [(0, 4); (off, off')] m m';
  lg_off : get4 m' RDB_off = Ok off';
  lg_room : room m' (off' + sizeof_node);
  lg_len : Z.of_nat (length m') < 2 ^ 31 }.

(** The members that logging leaves. *)
Definition same_place (r r' : rdb) : Prop := base r' = base r ∧ node r' = node r ∧ pnode r' = pnode r.

Lemma mrd_part m p n A B C : mrd m p n = Ok (A ++ B ++ C) → mrd m (p + Z.of_nat (length A)) (Z.of_nat (length B)) = Ok B.
Proof.
  intros H. pose proof (mrd_inv _ _ _ _ H) as (_ & _ & _ & _ & Hn). rewrite !length_app in Hn.
  rewrite (mrd_sub _ _ _ _ (Z.of_nat (length A)) (Z.of_nat (length B)) H) by lia.
  rewrite !Nat2Z.id, drop_app_length. by rewrite take_app_length.
Qed.

Lemma in_journal_part m lo hi p n A B C : mrd m p n = Ok (A ++ B ++ C) → lo <= p → p + n <= hi →
  in_journal m lo hi (Journal (p + Z.of_nat (length A)) (Z.of_nat (length B))) B.
Proof.
  intros H Hlo Hhi. eexists. split; [done|]. split; [by eapply mrd_part|].
  pose proof (mrd_inv _ _ _ _ H) as (_ & _ & _ & _ & Hn). rewrite !length_app in Hn. lia.
Qed.

Section Log.
Context (e : env) (Hg : ∀ n, grow e n = true) (r : rdb) (off : Z).
Context (Eo : get4 (journal r) RDB_off = Ok off) (Ho : sizeof_struct <= off)
  (Hroom : room (journal r) (off - sizeof_node)) (Hl : Z.of_nat (length (journal r)) < 2 ^ 31).

Lemma log_remove_ok k : rkey r = User k → off + 8 + Z.of_nat (length k) + 48 <= 2 ^ 30 →
  let off' := off + 8 + Z.of_nat (length k) in
  ∃ r', log_remove e r = Ok (r', true) ∧ logged (journal r) (journal r') off off' ∧
    in_journal (journal r') off off' (rkey r') k ∧ rdata r' = rdata r ∧ same_place r r'.
Proof.
  intros Hk Hb off'. assert (0 <= off) by (rconsts; lia). unfold log_remove. rewrite Hk. cbn [datum_bytes mbind res_bind dsize].
  change sizeof_header with 8. rewrite u32_small by lia. set (iov := [header _ _; k]).
  assert (Hsz : 8 + Z.of_nat (length k) = Z.of_nat (length (concat iov))).
  { cbn [iov concat]. rewrite app_nil_r, length_app. cbn [header length app le32]. lia. }
  destruct (writev_ok e r iov (8 + Z.of_nat (length k)) off Hg Eo Ho Hroom Hl Hsz ltac:(lia)) as (m' & E & HA & Ho' & Hm & Hr' & Hl').
  rewrite E. cbn [mbind res_bind fst snd]. eexists. split; [done|]. cbn [journal set_journal set_rkey rkey rdata base node pnode].
  rewrite Z.add_assoc in *. split; [by split|]. split; [|done].
  assert (Hc : concat iov = header (Z.of_nat (length k)) U_NOT_FOUND ++ k ++ []) by done. rewrite Hc in Hm.
  apply (in_journal_part _ off off' off _ _ k [] Hm); unfold off'; lia.
Qed.

Lemma log_store_ok k d : rkey r = User k → rdata r = User d →
  off + 8 + Z.of_nat (length k) + Z.of_nat (length d) + 48 <= 2 ^ 30 →
  let off' := off + 8 + Z.of_nat (length k) + Z.of_nat (length d) in
  ∃ r', log_store e r = Ok (r', true) ∧ logged (journal r) (journal r') off off' ∧
    in_journal (journal r') off off' (rkey r') k ∧ in_journal (journal r') off off' (rdata r') d ∧ same_place r r'.
Proof.
  intros Hk Hd Hb off'. assert (0 <= off) by (rconsts; lia). unfold log_store. rewrite Hk, Hd.
  cbn [datum_bytes mbind res_bind dsize].
  change sizeof_header with 8. rewrite u32_small by lia. set (iov := [header _ _; k; d]).
  set (sz := 8 + Z.of_nat (length k) + Z.of_nat (length d)).
  assert (Hsz : sz = Z.of_nat (length (concat iov))).
  { cbn [iov concat]. rewrite app_nil_r, !length_app. cbn [header length app le32]. lia. }
  destruct (writev_ok e r iov sz off Hg Eo Ho Hroom Hl Hsz ltac:(lia)) as (m' & E & HA & Ho' & Hm & Hr' & Hl').
  rewrite E. cbn [mbind res_bind fst snd]. eexists. split; [done|].
  cbn [journal set_journal set_rkey set_rdata rkey rdata base node pnode].
  replace (off + sz) with off' in * by (unfold sz, off'; lia). split; [by split|].
  assert (Hc : concat iov = header (Z.of_nat (length k)) (Z.of_nat (length d)) ++ k ++ d) by by cbn [iov concat]; rewrite app_nil_r.
  split; [|split; [|done]].
  - rewrite Hc in Hm. apply (in_journal_part _ off off' off _ _ k d Hm); unfold sz, off'; lia.
  - assert (Hm' : mrd m' off sz = Ok ((header (Z.of_nat (length k)) (Z.of_nat (length d)) ++ k) ++ d ++ []))
      by (rewrite app_nil_r, <-app_assoc, Hm; by f_equal).
    pose proof (in_journal_part _ off off' off _ _ d [] Hm' ltac:(lia) ltac:(unfold sz, off'; lia)) as Hj.
    replace (off + 8 + Z.of_nat (length k)) with (off + Z.of_nat (length (header (Z.of_nat (length k)) (Z.of_nat (length d)) ++ k)));
      [done|]. rewrite length_app. cbn [header length app le32]. lia.
Qed.
End Log.

Lemma agree_4 m m1 m2 m3 m4 p : agree [(p, p + 4)] m m1 → agree [(p + 4, p + 4 + 4)] m1 m2 →
  agree [(p + 8, p + 8 + 4)] m2 m3 → agree [(p + 12, p + 12 + 4)] m3 m4 → agree [(p, p + 16)] m m4.
Proof.
  intros H1 H2 H3 H4. destruct (agree_trans _ _ _ _ _ H1 (agree_trans _ _ _ _ _ H2 (agree_trans _ _ _ _ _ H3 H4))) as [L H].
  split; [done|]. intros q n bs E HW. apply Forall_cons in HW as [Hw _]. apply H; [done|]. unfold apart in Hw. cbn [fst snd] in Hw.
  cbn [app]. aparts; lia.
Qed.

Lemma htInsert_ok r lo hi k v : in_journal (journal r) lo hi (rkey r) k → held (journal r) lo hi (rdata r) v →
  sizeof_struct <= node r → node r + sizeof_node <= lo ∨ hi <= node r → 0 <= lo → hi <= Z.of_nat (length (journal r)) →
  node r + sizeof_node <= Z.of_nat (length (journal r)) →
  Z.of_nat (length (journal r)) < 2 ^ 31 →
  ∃ m', htInsert r = Ok (set_journal m' r) ∧ length m' = length (journal r) ∧ agree [(node r, node r + 16)] (journal r) m' ∧
    key_there m' lo hi (node r) k ∧ value_there m' lo hi (node r) v.
Proof.
  intros (kp & Ek & Mk & K1 & K2) Hv Hn Hlo Hlo0 Hhi Hend Hl. unfold htInsert. rewrite Ek. set (p := node r) in *. rconsts.
  assert (Hd : ∃ a b, match rdata r with Journal p n => Ok (p, n) | Null => Ok (0, U_NOT_FOUND) | _ => Fail OutOfBounds end = Ok (a, b) ∧
    0 <= a < 2 ^ 32 ∧ 0 <= b < 2 ^ 32 ∧
    match v with None => a = 0 ∧ b = U_NOT_FOUND
    | Some d => b = Z.of_nat (length d) ∧ mrd (journal r) a b = Ok d ∧ lo <= a ∧ a + b <= hi end).
  { destruct v as [d|]; cbn [held] in Hv.
    - destruct Hv as (dp & -> & Md & D1 & D2). exists dp, (Z.of_nat (length d)). splits; (done || lia).
    - rewrite Hv. exists 0, U_NOT_FOUND. done. }
  destruct Hd as (a & b & -> & Ha & Hb & Hab). cbn [mbind res_bind fst snd].
  destruct (put4_ok (journal r) p kp) as (m1 & E1 & L1); [lia..|]. rewrite E1. cbn [mbind res_bind].
  destruct (put4_ok m1 (p + 4) (Z.of_nat (length k))) as (m2 & E2 & L2); [lia..|]. rewrite E2. cbn [mbind res_bind].
  destruct (put4_ok m2 (p + 8) a) as (m3 & E3 & L3); [lia..|]. rewrite E3. cbn [mbind res_bind].
  destruct (put4_ok m3 (p + 12) b) as (m4 & E4 & L4); [lia..|]. rewrite E4. cbn [mbind res_bind].
  assert (HA := agree_4 _ _ _ _ _ _ (agree_put4 _ _ _ _ E1) (agree_put4 _ _ _ _ E2) (agree_put4 _ _ _ _ E3) (agree_put4 _ _ _ _ E4)).
  exists m4. split; [done|]. split; [lia|]. split; [done|].
  assert (G3 : get4 m4 (p + 8) = Ok a) by (rewrite (get4_put4_ne _ _ _ _ _ E4) by lia; by apply (get4_put4 _ _ _ _ E3)).
  assert (G4 : get4 m4 (p + 12) = Ok b) by by apply (get4_put4 _ _ _ _ E4).
  assert (HM : ∀ q n bs, mrd (journal r) q n = Ok bs → lo <= q → q + n <= hi → mrd m4 q n = Ok bs).
  { intros q n bs E Hq Hqn. apply HA; [done|]. aparts; lia. }
  split.
  - exists kp. rewrite (get4_put4_ne _ _ _ _ _ E4), (get4_put4_ne _ _ _ _ _ E3), (get4_put4_ne _ _ _ _ _ E2) by lia.
    rewrite (get4_put4 _ _ _ _ E1) by lia. rewrite (get4_put4_ne _ _ _ _ _ E4), (get4_put4_ne _ _ _ _ _ E3) by lia.
    rewrite (get4_put4 _ _ _ _ E2) by lia. splits; (done || lia || by apply HM).
  - destruct v as [d|]; cbn [value_there].
    + destruct Hab as (-> & Md & D1 & D2). exists a. splits; (done || by apply HM).
    + destruct Hab as [-> ->]. done.
Qed.

Lemma htAlloc_ok r off h t : rep (journal r) off h → val h t = Some 0 → pnode r = addr t → room (journal r) off →
  ∃ m', htAlloc r = Ok (set_node off (addr t) (set_journal m' r)) ∧ length m' = length (journal r) ∧
    agree [(0, 4); (addr t, addr t + 4); (off, off + sizeof_node)] (journal r) m' ∧ get4 m' RDB_off = Ok (off + sizeof_node) ∧
    get4 m' (addr t) = Ok off ∧ get4 m' (off + 16) = Ok 0 ∧ get4 m' (off + 20) = Ok 0.
Proof.
  intros Hr Ht Hp Hroom. destruct (rep_head _ _ _ Hr) as [[Ho1 Ho2] Hl]. destruct (spot_range _ _ _ _ _ Hr Ht) as [Ha1 Ha2].
  unfold room in *. rconsts. unfold htAlloc. rewrite (rep_off _ _ _ Hr). cbn [mbind res_bind]. unfold RDB_off in *.
  change sizeof_node with 24 in *. rewrite u32_small by lia. rewrite Hp.
  destruct (put4_ok (journal r) 0 (off + 24)) as (m1 & E1 & L1); [lia..|]. rewrite E1. cbn [mbind res_bind].
  destruct (put4_ok m1 (addr t) off) as (m2 & E2 & L2); [lia..|]. rewrite E2. cbn [mbind res_bind].
  destruct (clear_ok m2 off 24) as (m3 & E3 & [L3 S3]); [lia..|]. rewrite E3. cbn [mbind res_bind].
  exists m3. split; [done|]. split; [lia|]. split.
  - assert (HA := agree_trans _ _ _ _ _ (agree_put4 _ _ _ _ E1) (agree_trans _ _ _ _ _ (agree_put4 _ _ _ _ E2) (agree_clear _ _ _ _ E3 ltac:(lia)))).
    done.
  - rewrite !(get4_same_out m2 m3 off (off + 24)) by (done || lia).
    rewrite (get4_put4_ne _ _ _ _ _ E2), (get4_put4 _ _ _ _ E1), (get4_put4 _ _ _ _ E2) by lia.
    split; [done|]. split; [done|]. split; eapply get4_clear; (exact E3 || lia).
Qed.

Lemma isDeleted_ok r off h n : rep (journal r) off h → nodes h !! node r = Some n →
  isDeleted r = Ok (r, match n_val n with None => true | Some _ => false end).
Proof.
  intros Hr Hn. pose proof (rep_value _ _ _ Hr _ _ Hn) as Hv. unfold isDeleted. destruct (n_val n) as [d|]; cbn [value_at] in Hv.
  - destruct Hv as (dp & H0 & -> & _). cbn [mbind res_bind]. by destruct (Z.eqb_spec dp 0).
  - destruct Hv as [-> ->]. cbn [mbind res_bind]. by destruct r.
Qed.

Lemma agree_incl W W' m m' : agree W m m' → W ⊆ W' → agree W' m m'.
Proof. intros [L H] Hs. split; [done|]. intros q n bs E HW. apply H; [done|]. rewrite !Forall_forall in *. auto. Qed.

Lemma entry_size_ge n : 32 <= entry_size n.
Proof. unfold entry_size. destruct (n_val n); rconsts; lia. Qed.

(** What an operation that logs an entry and puts it into a node leads to. *)
Record entered (m m' : list Z) (off' : Z) (h' : heap) : Prop := {
  en_rep : rep m' off' h';
  en_room : room m' (off' + sizeof_node);
  en_count : ∀ n, get4 m RDB_nrecord = Ok n → get4 m' RDB_nrecord = Ok n }.

Lemma insert_upd m off off' h r n k v : rep m off h → nodes h !! node r = Some n → logged m (journal r) off off' →
  in_journal (journal r) off off' (rkey r) k → held (journal r) off off' (rdata r) v →
  entry_size (RNode k v 0 0) <= sizeof_node + (off' - off) →
  ∃ m', htInsert r = Ok (set_journal m' r) ∧ agree [(node r, node r + 16)] (journal r) m' ∧
    entered m m' off' (upd_node (node r) k v n h).
Proof.
  intros Hr Hn [HA Ho Hroom Hl] Hk Hv Hsz. destruct (rep_range _ _ _ Hr (node r)) as [Hp1 Hp2]; [by eexists|].
  destruct (rep_head _ _ _ Hr) as [[Hs _] _]. pose proof (entry_size_ge (RNode k v 0 0)). unfold room in Hroom.
  destruct (htInsert_ok r off off' k v Hk Hv) as (m' & E & Hl' & HA' & Hk' & Hv'); [done|by left|rconsts; lia|rconsts; lia|rconsts; lia|done|].
  exists m'. split; [done|]. split; [done|]. assert (HAA := agree_trans _ _ _ _ _ HA HA').
  split.
  - eapply (rep_upd [(0, 4); (off, off')]); [exact Hr|exact Hn| | | |rconsts; lia|lia|exact Hs| |exact Hk'|exact Hv'|].
    + eapply agree_incl; [exact HAA|]. included.
    + spares; lia.
    + assert (G : get4 m' 0 = Ok off'); [|done]. eapply get4_agree; [exact HA'|done|]. aparts; lia.
    + intros q Hq. by destruct (rep_range _ _ _ Hr q Hq).
    + pose proof (rep_used _ _ _ Hr). pose proof (entry_size_ge n). rconsts. lia.
  - unfold room. lia.
  - intros N EN. eapply get4_agree; [exact HAA|done|]. cbn [app]. aparts; lia.
Qed.

Lemma insert_add m m1 off off' h t r k v : rep m off h → val h t = Some 0 →
  agree [(0, 4); (addr t, addr t + 4); (off, off + sizeof_node)] m m1 →
  get4 m1 (addr t) = Ok off → get4 m1 (off + 16) = Ok 0 → get4 m1 (off + 20) = Ok 0 →
  node r = off → logged m1 (journal r) (off + sizeof_node) off' →
  in_journal (journal r) (off + sizeof_node) off' (rkey r) k → held (journal r) (off + sizeof_node) off' (rdata r) v →
  entry_size (RNode k v 0 0) <= off' - off →
  ∃ m', htInsert r = Ok (set_journal m' r) ∧ agree [(node r, node r + 16)] (journal r) m' ∧
    entered m m' off' (add_node t off k v h).
Proof.
  intros Hr Ht A1 Gt Gl Gr Hno [HA Ho Hroom Hl] Hk Hv Hsz. destruct (spot_range _ _ _ _ _ Hr Ht) as [Ha1 Ha2].
  destruct (rep_head _ _ _ Hr) as [[Hs _] _]. pose proof (entry_size_ge (RNode k v 0 0)). unfold room in Hroom.
  destruct (htInsert_ok r _ off' k v Hk Hv) as (m' & E & Hl' & HA' & Hk' & Hv'); [lia|left; lia|rconsts; lia|rconsts; lia|rconsts; lia|done|].
  exists m'. split; [done|]. split; [done|]. rewrite Hno in *. assert (HAA := agree_trans _ _ _ _ _ HA HA').
  assert (Hend : ∀ q, is_Some (nodes (add_node t off k v h) !! q) → q + sizeof_node <= off + sizeof_node).
  { intros q Hq. destruct (add_range m off h t k v q Hr Hq) as [->|Hq']; [lia|]. destruct (rep_range _ _ _ Hr q Hq'). rconsts. lia. }
  assert (Hkeep : ∀ q x, get4 m1 q = Ok x → 4 <= q → q + 4 <= off ∨ off + 16 <= q ∧ q + 4 <= off + 24 → get4 m' q = Ok x).
  { intros q x G Hq1 Hq2. eapply get4_agree; [exact HAA|done|]. cbn [app]. aparts; lia. }
  split.
  - eapply (rep_add ([(0, 4); (off, off + sizeof_node)] ++ [(0, 4); (off + sizeof_node, off')] ++ [(off, off + 16)]));
      [exact Hr|exact Ht| | | |rconsts; lia|lia| | | | | |rconsts; lia|].
    + eapply agree_incl; [exact (agree_trans _ _ _ _ _ A1 HAA)|]. included.
    + cbn [app]. spares; lia.
    + assert (G : get4 m' 0 = Ok off'); [|done]. eapply get4_agree; [exact HA'|done|]. aparts; lia.
    + apply Hkeep; [done| |]; rconsts; lia.
    + apply Hkeep; [done| |]; rconsts; lia.
    + apply Hkeep; [done| |]; rconsts; lia.
    + by apply (key_new _ _ _ (off + sizeof_node) off'); [exact Hend|rconsts; lia|lia|].
    + by apply (value_new _ _ _ (off + sizeof_node) off'); [exact Hend|rconsts; lia|lia|].
    + pose proof (rep_used _ _ _ Hr). lia.
  - unfold room. lia.
  - intros N EN. eapply get4_agree; [exact (agree_trans _ _ _ _ _ A1 HAA)|done|]. cbn [app]. aparts; lia.
Qed.

(** ** The specification: a map over a list of records *)

(** The data, or that it was deleted, of the keys in the journal. *)
Abbreviation cache := (gmap (list Z) (option (list Z))).

Section Database.
Context (ic : bool).

(** What a key stands for. *)
Definition view (recs : list (list Z * list Z)) (C : cache) (k : list Z) : option (list Z) :=
  match C !! canon ic k with Some v => v | None => head (values ic k recs) end.

Definition base_ok (c : cdb) (recs : list (list Z * list Z)) : Prop :=
  ignore_case c = ic ∧ nrecord c = Z.of_nat (length recs) ∧ Z.of_nat (length (file c)) < 2 ^ 32 ∧
  (recs = [] ∧ (file c = [] ∨ file c = replicate (Z.to_nat start) 0 ∧ start_hash_table_slot c = start) ∨
   recs ≠ [] ∧ database ic (file c) recs ∧ start_hash_table_slot c = start + rtotal recs).

Definition cache_rep (h : heap) (C : cache) : Prop :=
  (∀ p n, nodes h !! p = Some n → C !! canon ic (n_key n) = Some (n_val n)) ∧
  ∀ ck v, C !! ck = Some v → ∃ p n, nodes h !! p = Some n ∧ canon ic (n_key n) = ck.

Definition journal_ok (m : list Z) (off : Z) (C : cache) : Prop :=
  ∃ h, heap_ok ic h ∧ rep m off h ∧ cache_rep h C.

(** A database whose journal is used up to [off], with the records and the cache, and the count of the journal. *)
Record opened (r : rdb) (off : Z) (recs : list (list Z * list Z)) (C : cache) (N : Z) : Prop := {
  op_base : base_ok (base r) recs;
  op_journal : journal_ok (journal r) off C;
  op_room : room (journal r) off;
  op_count : get4 (journal r) RDB_nrecord = Ok N }.

(** *** The cache and the heap *)

Lemma search_cache h C k t x : heap_ok ic h → cache_rep h C → key_good ic k → search ic h k (start_place ic k) t x →
  (x = 0 ∧ val h t = Some 0 ∧ C !! canon ic k = None) ∨
  ∃ n, x ≠ 0 ∧ nodes h !! x = Some n ∧ same ic k (n_key n) ∧ C !! canon ic k = Some (n_val n).
Proof.
  intros Hh [H1 H2] Hk Hs. assert (Hend : (x = 0 ∧ val h t = Some 0) ∨ ∃ n, nodes h !! x = Some n ∧ same ic k (n_key n)).
  { clear H1 H2. induction Hs; eauto. }
  destruct Hend as [[-> Ht]|(n & Hn & Hsame)].
  - left. splits; try done. destruct (C !! canon ic k) as [v|] eqn:E; [|done]. destruct (H2 _ _ E) as (p & n & Hp & Hc).
    destruct (ho_reach _ _ Hh _ _ Hp) as (s & Hr). assert (Hp0 : p ≠ 0) by (intros ->; by rewrite (ho_null _ _ Hh) in Hp).
    assert (Hr' : search ic h k (start_place ic (n_key n)) s p).
    { eapply search_extends; [apply Hh| |apply (ho_key _ _ Hh _ _ Hp)|apply Hk| |exact Hr|done]; [|done].
      split; [done|]. intros q n0 E0. by exists n0. }
    rewrite (start_same ic (n_key n) k) in Hr' by done.
    by destruct (search_fun _ _ _ _ _ _ _ _ (ho_null _ _ Hh) Hs Hr') as [_ <-].
  - right. exists n. splits; try done; [intros ->; by rewrite (ho_null _ _ Hh) in Hn|]. rewrite Hsame. by eapply H1.
Qed.

Lemma cache_add h C t p k v : val h t = Some 0 → nodes h !! p = None → C !! canon ic k = None → cache_rep h C →
  cache_rep (add_node t p k v h) (<[canon ic k := v]> C).
Proof.
  intros Ht Hp Hk [H1 H2]. split.
  - intros q n Hn. destruct (node_inv h t p k v Hp q n Hn) as [[-> ->]|(Hq & n0 & E0 & -> & ->)]; [by rewrite lookup_insert_eq|].
    specialize (H1 _ _ E0). rewrite lookup_insert_ne; [done|]. intros E. by rewrite <-E, Hk in H1.
  - intros ck w. destruct (decide (ck = canon ic k)) as [->|Hne].
    + intros _. exists p, (RNode k v 0 0). split; [by apply nodes_new|done].
    + rewrite lookup_insert_ne by done. intros E. destruct (H2 _ _ E) as (q & n & Hq & <-).
      destruct (node_kept h t p k v Hp q n Hq) as (n' & E' & Ek & _). exists q, n'. by rewrite Ek.
Qed.

Lemma cache_upd h C p k v n : heap_ok ic h → nodes h !! p = Some n → same ic k (n_key n) → cache_rep h C →
  cache_rep (upd_node p k v n h) (<[canon ic k := v]> C).
Proof.
  intros Hh Hn Hs [H1 H2]. split.
  - intros q n' E. rewrite nodes_upd in E. destruct (decide (q = p)) as [->|Hq].
    + injection E as <-. cbn. by rewrite lookup_insert_eq.
    + rewrite lookup_insert_ne; [by eapply H1|]. intros Ec. apply Hq. eapply (keys_differ ic h); [done|exact E|exact Hn|].
      unfold same in *. congruence.
  - intros ck w. destruct (decide (ck = canon ic k)) as [->|Hne].
    + intros _. exists p, (RNode k v (n_left n) (n_right n)). by rewrite nodes_upd, decide_True.
    + rewrite lookup_insert_ne by done. intros E. destruct (H2 _ _ E) as (q & n' & Hq & <-). exists q, n'.
      rewrite nodes_upd, decide_False; [done|]. intros ->. apply Hne. rewrite Hn in Hq. injection Hq as <-. by rewrite Hs.
Qed.

(** *** The constant database *)

Definition same_db (c c' : cdb) : Prop :=
  file c' = file c ∧ nrecord c' = nrecord c ∧ start_hash_table_slot c' = start_hash_table_slot c ∧ ignore_case c' = ignore_case c.

Lemma same_trans c c' c'' : same_db c c' → same_db c' c'' → same_db c c''.
Proof. unfold same_db. intuition congruence. Qed.

Lemma base_same c c' recs : same_db c c' → base_ok c recs → base_ok c' recs.
Proof. intros (H1 & H2 & H3 & H4). unfold base_ok. by rewrite H1, H2, H3, H4. Qed.

Ltac steps :=
  repeat match goal with
  | H : context [?x ≫= _] |- _ => destruct x eqn:?; cbn [mbind res_bind] in H; [|done]
  | H : context [if ?b then _ else _] |- _ => destruct b eqn:?
  end.

Lemma match_same c c' b : match_ c = Ok (c', b) → same_db c c'.
Proof. unfold match_. intros H. steps; injection H as <- <-; done. Qed.

Lemma advance_same n c c' : advance n c = Ok c' → same_db c c'.
Proof. unfold advance. intros H. steps; injection H as <-; done. Qed.

Lemma findNext_step_same c : match findNext_step c with
  | Ok (inl c') => same_db c c' | Ok (inr r) => same_db c r.1 | Fail _ => True end.
Proof.
  unfold findNext_step. destruct (get4 _ _) as [slots|]; [|exact I]. cbn [mbind res_bind]. destruct (_ <? _); [done|].
  assert (Ha : ∀ c1, (if 1 <? loop (cur (set_loop (u32 (loop (cur c) + 1)) c)) then advance slots (set_loop (u32 (loop (cur c) + 1)) c)
     else Ok (set_loop (u32 (loop (cur c) + 1)) c)) = Ok c1 → same_db c c1).
  { intros c1. destruct (1 <? _); [intros H%advance_same; done|by intros [= <-]]. }
  destruct (if 1 <? _ then _ else _) as [c1|]; [|exact I]. cbn [mbind res_bind]. specialize (Ha c1 eq_refl).
  destruct (get4 (file c1) (slot (cur c1) + 4)) as [pos|]; [|exact I]. cbn [mbind res_bind]. destruct (pos =? 0); [done|].
  destruct (get4 (file c1) (slot (cur c1))) as [hash|]; [|exact I]. cbn [mbind res_bind]. destruct (hash =? _); [|done].
  destruct (get4 _ _) as [klen|]; [|exact I]. cbn [mbind res_bind]. destruct (klen =? _); [|done].
  destruct (match_ _) as [[c2 b]|] eqn:E; [|exact I]. cbn [mbind res_bind fst snd]. apply match_same in E.
  assert (same_db c c2) by (eapply same_trans; [exact Ha|exact E]). by destruct b.
Qed.

Lemma findNext_same c c' b : findNext c = Ok (c', b) → same_db c c'.
Proof.
  unfold findNext. destruct (get4 _ _) as [slots|]; [|done]. cbn [mbind res_bind]. intros H.
  apply (iterate_partial findNext_step (same_db c) (λ r, same_db c r.1)) in H; [done| |done].
  intros s Hs. pose proof (findNext_step_same s) as Hf.
  destruct (findNext_step s) as [[s'|r]|]; [| |done]; by eapply same_trans.
Qed.

Lemma find_same c c' b : find c = Ok (c', b) → same_db c c'.
Proof.
  unfold find. intros H. steps; try (by injection H as <- <-). by apply findNext_same in H.
Qed.

(** The key of the object, and its hash, are those of [k]. *)
Definition keyed (r : rdb) (k : list Z) : Prop :=
  rkey r = User k ∧ khash (cur (base r)) = hashv ic k ∧ key (cur (base r)) = k.

Lemma hash_key_ok r k : ignore_case (base r) = ic → rkey r = User k → ∃ c, hash_key r = Ok (set_base c r) ∧ same_db (base r) c ∧
  keyed (set_base c r) k.
Proof.
  intros Hic Hk. unfold hash_key, setKey, cdb_hash. rewrite Hk. cbn [datum_bytes mbind res_bind].
  rewrite Hic, u_cdb_hash_ok. cbn [mbind res_bind]. eexists. split; [done|]. split; done.
Qed.

Lemma setKey_id c k : ignore_case c = ic → khash (cur c) = hashv ic k → key (cur c) = k → setKey k c = Ok c.
Proof.
  intros Hic Hh Hk. unfold setKey, cdb_hash. rewrite Hic, u_cdb_hash_ok. cbn [mbind res_bind]. rewrite <-Hh, <-Hk.
  by destruct c as [? ? ? ? ? []].
Qed.

Lemma find_zeros c : file c = replicate (Z.to_nat start) 0 → ∃ c', find c = Ok (c', false).
Proof.
  intros Hf. unfold find. set (i := khash (cur c) mod CDB_NUM_HASH_TABLE_POINTER). 
  assert (Hi : 0 <= i < 512) by by apply Z.mod_pos_bound. change sizeof_pointer with 8. rewrite u32_small by lia.
  cbn [file set_hp set_cur]. rewrite Hf.
  assert (G : get4 (replicate (Z.to_nat start) 0) (i * 8 + 4) = Ok 0).
  { unfold get4. rewrite mrd_ok by (rewrite ?length_replicate; unfold start; consts; lia). cbn [mbind res_bind].
    change (Z.to_nat 4) with 4%nat. rewrite drop_replicate, take_replicate.
    replace (Init.Nat.min 4 (Z.to_nat start - Z.to_nat (i * 8 + 4)))%nat with 4%nat by (unfold start; consts; lia). done. }
  rewrite G. by eexists.
Qed.

(** [cdbLookup] answers the first of the data of a key. *)
Lemma cdbLookup_ok r recs k : base_ok (base r) recs → keyed r k → key_ok ic k → ∃ c, base_ok c recs ∧
  match head (values ic k recs) with
  | None => cdbLookup r = Ok (set_base c r, false)
  | Some d => ∃ p, cdbLookup r = Ok (set_rdata (Base p (Z.of_nat (length d))) (set_base c r), true) ∧
      mrd (file c) p (Z.of_nat (length d)) = Ok d
  end.
Proof.
  intros Hb (Hrk & Hkh & Hkey) Hk. unfold cdbLookup. assert (Hb' := Hb).
  destruct Hb' as (Hic & Hn & Hlen & [[-> [Hf|[Hf Hst]]]|(Hne & Hdb & Hst)]).
  - rewrite Hf. cbn [length Nat.eqb]. exists (base r). split; [done|]. by destruct r.
  - assert (Hz : (length (file (base r)) =? 0)%nat = false) by (rewrite Hf, length_replicate; done). rewrite Hz.
    destruct (find_zeros _ Hf) as (c' & E). rewrite E. cbn [mbind res_bind fst snd]. exists c'. split; [|done].
    eapply base_same; [by eapply find_same|exact Hb].
  - destruct (db_size _ _ _ Hdb) as [Hsz _]. pose proof (rtotal_nonneg recs).
    destruct (Nat.eqb_spec (length (file (base r))) 0) as [Hz|Hz]; [rewrite Hz in Hsz; unfold start in Hsz; consts; lia|].
    assert (Hs := find_search ic (file (base r)) recs Hdb k Hk (base r) eq_refl Hic).
    unfold find_key in Hs. rewrite (setKey_id (base r) k) in Hs by done. cbn [mbind res_bind] in Hs.
    rewrite <-(values_ok ic recs k). destruct (filter _ _) as [|b tl]; cbn [map head].
    + destruct Hs as (c' & E & _). rewrite E. cbn [mbind res_bind fst snd]. exists c'. split; [|done].
      eapply base_same; [by eapply find_same|exact Hb].
    + destruct Hs as (c' & E & He & _). rewrite E. cbn [mbind res_bind fst snd]. exists c'.
      split; [eapply base_same; [by eapply find_same|exact Hb]|]. unfold elem in He. pose proof (mrd_inv _ _ _ _ He) as (_ & _ & _ & _ & Hl).
      exists (Cdb.data (cur c')).1. cbn [base set_base]. rewrite Hl. done.
Qed.

(** *** How every operation begins *)

(** The state after the key of [r] was looked up in the hash tree [h]: the search ended at [t], with [x]. *)
Record looked (r r2 : rdb) (k : list Z) (off : Z) (recs : list (list Z * list Z)) (C : cache) (h : heap) (t : place) (x : Z) : Prop := {
  lk_heap : heap_ok ic h ∧ rep (journal r) off h ∧ cache_rep h C;
  lk_base : base_ok (base r2) recs;
  lk_journal : journal r2 = journal r;
  lk_data : rdata r2 = rdata r ∧ key1 r2 = key1 r;
  lk_keyed : keyed r2 k;
  lk_node : node r2 = x ∧ pnode r2 = addr t;
  lk_place : val h t = Some x ∧ owner t < off;
  lk_search : search ic h k (start_place ic k) t x;
  lk_found : x = 0 ∧ search ic h k (start_place ic k) t 0 ∧ C !! canon ic k = None ∨
    ∃ n, x ≠ 0 ∧ nodes h !! x = Some n ∧ same ic k (n_key n) ∧ C !! canon ic k = Some (n_val n) }.

Lemma owner_lt m off h t x : rep m off h → val h t = Some x → owner t < off.
Proof.
  intros Hr Ht. pose proof (val_place _ _ _ Ht) as Hpl. destruct (rep_head _ _ _ Hr) as [[Hs _] _].
  destruct t as [i|q|q]; cbn [owner]; [rconsts; lia| |]; destruct (rep_range _ _ _ Hr q Hpl); rconsts; lia.
Qed.

Lemma search_val h k s t x : search ic h k s t x → val h t = Some x.
Proof. by induction 1. Qed.

Lemma look_heap r off recs C h k : base_ok (base r) recs → heap_ok ic h → rep (journal r) off h → cache_rep h C →
  key_good ic k → rkey r = User k →
  ∃ r1 r2 t x, hash_key r = Ok r1 ∧ htLookup r1 = Ok (r2, negb (x =? 0)) ∧ looked r r2 k off recs C h t x.
Proof.
  intros Hb Hh Hr HC Hk Hrk. assert (Hic : ignore_case (base r) = ic) by apply Hb.
  destruct (hash_key_ok r k Hic Hrk) as (c & E1 & Hsame & Hkd). assert (Hb' := base_same _ _ _ Hsame Hb).
  destruct (htLookup_ok ic (set_base c r) off h k) as (t & x & E2 & Hs); try done; [by apply Hb'|by destruct r; cbn in *; rewrite Hrk|by apply Hkd|].
  eexists _, _, t, x. split; [exact E1|]. split; [exact E2|]. pose proof (search_val _ _ _ _ _ Hs) as Hv. split; try done.
  - split; [done|]. by eapply owner_lt.
  - destruct (search_cache h C k t x Hh HC Hk Hs) as [(-> & _ & E)|H]; [by left|by right].
Qed.

Lemma look r off recs C N k : opened r off recs C N → key_good ic k → rkey r = User k →
  ∃ r1 r2 h t x, hash_key r = Ok r1 ∧ htLookup r1 = Ok (r2, negb (x =? 0)) ∧ looked r r2 k off recs C h t x.
Proof.
  intros [Hb (h & Hh & Hr & HC) _ _] Hk Hrk. destruct (look_heap r off recs C h k Hb Hh Hr HC Hk Hrk) as (r1 & r2 & t & x & H).
  by exists r1, r2, h, t, x.
Qed.

(** [fetch] and [operator[]]. *)
Lemma fetch_ok r off recs C N k : opened r off recs C N → key_good ic k → rkey r = User k →
  ∃ r', opened r' off recs C N ∧
  match view recs C k with
  | Some d => fetch r = Ok (r', true) ∧ datum_bytes r' (rdata r') = Ok d
  | None => fetch r = Ok (r', false)
  end.
Proof.
  intros Ho Hk Hrk. destruct (look r off recs C N k Ho Hk Hrk) as (r1 & r2 & h & t & x & E1 & E2 & L).
  destruct (lk_heap _ _ _ _ _ _ _ _ _ L) as (Hh & Hr & HC). destruct Ho as [_ _ Hroom Hcnt].
  rewrite <-(lk_journal _ _ _ _ _ _ _ _ _ L) in *. assert (Ho2 : ∀ y, base_ok (base y) recs → journal y = journal r2 → opened y off recs C N).
  { intros y Hy Ey. split; rewrite ?Ey; try done. by exists h. }
  unfold fetch. rewrite E1. cbn [mbind res_bind]. rewrite E2. cbn [mbind res_bind fst snd]. unfold view.
  destruct (lk_found _ _ _ _ _ _ _ _ _ L) as [(-> & _ & ->)|(n & Hx & Hn & _ & ->)].
  - cbn [Z.eqb negb]. destruct (cdbLookup_ok r2 recs k (lk_base _ _ _ _ _ _ _ _ _ L) (lk_keyed _ _ _ _ _ _ _ _ _ L) (proj1 Hk)) as (c & Hc & H).
    destruct (head _) as [d|].
    + destruct H as (p & -> & Hd). exists (set_rdata (Base p (Z.of_nat (length d))) (set_base c r2)).
      split; [by apply Ho2|]. by split.
    + exists (set_base c r2). split; [by apply Ho2|done].
  - destruct (Z.eqb_spec x 0); [done|]. cbn [negb]. destruct (lk_node _ _ _ _ _ _ _ _ _ L) as [Hx' _]. rewrite <-Hx' in Hn.
    rewrite (isDeleted_ok r2 off h n Hr Hn). cbn [mbind res_bind fst snd]. pose proof (rep_value _ _ _ Hr _ _ Hn) as Hv.
    destruct (n_val n) as [d|]; cbn [value_at] in Hv.
    + destruct Hv as (dp & _ & -> & -> & Hd & _). cbn [mbind res_bind].
      exists (set_rdata (Journal dp (Z.of_nat (length d))) r2). split; [apply Ho2; [exact (lk_base _ _ _ _ _ _ _ _ _ L)|done]|]. done.
    + exists r2. split; [apply Ho2; [exact (lk_base _ _ _ _ _ _ _ _ _ L)|done]|done].
Qed.

(** *** How an entry is written

    A node is allocated when the search ended at a null pointer; whatever is logged then, and put into the
    node, is in the cache afterwards. *)
Lemma alloc_put r r2 r3 off recs C k h t x :
  looked r r2 k off recs C h t x → key_good ic k → room (journal r) off → journal r3 = journal r →
  node r3 = node r2 → pnode r3 = pnode r2 →
  ∃ r4 off4, (if x =? 0 then htAlloc r3 else Ok r3) = Ok r4 ∧ (base r4 = base r3 ∧ rkey r4 = rkey r3 ∧ rdata r4 = rdata r3 ∧ key1 r4 = key1 r3) ∧
    get4 (journal r4) RDB_off = Ok off4 ∧ room (journal r4) (off4 - sizeof_node) ∧ Z.of_nat (length (journal r4)) < 2 ^ 31 ∧
    sizeof_struct <= off4 ∧ off4 = (if x =? 0 then off + sizeof_node else off) ∧
    ∀ r5 off' v, logged (journal r4) (journal r5) off4 off' → same_place r4 r5 →
      in_journal (journal r5) off4 off' (rkey r5) k → held (journal r5) off4 off' (rdata r5) v →
      entry_size (RNode k v 0 0) <= sizeof_node + (off' - off4) →
      ∃ m' h', htInsert r5 = Ok (set_journal m' r5) ∧ heap_ok ic h' ∧ cache_rep h' (<[canon ic k := v]> C) ∧
        entered (journal r) m' off' h' ∧ agree [(node r5, node r5 + 16)] (journal r5) m' ∧
        (x = 0 ∧ node r5 = off ∧ h' = add_node t off k v h ∨ ∃ n, x ≠ 0 ∧ node r5 = x ∧ nodes h !! x = Some n ∧ h' = upd_node x k v n h).
Proof.
  intros L Hk Hroom Ej En Ep. destruct (lk_heap _ _ _ _ _ _ _ _ _ L) as (Hh & Hr & HC).
  destruct (lk_node _ _ _ _ _ _ _ _ _ L) as [Hn2 Hp2]. destruct (rep_head _ _ _ Hr) as [[Hs Hlen] Hl31].
  rewrite <-Ej in Hr, Hroom, Hlen, Hl31. destruct (lk_place _ _ _ _ _ _ _ _ _ L) as [Hv Hown].
  destruct (lk_found _ _ _ _ _ _ _ _ _ L) as [(-> & Hse & Hnone)|(n & Hx & Hnode & Hsame & Hsome)].
  - cbn [Z.eqb]. destruct (htAlloc_ok r3 off h t Hr Hv ltac:(congruence) Hroom) as (m1 & E & L1 & HA & G0 & G1 & G2 & G3).
    eexists _, (off + sizeof_node). split; [exact E|]. cbn [base set_node set_journal rkey rdata key1 journal]. split; [done|].
    split; [done|]. split; [unfold room in *; rconsts; lia|]. split; [lia|]. split; [rconsts; lia|]. split; [done|].
    intros r5 off' v Hlg (_ & Hn5 & _) Hkey Hval Hsz. cbn [node set_node] in Hn5.
    assert (Hoff : nodes h !! off = None).
    { destruct (nodes h !! off) eqn:E0; [|done]. destruct (rep_range _ _ _ Hr off ltac:(by eexists)). rconsts. lia. }
    destruct (insert_add _ _ _ _ _ _ _ _ _ Hr Hv HA G1 G2 G3 Hn5 Hlg Hkey Hval) as (m' & E' & HA' & Hen); [rconsts; lia|].
    exists m', (add_node t off k v h). split; [done|].
    split; [apply heap_ok_add; try done; rconsts; lia|]. split; [by apply cache_add|]. split; [by rewrite <-Ej|]. split; [done|]. by left.
  - destruct (Z.eqb_spec x 0); [done|]. exists r3, off. split; [done|]. split; [done|].
    assert (Ho := rep_off _ _ _ Hr). split; [done|]. split; [unfold room in *; rconsts; lia|]. split; [done|]. split; [done|].
    split; [done|]. intros r5 off' v Hlg (_ & Hn5 & _) Hkey Hval Hsz.
    assert (Hnode5 : nodes h !! node r5 = Some n) by (rewrite Hn5, En, Hn2; done).
    destruct (insert_upd _ _ _ _ _ _ _ _ Hr Hnode5 Hlg Hkey Hval Hsz) as (m' & E' & HA' & Hen).
    exists m', (upd_node (node r5) k v n h). split; [done|]. split; [by apply heap_ok_upd|]. split; [by apply cache_upd|].
    split; [by rewrite <-Ej|]. split; [done|]. right. exists n. rewrite <-Hnode5. by rewrite Hn5, En, Hn2.
Qed.

Lemma count_put m off h n : rep m off h → room m off → 0 <= n < 2 ^ 32 →
  ∃ m', put4 m RDB_nrecord n = Ok m' ∧ rep m' off h ∧ room m' off ∧ get4 m' RDB_nrecord = Ok n.
Proof.
  intros Hr Hroom Hn. destruct (rep_head _ _ _ Hr) as [Ho Hl]. unfold room in *. rconsts.
  destruct (put4_ok m 8 n) as (m' & E & L); [lia..|]. exists m'. split; [done|]. split; [|split; [lia|by eapply get4_put4]].
  eapply (rep_write [(8, 8 + 4)]); [exact Hr|by apply agree_put4 in E|spares; lia| |lia|lia].
  unfold RDB_off. rewrite (get4_put4_ne _ _ _ _ _ E) by lia. apply (rep_off _ _ _ Hr).
Qed.

Section Operations.
Context (e : env) (Hg : ∀ n, grow e n = true).

Definition spec_store (flag : Z) (k d : list Z) (recs : list (list Z * list Z)) (C : cache) (N : Z) : cache * Z * Z :=
  match view recs C k with
  | Some d0 =>
      if flag =? RDB_INSERT then (C, N, -1)
      else if (flag =? RDB_REPLACE) && bool_decide (d0 = d) then (C, N, 0)
      else (<[canon ic k := Some d]> C, N, 0)
  | None => (<[canon ic k := Some d]> C, if C !! canon ic k is Some _ then N else u32 (N + 1), 0)
  end.

Definition spec_remove (k : list Z) (recs : list (list Z * list Z)) (C : cache) (N : Z) : cache * Z * Z :=
  match view recs C k with
  | Some _ => (<[canon ic k := None]> C, u32 (N - 1), 0)
  | None => (C, N, if C !! canon ic k is Some _ then -2 else -1)
  end.

(** The end of [store]. *)
Lemma store_put r r2 r3 off recs C N k d h t x exist : looked r r2 k off recs C h t x → key_good ic k →
  room (journal r) off → get4 (journal r) RDB_nrecord = Ok N → journal r3 = journal r → node r3 = node r2 → pnode r3 = pnode r2 →
  base_ok (base r3) recs → rkey r3 = User k →
  off + 32 + Z.of_nat (length k) + Z.of_nat (length d) + 48 <= 2 ^ 30 →
  ∃ r4 r' off', (if x =? 0 then htAlloc r3 else Ok r3) = Ok r4 ∧ store_entry e exist (set_rdata (User d) r4) = Ok (r', 0) ∧
    opened r' off' recs (<[canon ic k := Some d]> C) (if exist : bool then N else u32 (N + 1)) ∧
    off' <= off + 32 + Z.of_nat (length k) + Z.of_nat (length d).
Proof.
  intros L Hk Hroom Hcnt Ej En Ep Hb Hrk Hbud.
  destruct (alloc_put _ _ _ _ _ _ _ _ _ _ L Hk Hroom Ej En Ep) as (r4 & off4 & E4 & (B1 & B2 & B3 & _) & G4 & Hr4 & Hl4 & Hs4 & Eoff & Hput).
  assert (off <= off4 <= off + 24) by (rewrite Eoff; rconsts; destruct (x =? 0); lia).
  destruct (log_store_ok e Hg (set_rdata (User d) r4) off4 G4 Hs4 Hr4 Hl4 k d) as (r5 & E5 & Hlg & Hkey & Hdat & Hsp);
    [cbn; congruence|done|lia|].
  destruct (Hput r5 _ (Some d) Hlg Hsp Hkey Hdat) as (m' & h' & E6 & Hh' & HC' & [Hrep Hroom'%room_less Hc'] & _).
  { unfold entry_size. cbn [n_key n_val]. rconsts. lia. }
  exists r4. destruct Hsp as (Hbase & _ & _).
  assert (Hb5 : base_ok (base r5) recs) by by rewrite Hbase; cbn; rewrite B1. unfold store_entry. rewrite E5. cbn [mbind res_bind fst snd negb].
  rewrite E6. cbn [mbind res_bind]. destruct exist.
  - eexists _, (off4 + 8 + Z.of_nat (length k) + Z.of_nat (length d)). split; [done|]. split; [done|]. split; [|lia].
    split; [done|by exists h'|done|by apply Hc'].
  - cbn [journal set_journal]. rewrite (Hc' N Hcnt). cbn [mbind res_bind].
    destruct (count_put _ _ _ (u32 (N + 1)) Hrep Hroom' (u32_range _)) as (m2 & E7 & Hrep2 & Hroom2 & Hc2).
    rewrite E7. cbn [mbind res_bind]. eexists _, (off4 + 8 + Z.of_nat (length k) + Z.of_nat (length d)).
    split; [done|]. split; [done|]. split; [|lia].
    split; [done|by exists h'|done|done].
Qed.
Lemma opened_same r y off recs C N : opened r off recs C N → base_ok (base y) recs → journal y = journal r → opened y off recs C N.
Proof. intros [_ H1 H2 H3] Hb Ej. by split; rewrite ?Ej. Qed.

Lemma same_data_ok r a b x y : datum_bytes r a = Ok x → datum_bytes r b = Ok y → dsize a = Z.of_nat (length x) →
  dsize b = Z.of_nat (length y) → same_data r a b = Ok (bool_decide (x = y)).
Proof.
  intros Ha Hb Hla Hlb. unfold same_data. rewrite Hla, Hlb, Ha, Hb. cbn [mbind res_bind].
  destruct (Z.eqb_spec (Z.of_nat (length x)) (Z.of_nat (length y))); [done|].
  rewrite bool_decide_eq_false_2; [done|]. intros ->. done.
Qed.

(** What is in the node that was found. *)
Lemma node_data m off h p n : rep m off h → nodes h !! p = Some n → ∃ a b, get4 m (p + 8) = Ok a ∧ get4 m (p + 12) = Ok b ∧
  match n_val n with None => b = U_NOT_FOUND | Some d => b = Z.of_nat (length d) ∧ mrd m a b = Ok d end.
Proof.
  intros Hr Hn. pose proof (rep_value _ _ _ Hr _ _ Hn) as Hv. destruct (n_val n) as [d|]; cbn [value_at] in Hv.
  - destruct Hv as (dp & _ & H1 & H2 & H3 & _). by exists dp, (Z.of_nat (length d)).
  - destruct Hv as [H1 H2]. by exists 0, U_NOT_FOUND.
Qed.

Lemma store_ok flag r off recs C N k d : opened r off recs C N → key_good ic k → rkey r = User k → rdata r = User d →
  off + 32 + Z.of_nat (length k) + Z.of_nat (length d) + 48 <= 2 ^ 30 →
  let s := spec_store flag k d recs C N in
  ∃ r' off', store e flag r = Ok (r', s.2) ∧ opened r' off' recs s.1.1 s.1.2 ∧
    off' <= off + 32 + Z.of_nat (length k) + Z.of_nat (length d).
Proof.
  intros Ho Hk Hrk Hrd Hbud s. destruct (look r off recs C N k Ho Hk Hrk) as (r1 & r2 & h & t & x & E1 & E2 & L).
  destruct (lk_heap _ _ _ _ _ _ _ _ _ L) as (Hh & Hr & HC). assert (Ho' := Ho). destruct Ho' as [_ _ Hroom Hcnt].
  assert (Hst := λ y Hb Ej, opened_same r y off recs C N Ho Hb Ej). assert (Ej := lk_journal _ _ _ _ _ _ _ _ _ L).
  assert (Hb2 := lk_base _ _ _ _ _ _ _ _ _ L). destruct (lk_data _ _ _ _ _ _ _ _ _ L) as [Hd2 _]. rewrite Hrd in Hd2.
  destruct (lk_keyed _ _ _ _ _ _ _ _ _ L) as (Hk2 & _ & _). destruct (lk_node _ _ _ _ _ _ _ _ _ L) as [Hn2 _].
  unfold store. rewrite E1. cbn [mbind res_bind]. rewrite E2. cbn [mbind res_bind fst snd].
  assert (Hput := λ r3 exist Ej3 En Ep Hb Hrk3, store_put r r2 r3 off recs C N k d h t x exist L Hk Hroom Hcnt Ej3 En Ep Hb Hrk3 Hbud).
  destruct (lk_found _ _ _ _ _ _ _ _ _ L) as [(-> & _ & HC0)|(n & Hx & Hn & _ & HC0)]; subst s; unfold spec_store, view; rewrite HC0.
  - cbn [Z.eqb negb] in *. destruct (cdbLookup_ok r2 recs k Hb2 (lk_keyed _ _ _ _ _ _ _ _ _ L) (proj1 Hk)) as (c & Hc & H).
    destruct (head _) as [d0|].
    + destruct H as (p & E3 & Hm). rewrite E3. cbn [mbind res_bind fst snd andb]. set (r3 := set_rdata _ _).
      destruct (flag =? RDB_INSERT). { exists r3, off. split; [done|]. split; [by apply Hst|lia]. }
      assert (Hsame : (if flag =? RDB_REPLACE then same_data r3 (rdata r3) (rdata r2) else Ok false)
          = Ok ((flag =? RDB_REPLACE) && bool_decide (d0 = d))).
      { destruct (flag =? RDB_REPLACE); [|done]. rewrite Hd2. by apply same_data_ok. }
      rewrite Hsame. cbn [mbind res_bind]. destruct ((flag =? RDB_REPLACE) && bool_decide (d0 = d)).
      { exists r3, off. split; [done|]. split; [by apply Hst|lia]. }
      destruct (Hput r3 true) as (r4 & r' & off' & E4 & E5 & Ho' & Hle); try done.
      rewrite E4. cbn [mbind res_bind]. rewrite Hd2, E5. by exists r', off'.
    + rewrite H. cbn [mbind res_bind fst snd andb].
      destruct (Hput (set_base c r2) false) as (r4 & r' & off' & E4 & E5 & Ho' & Hle); try done.
      rewrite E4. cbn [mbind res_bind]. rewrite Hd2, E5. by exists r', off'.
  - destruct (Z.eqb_spec x 0) as [|_]; [done|]. cbn [negb]. rewrite <-Ej in Hr. rewrite <-Hn2 in Hn.
    rewrite (isDeleted_ok r2 off h n Hr Hn). destruct (node_data _ _ _ _ _ Hr Hn) as (a & b & Ga & Gb & Hab).
    destruct (Hput r2 true) as (r4 & r' & off' & [= <-] & E5 & Ho' & Hle); try done.
    replace (set_rdata (User d) r2) with r2 in E5 by (rewrite <-Hd2; by destruct r2).
    assert (Hsame : (if flag =? RDB_REPLACE then same_data r2 (Journal a b) (rdata r2) else Ok false)
        = Ok ((flag =? RDB_REPLACE) && bool_decide (n_val n = Some d))).
    { destruct (flag =? RDB_REPLACE); [|done]. rewrite Hd2. cbn [andb]. destruct (n_val n) as [d0|].
      - destruct Hab as [-> Hm]. rewrite (same_data_ok r2 _ _ d0 d) by done. f_equal. by apply bool_decide_ext; split; [intros ->|intros [=]].
      - subst b. unfold same_data. cbn [dsize]. destruct (Z.eqb_spec U_NOT_FOUND (Z.of_nat (length d))) as [E|E]; [|done].
        unfold U_NOT_FOUND in E. destruct (rep_head _ _ _ Hr). rconsts. lia. }
    destruct (n_val n) as [d0|].
    + destruct (flag =? RDB_INSERT); cbn [mbind res_bind fst snd negb].
      { exists r2, off. split; [done|]. split; [by apply Hst|lia]. }
      rewrite Ga. cbn [mbind res_bind]. rewrite Gb. cbn [mbind res_bind]. rewrite Hsame. cbn [mbind res_bind].
      rewrite (bool_decide_ext (Some d0 = Some d) (d0 = d)) by (split; congruence).
      destruct ((flag =? RDB_REPLACE) && bool_decide (d0 = d)); [exists r2, off; split; [done|]; split; [by apply Hst|lia]|].
      by exists r', off'.
    + assert (E : (if flag =? RDB_INSERT then Ok (r2, true) else Ok (r2, true)) = Ok (r2, true)) by by destruct (flag =? RDB_INSERT).
      rewrite E. cbn [mbind res_bind fst snd negb]. rewrite Ga. cbn [mbind res_bind]. rewrite Gb. cbn [mbind res_bind]. rewrite Hsame.
      rewrite bool_decide_eq_false_2, andb_false_r by done. cbn [mbind res_bind]. by exists r', off'.
Qed.
Lemma remove_put r r2 r3 off recs C N k h t x : looked r r2 k off recs C h t x → key_good ic k →
  room (journal r) off → get4 (journal r) RDB_nrecord = Ok N → journal r3 = journal r → node r3 = node r2 → pnode r3 = pnode r2 →
  base_ok (base r3) recs → rkey r3 = User k → off + 32 + Z.of_nat (length k) + 48 <= 2 ^ 30 →
  ∃ r4 r' off', (if x =? 0 then htAlloc r3 else Ok r3) = Ok r4 ∧
    (l ← log_remove e r4;
     if negb l.2 then r ← htRemoveAlloc l.1; Ok (r, -3)
     else
       r ← htInsert (set_rdata Null l.1);
       n ← get4 (journal r) RDB_nrecord;
       m ← put4 (journal r) RDB_nrecord (u32 (n - 1));
       Ok (set_journal m r, 0)) = Ok (r', 0) ∧
    opened r' off' recs (<[canon ic k := None]> C) (u32 (N - 1)) ∧ off' <= off + 32 + Z.of_nat (length k).
Proof.
  intros L Hk Hroom Hcnt Ej En Ep Hb Hrk Hbud.
  destruct (alloc_put _ _ _ _ _ _ _ _ _ _ L Hk Hroom Ej En Ep) as (r4 & off4 & E4 & (B1 & B2 & B3 & _) & G4 & Hr4 & Hl4 & Hs4 & Eoff & Hput).
  assert (off <= off4 <= off + 24) by (rewrite Eoff; rconsts; destruct (x =? 0); lia).
  destruct (log_remove_ok e Hg r4 off4 G4 Hs4 Hr4 Hl4 k) as (r5 & E5 & Hlg & Hkey & _ & Hsp); [congruence|lia|].
  destruct (Hput (set_rdata Null r5) _ None Hlg Hsp Hkey eq_refl) as (m' & h' & E6 & Hh' & HC' & [Hrep Hroom'%room_less Hc'] & _).
  { unfold entry_size. cbn [n_key n_val]. rconsts. lia. }
  exists r4. destruct Hsp as (Hbase & _ & _). assert (Hb5 : base_ok (base r5) recs) by by rewrite Hbase, B1.
  rewrite E5. cbn [mbind res_bind fst snd negb]. rewrite E6. cbn [mbind res_bind journal set_journal]. rewrite (Hc' N Hcnt). cbn [mbind res_bind].
  destruct (count_put _ _ _ (u32 (N - 1)) Hrep Hroom' (u32_range _)) as (m2 & E7 & Hrep2 & Hroom2 & Hc2).
  rewrite E7. cbn [mbind res_bind]. eexists _, (off4 + 8 + Z.of_nat (length k)). split; [done|]. split; [done|].
  split; [|lia]. split; [done|by exists h'|done|done].
Qed.

Lemma remove_ok r off recs C N k : opened r off recs C N → key_good ic k → rkey r = User k →
  off + 32 + Z.of_nat (length k) + 48 <= 2 ^ 30 →
  let s := spec_remove k recs C N in
  ∃ r' off', remove e r = Ok (r', s.2) ∧ opened r' off' recs s.1.1 s.1.2 ∧ off' <= off + 32 + Z.of_nat (length k).
Proof.
  intros Ho Hk Hrk Hbud s. destruct (look r off recs C N k Ho Hk Hrk) as (r1 & r2 & h & t & x & E1 & E2 & L).
  destruct (lk_heap _ _ _ _ _ _ _ _ _ L) as (Hh & Hr & HC). assert (Ho' := Ho). destruct Ho' as [_ _ Hroom Hcnt].
  assert (Hst := λ y Hb Ej, opened_same r y off recs C N Ho Hb Ej). assert (Ej := lk_journal _ _ _ _ _ _ _ _ _ L).
  assert (Hb2 := lk_base _ _ _ _ _ _ _ _ _ L).
  destruct (lk_keyed _ _ _ _ _ _ _ _ _ L) as (Hk2 & _ & _). destruct (lk_node _ _ _ _ _ _ _ _ _ L) as [Hn2 _].
  unfold remove. rewrite E1. cbn [mbind res_bind]. rewrite E2. cbn [mbind res_bind fst snd].
  assert (Hput := λ r3 Ej3 En Ep Hb Hrk3, remove_put r r2 r3 off recs C N k h t x L Hk Hroom Hcnt Ej3 En Ep Hb Hrk3 Hbud).
  destruct (lk_found _ _ _ _ _ _ _ _ _ L) as [(-> & _ & HC0)|(n & Hx & Hn & _ & HC0)]; subst s; unfold spec_remove, view; rewrite HC0.
  - cbn [Z.eqb negb] in *. destruct (cdbLookup_ok r2 recs k Hb2 (lk_keyed _ _ _ _ _ _ _ _ _ L) (proj1 Hk)) as (c & Hc & H).
    destruct (head _) as [d0|].
    + destruct H as (p & E3 & Hm). rewrite E3. cbn [mbind res_bind fst snd].
      destruct (Hput (set_rdata (Base p (Z.of_nat (length d0))) (set_base c r2))) as (r4 & r' & off' & E4 & E5 & Ho' & Hle); try done.
      rewrite E4. cbn [mbind res_bind fst snd]. rewrite Z.eqb_refl, E5. by exists r', off'.
    + rewrite H. cbn [mbind res_bind fst snd]. exists (set_base c r2), off. split; [done|]. split; [by apply Hst|lia].
  - destruct (Z.eqb_spec x 0) as [|_]; [done|]. cbn [negb]. rewrite <-Ej in Hr. rewrite <-Hn2 in Hn.
    rewrite (isDeleted_ok r2 off h n Hr Hn). destruct (n_val n) as [d0|]; cbn [mbind res_bind fst snd].
    + destruct (Hput r2) as (r4 & r' & off' & [= <-] & E5 & Ho' & Hle); try done.
      rewrite Z.eqb_refl, E5. by exists r', off'.
    + exists r2, off. split; [done|]. split; [by apply Hst|lia].
Qed.
End Operations.

End Database.
