(* ===== verification/RdbSubst.v ===== *)
(** * Record databases: substituting a key

    [substitute] looks up two keys before it changes anything; the place it remembers for the first is still
    right afterwards when the two keys belong to different trees of the hash table. *)

From stdpp Require Import gmap.
From S2P Require Import Prelude CType Memory Hash HashMap Sort Cdb CdbFacts Rdb RdbHeap RdbFacts.

Section Substitute.
Context (ic : bool).

(** The tree of the table that a pointer belongs to. *)
Inductive root (h : heap) : place → Z → Prop :=
  | root_tab i : root h (Tab i) i
  | root_lft s p i : val h s = Some p → p ≠ 0 → root h s i → root h (Lft p) i
  | root_rgt s p i : val h s = Some p → p ≠ 0 → root h s i → root h (Rgt p) i.

Lemma root_fun h s i j : heap_ok ic h → root h s i → root h s j → i = j.
Proof.
  intros Hh H. revert j. induction H as [i|s p i Hs Hp _ IH|s p i Hs Hp _ IH]; intros j Hj; inversion Hj; subst; [done|..];
    apply IH; match goal with H : val h ?s' = Some p |- _ => by rewrite (val_inj ic h s s' p) by done end.
Qed.

Lemma search_root h k s t v i : heap_ok ic h → search ic h k s t v → root h s i → root h t i.
Proof.
  intros Hh. induction 1 as [s E|s p n E En Ek|s p n t v E En Ek _ IH]; intros Hr; [done|done|]. apply IH.
  assert (p ≠ 0) by (intros ->; by rewrite (ho_null _ _ Hh) in En). unfold side. destruct (goes_left _ _ _); by econstructor.
Qed.

(** A search that ended at a null pointer ends there in a heap that has more, if the pointer is still null. *)
Lemma search_still h h' k s t : nodes h !! 0 = None → extends ic h h' → key_ok ic k → search ic h k s t 0 → val h' t = Some 0 →
  search ic h' k s t 0.
Proof.
  intros H0 [Hv Hn] Hk Hs Ht. remember 0 as v eqn:Ev in Hs. revert Ev.
  induction Hs as [s E|s q n0 E En Ek|s q n0 t v E En Ek _ IH]; intros Ev; subst.
  - by apply search_end.
  - by rewrite H0 in En.
  - assert (q ≠ 0) by (intros ->; congruence). destruct (Hn _ _ En) as (n' & En' & Es).
    eapply search_go; [by apply Hv|done|unfold same in *; congruence|].
    rewrite <-(side_same ic (n_key n0) k k) by done. by apply IH.
Qed.

Lemma extends_upd h p k v n : nodes h !! p = Some n → same ic k (n_key n) → extends ic h (upd_node p k v n h).
Proof.
  intros Hn Hs. split; [intros s x Hx _; by rewrite val_upd|]. intros q n0 E. rewrite nodes_upd.
  destruct (decide (q = p)) as [->|]; eexists; (split; [done|]); cbn; unfold same in *; congruence.
Qed.

Section Log.
Context (e : env) (Hg : ∀ n, grow e n = true) (r : rdb) (off : Z).
Context (Eo : get4 (journal r) RDB_off = Ok off) (Ho : sizeof_struct <= off)
  (Hroom : room (journal r) (off - sizeof_node)) (Hl : Z.of_nat (length (journal r)) < 2 ^ 31).

Lemma log_substitute_ok k1 k d : key1 r = User k1 → rkey r = User k → rdata r = User d →
  let sz := 16 + Z.of_nat (length k1) + Z.of_nat (length k) + Z.of_nat (length d) in
  off + sz + 48 <= 2 ^ 30 →
  ∃ r', log_substitute e r = Ok (r', true) ∧ logged (journal r) (journal r') off (off + sz) ∧
    in_journal (journal r') off (off + sz) (rkey r') k ∧ in_journal (journal r') off (off + sz) (rdata r') d ∧
    in_journal (journal r') off (off + sz) (key1 r') k1 ∧ same_place r r'.
Proof.
  intros Hk1 Hk Hd sz Hb. assert (0 <= off) by (rconsts; lia). unfold log_substitute. rewrite Hk1, Hk, Hd.
  cbn [datum_bytes mbind res_bind dsize]. change (sizeof_header * 2) with 16. rewrite u32_small by lia.
  set (h1 := header _ U_NOT_FOUND). set (h2 := header _ _). assert (L1 : length h1 = 8%nat) by done. assert (L2 : length h2 = 8%nat) by done.
  set (iov := [h1; k1; h2; k; d]). fold sz. assert (Hc : concat iov = h1 ++ k1 ++ h2 ++ k ++ d) by (cbn [iov concat]; by rewrite app_nil_r).
  assert (Hsz : sz = Z.of_nat (length (concat iov))) by (rewrite Hc, !length_app; unfold sz; lia).
  destruct (writev_ok e r iov sz off Hg Eo Ho Hroom Hl Hsz ltac:(lia)) as (m' & E & HA & Ho' & Hm & Hr' & Hl').
  rewrite E. cbn [mbind res_bind fst snd]. eexists. split; [done|].
  cbn [journal set_journal set_rkey set_rdata set_key1 rkey rdata key1 base node pnode]. split; [by split|]. rewrite Hc in Hm.
  assert (Hpart : ∀ A B D p, h1 ++ k1 ++ h2 ++ k ++ d = A ++ B ++ D → p = off + Z.of_nat (length A) →
    in_journal m' off (off + sz) (Journal p (Z.of_nat (length B))) B).
  { intros A B D p Ea ->. rewrite Ea in Hm. eapply in_journal_part; [exact Hm|lia|lia]. }
  split; [|split; [|split; [|done]]].
  - apply (Hpart (h1 ++ k1 ++ h2) k d); [by rewrite <-!app_assoc|]. rewrite !length_app. rconsts. lia.
  - apply (Hpart (h1 ++ k1 ++ h2 ++ k) d []); [by rewrite <-!app_assoc, app_nil_r|]. rewrite !length_app. rconsts. lia.
  - by apply (Hpart h1 k1 (h2 ++ k ++ d)).
Qed.
End Log.

Lemma held_keep m m' lo hi p x bs : in_journal m lo hi x bs → agree [(p, p + 16)] m m' → p + 16 <= lo ∨ hi <= p → in_journal m' lo hi x bs.
Proof.
  intros (q & E & Hm & H1 & H2) [_ HA] Hp. exists q. split; [done|]. split; [|done]. apply HA; [done|]. aparts; lia.
Qed.

(** The node of the old key is marked, or one is made for it. *)
Lemma mark_old off h C r k t x lo :
  heap_ok ic h → rep (journal r) off h → cache_rep ic h C → room (journal r) (off + sizeof_node) → pnode r = addr t →
  in_journal (journal r) lo off (rkey r) k → rdata r = Null → key_good ic k →
  sizeof_struct <= lo → (∀ q, is_Some (nodes h !! q) → q + sizeof_node <= lo) →
  used (map_to_list (nodes h)) + 32 + Z.of_nat (length k) <= off + sizeof_node - sizeof_struct →
  (x = 0 → val h t = Some 0 ∧ owner t < off ∧ search ic h k (start_place ic k) t 0 ∧ C !! canon ic k = None) →
  (x ≠ 0 → ∃ n, nodes h !! x = Some n ∧ same ic k (n_key n)) →
  ∃ r1 m' off', (if negb (x =? 0) then Ok (set_node x (addr t) r) else htAlloc r) = Ok r1 ∧ htInsert r1 = Ok (set_journal m' r1) ∧
    base r1 = base r ∧ journal_ok ic m' off' (<[canon ic k := None]> C) ∧ room m' off' ∧
    off' <= off + sizeof_node ∧ ∀ N, get4 (journal r) RDB_nrecord = Ok N → get4 m' RDB_nrecord = Ok N.
Proof.
  intros Hh Hr HC Hroom Hp Hkey Hdata Hk Hlo Hnodes Hused Hnew Hold. destruct (rep_head _ _ _ Hr) as [[Hs Hlen] Hl31].
  unfold room in Hroom. assert (Hko : lo <= off) by (destruct Hkey as (q & _ & _ & ? & ?); lia).
  destruct (Z.eqb_spec x 0) as [Hx|Hx]; cbn [negb].
  - destruct (Hnew Hx) as (Ht & Hown & Hse & Hnone).
    destruct (htAlloc_ok r off h t Hr Ht Hp) as (m1 & E & L1 & A1 & G0 & G1 & G2 & G3); [unfold room; rconsts; lia|].
    set (r1 := set_node off (addr t) (set_journal m1 r)) in *. destruct (spot_range _ _ _ _ _ Hr Ht) as [Ha1 Ha2].
    assert (Hat : addr t + 4 <= lo).
    { destruct t as [i|q|q]; cbn [addr] in *; pose proof (val_place _ _ _ Ht) as Hpl; [rconsts; lia| |]; specialize (Hnodes q Hpl); rconsts; lia. }
    assert (Hkey1 : in_journal (journal r1) lo off (rkey r1) k).
    { destruct Hkey as (kp & Ek & Mk & K1 & K2). exists kp. split; [done|]. split; [|done]. destruct A1 as [_ A1].
      apply A1; [done|]. aparts; lia. }
    destruct (htInsert_ok r1 lo off k None) as (m2 & E2 & L2 & A2 & Hk2 & Hv2); [done|done|cbn; lia|cbn; lia|rconsts; lia|cbn; lia|cbn; rconsts; lia|cbn; lia|].
    cbn [journal set_journal set_node r1] in L2, A2. cbn [node set_node r1] in A2, Hk2, Hv2.
    exists r1, m2, (off + sizeof_node). split; [done|]. split; [done|]. split; [done|].
    assert (AA := agree_trans _ _ _ _ _ A1 A2).
    assert (Hrange : ∀ q, is_Some (nodes (add_node t off k None h) !! q) → q + sizeof_node <= lo ∨ off <= q).
    { intros q Hq. destruct (add_range _ _ _ t k None q Hr Hq) as [->|Hq']; [right; lia|left; auto]. }
    split; [|split; [unfold room; rconsts; lia|split; [lia|]]].
    + exists (add_node t off k None h). assert (Hoff : nodes h !! off = None).
      { destruct (nodes h !! off) eqn:E0; [|done]. specialize (Hnodes off ltac:(by eexists)). rconsts. lia. }
      split; [apply heap_ok_add; try done; rconsts; lia|]. split; [|by apply cache_add].
      eapply (rep_add ([(0, 4); (off, off + sizeof_node)] ++ [(off, off + 16)])); [exact Hr|done| | | |rconsts; lia|rconsts; lia| | | | | |rconsts; lia|].
      * eapply agree_incl; [exact AA|]. included.
      * cbn [app]. spares; lia.
      * eapply get4_agree; [exact A2|done|]. aparts; lia.
      * eapply get4_agree; [exact A2|done|]. aparts; lia.
      * eapply get4_agree; [exact A2|done|]. aparts; lia.
      * eapply get4_agree; [exact A2|done|]. aparts; lia.
      * destruct Hk2 as (kp & H1 & H2 & H3 & H4 & H5). exists kp. splits; try done. split; [lia|]. split; [rconsts; lia|].
        intros q Hq. destruct (Hrange q Hq); lia.
      * exact Hv2.
      * unfold entry_size. cbn [n_key n_val]. rconsts. lia.
    + intros N EN. eapply get4_agree; [exact AA|done|]. cbn [app]. aparts; lia.
  - destruct (Hold Hx) as (n & Hn & Hsame). specialize (Hnodes x ltac:(by eexists)) as Hxlo.
    destruct (rep_range _ _ _ Hr x ltac:(by eexists)) as [Hx1 Hx2].
    destruct (htInsert_ok (set_node x (addr t) r) lo off k None) as (m2 & E2 & L2 & A2 & Hk2 & Hv2); [done|done|done|by left|rconsts; lia|done|cbn; lia|done|].
    cbn [journal set_node node] in L2, A2, Hk2, Hv2. exists (set_node x (addr t) r), m2, off.
    split; [done|]. split; [done|]. split; [done|]. split; [|split; [unfold room; rconsts; lia|split; [rconsts; lia|]]].
    + exists (upd_node x k None n h). split; [by apply heap_ok_upd|]. split; [|by apply cache_upd].
      eapply (rep_upd [] (journal r) m2 off off lo h x n); try done; [|lia|lia|].
      * eapply get4_agree; [exact A2|by apply (rep_off _ _ _ Hr)|]. aparts; lia.
      * pose proof (rep_used _ _ _ Hr). assert (length k = length (n_key n)).
        { rewrite <-(canon_length ic k), <-(canon_length ic (n_key n)). by rewrite Hsame. }
        unfold entry_size. cbn [n_key n_val]. destruct (n_val n); lia.
    + intros N EN. eapply get4_agree; [exact A2|done|]. aparts; lia.
Qed.

Definition spec_substitute (k1 k2 d : list Z) (flag : Z) (recs : list (list Z * list Z)) (C : cache) : cache * Z :=
  match view ic recs C k1 with
  | None => (C, if C !! canon ic k1 is Some _ then -2 else -1)
  | Some _ =>
      if (if view ic recs C k2 is Some _ then flag =? RDB_INSERT else false) then (C, -4)
      else (<[canon ic k1 := None]> (<[canon ic k2 := Some d]> C), 0)
  end.

(** The two keys belong to different trees. *)
Definition apart_keys (k1 k2 : list Z) : Prop := start_place ic k1 ≠ start_place ic k2.

(** The search for the old key in the heap with the new one. *)
Lemma old_place off h h1 C k1 k2 v t1 x1 t2 x2 m : heap_ok ic h → rep m off h → cache_rep ic h C → apart_keys k1 k2 → key_good ic k1 →
  search ic h k1 (start_place ic k1) t1 x1 → search ic h k2 (start_place ic k2) t2 x2 →
  (x2 = 0 ∧ h1 = add_node t2 off k2 v h ∨ ∃ n, x2 ≠ 0 ∧ nodes h !! x2 = Some n ∧ same ic k2 (n_key n) ∧ h1 = upd_node x2 k2 v n h) →
  (x1 = 0 → val h1 t1 = Some 0 ∧ search ic h1 k1 (start_place ic k1) t1 0) ∧
  (x1 ≠ 0 → ∃ n, nodes h1 !! x1 = Some n ∧ same ic k1 (n_key n)).
Proof.
  intros Hh Hr HC Hap Hk1 S1 S2 Hh1. assert (Hoff : nodes h !! off = None).
  { destruct (nodes h !! off) eqn:E0; [|done]. destruct (rep_range _ _ _ Hr off ltac:(by eexists)). rconsts. lia. }
  assert (Hx : extends ic h h1).
  { destruct Hh1 as [[-> ->]|(n & _ & Hn & Hs & ->)]; [|by apply extends_upd]. apply extends_add; [by eapply search_val|done]. }
  assert (Hne : t1 ≠ t2).
  { intros ->. assert (R1 : ∀ k t x, search ic h k (start_place ic k) t x → root h t (hashv ic k mod CACHE_HASHTAB_LEN)).
    { intros k t x Hs. eapply search_root; [done|exact Hs|]. apply root_tab. }
    apply Hap. unfold start_place. f_equal. eapply root_fun; [done|by eapply R1|by eapply R1]. }
  split.
  - intros ->. assert (Hv : val h1 t1 = Some 0).
    { pose proof (search_val _ _ _ _ _ _ S1) as V1. destruct Hh1 as [[-> ->]|(n & _ & Hn & _ & ->)]; [|by rewrite val_upd].
      by apply val_old. }
    split; [done|]. eapply search_still; [apply Hh|exact Hx|apply Hk1|exact S1|exact Hv].
  - intros Hx1. destruct (search_cache ic h C k1 t1 x1 Hh HC Hk1 S1) as [(? & _)|(n & _ & Hn & Hs & _)]; [done|].
    destruct Hx as [_ Hx]. destruct (Hx _ _ Hn) as (n' & Hn' & Hs'). exists n'. split; [done|]. unfold same in *. congruence.
Qed.

Lemma hash_key_key1 x r : hash_key (set_key1 x r) = r1 ← hash_key r; Ok (set_key1 x r1).
Proof.
  unfold hash_key. assert (E : datum_bytes (set_key1 x r) (rkey (set_key1 x r)) = datum_bytes r (rkey r)) by by destruct r.
  rewrite E. destruct (datum_bytes r (rkey r)); [|done]. cbn [mbind res_bind]. cbn [base set_key1]. by destruct (setKey _ _).
Qed.

Lemma hash_key_rkey r r1 : hash_key r = Ok r1 → rkey r1 = rkey r.
Proof.
  unfold hash_key. destruct (datum_bytes r (rkey r)); [|done]. cbn [mbind res_bind]. destruct (setKey _ _); [|done].
  cbn [mbind res_bind]. by intros [= <-].
Qed.

(** What a search of either kind leaves. *)
Record kept (r2 r3 : rdb) (recs : list (list Z * list Z)) : Prop := {
  kp_base : base_ok ic (base r3) recs;
  kp_journal : journal r3 = journal r2;
  kp_place : node r3 = node r2 ∧ pnode r3 = pnode r2;
  kp_keys : rkey r3 = rkey r2 ∧ key1 r3 = key1 r2 }.

Lemma old_key_found r r2 k off recs C h t x : looked ic r r2 k off recs C h t x → key_good ic k → ∃ r3, kept r2 r3 recs ∧
  (if negb (x =? 0) then del ← isDeleted r2; Ok (del.1, if del.2 : bool then -2 else 0)
   else f ← cdbLookup r2; Ok (f.1, if f.2 : bool then 0 else -1))
  = Ok (r3, match view ic recs C k with Some _ => 0 | None => if C !! canon ic k is Some _ then -2 else -1 end).
Proof.
  intros L Hk. destruct (lk_heap _ _ _ _ _ _ _ _ _ _ L) as (_ & Hr & _). rewrite <-(lk_journal _ _ _ _ _ _ _ _ _ _ L) in Hr.
  assert (Hb := lk_base _ _ _ _ _ _ _ _ _ _ L). destruct (lk_node _ _ _ _ _ _ _ _ _ _ L) as [Hx _]. unfold view.
  destruct (lk_found _ _ _ _ _ _ _ _ _ _ L) as [(-> & _ & ->)|(n & Hx0 & Hn & _ & ->)].
  - cbn [Z.eqb negb]. destruct (cdbLookup_ok ic r2 recs k Hb (lk_keyed _ _ _ _ _ _ _ _ _ _ L) (proj1 Hk)) as (c & Hc & H).
    destruct (head _) as [d|].
    + destruct H as (p & -> & _). eexists. split; [|done]. by split.
    + rewrite H. exists (set_base c r2). split; [by split|done].
  - destruct (Z.eqb_spec x 0); [done|]. cbn [negb]. rewrite <-Hx in Hn. rewrite (isDeleted_ok r2 off h n Hr Hn).
    cbn [mbind res_bind fst snd]. exists r2. split; [by split|]. by destruct (n_val n).
Qed.

Lemma new_key_found r r2 k flag off recs C h t x : looked ic r r2 k off recs C h t x → key_good ic k → ∃ r3, kept r2 r3 recs ∧
  (if negb (x =? 0) then
     del ← (if flag =? RDB_INSERT then isDeleted r2 else Ok (r2, true));
     Ok (del.1, if del.2 : bool then 0 else -4)
   else
     f ← cdbLookup r2;
     if f.2 && (flag =? RDB_INSERT) then Ok (f.1, -4) else r ← htAlloc f.1; Ok (r, 0))
  = if (if view ic recs C k is Some _ then flag =? RDB_INSERT else false) then Ok (r3, -4)
    else r ← (if x =? 0 then htAlloc r3 else Ok r3); Ok (r, 0).
Proof.
  intros L Hk. destruct (lk_heap _ _ _ _ _ _ _ _ _ _ L) as (_ & Hr & _). rewrite <-(lk_journal _ _ _ _ _ _ _ _ _ _ L) in Hr.
  assert (Hb := lk_base _ _ _ _ _ _ _ _ _ _ L). destruct (lk_node _ _ _ _ _ _ _ _ _ _ L) as [Hx _]. unfold view.
  destruct (lk_found _ _ _ _ _ _ _ _ _ _ L) as [(-> & _ & ->)|(n & Hx0 & Hn & _ & ->)].
  - cbn [Z.eqb negb]. destruct (cdbLookup_ok ic r2 recs k Hb (lk_keyed _ _ _ _ _ _ _ _ _ _ L) (proj1 Hk)) as (c & Hc & H).
    destruct (head _) as [d|].
    + destruct H as (p & -> & _). eexists. split; [|cbn [mbind res_bind fst snd andb]; by destruct (flag =? RDB_INSERT)]. by split.
    + rewrite H. exists (set_base c r2). split; [by split|done].
  - destruct (Z.eqb_spec x 0); [done|]. cbn [negb]. rewrite <-Hx in Hn. rewrite (isDeleted_ok r2 off h n Hr Hn).
    exists r2. split; [by split|]. destruct (flag =? RDB_INSERT); by destruct (n_val n).
Qed.

(** The end of [substitute], from the node for the new key on. *)
Lemma substitute_put e r r5 r6 off recs C N k1 k2 d h t1 x1 t2 x2 : (∀ n, grow e n = true) →
  looked ic r r5 k2 off recs C h t2 x2 → kept r5 r6 recs → search ic h k1 (start_place ic k1) t1 x1 →
  key_good ic k1 → key_good ic k2 → apart_keys k1 k2 → (x1 = 0 → C !! canon ic k1 = None) →
  key1 r6 = User k1 → room (journal r) off → get4 (journal r) RDB_nrecord = Ok N →
  let sz := 16 + Z.of_nat (length k1) + Z.of_nat (length k2) + Z.of_nat (length d) in
  off + 48 + sz + 48 <= 2 ^ 30 →
  ∃ r7 r' off', (if x2 =? 0 then htAlloc r6 else Ok r6) = Ok r7 ∧
    (l ← log_substitute e (set_rdata (User d) r7);
     if negb l.2 then r ← htRemoveAlloc l.1; Ok (r, -3)
     else
       r ← htInsert l.1;
       let r := set_rkey (key1 r) (set_rdata Null (set_node (node r) (addr t1) r)) in
       r ← (if negb (x1 =? 0) then Ok (set_node x1 (addr t1) r) else htAlloc r);
       r ← htInsert r;
       Ok (r, 0)) = Ok (r', 0) ∧
    opened ic r' off' recs (<[canon ic k1 := None]> (<[canon ic k2 := Some d]> C)) N ∧ off' <= off + 48 + sz.
Proof.
  intros Hg L [B6 J6 [P6 Q6] [K6 _]] S1 Hk1 Hk2 Hap Hnone O6 Hroom Hcnt sz Hbud.
  destruct (lk_heap _ _ _ _ _ _ _ _ _ _ L) as (Hh & Hr & HC). destruct (lk_keyed _ _ _ _ _ _ _ _ _ _ L) as (Hk5 & _ & _).
  rewrite (lk_journal _ _ _ _ _ _ _ _ _ _ L) in J6.
  destruct (alloc_put ic r r5 r6 off recs C k2 h t2 x2 L Hk2 Hroom J6 P6 Q6)
    as (r7 & off4 & E7 & (B7 & K7 & _ & O7) & G7 & Hr7 & Hl7 & Hs7 & Eoff & Hput).
  assert (Hoff4 : off <= off4 <= off + 24) by (rewrite Eoff; rconsts; destruct (x2 =? 0); lia).
  destruct (log_substitute_ok e Hg (set_rdata (User d) r7) off4 G7 Hs7 Hr7 Hl7 k1 k2 d) as (r8 & E8 & Hlg & Hkey & Hdat & Hold & Hsp);
    [cbn; congruence|cbn; congruence|done|fold sz; lia|]. fold sz in Hlg, Hkey, Hdat, Hold.
  destruct (Hput r8 _ (Some d) Hlg Hsp Hkey Hdat) as (m' & h1 & E9 & Hh1 & HC1 & [Hrep1 Hroom1 Hc1] & HA1 & Hshape).
  { unfold entry_size, sz. cbn [n_key n_val]. rconsts. lia. }
  exists r7. rewrite E8. cbn [mbind res_bind fst snd negb]. rewrite E9. cbn [mbind res_bind]. set (r9 := set_rkey _ _).
  destruct (rep_head _ _ _ Hr) as [[Hs _] _]. pose proof (rep_used _ _ _ Hr) as Hu.
  assert (Hfacts : node r8 + 16 <= off4 ∧ (∀ q, is_Some (nodes h1 !! q) → q + sizeof_node <= off4) ∧
    used (map_to_list (nodes h1)) + 32 + Z.of_nat (length k1) <= off4 + sz + sizeof_node - sizeof_struct).
  { destruct Hshape as [(Hx2 & Hn8 & ->)|(n & Hx2 & Hn8 & Hn & ->)].
    - rewrite Hx2 in Eoff. cbn [Z.eqb] in Eoff. split; [rconsts; lia|]. split.
      + intros q Hq. destruct (add_range _ _ _ _ _ _ q Hr Hq) as [->|Hq']; [lia|]. destruct (rep_range _ _ _ Hr q Hq'). rconsts. lia.
      + assert (Hoff : nodes h !! off = None).
        { destruct (nodes h !! off) eqn:E0; [|done]. destruct (rep_range _ _ _ Hr off ltac:(by eexists)). rconsts. lia. }
        unfold add_node. cbn [put_node nodes]. rewrite used_insert by by apply set_val_none. rewrite used_set_val.
        unfold entry_size. cbn [n_key n_val]. unfold sz. rconsts. lia.
    - destruct (rep_range _ _ _ Hr x2 ltac:(by eexists)) as [_ Hx2o]. split; [rconsts; lia|]. split.
      + intros q Hq. rewrite nodes_upd in Hq. assert (Hq' : is_Some (nodes h !! q)) by (destruct (decide (q = x2)) as [->|]; [by eexists|done]).
        destruct (rep_range _ _ _ Hr q Hq'). lia.
      + unfold upd_node. cbn [put_node nodes]. rewrite (used_replace _ _ n) by done. pose proof (entry_size_ge n).
        unfold entry_size at 2. cbn [n_key n_val]. unfold sz. rconsts. lia. }
  destruct Hfacts as (Hf1 & Hf2 & Hf3).
  assert (Hck : canon ic k1 ≠ canon ic k2) by (intros E; apply Hap; by apply start_same).
  destruct (old_place off h h1 C k1 k2 (Some d) t1 x1 t2 x2 (journal r) Hh Hr HC Hap Hk1 S1 (lk_search _ _ _ _ _ _ _ _ _ _ L)) as [Hnew Hex].
  { destruct Hshape as [(? & _ & ?)|(n & Hx2 & _ & Hn & ->)]; [by left|right]. exists n. splits; try done.
    destruct (lk_found _ _ _ _ _ _ _ _ _ _ L) as [(? & _)|(n' & _ & Hn' & Hs' & _)]; [done|]. congruence. }
  assert (Hown : owner t1 < off4 + sz).
  { assert (owner t1 < off); [eapply owner_lt; [exact Hr|by eapply search_val]|]. unfold sz. lia. }
  destruct (mark_old (off4 + sz) h1 (<[canon ic k2 := Some d]> C) r9 k1 t1 x1 off4 Hh1 Hrep1 HC1 Hroom1 eq_refl)
    as (r10 & m2 & off2 & E10 & E11 & B10 & Hj & Hroom2 & Hle & Hc2); try done.
  { apply (held_keep (journal r8) m' _ _ (node r8)); [exact Hold|exact HA1|by left]. }
  { intros Hx1. destruct (Hnew Hx1). split; [done|]. split; [done|]. split; [done|]. rewrite lookup_insert_ne by done. by apply Hnone. }
  rewrite E10. cbn [mbind res_bind]. rewrite E11. cbn [mbind res_bind]. eexists _, off2. split; [done|]. split; [done|].
  destruct Hsp as (B8 & _ & _). split; [|rconsts; lia]. split; cbn [base journal set_journal]; try done.
  - rewrite B10. cbn [r9 base set_rkey set_rdata set_node set_journal]. rewrite B8. cbn [base set_rdata]. by rewrite B7.
  - apply Hc2. cbn [r9 journal set_rkey set_rdata set_node set_journal]. by apply Hc1.
Qed.

Lemma substitute_ok e flag r off recs C N k1 k2 d : (∀ n, grow e n = true) → opened ic r off recs C N →
  key_good ic k1 → key_good ic k2 → apart_keys k1 k2 → rkey r = User k1 → rdata r = User d →
  let sz := 16 + Z.of_nat (length k1) + Z.of_nat (length k2) + Z.of_nat (length d) in
  off + 48 + sz + 48 <= 2 ^ 30 →
  let s := spec_substitute k1 k2 d flag recs C in
  ∃ r' off', substitute e (User k2) flag r = Ok (r', s.2) ∧ opened ic r' off' recs s.1 N ∧ off' <= off + 48 + sz.
Proof.
  intros Hg [Hb (h & Hh & Hr & HC) Hroom Hcnt] Hk1 Hk2 Hap Hrk Hrd sz Hbud s. unfold substitute.
  assert (Hst : ∀ y, base_ok ic (base y) recs → journal y = journal r → opened ic y off recs C N).
  { intros y Hy Ey. split; rewrite ?Ey; try done. by exists h. }
  destruct (look_heap ic (set_key1 (User k1) r) off recs C h k1) as (r1s & r2 & t1 & x1 & E1 & E2 & L1); try done.
  rewrite hash_key_key1 in E1. destruct (hash_key r) as [r1|] eqn:Eh; [|done]. cbn [mbind res_bind] in E1 |- *. injection E1 as <-.
  rewrite (hash_key_rkey r r1 Eh), Hrk, E2, Hrd. cbn [mbind res_bind fst snd].
  destruct (old_key_found _ _ _ _ _ _ _ _ _ L1 Hk1) as (r3 & [B3 J3 [P3 Q3] [K3 O3]] & E3). rewrite E3. cbn [mbind res_bind fst snd].
  rewrite (lk_journal _ _ _ _ _ _ _ _ _ _ L1) in J3. cbn [journal set_key1] in J3.
  destruct (lk_data _ _ _ _ _ _ _ _ _ _ L1) as [_ O1]. cbn [key1 set_key1] in O1. destruct (lk_node _ _ _ _ _ _ _ _ _ _ L1) as [N1 M1].
  subst s. unfold spec_substitute. destruct (view ic recs C k1) as [d1|].
  2:{ exists r3, off. destruct (C !! canon ic k1); cbn [Z.eqb negb]; (split; [done|]); (split; [by apply Hst|lia]). }
  cbn [Z.eqb negb].
  destruct (look_heap ic (set_rkey (User k2) r3) off recs C h k2) as (r4 & r5 & t2 & x2 & E4 & E5 & L2); try done; [by cbn; rewrite J3|].
  rewrite E4. cbn [mbind res_bind]. rewrite E5. cbn [mbind res_bind fst snd].
  destruct (new_key_found _ _ _ flag _ _ _ _ _ _ L2 Hk2) as (r6 & Hkp & E6). rewrite E6. assert (Hkp' := Hkp). destruct Hkp' as [B6 J6 _ [_ O6]].
  rewrite (lk_journal _ _ _ _ _ _ _ _ _ _ L2) in J6. cbn [journal set_rkey] in J6. destruct (lk_data _ _ _ _ _ _ _ _ _ _ L2) as [_ O2].
  cbn [key1 set_rkey] in O2. destruct (if view ic recs C k2 is Some _ then flag =? RDB_INSERT else false).
  { cbn [mbind res_bind fst snd Z.eqb negb]. exists r6, off. split; [done|]. split; [apply Hst; [done|congruence]|lia]. }
  assert (Hnone : x1 = 0 → C !! canon ic k1 = None).
  { intros Hx. by destruct (lk_found _ _ _ _ _ _ _ _ _ _ L1) as [(_ & _ & ?)|(n & ? & _)]. }
  destruct (substitute_put e _ r5 r6 off recs C N k1 k2 d h t1 x1 t2 x2 Hg L2 Hkp (lk_search _ _ _ _ _ _ _ _ _ _ L1) Hk1 Hk2 Hap Hnone)
    as (r7 & r' & off' & E7 & E8 & Ho' & Hle); [congruence|cbn; by rewrite J3|cbn; by rewrite J3|exact Hbud|].
  rewrite E7. cbn [mbind res_bind fst snd Z.eqb negb]. rewrite P3, Q3, N1, M1. exists r', off'. by split; [exact E8|].
Qed.
End Substitute.
