(* ===== verification/RdbWalk.v ===== *)
(** * Record databases: going over the entries, reorganizing

    The walk over the hash tree meets every node once, the walk over the slots of the constant database every
    record once; so the database that [reorganize] makes has, for every key, the data that was found before. *)

From stdpp Require Import gmap.
From S2P Require Import Prelude CType Memory Hash HashMap Sort Probe Cdb CdbFacts Rdb RdbHeap RdbFacts.

Fixpoint fold_res {A B} (f : B → A → res A) (l : list B) (a : A) : res A :=
  match l with [] => Ok a | b :: l => a ← f b a; fold_res f l a end.

Lemma fold_res_app {A B} (f : B → A → res A) l l' a : fold_res f (l ++ l') a = a ← fold_res f l a; fold_res f l' a.
Proof.
  revert a. induction l as [|b l IH]; intros a; [done|]. cbn [app fold_res]. destruct (f b a); [|done].
  cbn [mbind res_bind]. apply IH.
Qed.

(** ** The nodes of a tree *)

Fixpoint tree (fuel : nat) (h : heap) (p : Z) : list Z :=
  match fuel with
  | O => []
  | S fuel =>
      match nodes h !! p with
      | Some n => tree fuel h (n_left n) ++ tree fuel h (n_right n) ++ [p]
      | None => []
      end
  end.

Section Trees.
Context (ic : bool) (h : heap) (Hh : heap_ok ic h) (Hpos : ∀ p, is_Some (nodes h !! p) → 0 < p).

Lemma tree_null fuel : tree fuel h 0 = [].
Proof. destruct fuel; cbn [tree]; [done|]. by rewrite (ho_null _ _ Hh). Qed.

Lemma child_up p n : nodes h !! p = Some n →
  (n_left n ≠ 0 → p < n_left n ∧ is_Some (nodes h !! n_left n)) ∧ (n_right n ≠ 0 → p < n_right n ∧ is_Some (nodes h !! n_right n)).
Proof.
  intros Hn. split; intros H0.
  - apply (ho_up _ _ Hh (Lft p)); [cbn; by rewrite Hn|done].
  - apply (ho_up _ _ Hh (Rgt p)); [cbn; by rewrite Hn|done].
Qed.

Lemma tree_elem fuel : ∀ p q, q ∈ tree fuel h p → is_Some (nodes h !! q) ∧ p <= q.
Proof.
  induction fuel as [|fuel IH]; intros p q; cbn [tree]; [by intros ?%not_elem_of_nil|].
  destruct (nodes h !! p) as [n|] eqn:E; [|by intros ?%not_elem_of_nil]. destruct (child_up p n E) as [Hl Hr].
  rewrite !elem_of_app, list_elem_of_singleton. intros [Hq|[Hq| ->]]; [| |split; [by eexists|lia]].
  - destruct (decide (n_left n = 0)) as [E0|E0]; [rewrite E0, tree_null in Hq; by apply not_elem_of_nil in Hq|].
    apply IH in Hq. destruct (Hl E0). split; [apply Hq|lia].
  - destruct (decide (n_right n = 0)) as [E0|E0]; [rewrite E0, tree_null in Hq; by apply not_elem_of_nil in Hq|].
    apply IH in Hq. destruct (Hr E0). split; [apply Hq|lia].
Qed.

(** Every node but the root has its pointer in the tree. *)
Lemma tree_parent fuel : ∀ p q, q ∈ tree fuel h p → q = p ∨ ∃ s, val h s = Some q ∧ owner s ∈ tree fuel h p.
Proof.
  induction fuel as [|fuel IH]; intros p q; cbn [tree]; [by intros ?%not_elem_of_nil|].
  destruct (nodes h !! p) as [n|] eqn:E; [|by intros ?%not_elem_of_nil].
  rewrite !elem_of_app, list_elem_of_singleton. intros [Hq|[Hq| ->]]; [right|right|by left].
  - apply IH in Hq as [->|(s & Hs & Ho)].
    + exists (Lft p). split; [cbn; by rewrite E|]. rewrite !elem_of_app, list_elem_of_singleton. tauto.
    + exists s. split; [done|]. rewrite !elem_of_app. tauto.
  - apply IH in Hq as [->|(s & Hs & Ho)].
    + exists (Rgt p). split; [cbn; by rewrite E|]. rewrite !elem_of_app, list_elem_of_singleton. tauto.
    + exists s. split; [done|]. rewrite !elem_of_app. tauto.
Qed.

Lemma trees_disjoint s1 s2 v1 v2 f1 f2 : val h s1 = Some v1 → val h s2 = Some v2 → s1 ≠ s2 →
  owner s2 ∉ tree f1 h v1 → owner s1 ∉ tree f2 h v2 → ∀ q, q ∈ tree f1 h v1 → q ∈ tree f2 h v2 → False.
Proof.
  intros H1 H2 Hne N2 N1. assert (Hind : ∀ n q, (Z.to_nat q < n)%nat → q ∈ tree f1 h v1 → q ∈ tree f2 h v2 → False).
  { induction n as [|n IH]; intros q Hn Q1 Q2; [lia|]. destruct (tree_elem _ _ _ Q1) as [[nd Hq] _].
    assert (Hq0 : q ≠ 0) by (intros ->; by rewrite (ho_null _ _ Hh) in Hq).
    destruct (tree_parent _ _ _ Q1) as [->|(s & Hs & Ho)], (tree_parent _ _ _ Q2) as [E|(s' & Hs' & Ho')].
    - subst. apply Hne. by eapply val_inj.
    - apply N1. by rewrite (val_inj ic h s1 s' v1).
    - subst. apply N2. by rewrite (val_inj ic h s2 s v2).
    - rewrite (val_inj ic h s' s q) in Ho' by done. apply (IH (owner s)); [|done|done].
      destruct (ho_up _ _ Hh _ _ Hs Hq0). destruct (tree_elem _ _ _ Ho) as [[n' Hn'] _].
      assert (Hpo : is_Some (nodes h !! owner s)) by by eexists. specialize (Hpos _ Hpo). lia. }
  intros q. apply (Hind (S (Z.to_nat q))). lia.
Qed.
Lemma tree_nodup fuel : ∀ p, NoDup (tree fuel h p).
Proof.
  induction fuel as [|fuel IH]; intros p; cbn [tree]; [constructor|]. destruct (nodes h !! p) as [n|] eqn:E; [|constructor].
  destruct (child_up p n E) as [Hl Hr]. assert (Hnl : p ∉ tree fuel h (n_left n)).
  { intros Hq. destruct (decide (n_left n = 0)) as [E0|E0]; [rewrite E0, tree_null in Hq; by apply not_elem_of_nil in Hq|].
    apply tree_elem in Hq. specialize (Hl E0). lia. }
  assert (Hnr : p ∉ tree fuel h (n_right n)).
  { intros Hq. destruct (decide (n_right n = 0)) as [E0|E0]; [rewrite E0, tree_null in Hq; by apply not_elem_of_nil in Hq|].
    apply tree_elem in Hq. specialize (Hr E0). lia. }
  apply NoDup_app. split; [apply IH|]. split.
  - intros q Hq. rewrite elem_of_app, list_elem_of_singleton. intros [Hq'| ->]; [|done].
    eapply (trees_disjoint (Lft p) (Rgt p)); [cbn; by rewrite E..|done|exact Hnl|exact Hnr|exact Hq|exact Hq'].
  - apply NoDup_app. split; [apply IH|]. split; [|apply NoDup_singleton].
    intros q Hq Hq'. apply list_elem_of_singleton in Hq' as ->. done.
Qed.

(** Enough fuel for a node in a journal that is used up to [off]. *)
Lemma search_tree off fuel k s t v : (∀ p, is_Some (nodes h !! p) → p < off) → search ic h k s t v → v ≠ 0 →
  ∀ p, val h s = Some p → (Z.to_nat (off - p) < fuel)%nat → v ∈ tree fuel h p.
Proof.
  intros Hoff Hs Hv. revert fuel. induction Hs as [s E|s p0 n E En Ek|s p0 n t v E En Ek Hs IH]; intros fuel p Hp Hf; [done| |].
  - assert (p0 = p) as -> by congruence. destruct fuel; [lia|]. cbn [tree]. rewrite En, !elem_of_app, list_elem_of_singleton. tauto.
  - assert (p0 = p) as -> by congruence. destruct fuel as [|fuel]; [lia|]. cbn [tree]. rewrite En, !elem_of_app.
    destruct (child_up p n En) as [Hl Hr]. assert (Hpo : p < off) by (apply Hoff; by eexists).
    unfold side in *. destruct (goes_left ic k (n_key n)).
    + left. destruct (decide (n_left n = 0)) as [E0|E0].
      { exfalso. inversion Hs as [s' E'|s' p' n' E' En' _|s' p' n' t' v' E' En' _ _]; subst; [done| |];
          cbn in E'; rewrite En in E'; cbn in E'; injection E' as <-; by rewrite E0, (ho_null _ _ Hh) in En'. }
      apply IH; [done|by cbn; rewrite En|]. destruct (Hl E0). lia.
    + right; left. destruct (decide (n_right n = 0)) as [E0|E0].
      { exfalso. inversion Hs as [s' E'|s' p' n' E' En' _|s' p' n' t' v' E' En' _ _]; subst; [done| |];
          cbn in E'; rewrite En in E'; cbn in E'; injection E' as <-; by rewrite E0, (ho_null _ _ Hh) in En'. }
      apply IH; [done|by cbn; rewrite En|]. destruct (Hr E0). lia.
Qed.

(** The nodes in the order [call] meets them. *)
Definition tables (fuel : nat) (l : list Z) : list Z := concat (map (λ i, tree fuel h (tab h i)) l).

Lemma tables_elem fuel l q : q ∈ tables fuel l ↔ ∃ i, i ∈ l ∧ q ∈ tree fuel h (tab h i).
Proof.
  unfold tables. rewrite list_elem_of_In, in_concat. split.
  - intros (x & (i & <- & Hi)%in_map_iff & Hq). exists i. by rewrite !list_elem_of_In.
  - intros (i & Hi & Hq). exists (tree fuel h (tab h i)). rewrite <-list_elem_of_In. split; [|by rewrite <-list_elem_of_In].
    by apply (list_elem_of_fmap_2 (λ i, tree fuel h (tab h i))).
Qed.

Lemma tables_nodup fuel l : NoDup l → Forall (λ i, 0 <= i < CACHE_HASHTAB_LEN) l → NoDup (tables fuel l).
Proof.
  induction 1 as [|i l Hi Hl IH]; intros Hr; [constructor|]. apply Forall_cons in Hr as [Hir Hr].
  unfold tables. cbn [map concat]. fold (tables fuel l). apply NoDup_app. split; [apply tree_nodup|]. split; [|by apply IH].
  intros q Hq (j & Hj & Hq')%tables_elem. rewrite Forall_forall in Hr. specialize (Hr j Hj).
  assert (Hz : ∀ v, 0 ∉ tree fuel h v).
  { intros v H0. apply tree_elem in H0 as [H0 _]. rewrite (ho_null _ _ Hh) in H0. by destruct H0. }
  assert (Hv : ∀ i, 0 <= i < CACHE_HASHTAB_LEN → val h (Tab i) = Some (tab h i)).
  { intros x Hx. cbn. destruct (Z.leb_spec 0 x), (Z.ltb_spec x CACHE_HASHTAB_LEN); (done || lia). }
  eapply (trees_disjoint (Tab i) (Tab j)); [by apply Hv..|congruence|apply Hz|apply Hz|exact Hq|exact Hq'].
Qed.
End Trees.

(** ** The walk over the journal *)

Section Walk.
Context (ic : bool) (m : list Z) (off : Z) (h : heap) (Hh : heap_ok ic h) (Hr : rep m off h).

Lemma node_pos p : is_Some (nodes h !! p) → 0 < p.
Proof. intros Hp. destruct (rep_range _ _ _ Hr p Hp). rconsts. lia. Qed.

Lemma node_end p : is_Some (nodes h !! p) → p < off.
Proof. intros Hp. destruct (rep_range _ _ _ Hr p Hp). rconsts. lia. Qed.

Definition all_nodes : list Z := tables h (length m) (seqZ 0 CACHE_HASHTAB_LEN).

Lemma all_nodes_elem q : q ∈ all_nodes ↔ is_Some (nodes h !! q).
Proof.
  unfold all_nodes. rewrite tables_elem. split.
  - intros (i & _ & Hq). by eapply (tree_elem ic h Hh) in Hq as [Hq _].
  - intros [n Hn]. destruct (ho_reach _ _ Hh _ _ Hn) as (s & Hs). set (i := hashv ic (n_key n) mod CACHE_HASHTAB_LEN).
    assert (Hi : 0 <= i < CACHE_HASHTAB_LEN) by by apply Z.mod_pos_bound. exists i. split; [apply elem_of_seqZ; lia|].
    assert (Hv : val h (Tab i) = Some (tab h i)).
    { cbn. destruct (Z.leb_spec 0 i), (Z.ltb_spec i CACHE_HASHTAB_LEN); (done || lia). }
    assert (Hp := node_pos q ltac:(by eexists)). eapply (search_tree ic h Hh off); [exact node_end|exact Hs|lia|exact Hv|].
    destruct (rep_head _ _ _ Hr) as [Ho _]. destruct (decide (tab h i = 0)) as [E0|E0].
    + exfalso. change (start_place ic (n_key n)) with (Tab i) in Hs. rewrite E0 in Hv.
      pose proof (ho_null _ _ Hh). inversion Hs; subst; (lia || congruence).
    + destruct (ho_up _ _ Hh _ _ Hv E0) as [_ Hx]. apply node_pos in Hx. rconsts. lia.
Qed.

Lemma all_nodes_nodup : NoDup all_nodes.
Proof.
  apply (tables_nodup ic h Hh node_pos); [apply NoDup_seqZ|]. apply Forall_forall. intros i Hi%elem_of_seqZ. lia.
Qed.

Definition node_list : list rnode := omap (λ q, nodes h !! q) all_nodes.

Lemma node_list_perm : map (λ q, (q, nodes h !! q)) all_nodes ≡ₚ map (λ x : Z * rnode, (x.1, Some x.2)) (map_to_list (nodes h)).
Proof.
  apply NoDup_Permutation.
  - apply NoDup_fmap_2_strong; [by intros x y _ _ [= -> _]|apply all_nodes_nodup].
  - apply NoDup_fmap_2_strong; [intros [x a] [y b] _ _ [= -> ->]; done|apply NoDup_map_to_list].
  - intros [q o]. split.
    + intros (q' & [= <- ->] & Hq)%list_elem_of_fmap. apply all_nodes_elem in Hq as [n Hn]. rewrite Hn.
      apply (list_elem_of_fmap_2 (λ x : Z * rnode, (x.1, Some x.2)) _ (q, n)). by apply elem_of_map_to_list.
    + intros ([q' n] & [= <- ->] & Hq)%list_elem_of_fmap. apply elem_of_map_to_list in Hq. simpl. rewrite <-Hq.
      apply (list_elem_of_fmap_2 (λ q, (q, nodes h !! q))). apply all_nodes_elem. by eexists.
Qed.

Lemma node_list_ok : node_list ≡ₚ map snd (map_to_list (nodes h)).
Proof.
  assert (E : node_list = omap snd (map (λ q, (q, nodes h !! q)) all_nodes)).
  { unfold node_list. induction all_nodes as [|q l IH]; [done|]. cbn. rewrite IH. by destruct (nodes h !! q). }
  rewrite E, node_list_perm. clear E. induction (map_to_list (nodes h)) as [|[q n] l IH]; [done|]. cbn. by rewrite IH.
Qed.

(** A function for the nodes that leaves the memory. *)
Lemma visit_ok {A} (f : list Z → Z → A → res (list Z * A)) (g : rnode → A → res A) :
  (∀ q n a, nodes h !! q = Some n → f m q a = a' ← g n a; Ok (m, a')) →
  ∀ fuel p n a, nodes h !! p = Some n → (Z.to_nat (off - p) < fuel)%nat →
    visit fuel f p m a = a' ← fold_res g (omap (λ q, nodes h !! q) (tree fuel h p)) a; Ok (m, a').
Proof.
  intros Hf. induction fuel as [|fuel IH]; intros p n a Hn Hfu; [lia|]. cbn [visit tree]. rewrite Hn.
  destruct (child_up ic h Hh p n Hn) as [Hl Hrt]. assert (Hpe := node_end p ltac:(by eexists)).
  assert (Hsub : ∀ v a, (v ≠ 0 → p < v ∧ is_Some (nodes h !! v)) →
    (if negb (v =? 0) then visit fuel f v m a else Ok (m, a)) = a' ← fold_res g (omap (λ q, nodes h !! q) (tree fuel h v)) a; Ok (m, a')).
  { intros v b Hv. destruct (Z.eqb_spec v 0) as [->|Hv0]; cbn [negb].
    - by rewrite (tree_null ic h Hh).
    - destruct (Hv Hv0) as [Hlt [n' Hn']]. apply (IH v n'); [done|]. lia. }
  assert (G1 := rep_val _ _ _ Hr (Lft p) (n_left n) ltac:(cbn; by rewrite Hn)). cbn [addr] in G1. rewrite G1. cbn [mbind res_bind].
  rewrite Hsub by done. rewrite !omap_app, !fold_res_app. destruct (fold_res g _ a) as [a1|]; [|done]. cbn [mbind res_bind fst snd].
  assert (G2 := rep_val _ _ _ Hr (Rgt p) (n_right n) ltac:(cbn; by rewrite Hn)). cbn [addr] in G2. rewrite G2. cbn [mbind res_bind].
  rewrite fold_res_app. specialize (Hsub (n_right n) a1 Hrt). destruct (n_right n =? 0); cbn [negb] in *; rewrite Hsub;
    (destruct (fold_res g _ a1) as [a2|]; [|done]); cbn [mbind res_bind fst snd]; rewrite (Hf p n) by done;
    cbn [omap list_omap fold_res]; rewrite Hn; cbn [fold_res]; by destruct (g n a2).
Qed.

Lemma visit_tables_ok {A} (f : list Z → Z → A → res (list Z * A)) (g : rnode → A → res A) :
  (∀ q n a, nodes h !! q = Some n → f m q a = a' ← g n a; Ok (m, a')) →
  ∀ a, visit_tables (Z.to_nat CACHE_HASHTAB_LEN) 0 f m a = a' ← fold_res g node_list a; Ok (m, a').
Proof.
  intros Hf. unfold node_list, all_nodes, seqZ.
  assert (H : ∀ k i a, 0 <= i → i + Z.of_nat k <= CACHE_HASHTAB_LEN → visit_tables k i f m a
    = a' ← fold_res g (omap (λ q, nodes h !! q) (tables h (length m) (map (λ j, Z.of_nat j + i) (seq 0 k)))) a; Ok (m, a')).
  { induction k as [|k IH]; intros i a Hi Hk; [done|]. cbn [visit_tables seq map].
    assert (Hv : val h (Tab i) = Some (tab h i)).
    { cbn. destruct (Z.leb_spec 0 i), (Z.ltb_spec i CACHE_HASHTAB_LEN); (done || lia). }
    pose proof (rep_val _ _ _ Hr _ _ Hv) as G. cbn [addr] in G. rewrite G. cbn [mbind res_bind].
    unfold tables. cbn [map concat]. rewrite omap_app, fold_res_app. change (Z.of_nat 0 + i) with i.
    assert (E : (if negb (tab h i =? 0) then visit (length m) f (tab h i) m a else Ok (m, a))
      = a' ← fold_res g (omap (λ q, nodes h !! q) (tree (length m) h (tab h i))) a; Ok (m, a')).
    { destruct (Z.eqb_spec (tab h i) 0) as [->|H0]; cbn [negb]; [by rewrite (tree_null ic h Hh)|].
      destruct (ho_up _ _ Hh _ _ Hv H0) as [_ [n Hn]]. eapply visit_ok; [done|done|].
      destruct (rep_head _ _ _ Hr) as [Ho _]. assert (Hp := node_pos _ ltac:(by eexists; exact Hn)). rconsts. lia. }
    rewrite E. destruct (fold_res g _ a) as [a1|]; [|done]. cbn [mbind res_bind fst snd]. rewrite IH by lia.
    assert (Es : map (λ j, Z.of_nat j + (i + 1)) (seq 0 k) = map (λ j, Z.of_nat j + i) (seq 1 k)); [|by rewrite Es].
    rewrite <-seq_shift, map_map. apply map_ext. intros j. lia. }
  intros a. rewrite H by (rconsts; lia). done.
Qed.
End Walk.

Definition live_node {A} (f : list Z → list Z → A → res A) (n : rnode) (a : A) : res A :=
  match n_val n with Some d => f (n_key n) d a | None => Ok a end.

Lemma live_ok {A} (f : list Z → list Z → A → res A) m off h q n a : rep m off h → nodes h !! q = Some n →
  live f m q a = a' ← live_node f n a; Ok (m, a').
Proof.
  intros Hr Hn. pose proof (rep_value _ _ _ Hr _ _ Hn) as Hv. destruct (rep_key _ _ _ Hr _ _ Hn) as (kp & K1 & K2 & K3 & _).
  unfold live, live_node. destruct (n_val n) as [d|]; cbn [value_at] in Hv.
  - destruct Hv as (dp & H0 & V1 & V2 & V3 & _). rewrite V1. cbn [mbind res_bind]. rewrite V2. cbn [mbind res_bind].
    destruct (Z.eqb_spec dp 0); [done|]. cbn [negb]. rewrite K1. cbn [mbind res_bind]. rewrite K2. cbn [mbind res_bind].
    rewrite K3. cbn [mbind res_bind]. rewrite V3. done.
  - destruct Hv as [V1 V2]. rewrite V1. cbn [mbind res_bind]. rewrite V2. done.
Qed.

(** ** The walk over the slots *)

(** A list is put together again from its parts. *)
Lemma filter_lt_split {A} (f : A → Z) i (l : list A) : filter (λ a, f a < i + 1) l ≡ₚ filter (λ a, f a < i) l ++ filter (λ a, f a = i) l.
Proof.
  induction l as [|a l IH]; [done|]. rewrite !(filter_cons _ a). 
  destruct (decide (f a < i + 1)), (decide (f a < i)), (decide (f a = i)); try lia; cbn [app]; rewrite IH;
    [done|by rewrite Permutation_middle|done].
Qed.

Lemma filter_no {A} (P : A → Prop) `{∀ x, Decision (P x)} (l : list A) : (∀ x, ¬ P x) → filter P l = [].
Proof. intros HP. induction l as [|x l IH]; [done|]. by rewrite filter_cons_False. Qed.

Lemma parts_perm {A} (f : A → nat) (l l' : list A) n : Forall (λ a, (f a < n)%nat) l → Forall (λ a, (f a < n)%nat) l' →
  (∀ s, (s < n)%nat → filter (λ a, f a = s) l ≡ₚ filter (λ a, f a = s) l') → l ≡ₚ l'.
Proof.
  intros Hl Hl' Hs. assert (H : ∀ k, (k ≤ n)%nat → filter (λ a, Z.of_nat (f a) < Z.of_nat k) l ≡ₚ filter (λ a, Z.of_nat (f a) < Z.of_nat k) l').
  { induction k as [|k IH]; intros Hk; [by rewrite !filter_no by lia|].
    replace (Z.of_nat (S k)) with (Z.of_nat k + 1) by lia. rewrite !filter_lt_split, IH by lia. f_equiv.
    rewrite !(list_filter_iff (λ a, Z.of_nat (f a) = Z.of_nat k) (λ a, f a = k)) by lia. by rewrite Hs by lia. }
  specialize (H n ltac:(lia)). rewrite !filter_all in H; [done| |]; [eapply Forall_impl; [exact Hl'|]|eapply Forall_impl; [exact Hl|]]; intros; simpl in *; lia.
Qed.

Lemma rotate_perm {A} s (L : list A) : rotate s L ≡ₚ L.
Proof. unfold rotate. by rewrite Permutation_app_comm, take_drop. Qed.

Lemma probing_full {A} (home : A → nat) (L : list (option A)) l : probing home L l → length l = length L →
  Forall (λ a, (home a < length L)%nat) l → (∀ a, Some a ∈ L → (home a < length L)%nat) →
  ∃ S, L = map Some S ∧ S ≡ₚ l.
Proof.
  intros Hp Hl Hh Hh'. assert (Hall : Forall is_Some L).
  { assert (Hc := pr_count _ _ _ Hp). rewrite Hl in Hc. clear -Hc. induction L as [|[a|] L IH]; [constructor| |].
    - constructor; [by eexists|]. apply IH. cbn in Hc. lia.
    - cbn in Hc. pose proof (omap_length_le L). lia. }
  exists (omap id L). split.
  - clear -Hall. induction Hall as [|o L [a ->] _ IH]; [done|]. cbn. by rewrite <-IH.
  - apply (parts_perm home _ _ (length L)); [|done|].
    + apply Forall_forall. intros a (o & Ho & E)%list_elem_of_omap. cbn in E. subst o. by apply Hh'.
    + intros s Hs. pose proof (pr_items _ _ _ Hp s Hs) as H. unfold at_home in H. rewrite <-H. f_equiv.
      apply omap_Permutation. symmetry. apply rotate_perm.
Qed.

Section Slots.
Context (ic : bool) (m : list Z) (recs : list (list Z * list Z)) (Hdb : database ic m recs).

Abbreviation bl := (Cdb.place start recs).
Abbreviation eod := (start + rtotal recs).

(** The blocks in the order of the slots. *)
Lemma slot_list : ∃ S, S ≡ₚ bl ∧ ∀ j b, S !! j = Some b → slot_holds ic m (eod + Z.of_nat j * sizeof_slot) (Some b).
Proof.
  assert (H : ∀ k, (k ≤ 512)%nat → ∃ S, S ≡ₚ filter (λ b, index_of ic b < Z.of_nat k) bl ∧
    ∀ j b, S !! j = Some b → slot_holds ic m (eod + Z.of_nat j * sizeof_slot) (Some b)).
  { induction k as [|k IH]; intros Hk.
    - exists []. split; [|done]. rewrite filter_no; [done|]. intros b.
      pose proof (Z.mod_pos_bound (hash_of ic b) 512 ltac:(done)). unfold index_of. consts. lia.
    - destruct IH as (S & HS & Hslot); [lia|].
      destruct (db_tables _ _ _ Hdb (Z.of_nat k)) as (_ & _ & L & HL & Hs & Hp); [consts; lia|].
      assert (Hhome : ∀ b : block, 0 < slots_of ic bl (Z.of_nat k) → (home_slot ic (slots_of ic bl (Z.of_nat k)) b < length L)%nat).
      { intros b Hb. destruct (home_lt ic _ b Hb). lia. }
      destruct (probing_full _ _ _ Hp) as (T & -> & HT).
      { unfold slots_of in HL. lia. }
      { apply Forall_forall. intros b Hb. apply Hhome. apply elem_of_Permutation in Hb as [l Hb]. unfold slots_of. rewrite Hb. cbn [length]. lia. }
      { intros b Hb. apply Hhome. rewrite <-HL. apply list_elem_of_lookup in Hb as [j Hj]. apply lookup_lt_Some in Hj. lia. }
      exists (S ++ T). split.
      + replace (Z.of_nat (Datatypes.S k)) with (Z.of_nat k + 1) by lia. rewrite filter_lt_split, HS. f_equiv. done.
      + intros j b Hj. apply lookup_app_Some in Hj as [Hj|[Hge Hj]]; [by apply Hslot|].
        assert (HTj : map Some T !! (j - length S)%nat = Some (Some b)) by by rewrite list_lookup_fmap, Hj.
        specialize (Hs _ _ HTj). unfold table_pos in Hs. rewrite <-HS in Hs. change sizeof_slot with 8 in *.
        replace (eod + Z.of_nat j * 8) with (eod + 8 * Z.of_nat (length S) + Z.of_nat (j - length S) * 8) by lia.
        done. }
  destruct (H 512%nat ltac:(lia)) as (S & HS & Hslot). exists S. split; [|done]. rewrite HS, filter_all; [done|].
  apply Forall_forall. intros b _. pose proof (Z.mod_pos_bound (hash_of ic b) 512 ltac:(done)). unfold index_of. consts. lia.
Qed.
End Slots.

(** A record whose key is not in the cache. *)
Definition absent_block {A} (ic : bool) (f : list Z → Z → A → res A) (m : list Z) (C : cache) (b : block) (a : A) : res A :=
  if C !! canon ic b.2.1 is Some _ then Ok a else f m b.1 a.

Section Absent.
Context (ic : bool) (r0 : rdb) (off : Z) (h : heap) (C : cache) (recs : list (list Z * list Z)).
Context (Hh : heap_ok ic h) (Hr : rep (journal r0) off h) (HC : cache_rep ic h C).
Context (Hdb : database ic (file (base r0)) recs) (Hic : ignore_case (base r0) = ic) (Hk : Forall (λ r, key_good ic r.1) recs).

Abbreviation m := (file (base r0)).

(** The state while the records are gone over: only the cursor, the key and the place change. *)
Definition walking (r : rdb) : Prop := same_db (base r0) (base r) ∧ journal r = journal r0.

Lemma absent_ok {A} (f : list Z → Z → A → res A) r b a : walking r → b ∈ Cdb.place start recs → ∃ r', walking r' ∧
  absent f r0 m (hash_of ic b) b.1 (r, a) = a' ← absent_block ic f m C b a; Ok (r', a', false).
Proof.
  intros [Hs Hj] Hb. destruct (block_facts ic m recs Hdb b Hb) as (Hst & _ & _). destruct Hst as (_ & _ & _ & _ & S1 & _ & S2 & _).
  assert (Hg : key_good ic b.2.1).
  { apply (list_elem_of_fmap_2 snd) in Hb. rewrite place_records in Hb. rewrite Forall_forall in Hk. by apply Hk. }
  destruct Hs as (F1 & F2 & F3 & F4). unfold absent. rewrite S1. cbn [mbind res_bind fst snd].
  assert (Hd : ∀ x, rkey x = Base (b.1 + sizeof_header) (Z.of_nat (length b.2.1)) → file (base x) = m → datum_bytes x (rkey x) = Ok b.2.1).
  { intros x -> Ex. cbn [datum_bytes]. by rewrite Ex. }
  rewrite Hd by done. cbn [mbind res_bind]. set (r2 := set_base _ _).
  destruct (htLookup_ok ic r2 off h b.2.1) as (t & x & E & Hse); try done.
  { cbn. by rewrite F4. } { cbn. by rewrite Hj. } { by apply Hd. }
  rewrite E. cbn [mbind res_bind fst snd]. exists (set_node x (addr t) r2). split; [done|]. unfold absent_block.
  destruct (search_cache ic h C _ t x Hh HC Hg Hse) as [(-> & _ & HC0)|(n & Hx & _ & _ & HC0)]; rewrite HC0.
  - cbn [Z.eqb negb]. done.
  - destruct (Z.eqb_spec x 0); done.
Qed.

Lemma ext_loop {A} (f : list Z → Z → A → res A) : ∀ S p fuel r a, walking r →
  (∀ j b, S !! j = Some b → slot_holds ic m (p + Z.of_nat j * sizeof_slot) (Some b)) → (∀ b, b ∈ S → b ∈ Cdb.place start recs) →
  Z.of_nat (length m) = p + 8 * Z.of_nat (length S) → (length S < fuel)%nat → ∃ r', walking r' ∧
  iterate fuel (ext_step (absent f r0) m) (p, (r, a)) = a' ← fold_res (absent_block ic f m C) S a; Ok (r', a').
Proof.
  induction S as [|b S IH]; intros p fuel r a Hw Hs Hin Hlen Hf; (destruct fuel as [|fuel]; [lia|]); cbn [iterate fold_res];
    unfold ext_step at 1; cbn [length] in Hlen.
  - destruct (Z.ltb_spec p (Z.of_nat (length m))); [lia|]. by exists r.
  - destruct (Z.ltb_spec p (Z.of_nat (length m))); [|lia]. destruct (Hs 0%nat b eq_refl) as [G1 G2].
    rewrite Z.add_0_r in G1, G2. rewrite G2. cbn [mbind res_bind]. assert (Hb : b ∈ Cdb.place start recs) by (apply Hin; by left).
    destruct (block_facts ic m recs Hdb b Hb) as (Hst & _ & Hb0). destruct (Z.eqb_spec b.1 0); [lia|]. cbn [negb].
    rewrite G1. cbn [mbind res_bind]. destruct Hst as (_ & _ & _ & _ & S1 & _). rewrite S1. cbn [mbind res_bind].
    destruct (absent_ok f r b a Hw Hb) as (r' & Hw' & ->). destruct (absent_block ic f m C b a) as [a'|].
    2:{ exists r'. done. }
    cbn [mbind res_bind fst snd]. apply IH; [done| |by intros b' Hb'; apply Hin; right|change sizeof_slot with 8; lia|cbn [length] in Hf; lia].
    intros j b' Hj. specialize (Hs (Datatypes.S j) b' Hj). change sizeof_slot with 8 in *.
    replace (p + 8 + Z.of_nat j * 8) with (p + Z.of_nat (Datatypes.S j) * 8) by lia. done.
Qed.
End Absent.

(** ** The walk over both *)

(** The nodes of a journal for the cache [C]. *)
Record lists (ic : bool) (C : cache) (off : Z) (L : list rnode) : Prop := {
  ls_keys : NoDup (map (λ n, canon ic (n_key n)) L);
  ls_cache : ∀ ck v, C !! ck = Some v ↔ ∃ n, n ∈ L ∧ canon ic (n_key n) = ck ∧ n_val n = v;
  ls_good : Forall (λ n, key_good ic (n_key n)) L;
  ls_used : foldr (λ n z, entry_size n + z) 0 L <= off - sizeof_struct }.

Lemma sum_perm L L' : L ≡ₚ L' → foldr (λ n z, entry_size n + z) 0 L = foldr (λ n z, entry_size n + z) 0 L'.
Proof. induction 1; cbn [foldr] in *; lia. Qed.

Lemma node_list_lists ic m off h C : heap_ok ic h → rep m off h → cache_rep ic h C → lists ic C off (node_list m h).
Proof.
  intros Hh Hr [H1 H2]. assert (HL := node_list_ok ic m off h Hh Hr).
  assert (Hin : ∀ n, n ∈ node_list m h ↔ ∃ p, nodes h !! p = Some n).
  { intros n. rewrite HL. split.
    - intros ([p n'] & -> & Hp)%list_elem_of_fmap. exists p. by apply elem_of_map_to_list in Hp.
    - intros [p Hp]. apply (list_elem_of_fmap_2 snd _ (p, n)). by apply elem_of_map_to_list. }
  split.
  - rewrite HL, map_map. apply NoDup_fmap_2_strong; [|apply NoDup_map_to_list].
    intros [p n] [q n'] Hp%elem_of_map_to_list Hq%elem_of_map_to_list E. simpl in E.
    assert (p = q) as -> by by eapply keys_differ. by assert (n = n') as -> by congruence.
  - intros ck v. split.
    + intros E. destruct (H2 _ _ E) as (p & n & Hp & Hc). exists n. split; [apply Hin; by exists p|]. split; [done|].
      specialize (H1 _ _ Hp). rewrite Hc, E in H1. by injection H1.
    + intros (n & Hn & <- & <-). apply Hin in Hn as [p Hp]. by eapply H1.
  - apply Forall_forall. intros n [p Hp]%Hin. by eapply ho_key.
  - rewrite (sum_perm _ _ HL). pose proof (rep_used _ _ _ Hr) as Hu. assert (Hm : ∀ l : list (Z * rnode), foldr (λ n z, entry_size n + z) 0 (map snd l) = used l).
    { induction l as [|x l IH]; [done|]. cbn. by rewrite IH. }
    by rewrite Hm.
Qed.

(** [call] with functions that do not stop it. *)
Lemma walk_ok ic r off recs C N : opened ic r off recs C N → Forall (λ x, key_good ic x.1) recs →
  ∃ L S, lists ic C off L ∧ S ≡ₚ Cdb.place start recs ∧
    (∀ b, b ∈ S → stored (file (base r)) b) ∧
    ∀ A f1 f2 (a : A), ∃ r', walking r r' ∧
      walk f1 f2 r a = a' ← fold_res (live_node f1) L a; a' ← fold_res (absent_block ic f2 (file (base r)) C) S a'; Ok (r', a').
Proof.
  intros [Hb (h & Hh & Hr & HC) _ _] Hk. destruct Hb as (Hic & Hn & Hlen & Hcase). 
  assert (Hv : ∀ A (f1 : list Z → list Z → A → res A) a, visit_tables (Z.to_nat CACHE_HASHTAB_LEN) 0 (live f1) (journal r) a
    = a' ← fold_res (live_node f1) (node_list (journal r) h) a; Ok (journal r, a')).
  { intros A f1 a. apply (visit_tables_ok ic (journal r) off h Hh Hr). intros q n a' Hq. by eapply live_ok. }
  assert (Ej : set_journal (journal r) r = r) by by destruct r.
  exists (node_list (journal r) h). destruct Hcase as [[-> Hf]|(Hne & Hdb & Hst)].
  - exists []. split; [by eapply node_list_lists|]. split; [done|]. split; [by intros b ?%not_elem_of_nil|].
    intros A f1 f2 a. exists r. split; [done|]. unfold walk. rewrite Hv. destruct (fold_res _ _ a) as [a1|]; [|done].
    cbn [mbind res_bind fst snd fold_res]. rewrite Ej. destruct Hf as [Hf|[Hf Hst]]; [by rewrite Hf|].
    assert (Hz : (length (file (base r)) =? 0)%nat = false) by (rewrite Hf, length_replicate; done). rewrite Hz.
    unfold callForAllEntryExt. cbn [iterate]. unfold ext_step. rewrite Hst, Hf, length_replicate.
    destruct (Z.ltb_spec start (Z.of_nat (Z.to_nat start))); [unfold start in *; consts; lia|done].
  - destruct (slot_list ic (file (base r)) recs Hdb) as (S & HS & Hslot). exists S.
    assert (Hin : ∀ b, b ∈ S → b ∈ Cdb.place start recs) by (intros b; by rewrite HS).
    split; [by eapply node_list_lists|]. split; [done|]. split; [intros b Hb%Hin; by apply (block_facts ic _ recs Hdb)|].
    intros A f1 f2 a. unfold walk. rewrite Hv. destruct (fold_res _ _ a) as [a1|]; [|by exists r].
    cbn [mbind res_bind fst snd]. rewrite Ej. destruct (db_size _ _ _ Hdb) as [Hsz _]. pose proof (rtotal_nonneg recs).
    assert (Hz : (length (file (base r)) =? 0)%nat = false) by (apply Nat.eqb_neq; unfold start in Hsz; consts; lia). rewrite Hz.
    unfold callForAllEntryExt. rewrite Hst.
    assert (HSl : length S = length recs) by (rewrite HS; apply place_length).
    apply (ext_loop ic r off h C recs); try done; [rewrite HSl; change sizeof_slot with 8 in Hsz; lia|].
    pose proof (length_rtotal recs). unfold start in Hsz. consts. lia.
Qed.

(** ** The entries a walk meets *)

Definition live_entries (L : list rnode) : list (list Z * list Z) := omap (λ n, pair (n_key n) <$> n_val n) L.
Definition old_entries (ic : bool) (C : cache) (l : list (list Z * list Z)) : list (list Z * list Z) :=
  filter (λ r, C !! canon ic r.1 = None) l.

(** Functions that add the entry they get to what was built from the entries before. *)
Lemma fold_entries {A : Type} (ic : bool) (C : cache) (m : list Z) (L : list rnode) (S : list block) (f1 : list Z → list Z → A → res A) (f2 : list Z → Z → A → res A)
    (Inv : list (list Z * list Z) → A → Prop) (a : A) :
  let all := live_entries L ++ old_entries ic C (map snd S) in
  (∀ b, b ∈ S → stored m b) →
  (∀ rs x rest a, all = rs ++ x :: rest → Inv rs a → ∃ a', f1 x.1 x.2 a = Ok a' ∧ Inv (rs ++ [x]) a') →
  (∀ rs b rest a, all = rs ++ b.2 :: rest → stored m b → Inv rs a → ∃ a', f2 m b.1 a = Ok a' ∧ Inv (rs ++ [b.2]) a') →
  Inv [] a →
  ∃ a', (a' ← fold_res (live_node f1) L a; fold_res (absent_block ic f2 m C) S a') = Ok a' ∧ Inv all a'.
Proof.
  intros all Hst H1 H2 HI.
  assert (HL : ∀ L2 rs a, all = rs ++ live_entries L2 ++ old_entries ic C (map snd S) → Inv rs a →
    ∃ a', fold_res (live_node f1) L2 a = Ok a' ∧ Inv (rs ++ live_entries L2) a').
  { induction L2 as [|n L2 IH]; intros rs a0 E Hi; [exists a0; by rewrite app_nil_r|]. cbn [fold_res].
    assert (Eu : live_node f1 n a0 = match n_val n with Some d => f1 (n_key n) d a0 | None => Ok a0 end) by done. rewrite Eu.
    unfold live_entries in *. cbn [omap list_omap] in *. destruct (n_val n) as [d|]; cbn [fmap option_fmap option_map] in *.
    - destruct (H1 rs (n_key n, d) _ a0 E Hi) as (a1 & E1 & Hi1). cbn [fst snd] in E1. rewrite E1. cbn [mbind res_bind].
      destruct (IH (rs ++ [(n_key n, d)]) a1) as (a2 & E2 & Hi2); [by rewrite <-app_assoc|done|]. exists a2. split; [done|].
      by rewrite <-app_assoc in Hi2.
    - by apply IH. }
  assert (HS : ∀ S2 rs a, all = rs ++ old_entries ic C (map snd S2) → (∀ b, b ∈ S2 → stored m b) → Inv rs a →
    ∃ a', fold_res (absent_block ic f2 m C) S2 a = Ok a' ∧ Inv (rs ++ old_entries ic C (map snd S2)) a').
  { induction S2 as [|b S2 IH]; intros rs a0 E Hs Hi; [exists a0; by rewrite app_nil_r|]. cbn [fold_res map].
    assert (Eu : absent_block ic f2 m C b a0 = if C !! canon ic b.2.1 is Some _ then Ok a0 else f2 m b.1 a0) by done. rewrite Eu.
    unfold old_entries in *. cbn [map] in E. rewrite filter_cons in E. rewrite filter_cons.
    assert (Hs' : ∀ b, b ∈ S2 → stored m b) by (intros b' Hb'; apply Hs; by right).
    destruct (C !! canon ic b.2.1) as [v|] eqn:E0.
    - rewrite decide_False in E |- * by done. by apply IH.
    - rewrite decide_True in E |- * by done. destruct (H2 rs b _ a0 E (Hs b ltac:(by left)) Hi) as (a1 & E1 & Hi1).
      rewrite E1. cbn [mbind res_bind]. destruct (IH (rs ++ [b.2]) a1) as (a2 & E2 & Hi2); [by rewrite <-app_assoc|done|done|].
      exists a2. split; [done|]. by rewrite <-app_assoc in Hi2. }
  destruct (HL L [] a eq_refl HI) as (a1 & E1 & Hi1). rewrite E1. cbn [mbind res_bind app].
  by apply (HS S (live_entries L) a1).
Qed.

(** What a key stands for is what the entries hold for it. *)
Definition disk_map (ic : bool) (recs : list (list Z * list Z)) : gmap (list Z) (list Z) :=
  list_to_map (map (λ r, (canon ic r.1, r.2)) recs).

(** The data of the journal over those of the records. *)
Definition over (C : cache) (D : gmap (list Z) (list Z)) : gmap (list Z) (list Z) :=
  merge (λ v d, match v with Some v => v | None => d end) C D.

Lemma lookup_over C D k : over C D !! k = match C !! k with Some v => v | None => D !! k end.
Proof. unfold over. rewrite lookup_merge. by destruct (C !! k), (D !! k). Qed.

Lemma disk_values ic recs k : disk_map ic recs !! canon ic k = head (values ic k recs).
Proof.
  unfold disk_map, values. induction recs as [|r recs IH]; [done|]. cbn [map list_to_map foldr fst snd uncurry]. rewrite filter_cons.
  destruct (decide (canon ic r.1 = canon ic k)) as [->|Hne]; [by rewrite lookup_insert_eq|]. by rewrite lookup_insert_ne.
Qed.

Lemma view_over ic recs C k : view ic recs C k = over C (disk_map ic recs) !! canon ic k.
Proof. rewrite lookup_over, disk_values. done. Qed.

Definition distinct (ic : bool) (recs : list (list Z * list Z)) : Prop := NoDup (map (λ r, canon ic r.1) recs).

Lemma disk_elem ic recs ck d : distinct ic recs → disk_map ic recs !! ck = Some d ↔ ∃ r, r ∈ recs ∧ canon ic r.1 = ck ∧ r.2 = d.
Proof.
  intros Hd. unfold disk_map. rewrite <-elem_of_list_to_map.
  - rewrite list_elem_of_fmap. split; [intros (r & [= -> ->] & Hr); by exists r|intros (r & Hr & <- & <-); by exists r].
  - assert (E : (map (λ r, (canon ic r.1, r.2)) recs).*1 = map (λ r, canon ic r.1) recs); [|by rewrite E].
    by rewrite map_map.
Qed.

Lemma size_disk ic recs : distinct ic recs → stdpp.base.size (disk_map ic recs) = length recs.
Proof.
  intros Hd. unfold disk_map. rewrite map_size_list_to_map; [by rewrite length_map|].
  assert (E : (map (λ r, (canon ic r.1, r.2)) recs).*1 = map (λ r, canon ic r.1) recs); [|by rewrite E]. by rewrite map_map.
Qed.

(** ** The merged entries *)

Section Merged.
Context (ic : bool) (C : cache) (off : Z) (L : list rnode) (S : list block) (recs : list (list Z * list Z)).
Context (HL : lists ic C off L) (HS : S ≡ₚ Cdb.place start recs) (Hd : distinct ic recs) (Hk : Forall (λ r, key_good ic r.1) recs).

Definition merged : list (list Z * list Z) := live_entries L ++ old_entries ic C (map snd S).

Lemma records_perm : map snd S ≡ₚ recs.
Proof. rewrite HS. by rewrite place_records. Qed.

Lemma live_entry x : x ∈ live_entries L ↔ ∃ n, n ∈ L ∧ n_val n = Some x.2 ∧ n_key n = x.1.
Proof.
  unfold live_entries. rewrite list_elem_of_omap. split.
  - intros (n & Hn & E). destruct (n_val n) as [d|] eqn:Ev; [|done]. injection E as <-. by exists n.
  - intros (n & Hn & Ev & Ek). exists n. split; [done|]. rewrite Ev, Ek. by destruct x.
Qed.

Lemma old_elem x : x ∈ old_entries ic C (map snd S) ↔ x ∈ recs ∧ C !! canon ic x.1 = None.
Proof. unfold old_entries. rewrite list_elem_of_filter, records_perm. tauto. Qed.

Lemma merged_distinct : distinct ic merged.
Proof.
  unfold distinct, merged. rewrite map_app. apply NoDup_app. split; [|split].
  - assert (H := ls_keys _ _ _ _ HL). clear -H. induction L as [|n l IH]; [constructor|]. cbn [map] in H. apply NoDup_cons in H as [Hn H].
    unfold live_entries in *. cbn [omap list_omap]. destruct (n_val n) as [d|]; cbn [fmap option_fmap option_map]; [|by apply IH].
    cbn [map]. apply NoDup_cons. split; [|by apply IH]. intros Hin. apply Hn.
    apply list_elem_of_fmap in Hin as (x & E & (n' & Hn' & Ex)%list_elem_of_omap). simpl in E. rewrite E.
    destruct (n_val n'); [|done]. injection Ex as <-. by apply (list_elem_of_fmap_2 (λ n, canon ic (n_key n))).
  - intros ck (x & -> & (n & Hn & Ev & Ek)%live_entry)%list_elem_of_fmap (y & E & [_ Hy]%old_elem)%list_elem_of_fmap. simpl in E.
    rewrite <-E in Hy. assert (Hc : C !! canon ic x.1 = Some (n_val n)) by (apply (ls_cache _ _ _ _ HL); exists n; by rewrite Ek).
    congruence.
  - unfold old_entries. assert (Hd' : NoDup (map (λ r, canon ic r.1) (map snd S))) by by rewrite records_perm. clear -Hd'.
    induction (map snd S) as [|r l IH]; [constructor|]. cbn [map] in Hd'. apply NoDup_cons in Hd' as [Hn Hd']. rewrite filter_cons.
    destruct (decide _); [|by apply IH]. cbn [map]. apply NoDup_cons. split; [|by apply IH].
    intros (x & E & [_ Hx]%list_elem_of_filter)%list_elem_of_fmap. apply Hn. rewrite E. by apply (list_elem_of_fmap_2 (λ r, canon ic r.1)).
Qed.

Lemma merged_map : disk_map ic merged = over C (disk_map ic recs).
Proof.
  apply map_eq. intros ck. rewrite lookup_over. apply option_eq. intros d. rewrite disk_elem by apply merged_distinct.
  unfold merged. split.
  - intros (x & Hx & <- & <-). apply elem_of_app in Hx as [(n & Hn & Ev & Ek)%live_entry|[Hx E]%old_elem].
    + assert (Hc : C !! canon ic x.1 = Some (n_val n)) by (apply (ls_cache _ _ _ _ HL); exists n; by rewrite Ek). by rewrite Hc.
    + rewrite E. apply disk_elem; [done|]. by exists x.
  - destruct (C !! ck) as [v|] eqn:E.
    + intros ->. apply (ls_cache _ _ _ _ HL) in E as (n & Hn & Ek & Ev). exists (n_key n, d). split; [|done].
      apply elem_of_app. left. apply live_entry. by exists n.
    + intros (x & Hx & Ek & Ed)%disk_elem; [|done]. exists x. split; [|done]. apply elem_of_app. right. apply old_elem. by rewrite Ek.
Qed.

Lemma merged_good : Forall (λ r, key_good ic r.1) merged.
Proof.
  apply Forall_forall. intros x Hx. apply elem_of_app in Hx as [(n & Hn & _ & <-)%live_entry|[Hx _]%old_elem].
  - assert (H := ls_good _ _ _ _ HL). rewrite Forall_forall in H. by apply H.
  - rewrite Forall_forall in Hk. by apply Hk.
Qed.

Lemma merged_size : rtotal merged + 8 * Z.of_nat (length merged) <= off - sizeof_struct + rtotal recs + 8 * Z.of_nat (length recs).
Proof.
  unfold merged. rewrite rtotal_app, length_app. assert (H1 := ls_used _ _ _ _ HL).
  assert (H2 : rtotal (live_entries L) + 8 * Z.of_nat (length (live_entries L)) <= foldr (λ n z, entry_size n + z) 0 L).
  { clear. induction L as [|n l IH]; [done|]. unfold live_entries in *. cbn [omap list_omap foldr]. pose proof (entry_size_ge n).
    unfold entry_size in *. destruct (n_val n) as [d|]; cbn [fmap option_fmap option_map]; [|lia].
    cbn [rtotal foldr length]. unfold rlen at 1. cbn [fst snd]. unfold rtotal in IH. rconsts. lia. }
  assert (H3 : ∀ l l' : list (list Z * list Z), l ≡ₚ l' → rtotal l = rtotal l').
  { induction 1; unfold rtotal in *; cbn [foldr] in *; lia. }
  assert (H4 : ∀ l, rtotal (old_entries ic C l) + 8 * Z.of_nat (length (old_entries ic C l)) <= rtotal l + 8 * Z.of_nat (length l)).
  { clear. induction l as [|r l IH]; [done|]. unfold old_entries in *. rewrite filter_cons. pose proof (rlen_ge r).
    unfold rtotal in *. destruct (decide _); cbn [foldr length]; lia. }
  specialize (H4 (map snd S)). rewrite (H3 _ _ records_perm), (Permutation_length records_perm) in H4. lia.
Qed.
End Merged.

(** ** Reorganizing *)

(** A database of [sz] bytes that is being made: what is behind the last record is zero. *)
Record built (ic : bool) (sz : nat) (recs : list (list Z * list Z)) (c : cdb) : Prop := {
  bt_same : same_out (replicate sz 0) (file c) start (hr c);
  bt_hr : hr c = start + rtotal recs;
  bt_count : nrecord c = Z.of_nat (length recs);
  bt_case : ignore_case c = ic;
  bt_stored : Forall (stored (file c)) (Cdb.place start recs) }.

Lemma same_out_weaken m m1 m2 lo p hi : same_out m m1 lo p → same_out m1 m2 p hi → lo <= p → p <= hi → same_out m m2 lo hi.
Proof.
  intros H1 H2 Hl Hh. eapply same_out_trans; [eapply same_out_widen; [exact H1|lia|lia]|eapply same_out_widen; [exact H2|lia|lia]].
Qed.

Lemma built_step ic sz recs r c m : built ic sz recs c → Z.of_nat sz < 2 ^ 32 → start + rtotal recs + rlen r <= Z.of_nat sz →
  same_out (file c) m (hr c) (hr c + rlen r) → stored m (hr c, r) →
  built ic sz (recs ++ [r]) (Cdb m (u32 (nrecord c + 1)) (start_hash_table_slot c) (ignore_case c) (hr c + rlen r) (cur c)).
Proof.
  intros [Hs Hh Hn Hi Hst] Hsz Hroom Hm Hr. pose proof (rtotal_nonneg recs). pose proof (length_rtotal recs). pose proof (rlen_ge r).
  split; cbn [file hr nrecord ignore_case].
  - eapply same_out_weaken; [exact Hs|exact Hm|unfold start in *; consts; lia|lia].
  - rewrite rtotal_app. cbn [rtotal foldr]. lia.
  - rewrite Hn, length_app. cbn [length]. rewrite u32_small; [lia|]. unfold start in *. consts. lia.
  - done.
  - rewrite place_records_app. apply Forall_app_2; [|rewrite <-Hh; by constructor].
    eapply stored_outside; [exact Hm|left; lia|done].
Qed.

Lemma built_length ic sz recs c : built ic sz recs c → length (file c) = sz.
Proof. intros [[Hl _] _ _ _ _]. by rewrite length_replicate in Hl. Qed.

Lemma built_add ic sz recs r c : built ic sz recs c → Z.of_nat sz < 2 ^ 32 → start + rtotal recs + rlen r <= Z.of_nat sz →
  ∃ c', makeAdd r.1 r.2 c = Ok c' ∧ built ic sz (recs ++ [r]) c'.
Proof.
  intros Hb Hsz Hroom. assert (Hl := built_length _ _ _ _ Hb). assert (Hh := bt_hr _ _ _ _ Hb).
  pose proof (rtotal_nonneg recs). pose proof (rlen_ge r). destruct r as [k d]. cbn [fst snd].
  destruct (put_record_ok (file c) (hr c) k d) as (m & E & Hm & Hst); [unfold start in *; consts; lia|lia|lia|].
  unfold makeAdd. rewrite E. cbn [mbind res_bind]. eexists. split; [done|].
  replace (hr c + sizeof_header + Z.of_nat (length k) + Z.of_nat (length d)) with (hr c + rlen (k, d)) by (unfold rlen; simpl; lia).
  by apply built_step.
Qed.

(** A record copied from another database. *)
Lemma stored_copy src p m q m' r bs : stored src (p, r) → mrd src p (rlen r) = Ok bs → mwr m q bs = Ok m' → stored m' (q, r).
Proof.
  intros (_ & _ & S2 & S3 & S4 & S5 & S6 & S7) Hb Hm. pose proof (mrd_mwr_same _ _ _ _ Hm) as Hq.
  pose proof (mrd_inv _ _ _ _ Hb) as (_ & _ & _ & _ & Hl). rewrite Hl in Hq. pose proof (rlen_ge r).
  assert (Hsub : ∀ j n, 0 <= j → 0 <= n → j + n <= rlen r → mrd m' (q + j) n = mrd src (p + j) n).
  { intros j n Hj Hn Hjn. by rewrite (mrd_sub _ _ _ _ j n Hq), (mrd_sub _ _ _ _ j n Hb). }
  pose proof (mrd_inv _ _ _ _ Hq) as (Hq0 & _ & Hq1 & _ & _). unfold stored. cbn [fst snd] in *. unfold rlen in *. consts.
  assert (H0 := Hsub 0 4 ltac:(lia) ltac:(lia) ltac:(lia)). rewrite !Z.add_0_r in H0.
  unfold get4 in *. rewrite H0, Hsub by lia. rewrite Hsub by lia. rewrite <-(Z.add_assoc q 8), Hsub by lia.
  rewrite (Z.add_assoc p). splits; (done || lia).
Qed.

Lemma built_copy ic sz recs src b c : built ic sz recs c → stored src b → Z.of_nat sz < 2 ^ 32 →
  start + rtotal recs + rlen b.2 <= Z.of_nat sz → ∃ c', makeAdd_src src b.1 c = Ok c' ∧ built ic sz (recs ++ [b.2]) c'.
Proof.
  intros Hb Hst Hsz Hroom. assert (Hl := built_length _ _ _ _ Hb). assert (Hh := bt_hr _ _ _ _ Hb).
  pose proof (rtotal_nonneg recs). pose proof (rlen_ge b.2). destruct b as [p r]. cbn [fst snd] in *.
  pose proof Hst as (S0 & S1 & S2 & S3 & S4 & S5 & _). cbn [fst snd] in *. unfold makeAdd_src. rewrite S4. cbn [mbind res_bind].
  rewrite S5. cbn [mbind res_bind]. fold (rlen r). rewrite (u32_small (rlen r)) by (unfold start in *; consts; lia).
  rewrite (mrd_ok src p (rlen r)) by lia. cbn [mbind res_bind]. set (bs := take _ _).
  assert (Hbs : mrd src p (rlen r) = Ok bs) by by apply mrd_ok; lia.
  pose proof (mrd_inv _ _ _ _ Hbs) as (_ & _ & _ & _ & Hlb).
  destruct (mwr_ok (file c) (hr c) bs) as (m & E & _); [unfold start in *; consts; lia|lia|]. rewrite E. cbn [mbind res_bind].
  eexists. split; [done|]. apply mwr_same_out in E as Hm. rewrite Hlb in Hm. apply built_step; try done. by eapply stored_copy.
Qed.

Lemma makeFinish_slot b c c' pos : makeFinish b c = Ok (c', pos) → 0 <= hr c < 2 ^ 32 → start_hash_table_slot c' = hr c.
Proof.
  intros H Hh. unfold makeFinish in H. rewrite u32_small in H by done. cbn [nrecord file ignore_case hr cur] in H.
  destruct (0 <? nrecord c); [|by injection H as <- _].
  repeat (match type of H with context [?x ≫= _] => destruct x as [?|] eqn:?; [|done] end; cbn [mbind res_bind] in H;
    repeat match type of H with context [let '(_, _) := ?p in _] => destruct p end).
  by injection H as <- _.
Qed.

(** A database that was built is finished. *)
Lemma built_finish ic sz recs c : built ic sz recs c → Z.of_nat sz < 2 ^ 32 → Forall (λ r, key_good ic r.1) recs →
  start + rtotal recs + 8 * Z.of_nat (length recs) <= Z.of_nat sz →
  ∃ c' pos, makeFinish false c = Ok (c', pos) ∧ Z.of_nat (length (take (Z.to_nat pos) (file c'))) <= start + rtotal recs + 8 * Z.of_nat (length recs) ∧
    ∀ hr k, base_ok ic (Cdb (take (Z.to_nat pos) (file c')) (nrecord c') (start_hash_table_slot c') ic hr k) recs.
Proof.
  intros Hb Hsz Hk Hroom. assert (Hl := built_length _ _ _ _ Hb). destruct Hb as [Hs Hh Hn Hi Hst].
  pose proof (rtotal_nonneg recs). assert (Hhr : 0 <= hr c < 2 ^ 32) by (unfold start in *; consts; lia).
  assert (Hzero : ∀ q n, q + n <= start ∨ hr c <= q → 0 <= q → 0 <= n → q + n <= Z.of_nat sz → mrd (file c) q n = Ok (replicate (Z.to_nat n) 0)).
  { intros q n Hq Hq0 Hn0 Hqn. destruct Hs as [_ Hs]. rewrite Hs by lia. rewrite mrd_ok by (rewrite ?length_replicate; lia).
    rewrite drop_replicate, take_replicate. do 2 f_equal. lia. }
  destruct (decide (recs = [])) as [->|Hne].
  - exists (Cdb (file c) 0 (hr c) ic (hr c) (cur c)), (hr c). unfold makeFinish. rewrite u32_small by done. cbn [nrecord].
    rewrite Hn, Hi. cbn [length]. split; [done|]. cbn [file nrecord start_hash_table_slot rtotal foldr] in *.
    assert (Hhs : hr c = start) by (unfold start in *; lia). rewrite Hhs in *. cbn [length] in *.
    split; [rewrite length_take, Hl; lia|]. intros p k. split; [done|]. split; [done|]. cbn [file].
    split; [rewrite length_take, Hl; lia|]. left. split; [done|]. right. split; [|done].
    assert (H0 := Hzero 0 start ltac:(lia) ltac:(lia) ltac:(done) ltac:(lia)).
    apply mrd_inv in H0 as (_ & _ & _ & H0 & _). by rewrite H0.
  - destruct (makeFinish_ok ic false recs c) as (c' & pos & E & Hpos & Hle & Hic & Hn' & Hdb); try done.
    { change sizeof_slot with 8. lia. } { lia. }
    { eapply Forall_impl; [exact Hk|]. by intros r [? _]. }
    { intros _. change sizeof_slot with 8. apply Hzero; lia. }
    exists c', pos. split; [done|]. change sizeof_slot with 8 in Hpos. split; [rewrite length_take; lia|].
    intros p k. split; [done|]. cbn [nrecord file start_hash_table_slot]. split; [by rewrite Hn'|].
    split; [apply (db_size _ _ _ Hdb)|]. right. split; [done|]. split; [done|]. rewrite <-Hh. by apply makeFinish_slot in E.
Qed.

Definition empty_heap : heap := Heap (λ _, 0) ∅.

Lemma empty_heap_ok ic : heap_ok ic empty_heap ∧ cache_rep ic empty_heap ∅.
Proof.
  split; [split|split]; try done; try by intros.
  - intros s v Hs Hv. destruct s; cbn in Hs; [|done..]. destruct (_ && _); [|done]. injection Hs as <-. done.
Qed.

Lemma reset_ok ic r : sizeof_struct + sizeof_node <= Z.of_nat (length (journal r)) → Z.of_nat (length (journal r)) < 2 ^ 31 →
  ∃ m', reset r = Ok (set_journal m' r) ∧ journal_ok ic m' sizeof_struct ∅ ∧ room m' sizeof_struct ∧ get4 m' RDB_nrecord = Ok 0.
Proof.
  intros Hl Hl'. unfold reset, RDB_off, RDB_sync, RDB_nrecord, RDB_hashtab in *. change sizeof_struct with 3092 in *. change sizeof_node with 24 in *.
  destruct (put4_ok (journal r) 0 3092) as (m1 & E1 & L1); [lia..|]. rewrite E1. cbn [mbind res_bind].
  destruct (put4_ok m1 4 0) as (m2 & E2 & L2); [lia..|]. rewrite E2. cbn [mbind res_bind].
  destruct (put4_ok m2 8 0) as (m3 & E3 & L3); [lia..|]. rewrite E3. cbn [mbind res_bind].
  change (CACHE_HASHTAB_LEN * 4) with 3076. destruct (clear_ok m3 16 3076) as (m4 & E4 & S4); [lia..|]. rewrite E4. cbn [mbind res_bind].
  exists m4. split; [done|]. assert (L4 : length m4 = length m3) by apply S4. split; [|split; [unfold room; rconsts; lia|]].
  - exists empty_heap. destruct (empty_heap_ok ic) as [H1 H2]. split; [done|]. split; [|done]. split.
    + rconsts. lia.
    + unfold RDB_off. rewrite (get4_same_out _ _ _ _ _ S4) by lia. rewrite (get4_put4_ne _ _ _ _ _ E3), (get4_put4_ne _ _ _ _ _ E2) by lia.
      by apply (get4_put4 _ _ _ _ E1).
    + intros [i|p|p] v Hv; cbn in Hv; [|done..]. destruct (Z.leb_spec 0 i), (Z.ltb_spec i CACHE_HASHTAB_LEN); cbn [andb] in Hv; try done.
      injection Hv as <-. cbn [addr]. eapply get4_clear; [exact E4|rconsts; lia..].
    + by intros p [? ?].
    + by intros p q [? ?].
    + done.
    + done.
    + cbn. rewrite map_to_list_empty. done.
  - rewrite (get4_same_out _ _ _ _ _ S4) by lia. by apply (get4_put4 _ _ _ _ E3).
Qed.

(** An unused journal has no entries. *)
Lemma journal_empty ic m C : journal_ok ic m sizeof_struct C → C = ∅.
Proof.
  intros (h & Hh & Hr & [_ H2]). apply map_eq. intros ck. rewrite lookup_empty. destruct (C !! ck) as [v|] eqn:E; [|done].
  destruct (H2 _ _ E) as (p & n & Hp & _). destruct (rep_range _ _ _ Hr p) as [Hp1 Hp2]; [by eexists|]. rconsts. lia.
Qed.

(** The journal goes into a new constant database with the same contents. *)
Lemma reorganize_ok e ic r off recs C N : (∀ n, creat e n = true) → opened ic r off recs C N →
  distinct ic recs → Forall (λ x, key_good ic x.1) recs → Z.of_nat (length (file (base r))) < 2 ^ 30 →
  ∃ r', reorganize e r = Ok (r', true) ∧
    (off = sizeof_struct ∧ r' = r ∨
     ∃ recs', opened ic r' sizeof_struct recs' ∅ 0 ∧ distinct ic recs' ∧ Forall (λ x, key_good ic x.1) recs' ∧
       disk_map ic recs' = over C (disk_map ic recs) ∧
       Z.of_nat (length (file (base r'))) <= Z.max start (Z.of_nat (length (file (base r)))) + (off - sizeof_struct)).
Proof.
  intros Hcr Ho Hd Hk Hfl. assert (Ho' := Ho). destruct Ho' as [Hb (h & Hh & Hr & HC) Hroom Hcnt].
  unfold reorganize. rewrite (rep_off _ _ _ Hr). cbn [mbind res_bind]. destruct (rep_head _ _ _ Hr) as [[Ho1 Ho2] Hl31].
  destruct (Z.ltb_spec sizeof_struct off) as [Hlt|Hge]; [|exists r; split; [done|left; split; [lia|done]]].
  rewrite Hcr. cbn [negb]. change (sizeFor 4096) with 69632. set (sz := Z.to_nat _).
  assert (Hsz : Z.of_nat sz = Z.of_nat (length (file (base r))) + Z.of_nat (length (journal r)) + 69632) by lia.
  destruct (walk_ok ic r off recs C N Ho Hk) as (L & S & HL & HS & Hst & Hwalk).
  pose proof (merged_size ic C off L S recs HL HS) as Hms. pose proof (rtotal_nonneg recs).
  assert (Hbs : rtotal recs + 8 * Z.of_nat (length recs) <= Z.max start (Z.of_nat (length (file (base r)))) - start).
  { destruct Hb as (_ & _ & _ & [[-> _]|(_ & Hdb & _)]); [cbn; lia|]. destruct (db_size _ _ _ Hdb) as [Hx _].
    change sizeof_slot with 8 in Hx. lia. }
  set (all := merged ic C L S) in *. set (c0 := makeStart _).
  assert (Hsplit : ∀ rs x rest, all = rs ++ x :: rest → start + rtotal rs + rlen x <= Z.of_nat sz).
  { intros rs x rest Ea. pose proof (f_equal rtotal Ea) as Et. rewrite rtotal_app in Et. unfold rtotal at 3 in Et. cbn [foldr] in Et.
    fold (rtotal rest) in Et. pose proof (rtotal_nonneg rest). unfold start in *. rconsts. consts. lia. }
  destruct (fold_entries ic C (file (base r)) L S makeAdd makeAdd_src (built ic sz) c0) as (c1 & E1 & Hb1).
  { done. }
  { intros rs x rest a Ea Hi. apply built_add; [done|lia|by eapply Hsplit]. }
  { intros rs b rest a Ea Hs Hi. apply built_copy; [done|done|lia|by eapply Hsplit]. }
  { split; cbn; try done. apply Hb. }
  fold all in Hb1. destruct (Hwalk _ makeAdd makeAdd_src c0) as (r' & [Hsame Hj] & Ew).
  assert (Ew' : walk makeAdd makeAdd_src r c0 = Ok (r', c1)).
  { rewrite Ew. revert E1. destruct (fold_res (live_node makeAdd) L c0) as [a|]; [|done]. cbn [mbind res_bind]. by intros ->. }
  rewrite Ew'. cbn [mbind res_bind fst snd].
  destruct (built_finish ic sz all c1 Hb1) as (c2 & pos & E2 & Hlen & Hok); [lia|by eapply merged_good|unfold start in *; rconsts; consts; lia|].
  rewrite E2. cbn [mbind res_bind fst snd]. unfold room in Hroom.
  destruct (reset_ok ic r') as (m' & E3 & Hj' & Hroom' & Hc'); [rewrite Hj; lia|by rewrite Hj|]. rewrite E3. cbn [mbind res_bind].
  eexists. split; [done|]. right. exists all. cbn [base set_base set_journal journal].
  split; [|split; [by apply (merged_distinct ic C off L S recs)|split; [by eapply merged_good|split; [by apply (merged_map ic C off L S recs)|cbn [file]; lia]]]].
  split; try done. cbn [base set_base]. destruct Hsame as (_ & _ & _ & Hic). destruct Hb as (Hic' & _). rewrite Hic, Hic'. apply Hok.
Qed.
