(* ===== verification/RdbSpec.v ===== *)
(** * Record databases: the specification and its refinement

    What a record database promises: a map from keys to data with transactions, independent of the journal,
    the hash tree and the constant database below it. *)

From stdpp Require Import gmap.
From S2P Require Import Prelude CType Memory Hash Strptime HashMap Sort Cdb CdbFacts Rdb RdbHeap RdbFacts RdbSubst RdbWalk.

(** What is on the disk, what is seen, and the keys removed since the journal was emptied. *)
Record spec := Spec {
  s_disk : gmap (list Z) (list Z); s_map : gmap (list Z) (list Z); s_gone : gset (list Z) }.

Inductive op :=
  | Fetch (k : list Z)
  | Store (k d : list Z) (flag : Z)
  | Remove (k : list Z)
  | Substitute (k k2 d : list Z) (flag : Z)
  | Size
  | Begin
  | Commit
  | Abort.

Inductive answer := Found (d : list Z) | Missing | Code (x : Z) | Number (n : Z) | Flag (b : bool).

#[global] Instance answer_eq_dec : EqDecision answer.
Proof. solve_decision. Defined.

(** The calls. *)
Definition run_op (e : env) (o : op) (r : rdb) : res (rdb * answer) :=
  match o with
  | Fetch k => f ← fetch (set_rkey (User k) r); if f.2 : bool then d ← datum_bytes f.1 (rdata f.1); Ok (f.1, Found d) else Ok (f.1, Missing)
  | Store k d flag => s ← store_key e k d flag r; Ok (s.1, Code s.2)
  | Remove k => s ← remove_key e k r; Ok (s.1, Code s.2)
  | Substitute k k2 d flag => s ← substitute_key e k k2 d flag r; Ok (s.1, Code s.2)
  | Size => n ← size r; Ok (r, Number n)
  | Begin => b ← beginTransaction e r; Ok (b.1, Flag b.2)
  | Commit => r ← commitTransaction r; Ok (r, Flag true)
  | Abort => r ← abortTransaction r; Ok (r, Flag true)
  end.

Fixpoint run (e : env) (ops : list op) (r : rdb) : res (rdb * list answer) :=
  match ops with
  | [] => Ok (r, [])
  | o :: ops => x ← run_op e o r; y ← run e ops x.1; Ok (y.1, x.2 :: y.2)
  end.

Definition spec_op (ic : bool) (o : op) (s : spec) : spec * answer :=
  match o with
  | Fetch k => (s, match s_map s !! canon ic k with Some d => Found d | None => Missing end)
  | Store k d flag =>
      let put := Spec (s_disk s) (<[canon ic k := d]> (s_map s)) (s_gone s ∖ {[canon ic k]}) in
      match s_map s !! canon ic k with
      | Some d0 =>
          if flag =? RDB_INSERT then (s, Code (-1))
          else if (flag =? RDB_REPLACE) && bool_decide (d0 = d) then (s, Code 0) else (put, Code 0)
      | None => (put, Code 0)
      end
  | Remove k =>
      match s_map s !! canon ic k with
      | Some _ => (Spec (s_disk s) (delete (canon ic k) (s_map s)) ({[canon ic k]} ∪ s_gone s), Code 0)
      | None => (s, Code (if decide (canon ic k ∈ s_gone s) then -2 else -1))
      end
  | Substitute k k2 d flag =>
      match s_map s !! canon ic k with
      | Some _ =>
          if (if s_map s !! canon ic k2 is Some _ then flag =? RDB_INSERT else false) then (s, Code (-4))
          else (Spec (s_disk s) (delete (canon ic k) (<[canon ic k2 := d]> (s_map s)))
                  ({[canon ic k]} ∪ s_gone s ∖ {[canon ic k2]}), Code 0)
      | None => (s, Code (if decide (canon ic k ∈ s_gone s) then -2 else -1))
      end
  | Size => (s, Number (Z.of_nat (stdpp.base.size (s_map s))))
  | Begin => (Spec (s_map s) (s_map s) ∅, Flag true)
  | Commit => (s, Flag true)
  | Abort => (Spec (s_disk s) (s_disk s) ∅, Flag true)
  end.

Fixpoint spec_run (ic : bool) (ops : list op) (s : spec) : list answer :=
  match ops with [] => [] | o :: ops => let x := spec_op ic o s in x.2 :: spec_run ic ops x.1 end.

Fixpoint spec_final (ic : bool) (ops : list op) (s : spec) : spec :=
  match ops with [] => s | o :: ops => spec_final ic ops (spec_op ic o s).1 end.

(** The calls after which the program's count of the entries is wrong: a key that was removed is stored
    again, or a key is replaced by one that is there. *)
Definition miscounts (ic : bool) (o : op) (s : spec) : bool :=
  match o with
  | Store k _ _ => bool_decide (canon ic k ∈ s_gone s)
  | Substitute k k2 _ _ =>
      match s_map s !! canon ic k, s_map s !! canon ic k2 with Some _, Some _ => true | _, _ => false end
  | _ => false
  end.

(** The count is right at the end: no such call since the journal was last emptied. *)
Definition count_after (ic : bool) (o : op) (s : spec) (exact : bool) : bool :=
  match o with Begin | Abort => true | _ => exact && negb (miscounts ic o s) end.

Fixpoint count_exact (ic : bool) (ops : list op) (s : spec) (exact : bool) : bool :=
  match ops with [] => exact | o :: ops => count_exact ic ops (spec_op ic o s).1 (count_after ic o s exact) end.

(** [size] is asked for only where the count is right. *)
Fixpoint sizes_ok (ic : bool) (ops : list op) (s : spec) (exact : bool) : bool :=
  match ops with
  | [] => true
  | o :: ops => (if o is Size then exact else true) && sizes_ok ic ops (spec_op ic o s).1 (count_after ic o s exact)
  end.

(** The keys of a call, and how much of the journal it may use. *)
Definition op_ok (ic : bool) (o : op) : Prop :=
  match o with
  | Fetch k | Store k _ _ | Remove k => key_good ic k
  | Substitute k k2 _ _ => key_good ic k ∧ key_good ic k2 ∧ apart_keys ic k k2
  | _ => True
  end.

Definition op_cost (o : op) : Z :=
  match o with
  | Store k d _ => 32 + Z.of_nat (length k) + Z.of_nat (length d)
  | Remove k => 32 + Z.of_nat (length k)
  | Substitute k k2 d _ => 64 + Z.of_nat (length k) + Z.of_nat (length k2) + Z.of_nat (length d)
  | _ => 0
  end.

Definition cost (ops : list op) : Z := foldr (λ o n, op_cost o + n) 0 ops.

Section Refinement.
Context (ic : bool) (e : env) (Hg : ∀ n, grow e n = true) (Hc : ∀ n, creat e n = true).

(** The journal and the constant database together use at most [B] bytes. *)
Definition refines (r : rdb) (s : spec) (exact : bool) (B : Z) : Prop :=
  ∃ off recs C N, opened ic r off recs C N ∧ distinct ic recs ∧ Forall (λ x, key_good ic x.1) recs ∧
    s_disk s = disk_map ic recs ∧ s_map s = over C (disk_map ic recs) ∧ (∀ ck, ck ∈ s_gone s ↔ C !! ck = Some None) ∧
    (exact = true → u32 (Z.of_nat (length recs) + N) = Z.of_nat (stdpp.base.size (s_map s))) ∧ (C = ∅ → N = 0) ∧
    8 * Z.of_nat (stdpp.base.size (s_map s)) <= B ∧
    start + rtotal recs + 8 * Z.of_nat (length recs) + off <= B.

Definition step_ok (o : op) : Prop := ∀ r s exact B, refines r s exact B → op_ok ic o →
  (if o is Size then exact else true) = true → B + op_cost o + 48 <= 2 ^ 30 →
  ∃ r', run_op e o r = Ok (r', (spec_op ic o s).2) ∧ refines r' (spec_op ic o s).1 (count_after ic o s exact) (B + op_cost o).

Lemma over_insert C D ck v : over (<[ck := v]> C) D = match v with Some d => <[ck := d]> (over C D) | None => delete ck (over C D) end.
Proof.
  apply map_eq. intros i. rewrite lookup_over. destruct (decide (i = ck)) as [->|Hne].
  - rewrite lookup_insert_eq. destruct v; by rewrite ?lookup_insert_eq, ?lookup_delete_eq.
  - rewrite lookup_insert_ne by done. destruct v; rewrite ?lookup_insert_ne, ?lookup_delete_ne by done; by rewrite lookup_over.
Qed.

Lemma base_size c recs : base_ok ic c recs → Z.max start (Z.of_nat (length (file c))) = start + rtotal recs + 8 * Z.of_nat (length recs).
Proof.
  intros (_ & _ & _ & [[-> H]|(_ & Hdb & _)]).
  - assert (Z.of_nat (length (file c)) <= start); [|cbn; lia]. destruct H as [->|[-> _]]; [done|]. rewrite length_replicate. done.
  - destruct (db_size _ _ _ Hdb) as [Hx _]. change sizeof_slot with 8 in Hx. pose proof (rtotal_nonneg recs). lia.
Qed.

Lemma over_gone (C : cache) (G : gset (list Z)) D ck : (∀ k, k ∈ G ↔ C !! k = Some None) → over C D !! ck = None →
  (ck ∈ G ↔ is_Some (C !! ck)).
Proof.
  intros HG Ho. rewrite HG. rewrite lookup_over in Ho. destruct (C !! ck) as [[d|]|]; [done| |]; (split; [|intros [? ?]]); try done; by eexists.
Qed.

Lemma gone_insert (C : cache) (G : gset (list Z)) ck v : (∀ k, k ∈ G ↔ C !! k = Some None) →
  ∀ k, k ∈ (match v with Some _ => G ∖ {[ck]} | None => {[ck]} ∪ G end) ↔ <[ck := v]> C !! k = Some None.
Proof.
  intros HG k. destruct (decide (k = ck)) as [->|Hne].
  - rewrite lookup_insert_eq. destruct v; rewrite ?elem_of_difference, ?elem_of_union, ?elem_of_singleton; intuition congruence.
  - rewrite lookup_insert_ne by done. rewrite <-HG. destruct v; rewrite ?elem_of_difference, ?elem_of_union, ?elem_of_singleton; intuition congruence.
Qed.

Lemma u32_add a b : u32 (u32 a + b) = u32 (a + b).
Proof. unfold u32. by rewrite Zplus_mod_idemp_l. Qed.

Lemma u32_step a n d : u32 a = n → 0 <= n + d < 2 ^ 32 → u32 (a + d) = n + d.
Proof. intros <- H. rewrite <-u32_add. by rewrite u32_small. Qed.

Lemma size_delete_some (m : gmap (list Z) (list Z)) k d : m !! k = Some d →
  Z.of_nat (stdpp.base.size (delete k m)) = Z.of_nat (stdpp.base.size m) - 1.
Proof.
  intros E. assert (stdpp.base.size m ≠ 0%nat) by (intros H0%map_size_empty_iff; by rewrite H0, lookup_empty in E).
  rewrite map_size_delete, E. simpl. lia.
Qed.

Lemma refines_weaken r s (exact exact' : bool) B B' : (exact' = true → exact = true) → B <= B' → refines r s exact B → refines r s exact' B'.
Proof.
  intros Hex HB' (off & recs & C & N & Ho & Hd & Hk & E1 & E2 & E3 & E4 & E5 & E6 & HB). exists off, recs, C, N. splits; try done; [|lia|lia].
  intros H. by apply E4, Hex.
Qed.

Lemma fetch_step k : step_ok (Fetch k).
Proof.
  intros r s exact B (off & recs & C & N & Ho & Hd & Hk & E1 & E2 & E3 & E4 & E5 & E6 & HB) Hok _ _.
  destruct (fetch_ok ic (set_rkey (User k) r) off recs C N k) as (r' & Ho' & Hf); [by destruct Ho|done|done|].
  cbn [run_op spec_op fst snd op_cost]. rewrite E2, <-view_over. exists r'.
  assert (Hr : refines r' s (count_after ic (Fetch k) s exact) (B + 0)) by (exists off, recs, C, N; cbn [count_after miscounts negb]; rewrite Z.add_0_r, andb_true_r; done).
  destruct (view ic recs C k) as [d|]; [destruct Hf as [-> Hd']|rewrite Hf]; cbn [mbind res_bind fst snd]; [|done].
  rewrite Hd'. done.
Qed.

Lemma store_step k d flag : step_ok (Store k d flag).
Proof.
  intros r s exact B (off & recs & C & N & Ho & Hd & Hk & E1 & E2 & E3 & E4 & E5 & E6 & HB) Hok _ Hbud. cbn [op_cost] in *.
  pose proof (rtotal_nonneg recs). cbn [run_op]. unfold store_key.
  destruct (store_ok ic e Hg flag (set_rkey (User k) (set_rdata (User d) r)) off recs C N k d) as (r' & off' & E & Ho' & Hle);
    [by destruct Ho|done|done|done|unfold start in *; consts; lia|].
  rewrite E. cbn [mbind res_bind fst snd]. exists r'. cbn [spec_op].
  set (B' := B + (32 + Z.of_nat (length k) + Z.of_nat (length d))). assert (HB' : start + rtotal recs + 8 * Z.of_nat (length recs) + off' <= B') by (unfold B'; lia).
  unfold spec_store in *. set (ex := count_after _ _ _ _).
  assert (Hex : ex = true → exact = true ∧ canon ic k ∉ s_gone s).
  { unfold ex. cbn [count_after miscounts]. intros [-> Hx]%andb_true_iff. split; [done|]. by apply negb_true_iff, bool_decide_eq_false in Hx. }
  assert (Hput : ∀ n, opened ic r' off' recs (<[canon ic k := Some d]> C) n →
    (ex = true → u32 (Z.of_nat (length recs) + n) = Z.of_nat (stdpp.base.size (<[canon ic k := d]> (s_map s)))) →
    refines r' (Spec (s_disk s) (<[canon ic k := d]> (s_map s)) (s_gone s ∖ {[canon ic k]})) ex B').
  { intros n Hop En. exists off', recs, (<[canon ic k := Some d]> C), n. cbn [s_disk s_map s_gone]. splits; try done.
    - by rewrite over_insert, E2.
    - by apply (gone_insert C (s_gone s) (canon ic k) (Some d)).
    - intros Hx. by apply insert_non_empty in Hx.
    - rewrite map_size_insert. unfold B', id. destruct (s_map s !! canon ic k); lia. }
  assert (Hsame : opened ic r' off' recs C N → refines r' s ex B').
  { intros Hop. exists off', recs, C, N. splits; try done; [|unfold B'; lia]. intros Hx. by apply E4, Hex. }
  assert (Ek : s_map s !! canon ic k = view ic recs C k) by by rewrite E2, <-view_over.
  rewrite Ek. destruct (view ic recs C k) as [d0|] eqn:Ev.
  - destruct (flag =? RDB_INSERT); [split; [done|by apply Hsame]|].
    destruct ((flag =? RDB_REPLACE) && bool_decide (d0 = d)); (split; [done|]); [by apply Hsame|]. apply (Hput N); [done|].
    intros [Hx _]%Hex. rewrite map_size_insert, Ek. by apply E4.
  - split; [done|]. cbn [fst snd] in *. eapply Hput; [exact Ho'|]. intros [Hx Hng]%Hex. rewrite map_size_insert, Ek.
    rewrite view_over in Ev. pose proof (over_gone _ _ _ _ E3 Ev) as Hgone.
    destruct (C !! canon ic k) eqn:Ec; [destruct Hng; apply Hgone; by eexists|]. specialize (E4 Hx).
    rewrite (Z.add_comm _ (u32 _)), u32_add. replace (N + 1 + Z.of_nat (length recs)) with (Z.of_nat (length recs) + N + 1) by lia.
    rewrite (u32_step _ _ 1 E4); lia.
Qed.

Lemma remove_step k : step_ok (Remove k).
Proof.
  intros r s exact B (off & recs & C & N & Ho & Hd & Hk & E1 & E2 & E3 & E4 & E5 & E6 & HB) Hok _ Hbud. cbn [op_cost] in *.
  pose proof (rtotal_nonneg recs). cbn [run_op]. unfold remove_key.
  destruct (remove_ok ic e Hg (set_rkey (User k) r) off recs C N k) as (r' & off' & E & Ho' & Hle);
    [by destruct Ho|done|done|unfold start in *; consts; lia|].
  rewrite E. cbn [mbind res_bind fst snd]. exists r'. cbn [spec_op].
  set (B' := B + (32 + Z.of_nat (length k))). assert (HB' : start + rtotal recs + 8 * Z.of_nat (length recs) + off' <= B') by (unfold B'; lia).
  unfold spec_remove in *. assert (Ek : s_map s !! canon ic k = view ic recs C k) by by rewrite E2, <-view_over.
  rewrite Ek. cbn [count_after miscounts negb]. rewrite andb_true_r. destruct (view ic recs C k) as [d0|] eqn:Ev.
  - split; [done|]. exists off', recs, (<[canon ic k := None]> C), (u32 (N - 1)). cbn [s_disk s_map s_gone fst snd] in *.
    pose proof (size_delete_some _ _ _ Ek) as Hsz. rewrite Hsz. splits; try done; [by rewrite over_insert, E2| | | |].
    + by apply (gone_insert C (s_gone s) (canon ic k) None).
    + intros Hx. specialize (E4 Hx). rewrite (Z.add_comm _ (u32 _)), u32_add. unfold Z.sub.
      replace (N + - (1) + Z.of_nat (length recs)) with (Z.of_nat (length recs) + N + -1) by lia.
      rewrite (u32_step _ _ (-1) E4); lia.
    + intros Hx. by apply insert_non_empty in Hx.
    + lia.
  - split; [|exists off', recs, C, N; cbn [fst snd] in *; splits; try done; lia]. cbn [fst snd]. rewrite view_over in Ev. pose proof (over_gone _ _ _ _ E3 Ev) as Hgone.
    destruct (decide (canon ic k ∈ s_gone s)) as [Hin|Hin], (C !! canon ic k) eqn:Ec; try done.
    + by apply Hgone in Hin as [? ?].
    + destruct Hin. apply Hgone. by eexists.
Qed.

Lemma substitute_step k k2 d flag : step_ok (Substitute k k2 d flag).
Proof.
  intros r s exact B (off & recs & C & N & Ho & Hd & Hk & E1 & E2 & E3 & E4 & E5 & E6 & HB) (Hk1 & Hk2 & Hap) _ Hbud. cbn [op_cost] in *.
  pose proof (rtotal_nonneg recs). cbn [run_op]. unfold substitute_key.
  destruct (substitute_ok ic e flag (set_rkey (User k) (set_rdata (User d) r)) off recs C N k k2 d) as (r' & off' & E & Ho' & Hle);
    [done|by destruct Ho|done..|unfold start in *; consts; lia|].
  rewrite E. cbn [mbind res_bind fst snd]. exists r'. cbn [spec_op].
  set (B' := B + (64 + Z.of_nat (length k) + Z.of_nat (length k2) + Z.of_nat (length d))).
  assert (HB' : start + rtotal recs + 8 * Z.of_nat (length recs) + off' <= B') by (unfold B'; lia).
  unfold spec_substitute in *. assert (Ek : ∀ x, s_map s !! canon ic x = view ic recs C x) by (intros x; by rewrite E2, <-view_over).
  assert (Hne : canon ic k2 ≠ canon ic k) by (intros Hx; apply Hap; unfold start_place; by rewrite (hashv_canon ic k2 k)).
  set (ex := count_after _ _ _ _). assert (Hex : ex = true → exact = true) by (unfold ex; cbn [count_after]; by intros [? _]%andb_true_iff).
  assert (Hsame : opened ic r' off' recs C N → refines r' s ex B').
  { intros Hop. exists off', recs, C, N. splits; try done; [|unfold B'; lia]. intros Hx. by apply E4, Hex. }
  rewrite !Ek. destruct (view ic recs C k) as [d0|] eqn:Ev.
  - destruct (if view ic recs C k2 is Some _ then flag =? RDB_INSERT else false); [split; [done|by apply Hsame]|].
    split; [done|]. exists off', recs, (<[canon ic k := None]> (<[canon ic k2 := Some d]> C)), N. cbn [s_disk s_map s_gone fst snd] in *.
    assert (Es : <[canon ic k2 := d]> (s_map s) !! canon ic k = Some d0) by (rewrite lookup_insert_ne by done; by rewrite Ek).
    rewrite (size_delete_some _ _ _ Es), map_size_insert, Ek. unfold id. splits; try done.
    + by rewrite !over_insert, E2.
    + apply (gone_insert (<[canon ic k2 := Some d]> C) (s_gone s ∖ {[canon ic k2]}) (canon ic k) None).
      by apply (gone_insert C (s_gone s) (canon ic k2) (Some d)).
    + intros Hx. rewrite (E4 (Hex Hx)). revert Hx. unfold ex. cbn [count_after miscounts]. rewrite !Ek, Ev.
      destruct (view ic recs C k2); [by rewrite andb_false_r|lia].
    + intros Hx. by apply insert_non_empty in Hx.
    + destruct (view ic recs C k2); unfold B'; lia.
  - split; [|by apply Hsame]. cbn [fst snd]. rewrite view_over in Ev. pose proof (over_gone _ _ _ _ E3 Ev) as Hgone.
    destruct (decide (canon ic k ∈ s_gone s)) as [Hin|Hin], (C !! canon ic k) eqn:Ec; try done.
    + by apply Hgone in Hin as [? ?].
    + destruct Hin. apply Hgone. by eexists.
Qed.

Lemma size_step : step_ok Size.
Proof.
  intros r s exact B (off & recs & C & N & Ho & Hd & Hk & E1 & E2 & E3 & E4 & E5 & E6 & HB) _ Hex _. cbn [run_op spec_op op_cost].
  unfold Rdb.size. rewrite (op_count _ _ _ _ _ _ Ho). cbn [mbind res_bind fst snd].
  destruct (op_base _ _ _ _ _ _ Ho) as (_ & -> & _). rewrite (E4 Hex). exists r. split; [done|].
  apply (refines_weaken r s exact _ B); [by intros [? _]%andb_true_iff|lia|]. by exists off, recs, C, N.
Qed.

(** A database without a journal: the map is what is on the disk, and the count is right. *)
Lemma refines_fresh r recs B : opened ic r sizeof_struct recs ∅ 0 → distinct ic recs → Forall (λ x, key_good ic x.1) recs →
  start + rtotal recs + 8 * Z.of_nat (length recs) + sizeof_struct <= B → B < 2 ^ 32 →
  refines r (Spec (disk_map ic recs) (disk_map ic recs) ∅) true B.
Proof.
  intros Ho Hd Hk HB Hbud. exists sizeof_struct, recs, ∅, 0. cbn [s_disk s_map s_gone].
  pose proof (length_rtotal recs). unfold start in *. rconsts. consts.
  rewrite size_disk, Z.add_0_r by done. splits; try done; [|intros _; rewrite u32_small; lia|lia].
  apply map_eq. intros i. by rewrite lookup_over, lookup_empty.
Qed.

Lemma begin_step : step_ok Begin.
Proof.
  intros r s exact B (off & recs & C & N & Ho & Hd & Hk & E1 & E2 & E3 & E4 & E5 & E6 & HB) _ _ Hbud. cbn [run_op spec_op op_cost] in *.
  unfold beginTransaction. pose proof (base_size _ _ (op_base _ _ _ _ _ _ Ho)) as Hbs. destruct (op_journal _ _ _ _ _ _ Ho) as (h & Hh & Hr & HC).
  destruct (rep_head _ _ _ Hr) as [[Ho1 _] _].
  destruct (reorganize_ok e ic r off recs C N Hc Ho Hd Hk) as (r' & E & H); [rconsts; lia|]. rewrite E. cbn [mbind res_bind fst snd].
  exists r'. split; [done|]. rewrite Z.add_0_r. destruct H as [[-> ->]|(recs' & Ho' & Hd' & Hk' & Hm & Hf)].
  - pose proof (journal_empty _ _ _ (op_journal _ _ _ _ _ _ Ho)) as ->. specialize (E5 eq_refl). subst N.
    assert (Eo : over ∅ (disk_map ic recs) = disk_map ic recs) by (apply map_eq; intros i; by rewrite lookup_over, lookup_empty).
    rewrite E2, Eo. apply refines_fresh; try done; lia.
  - pose proof (base_size _ _ (op_base _ _ _ _ _ _ Ho')) as Hbs'. rewrite E2, <-Hm. apply refines_fresh; try done; lia.
Qed.

Lemma opened_put r off recs C N p v : opened ic r off recs C N → p = 4 ∨ p = 12 →
  ∃ m', put4 (journal r) p v = Ok m' ∧ opened ic (set_journal m' r) off recs C N.
Proof.
  intros [Hb (h & Hh & Hr & HC) Hroom Hcnt] Hp. destruct (rep_head _ _ _ Hr) as [Ho Hl]. unfold room in *. rconsts.
  destruct (put4_ok (journal r) p v) as (m' & E & L); [lia..|]. exists m'. split; [done|].
  split; cbn [journal set_journal base]; try done.
  - exists h. split; [done|]. split; [|done].
    eapply (rep_write [(p, p + 4)]); [exact Hr|by apply agree_put4 in E|spares; lia| |lia|lia].
    unfold RDB_off. rewrite (get4_put4_ne _ _ _ _ _ E) by lia. apply (rep_off _ _ _ Hr).
  - unfold room. rconsts. lia.
  - unfold RDB_nrecord. rewrite (get4_put4_ne _ _ _ _ _ E) by lia. done.
Qed.

Lemma commit_step : step_ok Commit.
Proof.
  intros r s exact B (off & recs & C & N & Ho & Hd & Hk & E1 & E2 & E3 & E4 & E5 & E6 & HB) _ _ _.
  cbn [run_op spec_op op_cost]. unfold commitTransaction, msync. destruct (op_journal _ _ _ _ _ _ Ho) as (h & _ & Hr & _).
  rewrite (rep_off _ _ _ Hr). cbn [mbind res_bind]. destruct (opened_put r off recs C N 4 off Ho) as (m' & E & Ho'); [by left|].
  unfold RDB_sync. rewrite E. cbn [mbind res_bind fst snd]. eexists. split; [done|].
  apply (refines_weaken _ s exact _ B); [by intros [? _]%andb_true_iff|lia|]. by exists off, recs, C, N.
Qed.

Lemma abort_step : step_ok Abort.
Proof.
  intros r s exact B (off & recs & C & N & [Hb (h & Hh & Hr & HC) Hroom Hcnt] & Hd & Hk & E1 & E2 & E3 & E4 & E5 & E6 & HB) _ _ Hbud.
  cbn [run_op spec_op op_cost] in *. unfold abortTransaction. destruct (rep_head _ _ _ Hr) as [Ho Hl]. unfold room in Hroom.
  destruct (reset_ok ic r) as (m' & E & Hj & Hroom' & Hc'); [lia|done|]. rewrite E. cbn [mbind res_bind fst snd].
  eexists. split; [done|]. rewrite Z.add_0_r, E1. apply refines_fresh; try done; lia.
Qed.

Lemma op_step o : step_ok o.
Proof. destruct o; [apply fetch_step|apply store_step|apply remove_step|apply substitute_step|apply size_step|apply begin_step|apply commit_step|apply abort_step]. Qed.

Lemma op_cost_nonneg o : 0 <= op_cost o.
Proof. destruct o; cbn [op_cost]; lia. Qed.

Lemma cost_nonneg ops : 0 <= cost ops.
Proof. induction ops as [|o ops IH]; [done|]. cbn [cost foldr]. pose proof (op_cost_nonneg o). fold (cost ops). lia. Qed.

Lemma run_refines ops : ∀ r s exact B, refines r s exact B → Forall (op_ok ic) ops → sizes_ok ic ops s exact = true →
  B + cost ops + 48 <= 2 ^ 30 →
  ∃ r', run e ops r = Ok (r', spec_run ic ops s) ∧ refines r' (spec_final ic ops s) (count_exact ic ops s exact) (B + cost ops).
Proof.
  induction ops as [|o ops IH]; intros r s exact B Hr Hops Hsz Hbud; [exists r; by rewrite Z.add_0_r|].
  apply Forall_cons in Hops as [Ho Hops]. cbn [sizes_ok] in Hsz. apply andb_true_iff in Hsz as [Hex Hsz].
  cbn [cost foldr] in Hbud. fold (cost ops) in Hbud. pose proof (cost_nonneg ops).
  destruct (op_step o r s exact B Hr Ho Hex) as (r1 & E1 & Hr1); [lia|]. cbn [run spec_run]. rewrite E1. cbn [mbind res_bind fst snd].
  destruct (IH r1 _ _ _ Hr1 Hops Hsz) as (r2 & E2 & Hr2); [lia|]. rewrite E2. exists r2. split; [done|].
  cbn [spec_final count_exact cost foldr]. fold (cost ops). by rewrite Z.add_assoc.
Qed.
End Refinement.

(** ** Going over the entries *)

(** The walk meets every entry of the map once. *)
Lemma walk_entries ic r off recs C N : opened ic r off recs C N → distinct ic recs → Forall (λ x, key_good ic x.1) recs →
  ∃ all, distinct ic all ∧ disk_map ic all = over C (disk_map ic recs) ∧ Forall (λ x, key_good ic x.1) all ∧
    ∀ A (f1 : list Z → list Z → A → res A) (f2 : list Z → Z → A → res A) (G : A → list Z * list Z → A) a,
      (∀ k d a, f1 k d a = Ok (G a (k, d))) → (∀ m b a, stored m b → f2 m b.1 a = Ok (G a b.2)) →
      ∃ r', walking r r' ∧ walk f1 f2 r a = Ok (r', foldl G a all).
Proof.
  intros Ho Hd Hk. destruct (walk_ok ic r off recs C N Ho Hk) as (L & S & HL & HS & Hst & Hw).
  exists (merged ic C L S). split; [by apply (merged_distinct ic C off L S recs)|]. split; [by apply (merged_map ic C off L S recs)|].
  split; [by eapply merged_good|]. intros A f1 f2 G a H1 H2. destruct (Hw A f1 f2 a) as (r' & Hr' & E). exists r'. split; [done|].
  rewrite E. destruct (fold_entries ic C (file (base r)) L S f1 f2 (λ rs x, x = foldl G a rs) a) as (x & E' & Hx); try done.
  - intros rs y rest x _ ->. rewrite H1, <-surjective_pairing. eexists. split; [done|]. by rewrite foldl_app.
  - intros rs b rest x _ Hb ->. rewrite H2 by done. eexists. split; [done|]. by rewrite foldl_app.
  - revert E'. destruct (fold_res (live_node f1) L a) as [y|]; [|done]. cbn [mbind res_bind]. intros ->. by rewrite Hx.
Qed.

Lemma walking_opened ic r r' off recs C N : opened ic r off recs C N → walking r r' → opened ic r' off recs C N.
Proof. intros Ho [Hs Hj]. eapply opened_same; [exact Ho| |done]. eapply base_same; [exact Hs|by destruct Ho]. Qed.

Lemma fetch_all_ok ic off recs C N ks : ∀ r calls, opened ic r off recs C N → Forall (key_good ic) ks →
  ∃ r', fetch_all r ks calls = Ok (r', calls ++ omap (λ k, pair k <$> view ic recs C k) ks).
Proof.
  induction ks as [|k ks IH]; intros r calls Ho Hk; [exists r; by rewrite app_nil_r|]. apply Forall_cons in Hk as [Hk1 Hk].
  cbn [fetch_all omap list_omap]. destruct (fetch_ok ic (set_rkey (User k) r) off recs C N k) as (r1 & Ho1 & Hf); [by destruct Ho|done|done|].
  destruct (view ic recs C k) as [d|]; cbn [fmap option_fmap option_map].
  - destruct Hf as [-> Hd]. cbn [mbind res_bind fst snd]. rewrite Hd. cbn [mbind res_bind].
    destruct (IH r1 (calls ++ [(k, d)]) Ho1 Hk) as (r2 & ->). exists r2. by rewrite <-app_assoc.
  - rewrite Hf. cbn [mbind res_bind fst snd]. apply (IH r1 calls Ho1 Hk).
Qed.

(** The functions that go over the entries, on the same list of them. *)
Lemma traversals_ok ic r s exact B vec sorted : refines ic r s exact B → (∀ ks, ∃ ks', sorted ks = Ok ks' ∧ ks' ≡ₚ ks) →
  ∃ all, distinct ic all ∧ disk_map ic all = s_map s ∧
    (∃ r', getKeys r vec = Ok (r', vec ++ map fst all)) ∧ (∃ r', callForAllEntry r = Ok (r', all)) ∧
    (∃ r', print r = Ok (r', concat (map record_text all))) ∧
    (exact = true → ∃ r' calls, callForAllEntrySorted sorted r = Ok (r', calls) ∧ calls ≡ₚ all).
Proof.
  intros (off & recs & C & N & Ho & Hd & Hk & E1 & E2 & E3 & E4 & E5 & E6 & HB) Hsort.
  destruct (walk_entries ic r off recs C N Ho Hd Hk) as (all & Hd' & Hm & Hk' & Hw). exists all. rewrite E2.
  assert (Hkeys : ∀ vec, ∃ r', walking r r' ∧ getKeys r vec = Ok (r', vec ++ map fst all)).
  { intros v. unfold getKeys. edestruct (Hw _ (λ k _ v, Ok (v ++ [k])) (λ m pos v, klen ← get4 m pos; k ← mrd m (pos + sizeof_header) klen; Ok (v ++ [k]))
      (λ v x, v ++ [x.1]) v) as (r' & Hr' & E); [done| |exists r'; split; [done|]; rewrite E; by rewrite foldl_snoc_map].
    intros m b a (_ & _ & _ & _ & H4 & _ & H6 & _). rewrite H4. cbn [mbind res_bind]. by rewrite H6. }
  split; [done|]. split; [done|]. split; [destruct (Hkeys vec) as (r' & _ & E); by exists r'|]. split; [|split].
  - unfold callForAllEntry. edestruct (Hw _ (λ k d calls, Ok (calls ++ [(k, d)])) (λ m pos calls, kd ← call m pos; Ok (calls ++ [kd]))
      (λ calls x, calls ++ [x]) []) as (r' & _ & E); [done| |exists r'; rewrite E; by rewrite (foldl_snoc_map id), map_id].
    intros m b a Hb. by rewrite (call_ok m b Hb).
  - unfold print. edestruct (Hw _ (λ k d buffer, Ok (buffer ++ entry_text k d)) (λ m pos buffer, print_entry m pos buffer)
      (λ buffer x, buffer ++ record_text x) []) as (r' & _ & E); [done| |exists r'; rewrite E; by rewrite foldl_snoc_concat].
    intros m b a (_ & _ & _ & _ & H4 & H5 & H6 & H7). unfold print_entry. rewrite H4. cbn [mbind res_bind]. rewrite H5. cbn [mbind res_bind].
    rewrite H6. cbn [mbind res_bind]. rewrite H7. done.
  - intros Hex. destruct (Hkeys []) as (r1 & Hr1 & Ek). unfold callForAllEntrySorted, Rdb.size.
    rewrite (op_count _ _ _ _ _ _ Ho). cbn [mbind res_bind]. destruct (op_base _ _ _ _ _ _ Ho) as (_ & -> & _). rewrite (E4 Hex).
    destruct (Z.eqb_spec (Z.of_nat (stdpp.base.size (s_map s))) 0) as [H0|_].
    { exists r, []. split; [done|]. rewrite E2, <-Hm, size_disk in H0 by done. by destruct all. }
    cbn [negb]. rewrite Ek. cbn [mbind res_bind fst snd app].
    assert (Hs : ∃ ks, (if 1 <? Z.of_nat (length (map fst all)) then sorted (map fst all) else Ok (map fst all)) = Ok ks ∧ ks ≡ₚ map fst all).
    { destruct (1 <? _); [apply Hsort|by eexists]. }
    destruct Hs as (ks & -> & Hks). cbn [mbind res_bind].
    assert (Hgood : Forall (key_good ic) ks).
    { rewrite Hks. apply Forall_forall. intros k (x & -> & Hx)%list_elem_of_fmap. rewrite Forall_forall in Hk'. by apply Hk'. }
    destruct (fetch_all_ok ic off recs C N ks r1 [] (walking_opened _ _ _ _ _ _ _ Ho Hr1) Hgood) as (r2 & E). rewrite E.
    exists r2. eexists. split; [done|]. cbn [app]. rewrite Hks.
    assert (Hv : ∀ x, x ∈ all → view ic recs C x.1 = Some x.2).
    { intros x Hx. rewrite view_over, <-Hm. apply disk_elem; [done|]. by exists x. }
    clear -Hv. induction all as [|x l IH]; [done|]. cbn [map omap list_omap]. rewrite Hv by by left.
    cbn [fmap option_fmap option_map]. rewrite <-surjective_pairing. f_equiv. apply IH. intros y Hy. apply Hv. by right.
Qed.

(** ** Opening *)

Definition spec_of (D : gmap (list Z) (list Z)) : spec := Spec D D ∅.

Lemma zeros_get4 n q : 0 <= q → q + 4 <= Z.of_nat n → get4 (replicate n 0) q = Ok 0.
Proof.
  intros Hq Hn. unfold get4. rewrite mrd_ok by (rewrite ?length_replicate; lia). cbn [mbind res_bind].
  rewrite drop_replicate, take_replicate. by replace (Nat.min (Z.to_nat 4) (n - Z.to_nat q))%nat with 4%nat by lia.
Qed.

(** A new journal, once its length is set. *)
Lemma fresh_journal ic n m : sizeof_struct <= Z.of_nat n < 2 ^ 31 → agree [(RDB_off, 4); (RDB_reference, RDB_hashtab)] (replicate n 0) m →
  length m = n → get4 m RDB_off = Ok sizeof_struct → journal_ok ic m sizeof_struct ∅ ∧ get4 m RDB_nrecord = Ok 0.
Proof.
  intros Hn HA Hl Ho. assert (Hz : ∀ q, 4 <= q <= 8 ∨ 16 <= q → q + 4 <= Z.of_nat n → get4 m q = Ok 0).
  { intros q Hq1 Hq2. eapply get4_agree; [exact HA|apply zeros_get4; lia|]. aparts; lia. }
  rconsts. split; [|apply Hz; lia]. exists empty_heap. destruct (empty_heap_ok ic) as [H1 H2]. split; [done|]. split; [|done]. split.
  - rconsts. lia.
  - done.
  - intros [i|p|p] v Hv; cbn in Hv; [|done..]. destruct (Z.leb_spec 0 i), (Z.ltb_spec i CACHE_HASHTAB_LEN); cbn [andb] in Hv; try done.
    injection Hv as <-. cbn [addr]. apply Hz; rconsts; lia.
  - by intros p [? ?].
  - by intros p q [? ?].
  - done.
  - done.
  - cbn. rewrite map_to_list_empty. done.
Qed.

Lemma open_refines ic c recs log_size b1 b2 : base_ok ic c recs → distinct ic recs → Forall (λ x, key_good ic x.1) recs →
  log_size = 0 ∨ sizeof_struct + sizeof_node <= log_size < 2 ^ 31 → Z.of_nat (length (file c)) < 2 ^ 31 →
  ∃ r, Rdb.open c [] log_size b1 b2 = Ok r ∧
    refines ic r (spec_of (disk_map ic recs)) true (start + rtotal recs + 8 * Z.of_nat (length recs) + sizeof_struct).
Proof.
  intros Hb Hd Hk Hlog Hfl. unfold Rdb.open. set (st_size := Z.of_nat (length (file c))) in *.
  assert (Hj : (if b1 : bool then [] else @nil Z) = []) by by destruct b1. rewrite Hj. cbn [length Nat.eqb negb].
  set (n := Z.to_nat _). assert (Hn : sizeof_struct + sizeof_node <= Z.of_nat n < 2 ^ 31).
  { unfold n. destruct (Z.eqb_spec log_size 0); cbn [negb]; [|lia]. destruct (Z.eqb_spec st_size 0); cbn [negb]; [rconsts; lia|].
    unfold st_size in *. destruct Hb as (_ & _ & _ & [[-> [Hf|[Hf _]]]|(_ & Hdb & _)]); rewrite ?Hf, ?length_replicate in *; [done|rconsts; unfold start in *; consts; lia|].
    destruct (db_size _ _ _ Hdb) as [Hx _]. pose proof (rtotal_nonneg recs). rconsts. unfold start in *. consts. lia. }
  unfold RDB_off, RDB_reference. rewrite zeros_get4 by (rconsts; lia). cbn [mbind res_bind]. cbn [Z.eqb].
  destruct (put4_ok (replicate n 0) 0 sizeof_struct) as (m1 & E1 & L1); [lia|rewrite length_replicate; rconsts; lia|].
  rewrite E1. cbn [mbind res_bind]. rewrite length_replicate in L1. assert (G1 := get4_put4 _ _ _ _ E1 ltac:(done)).
  assert (A1 := agree_put4 _ _ _ _ E1).
  assert (H : ∃ m2, (if b2 : bool then n0 ← get4 m1 12; put4 m1 12 (u32 (n0 + 1)) else Ok m1) = Ok m2 ∧ length m2 = n ∧
    agree [(0, 4); (12, 16)] (replicate n 0) m2 ∧ get4 m2 0 = Ok sizeof_struct).
  { destruct b2; [|exists m1; split; [done|]; split; [lia|]; split; [|done]; eapply agree_incl; [exact A1|included]].
    rewrite (get4_put4_ne _ _ _ _ _ E1), zeros_get4 by (rconsts; lia). cbn [mbind res_bind].
    destruct (put4_ok m1 12 (u32 (0 + 1))) as (m2 & E2 & L2); [rconsts; lia..|]. exists m2. split; [done|]. split; [lia|].
    split; [|by rewrite (get4_put4_ne _ _ _ _ _ E2) by lia]. exact (agree_trans _ _ _ _ _ A1 (agree_put4 _ _ _ _ E2)). }
  destruct H as (m2 & E2 & L2 & A2 & G2). rewrite E2. cbn [mbind res_bind]. eexists. split; [done|].
  destruct (fresh_journal ic n m2) as [Hj2 Hc2]; [rconsts; lia|done|done|done|].
  apply refines_fresh; try done; [split; try done; unfold room; cbn [journal]; rconsts; lia|].
  pose proof (length_rtotal recs). pose proof (rtotal_nonneg recs).
  pose proof (base_size ic c recs Hb). unfold start in *. rconsts. consts. lia.
Qed.

(** A constant database of these records, or no file. *)
Definition made (ic : bool) (recs : list (list Z * list Z)) (m : list Z) : Prop :=
  recs = [] ∧ m = [] ∨
  recs ≠ [] ∧ ∃ c, ignore_case c = ic ∧ 4096 + 16 * Z.of_nat (length recs) + text_size recs <= Z.of_nat (length (file c)) ∧
    Z.of_nat (length (file c)) < 2 ^ 32 ∧ make_database recs c = Ok m.

Lemma made_open ic recs m : Forall (λ x, key_good ic x.1) recs → made ic recs m →
  ∃ c, Cdb.open m (empty_cdb ic []) = Ok c ∧ base_ok ic c recs ∧ Z.of_nat (length (file c)) <= 4096 + 16 * Z.of_nat (length recs) + text_size recs.
Proof.
  intros Hk [[-> ->]|(Hne & c & Hic & Hl & Hm & E)].
  - eexists. split; [done|]. split; [|done]. split; [done|]. split; [done|]. split; [done|]. left. split; [done|]. by left.
  - destruct (make_ok recs c) as (m' & E' & Hdb & Hlen); try done.
    { eapply Forall_impl; [exact Hk|]. rewrite Hic. by intros r [? _]. }
    assert (m' = m) as -> by congruence. rewrite Hic in Hdb. rewrite (open_ok ic m recs Hdb). eexists. split; [done|]. cbn [file].
    split; [|lia]. split; [done|]. split; [done|]. split; [apply (db_size _ _ _ Hdb)|]. by right.
Qed.

(** ** Closing *)

Lemma get4_total m p : 0 <= p → p + 4 <= Z.of_nat (length m) → ∃ v, get4 m p = Ok v.
Proof. intros Hp Hl. unfold get4. rewrite mrd_ok by lia. by eexists. Qed.

Lemma close_total r off h : rep (journal r) off h → ∃ j, close r = Ok j.
Proof.
  intros Hr. destruct (rep_head _ _ _ Hr) as [Ho _]. rconsts. unfold close, RDB_reference, RDB_off, RDB_sync.
  destruct (get4_total (journal r) 12) as (n & ->); [lia..|]. cbn [mbind res_bind].
  destruct (put4_ok (journal r) 12 (u32 (n - 1))) as (m1 & E1 & L1); [lia..|]. rewrite E1. cbn [mbind res_bind].
  destruct (get4_total m1 0) as (x & ->); [lia..|]. cbn [mbind res_bind].
  destruct (put4_ok m1 4 x) as (m2 & E2 & L2); [lia..|]. rewrite E2. by eexists.
Qed.

(** The constant database that [closeReorganize] leaves holds the map. *)
Lemma closeReorganize_ok ic e r s exact B : (∀ n, creat e n = true) → refines ic r s exact B → B < 2 ^ 30 → s_map s ≠ ∅ →
  ∃ m recs, closeReorganize e r = Ok (Some m) ∧ database ic m recs ∧ recs ≠ [] ∧ distinct ic recs ∧
    Forall (λ x, key_good ic x.1) recs ∧ disk_map ic recs = s_map s ∧
    start + rtotal recs + 8 * Z.of_nat (length recs) + sizeof_struct <= B.
Proof.
  intros Hc (off & recs & C & N & Ho & Hd & Hk & E1 & E2 & E3 & E4 & E5 & E6 & HB) Hbud Hne.
  destruct (opened_put ic r off recs C N 12 1 Ho) as (m' & E & Ho'); [by right|]. unfold closeReorganize, RDB_reference. rewrite E.
  cbn [mbind res_bind]. pose proof (base_size _ _ _ (op_base _ _ _ _ _ _ Ho')) as Hbs. destruct (op_journal _ _ _ _ _ _ Ho') as (h & _ & Hr & _).
  destruct (rep_head _ _ _ Hr) as [[Ho1 _] _].
  destruct (reorganize_ok e ic (set_journal m' r) off recs C N Hc Ho' Hd Hk) as (r' & Er & H); [rconsts; lia|].
  rewrite Er. cbn [mbind res_bind fst snd]. assert (Hdb : ∀ c l, base_ok ic c l → disk_map ic l = s_map s → database ic (file c) l ∧ l ≠ []).
  { intros c l (_ & _ & _ & [[-> _]|(Hl & Hdb & _)]) El; [by rewrite <-El in Hne|done]. }
  assert (Hcl : ∀ x o l D n, opened ic x o l D n → ∃ j, close x = Ok j).
  { intros x o l D n [_ (hx & _ & Hx & _) _ _]. by eapply close_total. }
  destruct H as [[-> ->]|(recs' & Hor & Hd' & Hk' & Hm & Hf)].
  - pose proof (journal_empty _ _ _ (op_journal _ _ _ _ _ _ Ho)) as ->.
    assert (Eo : over ∅ (disk_map ic recs) = disk_map ic recs) by (apply map_eq; intros i; by rewrite lookup_over, lookup_empty).
    rewrite Eo in E2. destruct (Hcl _ _ _ _ _ Ho') as (j & ->). cbn [mbind res_bind].
    destruct (Hdb _ recs (op_base _ _ _ _ _ _ Ho') ltac:(done)). by exists (file (base r)), recs.
  - destruct (Hcl _ _ _ _ _ Hor) as (j & ->). cbn [mbind res_bind]. rewrite <-E2 in Hm.
    destruct (Hdb _ recs' (op_base _ _ _ _ _ _ Hor) Hm). exists (file (base r')), recs'. splits; try done.
    pose proof (base_size _ _ _ (op_base _ _ _ _ _ _ Hor)). lia.
Qed.

(** Opening the constant database [m] with a new journal. *)
Definition open_new (ic : bool) (m : list Z) (log_size : Z) (b1 b2 : bool) : res rdb :=
  c ← Cdb.open m (empty_cdb ic []); Rdb.open c [] log_size b1 b2.

Lemma open_new_ok ic recs m log_size b1 b2 : Forall (λ x, key_good ic x.1) recs → distinct ic recs → made ic recs m →
  log_size = 0 ∨ sizeof_struct + sizeof_node <= log_size < 2 ^ 31 → 4096 + 16 * Z.of_nat (length recs) + text_size recs < 2 ^ 31 →
  ∃ r, open_new ic m log_size b1 b2 = Ok r ∧
    refines ic r (spec_of (disk_map ic recs)) true (4096 + 16 * Z.of_nat (length recs) + text_size recs + sizeof_struct).
Proof.
  intros Hk Hd Hm Hlog Hsz. destruct (made_open ic recs m Hk Hm) as (c & E & Hb & Hlen). unfold open_new. rewrite E. cbn [mbind res_bind].
  destruct (open_refines ic c recs log_size b1 b2 Hb Hd Hk Hlog) as (r & Er & Hr); [lia|]. exists r. split; [done|].
  pose proof (rtotal_text recs) as Ht. unfold start in Hr. consts. replace (512 * 8 + rtotal recs) with (4096 + rtotal recs) in Hr by lia.
  by replace (4096 + 16 * Z.of_nat (length recs) + text_size recs) with (4096 + rtotal recs + 8 * Z.of_nat (length recs)) by lia.
Qed.

(** C5: a record database is a map with transactions. On any constant database of records with different keys,
    or none, and a new journal that can grow, every sequence of fetches, stores, removals, substitutions,
    size queries, beginnings, commits and aborts of transactions (keys not empty, the two of a substitution in
    different trees of the hash table, everything below a gigabyte) returns, and every answer is the one of the
    specification: a finite map, a copy of it as it was when the transaction began, and the set of the keys
    removed since. [size] answers the number of keys of the map; it is asked for only where, since the journal
    was last emptied, no removed key was stored again and no key was replaced by one that is there
    ([sizes_ok]): after such a call the program's count is wrong ([store_after_remove], [substitute_count]). *)
Theorem rdb_refines e ic recs m log_size b1 b2 ops :
  (∀ n, grow e n = true) → (∀ n, creat e n = true) →
  Forall (λ x, key_good ic x.1) recs → distinct ic recs → made ic recs m →
  log_size = 0 ∨ sizeof_struct + sizeof_node <= log_size < 2 ^ 31 → Forall (op_ok ic) ops →
  sizes_ok ic ops (spec_of (disk_map ic recs)) true = true →
  4096 + 16 * Z.of_nat (length recs) + text_size recs + sizeof_struct + cost ops + 48 <= 2 ^ 30 →
  ∃ r r', open_new ic m log_size b1 b2 = Ok r ∧ run e ops r = Ok (r', spec_run ic ops (spec_of (disk_map ic recs))).
Proof.
  intros Hg Hc Hk Hd Hm Hlog Hops Hsz Hbud. pose proof (cost_nonneg ops).
  destruct (open_new_ok ic recs m log_size b1 b2 Hk Hd Hm Hlog) as (r & E & Hr); [rconsts; lia|].
  destruct (run_refines ic e Hg Hc ops r _ _ _ Hr Hops Hsz Hbud) as (r' & E' & _). by exists r, r'.
Qed.

Definition willing : env := Env (λ _, true) (λ _, true).

Definition some_records : list (list Z * list Z) := [(BS "one", BS "1"); (BS "two", BS "2")].

Definition some_ops : list op :=
  [Store (BS "three") (BS "3") 0; Store (BS "ONE") (BS "I") 0; Remove (BS "two"); Remove (BS "two"); Begin; Store (BS "one") (BS "I") 1;
   Size; Fetch (BS "One"); Abort; Fetch (BS "One"); Fetch (BS "two"); Size; Substitute (BS "one") (BS "eins") (BS "4") 0; Fetch (BS "Eins")].

Lemma some_base : ∃ m, make_database some_records (empty_cdb true (replicate 4200 0)) = Ok m ∧
  Forall (λ x, key_good true x.1) some_records ∧ distinct true some_records ∧ made true some_records m.
Proof.
  assert (E : ∃ m, make_database some_records (empty_cdb true (replicate 4200 0)) = Ok m) by (eexists; vm_compute; reflexivity).
  destruct E as [m E]. exists m. split; [exact E|]. split; [apply (bool_decide_eq_true_1 _); vm_compute; reflexivity|].
  split; [apply (bool_decide_eq_true_1 _); vm_compute; reflexivity|].
  right. split; [done|]. exists (empty_cdb true (replicate 4200 0)). split; [reflexivity|].
  split; [vm_compute; discriminate|]. split; [vm_compute; reflexivity|exact E].
Qed.

Lemma log_4000 : 4000 = 0 ∨ sizeof_struct + sizeof_node <= 4000 < 2 ^ 31.
Proof. right. split; [vm_compute; discriminate|vm_compute; reflexivity]. Qed.

(** The calls of an example have keys that are allowed. *)
Ltac ops_ok := repeat constructor; first [apply (bool_decide_eq_true_1 _); vm_compute; reflexivity | let H := fresh in intros H; vm_compute in H; discriminate].

Lemma rdb_refines_witness :
  ∃ m r r', make_database some_records (empty_cdb true (replicate 4200 0)) = Ok m ∧ open_new true m 4000 false true = Ok r ∧
    run willing some_ops r = Ok (r', [Code 0; Code (-1); Code 0; Code (-2); Flag true; Code 0; Number 2; Found (BS "I"); Flag true;
      Found (BS "1"); Missing; Number 2; Code 0; Found (BS "4")]).
Proof.
  destruct some_base as (m & E & Hk & Hd & Hm). assert (Ho : Forall (op_ok true) some_ops) by ops_ok.
  destruct (rdb_refines willing true some_records m 4000 false true some_ops (λ _, eq_refl) (λ _, eq_refl) Hk Hd Hm log_4000 Ho)
    as (r & r' & E1 & E2); [vm_compute; reflexivity|vm_compute; discriminate|].
  exists m, r, r'. split; [exact E|]. split; [exact E1|]. rewrite E2. vm_compute. reflexivity.
Defined.

(** C6: what is in a record database outlives it. After any sequence of calls [closeReorganize] leaves a
    constant database that holds the map (unless it is empty): opened with a new journal, it answers every
    further sequence of calls as the map would, [size] being asked for only where the count is right
    ([sizes_ok]). *)
Theorem rdb_durable e ic recs m log_size b1 b2 ops ops' :
  (∀ n, grow e n = true) → (∀ n, creat e n = true) →
  Forall (λ x, key_good ic x.1) recs → distinct ic recs → made ic recs m →
  log_size = 0 ∨ sizeof_struct + sizeof_node <= log_size < 2 ^ 31 → Forall (op_ok ic) ops → Forall (op_ok ic) ops' →
  sizes_ok ic ops (spec_of (disk_map ic recs)) true = true →
  sizes_ok ic ops' (spec_of (s_map (spec_final ic ops (spec_of (disk_map ic recs))))) true = true →
  4096 + 16 * Z.of_nat (length recs) + text_size recs + sizeof_struct + cost ops + cost ops' + 48 <= 2 ^ 30 →
  s_map (spec_final ic ops (spec_of (disk_map ic recs))) ≠ ∅ →
  ∃ r r' m' r2 r3, open_new ic m log_size b1 b2 = Ok r ∧ run e ops r = Ok (r', spec_run ic ops (spec_of (disk_map ic recs))) ∧
    closeReorganize e r' = Ok (Some m') ∧ open_new ic m' log_size b1 b2 = Ok r2 ∧
    run e ops' r2 = Ok (r3, spec_run ic ops' (spec_of (s_map (spec_final ic ops (spec_of (disk_map ic recs)))))).
Proof.
  intros Hg Hc Hk Hd Hm Hlog Hops Hops' Hsz Hsz' Hbud Hne. pose proof (cost_nonneg ops). pose proof (cost_nonneg ops').
  destruct (open_new_ok ic recs m log_size b1 b2 Hk Hd Hm Hlog) as (r & E & Hr); [rconsts; lia|].
  destruct (run_refines ic e Hg Hc ops r _ _ _ Hr Hops Hsz ltac:(lia)) as (r' & E' & Hr').
  destruct (closeReorganize_ok ic e r' _ _ _ Hc Hr' ltac:(lia) Hne) as (m' & recs' & Ec & Hdb & Hne' & Hd' & Hk' & Hmap & HB).
  assert (Hb : base_ok ic (Cdb m' (Z.of_nat (length recs')) (start + rtotal recs') ic 0 (Cursor 0 0 0 0 0 [] (0, 0))) recs').
  { split; [done|]. split; [done|]. split; [apply (db_size _ _ _ Hdb)|]. by right. }
  destruct (open_refines ic _ recs' log_size b1 b2 Hb Hd' Hk' Hlog) as (r2 & E2 & Hr2).
  { cbn [file]. destruct (db_size _ _ _ Hdb) as [Hx _]. change sizeof_slot with 8 in Hx. rconsts. lia. }
  rewrite Hmap in Hr2. destruct (run_refines ic e Hg Hc ops' r2 _ _ _ Hr2 Hops' Hsz' ltac:(lia)) as (r3 & E3 & _).
  exists r, r', m', r2, r3. split; [done|]. split; [done|]. split; [done|]. split; [|done].
  unfold open_new. rewrite (open_ok ic m' recs' Hdb). cbn [mbind res_bind empty_cdb ignore_case hr cur]. done.
Qed.

Lemma rdb_durable_witness :
  ∃ m r r' m' r2 r3, make_database some_records (empty_cdb true (replicate 4200 0)) = Ok m ∧ open_new true m 4000 false true = Ok r ∧
    run willing (take 3 some_ops) r = Ok (r', [Code 0; Code (-1); Code 0]) ∧ closeReorganize willing r' = Ok (Some m') ∧
    open_new true m' 4000 false true = Ok r2 ∧
    run willing [Fetch (BS "three"); Fetch (BS "two"); Size] r2 = Ok (r3, [Found (BS "3"); Missing; Number 2]).
Proof.
  destruct some_base as (m & E & Hk & Hd & Hm). assert (Ho : Forall (op_ok true) (take 3 some_ops)) by ops_ok.
  set (more := [Fetch (BS "three"); Fetch (BS "two"); Size]). assert (Ho' : Forall (op_ok true) more) by ops_ok.
  assert (Hne : s_map (spec_final true (take 3 some_ops) (spec_of (disk_map true some_records))) ≠ ∅).
  { intros H. apply (f_equal (lookup (canon true (BS "three")))) in H. vm_compute in H. discriminate. }
  destruct (rdb_durable willing true some_records m 4000 false true (take 3 some_ops) more (λ _, eq_refl) (λ _, eq_refl) Hk Hd Hm log_4000 Ho Ho'
    ltac:(vm_compute; reflexivity) ltac:(vm_compute; reflexivity) ltac:(vm_compute; discriminate) Hne) as (r & r' & m' & r2 & r3 & E1 & E2 & E3 & E4 & E5).
  exists m, r, r', m', r2, r3. split; [exact E|]. split; [exact E1|]. split; [rewrite E2; vm_compute; reflexivity|].
  split; [exact E3|]. split; [exact E4|]. rewrite E5. vm_compute. reflexivity.
Defined.

(** C7: the traversals. After any sequence of calls there is one list of the entries of the map, each key
    once, such that [getKeys], [callForAllEntry] and [print] give the keys, the entries and the text of the
    entries in the order of this list; and [callForAllEntrySorted], for any function that sorts the keys, calls
    its function on exactly these entries, provided the count of the entries, which it asks first, is right
    at the end ([count_exact]; [store_after_remove] shows what happens otherwise). *)
Theorem rdb_traversals e ic recs m log_size b1 b2 ops vec sorted :
  (∀ n, grow e n = true) → (∀ n, creat e n = true) →
  Forall (λ x, key_good ic x.1) recs → distinct ic recs → made ic recs m →
  log_size = 0 ∨ sizeof_struct + sizeof_node <= log_size < 2 ^ 31 → Forall (op_ok ic) ops →
  sizes_ok ic ops (spec_of (disk_map ic recs)) true = true →
  4096 + 16 * Z.of_nat (length recs) + text_size recs + sizeof_struct + cost ops + 48 <= 2 ^ 30 →
  (∀ ks, ∃ ks', sorted ks = Ok ks' ∧ ks' ≡ₚ ks) →
  let final := spec_final ic ops (spec_of (disk_map ic recs)) in
  ∃ r r' all, open_new ic m log_size b1 b2 = Ok r ∧ run e ops r = Ok (r', spec_run ic ops (spec_of (disk_map ic recs))) ∧
    distinct ic all ∧ disk_map ic all = s_map final ∧
    (∃ x, getKeys r' vec = Ok (x, vec ++ map fst all)) ∧ (∃ x, callForAllEntry r' = Ok (x, all)) ∧
    (∃ x, print r' = Ok (x, concat (map record_text all))) ∧
    (count_exact ic ops (spec_of (disk_map ic recs)) true = true → ∃ x calls, callForAllEntrySorted sorted r' = Ok (x, calls) ∧ calls ≡ₚ all).
Proof.
  intros Hg Hc Hk Hd Hm Hlog Hops Hsz Hbud Hsort final. pose proof (cost_nonneg ops).
  destruct (open_new_ok ic recs m log_size b1 b2 Hk Hd Hm Hlog) as (r & E & Hr); [rconsts; lia|].
  destruct (run_refines ic e Hg Hc ops r _ _ _ Hr Hops Hsz Hbud) as (r' & E' & Hr').
  destruct (traversals_ok ic r' final _ _ vec sorted Hr' Hsort) as (all & H1). by exists r, r', all.
Qed.

Lemma rdb_traversals_witness :
  ∃ m r r' all x calls, make_database some_records (empty_cdb true (replicate 4200 0)) = Ok m ∧ open_new true m 4000 false true = Ok r ∧
    run willing (take 3 some_ops) r = Ok (r', [Code 0; Code (-1); Code 0]) ∧
    callForAllEntrySorted (λ ks, Ok (reverse ks)) r' = Ok (x, calls) ∧ calls ≡ₚ all ∧
    disk_map true all = list_to_map [(BS "one", BS "1"); (BS "three", BS "3")].
Proof.
  destruct some_base as (m & E & Hk & Hd & Hm). assert (Ho : Forall (op_ok true) (take 3 some_ops)) by ops_ok.
  destruct (rdb_traversals willing true some_records m 4000 false true (take 3 some_ops) [] (λ ks, Ok (reverse ks)) (λ _, eq_refl) (λ _, eq_refl)
    Hk Hd Hm log_4000 Ho ltac:(vm_compute; reflexivity) ltac:(vm_compute; discriminate)) as (r & r' & all & E1 & E2 & _ & E3 & _ & _ & _ & E4).
  - intros ks. exists (reverse ks). split; [reflexivity|apply reverse_Permutation].
  - destruct E4 as (x & calls & E4 & Hp); [vm_compute; reflexivity|]. exists m, r, r', all, x, calls.
    split; [exact E|]. split; [exact E1|]. split; [rewrite E2; vm_compute; reflexivity|]. split; [exact E4|]. split; [exact Hp|].
    rewrite E3. apply (bool_decide_eq_true_1 _). vm_compute. reflexivity.
Defined.

(** ** Lines of the text *)

Lemma strtol_decimal n c tail : 0 <= n < 2 ^ 31 → isdigit c = false → strtol (Strftime.decimal 10 n ++ c :: tail) = (n, c :: tail).
Proof.
  intros Hn Hc. destruct (CacheFacts.decimal_head 9 n) as (d & ds & E & Hd); [lia|].
  assert (Hr := CacheFacts.read_decimal 10 n (c :: tail) ltac:(lia)). rewrite E in *. unfold strtol. cbn [app Cache.skip_blanks] in *.
  assert (Hsp : isspace d = false) by (revert Hd; unfold isspace, isdigit; zcases; done || lia). rewrite Hsp.
  assert (Hs : (d =? 45) = false ∧ (d =? 43) = false) by (revert Hd; unfold isdigit; zcases; done || lia).
  destruct Hs as [-> ->]. rewrite Hd, Hr. cbn [Cache.read_digits]. rewrite Hc. f_equal. rewrite u32_small; lia.
Qed.

(** The line of a key that starts with 0 is that of the empty key. *)
Lemma decimal_zero n : 0 < n < 2 ^ 31 → ∃ d ds, Strftime.decimal 10 n = d :: ds ∧ d ≠ 48.
Proof.
  intros Hn. assert (H : ∀ f m, 0 < m < 10 ^ Z.of_nat (S f) → ∃ d ds, Strftime.decimal (S f) m = d :: ds ∧ d ≠ 48).
  { induction f as [|f IH]; intros m Hm.
    - cbn [Strftime.decimal]. destruct (Z.ltb_spec m 10); [|simpl in Hm; lia]. exists (48 + m), []. split; [done|lia].
    - change (Strftime.decimal (S (S f)) m) with (if m <? 10 then [48 + m] else Strftime.decimal (S f) (m / 10) ++ [48 + m mod 10]).
      destruct (Z.ltb_spec m 10); [exists (48 + m), []; split; [done|lia]|].
      destruct (IH (m / 10)) as (d & ds & -> & Hd).
      { rewrite (Nat2Z.inj_succ (S f)), Z.pow_succ_r in Hm by lia. Z.div_mod_to_equations. lia. }
      by exists d, (ds ++ [48 + m mod 10]). }
  apply (H 9%nat n). lia.
Qed.

Lemma mrd_head (a b : list Z) : mrd (a ++ b) 0 (Z.of_nat (length a)) = Ok a.
Proof. rewrite mrd_ok by (rewrite ?length_app; lia). by rewrite drop_0, Nat2Z.id, take_app_length. Qed.

(** The lines of a text, as the program that loads a database reads them. *)
Fixpoint parse_lines (n : nat) (ptr : list Z) : res (list (list Z * option (list Z)) * list Z) :=
  match n with
  | O => Ok ([], ptr)
  | S n => x ← parseLine ptr; y ← parse_lines n x.2; Ok (x.1 :: y.1, y.2)
  end.

(** [parseLine] reads what [print] wrote for an entry. *)
Lemma parseLine_entry k d c tail : Z.of_nat (length k) < 2 ^ 31 → Z.of_nat (length d) < 2 ^ 31 →
  parseLine (entry_text k d ++ c :: tail) = Ok (k, Some d, c :: tail).
Proof.
  intros Hk Hd. assert (Et : entry_text k d ++ c :: tail = 43 :: Strftime.decimal 10 (Z.of_nat (length k)) ++ 44 ::
    (Strftime.decimal 10 (Z.of_nat (length d)) ++ 58 :: (k ++ 45 :: 62 :: (d ++ 10 :: c :: tail)))).
  { unfold entry_text. repeat (progress (rewrite <-?app_assoc; cbn [app])). done. }
  rewrite Et. unfold parseLine. cbn [drop]. set (rest := 44 :: _).
  assert (Hkn : match Strftime.decimal 10 (Z.of_nat (length k)) ++ rest with
    | c :: ptr' => if c =? 48 then Ok (0, ptr') else Ok (strtol (Strftime.decimal 10 (Z.of_nat (length k)) ++ rest)) | [] => Fail OutOfBounds end
    = Ok (Z.of_nat (length k), rest)).
  { destruct (decide (Z.of_nat (length k) = 0)) as [->|E0]; [done|]. destruct (decimal_zero (Z.of_nat (length k))) as (x & ds & E & Hx); [lia|].
    assert (Hs := strtol_decimal (Z.of_nat (length k)) 44 (tl rest) ltac:(lia) eq_refl). change (44 :: tl rest) with rest in Hs.
    rewrite E in *. cbn [app] in *. destruct (Z.eqb_spec x 48); [done|]. by rewrite Hs. }
  rewrite drop_0, Hkn. cbn [mbind res_bind drop rest]. rewrite drop_0. 
  destruct (CacheFacts.decimal_head 9 (Z.of_nat (length d))) as (x & ds & E & Hx); [lia|].
  assert (Hs := strtol_decimal (Z.of_nat (length d)) 58 (k ++ 45 :: 62 :: (d ++ 10 :: c :: tail)) ltac:(lia) eq_refl).
  rewrite E in *. cbn [app] in *. assert (Hx' : (x =? 45) = false) by (revert Hx; unfold isdigit; zcases; done || lia).
  rewrite Hx', Hs. cbn [mbind res_bind drop]. rewrite drop_0. rewrite mrd_head. cbn [mbind res_bind].
  destruct (Z.eqb_spec (Z.of_nat (length d)) U_NOT_FOUND) as [E0|_]; [unfold U_NOT_FOUND in E0; lia|].
  rewrite !Nat2Z.id, <-drop_drop, drop_app_length. cbn [drop]. rewrite drop_0, mrd_head. cbn [mbind res_bind]. by rewrite drop_app_length.
Qed.

(** C8: the text that [print] writes is read back line by line: [parseLine] finds the keys and the data of all
    entries of a text, whatever bytes they hold, and where the next line begins. *)
Theorem parseLine_print recs c tail : Forall (λ r, Z.of_nat (length r.1) < 2 ^ 31 ∧ Z.of_nat (length r.2) < 2 ^ 31) recs →
  parse_lines (length recs) (concat (map record_text recs) ++ c :: tail) = Ok (map (λ r, (r.1, Some r.2)) recs, c :: tail).
Proof.
  induction 1 as [|r recs [Hk Hd] _ IH]; [done|]. cbn [length parse_lines map concat]. rewrite <-app_assoc.
  destruct (concat (map record_text recs) ++ c :: tail) as [|x rest] eqn:E; [by destruct (concat (map record_text recs))|].
  change (record_text r) with (entry_text r.1 r.2). rewrite (parseLine_entry r.1 r.2 x rest) by done. cbn [mbind res_bind fst snd]. by rewrite IH.
Qed.

Lemma parseLine_print_witness :
  parse_lines 2 (concat (map record_text [(BS "one", [10]); (BS "", BS "->")]) ++ [0]) = Ok ([(BS "one", Some [10]); (BS "", Some (BS "->"))], [0]).
Proof.
  apply (parseLine_print [(BS "one", [10]); (BS "", BS "->")] 0 []).
  repeat constructor.
Defined.

(** ** Where the code does something else *)

(** A key that is stored again after it was removed is not counted: the database has an entry, its size is 0
    and [callForAllEntrySorted] does not find it. *)
Lemma store_after_remove :
  (r ← open_new false [] 4000 false true;
   x ← run willing [Store (BS "a") (BS "1") 0; Remove (BS "a"); Store (BS "a") (BS "1") 0; Fetch (BS "a"); Size] r;
   y ← callForAllEntrySorted Ok x.1; Ok (x.2, y.2))
  = Ok ([Code 0; Code 0; Code 0; Found (BS "1"); Number 0], []).
Proof. vm_compute. reflexivity. Qed.

(** Replacing a key by itself removes it. *)
Lemma substitute_same :
  (r ← open_new false [] 4000 false true; x ← run willing [Store (BS "a") (BS "1") 0] r;
   y ← substitute_key willing (BS "a") (BS "a") (BS "2") RDB_REPLACE x.1; z ← run willing [Fetch (BS "a")] y.1; Ok (y.2, z.2))
  = Ok (0, [Missing]).
Proof. vm_compute. reflexivity. Qed.

(** Replacing a key by one that is there leaves a count that is too high; [printSorted] then asks for more keys
    than there are. *)
Lemma substitute_count :
  (r ← open_new false [] 4000 false true; x ← run willing [Store (BS "a") (BS "1") 0; Store (BS "b") (BS "1") 0] r;
   y ← substitute_key willing (BS "a") (BS "b") (BS "2") RDB_REPLACE x.1; z ← run willing [Size] y.1; Ok (z.2, printSorted Ok z.1))
  = Ok ([Number 2], Fail OutOfBounds).
Proof. vm_compute. reflexivity. Qed.

(** When the two keys of a substitution end at the same null pointer, the new entry is lost. *)
Lemma substitute_same_tree :
  (m ← make_database [(BS "a", BS "1")] (empty_cdb false (replicate 4200 0)); r ← open_new false m 4000 false true;
   y ← substitute_key willing (BS "a") (BS "1562") (BS "2") RDB_REPLACE r;
   z ← run willing [Fetch (BS "a"); Fetch (BS "1562")] y.1; Ok (y.2, z.2))
  = Ok (0, [Missing; Missing]).
Proof. vm_compute. reflexivity. Qed.

(** A replacement for which the journal has no room removes the entry that was to be replaced. *)
Lemma store_no_room :
  (r ← open_new false [] 4000 false true; x ← run willing [Store (BS "a") (BS "1") 0] r;
   z ← run (Env (λ _, false) (λ _, false)) [Fetch (BS "a"); Store (BS "a") (replicate 900 65) RDB_REPLACE; Fetch (BS "a")] x.1; Ok z.2)
  = Ok [Found (BS "1"); Code (-3); Missing].
Proof. vm_compute. reflexivity. Qed.

(** A journal that was closed is opened without room: the node of the next new key is beyond its end. *)
Lemma store_after_close :
  (r ← open_new false [] 4000 false true; x ← run willing [Store (BS "a") (BS "1") 0] r; j ← close x.1;
   c ← Cdb.open [] (empty_cdb false []); r ← Rdb.open c j 0 false true; z ← run willing [Fetch (BS "a")] r;
   Ok (z.2, run willing [Store (BS "b") (BS "1") 0] z.1))
  = Ok ([Found (BS "1")], Fail OutOfBounds).
Proof. vm_compute. reflexivity. Qed.
