(* ===== verification/Tokenizer.v ===== *)
(** * Taking a text apart ([UTokenizer], [src/ulib/tokenizer.cpp], [include/ulib/tokenizer.h])

    [str] is the memory from the start of the string on, its text and what lies behind it; [s] and [end_] are
    offsets in it. The static members are a record of their own, [settings]. *)

From S2P Require Import Prelude CType Memory Search.

Record tok := Tok { str : list Z; s : Z; end_ : Z }.

Definition set_s (p : Z) (t : tok) : tok := Tok (str t) p (end_ t).

(** [setData(data)]: [n] characters, and the memory behind them. *)
Definition setData (data behind : list Z) : tok := Tok (data ++ behind) 0 (Z.of_nat (length data)).

Definition atEnd (t : tok) : bool := end_ t <=? s t.

(** [while (s < end && p( *s)) ++s]. *)
Definition skip (p : Z → bool) (t : tok) : res tok :=
  e ← skip_while p (str t) (s t) (Z.to_nat (end_ t - s t)); Ok (set_s e t).

Definition skipSpaces : tok → res tok := skip u__isspace.

Definition getDistance (size : Z) (t : tok) : Z := if s t <? end_ t then s t else size.

Definition current (t : tok) : res Z := if end_ t <=? s t then Ok 0 else rd (str t) (s t).

(** [next()]: the character, NUL at the end. *)
Definition next (t : tok) : res (tok * Z) :=
  if end_ t <=? s t then Ok (t, 0) else c ← rd (str t) (s t); Ok (set_s (s t + 1) t, c).

Definition back (t : tok) : tok := set_s (s t - 1) t.

(** [str.substr(p, e - p)]. *)
Definition substr (t : tok) (p e : Z) : res (list Z) := mrd (str t) p (u32 (e - p)).

(** ** Tokens between separators *)

(** [next(token, func)]; the loop over the separators is the search for the first other character. *)
Definition next_func (func : Z → bool) (t : tok) : res (tok * option (list Z)) :=
  t ← skip func t;
  if end_ t <=? s t then Ok (t, None)
  else
    let p := s t in
    t ← skip (λ c, negb (func c)) t;
    token ← substr t p (s t);
    Ok (set_s (s t + 1) t, Some token).

(** [memchr(s, c, end - s)], or the end. *)
Definition find_end (c : Z) (t : tok) : res Z :=
  r ← memchr (drop (Z.to_nat (s t)) (str t)) c (Z.to_nat (end_ t - s t));
  Ok (match r with Some k => s t + k | None => end_ t end).

(** [next(token, c)]. *)
Definition next_char (c : Z) (t : tok) : res (tok * option (list Z)) :=
  t ← skip (Z.eqb c) t;
  if end_ t <=? s t then Ok (t, None)
  else
    let p := s t in
    e ← find_end c t;
    token ← substr t p e;
    Ok (set_s (e + 1) t, Some token).

(** [extend(token, c)] for a token that starts at [p]. *)
Definition extend (p c : Z) (t : tok) : res (tok * option (list Z)) :=
  t ← skip (Z.eqb c) t;
  if end_ t <=? s t then Ok (t, None)
  else e ← find_end c t; token ← substr t p e; Ok (set_s (e + 1) t, Some token).

(** ** Words, texts in quotes and groups *)

Record settings := Settings {
  group : option (list Z); group_skip : bool; avoid_punctuation : bool }.

Definition group_len_div_2 (g : list Z) : Z := Z.of_nat (length g) / 2.

Definition setGroup (grp : option (list Z)) (bskip : bool) (g : settings) : settings :=
  Settings grp bskip (avoid_punctuation g).

Definition setSkipTagXML (flag : bool) (g : settings) : settings :=
  if flag then setGroup (Some (BS "<>")) true g else setGroup None false g.

Definition setAvoidPunctuation (flag : bool) (g : settings) : settings :=
  Settings (group g) (group_skip g) flag.

(** The punctuation at the start of the [n] characters from [p] to [e]; [None] is [goto loop]. *)
Fixpoint punct_start (fuel : nat) (m : list Z) (p e n : Z) : res (option (Z * Z)) :=
  match fuel with
  | O => Fail OutOfFuel
  | S fuel =>
      c ← rd m p;
      if u__ispunct c then if p + 1 =? e then Ok None else punct_start fuel m (p + 1) e (u32 (n - 1))
      else Ok (Some (p, n))
  end.

(** The punctuation at the end of the [n] characters from [p] on. *)
Fixpoint punct_end (fuel : nat) (m : list Z) (p n : Z) : res (option Z) :=
  match fuel with
  | O => Fail OutOfFuel
  | S fuel =>
      c ← rd m (p + n - 1);
      if u__ispunct c then let n := u32 (n - 1) in if n =? 0 then Ok None else punct_end fuel m p n
      else Ok (Some n)
  end.

(** From the label [tok] on: the token from [p] to [s], or [goto loop]. *)
Definition take_token (g : settings) (t : tok) (p shift : Z) (bgroup : bool) :
    res (tok * Z * bool * bool + tok * option (list Z) * bool) :=
  let n := u32 (s t - p) in
  r ← (if avoid_punctuation g then
         a ← punct_start (S (length (str t))) (str t) p (s t) n;
         match a with
         | Some (p, n) =>
             b ← punct_end (S (length (str t))) (str t) p n;
             Ok (match b with Some n => Some (p, n) | None => None end)
         | None => Ok None
         end
       else Ok (Some (p, n)));
  match r with
  | Some (p, n) => token ← mrd (str t) p n; Ok (inr (set_s (s t + shift) t, Some token, bgroup))
  | None => Ok (inl (t, shift, bgroup, false))
  end.

(** A group that opens at [s]: its inside is the token, or is left out. *)
Definition next_group (g : settings) (grp : list Z) (t : tok) (shift : Z) (bgroup : bool) :
    res (tok * Z * bool * bool + tok * option (list Z) * bool) :=
  let p := s t + group_len_div_2 grp - 1 in
  e ← u_strpend (drop (Z.to_nat p) (str t)) (end_ t - p) grp 0;
  let e := match e with Some k => p + k | None => end_ t end in
  if group_skip g then Ok (inl (set_s (e + group_len_div_2 grp) t, shift, bgroup, true))
  else take_token g (set_s e t) (p + 1) (group_len_div_2 grp) true.

(** A word, cut off where a group opens in it. *)
Definition next_before_group (g : settings) (grp : list Z) (t : tok) (shift : Z) (bgroup : bool) :
    res (tok * Z * bool * bool + tok * option (list Z) * bool) :=
  r ← u_delimit_token (str t) (s t) (end_ t) None 0;
  match r with
  | (e, Some p) =>
      c ← rd grp 0;
      x ← (if e <? end_ t then
             k ← memchr (drop (Z.to_nat p) (str t)) c (Z.to_nat (e - p));
             match k with
             | Some k =>
                 b ← memequal (drop (Z.to_nat (p + k)) (str t)) grp (length grp / 2);
                 Ok (if b : bool then Some (p + k) else None)
             | None => Ok None
             end
           else Ok None);
      match x with
      | Some x => take_token g (set_s x t) p 0 bgroup
      | None => take_token g (set_s e t) p shift bgroup
      end
  | (e, None) => Fail OutOfBounds
  end.

(** A word up to white space. *)
Definition next_word (g : settings) (t : tok) (shift : Z) (bgroup : bool) :
    res (tok * Z * bool * bool + tok * option (list Z) * bool) :=
  r ← u_delimit_token (str t) (s t) (end_ t) None 0;
  match r with
  | (e, Some p) => take_token g (set_s e t) p shift bgroup
  | (e, None) => Fail OutOfBounds
  end.

(** One round of the loop of [next(token, bgroup)]: the tokenizer, [shift], [*bgroup], and whether [s < end] is
    to be tested: [goto loop] does not. *)
Definition next_step (g : settings) (delim : option (list Z)) (st : tok * Z * bool * bool) :
    res (tok * Z * bool * bool + tok * option (list Z) * bool) :=
  let '(t, shift, bgroup, checked) := st in
  if checked && negb (s t <? end_ t) then Ok (inr (t, None, bgroup))
  else
    match delim with
    | Some _ =>
        r ← u_delimit_token (str t) (s t) (end_ t) delim 0;
        match r with
        | (e, Some p) => take_token g (set_s e t) p shift bgroup
        | (e, None) => Ok (inr (set_s e t, None, bgroup))
        end
    | None =>
        e ← u_skip (str t) (s t) (end_ t) None 0;
        let t := set_s e t in
        if e =? end_ t then Ok (inr (t, None, bgroup))
        else
          match group g with
          | Some grp =>
              b ← memequal (drop (Z.to_nat e) (str t)) grp (length grp / 2);
              if b : bool then next_group g grp t shift bgroup
              else if group_skip g then next_before_group g grp t shift bgroup
              else next_word g t shift bgroup
          | None => next_word g t shift bgroup
          end
    end.

(** [next(token, bgroup)]: the token, and what [*bgroup] becomes. *)
Definition next_tok (g : settings) (delim : option (list Z)) (t : tok) : res (tok * option (list Z) * bool) :=
  iterate (S (2 * length (str t))) (next_step g delim) (t, 1, false, true).

(** ** Parts of a syntax *)

Definition tokenSeen (x : list Z) (t : tok) : res (tok * bool) :=
  t ← skipSpaces t;
  if s t <? end_ t then
    b ← memequal (drop (Z.to_nat (s t)) (str t)) x (length x);
    Ok (if b : bool then (set_s (s t + Z.of_nat (length x)) t, true) else (t, false))
  else Ok (t, false).

(** [distance(s)] is the number of the characters before [s]. *)
Definition skipToken (token : list Z) (t : tok) : res (tok * bool) :=
  if Z.of_nat (length token) <=? s t then
    b ← memequal (drop (Z.to_nat (s t)) (str t)) token (length token);
    Ok (if b : bool then (set_s (s t + Z.of_nat (length token)) t, true) else (t, false))
  else Ok (t, false).

(** The characters of a number from [s] on, whether they are those of a real number, and whether the number
    ends before the end of the text. *)
Fixpoint skip_number (m : list Z) (s : Z) (todo : nat) (isReal : bool) : res (Z * bool * bool) :=
  match todo with
  | O => Ok (s, isReal, false)
  | S todo =>
      c ← rd m s;
      if u__isdigit c || (c =? CH "-") then skip_number m (s + 1) todo isReal
      else if (c =? CH ".") || (c =? CH "e") || (c =? CH "E") || (c =? CH "+") then skip_number m (s + 1) todo true
      else Ok (s, isReal, true)
  end.

Definition skipNumber (t : tok) : res (tok * bool * bool) :=
  r ← skip_number (str t) (s t) (Z.to_nat (end_ t - s t)) false;
  let '(e, isReal, result) := r in Ok (set_s e t, isReal, result).

(** [while (s < end && *s++ != quote) {}]. *)
Fixpoint to_quote (m : list Z) (s : Z) (todo : nat) : res Z :=
  match todo with
  | O => Ok s
  | S todo => c ← rd m s; if c =? 34 then Ok (s + 1) else to_quote m (s + 1) todo
  end.

Definition ends_name (c : Z) : bool := u__isspace c || (c =? CH "(") || (c =? CH ")").

(** The first character is taken without a look at the end of the text. *)
Definition getTokenQueryParser (t : tok) : res (tok * list Z) :=
  t ← skipSpaces t;
  let p := s t in
  let t := set_s (p + 1) t in
  c ← rd (str t) p;
  t ← (if c =? 34 then e ← to_quote (str t) (s t) (Z.to_nat (end_ t - s t)); Ok (set_s e t)
       else skip (λ c, negb (ends_name c)) t);
  token ← substr t p (s t);
  Ok (t, token).

(** ** The tokens of an expression *)

Definition U_TK_ERROR : Z := -1.
Definition U_TK_AND : Z := 1.
Definition U_TK_OR : Z := 2.
Definition U_TK_EQ : Z := 3.
Definition U_TK_NE : Z := 4.
Definition U_TK_GT : Z := 5.
Definition U_TK_GE : Z := 6.
Definition U_TK_LT : Z := 7.
Definition U_TK_LE : Z := 8.
Definition U_TK_STARTS_WITH : Z := 9.
Definition U_TK_ENDS_WITH : Z := 10.
Definition U_TK_IS_PRESENT : Z := 11.
Definition U_TK_CONTAINS : Z := 12.
Definition U_TK_PLUS : Z := 13.
Definition U_TK_MINUS : Z := 14.
Definition U_TK_MULT : Z := 15.
Definition U_TK_DIV : Z := 16.
Definition U_TK_MOD : Z := 17.
Definition U_TK_NOT : Z := 18.
Definition U_TK_FN_CALL : Z := 19.
Definition U_TK_LPAREN : Z := 20.
Definition U_TK_RPAREN : Z := 21.
Definition U_TK_VALUE : Z := 22.
Definition U_TK_COMMA : Z := 23.
Definition U_TK_NAME : Z := 24.
Definition U_TK_PID : Z := 25.

(** [tid = ( *s == c ? (++s, a) : b)]. *)
Definition either (c a b : Z) (t : tok) : res (tok * Z) :=
  x ← rd (str t) (s t); Ok (if x =? c then (set_s (s t + 1) t, a) else (t, b)).

(** The characters of one and of two characters. *)
Definition operator (c : Z) (t : tok) : option (res (tok * Z)) :=
  if c =? CH "+" then Some (Ok (t, U_TK_PLUS))
  else if c =? CH "-" then Some (Ok (t, U_TK_MINUS))
  else if c =? CH "%" then Some (Ok (t, U_TK_MOD))
  else if c =? CH "(" then Some (Ok (t, U_TK_LPAREN))
  else if c =? CH ")" then Some (Ok (t, U_TK_RPAREN))
  else if c =? CH "," then Some (Ok (t, U_TK_COMMA))
  else if c =? CH "|" then Some (either (CH "|") U_TK_OR U_TK_ERROR t)
  else if c =? CH "&" then Some (either (CH "&") U_TK_AND U_TK_ERROR t)
  else if c =? CH "=" then Some (either (CH "=") U_TK_EQ U_TK_EQ t)
  else if c =? CH ">" then Some (either (CH "=") U_TK_GE U_TK_GT t)
  else if c =? CH "<" then Some (either (CH "=") U_TK_LE U_TK_LT t)
  else if c =? CH "!" then Some (either (CH "=") U_TK_NE U_TK_NOT t)
  else if c =? CH "~" then Some (either (CH "=") U_TK_IS_PRESENT U_TK_ERROR t)
  else if c =? CH "^" then Some (either (CH "=") U_TK_STARTS_WITH U_TK_ERROR t)
  else if c =? CH "*" then Some (either (CH "=") U_TK_CONTAINS U_TK_MULT t)
  else None.

(** From the label [value] on: [c] is the last character looked at. *)
Fixpoint value_end (m : list Z) (s : Z) (todo : nat) (c : Z) : res (Z * Z) :=
  match todo with
  | O => Ok (s, c)
  | S todo =>
      c ← rd m s;
      if (c =? CH "(") || (c =? CH ")") || (c =? CH ",") || negb (u__isgraph c) then Ok (s, c)
      else value_end m (s + 1) todo c
  end.

Definition get_value (c p1 : Z) (t : tok) : res (tok * Z * Z * Z) :=
  r ← value_end (str t) (s t) (Z.to_nat (end_ t - s t)) c;
  let '(e, c) := r in
  Ok (set_s e t, if c =? CH "(" then U_TK_FN_CALL else U_TK_VALUE, p1, e).

(** A text up to the character [c], which is left out. *)
Definition delimited (c tid : Z) (t : tok) : res (tok * Z * Z * Z) :=
  let p1 := s t in
  t ← skip (λ x, negb (x =? c)) t; Ok (set_s (s t + 1) t, tid, p1, s t).

Definition get_name (t : tok) (p1 : Z) : res (tok * Z * Z * Z) :=
  x ← rd (str t) (s t);
  let t' := set_s (s t + 1) t in
  if x =? CH "=" then Ok (t', U_TK_ENDS_WITH, p1, s t')
  else if x =? CH "$" then Ok (t', U_TK_PID, p1, s t')
  else if x =? CH "{" then delimited (CH "}") U_TK_NAME t'
  else let p1 := s t in t ← skip u__isname t; Ok (t, U_TK_NAME, p1, s t).

(** The switch on the character [c] at [p1]: the token goes from the third to the fourth component. *)
Definition token_switch (c p1 : Z) (t : tok) : res (tok * Z * Z * Z) :=
  if (CH "0" <=? c) && (c <=? CH "9") then
    t ← skip u__isdigit t; Ok (t, U_TK_VALUE, p1, s t)
  else if c =? CH "'" then delimited (CH "'") U_TK_VALUE t
  else
    match operator c t with
    | Some r => r ← r; Ok (r.1, r.2, p1, s r.1)
    | None =>
        if c =? CH "$" then get_name t p1
        else if (c =? CH "t") || (c =? CH "f") then
          r ← skipToken (if c =? CH "t" then BS "rue" else BS "alse") t;
          if r.2 : bool then Ok (r.1, U_TK_VALUE, p1, if c =? CH "t" then s r.1 else p1)
          else get_value c p1 t
        else if c =? CH "/" then
          c ← rd (str t) (s t);
          if u__isdigit c || u__isspace c then Ok (t, U_TK_DIV, p1, s t) else get_value c p1 t
        else get_value c p1 t
    end.

Definition getTokenId (t : tok) : res (tok * Z * list Z) :=
  t ← skipSpaces t;
  let p1 := s t in
  if end_ t <=? p1 then Ok (t, 0, [])
  else
    c ← rd (str t) p1;
    r ← token_switch c p1 (set_s (p1 + 1) t);
    let '(t, tid, p1, p2) := r in
    token ← substr t p1 p2; Ok (t, tid, token).

(** ** The words of a text *)

(** A loop [while (t.next(token, ...)) vec.push(token)]. *)
Definition collect_step (next : tok → res (tok * option (list Z))) (st : tok * list (list Z)) :
    res (tok * list (list Z) + list (list Z)) :=
  r ← next st.1;
  Ok (match r.2 with Some w => inl (r.1, st.2 ++ [w]) | None => inr st.2 end).

Definition collect (n : nat) (next : tok → res (tok * option (list Z))) (t : tok) : res (list (list Z)) :=
  iterate n (collect_step next) (t, []).

(** A tokenizer inside a text: [text] is left. *)
Definition at_text (pre text behind : list Z) : tok :=
  Tok (pre ++ text ++ behind) (Z.of_nat (length pre)) (Z.of_nat (length pre + length text)).

(** What a function that takes the next word promises: on a text of [ok] characters it gives the first run of
    characters that do not separate and stands behind it and one separator; at the end it gives nothing. *)
Class NextWord (ok : Z → Prop) (sep : Z → bool) (next : tok → res (tok * option (list Z))) : Prop := {
  next_at_end t : end_ t <= s t → ∃ t', next t = Ok (t', None);
  next_in_text pre text behind :
    Forall ok text → Z.of_nat (length text) < 2 ^ 32 →
    (words sep None text = [] ∧ ∃ t', next (at_text pre text behind) = Ok (t', None)) ∨
    ∃ w k, (0 < k)%nat ∧ words sep None text = w :: words sep None (drop k text) ∧
      next (at_text pre text behind) = Ok (set_s (Z.of_nat (length pre + k)) (at_text pre text behind), Some w) }.

Lemma collect_words ok sep next `{!NextWord ok sep next} n pre text behind acc :
  Forall ok text → Z.of_nat (length text) < 2 ^ 32 → (length text < n)%nat →
  iterate n (collect_step next) (at_text pre text behind, acc) = Ok (acc ++ words sep None text).
Proof.
  revert pre text acc. induction n as [|n IH]; intros pre text acc Hok Hlen Hn; [lia|]. cbn [iterate]. unfold collect_step at 1.
  cbn [fst snd]. destruct (next_in_text (sep := sep) pre text behind Hok Hlen) as [[Hw [t' ->]]|(w & k & Hk & Hw & ->)];
    cbn [mbind res_bind fst snd].
  - by rewrite Hw, app_nil_r.
  - rewrite Hw. destruct (Nat.lt_ge_cases k (length text)) as [Hlt|Hge].
    + replace (set_s _ _) with (at_text (pre ++ take k text) (drop k text) behind).
      * rewrite IH; [by rewrite <- app_assoc|by apply Forall_drop|rewrite length_drop; lia|rewrite length_drop; lia].
      * unfold set_s, at_text. cbn [str end_]. rewrite !length_app, length_take, length_drop.
        rewrite <- (app_assoc pre), (app_assoc (take k text)), take_drop. f_equal; lia.
    + rewrite (drop_ge text k) by lia. destruct text as [|x text]; [done|]. cbn [words length] in *.
      destruct n as [|n]; [lia|]. cbn [iterate]. unfold collect_step. cbn [fst snd].
      edestruct (next_at_end (NextWord := NextWord0)) as [t' ->]; [unfold set_s, at_text; cbn; lia|]. done.
Qed.

(** ** The functions that take words *)

Lemma skip_run (p : Z → bool) t pre run post behind :
  str t = pre ++ run ++ post ++ behind → s t = Z.of_nat (length pre) →
  end_ t = Z.of_nat (length pre + length run + length post) → Forall (λ c, p c = true) run →
  match post with [] => True | c :: _ => p c = false end →
  skip p t = Ok (set_s (Z.of_nat (length pre + length run)) t).
Proof.
  intros Hm Hs He Hrun Hpost. unfold skip. rewrite Hm, Hs, skip_while_run; [done|done|lia|].
  destruct post as [|c post]; [|by left]. cbn [app length] in *. destruct behind; [|right]; lia.
Qed.

Lemma substr_at t pre word rest : str t = pre ++ word ++ rest → Z.of_nat (length word) < 2 ^ 32 →
  substr t (Z.of_nat (length pre)) (Z.of_nat (length pre + length word)) = Ok word.
Proof.
  intros Hm Hl. unfold substr. rewrite Hm, u32_small, mrd_ok; [|lia..|rewrite !length_app; lia|lia]. f_equal.
  rewrite drop_app_length' by lia. by rewrite take_app_length' by lia.
Qed.

(** The shape of a text that is not only separators. *)
Lemma words_shape sep text : words sep None text = [] ∧ Forall (λ c, sep c = true) text ∨
  ∃ seps c word post, text = seps ++ c :: word ++ post ∧ Forall (λ c, sep c = true) seps ∧ sep c = false ∧
    Forall (λ c, sep c = false) word ∧ match post with [] => True | x :: _ => sep x = true end ∧
    words sep None text = (c :: word) :: words sep None (drop (length seps + S (S (length word))) text).
Proof.
  destruct (span_of sep text) as (seps & rest & -> & Hs & Hr). destruct rest as [|c rest].
  - left. rewrite words_seps by done. by rewrite app_nil_r.
  - right. destruct (span_of (λ c, negb (sep c)) rest) as (word & post & -> & Hw & Hp).
    exists seps, c, word, post. splits; try done.
    + eapply Forall_impl; [exact Hw|]. intros x Hx. by apply negb_true_iff.
    + destruct post; [done|]. by apply negb_false_iff.
    + rewrite words_seps by done. cbn [words]. rewrite Hr. cbn [default].
      rewrite words_word by (eapply Forall_impl; [exact Hw|]; intros x Hx; by apply negb_true_iff).
      rewrite drop_app_ge by lia. replace (length seps + _ - length seps)%nat with (S (S (length word))) by lia.
      cbn [drop]. rewrite drop_app_ge by lia. replace (_ - _)%nat with 1%nat by lia.
      destruct post as [|x post]; [done|]. apply negb_false_iff in Hp. by rewrite Hp.
Qed.

(** Lists and lengths of memory and text. *)
Ltac memory_solve :=
  unfold at_text, set_s; cbn [str s end_]; rewrite ?length_app; cbn [length app]; rewrite ?length_app; cbn [length];
  first [lia | repeat (rewrite <- app_assoc; cbn [app]); done].

(** Blanks before something else. *)
Definition spaces (bl : list Z) : Prop := Forall (λ c, u__isspace c = true) bl.

Lemma skip_blanks_at pre bl rest behind : spaces bl → match rest with [] => True | c :: _ => u__isspace c = false end →
  skipSpaces (at_text pre (bl ++ rest) behind) = Ok (at_text (pre ++ bl) rest behind).
Proof.
  intros Hbl Hr. unfold skipSpaces. rewrite (skip_run u__isspace _ pre bl rest behind); [|memory_solve..|done|done].
  f_equal. unfold set_s, at_text. cbn [str end_]. rewrite !length_app, <- !app_assoc. f_equal; lia.
Qed.

(** The rest of the words, on the text without separators at its start. *)
Lemma words_at pre seps c word post behind sep : Forall (λ c, sep c = true) seps →
  match post with [] => True | x :: _ => sep x = true end → sep c = false → Forall (λ c, sep c = false) word →
  Z.of_nat (length (seps ++ c :: word ++ post)) < 2 ^ 32 →
  let t := at_text pre (seps ++ c :: word ++ post) behind in
  let p := Z.of_nat (length pre + length seps) in
  let e := Z.of_nat (length pre + length seps + S (length word)) in
  skip sep t = Ok (set_s p t) ∧ skip (λ c, negb (sep c)) (set_s p t) = Ok (set_s e t) ∧ substr t p e = Ok (c :: word).
Proof.
  intros Hs Hp Hc Hw Hl. rewrite !length_app in Hl. cbn [length] in Hl. rewrite length_app in Hl. cbv zeta. splits.
  - apply (skip_run sep _ pre seps (c :: word ++ post) behind); [memory_solve..|done|done].
  - rewrite (skip_run _ _ (pre ++ seps) (c :: word) post behind); [|memory_solve..| |].
    + f_equal. unfold set_s. f_equal. memory_solve.
    + constructor; [by rewrite Hc|]. eapply Forall_impl; [exact Hw|]. intros x Hx. simpl. by rewrite Hx.
    + destruct post; [done|]. by rewrite Hp.
  - replace (Z.of_nat (length pre + length seps)) with (Z.of_nat (length (pre ++ seps))) by memory_solve.
    replace (Z.of_nat (_ + S _)) with (Z.of_nat (length (pre ++ seps) + length (c :: word))) by memory_solve.
    apply (substr_at _ _ _ (post ++ behind)); [memory_solve|cbn [length]; lia].
Qed.

Lemma skip_all (sep : Z → bool) pre seps behind : Forall (λ c, sep c = true) seps →
  skip sep (at_text pre seps behind) = Ok (set_s (Z.of_nat (length pre + length seps)) (at_text pre seps behind)).
Proof. intros Hs. apply (skip_run sep _ pre seps [] behind); [memory_solve..|done|done]. Qed.

Lemma skip_end (p : Z → bool) t : end_ t <= s t → skip p t = Ok (set_s (s t) t).
Proof. intros Ht. unfold skip. by rewrite Z2Nat.nonpos by lia. Qed.

#[export] Instance next_func_words func : NextWord (λ _, True) func (next_func func).
Proof.
  split.
  - intros t Ht. unfold next_func. rewrite skip_end by done. cbn [mbind res_bind set_s s end_].
    destruct (Z.leb_spec (end_ t) (s t)); [by eexists|lia].
  - intros pre text behind _ Hlen. unfold next_func. destruct (words_shape func text) as [[Hw Hs]|(seps & c & word & post & -> & Hs & Hc & Hw & Hp & E)].
    + left. split; [done|]. rewrite skip_all by done. cbn [mbind res_bind set_s s end_ at_text]. rewrite Z.leb_refl. by eexists.
    + right. exists (c :: word), (length seps + S (S (length word)))%nat. splits; [lia|done|].
      destruct (words_at pre seps c word post behind func Hs Hp Hc Hw Hlen) as (-> & E2 & E3). cbn [mbind res_bind].
      rewrite (proj2 (Z.leb_gt _ _)) by memory_solve. rewrite E2. cbn [mbind res_bind].
      change (substr (set_s _ _)) with (substr (at_text pre (seps ++ c :: word ++ post) behind)).
      cbn [set_s s] in *. rewrite E3. cbn [mbind res_bind]. unfold set_s, at_text. do 3 f_equal. memory_solve.
Qed.

Lemma memchr_run c run post n : Forall (λ x, (c =? x) = false) run → (length run <= n)%nat →
  match post with [] => n = length run | x :: _ => x = c ∨ n = length run end →
  memchr (run ++ post) c n = Ok (if (n =? length run)%nat then None else Some (Z.of_nat (length run))).
Proof.
  intros Hrun. revert n. induction Hrun as [|x run Hx _ IH]; intros n Hn Hpost; cbn [app length] in *.
  - destruct post as [|x post]; [by subst n|]. destruct n as [|n]; [done|]. cbn [memchr].
    destruct Hpost as [->|]; [|lia]. by rewrite Z.eqb_refl.
  - destruct n as [|n]; [lia|]. cbn [memchr]. rewrite Z.eqb_sym, Hx, IH; [|lia|destruct post; [lia|destruct Hpost; [by left|right; lia]]].
    cbn [mbind res_bind]. change (S n =? S (length run))%nat with (n =? length run)%nat.
    destruct (n =? length run)%nat; cbn; [done|do 2 f_equal; lia].
Qed.

Lemma find_end_run c t pre run post behind :
  str t = pre ++ run ++ post ++ behind → s t = Z.of_nat (length pre) →
  end_ t = Z.of_nat (length pre + length run + length post) → Forall (λ x, (c =? x) = false) run →
  match post with [] => True | x :: _ => (c =? x) = true end →
  find_end c t = Ok (Z.of_nat (length pre + length run)).
Proof.
  intros Hm Hs He Hrun Hpost. unfold find_end. rewrite Hm, Hs, He, Nat2Z.id, drop_app_length, memchr_run; [|done|lia|].
  - cbn [mbind res_bind]. f_equal. destruct (Nat.eqb_spec (Z.to_nat (Z.of_nat (length pre + length run + length post) -
      Z.of_nat (length pre))) (length run)); lia.
  - destruct post as [|x post]; [|left; lia]. cbn [app length] in *. destruct behind; [|right]; lia.
Qed.

#[export] Instance next_char_words c : NextWord (λ _, True) (Z.eqb c) (next_char c).
Proof.
  split.
  - intros t Ht. unfold next_char. rewrite skip_end by done. cbn [mbind res_bind set_s s end_].
    destruct (Z.leb_spec (end_ t) (s t)); [by eexists|lia].
  - intros pre text behind _ Hlen. unfold next_char. destruct (words_shape (Z.eqb c) text) as [[Hw Hs]|(seps & x & word & post & -> & Hs & Hc & Hw & Hp & E)].
    + left. split; [done|]. rewrite skip_all by done. cbn [mbind res_bind set_s s end_ at_text]. rewrite Z.leb_refl. by eexists.
    + right. exists (x :: word), (length seps + S (S (length word)))%nat. splits; [lia|done|].
      destruct (words_at pre seps x word post behind (Z.eqb c) Hs Hp Hc Hw Hlen) as (-> & _ & E3). cbn [mbind res_bind].
      rewrite (proj2 (Z.leb_gt _ _)) by memory_solve.
      rewrite (find_end_run c _ (pre ++ seps) (x :: word) post behind); [|memory_solve..|by constructor|done].
      cbn [mbind res_bind]. change (substr (set_s _ _)) with (substr (at_text pre (seps ++ x :: word ++ post) behind)).
      replace (Z.of_nat (length (pre ++ seps) + length (x :: word))) with (Z.of_nat (length pre + length seps + S (length word))) by memory_solve.
      cbn [set_s s] in *. rewrite E3. cbn [mbind res_bind]. unfold set_s, at_text. do 3 f_equal. memory_solve.
Qed.

Lemma take_plain t grp gs pre word rest shift b : str t = pre ++ word ++ rest →
  s t = Z.of_nat (length pre + length word) → Z.of_nat (length word) < 2 ^ 32 →
  take_token (Settings grp gs false) t (Z.of_nat (length pre)) shift b = Ok (inr (set_s (s t + shift) t, Some word, b)).
Proof.
  intros Hm Hs Hl. unfold take_token. cbn [avoid_punctuation mbind res_bind].
  pose proof (substr_at t pre word rest Hm Hl) as Hsub. unfold substr in Hsub. rewrite Hs, Hsub. done.
Qed.

(** With white space or given characters around the words, no groups, and the punctuation kept. *)
Definition next_plain (delim : option (list Z)) (t : tok) : res (tok * option (list Z)) :=
  r ← next_tok (Settings None false false) delim t; Ok r.1.

#[export] Instance next_plain_words delim : NextWord plain (separates delim) (next_plain delim).
Proof.
  split.
  - intros t Ht. unfold next_plain, next_tok. cbn [iterate]. unfold next_step.
    destruct (Z.ltb_spec (s t) (end_ t)); [lia|]. cbn. by eexists.
  - intros pre text behind Hpl Hlen. unfold next_plain, next_tok. cbn [iterate].
    destruct (words_shape (separates delim) text) as [[Hw Hs]|(seps & x & word & post & -> & Hs & Hc & Hw & Hp & E)].
    + left. split; [done|]. destruct text as [|x text].
      { unfold next_step at 1. rewrite (proj2 (Z.ltb_ge _ _)) by memory_solve. cbn. by eexists. }
      unfold next_step at 1. rewrite (proj2 (Z.ltb_lt _ _)) by memory_solve. cbn [andb negb].
      assert (Hsk : u_skip (pre ++ (x :: text) ++ behind) (Z.of_nat (length pre)) (Z.of_nat (length pre + length (x :: text))) delim 0
        = Ok (Z.of_nat (length pre + length (x :: text)))).
      { apply skip_separators; [done|done|]. destruct behind; [done|by right]. }
      destruct delim as [d|]; cbn [at_text str s end_].
      * unfold u_delimit_token. rewrite Hsk. cbn [mbind res_bind]. rewrite Z.eqb_refl. cbn. by eexists.
      * rewrite Hsk. cbn [mbind res_bind]. cbn [set_s end_]. rewrite Z.eqb_refl. cbn. by eexists.
    + right. exists (x :: word), (length seps + S (S (length word)))%nat. splits; [lia|done|].
      unfold next_step at 1. rewrite (proj2 (Z.ltb_lt _ _)) by memory_solve. cbn [andb negb].
      assert (Hx : plain x) by (rewrite Forall_app in Hpl; destruct Hpl as [_ Hpl]; by apply Forall_cons in Hpl as [? _]).
      set (n := length (seps ++ x :: word ++ post)).
      assert (Hn : n = (length seps + S (length word) + length post)%nat) by (unfold n; rewrite length_app; cbn [length]; rewrite length_app; lia).
      assert (Hq : match post ++ behind with [] => n = (length seps + S (length word))%nat
        | y :: _ => separates delim y = true ∨ n = (length seps + S (length word))%nat end).
      { destruct post as [|y post]; cbn [app length] in *; [destruct behind; [|right]; lia|by left]. }
      cbn [at_text str s end_]. fold n. rewrite <- ?app_assoc. cbn [app]. rewrite <- ?app_assoc.
      destruct delim as [d|].
      * rewrite delimit_word by (done || lia). cbn [mbind res_bind].
        rewrite <- length_app, (take_plain _ _ _ (pre ++ seps) (x :: word) (post ++ behind)); [|memory_solve..|cbn [length]; lia].
        cbn. unfold set_s. cbn. do 3 f_equal; rewrite ?length_app; cbn [length]; lia.
      * rewrite skip_separators; [|done|lia|left; split; [done|apply Hx]]. cbn [mbind res_bind]. unfold next_word. cbn [group set_s str s end_].
        change (end_ (at_text _ _ _)) with (Z.of_nat (length pre + n)).
        replace (str (at_text _ _ _)) with (pre ++ seps ++ x :: word ++ post ++ behind) by memory_solve.
        destruct (Z.eqb_spec (Z.of_nat (length pre + length seps)) (Z.of_nat (length pre + n))); [lia|].
        pose proof (delimit_word None (pre ++ seps) [] x word (post ++ behind) (n - length seps)) as Hd.
        rewrite !length_app in Hd. cbn [app length] in Hd. rewrite <- app_assoc in Hd.
        replace (length pre + length seps + (n - length seps))%nat with (length pre + n)%nat in Hd by lia.
        rewrite Hd; [|done..|lia|].
        2:{ destruct (post ++ behind); [lia|]. destruct Hq; [by left|right; lia]. }
        cbn [mbind res_bind]. rewrite Nat.add_0_r, <- length_app.
        rewrite (take_plain _ _ _ (pre ++ seps) (x :: word) (post ++ behind)); [|memory_solve..|cbn [length]; lia].
        cbn. unfold set_s. cbn. do 3 f_equal; rewrite ?length_app; cbn [length]; lia.
Qed.

(** ** Reading an expression *)

(** The loop of [evalExpression]: the tokens up to the end or a wrong character. *)
Definition lex_step (st : tok * list (Z * list Z)) : res (tok * list (Z * list Z) + list (Z * list Z)) :=
  r ← getTokenId st.1;
  let '(t, tid, token) := r in
  Ok (if 0 <? tid then inl (t, st.2 ++ [(tid, token)]) else inr st.2).

Definition lex (n : nat) (t : tok) : res (list (Z * list Z)) := iterate n lex_step (t, []).

(** The tokens, and how they are written. *)
Inductive token :=
  | Operator (o : list Z) (id : Z)
  | Number (ds : list Z)
  | Quoted (w : list Z)
  | Variable_ (w : list Z)
  | Braced (w : list Z)
  | Word (w : list Z).

(** The operators of the comment above [getTokenId] that the code knows as the comment says. *)
Definition operators : list (list Z * Z) :=
  [(BS "&&", U_TK_AND); (BS "||", U_TK_OR); (BS "!", U_TK_NOT);
   (BS "=", U_TK_EQ); (BS "==", U_TK_EQ); (BS "!=", U_TK_NE); (BS "<", U_TK_LT); (BS "<=", U_TK_LE); (BS ">", U_TK_GT);
   (BS "*", U_TK_MULT); (BS "/", U_TK_DIV); (BS "%", U_TK_MOD); (BS "+", U_TK_PLUS); (BS "-", U_TK_MINUS);
   (BS "(", U_TK_LPAREN); (BS ")", U_TK_RPAREN); (BS ",", U_TK_COMMA); (BS "$$", U_TK_PID)].

(** What begins a token of another kind. *)
Definition starts_word (c : Z) : bool :=
  negb (existsb (Z.eqb c) (BS "0123456789'+-%(),|&=><!~^*$tf/")) && u__isgraph c.

Definition in_word (c : Z) : bool := negb ((c =? CH "(") || (c =? CH ")") || (c =? CH ",") || negb (u__isgraph c)).

Definition token_ok (k : token) : Prop :=
  match k with
  | Operator o id => (o, id) ∈ operators
  | Number ds => ds ≠ [] ∧ Forall (λ c, u__isdigit c = true) ds
  | Quoted w => Forall (λ c, c ≠ CH "'") w
  | Variable_ w => w ≠ [] ∧ Forall (λ c, u__isname c = true) w
  | Braced w => Forall (λ c, c ≠ CH "}") w
  | Word w => match w with c :: w => starts_word c = true ∧ Forall (λ c, in_word c = true) w | [] => False end
  end.

#[export] Instance token_ok_dec k : Decision (token_ok k).
Proof. destruct k as [| | | | |[|c w]]; apply _. Defined.

Definition spelled (k : token) : list Z :=
  match k with
  | Operator o _ => o
  | Number ds => ds
  | Quoted w => BS "'" ++ w ++ BS "'"
  | Variable_ w => BS "$" ++ w
  | Braced w => BS "${" ++ w ++ BS "}"
  | Word w => w
  end.

Definition read_as (k : token) : Z * list Z :=
  match k with
  | Operator o id => (id, o)
  | Number w | Quoted w | Word w => (U_TK_VALUE, w)
  | Variable_ w | Braced w => (U_TK_NAME, w)
  end.

(** An expression, with a blank behind every token. *)
Definition written (ks : list token) : list Z := concat (map (λ k, spelled k ++ [32]) ks).

(** A fact on a byte that has another property. *)
Ltac byte_implies c :=
  match goal with
  | |- ?a = true → ?b = false => intros H; apply negb_true_iff; revert H; change (a = true → negb b = true)
  | |- _ => idtac
  end;
  match goal with |- ?a = true → ?b = true => enough (H : negb a || b = true) by (destruct a; [done|done]); byte_check c end.

Section Token.
Context (pre rest behind : list Z).

(** The tokenizer with [done] behind it and [w] in front of it, with a blank after that. *)
Definition in_token (before w : list Z) : tok :=
  Tok (pre ++ before ++ w ++ 32 :: rest ++ behind) (Z.of_nat (length pre + length before))
      (Z.of_nat (length pre + length before + length w + S (length rest))).

Lemma in_token_rd before c w : rd (str (in_token before (c :: w))) (s (in_token before (c :: w))) = Ok c.
Proof.
  cbn [in_token str s]. rewrite app_assoc, <- length_app. cbn [app]. apply rd_nth_app.
Qed.

Lemma in_token_blank before : rd (str (in_token before [])) (s (in_token before [])) = Ok 32.
Proof. cbn [in_token str s]. rewrite app_assoc, <- length_app. cbn [app]. apply rd_nth_app. Qed.

Lemma in_token_move before c w : set_s (s (in_token before (c :: w)) + 1) (in_token before (c :: w)) = in_token (before ++ [c]) w.
Proof. unfold set_s, in_token. cbn [str s end_]. rewrite !length_app. cbn [length]. rewrite <- !app_assoc. cbn [app]. f_equal; lia. Qed.

Lemma in_token_skip (p : Z → bool) before run w : Forall (λ c, p c = true) run →
  match w with [] => p 32 = false | c :: _ => p c = false end →
  skip p (in_token before (run ++ w)) = Ok (in_token (before ++ run) w).
Proof.
  intros Hrun Hw.
  rewrite (skip_run p _ (pre ++ before) run (w ++ 32 :: rest) behind); [|unfold in_token; memory_solve..|done|by destruct w].
  unfold set_s, in_token. cbn [str s end_]. rewrite !length_app, <- !app_assoc. do 2 f_equal; lia.
Qed.

Lemma in_token_inside before w : (end_ (in_token before w) <=? s (in_token before w)) = false.
Proof. apply Z.leb_gt. unfold in_token. cbn [s end_]. lia. Qed.

(** The place behind the [n] first characters. *)
Definition place (before : list Z) : Z := Z.of_nat (length pre + length before).

(** One token is read when its switch reads it. *)
Lemma read_token before c w tid a x b :
  u__isspace c = false → Z.of_nat (length x) < 2 ^ 32 → before ++ c :: w = a ++ x ++ b →
  token_switch c (place before) (in_token (before ++ [c]) w)
  = Ok (in_token (before ++ c :: w) [], tid, place a, place (a ++ x)) →
  getTokenId (in_token before (c :: w)) = Ok (in_token (before ++ c :: w) [], tid, x).
Proof.
  intros Hc Hx Hm Hsw. unfold getTokenId, skipSpaces.
  pose proof (in_token_skip u__isspace before [] (c :: w)) as Hs. cbn [app] in Hs. rewrite Hs, app_nil_r by done. cbn [mbind res_bind].
  rewrite in_token_inside, in_token_rd. cbn [mbind res_bind]. rewrite in_token_move.
  change (s (in_token before (c :: w))) with (place before). rewrite Hsw. cbn [mbind res_bind]. rewrite Hm.
  unfold place. rewrite (length_app a x), Nat.add_assoc, <- length_app.
  rewrite (substr_at _ (pre ++ a) x (b ++ 32 :: rest ++ behind)); [done|unfold in_token; memory_solve|done].
Qed.

(** The switch on a given character. *)
Ltac switch :=
  repeat (cbn -[in_token rd place u__isdigit u__isspace u__isgraph u__isname skip set_s Z.leb];
    repeat match goal with
    | |- context [?a <=? ?b] => let v := eval vm_compute in (a <=? b) in progress change (a <=? b) with v
    end;
    unfold either, get_name; rewrite ?in_token_rd, ?in_token_blank, ?in_token_move).

(** The tokens, one kind after the other. *)
Lemma read_operator before o id : (o, id) ∈ operators →
  getTokenId (in_token before o) = Ok (in_token (before ++ o) [], id, o).
Proof.
  intros Ho. repeat (apply elem_of_cons in Ho as [[= -> ->]|Ho]); [..|by apply elem_of_nil in Ho].
  all: eapply (read_token _ _ _ _ before _ []); [done|cbn; lia|by rewrite app_nil_r|].
  all: unfold token_switch; switch.
  all: rewrite <- ?app_assoc; done.
Qed.

Lemma read_digits before ds : ds ≠ [] → Forall (λ c, u__isdigit c = true) ds → bytes ds → Z.of_nat (length ds) < 2 ^ 32 →
  getTokenId (in_token before ds) = Ok (in_token (before ++ ds) [], U_TK_VALUE, ds).
Proof.
  intros Hne Hds Hb Hl. destruct ds as [|c ds]; [done|]. apply Forall_cons in Hds as [Hc Hds]. apply Forall_cons in Hb as [Hb _].
  eapply (read_token _ _ _ _ before _ []); [|done|by rewrite app_nil_r|].
  - revert Hc. byte_implies c.
  - unfold token_switch. rewrite <- u__isdigit_spec, Hc by done.
    pose proof (in_token_skip u__isdigit (before ++ [c]) ds []) as Hs. rewrite app_nil_r, <- app_assoc in Hs.
    by rewrite Hs.
Qed.

Lemma read_quoted before w : Forall (λ c, c ≠ CH "'") w → Z.of_nat (length w) < 2 ^ 32 →
  getTokenId (in_token before (BS "'" ++ w ++ BS "'")) = Ok (in_token (before ++ BS "'" ++ w ++ BS "'") [], U_TK_VALUE, w).
Proof.
  intros Hw Hl. eapply (read_token _ _ _ _ (before ++ [39]) _ [39]); [done|done|by rewrite <- app_assoc|].
  unfold token_switch. switch. unfold delimited. rewrite in_token_skip; [|by eapply Forall_impl; [exact Hw|]; intros x Hx; simpl; destruct (Z.eqb_spec x 39)|done].
  cbn [mbind res_bind]. rewrite in_token_move. by rewrite <- !app_assoc.
Qed.

Lemma name_char c : is_byte c → u__isname c = true → (c =? CH "=") = false ∧ (c =? CH "$") = false ∧ (c =? CH "{") = false.
Proof. intros Hc Hn. splits; revert Hn; byte_implies c. Qed.

Lemma read_variable before w : w ≠ [] → Forall (λ c, u__isname c = true) w → bytes w → Z.of_nat (length w) < 2 ^ 32 →
  getTokenId (in_token before (BS "$" ++ w)) = Ok (in_token (before ++ BS "$" ++ w) [], U_TK_NAME, w).
Proof.
  intros Hne Hw Hb Hl. eapply (read_token _ _ _ _ (before ++ [36]) _ []); [done|done|by rewrite app_nil_r, <- app_assoc|].
  unfold token_switch. switch. destruct w as [|c w]; [done|]. switch.
  apply Forall_cons in Hb as [Hb _]. destruct (name_char c) as (-> & -> & ->); [done|by apply Forall_cons in Hw as [? _]|].
  pose proof (in_token_skip u__isname (before ++ [36]) (c :: w) []) as Hs. rewrite app_nil_r in Hs.
  rewrite Hs by done. cbn [mbind res_bind]. by rewrite <- !app_assoc.
Qed.

Lemma read_braced before w : Forall (λ c, c ≠ CH "}") w → Z.of_nat (length w) < 2 ^ 32 →
  getTokenId (in_token before (BS "${" ++ w ++ BS "}")) = Ok (in_token (before ++ BS "${" ++ w ++ BS "}") [], U_TK_NAME, w).
Proof.
  intros Hw Hl. eapply (read_token _ _ _ _ (before ++ BS "${") _ (BS "}")); [done|done|by rewrite <- app_assoc|].
  unfold token_switch. switch. unfold delimited. rewrite in_token_skip; [|by eapply Forall_impl; [exact Hw|]; intros x Hx; simpl; destruct (Z.eqb_spec x 125)|done].
  cbn [mbind res_bind]. rewrite in_token_move. by rewrite <- !app_assoc.
Qed.

Lemma value_end_run w : ∀ before c n, (c =? CH "(") = false → Forall (λ c, in_word c = true) w → (length w < n)%nat →
  ∃ c', value_end (str (in_token before w)) (s (in_token before w)) n c = Ok (s (in_token (before ++ w) []), c') ∧ (c' =? CH "(") = false.
Proof.
  induction w as [|x w IH]; intros before c n Hc Hw Hn; (destruct n as [|n]; [cbn in Hn; lia|]); cbn [value_end].
  - rewrite in_token_blank. cbn [mbind res_bind]. rewrite app_nil_r. by exists 32.
  - apply Forall_cons in Hw as [Hx Hw]. rewrite in_token_rd. cbn [mbind res_bind].
    unfold in_word in Hx. apply negb_true_iff in Hx. rewrite Hx.
    pose proof (f_equal s (in_token_move before x w)) as Hs. pose proof (f_equal str (in_token_move before x w)) as Hm.
    cbn [set_s s str] in Hs, Hm. unfold in_token at 2. cbn [s].
    destruct (IH (before ++ [x]) x n) as (c' & E & Hc'); [|done|cbn in Hn; lia|].
    + by destruct (x =? CH "(").
    + exists c'. split; [|done]. rewrite <- app_assoc in E. cbn [app] in E. rewrite <- E.
      rewrite <- Hs, <- Hm. done.
Qed.

Lemma read_word before w : token_ok (Word w) → bytes w → Z.of_nat (length w) < 2 ^ 32 →
  getTokenId (in_token before w) = Ok (in_token (before ++ w) [], U_TK_VALUE, w).
Proof.
  destruct w as [|c w]; [done|]. intros [Hc Hw] Hb Hl. apply Forall_cons in Hb as [Hb _].
  eapply (read_token _ _ _ _ before _ []); [|done|by rewrite app_nil_r|].
  { revert Hc. byte_implies c. }
  assert (Hd : (48 <=? c) && (c <=? 57) = false) by (revert Hc; byte_implies c).
  unfold starts_word in Hc. apply andb_true_iff in Hc as [Hc Hg]. apply negb_true_iff in Hc.
  cbn [existsb] in Hc. rewrite !orb_false_iff in Hc. destruct_and! Hc.
  unfold token_switch, operator. rewrite Hd.
  repeat match goal with H : (c =? _) = false |- _ => rewrite H; revert H end. intros. cbn [orb].
  unfold get_value. edestruct (value_end_run w (before ++ [c]) c) as (c' & E & Hc'); [done|done| |].
  2:{ rewrite E. cbn [mbind res_bind]. rewrite Hc'. unfold set_s, place, in_token. cbn [str s end_].
      rewrite <- !app_assoc, !length_app. cbn [length app].
      match goal with |- Ok (Tok _ ?a ?b, _, _, _) = Ok (Tok _ ?a' ?b', _, _, _) =>
        replace a with a' by lia; replace b with b' by lia end. done. }
  unfold in_token. cbn [s end_]. lia.
Qed.

Lemma read_token_ok before k : token_ok k → bytes (spelled k) → Z.of_nat (length (spelled k)) < 2 ^ 32 →
  getTokenId (in_token before (spelled k)) = Ok (in_token (before ++ spelled k) [], (read_as k).1, (read_as k).2).
Proof.
  destruct k as [o id|ds|w|w|w|w]; cbn [token_ok spelled read_as fst snd]; intros Hk Hb Hl.
  - by apply read_operator.
  - destruct Hk. by apply read_digits.
  - apply read_quoted; [done|]. cbn [app length] in Hl. rewrite length_app in Hl. lia.
  - apply read_variable; try apply Hk; [by apply Forall_cons in Hb as [_ ?]|cbn [app length] in Hl; lia].
  - apply read_braced; [done|]. cbn [app length] in Hl. rewrite length_app in Hl. lia.
  - by apply read_word.
Qed.
End Token.

Lemma read_as_positive k : token_ok k → 0 < (read_as k).1.
Proof.
  destruct k as [o id| | | | |]; cbn; intros Hk; try (unfold U_TK_VALUE, U_TK_NAME; lia).
  by repeat (apply elem_of_cons in Hk as [[= -> ->]|Hk]); [..|apply elem_of_nil in Hk].
Qed.

Lemma spelled_start k : token_ok k → bytes (spelled k) → match spelled k with [] => False | c :: _ => u__isspace c = false end.
Proof.
  destruct k as [o id|ds|w|w|w|w]; cbn; intros Hk Hb; try done.
  - by repeat (apply elem_of_cons in Hk as [[= -> ->]|Hk]); [..|apply elem_of_nil in Hk].
  - destruct ds as [|c ds]; [by destruct Hk|]. destruct Hk as [_ Hk]. apply Forall_cons in Hk as [Hc _].
    apply Forall_cons in Hb as [Hb _]. revert Hc. byte_implies c.
  - destruct w as [|c w]; [done|]. destruct Hk as [Hc _]. apply Forall_cons in Hb as [Hb _]. revert Hc. byte_implies c.
Qed.

(** The whole expression, after the first [blanks]. *)
Lemma lex_written ks : ∀ n pre blanks acc behind,
  (length ks < n)%nat → Forall (λ c, u__isspace c = true) blanks →
  Forall (λ k, token_ok k ∧ bytes (spelled k) ∧ Z.of_nat (length (spelled k)) < 2 ^ 32) ks →
  iterate n lex_step (at_text pre (blanks ++ written ks) behind, acc) = Ok (acc ++ map read_as ks).
Proof.
  induction ks as [|k ks IH]; intros n pre blanks acc behind Hn Hbl Hks; (destruct n as [|n]; [cbn in Hn; lia|]);
    cbn [iterate]; unfold lex_step at 1; cbn [fst snd].
  - unfold getTokenId, skipSpaces. rewrite app_nil_r, skip_all by done. cbn [mbind res_bind set_s s end_ at_text].
    rewrite Z.leb_refl. cbn. by rewrite app_nil_r.
  - apply Forall_cons in Hks as [(Hk & Hb & Hl) Hks].
    assert (Hget : getTokenId (at_text pre (blanks ++ written (k :: ks)) behind)
      = Ok (in_token pre (written ks) behind (blanks ++ spelled k) [], (read_as k).1, (read_as k).2)).
    { rewrite <- (read_token_ok pre (written ks) behind blanks k Hk Hb Hl). unfold getTokenId at 1, skipSpaces.
      assert (Hsp : match spelled k with [] => False | c :: _ => u__isspace c = false end) by by apply spelled_start.
      rewrite (skip_run u__isspace _ pre blanks (spelled k ++ 32 :: written ks) behind);
        [|unfold written; cbn [map concat]; memory_solve..|done|by destruct (spelled k)].
      destruct (spelled k) as [|c w] eqn:Ek; [done|]. unfold getTokenId, skipSpaces.
      pose proof (in_token_skip pre (written ks) behind u__isspace blanks [] (c :: w)) as Hs. cbn [app] in Hs.
      rewrite Hs, app_nil_r by done. cbn [mbind res_bind].
      replace (set_s _ _) with (in_token pre (written ks) behind blanks (c :: w)); [done|].
      unfold in_token, set_s, at_text. unfold written. cbn [map concat]. rewrite Ek. f_equal; memory_solve. }
    rewrite Hget. cbn [mbind res_bind]. rewrite (proj2 (Z.ltb_lt _ _)) by by apply read_as_positive.
    replace (in_token pre _ _ _ []) with (at_text (pre ++ blanks ++ spelled k) ([32] ++ written ks) behind)
      by (unfold in_token, at_text; f_equal; memory_solve).
    rewrite IH; [|cbn in Hn; lia|by repeat constructor|done]. rewrite <- app_assoc. cbn [map app]. by destruct (read_as k).
Qed.

(** ** Properties *)

(** C16: A text is taken apart into its words, whatever separates them and whatever lies behind the text in
    memory: characters of a class, one character, or white space and delimiters for a text without quotes; the
    loop over the tokens ends and reads nothing outside. *)
Theorem tokenizer_words text behind : Z.of_nat (length text) < 2 ^ 32 →
  (∀ func, collect (S (length text)) (next_func func) (setData text behind) = Ok (words func None text)) ∧
  (∀ c, collect (S (length text)) (next_char c) (setData text behind) = Ok (words (Z.eqb c) None text)) ∧
  (∀ delim, Forall plain text →
     collect (S (length text)) (next_plain delim) (setData text behind) = Ok (words (separates delim) None text)).
Proof.
  intros Hl. change (setData text behind) with (at_text [] text behind). unfold collect. splits.
  - intros func. rewrite (collect_words (λ _, True) func); [done|apply _|by apply Forall_true|done|lia].
  - intros c. rewrite (collect_words (λ _, True) (Z.eqb c)); [done|apply _|by apply Forall_true|done|lia].
  - intros delim Hp. rewrite (collect_words plain (separates delim)); [done|apply _|done|done|lia].
Qed.

Lemma tokenizer_words_witness :
  collect 12 (next_char 44) (setData (BS ",GET,,POST,") (BS "x")) = Ok [BS "GET"; BS "POST"].
Proof. apply (tokenizer_words (BS ",GET,,POST,") (BS "x")). cbn. lia. Defined.

(** C15: An expression of operators, numbers, texts in quotes, variables and words, with a blank behind every
    token, is read back token by token. The operators are those that the comment above [getTokenId] gives and
    the code knows the same; for the others of the comment the code has other spellings ([other_operators]). *)
Theorem getTokenId_written ks behind :
  Forall (λ k, token_ok k ∧ bytes (spelled k) ∧ Z.of_nat (length (spelled k)) < 2 ^ 32) ks →
  lex (S (length ks)) (setData (written ks) behind) = Ok (map read_as ks).
Proof. intros Hks. apply (lex_written ks _ [] [] [] behind); [lia|done|done]. Qed.

Definition some_tokens : list token :=
  [Variable_ (BS "A"); Operator (BS "&&") U_TK_AND; Operator (BS "!") U_TK_NOT; Braced (BS "B-1"); Operator (BS "=") U_TK_EQ;
   Quoted (BS "a $b"); Operator (BS "||") U_TK_OR; Word (BS "yes"); Operator (BS "<=") U_TK_LE; Number (BS "12")].

Lemma getTokenId_written_witness :
  lex 11 (setData (written some_tokens) []) = Ok (map read_as some_tokens) ∧
  written some_tokens = BS "$A && ! ${B-1} = 'a $b' || yes <= 12 ".
Proof.
  split; [|reflexivity]. apply (getTokenId_written some_tokens []).
  apply (bool_decide_eq_true_1 _). vm_compute. reflexivity.
Defined.

(** ** Where the code does something else *)

(** [skipToken] asks for the characters before the place, not behind it: [false] as the first token is a value
    that is not empty, later it is the empty one, and the word [truest] falls apart. *)
Lemma token_false :
  lex 5 (setData (BS "false") [0]) = Ok [(U_TK_VALUE, BS "false")] ∧
  lex 5 (setData (BS "1 = false") [0]) = Ok [(U_TK_VALUE, BS "1"); (U_TK_EQ, BS "="); (U_TK_VALUE, [])] ∧
  lex 5 (setData (BS "1 = truest") [0])
  = Ok [(U_TK_VALUE, BS "1"); (U_TK_EQ, BS "="); (U_TK_VALUE, BS "true"); (U_TK_VALUE, BS "st")].
Proof. vm_compute. done. Qed.

(** A number at the end of the text is not a number. *)
Lemma number_at_end :
  skipNumber (setData (BS "12") [0]) = Ok (Tok (BS "12" ++ [0]) 2 2, false, false) ∧
  skipNumber (setData (BS "12 ") [0]) = Ok (Tok (BS "12 " ++ [0]) 2 3, false, true).
Proof. done. Qed.

(** The comment above [getTokenId] writes [=>], [^], [=~] and [~=]: the code reads two operators, an error, an operator
    and an error ([lex] stops there), and another operator; what the comment means is read for [>=], [*=], [$=]
    and [^=]. *)
Lemma other_operators :
  let read x := lex 5 (setData (BS x) [0]) in
  read "=> " = Ok [(U_TK_EQ, BS "="); (U_TK_GT, BS ">")] ∧
  (r ← getTokenId (setData (BS "^ ") [0]); Ok r.1.2) = Ok U_TK_ERROR ∧
  read "=~ " = Ok [(U_TK_EQ, BS "=")] ∧ read "~= " = Ok [(U_TK_IS_PRESENT, BS "~=")] ∧
  read ">= " = Ok [(U_TK_GE, BS ">=")] ∧ read "*= " = Ok [(U_TK_CONTAINS, BS "*=")] ∧
  read "$= " = Ok [(U_TK_ENDS_WITH, BS "$=")] ∧ read "^= " = Ok [(U_TK_STARTS_WITH, BS "^=")].
Proof. vm_compute. done. Qed.
