(* ===== verification/Query.v ===== *)
(** * Boolean queries ([UQueryNode] and [UQueryParser], [src/ulib/query/query_parser.cpp],
    [include/ulib/query/parser.h])

    A query is parsed to a tree, the tree is brought into disjunctive normal form, and the form is evaluated
    with a function on words. The trees own their nodes, so they are values here; a null pointer that is
    followed is [Fail OutOfBounds], a syntax error, which ends the process, [Fail Aborted]. *)

From S2P Require Import Prelude CType Memory Search Tokenizer.

(** A [UString] of a node: the address of its representation, which copies of the node share, and its text. *)
Record word := Word_ { rep : Z; text : list Z }.

Definition no_word : word := Word_ 0 [].

#[export] Instance word_eq_dec : EqDecision word.
Proof. solve_decision. Defined.

Inductive ntype := VALUE | AND | OR | NOT.

#[export] Instance ntype_eq_dec : EqDecision ntype.
Proof. solve_decision. Defined.

(** A pointer to a node. *)
Inductive qnode :=
  | Null
  | Node (type : ntype) (l r : qnode) (value : word).

Definition new_value (d : word) : qnode := Node VALUE Null Null d.
Definition new_node (t : ntype) (l r : qnode) : qnode := Node t l r no_word.

Definition type_of (q : qnode) : res ntype := match q with Node t _ _ _ => Ok t | Null => Fail OutOfBounds end.
Definition left_of (q : qnode) : res qnode := match q with Node _ l _ _ => Ok l | Null => Fail OutOfBounds end.
Definition right_of (q : qnode) : res qnode := match q with Node _ _ r _ => Ok r | Null => Fail OutOfBounds end.
Definition value_of (q : qnode) : res word := match q with Node _ _ _ v => Ok v | Null => Fail OutOfBounds end.

Definition is_null (q : qnode) : bool := match q with Null => true | _ => false end.

Definition is_type (t : ntype) (q : qnode) : bool := match q with Node t' _ _ _ => bool_decide (t' = t) | Null => false end.

(** ** The disjunctive normal form *)

Fixpoint isDisjunctiveNormalForm (q : qnode) : bool :=
  match q with
  | Null => false
  | Node VALUE l r _ => is_null l && is_null r
  | Node NOT l r _ => is_null l && isDisjunctiveNormalForm r && (is_type VALUE r || is_type NOT r)
  | Node AND l r _ => isDisjunctiveNormalForm l && isDisjunctiveNormalForm r && negb (is_type OR l) && negb (is_type OR r)
  | Node OR l r _ => isDisjunctiveNormalForm l && isDisjunctiveNormalForm r
  end.

Fixpoint cloneTree (root : qnode) : qnode :=
  match root with Null => Null | Node t l r v => Node t (cloneTree l) (cloneTree r) v end.

(** The trees [getRawDNF] returns at once. *)
Definition two_levels (type : ntype) (left right : qnode) : res bool :=
  match type with
  | VALUE => Ok true
  | NOT => rt ← type_of right; Ok (bool_decide (rt = VALUE))
  | _ =>
      lt ← type_of left;
      if bool_decide (lt = VALUE) then rt ← type_of right; Ok (bool_decide (rt = VALUE)) else Ok false
  end.

(** A negation over a normal form: [inl] is the tree to go on with. *)
Definition push_not (left right : qnode) (v : word) : res (qnode + qnode) :=
  rt ← type_of right;
  match rt with
  | NOT => newRoot ← right_of right; Ok (inl newRoot)
  | OR => a ← left_of right; b ← right_of right; Ok (inl (new_node AND (Node NOT left a v) (new_node NOT Null b)))
  | AND => a ← left_of right; b ← right_of right; Ok (inl (new_node OR (Node NOT left a v) (new_node NOT Null b)))
  | VALUE => _ ← type_of left; Ok (inr Null)
  end.

(** The conventional order of the subtrees. *)
Definition in_order (l r : qnode) : res (qnode * qnode) :=
  lt ← type_of l; rt ← type_of r;
  let '(l, r, lt, rt) := if bool_decide (lt ≠ VALUE ∧ rt = VALUE) then (r, l, rt, lt) else (l, r, lt, rt) in
  Ok (if bool_decide (lt = NOT ∧ rt = OR ∨ lt = NOT ∧ rt = AND ∨ lt = OR ∧ rt = AND) then (r, l) else (l, r)).

(** The conjunction of two normal forms in the conventional order. *)
Definition distribute (l r : qnode) (v : word) : res (qnode + qnode) :=
  lt ← type_of l; rt ← type_of r;
  let root := Node AND l r v in
  match lt, rt with
  | VALUE, NOT | VALUE, AND | AND, AND | VALUE, VALUE => Ok (inr root)
  | VALUE, OR =>
      a ← left_of r; b ← right_of r; x ← value_of l; ov ← value_of r;
      Ok (inl (Node OR (Node AND l a v) (new_node AND (new_value x) b) ov))
  | NOT, _ => Ok (inr root)
  | AND, NOT => Ok (inr root)
  | OR, NOT =>
      a ← left_of l; b ← right_of l; c ← right_of r; cv ← value_of c; ov ← value_of l;
      Ok (inl (Node OR (Node AND a r v) (new_node AND b (new_node NOT Null (new_value cv))) ov))
  | OR, _ =>
      a ← left_of l; b ← right_of l; c ← left_of r; d ← right_of r; lv ← value_of l; rv ← value_of r;
      Ok (inl (new_node OR (Node OR (Node AND a c v) (new_node AND (cloneTree a) d) lv)
                           (Node OR (new_node AND b (cloneTree c)) (new_node AND (cloneTree b) (cloneTree d)) rv)))
  | AND, _ =>
      a ← left_of l; b ← right_of l; c ← left_of r; d ← right_of r; ov ← value_of r;
      Ok (inl (Node OR (Node AND l c v) (new_node AND (new_node AND (cloneTree a) (cloneTree b)) d) ov))
  end.

(** What happens to a node whose subtrees are in normal form. In the case of [OR] every branch gives the root. *)
Definition rearrange (type : ntype) (left right : qnode) (v : word) : res (qnode + qnode) :=
  match type with
  | NOT => push_not left right v
  | OR => lr ← in_order left right; Ok (inr (Node OR lr.1 lr.2 v))
  | AND => lr ← in_order left right; distribute lr.1 lr.2 v
  | VALUE => Ok (inr Null)
  end.

Fixpoint getRawDNF (fuel : nat) (root : qnode) : res qnode :=
  match fuel with
  | O => Fail OutOfFuel
  | S fuel =>
      match root with
      | Null => Ok Null
      | Node type l0 r0 v =>
          b ← two_levels type l0 r0;
          if b : bool then Ok root
          else
            l ← getRawDNF fuel l0;
            r ← getRawDNF fuel r0;
            k ← rearrange type l r v;
            match k with inl newRoot => getRawDNF fuel newRoot | inr root => Ok root end
      end
  end.

(** ** Terms and their variables *)

(** [UVector<UString>::find] and [insertAsSet]: the texts are compared. *)
Definition found (str : word) (v : list word) : bool := existsb (λ w, bool_decide (text w = text str)) v.

Definition insertAsSet (v : list word) (str : word) : list word := if found str v then v else v ++ [str].

Definition intersection (set1 set2 : list word) : list word := List.filter (λ elem, found elem set2) set1.

Fixpoint getTreeVariables (q : qnode) (pn : list word * list word) : res (list word * list word) :=
  match q with
  | Null => Fail OutOfBounds
  | Node VALUE _ _ v => Ok (insertAsSet pn.1 v, pn.2)
  | Node NOT _ r _ => v ← value_of r; Ok (pn.1, insertAsSet pn.2 v)
  | Node _ l r _ => pn ← getTreeVariables l pn; getTreeVariables r pn
  end.

Definition isDNFTermUseful (q : qnode) : res bool :=
  pn ← getTreeVariables q ([], []); Ok (bool_decide (intersection pn.1 pn.2 = [])).

Fixpoint getDNFTermRoots (q : qnode) (dest : list qnode) : res (list qnode) :=
  match q with
  | Null => Fail OutOfBounds
  | Node OR l r _ => dest ← getDNFTermRoots l dest; getDNFTermRoots r dest
  | _ => Ok (dest ++ [q])
  end.

Definition joinTreesWithOrNodes (trees : list qnode) : qnode :=
  match trees with [] => Null | t :: trees => fold_left (new_node OR) trees t end.

Fixpoint usefulTerms (terms : list qnode) : res (list qnode) :=
  match terms with
  | [] => Ok []
  | dn :: terms =>
      u ← isDNFTermUseful dn; rest ← usefulTerms terms; Ok (if u : bool then dn :: rest else rest)
  end.

(** [destroyDNFOrNodes] takes the nodes above the terms away. *)
Definition getDisjunctiveNormalForm (fuel : nat) (root : qnode) : res qnode :=
  dnfRoot ← getRawDNF fuel root;
  match dnfRoot with
  | Null => Ok Null
  | _ =>
      termRoots ← getDNFTermRoots dnfRoot [];
      useful ← usefulTerms termRoots;
      Ok (if bool_decide (length useful = length termRoots) then dnfRoot else joinTreesWithOrNodes useful)
  end.

(** ** The parser *)

Definition s_p1 : list Z := BS "(".
Definition s_p2 : list Z := BS ")".
Definition s_or : list Z := BS "OR".
Definition s_and : list Z := BS "AND".
Definition s_not : list Z := BS "NOT".

(** [while (isNOT()) v = !v]. *)
Definition not_step (st : tok * bool) : res (tok * bool + tok * bool) :=
  r ← tokenSeen s_not st.1; Ok (if r.2 : bool then inl (r.1, negb st.2) else inr (r.1, st.2)).

Section Parser.
(** The address of the string made for the token at a place. *)
Context (addr : Z → Z).

Fixpoint parseExpr (fuel : nat) (t : tok) : res (tok * qnode) :=
  match fuel with
  | O => Fail OutOfFuel
  | S fuel =>
      l ← parseTerm fuel t;
      o ← tokenSeen s_or l.1;
      if o.2 : bool then r ← parseExpr fuel o.1; Ok (r.1, new_node OR l.2 r.2) else Ok (o.1, l.2)
  end
with parseTerm (fuel : nat) (t : tok) : res (tok * qnode) :=
  match fuel with
  | O => Fail OutOfFuel
  | S fuel =>
      l ← parseFactor fuel t;
      o ← tokenSeen s_and l.1;
      if o.2 : bool then r ← parseTerm fuel o.1; Ok (r.1, new_node AND l.2 r.2) else Ok (o.1, l.2)
  end
with parseFactor (fuel : nat) (t : tok) : res (tok * qnode) :=
  match fuel with
  | O => Fail OutOfFuel
  | S fuel =>
      n ← iterate (S (length (str t))) not_step (t, true);
      atom ← parseAtom fuel n.1;
      Ok (if n.2 : bool then atom else (atom.1, new_node NOT Null atom.2))
  end
with parseAtom (fuel : nat) (t : tok) : res (tok * qnode) :=
  match fuel with
  | O => Fail OutOfFuel
  | S fuel =>
      o ← tokenSeen s_p1 t;
      if o.2 : bool then
        e ← parseExpr fuel o.1;
        c ← tokenSeen s_p2 e.1;
        if c.2 : bool then Ok (c.1, e.2) else Fail Aborted
      else
        t ← skipSpaces o.1;
        let p := s t in
        w ← getTokenQueryParser t;
        Ok (w.1, new_value (Word_ (addr p) w.2))
  end.

(** [parse(query)] keeps the tree; [fuel] bounds the recursions of the parser and of the normal form. *)
Definition parse (fuel : nat) (query behind : list Z) : res qnode :=
  r ← parseExpr fuel (setData query behind);
  if negb (atEnd r.1) then Fail Aborted else getDisjunctiveNormalForm fuel r.2.
End Parser.

(** ** Evaluation *)

(** [U_MAX_SIZE_PREALLOCATE], the size of [u_buffer]. *)
Definition buffer_size : Z := 4096.

(** The terms with their variables. *)
Fixpoint all_variables (terms : list qnode) : res (list (list word * list word)) :=
  match terms with
  | [] => Ok []
  | term :: terms => pn ← getTreeVariables term ([], []); rest ← all_variables terms; Ok (pn :: rest)
  end.

Definition startEvaluate (tree : qnode) : res (list (list word * list word)) :=
  termRoots ← getDNFTermRoots tree []; all_variables termRoots.

(** A pointer as it is stored. *)
Definition le64 (p : Z) : list Z := le32 (p mod 2 ^ 32) ++ le32 (p / 2 ^ 32).

Section Evaluate.
(** The function on words, the same for all the calls of one evaluation. *)
Context (function : list Z → bool).

(** The static state: [u_buffer] up to [u_buffer_len], [partial], and the words [function] was called with. *)
Record estate := EState { buffer : list Z; partial : bool; calls : list word }.

Definition evaluate_word (_word : word) (positive : bool) (st : estate) : res estate :=
  let bs := le64 (rep _word) in
  p ← (if (length (buffer st) =? 0)%nat then Ok None else u_find (buffer st) (length (buffer st)) bs 8);
  r ← (match p with
       | Some p => c ← rd (buffer st) (p + 8); Ok (c =? CH "1", st)
       | None =>
           let result := function (text _word) in
           if buffer_size <? Z.of_nat (length (buffer st)) + 9 then Fail OutOfBounds
           else Ok (result, EState (buffer st ++ bs ++ [if result then CH "1" else CH "0"]) (partial st) (calls st ++ [_word]))
       end);
  let '(result, st) := r in
  Ok (if Bool.eqb positive result then st else EState (buffer st) false (calls st)).

(** [callForAllEntry] stops when [partial] is not 1 any more. *)
Fixpoint evaluate_words (positive : bool) (ws : list word) (st : estate) : res estate :=
  match ws with
  | [] => Ok st
  | w :: ws =>
      st ← evaluate_word w positive st;
      if partial st then evaluate_words positive ws st else Ok st
  end.

Definition evaluate_term (pn : list word * list word) (st : estate) : res estate :=
  st ← evaluate_words true pn.1 (EState (buffer st) true (calls st));
  if partial st then evaluate_words false pn.2 st else Ok st.

Fixpoint evaluate_terms (terms : list (list word * list word)) (st : estate) : res (bool * estate) :=
  match terms with
  | [] => Ok (false, st)
  | pn :: terms => st ← evaluate_term pn st; if partial st then Ok (true, st) else evaluate_terms terms st
  end.

(** [evaluate()]: the result, and the words the function was called with. *)
Definition evaluate (terms : list (list word * list word)) : res (bool * list word) :=
  r ← evaluate_terms terms (EState [] false []); Ok (r.1, calls r.2).
End Evaluate.

(** [operator<<]. *)
Fixpoint print_query (q : qnode) : list Z :=
  match q with
  | Null => []
  | Node VALUE _ _ v => text v
  | Node NOT _ r _ =>
      let parent := is_type AND r || is_type OR r in
      BS " " ++ s_not ++ BS " " ++ (if parent then s_p1 else []) ++ print_query r ++ (if parent then s_p2 else [])
  | Node OR l r _ => print_query l ++ BS " " ++ s_or ++ BS " " ++ print_query r
  | Node AND l r _ =>
      let lp := is_type OR l in
      let rp := is_type OR r in
      (if lp then s_p1 else []) ++ print_query l ++ (if lp then s_p2 else []) ++ BS " " ++ s_and ++ BS " " ++
      (if rp then s_p1 else []) ++ print_query r ++ (if rp then s_p2 else [])
  end.
