(* ===== verification/QueryFacts.v ===== *)
(** * Boolean queries are evaluated correctly

    Expressions are what the trees stand for. The normal form of a tree is proved to exist and to have the value
    of the tree, by lemmas for conjunctions, disjunctions and negations of normal forms; the evaluation with its
    table of results gives the value of the normal form. *)

From S2P Require Import Prelude CType Memory Search Tokenizer Query.

(** ** Expressions *)

Inductive expr :=
  | Lit (w : word)
  | Not (e : expr)
  | And (a b : expr)
  | Or (a b : expr).

Fixpoint tree (e : expr) : qnode :=
  match e with
  | Lit w => new_value w
  | Not e => new_node NOT Null (tree e)
  | And a b => new_node AND (tree a) (tree b)
  | Or a b => new_node OR (tree a) (tree b)
  end.

Fixpoint eval (f : list Z → bool) (e : expr) : bool :=
  match e with
  | Lit w => f (text w)
  | Not e => negb (eval f e)
  | And a b => eval f a && eval f b
  | Or a b => eval f a || eval f b
  end.

(** Disjunctions of conjunctions of words and negated words. *)
Fixpoint is_conj (e : expr) : bool :=
  match e with
  | Lit _ | Not (Lit _) => true
  | And a b => is_conj a && is_conj b
  | _ => false
  end.

Fixpoint is_dnf (e : expr) : bool :=
  match e with Or a b => is_dnf a && is_dnf b | _ => is_conj e end.

Fixpoint ors (e : expr) : nat :=
  match e with Lit _ => 0 | Not e => ors e | And a b => ors a + ors b | Or a b => S (ors a + ors b) end.

Fixpoint esize (e : expr) : nat :=
  match e with Lit _ => 1 | Not e => S (esize e) | And a b | Or a b => S (esize a + esize b) end.

Definition is_lit (e : expr) : bool := match e with Lit _ => true | _ => false end.

(** Negations over negations over a word: what the code makes a word of. *)
Fixpoint collapses (e : expr) : bool :=
  match e with Lit _ => true | Not (Not e) => collapses e | _ => false end.

(** No negation of such an expression, except of the word itself. *)
Fixpoint calm (e : expr) : bool :=
  match e with
  | Lit _ => true
  | Not e => calm e && (is_lit e || negb (collapses e))
  | And a b | Or a b => calm a && calm b
  end.

Lemma cloneTree_same q : cloneTree q = q.
Proof. induction q as [|t l IHl r IHr v]; cbn; [done|]. by rewrite IHl, IHr. Qed.

Lemma tree_dnf e : is_dnf e = true → isDisjunctiveNormalForm (tree e) = true.
Proof.
  assert (Hc : ∀ x, is_conj x = true → isDisjunctiveNormalForm (tree x) = true ∧ is_type OR (tree x) = false).
  { clear e. induction x as [w|e IH|a IHa b IHb|a IHa b IHb]; cbn; try done.
    - by destruct e.
    - rewrite andb_true_iff. intros [Ha Hb]. destruct (IHa Ha) as [-> ->], (IHb Hb) as [-> ->]. done. }
  induction e as [w|e IH|a IHa b IHb|a IHa b IHb]; intros H; try by apply Hc.
  cbn in *. apply andb_true_iff in H as [Ha Hb]. by rewrite IHa, IHb.
Qed.

(** ** Normal forms exist *)

(** With enough fuel the function gives [r]. *)
Definition normal (q r : qnode) : Prop := ∃ n, getRawDNF n q = Ok r.
Definition goes (e r : expr) : Prop := normal (tree e) (tree r).

Lemma getRawDNF_more n m q r : getRawDNF n q = Ok r → (n <= m)%nat → getRawDNF m q = Ok r.
Proof.
  revert m q r. induction n as [|n IH]; intros m q r H Hm; [done|]. destruct m as [|m]; [lia|]. cbn in *.
  destruct q as [|t l0 r0 v]; [done|]. destruct (two_levels t l0 r0) as [[]|]; cbn [mbind res_bind] in *; try done.
  destruct (getRawDNF n l0) as [l'|] eqn:El; cbn [mbind res_bind] in *; [|done].
  destruct (getRawDNF n r0) as [r'|] eqn:Er; cbn [mbind res_bind] in *; [|done].
  rewrite (IH m _ _ El), (IH m _ _ Er) by lia. cbn [mbind res_bind].
  destruct (rearrange t l' r' v) as [[k|k]|]; cbn [mbind res_bind] in *; try done. apply IH; [done|lia].
Qed.

(** One round, when the tree has more than two levels. *)
Lemma normal_step t l0 r0 l r v k d :
  two_levels t l0 r0 = Ok false → normal l0 l → normal r0 r → rearrange t l r v = Ok k →
  match k with inl q => normal q d | inr q => q = d end → normal (Node t l0 r0 v) d.
Proof.
  intros Ht [n1 H1] [n2 H2] Hk Hd.
  destruct k as [q|q]; [destruct Hd as [n3 H3]; exists (S (n1 + n2 + n3))|subst d; exists (S (n1 + n2))];
    cbn [getRawDNF]; rewrite Ht; cbn [mbind res_bind];
    rewrite (getRawDNF_more _ _ _ _ H1), (getRawDNF_more _ _ _ _ H2) by lia; cbn [mbind res_bind]; rewrite Hk; cbn [mbind res_bind];
    [|done]. apply (getRawDNF_more _ _ _ _ H3). lia.
Qed.

Lemma normal_two t l r v : two_levels t l r = Ok true → normal (Node t l r v) (Node t l r v).
Proof. intros Ht. exists 1%nat. cbn. by rewrite Ht. Qed.

Lemma goes_lit w : goes (Lit w) (Lit w).
Proof. by apply normal_two. Qed.

Lemma goes_not_lit w : goes (Not (Lit w)) (Not (Lit w)).
Proof. by apply normal_two. Qed.

Lemma goes_lit_inv w r : goes (Lit w) r → r = Lit w.
Proof.
  intros [n H]. destruct n as [|n]; [done|]. cbn in H. destruct r; cbn in H; by simplify_eq.
Qed.

Lemma two_levels_binary t p q : t = AND ∨ t = OR →
  two_levels t (tree p) (tree q) = Ok (is_lit p && is_lit q).
Proof. intros [-> | ->]; by destruct p, q. Qed.

(** The trees of two words. *)
Lemma rearrange_lits t x y k : t = AND ∨ t = OR →
  rearrange t (new_value x) (new_value y) no_word = Ok k → k = inr (new_node t (new_value x) (new_value y)).
Proof. intros [-> | ->] H; vm_compute in H; injection H as <-; reflexivity. Qed.

Lemma goes_binary t p q p' q' k d : t = AND ∨ t = OR → goes p p' → goes q q' →
  rearrange t (tree p') (tree q') no_word = Ok k →
  match k with inl x => normal x d | inr x => x = d end → normal (new_node t (tree p) (tree q)) d.
Proof.
  intros Ht Hp Hq Hk Hd. destruct (is_lit p && is_lit q) eqn:E.
  - apply andb_true_iff in E as [Ep Eq]. destruct p as [x| | |]; try done. destruct q as [y| | |]; try done.
    apply goes_lit_inv in Hp as ->. apply goes_lit_inv in Hq as ->.
    apply rearrange_lits in Hk as ->; [|done]. subst d. apply normal_two. by destruct Ht as [-> | ->].
  - eapply normal_step; [|exact Hp|exact Hq|exact Hk|exact Hd]. rewrite two_levels_binary by done. by rewrite E.
Qed.

(** The words of an expression. *)
Fixpoint words_of (e : expr) : list word :=
  match e with Lit w => [w] | Not e => words_of e | And a b | Or a b => words_of a ++ words_of b end.

(** An inclusion of words follows from those given. *)
Ltac words_in :=
  let w := fresh in
  intros w; repeat match goal with H : @subseteq (list word) _ _ _ |- _ => specialize (H w) end;
  cbn [words_of] in *;
  repeat match goal with
  | H : context [_ ∈ _ ++ _] |- _ => rewrite elem_of_app in H
  | |- context [_ ∈ _ ++ _] => rewrite elem_of_app
  end; tauto.

(** [r] is what becomes of [e]. *)
Record nf (e r : expr) : Prop := NF {
  nf_goes : goes e r; nf_dnf : is_dnf r = true; nf_eval f : eval f r = eval f e; nf_words : words_of r ⊆ words_of e }.

Lemma conj_dnf e : is_conj e = true → is_dnf e = true.
Proof. by destruct e. Qed.

Lemma in_order_cases p q :
  in_order (tree p) (tree q) = Ok (tree p, tree q) ∨ in_order (tree p) (tree q) = Ok (tree q, tree p).
Proof. destruct p, q; first [left; reflexivity|right; reflexivity]. Qed.

(** The disjunction of normal forms. *)
Lemma or_nf p q p' q' : nf p p' → nf q q' → ∃ r, nf (Or p q) r ∧ (r = Or p' q' ∨ r = Or q' p').
Proof.
  intros [Gp Dp Ep Wp] [Gq Dq Eq Wq].
  assert (Ho : ∃ r, rearrange OR (tree p') (tree q') no_word = Ok (inr (tree r)) ∧ (r = Or p' q' ∨ r = Or q' p')).
  { cbn [rearrange]. destruct (in_order_cases p' q') as [-> | ->]; cbn [mbind res_bind fst snd]; [by exists (Or p' q'); auto|by exists (Or q' p'); auto]. }
  destruct Ho as (r & Hr & Hcase). exists r. split; [|done]. split.
  - eapply (goes_binary OR); [by right|exact Gp|exact Gq|exact Hr|done].
  - destruct Hcase as [-> | ->]; cbn; by rewrite Dp, Dq.
  - intros f. destruct Hcase as [-> | ->]; cbn; rewrite <- Ep, <- Eq; [done|apply orb_comm].
  - destruct Hcase as [-> | ->]; words_in.
Qed.

(** A normal form stays what it is, up to the order of its parts. *)
Lemma dnf_nf e : is_dnf e = true →
  ∃ r, nf e r ∧ ors r = ors e ∧ esize r = esize e ∧ is_lit r = is_lit e ∧ (is_conj e = true → is_conj r = true).
Proof.
  induction e as [w|e IH|a IHa b IHb|a IHa b IHb]; intros He.
  - exists (Lit w). splits; try done. split; [apply goes_lit|done|done|done].
  - destruct e as [w| | |]; try done. exists (Not (Lit w)). splits; try done. split; [apply goes_not_lit|done|done|done].
  - cbn in He. apply andb_true_iff in He as [Ha Hb].
    destruct (IHa (conj_dnf a Ha)) as (a' & [Ga Da Ea Wa] & Oa & Sa & La & Ca).
    destruct (IHb (conj_dnf b Hb)) as (b' & [Gb Db Eb Wb] & Ob & Sb & Lb & Cb). specialize (Ca Ha). specialize (Cb Hb).
    assert (Ho : ∃ r, rearrange AND (tree a') (tree b') no_word = Ok (inr (tree r)) ∧ (r = And a' b' ∨ r = And b' a')).
    { clear -Ca Cb. destruct a' as [x|[x| | |]|a1 a2|]; try done; destruct b' as [y|[y| | |]|b1 b2|]; try done;
        first [by eexists (And _ _); split; [|left] | by eexists (And _ _); split; [|right]]. }
    destruct Ho as (r & Hr & Hcase). exists r. splits.
    + split.
      * eapply (goes_binary AND); [by left|exact Ga|exact Gb|exact Hr|done].
      * destruct Hcase as [-> | ->]; cbn; by rewrite Ca, Cb.
      * intros f. destruct Hcase as [-> | ->]; cbn; rewrite <- Ea, <- Eb; [done|apply andb_comm].
      * destruct Hcase as [-> | ->]; words_in.
    + destruct Hcase as [-> | ->]; cbn; lia.
    + destruct Hcase as [-> | ->]; cbn; lia.
    + by destruct Hcase as [-> | ->].
    + intros _. destruct Hcase as [-> | ->]; cbn; by rewrite Ca, Cb.
  - cbn in He. apply andb_true_iff in He as [Ha Hb].
    destruct (IHa Ha) as (a' & Na & Oa & Sa & _). destruct (IHb Hb) as (b' & Nb & Ob & Sb & _).
    destruct (or_nf a b a' b' Na Nb) as (r & Nr & Hcase). exists r.
    splits; [done|destruct Hcase as [-> | ->]; cbn; lia|destruct Hcase as [-> | ->]; cbn; lia|by destruct Hcase as [-> | ->]|done].
Qed.

(** Going on from a tree, to the normal form of an expression of the same value. *)
Lemma nf_via t p q p' q' x d : t = AND ∨ t = OR → nf p p' → nf q q' →
  rearrange t (tree p') (tree q') no_word = Ok (inl (tree x)) → nf x d →
  (∀ f, eval f x = if bool_decide (t = AND) then eval f p' && eval f q' else eval f p' || eval f q') →
  words_of x ⊆ words_of p' ++ words_of q' → nf (if bool_decide (t = AND) then And p q else Or p q) d.
Proof.
  intros Ht [Gp Dp Ep Wp] [Gq Dq Eq Wq] Hr [Gx Dx Ex Wx] He Hw. split; [|done| |].
  - assert (G : normal (new_node t (tree p) (tree q)) (tree d)) by (eapply goes_binary; [done|exact Gp|exact Gq|exact Hr|exact Gx]).
    by destruct Ht as [-> | ->].
  - intros f. rewrite Ex, He. destruct Ht as [-> | ->]; cbn; by rewrite Ep, Eq.
  - destruct Ht as [-> | ->]; [change (words_of d ⊆ words_of (And p q))|change (words_of d ⊆ words_of (Or p q))]; words_in.
Qed.

(** The values of the parts, one after the other. *)
Ltac bools f :=
  repeat match goal with
  | |- context [eval f ?x] => destruct (eval f x)
  | |- context [f (text ?w)] => destruct (f (text w))
  end; try done.

(** What a conjunction is rearranged to when trees are copied. *)
Lemma distribute_and_or a b c d :
  rearrange AND (tree (And a b)) (tree (Or c d)) no_word = Ok (inl (tree (Or (And (And a b) c) (And (And a b) d)))).
Proof.
  change (rearrange AND (tree (And a b)) (tree (Or c d)) no_word) with
    (Ok (A := qnode + qnode) (inl (new_node OR (new_node AND (tree (And a b)) (tree c))
       (new_node AND (new_node AND (cloneTree (tree a)) (cloneTree (tree b))) (tree d))))).
  by rewrite !cloneTree_same.
Qed.

Lemma distribute_or_and a b c d :
  rearrange AND (tree (Or a b)) (tree (And c d)) no_word = Ok (inl (tree (Or (And (And c d) a) (And (And c d) b)))).
Proof. exact (distribute_and_or c d a b). Qed.

Lemma distribute_or_or a b c d :
  rearrange AND (tree (Or a b)) (tree (Or c d)) no_word
  = Ok (inl (tree (Or (Or (And a c) (And a d)) (Or (And b c) (And b d))))).
Proof.
  change (rearrange AND (tree (Or a b)) (tree (Or c d)) no_word) with
    (Ok (A := qnode + qnode) (inl (new_node OR
       (new_node OR (new_node AND (tree a) (tree c)) (new_node AND (cloneTree (tree a)) (tree d)))
       (new_node OR (new_node AND (tree b) (cloneTree (tree c))) (new_node AND (cloneTree (tree b)) (cloneTree (tree d))))))).
  by rewrite !cloneTree_same.
Qed.

(** The conjunction of normal forms: a disjunction in one of them is pulled out. *)
Lemma and_nf n : ∀ p q p' q', nf p p' → nf q q' → (ors p' + ors q' <= n)%nat → ∃ r, nf (And p q) r.
Proof.
  induction (lt_wf n) as [n _ IH]. intros p q p' q' Np Nq Hn.
  (* the conjunction of parts with fewer disjunctions *)
  assert (Hand : ∀ a b, is_dnf a = true → is_dnf b = true → (ors a + ors b < ors p' + ors q')%nat → ∃ r, nf (And a b) r).
  { intros a b Ha Hb Hlt. destruct (dnf_nf a Ha) as (a' & Na & Oa & _). destruct (dnf_nf b Hb) as (b' & Nb & Ob & _).
    eapply (IH (ors a' + ors b')%nat); [lia|exact Na|exact Nb|lia]. }
  assert (Hor : ∀ x y, (∃ r, nf x r) → (∃ r, nf y r) → ∃ r, nf (Or x y) r).
  { intros x y [x' Nx] [y' Ny]. destruct (or_nf x y x' y' Nx Ny) as (r & Nr & _). by exists r. }
  assert (Hvia : ∀ x, rearrange AND (tree p') (tree q') no_word = Ok (inl (tree x)) → (∃ r, nf x r) →
    (∀ f, eval f x = eval f p' && eval f q') → words_of x ⊆ words_of p' ++ words_of q' → ∃ r, nf (And p q) r).
  { intros x Hx [d Nd] He Hw. exists d. exact (nf_via AND p q p' q' x d (or_introl eq_refl) Np Nq Hx Nd He Hw). }
  assert (Hend : ∀ r, rearrange AND (tree p') (tree q') no_word = Ok (inr (tree r)) → is_dnf r = true →
    (∀ f, eval f r = eval f p' && eval f q') → words_of r ⊆ words_of p' ++ words_of q' → ∃ r, nf (And p q) r).
  { intros r Hr Hd He Hw. exists r. destruct Np as [Gp _ Ep Wp], Nq as [Gq _ Eq Wq]. split; [|done| |words_in].
    - eapply (goes_binary AND); [by left|exact Gp|exact Gq|exact Hr|done].
    - intros f. cbn. by rewrite He, Ep, Eq. }
  assert (Hor2 : ∀ a b c d, is_dnf a = true → is_dnf b = true → is_dnf c = true → is_dnf d = true →
    (ors a + ors b < ors p' + ors q')%nat → (ors c + ors d < ors p' + ors q')%nat → ∃ r, nf (Or (And a b) (And c d)) r)
    by (intros; apply Hor; by apply Hand).
  destruct Np as [_ Dp _ _], Nq as [_ Dq _ _].
  destruct p' as [x|[x| | |]|a b|a b]; try done; destruct q' as [y|[y| | |]|c d|c d]; try done;
    try (match type of Hend with ∀ r, rearrange AND (tree ?P) (tree ?Q) _ = _ → _ =>
           first [apply (Hend (And P Q) eq_refl) | apply (Hend (And Q P) eq_refl)] end;
         [cbn in *; by rewrite ?Dp, ?Dq|intros f; cbn; first [done|apply andb_comm]|words_in]);
    cbn [is_dnf] in Dp, Dq; repeat match goal with H : _ && _ = true |- _ => apply andb_true_iff in H as [? ?] end.
  - apply (Hvia (Or (And (Lit x) c) (And (Lit x) d)) eq_refl); [apply Hor2; try done; cbn; lia| |words_in].
    intros f. cbn. bools f.
  - apply (Hvia (Or (And c (Not (Lit x))) (And d (Not (Lit x)))) eq_refl); [apply Hor2; try done; cbn; lia| |words_in].
    intros f. cbn. bools f.
  - apply (Hvia (Or (And (And a b) c) (And (And a b) d))); [by apply distribute_and_or| | |words_in].
    + apply Hor2; try done; cbn in *; lia.
    + intros f. cbn. bools f.
  - apply (Hvia (Or (And (Lit y) a) (And (Lit y) b)) eq_refl); [apply Hor2; try done; cbn; lia| |words_in].
    intros f. cbn. bools f.
  - apply (Hvia (Or (And a (Not (Lit y))) (And b (Not (Lit y)))) eq_refl); [apply Hor2; try done; cbn; lia| |words_in].
    intros f. cbn. bools f.
  - apply (Hvia (Or (And (And c d) a) (And (And c d) b))); [by apply distribute_or_and| | |words_in].
    + apply Hor2; try done; cbn in *; lia.
    + intros f. cbn. bools f.
  - apply (Hvia (Or (Or (And a c) (And a d)) (Or (And b c) (And b d)))); [by apply distribute_or_or| | |words_in].
    + apply Hor; apply Hor2; try done; cbn in *; lia.
    + intros f. cbn. bools f.
Qed.

(** A conjunction or disjunction stays one. *)
Definition is_binary (e : expr) : bool := match e with And _ _ | Or _ _ => true | _ => false end.

Definition binary_node (q : qnode) : Prop := is_type AND q = true ∨ is_type OR q = true.

Lemma distribute_binary l r v k : distribute l r v = Ok k → match k with inl q | inr q => binary_node q end.
Proof.
  destruct l as [|lt l1 l2 lv]; [done|]. destruct r as [|rt r1 r2 rv]; [done|].
  unfold distribute, binary_node. destruct lt, rt; cbn; try destruct r2; cbn; intros H; simplify_eq; cbn; auto.
Qed.

Lemma rearrange_binary t l r v k : t = AND ∨ t = OR → rearrange t l r v = Ok k →
  match k with inl q | inr q => binary_node q end.
Proof.
  intros [-> | ->]; cbn [rearrange]; destruct (in_order l r) as [lr|]; cbn [mbind res_bind]; try done.
  - apply distribute_binary.
  - intros [= <-]. by right.
Qed.

Lemma getRawDNF_binary n q d : binary_node q → getRawDNF n q = Ok d → binary_node d.
Proof.
  revert q. induction n as [|n IH]; intros q Hq H; [done|]. cbn [getRawDNF] in H.
  destruct q as [|t l r v]; [by destruct Hq|]. assert (Ht : t = AND ∨ t = OR) by (destruct Hq as [Hq|Hq]; apply bool_decide_eq_true_1 in Hq; auto).
  destruct (two_levels t l r) as [[]|] eqn:E; cbn [mbind res_bind] in H; [by simplify_eq| |done].
  destruct (getRawDNF n l) as [l'|]; cbn [mbind res_bind] in H; [|done].
  destruct (getRawDNF n r) as [r'|]; cbn [mbind res_bind] in H; [|done].
  destruct (rearrange t l' r' v) as [k|] eqn:Ek; cbn [mbind res_bind] in H; [|done].
  apply rearrange_binary in Ek; [|done]. destruct k as [q|q]; [by apply (IH q)|by simplify_eq].
Qed.

Lemma goes_is_binary p r : is_binary p = true → goes p r → is_binary r = true.
Proof.
  intros Hp [n G]. apply getRawDNF_binary in G; [by destruct r, G|]. destruct p; [done|done|by left|by right].
Qed.

(** The negation of a normal form that is not a word. *)
Lemma not_nf n : ∀ p p', nf p p' → (esize p' <= n)%nat → (is_lit p' = true → is_lit p = true) →
  ∃ r, nf (Not p) r ∧ match p' with Not (Lit w) => r = Lit w | Lit _ => r = Not p' | _ => is_binary r = true end.
Proof.
  induction n as [|n IH]; intros p p' [Gp Dp Ep Wp] Hn Hl; [destruct p'; cbn in Hn; lia|].
  destruct (is_lit p) eqn:Elit.
  { destruct p as [w| | |]; try done. apply goes_lit_inv in Gp as ->. exists (Not (Lit w)). split; [|done].
    split; [apply goes_not_lit|done|done|done]. }
  assert (Hpart : ∀ a, is_dnf a = true → (esize a < esize p')%nat → ∃ r, nf (Not a) r).
  { intros a Ha Hlt. destruct (dnf_nf a Ha) as (a' & Na & _ & Sa & La & _).
    destruct (IH a a' Na) as (r & Nr & _); [lia|by rewrite La|by exists r]. }
  assert (Hvia : ∀ x, rearrange NOT Null (tree p') no_word = Ok (inl (tree x)) →
    (∀ f, eval f x = negb (eval f p')) → words_of x ⊆ words_of p' → ∀ d, nf x d → nf (Not p) d).
  { intros x Hx He Hw d [Gd Dd Ed Wd]. split; [|done| |words_in].
    - eapply (normal_step NOT Null (tree p) Null (tree p') _ (inl (tree x))); [by destruct p|by exists 1%nat|exact Gp|exact Hx|exact Gd].
    - intros f. cbn. by rewrite Ed, He, Ep. }
  destruct p' as [w|[w| | |]|a b|a b]; try done.
  - by specialize (Hl eq_refl).
  - exists (Lit w). split; [|done]. apply (Hvia (Lit w) eq_refl); [intros f; cbn; bools f|done|].
    split; [apply goes_lit|done|done|done].
  - cbn in Dp. apply andb_true_iff in Dp as [Da Db]. apply conj_dnf in Da, Db.
    destruct (Hpart a Da) as [a' Na]; [cbn; lia|]. destruct (Hpart b Db) as [b' Nb]; [cbn; lia|].
    destruct (or_nf _ _ _ _ Na Nb) as (r & Nr & _). exists r. split; [|by eapply goes_is_binary; [|exact (nf_goes _ _ Nr)]].
    apply (Hvia (Or (Not a) (Not b)) eq_refl); [intros f; cbn; bools f|done|done].
  - cbn in Dp. apply andb_true_iff in Dp as [Da Db].
    destruct (Hpart a Da) as [a' Na]; [cbn; lia|]. destruct (Hpart b Db) as [b' Nb]; [cbn; lia|].
    destruct (and_nf (ors a' + ors b') _ _ _ _ Na Nb (le_n _)) as (r & Nr). exists r.
    split; [|by eapply goes_is_binary; [|exact (nf_goes _ _ Nr)]].
    apply (Hvia (And (Not a) (Not b)) eq_refl); [intros f; cbn; bools f|done|done].
Qed.

(** Every expression without such negations has a normal form. *)
Lemma total_nf e : calm e = true →
  ∃ r, nf e r ∧ match r with
    | Lit _ => collapses e = true
    | Not _ => match e with Not e' => collapses e' = true | _ => False end
    | _ => True
    end.
Proof.
  assert (Hbin : ∀ a r (P : Prop), is_binary a = true → nf a r →
    match r with Lit _ => P | Not _ => P | _ => True end).
  { intros a r P Ha Nr. pose proof (goes_is_binary a r Ha (nf_goes _ _ Nr)). by destruct r. }
  induction e as [w|e IH|a IHa b IHb|a IHa b IHb]; cbn [calm]; intros Hc.
  - exists (Lit w). split; [|done]. split; [apply goes_lit|done|done|done].
  - apply andb_true_iff in Hc as [Hc Hl]. destruct (IH Hc) as (e' & Ne & Hlit).
    assert (Hl' : is_lit e' = true → is_lit e = true).
    { intros H. destruct e'; [|done..]. rewrite Hlit in Hl. by rewrite orb_false_r in Hl. }
    destruct (not_nf (esize e') e e' Ne (le_n _) Hl') as (r & Nr & Hr). exists r. split; [done|].
    destruct e' as [w|[w| | |]|a b|a b]; try (by destruct r).
    subst r. by destruct e.
  - apply andb_true_iff in Hc as [Ha Hb]. destruct (IHa Ha) as (a' & Na & _). destruct (IHb Hb) as (b' & Nb & _).
    destruct (and_nf _ a b a' b' Na Nb (le_n _)) as [r Nr]. exists r. split; [done|].
    pose proof (Hbin (And a b) r False eq_refl Nr). by destruct r.
  - apply andb_true_iff in Hc as [Ha Hb]. destruct (IHa Ha) as (a' & Na & _). destruct (IHb Hb) as (b' & Nb & _).
    destruct (or_nf a b a' b' Na Nb) as (r & Nr & _). exists r. split; [done|].
    pose proof (Hbin (Or a b) r False eq_refl Nr). by destruct r.
Qed.

(** ** Terms and their variables *)

Fixpoint terms (e : expr) : list expr := match e with Or a b => terms a ++ terms b | _ => [e] end.

Lemma getDNFTermRoots_tree e dest : getDNFTermRoots (tree e) dest = Ok (dest ++ map tree (terms e)).
Proof.
  revert dest. induction e as [w|e IH|a IHa b IHb|a IHa b IHb]; intros dest; cbn; try done.
  rewrite IHa. cbn [mbind res_bind]. by rewrite IHb, map_app, app_assoc.
Qed.

Lemma eval_terms f e : eval f e = existsb (eval f) (terms e).
Proof.
  induction e as [w|e IH|a IHa b IHb|a IHa b IHb]; cbn; try by rewrite orb_false_r.
  by rewrite IHa, IHb, existsb_app.
Qed.

Lemma terms_words e w : w ∈ words_of e ↔ ∃ t, t ∈ terms e ∧ w ∈ words_of t.
Proof.
  assert (Hone : ∀ x, w ∈ words_of x ↔ ∃ t, t ∈ [x] ∧ w ∈ words_of t).
  { intros x. split; [intros H; exists x; by rewrite list_elem_of_singleton|by intros (t & ->%list_elem_of_singleton & H)]. }
  induction e as [x|e IH|a IHa b IHb|a IHa b IHb]; try apply Hone. cbn [words_of terms]. rewrite elem_of_app, IHa, IHb. split.
  - intros [(t & Ht & H)|(t & Ht & H)]; exists t; rewrite elem_of_app; auto.
  - intros (t & [Ht|Ht]%elem_of_app & H); [left|right]; by exists t.
Qed.

Lemma terms_conj e : is_dnf e = true → Forall (λ t, is_conj t = true) (terms e).
Proof.
  induction e as [w|e IH|a IHa b IHb|a IHa b IHb]; cbn; intros H; try by repeat constructor.
  apply andb_true_iff in H as [Ha Hb]. apply Forall_app. auto.
Qed.

Fixpoint vars (e : expr) (pn : list word * list word) : list word * list word :=
  match e with
  | Lit w => (insertAsSet pn.1 w, pn.2)
  | Not (Lit w) => (pn.1, insertAsSet pn.2 w)
  | Not _ => pn
  | And a b | Or a b => vars b (vars a pn)
  end.

Lemma getTreeVariables_tree e pn : is_conj e = true → getTreeVariables (tree e) pn = Ok (vars e pn).
Proof.
  revert pn. induction e as [w|e IH|a IHa b IHb|a IHa b IHb]; intros pn H; cbn in *; try done.
  - by destruct e.
  - apply andb_true_iff in H as [Ha Hb]. rewrite IHa by done. cbn [mbind res_bind]. by rewrite IHb.
Qed.

(** The words wanted and not wanted are as they should be. *)
Definition holds (f : list Z → bool) (pn : list word * list word) : bool :=
  forallb (λ w, f (text w)) pn.1 && forallb (λ w, negb (f (text w))) pn.2.

Lemma found_spec w v : found w v = true ↔ ∃ x, x ∈ v ∧ text x = text w.
Proof.
  unfold found. rewrite existsb_exists. split.
  - intros (x & Hx & Ht). apply bool_decide_eq_true in Ht. exists x. by rewrite list_elem_of_In.
  - intros (x & Hx & Ht). exists x. rewrite <- list_elem_of_In. split; [done|]. by apply bool_decide_eq_true.
Qed.

Lemma forallb_insert (P : list Z → bool) v w :
  forallb (λ x, P (text x)) (insertAsSet v w) = forallb (λ x, P (text x)) v && P (text w).
Proof.
  unfold insertAsSet. destruct (found w v) eqn:E; [|rewrite forallb_app; cbn; by rewrite andb_true_r].
  apply found_spec in E as (x & Hx & <-). destruct (P (text x)) eqn:EP; [by rewrite andb_true_r|].
  rewrite andb_false_r. apply not_true_iff_false. rewrite forallb_forall. intros H.
  rewrite list_elem_of_In in Hx. specialize (H x Hx). congruence.
Qed.

Lemma vars_holds f e pn : is_conj e = true → holds f (vars e pn) = holds f pn && eval f e.
Proof.
  revert pn. induction e as [w|e IH|a IHa b IHb|a IHa b IHb]; intros pn H; try done.
  - unfold holds. cbn. rewrite (forallb_insert f). by destruct (forallb _ pn.1), (f (text w)), (forallb _ pn.2).
  - destruct e as [w| | |]; try done. unfold holds. cbn. rewrite (forallb_insert (λ x, negb (f x))). by rewrite andb_assoc.
  - cbn in H. apply andb_true_iff in H as [Ha Hb]. cbn. rewrite IHb, IHa by done. by rewrite andb_assoc.
Qed.

Definition useful (t : expr) : bool :=
  bool_decide (intersection (vars t ([], [])).1 (vars t ([], [])).2 = []).

Lemma useless_false f t : is_conj t = true → useful t = false → eval f t = false.
Proof.
  intros Hc Hu. pose proof (vars_holds f t ([], []) Hc) as Hh. cbn in Hh. rewrite <- Hh.
  unfold useful in Hu. apply bool_decide_eq_false in Hu. destruct (vars t ([], [])) as [ps ns]. cbn in *.
  unfold intersection in Hu. destruct (List.filter (λ elem, found elem ns) ps) as [|x l] eqn:E; [done|].
  assert (Hx : In x (List.filter (λ elem, found elem ns) ps)) by (rewrite E; by left).
  apply filter_In in Hx as [Hx Hf]. apply found_spec in Hf as (y & Hy & Ht). rewrite list_elem_of_In in Hy.
  unfold holds. cbn. apply not_true_iff_false. rewrite andb_true_iff, !forallb_forall. intros [H1 H2].
  specialize (H1 x Hx). specialize (H2 y Hy). rewrite Ht, H1 in H2. done.
Qed.

Lemma usefulTerms_tree ts : Forall (λ t, is_conj t = true) ts →
  usefulTerms (map tree ts) = Ok (map tree (List.filter useful ts)).
Proof.
  induction 1 as [|t ts Ht _ IH]; [done|]. cbn. unfold isDNFTermUseful. rewrite getTreeVariables_tree by done.
  cbn [mbind res_bind]. rewrite IH. cbn [mbind res_bind]. fold (useful t). by destruct (useful t).
Qed.

Lemma eval_useful f ts : Forall (λ t, is_conj t = true) ts → existsb (eval f) (List.filter useful ts) = existsb (eval f) ts.
Proof.
  induction 1 as [|t ts Ht _ IH]; [done|]. cbn. destruct (useful t) eqn:E; cbn; rewrite IH; [done|].
  by rewrite (useless_false f t Ht E).
Qed.

(** What the simplification makes of a normal form: nothing when no term can hold. *)
Definition join_or (ts : list expr) : option expr :=
  match ts with [] => None | t :: ts => Some (fold_left Or ts t) end.

Definition simplified (r : expr) : option expr :=
  let ts := List.filter useful (terms r) in
  if bool_decide (length ts = length (terms r)) then Some r else join_or ts.

Definition tree_of (o : option expr) : qnode := match o with Some e => tree e | None => Null end.

Lemma join_or_tree ts : joinTreesWithOrNodes (map tree ts) = tree_of (join_or ts).
Proof.
  destruct ts as [|t ts]; [done|]. cbn. revert t. induction ts as [|x ts IH]; intros t; [done|]. exact (IH (Or t x)).
Qed.

Lemma join_or_eval f ts : match join_or ts with Some e => eval f e | None => false end = existsb (eval f) ts.
Proof.
  destruct ts as [|t ts]; [done|]. cbn. revert t. induction ts as [|x ts IH]; intros t; cbn; [by rewrite orb_false_r|].
  rewrite IH. cbn. by rewrite orb_assoc.
Qed.

Lemma fold_or_terms ts t : terms (fold_left Or ts t) = terms t ++ concat (map terms ts).
Proof. revert t. induction ts as [|x ts IH]; intros t; cbn; [by rewrite app_nil_r|]. rewrite IH. cbn. by rewrite app_assoc. Qed.

Lemma conj_terms t : is_conj t = true → terms t = [t].
Proof. by destruct t. Qed.

Lemma fold_or_dnf ts t : is_dnf t = true → Forall (λ t, is_conj t = true) ts → is_dnf (fold_left Or ts t) = true.
Proof.
  intros Ht Hts. revert t Ht. induction Hts as [|x ts Hx _ IH]; intros t Ht; cbn; [done|]. apply IH. cbn.
  by rewrite Ht, conj_dnf.
Qed.

Lemma simplified_spec r : is_dnf r = true →
  match simplified r with
  | Some d => is_dnf d = true ∧ (∀ f, eval f d = eval f r) ∧
    Forall (λ t, (is_conj t = true ∧ useful t = true) ∧ t ∈ terms r) (terms d)
  | None => ∀ f, eval f r = false
  end.
Proof.
  intros Hd. pose proof (terms_conj r Hd) as Hc. unfold simplified. case_bool_decide as Hl.
  - splits; [done|done|]. assert (Hall : Forall (λ t, useful t = true) (terms r)).
    { clear -Hl. induction (terms r) as [|t ts IH]; [constructor|]. cbn in Hl. destruct (useful t) eqn:E; cbn in Hl.
      - constructor; [done|]. apply IH. lia.
      - pose proof (filter_length_le useful ts). lia. }
    rewrite !Forall_and. splits; [done|done|by apply Forall_forall].
  - set (ts := List.filter useful (terms r)) in *.
    assert (Hts : Forall (λ t, (is_conj t = true ∧ useful t = true) ∧ t ∈ terms r) ts).
    { apply Forall_forall. intros t Ht. rewrite list_elem_of_In in Ht. apply filter_In in Ht as [Ht Hu].
      rewrite Forall_forall in Hc. rewrite list_elem_of_In. splits; [|done|done]. apply Hc. by rewrite list_elem_of_In. }
    pose proof (λ f, join_or_eval f ts) as He. destruct (join_or ts) as [d|] eqn:Ej.
    + splits.
      * destruct ts as [|t ts']; [done|]. cbn in Ej. injection Ej as <-. apply Forall_cons in Hts as [[[Ht _] _] Hts].
        apply fold_or_dnf; [by apply conj_dnf|]. eapply Forall_impl; [exact Hts|]. by intros ? [[? _] _].
      * intros f. rewrite (He f). unfold ts. by rewrite eval_useful, <- eval_terms.
      * destruct ts as [|t ts']; [done|]. cbn in Ej. injection Ej as <-. rewrite fold_or_terms.
        replace (terms t ++ concat (map terms ts')) with (t :: ts'); [done|].
        apply Forall_cons in Hts as [[[Ht _] _] Hts]. rewrite conj_terms by done. cbn. f_equal.
        clear -Hts. induction Hts as [|x l [[Hx _] _] _ IH]; [done|]. cbn. rewrite conj_terms by done. cbn. by rewrite <- IH.
    + intros f. rewrite eval_terms, <- (eval_useful f (terms r) Hc). symmetry. apply He.
Qed.

(** The normal form of a tree. *)
Lemma getDisjunctiveNormalForm_tree e : calm e = true →
  ∃ n o, (∀ m, (n <= m)%nat → getDisjunctiveNormalForm m (tree e) = Ok (tree_of o)) ∧
    match o with
    | Some d => is_dnf d = true ∧ (∀ f, eval f d = eval f e) ∧ Forall (λ t, is_conj t = true ∧ useful t = true) (terms d) ∧
        words_of d ⊆ words_of e
    | None => ∀ f, eval f e = false
    end.
Proof.
  intros Hc. destruct (total_nf e Hc) as (r & [[n Hn] Hd He Hw] & _). exists n, (simplified r). split.
  - intros m Hm. unfold getDisjunctiveNormalForm. rewrite (getRawDNF_more n m _ _ Hn Hm). cbn [mbind res_bind].
    rewrite getDNFTermRoots_tree. cbn [mbind res_bind app]. rewrite usefulTerms_tree by by apply terms_conj.
    cbn [mbind res_bind]. unfold simplified. rewrite !length_map, join_or_tree.
    destruct (tree r) eqn:E; [by destruct r|]. rewrite <- E. by case_bool_decide.
  - pose proof (simplified_spec r Hd) as Hs. destruct (simplified r) as [d|].
    + destruct Hs as (Hd' & He' & Ht). splits; [done| | |].
      * intros f. by rewrite He', He.
      * eapply Forall_impl; [exact Ht|]. by intros t [? _].
      * intros w (t & Hin & Hwt)%terms_words. apply Hw, terms_words. exists t. split; [|done].
        rewrite Forall_forall in Ht. by apply Ht.
    + intros f. rewrite <- He. apply Hs.
Qed.

(** ** Evaluation *)

(** The addresses are 64 bits wide, and none of them is found in the table across the end of an entry. *)
Definition straddles (x p1 p2 : Z) (i : nat) (c : Z) : Prop := le64 x = drop i (le64 p1) ++ c :: take (i - 1) (le64 p2).

#[export] Instance straddles_dec x p1 p2 i c : Decision (straddles x p1 p2 i c).
Proof. unfold straddles. apply _. Defined.

Definition addresses_ok (A : list Z) : Prop :=
  Forall (λ x, 0 <= x < 2 ^ 64) A ∧
  Forall (λ x, Forall (λ p1, Forall (λ p2, Forall (λ i, ¬ straddles x p1 p2 i 48 ∧ ¬ straddles x p1 p2 i 49) (seq 1 8)) A) A) A.

#[export] Instance addresses_ok_dec A : Decision (addresses_ok A).
Proof. unfold addresses_ok. apply _. Defined.

Lemma le64_length p : length (le64 p) = 8%nat.
Proof. done. Qed.

Lemma le64_inj x y : 0 <= x < 2 ^ 64 → 0 <= y < 2 ^ 64 → le64 x = le64 y → x = y.
Proof.
  intros Hx Hy H. unfold le64 in H. apply app_inj_1 in H as [H1 H2]; [|done].
  apply (f_equal of_le) in H1, H2. rewrite !of_le32 in H1, H2 by (Z.div_mod_to_equations; lia).
  Z.div_mod_to_equations. lia.
Qed.

Definition flag (b : bool) : Z := if b then CH "1" else CH "0".
Definition entry (e : Z * bool) : list Z := le64 e.1 ++ [flag e.2].
Definition entries (l : list (Z * bool)) : list Z := concat (map entry l).

Lemma entries_length l : length (entries l) = (9 * length l)%nat.
Proof. induction l as [|e l IH]; [done|]. unfold entries in *. cbn [map concat]. rewrite length_app, IH. cbn. lia. Qed.

Lemma entries_snoc l e : entries (l ++ [e]) = entries l ++ entry e.
Proof. unfold entries. rewrite map_app, concat_app. cbn [map concat]. by rewrite app_nil_r. Qed.

(** An address is found where an entry begins. *)
Lemma occurs_entries A x l i : addresses_ok A → x ∈ A → Forall (λ e, e.1 ∈ A) l → occurs (entries l) (le64 x) i →
  ∃ k b, i = (9 * k)%nat ∧ l !! k = Some (x, b).
Proof.
  intros [Hr Hs] Hx Hl. revert i. induction Hl as [|[a b] l Ha Hl IH]; intros i Ho%occurs_take; rewrite le64_length in Ho.
  { destruct Ho as [Ho _]. cbn in Ho. lia. }
  destruct Ho as [Hlen Ho]. change (entries ((a, b) :: l)) with (entry (a, b) ++ entries l) in *.
  destruct (Nat.le_gt_cases 9 i) as [Hi|Hi].
  - destruct (IH (i - 9)%nat) as (k & b' & Hk & El).
    + apply occurs_take. rewrite le64_length. rewrite length_app in Hlen. cbn in Hlen. split; [lia|].
      by rewrite drop_app_ge in Ho by (cbn; lia).
    + exists (S k), b'. split; [lia|done].
  - destruct i as [|i].
    + exists 0%nat, b. split; [done|]. rewrite drop_0 in Ho. rewrite take_app_le in Ho by (cbn; lia). cbn [lookup list_lookup].
      rewrite Forall_forall in Hr. rewrite (le64_inj x a); [done|by apply Hr|by apply Hr|by rewrite <- Ho].
    + exfalso. rewrite drop_app_le in Ho by (cbn; lia). unfold entry in Ho. cbn [fst snd] in Ho.
      rewrite drop_app_le in Ho by (cbn; lia). rewrite <- app_assoc in Ho.
      rewrite take_app_ge in Ho by (rewrite length_drop, le64_length; lia). rewrite length_drop, le64_length in Ho.
      replace (8 - (8 - S i))%nat with (S i) in Ho by lia. cbn [app take] in Ho.
      assert (Hst : ∃ p2, p2 ∈ A ∧ straddles x a p2 (S i) (flag b)).
      { destruct l as [|[p2 b2] l].
        - exists a. split; [done|]. unfold straddles. rewrite <- Ho. do 2 f_equal.
          rewrite length_app in Hlen. cbn in Hlen. assert (i = 0%nat) as -> by lia. done.
        - exists p2. apply Forall_cons in Hl as [Hp2 _]. split; [done|]. unfold straddles. rewrite <- Ho. do 2 f_equal.
          change (entries ((p2, b2) :: l)) with (entry (p2, b2) ++ entries l). unfold entry. cbn [fst].
          rewrite <- app_assoc, take_app_le by (rewrite le64_length; lia). f_equal. lia. }
      destruct Hst as (p2 & Hp2 & Hst). rewrite Forall_forall in Hs. specialize (Hs x Hx). rewrite Forall_forall in Hs.
      specialize (Hs a Ha). rewrite Forall_forall in Hs. specialize (Hs p2 Hp2). rewrite Forall_forall in Hs.
      destruct (Hs (S i)) as [H0 H1]; [apply elem_of_seq; lia|]. by destruct b.
Qed.

Lemma entries_split l k e : l !! k = Some e →
  entries l = entries (take k l) ++ entry e ++ entries (drop (S k) l) ∧ length (entries (take k l)) = (9 * k)%nat.
Proof.
  intros H. rewrite entries_length, length_take. pose proof (lookup_lt_Some _ _ _ H). split; [|lia].
  rewrite <- (take_drop_middle l k e H) at 1. unfold entries. rewrite map_app, concat_app. done.
Qed.

Lemma entry_occurs l k e : l !! k = Some e → occurs (entries l) (le64 e.1) (9 * k).
Proof.
  intros H. apply entries_split in H as [-> <-]. exists (entries (take k l)), ([flag e.2] ++ entries (drop (S k) l)).
  unfold entry. by rewrite <- app_assoc.
Qed.

Lemma rd_entry l k e : l !! k = Some e → rd (entries l) (Z.of_nat (9 * k) + 8) = Ok (flag e.2).
Proof.
  intros H. apply entries_split in H as [-> <-]. unfold entry. rewrite <- (app_assoc (le64 _)), app_assoc.
  replace (Z.of_nat (length (entries (take k l))) + 8) with (Z.of_nat (length (entries (take k l) ++ le64 e.1)))
    by (rewrite length_app, le64_length; lia).
  apply rd_nth_app.
Qed.

Lemma u_find_place s n a n1 p : u_find s n a n1 = Ok (Some p) → n1 ≠ 1%nat → 0 <= p.
Proof.
  unfold u_find. destruct (n =? 0)%nat; [done|]. destruct (Nat.eqb_spec n1 1); [done|]. intros H _.
  assert (Hl : ∀ k pos, find_loop s pos a n1 k = Ok (Some p) → 0 <= p).
  { induction k as [|k IH]; intros pos; cbn; [done|]. destruct (memequal _ _ _) as [[]|]; cbn [mbind res_bind]; try done.
    - intros [= <-]. lia.
    - apply IH. }
  by apply Hl in H.
Qed.

Section Evaluation.
Context (f : list Z → bool) (A : list Z) (W : list word).
Hypothesis HA : addresses_ok A.
Hypothesis HW : ∀ w, w ∈ W → rep w ∈ A.
Hypothesis Hcoherent : ∀ v w, v ∈ W → w ∈ W → rep v = rep w → text v = text w.
Hypothesis Hroom : 9 * Z.of_nat (length A) <= buffer_size.

Definition results (ws : list word) : list (Z * bool) := map (λ w, (rep w, f (text w))) ws.

(** The table has the results of the calls, one for each address. *)
Record table_ok (st : estate) : Prop := TableOk {
  to_buffer : buffer st = entries (results (calls st));
  to_words : ∀ w, w ∈ calls st → w ∈ W;
  to_once : NoDup (map rep (calls st)) }.

Lemma find_result st w : table_ok st → w ∈ W →
  ∃ r, (if (length (buffer st) =? 0)%nat then Ok None else u_find (buffer st) (length (buffer st)) (le64 (rep w)) 8) = Ok r ∧
    match r with
    | Some p => rd (buffer st) (p + 8) = Ok (flag (f (text w)))
    | None => rep w ∉ map rep (calls st)
    end.
Proof.
  intros [Hb Hw Ho] Hin. rewrite Hb.
  destruct (Nat.eqb_spec (length (entries (results (calls st)))) 0) as [E|E].
  { exists None. split; [done|]. rewrite entries_length in E. unfold results in E. rewrite length_map in E.
    destruct (calls st); [by apply not_elem_of_nil|cbn in E; lia]. }
  destruct (u_find_correct (entries (results (calls st))) [] (le64 (rep w))) as (r & Hr & Hspec); [cbn; lia|].
  rewrite app_nil_r in Hr. rewrite le64_length in Hr. exists r. split; [done|]. destruct r as [p|].
  - destruct Hspec as [Hoc _].
    pose proof (u_find_place _ _ _ _ _ Hr ltac:(done)) as Hp.
    assert (Hall : Forall (λ e, e.1 ∈ A) (results (calls st))).
    { apply Forall_forall. intros e He. unfold results in He. apply list_elem_of_fmap in He as (v & -> & Hv). apply HW, Hw, Hv. }
    destruct (occurs_entries A (rep w) _ _ HA (HW w Hin) Hall Hoc) as (k & b & Hk & El).
    unfold results in El. rewrite list_lookup_fmap in El. destruct (calls st !! k) as [v|] eqn:Ev; [|done].
    cbn in El. injection El as Erep Eb. replace p with (Z.of_nat (9 * k)) by lia.
    rewrite (rd_entry _ _ (rep w, b)).
    2:{ unfold results. rewrite list_lookup_fmap, Ev. cbn. by rewrite Erep, Eb. }
    cbn [snd]. rewrite <- Eb. do 3 f_equal. apply Hcoherent; [|done|done]. apply Hw. by apply list_elem_of_lookup_2 in Ev.
  - intros Hc. apply list_elem_of_fmap in Hc as (v & Ev & Hv). apply list_elem_of_lookup in Hv as [k Hk].
    apply (Hspec (9 * k)%nat). rewrite Ev. apply (entry_occurs _ _ (rep v, f (text v))). unfold results. by rewrite list_lookup_fmap, Hk.
Qed.

Lemma flag_one b : (flag b =? CH "1") = b.
Proof. by destruct b. Qed.

Lemma evaluate_word_ok st w positive : table_ok st → w ∈ W →
  ∃ st', evaluate_word f w positive st = Ok st' ∧ table_ok st' ∧ partial st' = partial st && Bool.eqb positive (f (text w)).
Proof.
  intros Hst Hw. destruct (find_result st w Hst Hw) as (r & Er & Hr). unfold evaluate_word. rewrite Er. cbn [mbind res_bind].
  assert (Hend : ∀ st1, table_ok st1 → partial st1 = partial st → ∃ st',
    Ok (if Bool.eqb positive (f (text w)) then st1 else EState (buffer st1) false (calls st1)) = Ok st' ∧ table_ok st' ∧
    partial st' = partial st && Bool.eqb positive (f (text w))).
  { intros st1 Hst1 Hp. eexists. split; [done|]. destruct (Bool.eqb positive (f (text w))); cbn.
    - by rewrite Hp, andb_true_r.
    - rewrite andb_false_r. split; [|done]. by destruct Hst1. }
  destruct r as [p|].
  - rewrite Hr. cbn [mbind res_bind]. rewrite flag_one. by apply Hend.
  - destruct Hst as [Hb Hws Ho].
    assert (Hnew : NoDup (map rep (calls st ++ [w]))).
    { rewrite map_app. apply NoDup_app. splits; [done| |apply NoDup_singleton]. intros x Hx ->%list_elem_of_singleton. done. }
    assert (Hlen : (length (calls st) + 1 <= length A)%nat).
    { replace (length (calls st) + 1)%nat with (length (map rep (calls st ++ [w]))) by (rewrite length_map, length_app; cbn; lia).
      apply submseteq_length. apply NoDup_submseteq; [done|]. intros x Hx. rewrite map_app in Hx.
      apply elem_of_app in Hx as [Hx| ->%list_elem_of_singleton]; [|by apply HW].
      apply list_elem_of_fmap in Hx as (v & -> & Hv). by apply HW, Hws. }
    rewrite Hb, entries_length. unfold results. rewrite length_map.
    destruct (Z.ltb_spec buffer_size (Z.of_nat (9 * length (calls st)) + 9)); [lia|]. cbn [mbind res_bind].
    apply Hend; [|done]. split; cbn [buffer partial calls].
    + unfold results. rewrite map_app. cbn [map]. by rewrite entries_snoc.
    + intros v Hv. apply elem_of_app in Hv as [Hv| ->%list_elem_of_singleton]; [by apply Hws|done].
    + done.
Qed.

Lemma evaluate_words_ok ws positive st : table_ok st → (∀ w, w ∈ ws → w ∈ W) → partial st = true →
  ∃ st', evaluate_words f positive ws st = Ok st' ∧ table_ok st' ∧
    partial st' = forallb (λ w, Bool.eqb positive (f (text w))) ws.
Proof.
  revert st. induction ws as [|w ws IH]; intros st Hst Hws Hp; cbn [evaluate_words forallb]; [by exists st|].
  destruct (evaluate_word_ok st w positive Hst) as (st1 & -> & Hst1 & Hp1); [apply Hws; by left|]. cbn [mbind res_bind].
  rewrite Hp in Hp1. cbn in Hp1. rewrite <- Hp1. destruct (partial st1) eqn:E; [|by exists st1].
  apply IH; [done| |done]. intros v Hv. apply Hws. by right.
Qed.

Lemma evaluate_term_ok pn st : table_ok st → (∀ w, w ∈ pn.1 ++ pn.2 → w ∈ W) →
  ∃ st', evaluate_term f pn st = Ok st' ∧ table_ok st' ∧ partial st' = holds f pn.
Proof.
  intros Hst Hpn. unfold evaluate_term.
  destruct (evaluate_words_ok pn.1 true (EState (buffer st) true (calls st))) as (st1 & -> & Hst1 & Hp1);
    [by destruct Hst|intros w Hw; apply Hpn, elem_of_app; by left|done|]. cbn [mbind res_bind].
  assert (E1 : partial st1 = forallb (λ w, f (text w)) pn.1).
  { rewrite Hp1. clear. induction pn.1 as [|w ws IH]; [done|]. cbn [forallb]. rewrite IH. by destruct (f (text w)). }
  unfold holds. rewrite <- E1. destruct (partial st1) eqn:E; [|by exists st1].
  destruct (evaluate_words_ok pn.2 false st1) as (st2 & -> & Hst2 & Hp2);
    [done|intros w Hw; apply Hpn, elem_of_app; by right|done|]. exists st2. splits; [done|done|]. rewrite Hp2.
  clear. induction pn.2 as [|w ws IH]; [done|]. cbn [forallb] in *. rewrite IH. by destruct (f (text w)).
Qed.

Lemma evaluate_terms_ok ts st : table_ok st → (∀ pn w, pn ∈ ts → w ∈ pn.1 ++ pn.2 → w ∈ W) →
  ∃ st', evaluate_terms f ts st = Ok (existsb (holds f) ts, st') ∧ table_ok st'.
Proof.
  revert st. induction ts as [|pn ts IH]; intros st Hst Hts; cbn [evaluate_terms existsb]; [by exists st|].
  destruct (evaluate_term_ok pn st Hst) as (st1 & -> & Hst1 & Hp); [intros w Hw; by apply (Hts pn w); [left|]|].
  cbn [mbind res_bind]. rewrite <- Hp. destruct (partial st1); [by exists st1|].
  apply IH; [done|]. intros pn' w Hpn'. apply Hts. by right.
Qed.
End Evaluation.

Lemma insertAsSet_elem v w x : x ∈ insertAsSet v w → x ∈ v ∨ x = w.
Proof.
  unfold insertAsSet. destruct (found w v); [by left|]. intros [|H%list_elem_of_singleton]%elem_of_app; auto.
Qed.

Lemma vars_words e pn w : w ∈ (vars e pn).1 ++ (vars e pn).2 → w ∈ pn.1 ++ pn.2 ∨ w ∈ words_of e.
Proof.
  revert pn. induction e as [x|e IH|a IHa b IHb|a IHa b IHb]; intros pn; cbn [vars words_of].
  - cbn. rewrite !elem_of_app. intros [[H|H]%insertAsSet_elem|H]; [auto| |auto]. subst. right. by apply list_elem_of_singleton.
  - destruct e as [x| | |]; auto. cbn. rewrite !elem_of_app. intros [H|[H|H]%insertAsSet_elem]; [auto|auto|].
    subst. right. by apply list_elem_of_singleton.
  - intros [[H|H]%IHa|H]%IHb; rewrite ?(elem_of_app (words_of a)); auto.
  - intros [[H|H]%IHa|H]%IHb; rewrite ?(elem_of_app (words_of a)); auto.
Qed.

Lemma all_variables_tree ts : Forall (λ t, is_conj t = true) ts →
  all_variables (map tree ts) = Ok (map (λ t, vars t ([], [])) ts).
Proof.
  induction 1 as [|t ts Ht _ IH]; [done|]. cbn. rewrite getTreeVariables_tree by done. cbn [mbind res_bind]. by rewrite IH.
Qed.
