(* ===== verification/QuerySpec.v ===== *)
(** * The language of queries: what is read, and what it evaluates to

    The grammar of the queries is given by inductive predicates on texts; the parser is proved to read every
    text of the grammar, and the whole way from the text to the result of the evaluation to be right. *)

From S2P Require Import Prelude CType Memory Search Tokenizer Query QueryFacts.

(** ** The grammar *)

(** A word begins with neither a quotation mark nor a parenthesis nor [NOT]; a text in quotes keeps them. *)
Definition plain_word (w : list Z) : Prop :=
  match w with
  | c :: _ => c ≠ 34 ∧ Forall (λ c, ends_name c = false) w ∧ take 3 w ≠ s_not
  | [] => False
  end.

Definition quoted_word (w : list Z) : Prop := ∃ q, w = [34] ++ q ++ [34] ∧ Forall (λ c, c ≠ 34) q.

Definition word_ok (w : list Z) : Prop := plain_word w ∨ quoted_word w.

(** [NOT]s with blanks before them. *)
Definition nots_text (nots : list (list Z)) : list Z := concat (map (λ bl, bl ++ s_not) nots).

Definition negated (nots : list (list Z)) (a : expr) : expr := if Nat.even (length nots) then a else Not a.

Inductive atom_g : list Z → expr → Prop :=
  | g_word bl w : spaces bl → word_ok w → atom_g (bl ++ w) (Lit (Word_ 0 w))
  | g_group bl s bl' e : spaces bl → expr_g s e → spaces bl' → atom_g (bl ++ s_p1 ++ s ++ bl' ++ s_p2) e
with factor_g : list Z → expr → Prop :=
  | g_factor nots s a : Forall spaces nots → atom_g s a → factor_g (nots_text nots ++ s) (negated nots a)
with term_g : list Z → expr → Prop :=
  | g_one s e : factor_g s e → term_g s e
  | g_and s bl s' a b : factor_g s a → spaces bl → bl ≠ [] → term_g s' b → term_g (s ++ bl ++ s_and ++ s') (And a b)
with expr_g : list Z → expr → Prop :=
  | g_term s e : term_g s e → expr_g s e
  | g_or s bl s' a b : term_g s a → spaces bl → bl ≠ [] → expr_g s' b → expr_g (s ++ bl ++ s_or ++ s') (Or a b).

Scheme atom_gind := Minimality for atom_g Sort Prop
  with factor_gind := Minimality for factor_g Sort Prop
  with term_gind := Minimality for term_g Sort Prop
  with expr_gind := Minimality for expr_g Sort Prop.
Combined Scheme grammar_ind from atom_gind, factor_gind, term_gind, expr_gind.

(** The texts of the words, without the addresses. *)
Fixpoint strip (e : expr) : expr :=
  match e with
  | Lit w => Lit (Word_ 0 (text w))
  | Not e => Not (strip e)
  | And a b => And (strip a) (strip b)
  | Or a b => Or (strip a) (strip b)
  end.

Lemma eval_strip f e : eval f (strip e) = eval f e.
Proof. induction e as [w|e IH|a IHa b IHb|a IHa b IHb]; cbn; congruence. Qed.

(** ** Looking for a keyword *)

Fixpoint lead (t : list Z) : list Z :=
  match t with c :: t' => if u__isspace c then c :: lead t' else [] | [] => [] end.
Fixpoint trim (t : list Z) : list Z :=
  match t with c :: t' => if u__isspace c then trim t' else t | [] => [] end.

Lemma lead_trim t : t = lead t ++ trim t.
Proof. induction t as [|c t IH]; cbn; [done|]. destruct (u__isspace c); cbn; congruence. Qed.

Lemma lead_spaces t : spaces (lead t).
Proof. induction t as [|c t IH]; cbn; [constructor|]. destruct (u__isspace c) eqn:E; [by constructor|constructor]. Qed.

Lemma trim_head t : match trim t with [] => True | c :: _ => u__isspace c = false end.
Proof. induction t as [|c t IH]; cbn; [done|]. by destruct (u__isspace c) eqn:E. Qed.

Lemma trim_app bl t : spaces bl → match t with [] => True | c :: _ => u__isspace c = false end →
  trim (bl ++ t) = t ∧ lead (bl ++ t) = bl.
Proof.
  intros Hbl Ht. induction Hbl as [|c bl Hc _ [IH1 IH2]]; cbn.
  - destruct t as [|c t]; [done|]. cbn. by rewrite Ht.
  - rewrite Hc, IH1, IH2. done.
Qed.

Section Keywords.
Context (behind : list Z).

(** The keyword does not come next. *)
Definition ends (kw T : list Z) : Prop := trim T = [] ∨ memequal (trim T ++ behind) kw (length kw) = Ok false.

Lemma tokenSeen_no kw pre T : ends kw T →
  tokenSeen kw (at_text pre T behind) = Ok (at_text (pre ++ lead T) (trim T) behind, false).
Proof.
  intros H. unfold tokenSeen. rewrite (lead_trim T) at 1.
  rewrite skip_blanks_at by (apply lead_spaces || apply trim_head). cbn [mbind res_bind at_text s end_ str].
  destruct (Z.ltb_spec (Z.of_nat (length (pre ++ lead T))) (Z.of_nat (length (pre ++ lead T) + length (trim T)))); [|done].
  destruct H as [H|H]; [rewrite H in *; cbn in *; lia|]. rewrite Nat2Z.id, drop_app_length, H. done.
Qed.

Lemma memequal_same kw tl : memequal (kw ++ tl) kw (length kw) = Ok true.
Proof. induction kw as [|c kw IH]; cbn; [by destruct tl|]. by rewrite Z.eqb_refl. Qed.

Lemma tokenSeen_yes kw pre bl T : spaces bl → match kw with [] => False | c :: _ => u__isspace c = false end →
  tokenSeen kw (at_text pre (bl ++ kw ++ T) behind) = Ok (at_text (pre ++ bl ++ kw) T behind, true).
Proof.
  intros Hbl Hkw. unfold tokenSeen. rewrite skip_blanks_at; [|done|by destruct kw]. cbn [mbind res_bind at_text s end_ str].
  destruct kw as [|c kw]; [done|].
  destruct (Z.ltb_spec (Z.of_nat (length (pre ++ bl))) (Z.of_nat (length (pre ++ bl) + length ((c :: kw) ++ T))));
    [|cbn [app length] in *; lia].
  rewrite Nat2Z.id, drop_app_length, <- (app_assoc (c :: kw)), memequal_same. cbn [mbind res_bind]. unfold set_s, at_text.
  cbn [str end_]. do 2 f_equal. f_equal; memory_solve.
Qed.

(** A keyword against a text that ends with a character that is not in it. *)
Lemma memequal_word kw w c tl : c ∉ kw → memequal (w ++ c :: tl) kw (length kw) = Ok (bool_decide (take (length kw) w = kw)).
Proof.
  revert w. induction kw as [|k kw IH]; intros w Hc; [by destruct w|]. apply not_elem_of_cons in Hc as [Hk Hc].
  destruct w as [|x w]; cbn.
  - by destruct (Z.eqb_spec c k).
  - destruct (Z.eqb_spec x k) as [->|Hne].
    + rewrite IH by done. f_equal. apply bool_decide_ext. split; [by intros ->|by intros [=]].
    + f_equal. symmetry. apply bool_decide_eq_false. by intros [=].
Qed.
End Keywords.

(** ** The parser reads the grammar *)

Section Parsing.
Context (addr : Z → Z) (more : list Z).

(** The text is followed by a NUL. *)
Local Abbreviation behind := (0 :: more).

Definition tail_ok (T : list Z) : Prop := match T with [] => True | c :: _ => ends_name c = true end.

(** [d] is [e] with the words at places from [lo] to [hi], no two at the same. *)
Definition placed (lo hi : nat) (d e : expr) : Prop :=
  strip d = e ∧ ∃ ps : list nat, map rep (words_of d) = map (λ p, addr (Z.of_nat p)) ps ∧ NoDup ps ∧ Forall (λ p, (lo <= p < hi)%nat) ps.

Lemma placed_wider lo hi lo' hi' d e : (lo' <= lo)%nat → (hi <= hi')%nat → placed lo hi d e → placed lo' hi' d e.
Proof.
  intros H1 H2 [Hs (ps & Hr & Hn & Hp)]. split; [done|]. exists ps. splits; [done|done|].
  eapply Forall_impl; [exact Hp|]. cbn. lia.
Qed.

Lemma placed_both lo mid hi c d a b (k : expr → expr → expr) (Hk : k = And ∨ k = Or) :
  placed lo mid c a → placed mid hi d b → (lo <= mid <= hi)%nat → placed lo hi (k c d) (k a b).
Proof.
  intros [Hc (ps & Hps & Np & Fp)] [Hd (qs & Hqs & Nq & Fq)] Hm. split; [destruct Hk as [-> | ->]; cbn; congruence|].
  exists (ps ++ qs). splits.
  - replace (words_of (k c d)) with (words_of c ++ words_of d) by (by destruct Hk as [-> | ->]). by rewrite !map_app, Hps, Hqs.
  - apply NoDup_app. splits; [done| |done]. intros p Hp Hq. rewrite Forall_forall in Fp, Fq.
    specialize (Fp p Hp). specialize (Fq p Hq). lia.
  - apply Forall_app. split; (eapply Forall_impl; [eassumption|]); cbn; lia.
Qed.

Lemma placed_negated lo hi d a nots : placed lo hi d a → placed lo hi (if Nat.even (length nots) then d else Not d) (@negated nots a).
Proof. unfold negated. destruct (Nat.even _); [done|]. intros [Hs Hp]. split; [cbn; congruence|done]. Qed.

Definition reads (parse : tok → res (tok * qnode)) (pre s : list Z) (e : expr) (start after : tok) : Prop :=
  ∃ d, parse start = Ok (after, tree d) ∧ placed (length pre) (length pre + length s) d e.

Definition P_atom (s : list Z) (e : expr) : Prop :=
  (∀ T, tail_ok T → trim (s ++ T) = trim s ++ T ∧ lead (s ++ T) = lead s ∧ ends behind s_not (s ++ T)) ∧
  ∀ pre T n, tail_ok T → Z.of_nat (length s) < 2 ^ 32 → (4 * length s + 1 <= n)%nat →
    reads (parseAtom addr n) pre s e (at_text (pre ++ lead s) (trim s ++ T) behind) (at_text (pre ++ s) T behind).

Definition P_factor (s : list Z) (e : expr) : Prop :=
  ∀ pre T n, tail_ok T → Z.of_nat (length s) < 2 ^ 32 → (4 * length s + 2 <= n)%nat →
    reads (parseFactor addr n) pre s e (at_text pre (s ++ T) behind) (at_text (pre ++ s) T behind).

Definition P_term (s : list Z) (e : expr) : Prop :=
  ∀ pre T n, tail_ok T → ends behind s_and T → Z.of_nat (length s) < 2 ^ 32 → (4 * length s + 3 <= n)%nat →
    reads (parseTerm addr n) pre s e (at_text pre (s ++ T) behind) (at_text (pre ++ s ++ lead T) (trim T) behind).

Definition P_expr (s : list Z) (e : expr) : Prop :=
  ∀ pre T n, tail_ok T → ends behind s_and T → ends behind s_or T → Z.of_nat (length s) < 2 ^ 32 → (4 * length s + 4 <= n)%nat →
    reads (parseExpr addr n) pre s e (at_text pre (s ++ T) behind) (at_text (pre ++ s ++ lead T) (trim T) behind).

(** A blank, a parenthesis or the NUL behind a word is in none of the keywords. *)
Lemma not_in_keyword c : (c = 0 ∨ ends_name c = true) → (c ∉ s_not) ∧ (c ∉ s_and) ∧ (c ∉ s_or).
Proof.
  assert (H : ∀ kw, Forall (λ k, k ≠ 0 ∧ ends_name k = false) kw → (c = 0 ∨ ends_name c = true) → c ∉ kw).
  { intros kw Hkw Hc Hin. rewrite Forall_forall in Hkw. specialize (Hkw c Hin). destruct Hkw, Hc; congruence. }
  intros Hc. splits; (apply H; [by repeat constructor|done]).
Qed.

Lemma tail_mem T : tail_ok T → ∃ c tl, T ++ behind = c :: tl ∧ (c = 0 ∨ ends_name c = true).
Proof. destruct T as [|c T]; intros H; [exists 0, more; auto|exists c, (T ++ behind); auto]. Qed.

Lemma ends_word w T : tail_ok T → w ≠ [] → match w with c :: _ => u__isspace c = false | [] => True end →
  take 3 w ≠ s_not → ends behind s_not (w ++ T).
Proof.
  intros HT Hw Hc Hn. right. destruct w as [|c w]; [done|].
  destruct (trim_app [] ((c :: w) ++ T)) as [E _]; [constructor|done|]. rewrite app_nil_l in E. rewrite E, <- app_assoc.
  destruct (tail_mem T HT) as (x & tl & -> & Hx). rewrite memequal_word by by apply not_in_keyword.
  by rewrite bool_decide_eq_false_2.
Qed.

(** Words. *)
Lemma word_head w : word_ok w → match w with c :: _ => u__isspace c = false ∧ c ≠ 40 | [] => False end.
Proof.
  intros [H|(q & -> & _)]; [|done]. destruct w as [|c w]; [done|]. destruct H as (_ & H & _).
  apply Forall_cons in H as [H _]. unfold ends_name in H. apply orb_false_iff in H as [H H41]. apply orb_false_iff in H as [H H40].
  split; [done|]. by apply Z.eqb_neq in H40.
Qed.

Lemma word_not w : word_ok w → take 3 w ≠ s_not.
Proof. intros [H|(q & -> & _)]; [by destruct w as [|c w]; [|apply H]|by destruct q]. Qed.

(** The first character, whatever it is. *)
Lemma get_first pre c rest : u__isspace c = false →
  getTokenQueryParser (at_text pre (c :: rest) behind)
  = (t ← (if c =? 34 then
            e ← to_quote (str (at_text (pre ++ [c]) rest behind)) (Z.of_nat (length (pre ++ [c]))) (length rest);
            Ok (set_s e (at_text (pre ++ [c]) rest behind))
          else skip (λ c, negb (ends_name c)) (at_text (pre ++ [c]) rest behind));
     token ← substr t (Z.of_nat (length pre)) (s t);
     Ok (t, token)).
Proof.
  intros Hc. unfold getTokenQueryParser. pose proof (skip_blanks_at pre [] (c :: rest) behind) as Hs.
  rewrite app_nil_l, app_nil_r in Hs. rewrite Hs by (done || constructor). cbn [mbind res_bind].
  assert (Hnext : set_s (s (at_text pre (c :: rest) behind) + 1) (at_text pre (c :: rest) behind) = at_text (pre ++ [c]) rest behind)
    by (unfold set_s, at_text; cbn [str s end_]; f_equal; memory_solve).
  rewrite Hnext. cbn [at_text s str]. rewrite <- app_assoc. cbn [app]. rewrite rd_nth_app. cbn [mbind res_bind end_].
  by replace (Z.to_nat (Z.of_nat (length (pre ++ [c]) + length rest) - _)) with (length rest) by lia.
Qed.

Lemma get_plain pre w T : plain_word w → Z.of_nat (length w) < 2 ^ 32 → tail_ok T →
  getTokenQueryParser (at_text pre (w ++ T) behind) = Ok (at_text (pre ++ w) T behind, w).
Proof.
  intros Hw Hl HT. pose proof (word_head w (or_introl Hw)) as Hh. destruct w as [|c w]; [done|].
  destruct Hw as (Hq & Hn & _). apply Forall_cons in Hn as [Hc Hn]. cbn [app]. rewrite get_first by apply Hh.
  rewrite (proj2 (Z.eqb_neq c 34)) by done.
  rewrite (skip_run _ _ (pre ++ [c]) w T behind); [|memory_solve..| |].
  2:{ eapply Forall_impl; [exact Hn|]. intros x Hx. simpl. by rewrite Hx. }
  2:{ destruct T as [|x T]; [done|]. cbn in HT. by rewrite HT. }
  cbn [mbind res_bind set_s s].
  replace (Z.of_nat (length (pre ++ [c]) + length w)) with (Z.of_nat (length pre + length (c :: w))) by memory_solve.
  rewrite (substr_at _ pre (c :: w) (T ++ behind)); [|memory_solve|done]. cbn [mbind res_bind]. unfold set_s, at_text.
  cbn [str end_]. do 2 f_equal. f_equal; memory_solve.
Qed.

Lemma to_quote_run m pre q post n : Forall (λ c, c ≠ 34) q → m = pre ++ q ++ 34 :: post → (length q < n)%nat →
  to_quote m (Z.of_nat (length pre)) n = Ok (Z.of_nat (length pre + length q + 1)).
Proof.
  intros Hq. revert pre n. induction Hq as [|c q Hc _ IH]; intros pre n -> Hn; (destruct n as [|n]; [cbn in Hn; lia|]); cbn [to_quote app].
  - rewrite rd_nth_app. cbn [mbind res_bind]. cbn. f_equal. lia.
  - rewrite rd_nth_app. cbn [mbind res_bind]. rewrite (proj2 (Z.eqb_neq c 34)) by done.
    replace (Z.of_nat (length pre) + 1) with (Z.of_nat (length (pre ++ [c]))) by memory_solve.
    rewrite (IH (pre ++ [c])); [f_equal; memory_solve|memory_solve|cbn in Hn; lia].
Qed.

Lemma get_quoted pre w T : quoted_word w → Z.of_nat (length w) < 2 ^ 32 →
  getTokenQueryParser (at_text pre (w ++ T) behind) = Ok (at_text (pre ++ w) T behind, w).
Proof.
  intros (q & -> & Hq) Hl. cbn [app]. rewrite get_first by done. cbn [Z.eqb Pos.eqb].
  rewrite (to_quote_run _ (pre ++ [34]) q (T ++ behind)); [|done|cbn [at_text str]; memory_solve|rewrite !length_app; cbn; lia].
  cbn [mbind res_bind set_s s].
  replace (Z.of_nat (length (pre ++ [34]) + length q + 1)) with (Z.of_nat (length pre + length ([34] ++ q ++ [34]))) by memory_solve.
  rewrite (substr_at _ pre ([34] ++ q ++ [34]) (T ++ behind)); [|cbn [at_text str]; memory_solve|done]. cbn [mbind res_bind]. unfold set_s, at_text.
  cbn [str end_]. do 2 f_equal. f_equal; memory_solve.
Qed.
Lemma get_word pre w T : word_ok w → Z.of_nat (length w) < 2 ^ 32 → tail_ok T →
  getTokenQueryParser (at_text pre (w ++ T) behind) = Ok (at_text (pre ++ w) T behind, w).
Proof. intros [H|H] Hl HT; [by apply get_plain|by apply get_quoted]. Qed.

Lemma placed_lit p hi w lo : (lo <= p < hi)%nat → placed lo hi (Lit (Word_ (addr (Z.of_nat p)) w)) (Lit (Word_ 0 w)).
Proof.
  intros Hp. split; [done|]. exists [p]. splits; [done|apply NoDup_singleton|by apply Forall_singleton].
Qed.

(** What stands after a keyword or before one. *)
Lemma ends_other kw bl c T : spaces bl → u__isspace c = false → match kw with k :: _ => k ≠ c | [] => False end →
  ends behind kw (bl ++ c :: T).
Proof.
  intros Hbl Hc Hk. right. destruct (trim_app bl (c :: T)) as [-> _]; [done|done|]. destruct kw as [|k kw]; [done|]. cbn.
  by destruct (Z.eqb_spec c k).
Qed.

Lemma lead_head t : match t with c :: _ => u__isspace c = false | [] => True end → lead t = [] ∧ trim t = t.
Proof. destruct t as [|c t]; cbn; [done|]. by intros ->. Qed.

Lemma read_atom_word bl w : spaces bl → word_ok w → P_atom (bl ++ w) (Lit (Word_ 0 w)).
Proof.
  intros Hbl Hw. pose proof (word_head w Hw) as Hh. destruct w as [|c w'] eqn:Ew; [done|]. rewrite <- Ew in *. destruct Hh as [Hh H40].
  assert (Hs : ∀ T, trim (bl ++ w ++ T) = w ++ T ∧ lead (bl ++ w ++ T) = bl) by (intros T; apply trim_app; [done|by subst]).
  destruct (Hs []) as [Ht0 Hl0]. rewrite app_nil_r in Ht0, Hl0.
  split.
  - intros T HT. rewrite <- app_assoc, Ht0, Hl0. destruct (Hs T) as [-> ->]. splits; [done|done|].
    pose proof (ends_word w T HT) as [H|H]; [by subst|by subst|by apply word_not| |]; (unfold ends; destruct (Hs T) as [-> _]).
    + left. by destruct (lead_head (w ++ T)) as [_ Hx]; [by subst|rewrite Hx in H].
    + right. by destruct (lead_head (w ++ T)) as [_ Hx]; [by subst|rewrite Hx in H].
  - intros pre T n HT Hl Hn. destruct n as [|n]; [lia|]. rewrite Ht0, Hl0. cbn [parseAtom]. eexists. split.
    + destruct (lead_head (w ++ T)) as [Hlead Htrim]; [by subst|].
      rewrite tokenSeen_no by (subst w; apply (ends_other _ []); [constructor|done|by apply not_eq_sym]).
      rewrite Hlead, Htrim, app_nil_r. cbn [mbind res_bind fst snd].
      pose proof (skip_blanks_at (pre ++ bl) [] (w ++ T) behind) as Hsk. rewrite app_nil_l, app_nil_r in Hsk.
      rewrite Hsk by first [constructor | by subst]. cbn [mbind res_bind].
      rewrite get_word; [|done|rewrite length_app in Hl; lia|done]. cbn [mbind res_bind fst snd].
      rewrite app_assoc. change (new_value ?x) with (tree (Lit x)). reflexivity.
    + cbn [at_text s]. apply placed_lit. subst w. rewrite !length_app. cbn [length]. lia.
Qed.

Lemma read_atom_group bl x bl' e : spaces bl → P_expr x e → spaces bl' → P_atom (bl ++ s_p1 ++ x ++ bl' ++ s_p2) e.
Proof.
  intros Hbl IH Hbl'. assert (Hs : ∀ T, trim (bl ++ s_p1 ++ T) = s_p1 ++ T ∧ lead (bl ++ s_p1 ++ T) = bl)
    by (intros T; by apply trim_app).
  destruct (Hs (x ++ bl' ++ s_p2)) as [Ht0 Hl0]. split.
  - intros T HT. rewrite Ht0, Hl0, <- app_assoc. rewrite <- (app_assoc s_p1). destruct (Hs ((x ++ bl' ++ s_p2) ++ T)) as [-> ->].
    splits; [done|done|]. by apply ends_other.
  - intros pre T n HT Hl Hn. destruct n as [|n]; [lia|]. rewrite Ht0, Hl0. cbn [parseAtom].
    rewrite !length_app in Hl, Hn. cbn [length s_p1 s_p2] in Hl, Hn.
    pose proof (tokenSeen_yes behind s_p1 (pre ++ bl) [] (x ++ bl' ++ s_p2 ++ T)) as Ho.
    rewrite !app_nil_l in Ho. unfold reads. rewrite <- (app_assoc s_p1), <- (app_assoc x), <- (app_assoc bl').
    rewrite Ho by (done || constructor). cbn [mbind res_bind fst snd]. rewrite <- (app_assoc pre).
    destruct (IH (pre ++ bl ++ s_p1) (bl' ++ s_p2 ++ T) n) as (d & Hd & Hp).
    + destruct Hbl' as [|c bl' Hc _]; [done|]. unfold tail_ok, ends_name. cbn. by rewrite Hc.
    + by apply ends_other.
    + by apply ends_other.
    + lia.
    + cbn [length s_p1 s_p2] in *. change (length (BS "(")) with 1%nat in *. change (length (BS ")")) with 1%nat in *. lia.
    + exists d. split.
      * rewrite Hd. cbn [mbind res_bind fst snd]. destruct (trim_app bl' (s_p2 ++ T)) as [-> ->]; [done|done|].
        pose proof (tokenSeen_yes behind s_p2 ((pre ++ bl ++ s_p1) ++ x ++ bl') [] T) as Hc. rewrite !app_nil_l in Hc.
        rewrite Hc by (done || constructor). cbn [mbind res_bind fst snd]. by rewrite <- !app_assoc.
      * eapply placed_wider; [| |exact Hp]; rewrite !length_app; lia.
Qed.
Lemma nots_read nots : ∀ n pre v S, Forall spaces nots → ends behind s_not S → (length nots < n)%nat →
  iterate n not_step (at_text pre (nots_text nots ++ S) behind, v)
  = Ok (at_text (pre ++ nots_text nots ++ lead S) (trim S) behind, xorb v (Nat.odd (length nots))).
Proof.
  induction nots as [|bl nots IH]; intros n pre v S Hn HS Hl; (destruct n as [|n]; [cbn in Hl; lia|]); cbn [iterate];
    unfold not_step at 1; cbn [fst snd].
  - cbn [nots_text concat map app]. rewrite tokenSeen_no by done. cbn [mbind res_bind fst snd]. by destruct v.
  - apply Forall_cons in Hn as [Hbl Hn]. unfold nots_text at 1. cbn [map concat]. fold (nots_text nots).
    rewrite <- !app_assoc, tokenSeen_yes by done. cbn [mbind res_bind fst snd]. rewrite IH; [|done|done|cbn in Hl; lia].
    do 2 f_equal.
    + unfold nots_text. cbn [map concat]. by rewrite <- !app_assoc.
    + cbn [length]. rewrite Nat.odd_succ, <- Nat.negb_odd. by destruct v, (Nat.odd (length nots)).
Qed.

Lemma read_factor nots x a : Forall spaces nots → P_atom x a → P_factor (nots_text nots ++ x) (negated nots a).
Proof.
  intros Hn [Hx IH] pre T n HT Hl Hf. destruct n as [|n]; [lia|]. cbn [parseFactor]. destruct (Hx T HT) as (Ht & Hld & He).
  rewrite length_app in Hl, Hf. unfold reads. rewrite <- (app_assoc (nots_text nots)).
  assert (Hlen : (length nots <= length (nots_text nots))%nat).
  { clear. induction nots as [|bl nots IH]; [done|]. unfold nots_text in *. cbn [map concat length]. rewrite !length_app.
    change (length s_not) with 3%nat. lia. }
  rewrite nots_read; [|done|done|].
  2:{ cbn [at_text str]. rewrite !length_app. lia. }
  cbn [mbind res_bind fst snd]. rewrite Ht, Hld.
  destruct (IH (pre ++ nots_text nots) T n) as (d & Hd & Hp); [done|lia|lia|]. rewrite <- !app_assoc in Hd. rewrite Hd.
  cbn [mbind res_bind fst snd]. exists (if Nat.even (length nots) then d else Not d). split.
  - rewrite xorb_true_l, Nat.negb_odd. by destruct (Nat.even (length nots)).
  - apply placed_negated. eapply placed_wider; [| |exact Hp]; rewrite !length_app; lia.
Qed.

(** A factor or a term, the keyword and what follows it: both binary operators. *)
Lemma spaces_tail bl T : spaces bl → bl ≠ [] → tail_ok (bl ++ T).
Proof. intros H Hne. destruct H as [|c bl Hc _]; [done|]. unfold tail_ok, ends_name. cbn. by rewrite Hc. Qed.

Lemma read_term_one x e : P_factor x e → P_term x e.
Proof.
  intros IH pre T n HT Ha Hl Hn. destruct n as [|n]; [lia|]. cbn [parseTerm].
  destruct (IH pre T n) as (d & Hd & Hp); [done|done|lia|]. unfold reads. rewrite Hd. cbn [mbind res_bind fst snd].
  rewrite tokenSeen_no by done. cbn [mbind res_bind fst snd]. rewrite <- app_assoc. by exists d.
Qed.

Lemma read_expr_one x e : P_term x e → P_expr x e.
Proof.
  intros IH pre T n HT Ha Ho Hl Hn. destruct n as [|n]; [lia|]. cbn [parseExpr].
  destruct (IH pre T n) as (d & Hd & Hp); [done|done|done|lia|]. unfold reads. rewrite Hd. cbn [mbind res_bind fst snd].
  pose proof (lead_head (trim T)) as [Hlt Htt]; [apply trim_head|].
  rewrite tokenSeen_no by (unfold ends in *; by rewrite Htt). cbn [mbind res_bind fst snd]. rewrite Hlt, Htt, app_nil_r. by exists d.
Qed.

Lemma read_term_and x bl y a b : P_factor x a → spaces bl → bl ≠ [] → P_term y b → P_term (x ++ bl ++ s_and ++ y) (And a b).
Proof.
  intros IHx Hbl Hne IHy pre T n HT Ha Hl Hn. destruct n as [|n]; [lia|]. cbn [parseTerm].
  rewrite !length_app in Hl, Hn. change (length s_and) with 3%nat in Hl, Hn. unfold reads. rewrite <- !app_assoc.
  destruct (IHx pre (bl ++ s_and ++ y ++ T) n) as (c & Hc & Hpc); [by apply spaces_tail|lia|lia|].
  rewrite Hc. cbn [mbind res_bind fst snd]. rewrite tokenSeen_yes by done. cbn [mbind res_bind fst snd].
  destruct (IHy ((pre ++ x) ++ bl ++ s_and) T n) as (d & Hd & Hpd); [done|done|lia|lia|].
  rewrite Hd. cbn [mbind res_bind fst snd]. exists (And c d). split; [by rewrite <- !app_assoc|].
  rewrite !length_app in Hpd |- *. eapply (placed_both _ (length pre + length x)); [by left|exact Hpc| |]; [|change (length s_and) with 3%nat; lia].
  eapply placed_wider; [| |exact Hpd]; lia.
Qed.

Lemma read_expr_or x bl y a b : P_term x a → spaces bl → bl ≠ [] → P_expr y b → P_expr (x ++ bl ++ s_or ++ y) (Or a b).
Proof.
  intros IHx Hbl Hne IHy pre T n HT Ha Ho Hl Hn. destruct n as [|n]; [lia|]. cbn [parseExpr].
  rewrite !length_app in Hl, Hn. change (length s_or) with 2%nat in Hl, Hn. unfold reads. rewrite <- !app_assoc.
  destruct (IHx pre (bl ++ s_or ++ y ++ T) n) as (c & Hc & Hpc); [by apply spaces_tail|by apply ends_other|lia|lia|].
  rewrite Hc. cbn [mbind res_bind fst snd]. destruct (trim_app bl (s_or ++ y ++ T)) as [-> ->]; [done|done|].
  pose proof (tokenSeen_yes behind s_or (pre ++ x ++ bl) [] (y ++ T)) as Hor. rewrite !app_nil_l in Hor.
  rewrite Hor by (done || constructor). cbn [mbind res_bind fst snd].
  destruct (IHy ((pre ++ x ++ bl) ++ s_or) T n) as (d & Hd & Hpd); [done|done|done|lia|lia|].
  rewrite Hd. cbn [mbind res_bind fst snd]. exists (Or c d). split; [by rewrite <- !app_assoc|].
  rewrite !length_app in Hpd |- *. eapply (placed_both _ (length pre + length x)); [by right|exact Hpc| |]; [|change (length s_or) with 2%nat; lia].
  eapply placed_wider; [| |exact Hpd]; lia.
Qed.

Lemma grammar_read :
  (∀ x e, atom_g x e → P_atom x e) ∧ (∀ x e, factor_g x e → P_factor x e) ∧
  (∀ x e, term_g x e → P_term x e) ∧ (∀ x e, expr_g x e → P_expr x e).
Proof.
  apply grammar_ind; eauto using read_atom_word, read_atom_group, read_factor, read_term_one, read_term_and, read_expr_one, read_expr_or.
Qed.

(** More fuel changes nothing. *)
Lemma parser_more n : ∀ m, (n <= m)%nat →
  (∀ t r, parseExpr addr n t = Ok r → parseExpr addr m t = Ok r) ∧ (∀ t r, parseTerm addr n t = Ok r → parseTerm addr m t = Ok r) ∧
  (∀ t r, parseFactor addr n t = Ok r → parseFactor addr m t = Ok r) ∧ (∀ t r, parseAtom addr n t = Ok r → parseAtom addr m t = Ok r).
Proof.
  induction n as [|n IH]; intros m Hm; [by splits|]. destruct m as [|m]; [lia|].
  destruct (IH m) as (He & Ht & Hf & Ha); [lia|]. splits; intros t r; cbn [parseExpr parseTerm parseFactor parseAtom].
  - destruct (parseTerm addr n t) as [l|] eqn:El; [|done]. rewrite (Ht _ _ El). cbn [mbind res_bind].
    destruct (tokenSeen s_or l.1) as [[o []]|]; cbn [mbind res_bind fst snd]; try done.
    destruct (parseExpr addr n o) as [x|] eqn:Ex; [|done]. by rewrite (He _ _ Ex).
  - destruct (parseFactor addr n t) as [l|] eqn:El; [|done]. rewrite (Hf _ _ El). cbn [mbind res_bind].
    destruct (tokenSeen s_and l.1) as [[o []]|]; cbn [mbind res_bind fst snd]; try done.
    destruct (parseTerm addr n o) as [x|] eqn:Ex; [|done]. by rewrite (Ht _ _ Ex).
  - destruct (iterate (S (length (str t))) not_step (t, true)) as [k|]; cbn [mbind res_bind]; [|done].
    destruct (parseAtom addr n k.1) as [l|] eqn:El; [|done]. by rewrite (Ha _ _ El).
  - destruct (tokenSeen s_p1 t) as [[o []]|]; cbn [mbind res_bind fst snd]; try done.
    destruct (parseExpr addr n o) as [x|] eqn:Ex; [|done]. by rewrite (He _ _ Ex).
Qed.

(** A query, with blanks behind it. *)
Lemma parse_grammar x e bl : expr_g x e → spaces bl → Z.of_nat (length x) < 2 ^ 32 →
  ∃ d, placed 0 (length x) d e ∧
    ∀ n, (4 * length x + 4 <= n)%nat → parse addr n (x ++ bl) behind = getDisjunctiveNormalForm n (tree d).
Proof.
  intros Hx Hbl Hl. destruct grammar_read as (_ & _ & _ & H).
  assert (Hb : trim bl = [] ∧ lead bl = bl) by (by pose proof (trim_app bl []) as Ht; rewrite app_nil_r in Ht; apply Ht).
  destruct (H x e Hx [] bl (4 * length x + 4)%nat) as (d & Hd & Hp); [..|exists d; split; [done|]].
  - destruct Hbl as [|c bl Hc _]; [done|]. unfold tail_ok, ends_name. cbn. by rewrite Hc.
  - by left; apply Hb.
  - by left; apply Hb.
  - done.
  - done.
  - intros n Hn. destruct (parser_more _ n Hn) as [He _]. apply He in Hd.
    unfold parse. change (setData (x ++ bl) behind) with (at_text [] (x ++ bl) behind). rewrite Hd. cbn [mbind res_bind fst snd].
    destruct Hb as [-> ->]. unfold atEnd, at_text. cbn [s end_ length]. by rewrite (proj2 (Z.leb_le _ _)) by lia.
Qed.
End Parsing.

(** ** From the text to the result *)

Lemma calm_strip e : calm (strip e) = calm e.
Proof.
  assert (Hl : ∀ a, is_lit (strip a) = is_lit a) by (by intros []).
  assert (Hc : ∀ a, collapses (strip a) = collapses a ∧ collapses (strip (Not a)) = collapses (Not a)).
  { induction a as [w|a [IH1 IH2]|a _ b _|a _ b _]; try done. }
  induction e as [w|e IH|a IHa b IHb|a IHa b IHb]; cbn; [done|by rewrite IH, Hl, (proj1 (Hc e))|by rewrite IHa, IHb..].
Qed.

Lemma words_strip e : map text (words_of (strip e)) = map text (words_of e).
Proof. induction e as [w|e IH|a IHa b IHb|a IHa b IHb]; cbn; rewrite ?map_app; congruence. Qed.

Lemma addresses_ok_subset A B : B ⊆ A → addresses_ok A → addresses_ok B.
Proof.
  intros HB [H1 H2]. rewrite Forall_forall in H1, H2. split; apply Forall_forall; intros x Hx; [auto|].
  specialize (H2 x (HB x Hx)). rewrite Forall_forall in H2. apply Forall_forall. intros p1 Hp1.
  specialize (H2 p1 (HB p1 Hp1)). rewrite Forall_forall in H2. apply Forall_forall. auto.
Qed.

(** The tree that [parse] keeps. *)
Definition kept (q : qnode) (d : option expr) (e : expr) : Prop :=
  q = tree_of d ∧
  match d with
  | Some d => is_dnf d = true ∧ (∀ f, eval f d = eval f e) ∧ Forall (λ t, is_conj t = true ∧ useful t = true) (terms d) ∧
      words_of d ⊆ words_of e
  | None => ∀ f, eval f e = false
  end.

(** The evaluation of a normal form over words at addresses of their own. *)
Lemma evaluate_tree d (W : list word) : is_dnf d = true → words_of d ⊆ W → NoDup (map rep W) →
  addresses_ok (map rep W) → 9 * Z.of_nat (length W) <= buffer_size →
  ∃ vs, startEvaluate (tree d) = Ok vs ∧
    ∀ f, ∃ ws, evaluate f vs = Ok (eval f d, ws) ∧ NoDup ws ∧ ws ⊆ W.
Proof.
  intros Hd Hw HW HA Hroom. pose proof (terms_conj d Hd) as Hc. unfold startEvaluate. rewrite getDNFTermRoots_tree.
  cbn [mbind res_bind app]. eexists. split; [by apply all_variables_tree|]. intros f.
  destruct (evaluate_terms_ok f (map rep W) W HA) with (ts := map (λ t, vars t ([], [])) (terms d)) (st := EState [] false [])
    as (st & E & Hst).
  - intros w Hin. apply list_elem_of_fmap. by exists w.
  - intros v w Hv Hin Heq. apply list_elem_of_lookup in Hv as [i Hi]. apply list_elem_of_lookup in Hin as [j Hj].
    assert (Hij : i = j); [|by subst; congruence].
    apply (NoDup_lookup (map rep W) i j (rep v) HW); rewrite list_lookup_fmap; [by rewrite Hi|by rewrite Hj, Heq].
  - by rewrite length_map.
  - split; [done|by intros w Hin%elem_of_nil|apply NoDup_nil_2].
  - intros pn w Hpn Hin. apply list_elem_of_fmap in Hpn as (t & -> & Ht).
    apply vars_words in Hin as [Hin|Hin]; [by apply elem_of_nil in Hin|]. apply Hw, terms_words. by exists t.
  - unfold evaluate. rewrite E. cbn [mbind res_bind fst snd]. exists (calls st). destruct Hst as [_ Hws Ho]. splits.
    + do 2 f_equal. rewrite eval_terms. clear -Hc. induction Hc as [|t ts Ht _ IH]; [done|]. cbn. rewrite IH, vars_holds by done. done.
    + by apply NoDup_fmap_1 in Ho.
    + done.
Qed.

(** ** Properties *)

(** C14: The transformation to disjunctive normal form ends for every tree that does not negate a word more than
    twice in a row. Its result passes the test of the normal form, has the value of the tree for all values of
    the words, keeps no term that never holds and no foreign word; it is the null pointer only when the tree is
    never true. *)
Theorem getDisjunctiveNormalForm_correct e : calm e = true →
  ∃ n q, (∀ m, (n <= m)%nat → getDisjunctiveNormalForm m (tree e) = Ok q) ∧
    ((q = Null ∧ ∀ f, eval f e = false) ∨
     ∃ d, q = tree d ∧ isDisjunctiveNormalForm q = true ∧ (∀ f, eval f d = eval f e) ∧ words_of d ⊆ words_of e ∧
       ∃ ts, getDNFTermRoots q [] = Ok ts ∧ Forall (λ t, isDNFTermUseful t = Ok true) ts).
Proof.
  intros Hc. destruct (getDisjunctiveNormalForm_tree e Hc) as (n & o & Hn & Ho). exists n, (tree_of o). split; [done|].
  destruct o as [d|]; [right|by left]. destruct Ho as (Hd & He & Ht & Hw). exists d. splits; [done|by apply tree_dnf|done|done|].
  exists (map tree (terms d)). split; [apply getDNFTermRoots_tree|]. apply Forall_map. eapply Forall_impl; [exact Ht|].
  intros t [Htc Hu]. cbn. unfold isDNFTermUseful. rewrite getTreeVariables_tree by done. cbn [mbind res_bind]. by fold (useful t); rewrite Hu.
Qed.

Definition lit (x : list Z) : expr := Lit (Word_ 0 x).

(** (a OR NOT b) AND NOT (a AND NOT (NOT c OR d)) *)
Definition some_query : expr :=
  And (Or (lit (BS "a")) (Not (lit (BS "b")))) (Not (And (lit (BS "a")) (Not (Or (Not (lit (BS "c"))) (lit (BS "d")))))).

Lemma getDisjunctiveNormalForm_correct_witness :
  calm some_query = true ∧
  ∃ n q, (∀ m, (n <= m)%nat → getDisjunctiveNormalForm m (tree some_query) = Ok q) ∧
    ((q = Null ∧ ∀ f, eval f some_query = false) ∨
     ∃ d, q = tree d ∧ isDisjunctiveNormalForm q = true ∧ (∀ f, eval f d = eval f some_query) ∧ words_of d ⊆ words_of some_query ∧
       ∃ ts, getDNFTermRoots q [] = Ok ts ∧ Forall (λ t, isDNFTermUseful t = Ok true) ts).
Proof. split; [reflexivity|]. apply (getDisjunctiveNormalForm_correct some_query). reflexivity. Defined.

(** C13: Every text of the grammar of queries is parsed, and evaluating what [parse] keeps gives the value of the
    query as it was written, for any function on words, which is called at most once for every word of the text;
    the kept tree is null only when the query is never true. The strings of the query have addresses of their
    own that are not found across two entries of the table, and the table has room for all of them. *)
Theorem query_correct x e bl more addr :
  expr_g x e → spaces bl → calm e = true → Z.of_nat (length x) < 2 ^ 32 →
  addresses_ok (map (λ p, addr (Z.of_nat p)) (seq 0 (length x))) →
  NoDup (map (λ p, addr (Z.of_nat p)) (seq 0 (length x))) →
  9 * Z.of_nat (length (words_of e)) <= buffer_size →
  ∃ n q, (∀ m, (n <= m)%nat → parse addr m (x ++ bl) (0 :: more) = Ok q) ∧
    ((q = Null ∧ ∀ f, eval f e = false) ∨
     ∃ vs, startEvaluate q = Ok vs ∧
       ∀ f, ∃ ws, evaluate f vs = Ok (eval f e, ws) ∧ NoDup ws ∧ map text ws ⊆ map text (words_of e)).
Proof.
  intros Hx Hbl Hc Hl HA HN Hroom. destruct (parse_grammar addr more x e bl Hx Hbl Hl) as (d & [<- (ps & Hr & Np & Fp)] & Hparse).
  rewrite calm_strip in Hc. destruct (getDisjunctiveNormalForm_tree d Hc) as (n & o & Hn & Ho).
  assert (Hps : map rep (words_of d) ⊆ map (λ p, addr (Z.of_nat p)) (seq 0 (length x))).
  { rewrite Hr. intros a (p & -> & Hp)%list_elem_of_fmap. apply list_elem_of_fmap. exists p. split; [done|].
    rewrite Forall_forall in Fp. specialize (Fp p Hp). apply elem_of_seq. lia. }
  assert (Hnd : NoDup (map rep (words_of d))).
  { rewrite Hr. apply NoDup_fmap_2_strong; [|done]. intros p q Hp Hq Heq. rewrite Forall_forall in Fp.
    pose proof (Fp p Hp). pose proof (Fp q Hq).
    apply (NoDup_lookup _ p q (addr (Z.of_nat p)) HN); rewrite list_lookup_fmap, lookup_seq_lt by lia; cbn; by rewrite ?Heq. }
  exists (n + (4 * length x + 4))%nat, (tree_of o). split; [intros m Hm; rewrite Hparse by lia; apply Hn; lia|].
  destruct o as [d'|]; [right|left; split; [done|]; intros f; by rewrite eval_strip]. destruct Ho as (Hd & He & _ & Hw).
  destruct (evaluate_tree d' (words_of d)) as (vs & Hvs & Hev); [done|done|done|by eapply addresses_ok_subset| |].
  { pose proof (f_equal length (words_strip d)) as E. rewrite !length_map in E. lia. }
  exists vs. split; [done|]. intros f. destruct (Hev f) as (ws & Hf & Hn' & Hin). exists ws. rewrite eval_strip, <- He.
  splits; [done|done|]. rewrite words_strip. intros t (w & -> & Hw')%list_elem_of_fmap. apply list_elem_of_fmap.
  exists w. split; [done|]. by apply Hin.
Qed.

Definition query_text : list Z := BS "a AND (b OR NOT c)".
Definition query_expr : expr := And (lit (BS "a")) (Or (lit (BS "b")) (Not (lit (BS "c")))).
Definition query_addr (p : Z) : Z := 1431633920 + 64 * p.

Lemma one_letter bl c : spaces bl → ends_name c = false → c ≠ 34 → atom_g (bl ++ [c]) (lit [c]).
Proof. intros Hbl Hc Hq. apply g_word; [done|]. left. unfold plain_word. splits; [done|by apply Forall_singleton|done]. Qed.

(** Addresses without the bytes of the results in them are told apart. *)
Lemma addresses_plain A : Forall (λ x, (0 <= x < 2 ^ 64) ∧ (48 ∉ le64 x) ∧ (49 ∉ le64 x)) A → addresses_ok A.
Proof.
  intros H. split; [eapply Forall_impl; [exact H|]; by intros x [? _]|]. eapply Forall_impl; [exact H|]. intros x (_ & H0 & H1).
  apply Forall_forall. intros p1 _. apply Forall_forall. intros p2 _. apply Forall_forall. intros i _. unfold straddles.
  split; intros E; [apply H0|apply H1]; rewrite E; apply elem_of_app; right; by left.
Qed.

Lemma query_in_grammar : expr_g query_text query_expr.
Proof.
  assert (Hs : spaces [32]) by by apply Forall_singleton.
  apply g_term, (g_and (BS "a") [32] (BS " (b OR NOT c)")); [|done|done|].
  - apply (g_factor [] (BS "a")); [constructor|]. apply (one_letter []); [constructor|done|done].
  - apply g_one, (g_factor [] _); [constructor|]. apply (g_group [32] (BS "b OR NOT c") []); [done| |constructor].
    apply (g_or (BS "b") [32] (BS " NOT c")); [|done|done|].
    + apply g_one, (g_factor [] (BS "b")); [constructor|]. apply (one_letter []); [constructor|done|done].
    + apply g_term, g_one, (g_factor [[32]] (BS " c")); [by apply Forall_singleton|]. apply (one_letter [32]); done.
Qed.

Lemma query_correct_witness :
  ∃ n q, (∀ m, (n <= m)%nat → parse query_addr m (query_text ++ [32]) (0 :: []) = Ok q) ∧
    ((q = Null ∧ ∀ f, eval f query_expr = false) ∨
     ∃ vs, startEvaluate q = Ok vs ∧
       ∀ f, ∃ ws, evaluate f vs = Ok (eval f query_expr, ws) ∧ NoDup ws ∧ map text ws ⊆ map text (words_of query_expr)).
Proof.
  apply (query_correct query_text query_expr [32] [] query_addr).
  - exact query_in_grammar.
  - by apply Forall_singleton.
  - reflexivity.
  - cbn. lia.
  - apply addresses_plain, (bool_decide_eq_true_1 _). vm_compute. reflexivity.
  - apply (bool_decide_eq_true_1 _). vm_compute. reflexivity.
  - cbn. unfold buffer_size. lia.
Defined.

(** ** Where the code does something else *)

(** Two negations over a negated word: [getRawDNF] makes the tree of the word and asks a null pointer for its
    type. *)
Lemma not_not_not : parse query_addr 100 (BS "NOT (NOT (NOT a))") [0] = Fail OutOfBounds.
Proof. vm_compute. done. Qed.

(** A keyword is read at the start of a longer word too. *)
Lemma keyword_prefix :
  parse query_addr 100 (BS "NOTE AND b") [0] = parse (λ p, query_addr (p - 1)) 100 (BS "NOT E AND b") [0] ∧
  parse query_addr 100 (BS "a ORB") [0] = parse (λ p, query_addr (if p =? 5 then 4 else p)) 100 (BS "a OR B") [0].
Proof. split; vm_compute; done. Qed.

(** A query that ends too early is no error: the NUL behind the text becomes a word. *)
Lemma missing_operand : parse query_addr 100 (BS "a AND") [0] = Ok (tree (And (Lit (Word_ (query_addr 0) (BS "a"))) (Lit (Word_ (query_addr 5) [0])))).
Proof. vm_compute. done. Qed.

(** [parse] accepts a query that is never true and keeps no tree; [startEvaluate] follows it all the same. *)
Lemma never_true :
  parse query_addr 100 (BS "a AND NOT a") [0] = Ok Null ∧ startEvaluate Null = Fail OutOfBounds.
Proof. vm_compute. done. Qed.

(** The table of results holds 455 words; the next result is written behind the end of [u_buffer]. *)
Lemma evaluate_overflow :
  let full := entries (map (λ p, (query_addr (Z.of_nat p), true)) (seq 0 455)) in
  evaluate_word (λ _, true) (Word_ (query_addr 455) (BS "z")) true (EState full true []) = Fail OutOfBounds ∧ length full = 4095%nat.
Proof. split; vm_compute; reflexivity. Qed.
