(* ===== verification/UString.v ===== *)
(** * Strings that grow ([UString], [src/ulib/string.cpp], [include/ulib/string.h]) and the escape coder on them
    ([UEscape], [include/ulib/utility/escape.h])

    A string that no other one shares: its bytes and its capacity, which is the memory it has but for the NUL.
    The model is that of the build with the memory pool on a 64 bit machine; a failed allocation is not
    modelled. *)

From S2P Require Import Prelude CType Escape.

(** The size of a [UStringRep], and of the largest string in a block of the pool. *)
Definition sizeof_UStringRep : Z := 24.
Definition PAGESIZE : Z := 4096.
Definition U_CAPACITY : Z := 4096 - (1 + sizeof_UStringRep).

Record ustring := UStr { ubytes : list Z; ucapacity : Z }.

Definition usize (b : ustring) : Z := Z.of_nat (length (ubytes b)).

(** [UFile::mmap] for memory without a file: whole pages. *)
Definition mmap_length (n : Z) : Z := (n + (PAGESIZE - 1)) / PAGESIZE * PAGESIZE.

(** The capacity [UStringRep::create] gives: the rest of a block of the pool, or of the pages. *)
Definition create (capacity : Z) : Z :=
  if capacity <=? U_CAPACITY then
    let sz := capacity + (1 + sizeof_UStringRep) in
    match find (Z.leb sz) [128; 256; 512; 1024; 2048; 4096] with
    | Some block => block - (1 + sizeof_UStringRep)
    | None => U_CAPACITY
    end
  else mmap_length capacity.

Definition U_HOW_MUCH_PREALLOCATE (sz1 sz2 sz3 : Z) : Z :=
  if sz1 <=? U_CAPACITY then sz2 else if sz3 <=? sz1 then sz1 else u32 (sz1 * 2 + 3 * PAGESIZE).

(** [UString(n)]. *)
Definition new_string (n : Z) : ustring := UStr [] (create (U_HOW_MUCH_PREALLOCATE n n n)).

Definition space (b : ustring) : Z := if 0 <? i32 (ucapacity b) then u32 (ucapacity b - usize b) else 0.

Definition grow (n : Z) : Z := create (U_HOW_MUCH_PREALLOCATE n U_CAPACITY (2 * 1024 * 1024)).

(** [n] is the [uint32_t] the callers add up. *)
Definition reserve (n : Z) (b : ustring) : ustring :=
  if n <=? ucapacity b then b else UStr (ubytes b) (grow n).

Definition append (bs : list Z) (b : ustring) : ustring :=
  match bs with
  | [] => b
  | _ =>
      let sz1 := u32 (usize b + Z.of_nat (length bs)) in
      UStr (ubytes b ++ bs) (if ucapacity b <? sz1 then grow sz1 else ucapacity b)
  end.

(** [UEscape::encode]: the text goes behind the string; writing behind its memory is a fault. *)
Definition encode (s : list Z) (buffer : ustring) (json : bool) : res ustring :=
  text ← u_escape_encode (s ++ [0]) (length s) (space buffer) json;
  if ucapacity buffer <? usize buffer + Z.of_nat (length text) then Fail OutOfBounds
  else Ok (UStr (ubytes buffer ++ text) (ucapacity buffer)).

(** [UEscape::decode] into an empty string. *)
Definition decode (m : list Z) (n : nat) (buffer : ustring) : res (ustring * bool) :=
  text ← u_escape_decode m n;
  if ucapacity buffer <? Z.of_nat (length text) then Fail OutOfBounds
  else Ok (UStr text (ucapacity buffer), 0 <? Z.of_nat (length text)).

(** ** Room *)

Lemma create_room n : n <= create n.
Proof.
  unfold create, mmap_length, U_CAPACITY, sizeof_UStringRep, PAGESIZE. destruct (Z.leb_spec n (4096 - (1 + 24))).
  - cbn [find]. repeat match goal with |- context [?a <=? ?b] => destruct (Z.leb_spec a b); [lia|] end. lia.
  - Z.div_mod_to_equations. lia.
Qed.

Lemma create_range n : 0 < n < 2 ^ 31 - 4096 → 0 < create n < 2 ^ 31.
Proof.
  unfold create, mmap_length, U_CAPACITY, sizeof_UStringRep, PAGESIZE. intros Hn. destruct (Z.leb_spec n (4096 - (1 + 24))).
  - cbn [find]. repeat match goal with |- context [?a <=? ?b] => destruct (Z.leb_spec a b); [lia|] end. lia.
  - Z.div_mod_to_equations. lia.
Qed.

Lemma grow_room n : 0 <= n < 2 ^ 30 → n <= grow n ∧ U_CAPACITY <= grow n < 2 ^ 31.
Proof.
  intros Hn. unfold grow, U_HOW_MUCH_PREALLOCATE. destruct (Z.leb_spec n U_CAPACITY) as [H|H].
  - pose proof (create_room U_CAPACITY). pose proof (create_range U_CAPACITY ltac:(unfold U_CAPACITY, sizeof_UStringRep; lia)). lia.
  - destruct (Z.leb_spec (2 * 1024 * 1024) n).
    + pose proof (create_room n). pose proof (create_range n ltac:(unfold U_CAPACITY, sizeof_UStringRep in *; lia)). lia.
    + rewrite u32_small by (unfold U_CAPACITY, sizeof_UStringRep, PAGESIZE in *; lia).
      pose proof (create_room (n * 2 + 3 * PAGESIZE)). pose proof (create_range (n * 2 + 3 * PAGESIZE) ltac:(unfold U_CAPACITY, sizeof_UStringRep, PAGESIZE in *; lia)).
      unfold U_CAPACITY, sizeof_UStringRep, PAGESIZE in *. lia.
Qed.

(** The strings the output is collected in. *)
Definition roomy (b : ustring) : Prop := U_CAPACITY <= ucapacity b < 2 ^ 31 ∧ usize b <= ucapacity b.

Lemma reserve_roomy n b : roomy b → 0 <= n < 2 ^ 30 →
  ubytes (reserve n b) = ubytes b ∧ roomy (reserve n b) ∧ n <= ucapacity (reserve n b).
Proof.
  intros [Hc Hs] Hn. unfold reserve. destruct (Z.leb_spec n (ucapacity b)); [done|]. pose proof (grow_room n Hn).
  unfold roomy, usize in *. cbn [ubytes ucapacity]. splits; first [done | lia].
Qed.

Lemma append_roomy bs b : roomy b → usize b + Z.of_nat (length bs) < 2 ^ 30 →
  roomy (append bs b) ∧ ubytes (append bs b) = ubytes b ++ bs.
Proof.
  intros [Hc Hs] Hn. unfold append. destruct bs as [|c bs]; [by rewrite app_nil_r|]. split; [|done].
  unfold roomy, usize in *. cbn [ubytes ucapacity]. rewrite length_app, u32_small by lia.
  destruct (Z.ltb_spec (ucapacity b) (Z.of_nat (length (ubytes b)) + Z.of_nat (length (c :: bs)))); [|lia].
  pose proof (grow_room (Z.of_nat (length (ubytes b)) + Z.of_nat (length (c :: bs))) ltac:(lia)). lia.
Qed.
