(* ===== verification/Json.v ===== *)
(** * JSON values ([UValue], [src/ulib/json/value.cpp], [include/ulib/json/value.h])

    The values are cells of a store and arrays and objects hold their addresses, as the program has it: an
    array is the list of the pointers its [UVector] holds, an object the hash table of [HashMap] with the
    addresses as elements. [double]s are their 64 bits. What the processor and the C library do with [double]s,
    and the number of entries [UMemoryPool::_malloc] grants, are the class [Platform]. The nodes and strings
    of the hash tables are released with them; the trace of the debug build is not modelled. *)

From stdpp Require Import gmap.
From S2P Require Import Prelude CType Search Escape Printf HashMap Tokenizer UString.
From S2P Require Xml.

Class Platform := {
  penv : env;
  strtod : list Z → Z;
  double_of_int : Z → Z;
  double_of_uint : Z → Z;
  int_of_double : Z → Z;
  uint_of_double : Z → Z;
  double_le : Z → Z → bool;
  granted : Z → Z }.

Definition NULL_VALUE : Z := 0.
Definition BOOLEAN_VALUE : Z := 1.
Definition INT_VALUE : Z := 2.
Definition UINT_VALUE : Z := 3.
Definition REAL_VALUE : Z := 4.
Definition STRING_VALUE : Z := 5.
Definition ARRAY_VALUE : Z := 6.
Definition OBJECT_VALUE : Z := 7.

(** A [UValue]: its [type_] and its [value]. *)
Inductive value :=
  | VNull
  | VBool (bool_ : bool)
  | VInt (int_ : Z)
  | VUInt (uint_ : Z)
  | VReal (real_ : Z)
  | VString (ptr_ : list Z)
  | VArray (ptr_ : list Z)
  | VObject (ptr_ : uhashmap).

Definition type (v : value) : Z :=
  match v with
  | VNull => NULL_VALUE | VBool _ => BOOLEAN_VALUE | VInt _ => INT_VALUE | VUInt _ => UINT_VALUE
  | VReal _ => REAL_VALUE | VString _ => STRING_VALUE | VArray _ => ARRAY_VALUE | VObject _ => OBJECT_VALUE
  end.

Definition isNull (v : value) : bool := type v =? NULL_VALUE.
Definition isBool (v : value) : bool := type v =? BOOLEAN_VALUE.
Definition isInt (v : value) : bool := type v =? INT_VALUE.
Definition isUInt (v : value) : bool := type v =? UINT_VALUE.
Definition isIntegral (v : value) : bool := (type v =? INT_VALUE) || (type v =? UINT_VALUE) || (type v =? BOOLEAN_VALUE).
Definition isDouble (v : value) : bool := type v =? REAL_VALUE.
Definition isNumeric (v : value) : bool := isIntegral v || (type v =? REAL_VALUE).
Definition isString (v : value) : bool := type v =? STRING_VALUE.
Definition isArray (v : value) : bool := (type v =? NULL_VALUE) || (type v =? ARRAY_VALUE).
Definition isObject (v : value) : bool := (type v =? NULL_VALUE) || (type v =? OBJECT_VALUE).

(** [real_ == 0.0] holds for both zeros. *)
Definition real_zero (d : Z) : bool := (d =? 0) || (d =? 2 ^ 63).

Definition INT_MIN : Z := - 2 ^ 31.
Definition INT_MAX : Z := 2 ^ 31 - 1.
Definition UINT_MAX : Z := 2 ^ 32 - 1.

(** ** The store *)

Record store := Store { cells : gmap Z value; fresh : Z }.

Definition deref (p : Z) (h : store) : res value :=
  match cells h !! p with Some v => Ok v | None => Fail OutOfBounds end.

Definition set_cell (p : Z) (v : value) (h : store) : store := Store (<[p := v]> (cells h)) (fresh h).

(** [U_NEW(...)], and the memory of a node of a hash table. *)
Definition new_cell (v : value) (h : store) : Z * store :=
  (fresh h, Store (<[fresh h := v]> (cells h)) (fresh h + 1)).
Definition new_node (h : store) : Z * store := (fresh h, Store (cells h) (fresh h + 1)).

Definition remove_cell (p : Z) (h : store) : store := Store (delete p (cells h)) (fresh h).

(** The elements a value owns. *)
Definition elements (v : value) : list Z :=
  match v with VArray ps => ps | VObject m => map nelem (concat (table m)) | _ => [] end.

Fixpoint destroy_all (destroy : Z → store → res store) (ps : list Z) (h : store) : res store :=
  match ps with [] => Ok h | p :: ps => h ← destroy p h; destroy_all destroy ps h end.

(** [clear()]: the elements are deleted, which clears them first. *)
Fixpoint clear (fuel : nat) (p : Z) (h : store) : res store :=
  match fuel with
  | O => Fail OutOfFuel
  | S fuel =>
      v ← deref p h;
      h ← destroy_all (λ q h, h ← clear fuel q h; Ok (remove_cell q h)) (elements v) h;
      Ok (set_cell p VNull h)
  end.

(** A value cannot lie deeper than there are cells. *)
Definition depth (h : store) : nat := S (base.size (cells h)).

(** [delete p]. *)
Definition destroy (p : Z) (h : store) : res store := h ← clear (depth h) p h; Ok (remove_cell p h).

Section Json.
Context `{!Platform}.

(** [UValue(_type)]. *)
Definition value_of_type (type_ : Z) : value :=
  if type_ =? BOOLEAN_VALUE then VBool false
  else if type_ =? INT_VALUE then VInt 0
  else if type_ =? UINT_VALUE then VUInt 0
  else if type_ =? REAL_VALUE then VReal 0
  else if type_ =? STRING_VALUE then VString []
  else if type_ =? ARRAY_VALUE then VArray []
  else if type_ =? OBJECT_VALUE then VObject (new_table granted false 53)
  else VNull.

(** ** Conversions *)

Definition is_empty {A} (l : list A) : bool := match l with [] => true | _ => false end.

Definition asBool (v : value) : bool :=
  match v with
  | VNull => false
  | VInt z | VUInt z => negb (z =? 0)
  | VReal d => negb (real_zero d)
  | VBool b => b
  | VString s => is_empty s
  | VArray ps => is_empty ps
  | VObject m => size_ m =? 0
  end.

Definition asInt (v : value) : Z :=
  match v with
  | VInt z => z
  | VBool b => Z.b2z b
  | VUInt z => i32 z
  | VReal d => int_of_double d
  | _ => 0
  end.

Definition asUInt (v : value) : Z :=
  match v with
  | VUInt z => z
  | VBool b => Z.b2z b
  | VInt z => u32 z
  | VReal d => uint_of_double d
  | _ => 0
  end.

Definition asDouble (v : value) : Z :=
  match v with
  | VInt z => double_of_int z
  | VUInt z => double_of_uint z
  | VReal d => d
  | VBool b => if b then double_of_int 1 else 0
  | _ => 0
  end.

Definition asString (v : value) : list Z :=
  match v with
  | VString s => s
  | VBool b => if b then BS "true" else BS "false"
  | _ => []
  end.

Definition isConvertibleTo (v : value) (other : Z) : bool :=
  match v with
  | VNull => true
  | VBool b => negb (other =? NULL_VALUE) || negb b
  | VInt z =>
      ((other =? NULL_VALUE) && (z =? 0)) || (other =? INT_VALUE) || ((other =? UINT_VALUE) && (0 <=? z)) ||
      (other =? REAL_VALUE) || (other =? BOOLEAN_VALUE)
  | VUInt z =>
      ((other =? NULL_VALUE) && (z =? 0)) || ((other =? INT_VALUE) && (z <=? INT_MAX)) || (other =? UINT_VALUE) ||
      (other =? REAL_VALUE) || (other =? BOOLEAN_VALUE)
  | VReal d =>
      ((other =? NULL_VALUE) && real_zero d) ||
      ((other =? INT_VALUE) && double_le (double_of_int INT_MIN) d && double_le d (double_of_int INT_MAX)) ||
      ((other =? UINT_VALUE) && double_le 0 d && double_le d (double_of_uint UINT_MAX)) ||
      (other =? REAL_VALUE) || (other =? BOOLEAN_VALUE)
  | VString s => ((other =? NULL_VALUE) && is_empty s) || (other =? STRING_VALUE)
  | VArray ps => ((other =? NULL_VALUE) && is_empty ps) || (other =? ARRAY_VALUE)
  | VObject m => ((other =? NULL_VALUE) && (size_ m =? 0)) || (other =? OBJECT_VALUE)
  end.

(** ** Arrays and objects *)

Definition vsize (v : value) : Z :=
  match v with
  | VString s => Z.of_nat (length s)
  | VArray ps => Z.of_nat (length ps)
  | VObject m => size_ m
  | _ => 0
  end.

Definition getMemberNames (v : value) (members : list (list Z)) : list (list Z) * Z :=
  match v with
  | VObject m => let members' := members ++ getKeys m in (members', Z.of_nat (length members' - length members))
  | _ => (members, 0)
  end.

(** [operator[]] with a position and with a key: the address of the element, 0 when there is none. *)
Definition at_pos (p pos : Z) (h : store) : res Z :=
  v ← deref p h; match v with VArray ps => rd ps pos | _ => Ok p end.

Definition at_name (p : Z) (key : list Z) (h : store) : res (Z * store) :=
  v ← deref p h;
  match v with
  | VObject m => r ← at_key None key m; Ok (r.1, set_cell p (VObject r.2) h)
  | _ => Ok (p, h)
  end.

(** ** Writing *)

(** [while (ch > buffer && *ch == '0') --ch], from the character [i] on. *)
Fixpoint last_nonzero (text : list Z) (i : nat) : res nat :=
  match i with
  | O => Ok O
  | S j => c ← rd text (Z.of_nat i); if c =? CH "0" then last_nonzero text j else Ok i
  end.

(** The loop down to the point: the length that is kept. *)
Fixpoint to_point (text : list Z) (i last n : nat) : res nat :=
  c ← rd text (Z.of_nat i);
  if (CH "0" <=? c) && (c <=? CH "9") then match i with O => Ok n | S j => to_point text j last n end
  else Ok (if c =? CH "." then (last + 2)%nat else n).

(** The zeros at the end of a number are cut off, all but one. *)
Definition cut_zeros (text : list Z) : res nat :=
  let n := length text in
  c ← rd text (Z.of_nat n - 1);
  if c =? CH "0" then last ← last_nonzero text (n - 1); to_point text last last n else Ok n.

(** [u__snprintf(buffer, sizeof(buffer), ...)]: the text. *)
Definition print_number (format : list Z) (a : arg) : res (list Z) :=
  st ← u__snprintf penv (replicate 32 0) 32 (format ++ [0]) [a]; Ok (take (Z.to_nat (ret st)) (pbuf st)).

(** A string, with the room asked for it. *)
Definition put_string (s : list Z) (result : ustring) : res ustring :=
  encode s (reserve (u32 (usize result + u32 (Z.of_nat (length s) * 6))) result) true.

Fixpoint output_items (out : ustring → Z → store → res (ustring * store)) (result : ustring) (ps : list Z) (h : store) :
    res (ustring * store) :=
  match ps with
  | [] => Ok (result, h)
  | p :: ps =>
      r ← out result p h;
      match ps with [] => Ok r | _ => output_items out (append (BS ",") r.1) ps r.2 end
  end.

Fixpoint output_members (out : ustring → Z → store → res (ustring * store)) (p : Z) (first : bool)
    (result : ustring) (names : list (list Z)) (h : store) : res (ustring * store) :=
  match names with
  | [] => Ok (result, h)
  | name :: names =>
      result ← put_string name (if first then result else append (BS ",") result);
      q ← at_name p name h;
      r ← out (append (BS ":") result) q.1 q.2;
      output_members out p false r.1 names r.2
  end.

Fixpoint output (fuel : nat) (result : ustring) (p : Z) (h : store) : res (ustring * store) :=
  match fuel with
  | O => Fail OutOfFuel
  | S fuel =>
      v ← deref p h;
      match v with
      | VNull => Ok (append (BS "null") result, h)
      | VBool _ => Ok (append (if asBool v then BS "true" else BS "false") result, h)
      | VInt _ => text ← print_number (BS "%d") (AInt (asInt v)); Ok (append text result, h)
      | VUInt _ => text ← print_number (BS "%u") (AInt (asUInt v)); Ok (append text result, h)
      | VReal _ =>
          text ← print_number (BS "%#.16g") (ADouble (asDouble v));
          n ← cut_zeros text;
          Ok (append (take n text) result, h)
      | VString s => result ← put_string s result; Ok (result, h)
      | VArray ps =>
          r ← output_items (output fuel) (append (BS "[") result) ps h; Ok (append (BS "]") r.1, r.2)
      | VObject m =>
          let names := (getMemberNames v []).1 in
          let sz := Z.to_nat (vsize v) in
          if (length names <? sz)%nat then Fail OutOfBounds
          else
            r ← output_members (output fuel) p true (append (BS "{") result) (take sz names) h;
            Ok (append (BS "}") r.1, r.2)
      end
  end.

(** [output()]. *)
Definition output_value (fuel : nat) (p : Z) (h : store) : res (list Z * store) :=
  r ← output fuel (new_string U_CAPACITY) p h; Ok (ubytes r.1, r.2).

(** ** Reading *)

(** [strtol(start, 0, 10)] and [strtoul(start, 0, 10)] where a digit or a minus is first. *)
Definition strtol (m : list Z) : res Z :=
  c ← rd m 0;
  r ← Xml.strtol_digits 10 0 (if c =? CH "-" then drop 1 m else m);
  Ok (Xml.clamp_long (if c =? CH "-" then - r.1 else r.1)).

Definition strtoul (m : list Z) : res Z := r ← Xml.strtol_digits 10 0 m; Ok (Z.min r.1 (2 ^ 64 - 1)).

Definition read_number (m : list Z) (c : Z) (breal : bool) : res value :=
  if breal then Ok (VReal (strtod m))
  else if c =? CH "-" then z ← strtol m; Ok (VInt (i32 z))
  else z ← strtoul m; Ok (VUInt (u32 z)).

(** A text in quotes, from behind the first one on. *)
Definition read_string (t : tok) : res (tok * value * bool) :=
  last ← u_find_char (str t) (s t) (end_ t) 34;
  let sz := u32 (last - s t) in
  r ← (if negb (sz =? 0) then
         x ← decode (drop (Z.to_nat (s t)) (str t)) (Z.to_nat sz) (new_string sz); Ok (VString (ubytes x.1), x.2)
       else Ok (VString [], true));
  Ok (if last <? end_ t then set_s (last + 1) t else t, r.1, r.2).

(** [getObject()->insert(name, item)]: an element that is replaced is deleted. *)
Definition insert_member (p : Z) (name : list Z) (item : Z) (h : store) : res store :=
  v ← deref p h;
  match v with
  | VObject m =>
      m ← lookup_key None name m;
      let found := negb (node m =? 0) in
      h ← (if found then n ← HashMap.current m; destroy (nelem n) h else Ok h);
      let '(addr, h) := if found then (0, h) else new_node h in
      m ← T_insertAfterFind addr name item m;
      Ok (set_cell p (VObject m) h)
  | _ => Fail OutOfBounds
  end.

Fixpoint readValue (fuel : nat) (t : tok) (p : Z) (h : store) : res (tok * store * bool) :=
  match fuel with
  | O => Fail OutOfFuel
  | S fuel =>
      t ← skipSpaces t;
      let start := s t in
      r ← next t;
      let '(t, c) := r in
      if c =? 0 then Ok (t, set_cell p VNull h, true)
      else if c =? CH "n" then
        r ← skipToken (BS "ull") t; Ok (r.1, set_cell p VNull h, r.2)
      else if (c =? CH "t") || (c =? CH "f") then
        r ← skipToken (if c =? CH "t" then BS "rue" else BS "alse") t;
        Ok (r.1, if r.2 : bool then set_cell p (VBool (c =? CH "t")) h else h, r.2)
      else if ((CH "0" <=? c) && (c <=? CH "9")) || (c =? CH "-") then
        r ← skipNumber t;
        let '(t, breal, result) := r in
        if result : bool then v ← read_number (drop (Z.to_nat start) (str t)) c breal; Ok (t, set_cell p v h, true)
        else Ok (t, h, false)
      else if c =? 34 then
        r ← read_string t; Ok (r.1.1, set_cell p r.1.2 h, r.2)
      else if c =? CH "[" then readArray fuel t p (set_cell p (VArray []) h)
      else if c =? CH "{" then
        let '(name, h) := new_cell VNull (set_cell p (VObject (new_table granted false 53)) h) in
        r ← readObject fuel t p name h;
        h ← destroy name r.1.2;
        Ok (r.1.1, h, r.2)
      else Ok (t, h, false)
  end
with readArray (fuel : nat) (t : tok) (p : Z) (h : store) : res (tok * store * bool) :=
  match fuel with
  | O => Fail OutOfFuel
  | S fuel =>
      t ← skipSpaces t;
      r ← next t;
      let '(t, c) := r in
      if (c =? CH "]") || (c =? 0) then Ok (t, h, true)
      else
        let '(item, h) := new_cell VNull h in
        r ← readValue fuel (if c =? CH "," then t else back t) item h;
        let '(t, h, result) := r in
        if result : bool then
          v ← deref p h;
          match v with
          | VArray ps => readArray fuel t p (set_cell p (VArray (ps ++ [item])) h)
          | _ => Fail OutOfBounds
          end
        else h ← destroy item h; Ok (t, h, false)
  end
with readObject (fuel : nat) (t : tok) (p name : Z) (h : store) : res (tok * store * bool) :=
  match fuel with
  | O => Fail OutOfFuel
  | S fuel =>
      t ← skipSpaces t;
      r ← next t;
      let '(t, c) := r in
      if (c =? CH "}") || (c =? 0) then Ok (t, h, true)
      else
        r ← readValue fuel (if c =? CH "," then t else back t) name h;
        let '(t, h, result) := r in
        if negb result then Ok (t, h, false)
        else
          t ← skipSpaces t;
          r ← next t;
          let '(t, c) := r in
          v ← deref name h;
          match v with
          | VString k =>
              if negb (c =? CH ":") then Ok (t, h, false)
              else
                let '(item, h) := new_cell VNull h in
                r ← readValue fuel t item h;
                let '(t, h, result) := r in
                if result : bool then
                  h ← insert_member p k item h;
                  h ← clear (depth h) name h;
                  readObject fuel t p name h
                else h ← destroy item h; Ok (t, h, false)
          | _ => Ok (t, h, false)
          end
  end.

(** [parse(document)] into the value at [p]. *)
Definition parse (fuel : nat) (document behind : list Z) (p : Z) (h : store) : res (store * bool) :=
  t ← skipSpaces (setData document behind);
  c ← Tokenizer.current t;
  if (c =? CH "[") || (c =? CH "{") then r ← readValue fuel t p h; Ok (r.1.2, r.2) else Ok (h, false).
End Json.
