(* ===== verification/JsonText.v ===== *)
(** * JSON: strings and numbers as they are written and read

    What is proved of single strings and numbers: the text of a string is found again by its quotation mark and
    decoded, the digits of a number give its value. *)

From stdpp Require Import gmap.
From S2P Require Import Prelude CType Memory Search Escape Printf HashMap Tokenizer UString Json.
From S2P Require Xml Strftime.

(** ** Strings *)

(** A backslash and a quotation mark behind it, which the search for the end takes for the end. *)
Fixpoint no_backquote (prev : Z) (s : list Z) : bool :=
  match s with [] => true | c :: s => negb ((prev =? CH "\") && (c =? 34)) && no_backquote c s end.

(** The strings that are read back: the coder goes wrong on a backslash before a quotation mark, and on the
    letter [u] next to escapes. *)
Definition str_ok (s : list Z) : Prop :=
  bytes s ∧ no_backquote 0 s = true ∧ (escape_all true s = s ∨ CH "u" ∉ s).

#[export] Instance str_ok_dec s : Decision (str_ok s).
Proof. unfold str_ok. apply _. Defined.

Definition quoted (s : list Z) : list Z := [34] ++ escape_all true s ++ [34].

Lemma escape_all_cons json c s : escape_all json (c :: s) = u_sprintc c json ++ escape_all json s.
Proof. done. Qed.

(** The text of one character. *)
Definition ends_with (c : Z) (t : list Z) : bool := match last t with Some x => x =? c | None => false end.

Lemma sprintc_text c : is_byte c →
  (c =? 34) || forallb (λ x, negb (x =? 34)) (u_sprintc c true) = true.
Proof. intros Hc. byte_check c. Qed.

Lemma sprintc_last c : is_byte c →
  (c =? CH "\") || negb (ends_with (CH "\") (u_sprintc c true)) = true.
Proof. intros Hc. byte_check c. Qed.

Lemma sprintc_nonempty c json : u_sprintc c json ≠ [].
Proof. unfold u_sprintc, octal_escape. repeat case_match; done. Qed.

(** A string that is its own text has no character that is escaped. *)
Lemma sprintc_length c : is_byte c → bool_decide (u_sprintc c true = [c]) || (2 <=? Z.of_nat (length (u_sprintc c true))) = true.
Proof. intros Hc. byte_check c. Qed.

Lemma escape_all_at_least s : bytes s → (length s <= length (escape_all true s))%nat.
Proof.
  induction 1 as [|c s Hc _ IH]; [done|]. rewrite escape_all_cons, length_app. pose proof (sprintc_nonempty c true).
  destruct (u_sprintc c true); [done|]. cbn. lia.
Qed.

Lemma plain_chars s : bytes s → escape_all true s = s → Forall (λ c, u_sprintc c true = [c]) s.
Proof.
  induction 1 as [|c s Hc Hs IH]; intros E; constructor; rewrite escape_all_cons in E.
  - pose proof (sprintc_length c Hc) as H. apply orb_true_iff in H as [H|H]; [by apply bool_decide_eq_true in H|].
    pose proof (escape_all_at_least s Hs). apply (f_equal length) in E. rewrite length_app in E. cbn in E. lia.
  - apply IH. pose proof (escape_all_at_least s Hs) as Hat. pose proof (sprintc_length c Hc) as H. apply orb_true_iff in H as [H|H].
    + apply bool_decide_eq_true in H. rewrite H in E. cbn in E. congruence.
    + apply (f_equal length) in E. rewrite length_app in E. cbn in E. lia.
Qed.

Lemma plain_no_backslash s : Forall (λ c, u_sprintc c true = [c]) s → CH "\" ∉ s.
Proof. intros H Hin. rewrite Forall_forall in H. by specialize (H _ Hin). Qed.

(** Writing. *)
Fixpoint no_raw (s : list Z) : bool :=
  match s with c :: s' => negb ((c =? CH "\") && match s' with d :: _ => d =? CH "u" | [] => false end) && no_raw s' | [] => true end.

Lemma str_no_raw s : str_ok s → no_raw s = true.
Proof.
  intros (Hb & _ & H). assert (Hc : (CH "\" ∉ s) ∨ (CH "u" ∉ s)).
  { destruct H as [H|H]; [left; by apply plain_no_backslash, plain_chars|by right]. }
  clear -Hc. induction s as [|c s IH]; [done|]. cbn. apply andb_true_iff. split.
  - apply negb_true_iff, andb_false_iff. destruct Hc as [Hc|Hc].
    + left. apply not_elem_of_cons in Hc as [Hc _]. by apply Z.eqb_neq, not_eq_sym.
    + right. apply not_elem_of_cons in Hc as [_ Hc]. destruct s as [|d s]; [done|]. apply not_elem_of_cons in Hc as [Hc _].
      by apply Z.eqb_neq, not_eq_sym.
  - apply IH. destruct Hc as [Hc|Hc]; apply not_elem_of_cons in Hc as [_ Hc]; auto.
Qed.

Lemma escape_encode_raw limit s rest out : no_raw s = true →
  Z.of_nat (length out) + Z.of_nat (length (escape_all true s)) < limit →
  escape_encode_loop true limit (length s) (s ++ 0 :: rest) out = Ok (out ++ escape_all true s).
Proof.
  revert out. induction s as [|c s IH]; intros out Hr Hl; [by rewrite app_nil_r|]. cbn [no_raw] in Hr.
  apply andb_true_iff in Hr as [Hr1 Hr]. rewrite escape_all_cons, length_app in Hl. cbn [escape_encode_loop length app].
  assert (Hraw : (if true && (c =? CH "\") then x ← rd (s ++ 0 :: rest) 0; Ok (x =? CH "u") else Ok false) = Ok false).
  { destruct (Z.eqb_spec c (CH "\")); [|done]. cbn [andb]. destruct s as [|d s]; [done|]. change (Ok (d =? 117) = Ok false).
    apply negb_true_iff in Hr1. rewrite andb_false_iff in Hr1. destruct Hr1 as [Hr1|Hr1]; [done|by rewrite Hr1]. }
  rewrite Hraw. cbn [mbind res_bind].
  destruct (Z.leb_spec limit (Z.of_nat (length (out ++ u_sprintc c true)))); [rewrite length_app in *; lia|].
  rewrite IH; [by rewrite <- app_assoc|done|]. rewrite length_app. lia.
Qed.

Lemma encode_room s b : str_ok s → roomy b → Z.of_nat (length (escape_all true s)) + 6 <= ucapacity b - usize b →
  encode s b true = Ok (UStr (ubytes b ++ quoted s) (ucapacity b)).
Proof.
  intros Hs [Hc Hu] Hr. unfold encode, u_escape_encode, space. unfold U_CAPACITY, sizeof_UStringRep in Hc.
  replace (i32 (ucapacity b)) with (ucapacity b) by (unfold i32; rewrite Z.mod_small; lia).
  destruct (Z.ltb_spec 0 (ucapacity b)); [|lia]. rewrite (u32_small (ucapacity b - usize b)), u32_small by (unfold usize in *; lia).
  rewrite escape_encode_raw; [|by apply str_no_raw|cbn; lia]. cbn [mbind res_bind].
  rewrite <- app_assoc. fold (quoted s).
  destruct (Z.ltb_spec (ucapacity b) (usize b + Z.of_nat (length (quoted s)))) as [H'|_]; [|done].
  unfold quoted in H'. rewrite !length_app in H'. cbn in H'. lia.
Qed.

(** Reading: the end of the text. *)
Lemma find_char_skip m e c p x : rd m p = Ok x → x ≠ c → 0 <= p < e → e <= Z.of_nat (length m) →
  find_char_step m e c p = find_char_step m e c (p + 1).
Proof.
  intros Hx Hne Hp He. unfold find_char_step.
  destruct (Z.ltb_spec (e - p) 0); [lia|]. destruct (Z.ltb_spec (e - (p + 1)) 0); [lia|].
  replace (Z.to_nat (e - p)) with (S (Z.to_nat (e - (p + 1)))) by lia.
  replace (Z.to_nat (p + 1)) with (S (Z.to_nat p)) by lia.
  assert (Hd : drop (Z.to_nat p) m = x :: drop (S (Z.to_nat p)) m).
  { destruct (lookup_lt_is_Some_2 m (Z.to_nat p)) as [y Hy]; [lia|]. pose proof (rd_lookup m _ _ Hy) as Hr.
    rewrite Z2Nat.id, Hx in Hr by lia. injection Hr as <-. by rewrite (drop_S _ _ _ Hy). }
  rewrite Hd. cbn [memchr]. rewrite (proj2 (Z.eqb_neq x c)) by done.
  destruct (memchr (drop (S (Z.to_nat p)) m) c (Z.to_nat (e - (p + 1)))) as [[k|]|]; cbn; [|done|done].
  by rewrite (Z.add_assoc p 1 k).
Qed.

Lemma find_char_over m e c run pre post : m = pre ++ run ++ post → Forall (λ x, x ≠ c) run →
  Z.of_nat (length pre + length run) <= e <= Z.of_nat (length m) →
  find_char_step m e c (Z.of_nat (length pre)) = find_char_step m e c (Z.of_nat (length pre + length run)).
Proof.
  intros Hm Hrun. revert pre Hm. induction Hrun as [|x run Hx _ IH]; intros pre Hm He; [by rewrite Nat.add_0_r|].
  rewrite (find_char_skip m e c _ x); [|subst m; cbn [app]; apply rd_nth_app|done|cbn in He; lia|lia].
  replace (Z.of_nat (length pre) + 1) with (Z.of_nat (length (pre ++ [x]))) by (rewrite length_app; cbn; lia).
  rewrite IH; [|by subst m; rewrite <- app_assoc|rewrite length_app; cbn in *; lia]. f_equal. rewrite length_app. cbn. lia.
Qed.

(** What is looked at before a quotation mark: a backslash counts unless there is another before it. *)
Definition closed (pre : list Z) : Prop :=
  ∃ pre' b a, pre = pre' ++ [b; a] ∧ (a = CH "\" → b = CH "\").

Lemma find_char_at m e pre post : m = pre ++ 34 :: post → Z.of_nat (length pre) < e <= Z.of_nat (length m) → 
  ∀ pre' b a, pre = pre' ++ [b; a] →
  find_char_step m e 34 (Z.of_nat (length pre))
  = Ok (if (a =? CH "\") && negb (b =? CH "\") then inl (Z.of_nat (length pre) + 1) else inr (Z.of_nat (length pre))).
Proof.
  intros Hm He pre' b a Hp. unfold find_char_step. destruct (Z.ltb_spec (e - Z.of_nat (length pre)) 0); [lia|].
  rewrite Nat2Z.id. rewrite Hm at 1. rewrite drop_app_length.
  replace (Z.to_nat (e - Z.of_nat (length pre))) with (S (Z.to_nat (e - Z.of_nat (length pre) - 1))) by lia.
  cbn [memchr]. rewrite Z.eqb_refl. cbn [mbind res_bind]. rewrite Z.add_0_r.
  assert (Ha : rd m (Z.of_nat (length pre) - 1) = Ok a).
  { replace m with ((pre' ++ [b]) ++ a :: 34 :: post) by (subst; rewrite <- !app_assoc; done).
    replace (Z.of_nat (length pre) - 1) with (Z.of_nat (length (pre' ++ [b]))) by (subst; rewrite !length_app; cbn; lia). apply rd_nth_app. }
  assert (Hb : rd m (Z.of_nat (length pre) - 2) = Ok b).
  { rewrite Hm, Hp, <- app_assoc. replace (Z.of_nat (length (pre' ++ [b; a])) - 2) with (Z.of_nat (length pre')) by (rewrite !length_app; cbn; lia).
    cbn [app]. apply rd_nth_app. }
  rewrite Ha. cbn [mbind res_bind]. destruct (a =? 92); [|done]. rewrite Hb. cbn [mbind res_bind andb]. by destruct (b =? 92).
Qed.

Lemma closed_app pre t x : (2 <= length pre)%nat → last t = Some x → x ≠ CH "\" → closed (pre ++ t).
Proof.
  intros Hp Ht Hx. apply last_Some in Ht as (t' & ->). rewrite app_assoc. destruct (pre ++ t') as [|y l] eqn:E using rev_ind.
  - apply (f_equal length) in E. rewrite length_app in E. cbn in E. lia.
  - exists l, y, x. by rewrite <- app_assoc.
Qed.

Ltac lengths := repeat (rewrite ?length_app in *; cbn [length app] in *); lia.

(** From the character behind the first quotation mark, or in the string, to the mark at its end. *)
Lemma find_end_of_string s : ∀ pre prev post e n,
  bytes s → no_backquote prev s = true → (2 <= length pre)%nat → closed pre → (last pre = Some (CH "\") → prev = CH "\") →
  Z.of_nat (length pre + length (escape_all true s)) < e <= Z.of_nat (length (pre ++ escape_all true s ++ 34 :: post)) →
  (length s < n)%nat →
  iterate n (find_char_step (pre ++ escape_all true s ++ 34 :: post) e 34) (Z.of_nat (length pre))
  = Ok (Z.of_nat (length pre + length (escape_all true s))).
Proof.
  induction s as [|c s IH]; intros pre prev post e n Hs Hq Hp Hcl Hprev He Hn; (destruct n as [|n]; [cbn in Hn; lia|]).
  - cbn [escape_all map concat app length iterate] in *. destruct Hcl as (pre' & b & a & Hpre & Hab).
    rewrite (find_char_at _ e pre post eq_refl ltac:(lia) pre' b a Hpre). rewrite Nat.add_0_r.
    destruct (Z.eqb_spec a (CH "\")) as [Ha|]; [|done]. by rewrite (Hab Ha).
  - apply Forall_cons in Hs as [Hc Hs]. cbn [no_backquote] in Hq. apply andb_true_iff in Hq as [Hq1 Hq].
    rewrite escape_all_cons in *. rewrite length_app in *. rewrite <- (app_assoc (u_sprintc c true)) in *.
    pose proof (sprintc_text c Hc) as Ht. apply orb_true_iff in Ht as [Ht|Ht].
    + apply Z.eqb_eq in Ht as ->. rewrite andb_true_r in Hq1. apply negb_true_iff, Z.eqb_neq in Hq1.
      change (u_sprintc 34 true) with [CH "\"; 34] in *. cbn [app iterate].
      destruct Hcl as (pre' & b & a & Hpre & Hab). assert (Ha : a ≠ CH "\").
      { intros ->. apply Hq1, Hprev. rewrite Hpre. by rewrite last_app. }
      set (m := pre ++ CH "\" :: 34 :: escape_all true s ++ 34 :: post) in *.
      assert (Em : m = (pre ++ [CH "\"]) ++ 34 :: escape_all true s ++ 34 :: post) by (unfold m; by rewrite <- app_assoc).
      rewrite (find_char_skip m e 34 _ (CH "\")); [|apply rd_nth_app|done|unfold m in *; clear -He; lengths|unfold m in *; clear -He; lengths].
      replace (Z.of_nat (length pre) + 1) with (Z.of_nat (length (pre ++ [CH "\"]))) by (rewrite length_app; cbn; lia).
      rewrite (find_char_at m e _ _ Em ltac:(unfold m in *; clear -He; lengths) (pre' ++ [b]) a (CH "\")) by (rewrite Hpre, <- !app_assoc; done).
      rewrite Z.eqb_refl, (proj2 (Z.eqb_neq a _)) by done. cbn [andb negb mbind res_bind].
      replace (Z.of_nat (length (pre ++ [CH "\"])) + 1) with (Z.of_nat (length (pre ++ [CH "\"; 34]))) by (rewrite !length_app; cbn; lia).
      assert (Em2 : m = (pre ++ [CH "\"; 34]) ++ escape_all true s ++ 34 :: post) by (unfold m; by rewrite <- app_assoc).
      rewrite Em2, (IH _ 34); [f_equal; rewrite !length_app; cbn; lia|done|done|rewrite length_app; cbn; lia| | | |cbn in Hn; lia].
      * exists pre, (CH "\"), 34. by split.
      * rewrite last_app. by intros [=].
      * rewrite <- Em2. unfold m in *. clear -He. lengths.
    + assert (Hne : Forall (λ x, x ≠ 34) (u_sprintc c true)).
      { rewrite forallb_forall in Ht. apply Forall_forall. intros x Hx. rewrite list_elem_of_In in Hx. apply Ht in Hx.
        by apply negb_true_iff, Z.eqb_neq in Hx. }
      assert (Ei : iterate (S n) (find_char_step (pre ++ u_sprintc c true ++ escape_all true s ++ 34 :: post) e 34) (Z.of_nat (length pre))
        = iterate (S n) (find_char_step ((pre ++ u_sprintc c true) ++ escape_all true s ++ 34 :: post) e 34) (Z.of_nat (length (pre ++ u_sprintc c true)))).
      { cbn [iterate]. rewrite (find_char_over _ e 34 (u_sprintc c true) pre (escape_all true s ++ 34 :: post)); [|done|done|].
        - by rewrite <- app_assoc, length_app.
        - lia. }
      rewrite Ei, (IH _ c); [f_equal; rewrite length_app; lia|done|done|rewrite length_app; lia| | | |cbn in Hn; lia].
      * pose proof (sprintc_last c Hc) as Hl. apply orb_true_iff in Hl as [Hl|Hl].
        -- apply Z.eqb_eq in Hl as ->. by exists pre, (CH "\"), (CH "\").
        -- destruct (last (u_sprintc c true)) as [x|] eqn:El; [|by apply last_None, sprintc_nonempty in El].
           apply (closed_app pre _ x); [done|done|]. unfold ends_with in Hl. rewrite El in Hl. by apply negb_true_iff, Z.eqb_neq in Hl.
      * rewrite last_app. destruct (last (u_sprintc c true)) as [x|] eqn:El; [|by apply last_None, sprintc_nonempty in El].
        intros [= ->]. pose proof (sprintc_last c Hc) as Hl. apply orb_true_iff in Hl as [Hl|Hl]; [by apply Z.eqb_eq|].
        unfold ends_with in Hl. by rewrite El in Hl.
      * clear -He. lengths.
Qed.

Lemma decode_all s rest : str_ok s → u_escape_decode (escape_all true s ++ rest) (length (escape_all true s)) = Ok s.
Proof.
  intros (Hb & _ & [H|Hu]).
  - assert (Hn := plain_no_backslash s (plain_chars s Hb H)). rewrite H. unfold u_escape_decode.
    destruct s as [|c s]; [done|]. set (w := c :: s) in *. cbn [escape_decode_loop length].
    destruct (Z.leb_spec (Z.of_nat (length w)) 0); [unfold w in *; cbn in *; lia|].
    change (S (length s)) with (length w). destruct (length w) as [|k] eqn:Ek; [done|]. cbn [escape_decode_loop]. rewrite <- Ek.
    destruct (Z.leb_spec (Z.of_nat (length w)) 0); [lia|]. rewrite Nat2Z.id, memchr_none.
    + cbn [mbind res_bind]. by rewrite take_app_length.
    + apply Forall_forall. intros x Hx ->. done.
  - unfold u_escape_decode. pose proof (esc_dec_all true s [] [] Hb Hu esc_dec_nil [] (length (escape_all true s)) rest) as E.
    cbn [app] in E. rewrite !app_nil_r in E. apply E; [constructor|done].
Qed.

Lemma read_string_ok pre s T behind : str_ok s → pre ≠ [] → Z.of_nat (length (escape_all true s)) < 2 ^ 32 →
  read_string (at_text (pre ++ [34]) (escape_all true s ++ 34 :: T) behind)
  = Ok (at_text (pre ++ quoted s) T behind, VString s, true).
Proof.
  intros Hs Hpre Hl. pose proof Hs as (Hb & Hq & _). unfold read_string, at_text, u_find_char. cbn [str Tokenizer.s end_].
  rewrite <- (app_assoc (escape_all true s)). cbn [app].
  set (pre1 := pre ++ [34]). assert (Hp2 : (2 <= length pre1)%nat).
  { unfold pre1. destruct pre; [done|]. rewrite length_app. cbn. lia. }
  rewrite (find_end_of_string s pre1 0 (T ++ behind)); [|done|done|done| | |lengths|].
  2:{ unfold pre1. destruct pre as [|x pre'] using rev_ind; [done|]. exists pre', x, 34. by rewrite <- app_assoc. }
  2:{ unfold pre1. rewrite last_app. by intros [=]. }
  2:{ pose proof (escape_all_at_least s Hb). lengths. }
  cbn [mbind res_bind]. replace (Z.of_nat (length pre1 + length (escape_all true s)) - Z.of_nat (length pre1)) with (Z.of_nat (length (escape_all true s))) by lia.
  rewrite u32_small by lia. rewrite !Nat2Z.id, drop_app_length.
  assert (Hval : (if negb (Z.of_nat (length (escape_all true s)) =? 0)
     then x ← decode (escape_all true s ++ 34 :: T ++ behind) (length (escape_all true s)) (new_string (Z.of_nat (length (escape_all true s))));
          Ok (VString (ubytes x.1), x.2)
     else Ok (VString [], true)) = Ok (VString s, true)).
  { pose proof (escape_all_at_least s Hb) as Hat. destruct (Z.eqb_spec (Z.of_nat (length (escape_all true s))) 0) as [H0|H0]; cbn [negb].
    - assert (H1 : (length s = 0)%nat) by lia. by destruct s.
    - unfold decode. rewrite decode_all by done. cbn [mbind res_bind].
      assert (Hcap : Z.of_nat (length s) <= ucapacity (new_string (Z.of_nat (length (escape_all true s))))).
      { unfold new_string, U_HOW_MUCH_PREALLOCATE. cbn [ucapacity]. rewrite Z.leb_refl.
        pose proof (create_room (Z.of_nat (length (escape_all true s)))). destruct (_ <=? U_CAPACITY); lia. }
      destruct (Z.ltb_spec (ucapacity (new_string (Z.of_nat (length (escape_all true s))))) (Z.of_nat (length s))); [lia|].
      cbn [mbind res_bind ubytes fst snd]. do 2 f_equal. apply Z.ltb_lt. destruct s; [done|]. cbn. lia. }
  rewrite Hval. cbn [mbind res_bind fst snd].
  destruct (Z.ltb_spec (Z.of_nat (length pre1 + length (escape_all true s))) (Z.of_nat (length pre1 + length (escape_all true s ++ 34 :: T)))); [|lengths].
  unfold set_s. cbn [str end_]. do 3 f_equal. unfold pre1, quoted. f_equal; [by rewrite <- !app_assoc|lengths|lengths].
Qed.

(** ** Numbers *)

Definition real_mark (c : Z) : bool := (c =? CH ".") || (c =? CH "e") || (c =? CH "E") || (c =? CH "+").
Definition number_char (c : Z) : bool := u__isdigit c || (c =? CH "-") || real_mark c.

(** What may stand behind a value. *)
Definition stop (c : Z) : bool := u__isspace c || (c =? CH ",") || (c =? CH "]") || (c =? CH "}").

Definition stops (T : list Z) : Prop := match T with c :: _ => stop c = true ∧ is_byte c | [] => False end.

Lemma stop_number c : is_byte c → stop c = true → number_char c = false.
Proof. intros Hc. byte_implies c. Qed.

Lemma skip_number_run run : ∀ pre post real todo, Forall (λ c, number_char c = true) run → (length run < todo)%nat →
  match post with c :: _ => number_char c = false | [] => False end →
  skip_number (pre ++ run ++ post) (Z.of_nat (length pre)) todo real
  = Ok (Z.of_nat (length pre + length run), real || existsb real_mark run, true).
Proof.
  induction run as [|c run IH]; intros pre post real todo Hrun Ht Hp; (destruct todo as [|todo]; [cbn in Ht; lia|]); cbn [skip_number app].
  - destruct post as [|c post]; [done|]. rewrite rd_nth_app. cbn [mbind res_bind]. unfold number_char, real_mark in Hp.
    rewrite !orb_false_iff in Hp. destruct Hp as [[-> ->] [[[-> ->] ->] ->]]. cbn [orb length existsb]. by rewrite Nat.add_0_r, orb_false_r.
  - apply Forall_cons in Hrun as [Hc Hrun]. rewrite rd_nth_app. cbn [mbind res_bind existsb]. cbn in Ht.
    assert (Hnext : ∀ r, skip_number (pre ++ c :: run ++ post) (Z.of_nat (length pre) + 1) todo r
      = Ok (Z.of_nat (length pre + length (c :: run)), r || existsb real_mark run, true)).
    { intros r. replace (Z.of_nat (length pre) + 1) with (Z.of_nat (length (pre ++ [c]))) by lengths.
      replace (pre ++ c :: run ++ post) with ((pre ++ [c]) ++ run ++ post) by by rewrite <- app_assoc.
      rewrite IH by (done || lia). do 3 f_equal. lengths. }
    rewrite !Hnext. fold (real_mark c). unfold number_char in Hc. destruct (u__isdigit c || (c =? CH "-")) eqn:E.
    + assert (Hr : real_mark c = false); [|by rewrite Hr].
      apply orb_true_iff in E as [E|E]; [|by apply Z.eqb_eq in E as ->]. unfold u__isdigit in E.
      apply not_true_iff_false. intros Hr. unfold real_mark in Hr.
      rewrite !orb_true_iff, !Z.eqb_eq in Hr. by destruct_or! Hr; subst c.
    + cbn [orb] in Hc. rewrite Hc. by rewrite orb_true_r.
Qed.

Definition digit (c : Z) : Prop := 48 <= c <= 57.

Definition dec (ds : list Z) : Z := fold_left (λ a c, a * 10 + (c - 48)) ds 0.

Lemma digits_read ds : ∀ acc c rest, Forall digit ds → is_byte c → number_char c = false →
  Xml.strtol_digits 10 acc (ds ++ c :: rest) = Ok (fold_left (λ a c, a * 10 + (c - 48)) ds acc, c :: rest).
Proof.
  induction ds as [|d ds IH]; intros acc c rest Hds Hb Hc; cbn [app Xml.strtol_digits fold_left].
  - assert (H : (Xml.digit_val c <? 10) = false); [|by rewrite H]. revert Hc.
    enough (number_char c || negb (Xml.digit_val c <? 10) = true) as H by (intros E; rewrite E in H; by apply negb_true_iff in H). byte_check c.
  - apply Forall_cons in Hds as [Hd Hds]. unfold digit in Hd. assert (Hv : Xml.digit_val d = d - 48).
    { unfold Xml.digit_val. destruct (Z.leb_spec 48 d), (Z.leb_spec d 57); try lia. done. }
    rewrite Hv. destruct (Z.ltb_spec (d - 48) 10); [|lia]. by apply IH.
Qed.

Lemma fold_dec_nonneg ds acc : Forall digit ds → 0 <= acc → 0 <= fold_left (λ a c, a * 10 + (c - 48)) ds acc.
Proof.
  intros Hds. revert acc. induction Hds as [|d ds Hd _ IH]; intros acc Ha; cbn; [done|]. apply IH. unfold digit in Hd. lia.
Qed.

Lemma dec_nonneg ds : Forall digit ds → 0 <= dec ds.
Proof. intros Hds. by apply fold_dec_nonneg. Qed.

(** The text of a real number, as [strtod] reads it. *)
Definition real_text `{!Platform} (d : Z) (s : list Z) : Prop :=
  match s with c :: s' => digit c ∨ c = CH "-" | [] => False end ∧ Forall (λ c, number_char c = true) s ∧
  existsb real_mark (drop 1 s) = true ∧ ∀ rest, stops rest → strtod (s ++ rest) = d.

Lemma digit_number c : digit c → number_char c = true ∧ real_mark c = false ∧ (48 <=? c) && (c <=? 57) = true ∧ c ≠ CH "-".
Proof.
  intros Hd. assert (Hb : is_byte c) by (unfold digit, is_byte in *; lia). unfold digit in Hd.
  assert (Ht : (48 <=? c) && (c <=? 57) = true) by (apply andb_true_iff; split; apply Z.leb_le; lia). splits; [| |done|lia].
  - revert Ht. byte_implies c.
  - revert Ht. byte_implies c.
Qed.

Lemma digits_number ds : Forall digit ds → Forall (λ c, number_char c = true) ds ∧ existsb real_mark ds = false.
Proof.
  induction 1 as [|d ds Hd _ [IH1 IH2]]; [done|]. destruct (digit_number d Hd) as (H1 & H2 & _ & _). cbn. rewrite H2. by split; [constructor|].
Qed.

Lemma stops_number T : stops T → match T with c :: _ => number_char c = false | [] => False end.
Proof. destruct T as [|c T]; [done|]. intros [H Hb]. by apply stop_number. Qed.

Section Numbers.
Context `{!Platform}.

Lemma read_uint ds T : ds ≠ [] → Forall digit ds → dec ds < 2 ^ 32 → stops T → (∃ c ds', ds = c :: ds' ∧
  read_number (ds ++ T) c false = Ok (VUInt (dec ds))).
Proof.
  intros Hne Hds Hv HT. destruct ds as [|c ds]; [done|]. exists c, ds. split; [done|]. pose proof Hds as Hds'.
  apply Forall_cons in Hds' as [Hc _]. destruct (digit_number c Hc) as (_ & _ & _ & Hm). unfold read_number.
  rewrite (proj2 (Z.eqb_neq c _)) by done. unfold strtoul. destruct T as [|x T]; [done|]. pose proof (stops_number _ HT) as Hx.
  destruct HT as [_ Hb]. rewrite digits_read by done. cbn [mbind res_bind fst]. fold (dec (c :: ds)). pose proof (dec_nonneg _ Hds).
  rewrite u32_small by lia. do 2 f_equal. lia.
Qed.

Lemma read_int ds T : Forall digit ds → dec ds <= 2 ^ 31 → stops T →
  read_number (CH "-" :: ds ++ T) (CH "-") false = Ok (VInt (- dec ds)).
Proof.
  intros Hds Hv HT. unfold read_number, strtol. change (rd (CH "-" :: ds ++ T) 0) with (Ok (CH "-")). cbn [mbind res_bind].
  rewrite Z.eqb_refl. change (drop 1 (CH "-" :: ds ++ T)) with (ds ++ T). destruct T as [|x T]; [done|]. pose proof (stops_number _ HT) as Hx.
  destruct HT as [_ Hb]. rewrite digits_read by done. cbn [mbind res_bind fst]. fold (dec ds). pose proof (dec_nonneg _ Hds).
  do 2 f_equal. unfold Xml.clamp_long, i32. rewrite Z.min_r, Z.max_r by lia. rewrite Z.mod_small; lia.
Qed.

(** The digits that are written. *)
Lemma number_chars_dec fuel v acc : 0 <= v < 10 ^ Z.of_nat fuel → 
  Forall digit (numeral fuel 10 (λ d, d + 48) v) ∧
  (0 <= acc → ∃ k, 0 < k ∧ fold_left (λ a c, a * 10 + (c - 48)) (numeral fuel 10 (λ d, d + 48) v) acc = acc * k + v).
Proof.
  revert v. induction fuel as [|fuel IH]; intros v Hv; [cbn in Hv|].
  - replace v with 0 by lia. split; [constructor|]. intros _. exists 1. cbn. lia.
  - cbn [numeral]. destruct (Z.ltb_spec v 10).
    + split; [apply Forall_singleton; unfold digit; lia|]. intros _. exists 10. cbn. lia.
    + rewrite pow_S in Hv. destruct (IH (v / 10)) as [Hd Hk]; [Z.div_mod_to_equations; lia|]. split.
      * apply Forall_app. split; [done|]. apply Forall_singleton. unfold digit. Z.div_mod_to_equations; lia.
      * intros Ha. destruct (Hk Ha) as (k & Hk0 & E). exists (k * 10). split; [lia|]. rewrite fold_left_app, E. cbn.
        pose proof (Z.div_mod v 10). lia.
Qed.

Lemma numeral_nonempty fuel b f v : numeral (S fuel) b f v ≠ [].
Proof. cbn [numeral]. destruct (v <? b); [done|]. by destruct (numeral fuel b f (v / b)). Qed.

Lemma numeral_dec v : 0 <= v < 2 ^ 32 → Forall digit (number_chars v) ∧ dec (number_chars v) = v ∧ number_chars v ≠ [] ∧ (length (number_chars v) <= 20)%nat.
Proof.
  intros Hv. destruct (number_chars_dec 20 v 0) as [Hd Hk]; [change (10 ^ Z.of_nat 20) with 100000000000000000000; lia|].
  destruct (Hk ltac:(lia)) as (k & _ & E). splits; [done|unfold dec, number_chars; rewrite E; lia| |apply numeral_length].
  apply numeral_nonempty.
Qed.

Lemma format_one d t : directive_ok d = true → directive_text d = Some t → format_text [Conv d] = Some t.
Proof. intros Hok Ht. cbn [format_text piece_text]. rewrite Hok, Ht. cbn. by rewrite app_nil_r. Qed.

Lemma print_uint v : 0 <= v < 2 ^ 32 → print_number (BS "%u") (AInt v) = Ok (number_chars v).
Proof.
  intros Hv. destruct (numeral_dec v Hv) as (_ & _ & _ & Hl). unfold print_number, u__snprintf.
  rewrite (vsnprintf_stores penv (replicate 32 0) 32 [Conv (Directive [] None None [] (CH "u") (AInt v))] [] (number_chars v)).
  - cbn [mbind res_bind ret pbuf]. rewrite Nat2Z.id. by rewrite take_app_length.
  - apply format_one; [done|]. transitivity (Some (unsigned_text (Directive [] None None [] (CH "u") (AInt v)) (u32 v))); [done|].
    rewrite u32_small by done. transitivity (Some (replicate (Z.to_nat (0 - Z.of_nat (length (number_chars v)))) 32 ++ number_chars v)); [done|].
    by replace (Z.to_nat _) with O by lia.
  - rewrite length_replicate. lia.
  - lia.
  - done.
Qed.

Lemma print_int z : - 2 ^ 31 <= z < 2 ^ 31 →
  print_number (BS "%d") (AInt z) = Ok ((if z <? 0 then [CH "-"] else []) ++ number_chars (Z.abs z)).
Proof.
  intros Hz. destruct (numeral_dec (Z.abs z) ltac:(lia)) as (_ & _ & _ & Hl). unfold print_number, u__snprintf.
  set (text := (if z <? 0 then [CH "-"] else []) ++ number_chars (Z.abs z)).
  assert (Hlen : (length text <= 21)%nat) by (unfold text; rewrite length_app; destruct (z <? 0); cbn [length]; lia).
  rewrite (vsnprintf_stores penv (replicate 32 0) 32 [Conv (Directive [] None None [] (CH "d") (AInt z))] [] text).
  - cbn [mbind res_bind ret pbuf]. rewrite Nat2Z.id. by rewrite take_app_length.
  - apply format_one; [done|]. transitivity (Some (signed_text (Directive [] None None [] (CH "d") (AInt z)) (i32 z))); [done|].
    assert (Hi : i32 z = z) by (unfold i32; rewrite Z.mod_small; lia). rewrite Hi.
    transitivity (Some (replicate (Z.to_nat (0 - Z.of_nat (length text))) 32 ++ text)); [done|].
    by replace (Z.to_nat _) with O by lia.
  - rewrite length_replicate. lia.
  - lia.
  - done.
Qed.
(** What [sprintf] gives for a [double], and what is left of it. *)
Definition g_text (d : Z) : list Z := sprintf_double penv (BS "#*.*g") 0 16 d.

Lemma print_real d : (length (g_text d) < 32)%nat → print_number (BS "%#.16g") (ADouble d) = Ok (g_text d).
Proof.
  intros Hl. unfold print_number, u__snprintf, u__vsnprintf.
  assert (E1 : print_step penv 32 (POut (replicate 32 0) 0 0 [] 0, BS "%#.16g" ++ [0], [ADouble d])
    = (st ← write_nul (POut (replicate 32 0) 0 0 [] 0) (g_text d); Ok (inl (st, [0], [])))).
  { unfold g_text. lazy -[write_nul sprintf_double]. by destruct (write_nul _ _). }
  change (S (length (BS "%#.16g" ++ [0]))) with 8%nat. cbn [iterate]. rewrite E1. unfold write_nul. cbn [pbuf bp ret]. pose proof (Strftime.put_ok [] (g_text d ++ [0]) (replicate 32 0)) as Hput.
  cbn [app length] in Hput. change (Z.of_nat 0) with 0 in Hput. rewrite Hput by (rewrite length_app, length_replicate; cbn; lia). cbn [mbind res_bind].
  unfold set_pbuf. cbn [stored flag_exit]. rewrite !Z.add_0_l, u32_small by lia.
  set (b := (g_text d ++ [0]) ++ drop (length (g_text d ++ [0])) (replicate 32 0)).
  assert (E2 : print_step penv 32 (POut b (Z.of_nat (length (g_text d))) (Z.of_nat (length (g_text d))) [] 0, [0], [])
    = Ok (inr (POut b (Z.of_nat (length (g_text d))) (Z.of_nat (length (g_text d))) [] 0))).
  { unfold print_step. change (Strftime.format_span [0]) with (Ok ([] : list Z, [0])). cbn [mbind res_bind]. unfold write. cbn [Strftime.put pbuf bp ret mbind res_bind length].
    unfold set_pbuf. cbn [stored flag_exit]. change (Z.of_nat 0) with 0. rewrite !Z.add_0_r, u32_small by lia. done. }
  rewrite E2. cbn [mbind res_bind ret pbuf bp]. destruct (Z.ltb_spec (Z.of_nat (length (g_text d))) 32); [|lia].
  assert (Hb : b !! length (g_text d) = Some 0) by (unfold b; rewrite <- app_assoc; by rewrite lookup_app_r, Nat.sub_diag by lia).
  rewrite (wr_lookup _ _ _ _ Hb). cbn [mbind res_bind]. unfold set_pbuf. cbn [pbuf ret]. rewrite Nat2Z.id, take_insert_ge by lia.
  unfold b. rewrite <- app_assoc. by rewrite take_app_length.
Qed.
End Numbers.
