(* ===== verification/JsonFacts.v ===== *)
(** * JSON: the grammar is read into the store

    Trees are what the cells of the store stand for. [json] is the grammar of their texts, in which the place
    of a value in the document counts: the literals [null], [true] and [false] are only read from the third or
    fourth character on. The reader is proved to accept every text of the grammar, to build cells for its tree
    and to leave the cells that were there before as they were. *)

From stdpp Require Import gmap.
From S2P Require Import Prelude CType Memory Search Escape Printf HashMap Tokenizer UString Json JsonText.

#[warnings="-register-all"]
Inductive jtree :=
  | JNull
  | JBool (b : bool)
  | JInt (z : Z)
  | JUInt (z : Z)
  | JReal (d : Z)
  | JStr (s : list Z)
  | JArr (l : list jtree)
  | JObj (l : list (list Z * jtree)).

(** ** What a value stands for *)

Section Represents.
Context (h : gmap Z value) (lo hi : Z).

(** The cells below a value are at addresses from [lo] to [hi]. *)
Inductive repv : value → jtree → Prop :=
  | r_null : repv VNull JNull
  | r_bool b : repv (VBool b) (JBool b)
  | r_int z : - 2 ^ 31 <= z < 2 ^ 31 → repv (VInt z) (JInt z)
  | r_uint z : 0 <= z < 2 ^ 32 → repv (VUInt z) (JUInt z)
  | r_real d : repv (VReal d) (JReal d)
  | r_str s : repv (VString s) (JStr s)
  | r_arr ps l : reps ps l → repv (VArray ps) (JArr l)
  | r_obj m ps l : represents false bytes id m (list_to_map (zip (map fst l) ps)) → NoDup (map fst l) →
      reps ps (map snd l) → repv (VObject m) (JObj l)
with reps : list Z → list jtree → Prop :=
  | reps_nil : reps [] []
  | reps_cons p w ps t ts : lo <= p < hi → h !! p = Some w → repv w t → reps ps ts → reps (p :: ps) (t :: ts).
End Represents.

Scheme repv_mind := Minimality for repv Sort Prop with reps_mind := Minimality for reps Sort Prop.
Combined Scheme rep_ind from repv_mind, reps_mind.

Lemma rep_mono h h' lo hi lo' hi' : (∀ q, lo <= q < hi → h' !! q = h !! q) → lo' <= lo → hi <= hi' →
  (∀ v t, repv h lo hi v t → repv h' lo' hi' v t) ∧ (∀ ps ts, reps h lo hi ps ts → reps h' lo' hi' ps ts).
Proof.
  intros Hh Hlo Hhi. apply rep_ind; try (econstructor; eauto; lia).
  intros p w ps t ts Hp Hw _ IHw _ IHps. econstructor; [lia| |done|done]. by rewrite Hh.
Qed.

Lemma reps_length h lo hi ps ts : reps h lo hi ps ts → length ps = length ts.
Proof. induction 1; cbn; congruence. Qed.

Lemma reps_app h lo hi ps ts ps' ts' : reps h lo hi ps ts → reps h lo hi ps' ts' → reps h lo hi (ps ++ ps') (ts ++ ts').
Proof. induction 1; cbn; [done|]. intros H'. econstructor; eauto. Qed.

(** The order of the members does not matter. *)
Lemma reps_perm h lo hi (l l' : list (list Z * jtree)) : l ≡ₚ l' → ∀ ps, reps h lo hi ps (map snd l) → NoDup (map fst l) →
  ∃ ps', reps h lo hi ps' (map snd l') ∧ zip (map fst l) ps ≡ₚ zip (map fst l') ps'.
Proof.
  induction 1 as [|x l l' Hl IH|x y l|l1 l2 l3 H1 IH1 H2 IH2]; intros ps Hps Hn.
  - by exists ps.
  - cbn in *. inversion Hps as [|p w ps0 t ts Hp Hw Ht Hr]; subst. apply NoDup_cons in Hn as [_ Hn].
    destruct (IH _ Hr Hn) as (ps' & Hps' & E). exists (p :: ps'). split; [by econstructor|]. cbn. by rewrite E.
  - cbn in *. inversion Hps as [|p w ps0 t ts Hp Hw Ht Hr]; subst. inversion Hr as [|p2 w2 ps2 t2 ts2 Hp2 Hw2 Ht2 Hr2]; subst.
    exists (p2 :: p :: ps2). split; [econstructor; eauto; econstructor; eauto|]. cbn. apply perm_swap.
  - destruct (IH1 _ Hps Hn) as (ps2 & Hps2 & E2). destruct (IH2 _ Hps2) as (ps3 & Hps3 & E3); [by rewrite <- H1|].
    exists ps3. split; [done|]. by rewrite E2.
Qed.

Lemma rep_obj_perm h lo hi m l l' : l ≡ₚ l' → repv h lo hi (VObject m) (JObj l) → repv h lo hi (VObject m) (JObj l').
Proof.
  intros Hl H. inversion H as [| | | | | | |m' ps l0 Hm Hn Hps]; subst.
  destruct (reps_perm h lo hi l l' Hl ps Hps Hn) as (ps' & Hps' & E). econstructor; [|by rewrite <- Hl|exact Hps'].
  rewrite (list_to_map_proper (zip (map fst l) ps) (zip (map fst l') ps')) in Hm; [done| |done].
  rewrite fst_zip; [done|]. rewrite (reps_length _ _ _ _ _ Hps), !length_map. lia.
Qed.

(** ** The grammar *)

(** White space. *)
Definition blanks (bl : list Z) : Prop := spaces bl ∧ bytes bl.

Definition comma (first : bool) : list Z := if first then [] else [CH ","].

Section Grammar.
Context `{!Platform}.

Inductive json : nat → jtree → list Z → Prop :=
  | g_null p : (2 <= p)%nat → json p JNull (BS "null")
  | g_true p : (2 <= p)%nat → json p (JBool true) (BS "true")
  | g_false p : (3 <= p)%nat → json p (JBool false) (BS "false")
  | g_uint p ds : ds ≠ [] → Forall digit ds → dec ds < 2 ^ 32 → json p (JUInt (dec ds)) ds
  | g_int p ds : Forall digit ds → dec ds <= 2 ^ 31 → json p (JInt (- dec ds)) (CH "-" :: ds)
  | g_real p d x : real_text d x → json p (JReal d) x
  | g_str p x : (1 <= p)%nat → str_ok x → json p (JStr x) (quoted x)
  | g_arr p l x : items true (p + 1) l x → json p (JArr l) ([CH "["] ++ x ++ [CH "]"])
  | g_obj p l l' x : l ≡ₚ l' → NoDup (map fst l') → members true (p + 1) l' x → json p (JObj l) ([CH "{"] ++ x ++ [CH "}"])
with items : bool → nat → list jtree → list Z → Prop :=
  | i_nil first p bl : blanks bl → items first p [] bl
  | i_cons (first : bool) p bl bl' t l x y : blanks bl → blanks bl' →
      json (p + length (bl ++ comma first ++ bl')) t x → items false (p + length (bl ++ comma first ++ bl' ++ x)) l y →
      items first p (t :: l) (bl ++ comma first ++ bl' ++ x ++ y)
with members : bool → nat → list (list Z * jtree) → list Z → Prop :=
  | m_nil first p bl : blanks bl → members first p [] bl
  | m_cons (first : bool) p bl bl' k b1 b2 t l x y : blanks bl → blanks bl' → str_ok k → blanks b1 → blanks b2 →
      json (p + length (bl ++ comma first ++ bl' ++ quoted k ++ b1 ++ [CH ":"] ++ b2)) t x →
      members false (p + length (bl ++ comma first ++ bl' ++ quoted k ++ b1 ++ [CH ":"] ++ b2 ++ x)) l y →
      members first p ((k, t) :: l) (bl ++ comma first ++ bl' ++ quoted k ++ b1 ++ [CH ":"] ++ b2 ++ x ++ y).

Scheme json_mind := Minimality for json Sort Prop with items_mind := Minimality for items Sort Prop
  with members_mind := Minimality for members Sort Prop.
Combined Scheme json_ind' from json_mind, items_mind, members_mind.
End Grammar.

(** ** Reading *)

Section Reading.
Context `{PL : !Platform} (behind : list Z).
Hypothesis granted_pos : ∀ n, 0 < n → 0 < granted n.

Lemma next_at pre c T : next (at_text pre (c :: T) behind) = Ok (at_text (pre ++ [c]) T behind, c).
Proof.
  unfold next, at_text. cbn [s end_ str]. destruct (Z.leb_spec (Z.of_nat (length pre + length (c :: T))) (Z.of_nat (length pre))); [cbn in *; lia|].
  cbn [app]. rewrite rd_nth_app. cbn [mbind res_bind]. unfold set_s. cbn [str end_]. do 3 f_equal; [by rewrite <- app_assoc|lengths|lengths].
Qed.

Lemma back_at pre c T : back (at_text (pre ++ [c]) T behind) = at_text pre (c :: T) behind.
Proof. unfold back, set_s, at_text. cbn [s str end_]. f_equal; [by rewrite <- app_assoc|lengths|lengths]. Qed.

Lemma skip_token_at tk pre T : (length tk <= length pre)%nat →
  skipToken tk (at_text pre (tk ++ T) behind) = Ok (at_text (pre ++ tk) T behind, true).
Proof.
  intros Hl. unfold skipToken, at_text. cbn [s str end_]. destruct (Z.leb_spec (Z.of_nat (length tk)) (Z.of_nat (length pre))); [|lia].
  rewrite Nat2Z.id, drop_app_length, <- app_assoc.
  assert (E : ∀ r, memequal (tk ++ r) tk (length tk) = Ok true) by (intros r; clear; induction tk as [|c tk IH]; cbn; [by destruct r|by rewrite Z.eqb_refl]).
  rewrite E. cbn [mbind res_bind]. unfold set_s. cbn [str end_]. do 3 f_equal; [by rewrite <- app_assoc|lengths|lengths].
Qed.

Lemma skip_number_at pre run T : Forall (λ c, number_char c = true) run → stops T →
  skipNumber (at_text pre (run ++ T) behind) = Ok (at_text (pre ++ run) T behind, existsb real_mark run, true).
Proof.
  intros Hrun HT. unfold skipNumber, at_text. cbn [s str end_]. rewrite <- app_assoc, skip_number_run; [|done| |].
  - cbn [mbind res_bind orb]. unfold set_s. cbn [str end_]. do 4 f_equal; [by rewrite <- app_assoc|lengths|lengths].
  - destruct T as [|c T]; [done|]. lengths.
  - destruct T as [|c T]; [done|]. exact (stops_number (c :: T) HT).
Qed.

(** The blanks in front of a character. *)
Lemma read_start pre bl c T : spaces bl → u__isspace c = false →
  skipSpaces (at_text pre (bl ++ c :: T) behind) = Ok (at_text (pre ++ bl) (c :: T) behind).
Proof. intros Hbl Hc. by apply skip_blanks_at. Qed.

(** What a call leaves alone. *)
Definition grows (h h' : store) (but : list Z) : Prop :=
  fresh h <= fresh h' ∧ ∀ q, q < fresh h → q ∉ but → cells h' !! q = cells h !! q.

Lemma grows_refl h but : grows h h but.
Proof. done. Qed.

Lemma grows_trans h1 h2 h3 but : grows h1 h2 but → grows h2 h3 but → grows h1 h3 but.
Proof. intros [H1 G1] [H2 G2]. split; [lia|]. intros q Hq Hb. rewrite G2, G1 by (done || lia). done. Qed.

Lemma grows_weaken h h' but but' : but ⊆ but' → grows h h' but → grows h h' but'.
Proof. intros Hb [H G]. split; [done|]. intros q Hq Hq'. apply G; [done|]. set_solver. Qed.

Lemma grows_set h a v but : a ∈ but → grows h (set_cell a v h) but.
Proof. intros Ha. split; [done|]. intros q Hq Hb. cbn. apply lookup_insert_ne. by intros ->. Qed.

Lemma grows_new h v but : grows h (new_cell v h).2 but.
Proof. split; [cbn; lia|]. intros q Hq Hb. cbn. apply lookup_insert_ne. lia. Qed.

(** Changes of cells that did not exist. *)
Lemma grows_old h h' x but : fresh h <= x → grows h h' (x :: but) → grows h h' but.
Proof. intros Hx [H G]. split; [done|]. intros q Hq Hb. apply G; [done|]. apply not_elem_of_cons. split; [lia|done]. Qed.

Lemma grows_item h h' v but : grows (new_cell v h).2 h' [fresh h] → grows h h' but.
Proof.
  intros H. apply (grows_weaken _ _ []); [set_solver|]. apply (grows_old _ _ (fresh h)); [lia|].
  eapply grows_trans; [|exact H]. apply grows_new.
Qed.

(** Values keep their trees when only cells below them change. *)
Lemma rep_kept h h' but lo lo' : grows h h' but → Forall (λ q, q < lo) but → lo' <= lo →
  (∀ v t, repv (cells h) lo (fresh h) v t → repv (cells h') lo' (fresh h') v t) ∧
  (∀ ps ts, reps (cells h) lo (fresh h) ps ts → reps (cells h') lo' (fresh h') ps ts).
Proof.
  intros [Hf Hg] Hb Hlo. apply rep_mono; [|done|done]. intros q Hq. apply Hg; [lia|]. intros Hin.
  rewrite Forall_forall in Hb. specialize (Hb _ Hin). lia.
Qed.

(** The new cell of an element, and the cell it is noted in. *)
Lemma grows_other h h' q but : grows h h' but → q < fresh h → q ∉ but → cells h' !! q = cells h !! q.
Proof. intros [_ H]. apply H. Qed.

Lemma deref_some h a v : cells h !! a = Some v → Json.deref a h = Ok v.
Proof. intros H. unfold deref. by rewrite H. Qed.

(** The text [x] of a value, with a text behind it that is [ok], is read as [t]. *)
Definition P_at (ok : list Z → Prop) (p : nat) (t : jtree) (x : list Z) : Prop := ∀ n pre bl T a h,
  spaces bl → length (pre ++ bl) = p → ok T → 0 < fresh h → a < fresh h → Z.of_nat (length x) < 2 ^ 32 →
  (2 * length x + 1 <= n)%nat →
  ∃ h' v, readValue n (at_text pre (bl ++ x ++ T) behind) a h = Ok (at_text (pre ++ bl ++ x) T behind, h', true) ∧
    cells h' !! a = Some v ∧ repv (cells h') (fresh h) (fresh h') v t ∧ grows h h' [a].

Definition P_value : nat → jtree → list Z → Prop := P_at stops.

Definition P_items (first : bool) (p : nat) (l : list jtree) (x : list Z) : Prop := ∀ n pre T a h ps0,
  length pre = p → 0 < fresh h → a < fresh h → cells h !! a = Some (VArray ps0) → Z.of_nat (length x) < 2 ^ 32 →
  (2 * length x + 2 <= n)%nat →
  ∃ h' ps, readArray n (at_text pre (x ++ CH "]" :: T) behind) a h = Ok (at_text (pre ++ x ++ [CH "]"]) T behind, h', true) ∧
    cells h' !! a = Some (VArray (ps0 ++ ps)) ∧ reps (cells h') (fresh h) (fresh h') ps l ∧ grows h h' [a].

Definition P_members (first : bool) (p : nat) (l : list (list Z * jtree)) (x : list Z) : Prop := ∀ n pre T a name h m g,
  length pre = p → pre ≠ [] → 0 < fresh h → a < fresh h → name < fresh h → a ≠ name →
  cells h !! a = Some (VObject m) → cells h !! name = Some VNull → represents false bytes id m g →
  Forall (λ n, address n < fresh h) (nodes m) → Forall (λ k, g !! k = None) (map fst l) → NoDup (map fst l) →
  Z.of_nat (length x) < 2 ^ 32 → (2 * length x + 2 <= n)%nat →
  ∃ h' m' ps, readObject n (at_text pre (x ++ CH "}" :: T) behind) a name h = Ok (at_text (pre ++ x ++ [CH "}"]) T behind, h', true) ∧
    cells h' !! a = Some (VObject m') ∧ cells h' !! name = Some VNull ∧
    represents false bytes id m' (list_to_map (zip (map fst l) ps) ∪ g) ∧
    reps (cells h') (fresh h) (fresh h') ps (map snd l) ∧ grows h h' [a; name].

(** A value of one cell. *)
Lemma read_cell p t x v (Ht : ∀ h lo hi, repv h lo hi v t) :
  (∀ n pre bl T a h, spaces bl → length (pre ++ bl) = p → stops T → Z.of_nat (length x) < 2 ^ 32 →
    readValue (S n) (at_text pre (bl ++ x ++ T) behind) a h = Ok (at_text (pre ++ bl ++ x) T behind, set_cell a v h, true)) →
  P_value p t x.
Proof.
  intros H n pre bl T a h Hbl Hp HT Hf Ha Hx Hn. destruct n as [|n]; [lia|]. exists (set_cell a v h), v. splits.
  - by apply H.
  - apply lookup_insert_eq.
  - apply Ht.
  - apply grows_set. by left.
Qed.

(** The first character is read and decides. *)
Ltac decide_char :=
  cbn [readValue app]; rewrite read_start by done; cbn [mbind res_bind]; rewrite next_at; cbn [mbind res_bind];
  repeat match goal with
  | |- context [?a =? ?b] => let v := eval vm_compute in (a =? b) in progress change (a =? b) with v; cbn [orb andb]
  | |- context [?a <=? ?b] => let v := eval vm_compute in (a <=? b) in progress change (a <=? b) with v; cbn [orb andb]
  end; cbv beta iota.

Lemma read_null p : (2 <= p)%nat → P_value p JNull (BS "null").
Proof.
  intros Hp. apply (read_cell p _ _ VNull); [constructor|]. intros n pre bl T a h Hbl Hl HT _. decide_char.
  pose proof (skip_token_at (BS "ull") ((pre ++ bl) ++ [CH "n"]) T) as Hs. cbn [app] in Hs. rewrite Hs by lengths. cbn [mbind res_bind fst snd].
  by rewrite <- !app_assoc.
Qed.

Lemma read_bool p (b : bool) : (if b then 2 <= p else 3 <= p)%nat → P_value p (JBool b) (if b then BS "true" else BS "false").
Proof.
  intros Hp. apply (read_cell p _ _ (VBool b)); [constructor|]. intros n pre bl T a h Hbl Hl HT _. destruct b.
  - decide_char. pose proof (skip_token_at (BS "rue") ((pre ++ bl) ++ [CH "t"]) T) as Hs. cbn [app] in Hs. rewrite Hs by lengths.
    cbn [mbind res_bind fst snd]. by rewrite <- !app_assoc.
  - decide_char. pose proof (skip_token_at (BS "alse") ((pre ++ bl) ++ [CH "f"]) T) as Hs. cbn [app] in Hs. rewrite Hs by lengths.
    cbn [mbind res_bind fst snd]. by rewrite <- !app_assoc.
Qed.

(** Numbers: the first character is a digit or a minus. *)
Lemma number_first c : digit c ∨ c = CH "-" →
  u__isspace c = false ∧ (c =? 0) = false ∧ (c =? CH "n") = false ∧ (c =? CH "t") || (c =? CH "f") = false ∧
  ((CH "0" <=? c) && (c <=? CH "9")) || (c =? CH "-") = true.
Proof.
  intros [Hd| ->]; [|done]. assert (Hb : is_byte c) by (unfold digit, is_byte in *; lia).
  destruct (digit_number c Hd) as (Hn & _ & Hr & _). rewrite Hr. unfold digit in Hd.
  splits; try (apply Z.eqb_neq; lia); [|apply orb_false_iff; split; apply Z.eqb_neq; lia|done].
  revert Hn. clear -Hb Hd. assert (Hr : (48 <=? c) && (c <=? 57) = true) by (apply andb_true_iff; split; apply Z.leb_le; lia).
  intros _. revert Hr. byte_implies c.
Qed.

Lemma read_number_value p t c x v breal (Ht : ∀ h lo hi, repv h lo hi v t) : digit c ∨ c = CH "-" →
  Forall (λ c, number_char c = true) x → existsb real_mark x = breal →
  (∀ T, stops T → read_number (c :: x ++ T) c breal = Ok v) → P_value p t (c :: x).
Proof.
  intros Hc Hx Hr Hv. apply (read_cell p _ _ v); [done|]. intros n pre bl T a h Hbl Hl HT _. cbn [readValue app].
  destruct (number_first c Hc) as (Hsp & E0 & En & Etf & Edig). rewrite read_start by done. cbn [mbind res_bind].
  rewrite next_at. cbn [mbind res_bind]. rewrite E0, En, Etf, Edig. cbn [negb]. rewrite skip_number_at by done. cbn [mbind res_bind]. rewrite Hr.
  assert (Hstr : drop (Z.to_nat (s (at_text (pre ++ bl) (c :: x ++ T) behind))) (str (at_text (((pre ++ bl) ++ [c]) ++ x) T behind))
    = c :: x ++ T ++ behind).
  { unfold at_text. cbn [s str]. rewrite Nat2Z.id, <- !app_assoc, (app_assoc pre bl), drop_app_length. done. }
  rewrite Hstr, Hv by (by destruct T). cbn [mbind res_bind]. by rewrite <- !app_assoc.
Qed.

Lemma read_uint_value p ds : ds ≠ [] → Forall digit ds → dec ds < 2 ^ 32 → P_value p (JUInt (dec ds)) ds.
Proof.
  intros Hne Hds Hv. pose proof (dec_nonneg ds Hds) as Hnn. destruct (digits_number ds Hds) as [Hn Hm].
  destruct ds as [|c ds]; [done|]. pose proof Hds as [Hdc _]%Forall_cons. apply Forall_cons in Hn as [_ Hn].
  cbn in Hm. apply orb_false_iff in Hm as [_ Hm].
  apply (read_number_value p _ c ds (VUInt (dec (c :: ds))) false); [intros; by constructor|by left|done|done|].
  intros T HT. destruct (read_uint (c :: ds) T) as (c' & ds' & [= <- <-] & Hr); done.
Qed.

Lemma read_int_value p ds : Forall digit ds → dec ds <= 2 ^ 31 → P_value p (JInt (- dec ds)) (CH "-" :: ds).
Proof.
  intros Hds Hv. destruct (digits_number ds Hds) as [Hn Hm]. pose proof (dec_nonneg ds Hds) as Hnn.
  apply (read_number_value p _ _ ds (VInt (- dec ds)) false); [intros; constructor; lia|by right|done|done|].
  intros T HT. by apply read_int.
Qed.

Lemma read_real_value p d x : real_text d x → P_value p (JReal d) x.
Proof.
  intros (Hc & Hn & Hm & Hv). destruct x as [|c x]; [done|]. apply Forall_cons in Hn as [_ Hn].
  apply (read_number_value p _ c x (VReal d) true); [intros; constructor|done|done|done|].
  intros T HT. unfold read_number. change (c :: x ++ T) with ((c :: x) ++ T). by rewrite Hv.
Qed.

Lemma read_str_at n pre bl x T a h : (1 <= n)%nat → spaces bl → pre ++ bl ≠ [] → str_ok x → Z.of_nat (length (quoted x)) < 2 ^ 32 →
  readValue n (at_text pre (bl ++ quoted x ++ T) behind) a h = Ok (at_text (pre ++ bl ++ quoted x) T behind, set_cell a (VString x) h, true).
Proof.
  intros Hn Hbl Hpre Hx Hlen. destruct n as [|n]; [lia|]. unfold quoted in *. rewrite <- !app_assoc. decide_char.
  rewrite (read_string_ok (pre ++ bl) x T behind Hx); [|done|lengths].
  cbn [mbind res_bind fst snd]. unfold quoted. by rewrite <- !app_assoc.
Qed.

Lemma read_str_value p x : (1 <= p)%nat → str_ok x → P_value p (JStr x) (quoted x).
Proof.
  intros Hp Hx. apply (read_cell p _ _ (VString x)); [constructor|]. intros n pre bl T a h Hbl Hl HT Hlen.
  apply read_str_at; try done; [lia|]. intros E. rewrite E in Hl. cbn in Hl. lia.
Qed.

(** *** Arrays and objects *)

(** The first character of a value. *)
Definition first_ok (x : list Z) : Prop :=
  match x with
  | c :: _ => u__isspace c = false ∧ (c =? 0) = false ∧ (c =? CH ",") = false ∧ (c =? CH "]") = false ∧ (c =? CH "}") = false
  | [] => False
  end.

Lemma value_first p t x : json p t x → first_ok x.
Proof.
  assert (Hd : ∀ c x, digit c ∨ c = CH "-" → first_ok (c :: x)).
  { intros c z Hc. destruct (number_first c Hc) as (H1 & H2 & _). unfold digit in Hc. cbn. splits; try done; apply Z.eqb_neq; lia. }
  destruct 1 as [| | |p ds Hne Hds _| |p d y (Hc & _)| | |]; try (cbn; splits; done).
  - destruct ds as [|c ds]; [done|]. apply Forall_cons in Hds as [Hc _]. apply Hd. by left.
  - destruct y as [|c y]; [done|]. by apply Hd.
Qed.

Lemma stops_blanks bl T : blanks bl → stops T → stops (bl ++ T).
Proof.
  intros [Hs Hb] HT. destruct bl as [|c bl]; [done|]. apply Forall_cons in Hs as [Hs _], Hb as [Hb _]. cbn. split; [|done].
  unfold stop. by rewrite Hs.
Qed.

Lemma items_stop p l y T : items false p l y → stops T → stops (y ++ T).
Proof. inversion 1; intros HT; rewrite <- ?app_assoc; by apply stops_blanks. Qed.

Lemma members_stop p l y T : members false p l y → stops T → stops (y ++ T).
Proof. inversion 1; intros HT; rewrite <- ?app_assoc; by apply stops_blanks. Qed.

(** What is in front of an element: the comma is read, another character is given back. *)
Lemma separator_at (first : bool) pre bl bl' x R : blanks bl → blanks bl' → first_ok x →
  ∃ t0 t1 c1 pre0 bl0, skipSpaces (at_text pre (bl ++ comma first ++ bl' ++ x ++ R) behind) = Ok t0 ∧ next t0 = Ok (t1, c1) ∧
    (c1 =? 0) = false ∧ (c1 =? CH "]") = false ∧ (c1 =? CH "}") = false ∧
    (if c1 =? CH "," then t1 else back t1) = at_text pre0 (bl0 ++ x ++ R) behind ∧ spaces bl0 ∧
    pre0 ++ bl0 = pre ++ bl ++ comma first ++ bl'.
Proof.
  intros [Hbl _] [Hbl' _] Hx. destruct x as [|c x]; [done|]. destruct Hx as (Hc & H0 & Hcm & Hb & Hb').
  destruct first; cbn [comma app].
  - exists (at_text (pre ++ bl ++ bl') (c :: x ++ R) behind), (at_text ((pre ++ bl ++ bl') ++ [c]) (x ++ R) behind), c, (pre ++ bl ++ bl'), [].
    splits; try done.
    + rewrite app_assoc. apply read_start; [|done]. by apply Forall_app.
    + apply next_at.
    + rewrite Hcm. apply back_at.
    + constructor.
    + apply app_nil_r.
  - exists (at_text (pre ++ bl) (CH "," :: bl' ++ c :: x ++ R) behind), (at_text ((pre ++ bl) ++ [CH ","]) (bl' ++ c :: x ++ R) behind), (CH ","), ((pre ++ bl) ++ [CH ","]), bl'.
    splits; try done.
    + by apply read_start.
    + apply next_at.
    + by rewrite <- !app_assoc.
Qed.

Lemma read_array p l x : P_items true (p + 1) l x → P_at (λ _, True) p (JArr l) ([CH "["] ++ x ++ [CH "]"]).
Proof.
  intros IH n pre bl T a h Hbl Hp HT Hf Ha Hx Hn. destruct n as [|n]; [lia|]. rewrite <- !app_assoc. decide_char.
  destruct (IH n ((pre ++ bl) ++ [CH "["]) T a (set_cell a (VArray []) h) []) as (h' & ps & E & Ec & Er & Eg); try (lengths || done).
  - apply lookup_insert_eq.
  - exists h', (VArray ps). splits.
    + rewrite E. by rewrite <- !app_assoc.
    + done.
    + by constructor.
    + eapply grows_trans; [|done]. apply grows_set. by left.
Qed.

Lemma items_nil first p bl : blanks bl → P_items first p [] bl.
Proof.
  intros [Hbl _] n pre T a h ps0 Hp Hf Ha Hc Hx Hn. destruct n as [|n]; [lia|]. cbn [readArray].
  rewrite read_start by done. cbn [mbind res_bind]. rewrite next_at. cbn [mbind res_bind].
  exists h, []. rewrite app_nil_r. splits; [|done|constructor|done]. by rewrite <- app_assoc.
Qed.

Lemma items_cons (first : bool) p bl bl' t l x y : blanks bl → blanks bl' → json (p + length (bl ++ comma first ++ bl')) t x →
  P_value (p + length (bl ++ comma first ++ bl')) t x →
  items false (p + length (bl ++ comma first ++ bl' ++ x)) l y → P_items false (p + length (bl ++ comma first ++ bl' ++ x)) l y →
  P_items first p (t :: l) (bl ++ comma first ++ bl' ++ x ++ y).
Proof.
  intros Hbl Hbl' Hj IHx Hi IHy n pre T a h ps0 Hp Hf Ha Hc Hx Hn. destruct n as [|n]; [lia|].
  pose proof (value_first _ _ _ Hj) as Hfx.
  destruct (separator_at first pre bl bl' x (y ++ CH "]" :: T)) as (t0 & t1 & c1 & pre0 & bl0 & E0 & E1 & Ec0 & Ec1 & Ec2 & Eb & Hbl0 & Epre); try done.
  cbn [readArray]. rewrite <- !app_assoc, E0. cbn [mbind res_bind]. rewrite E1. cbn [mbind res_bind].
  rewrite Ec0, Ec1. cbn [orb new_cell]. rewrite Eb.
  set (item := fresh h). set (h0 := Store (<[item := VNull]> (cells h)) (item + 1)).
  assert (Hlx : (1 <= length x)%nat) by (destruct x; [done|cbn; lia]).
  destruct (IHx n pre0 bl0 (y ++ CH "]" :: T) item h0) as (h1 & v & Er & Ecell & Erep & Egr); try done.
  { rewrite Epre. lengths. }
  { by apply (items_stop _ _ _ _ Hi). }
  { cbn. lia. } { cbn. lia. } { lengths. } { lengths. }
  rewrite Er. cbn [mbind res_bind].
  assert (Hia : item ∉ [a]) by (rewrite list_elem_of_singleton; unfold item; lia).
  assert (Ha1 : cells h1 !! a = Some (VArray ps0)).
  { rewrite (grows_other _ _ _ _ Egr); [|cbn; lia|rewrite list_elem_of_singleton; unfold item; lia]. cbn. by rewrite lookup_insert_ne by (unfold item; lia). }
  unfold deref. rewrite Ha1. cbn [mbind res_bind]. set (h1' := set_cell a (VArray (ps0 ++ [item])) h1).
  assert (Hf1 : item + 1 <= fresh h1) by apply Egr.
  destruct (IHy n (pre0 ++ bl0 ++ x) T a h1' (ps0 ++ [item])) as (h2 & ps & Er2 & Ec & Erep2 & Egr2); try (cbn; lia).
  { rewrite app_assoc, Epre. lengths. }
  { apply lookup_insert_eq. } { lengths. } { lengths. }
  assert (Hg : grows h1 h2 [a]) by (eapply grows_trans; [|exact Egr2]; apply grows_set; by left).
  exists h2, (item :: ps). splits.
  - rewrite Er2, (app_assoc pre0), Epre. by rewrite <- !app_assoc.
  - by rewrite Ec, <- app_assoc.
  - econstructor; [destruct Hg; lia| | |].
    + rewrite (grows_other _ _ _ _ Hg); [done|lia|done].
    + apply (proj1 (rep_kept h1 h2 [a] (item + 1) item Hg ltac:(repeat constructor; unfold item; lia) ltac:(lia))), Erep.
    + apply (proj2 (rep_kept h2 h2 [] (fresh h1) item (grows_refl _ _) ltac:(constructor) ltac:(lia))), Erep2.
  - apply (grows_trans h h1); [|done]. by apply (grows_item _ _ VNull).
Qed.
Lemma insert_new h a m g k item : cells h !! a = Some (VObject m) → represents false bytes id m g →
  Forall (λ n, address n < fresh h) (nodes m) → 0 < fresh h → bytes k → g !! k = None →
  ∃ m', insert_member a k item h = Ok (Store (<[a := VObject m']> (cells h)) (fresh h + 1)) ∧
    represents false bytes id m' (<[k := item]> g) ∧ Forall (λ n, address n < fresh h + 1) (nodes m').
Proof.
  intros Ha (Hic & Hm & Hg) Haddr Hf Hk Hnone. pose proof Hm as [Ht Hlen]. unfold insert_member, deref. rewrite Ha. cbn [mbind res_bind].
  destruct (lookup_map (ok := bytes) (canon := id) m Hic Hm k Hk) as (i0 & h0 & p0 & E0 & [(pre & n & post & _ & _ & _ & _ & E & _)|[-> _]]).
  { rewrite Hg in E. unfold id in E. congruence. }
  destruct (lookup_spec (ok := bytes) (canon := id) m k Ht Hic Hk) as (i & b & hh & p & E & Hb & Hh & Hi & Hcase). rewrite E in *.
  injection E0 as -> _ _. destruct Hcase as [(pre & n & post & _ & _ & Hne & _)|[_ Hnew]]; [done|].
  cbn [mbind res_bind set_cursor node]. change (negb (0 =? 0)) with false. cbn [mbind res_bind new_node]. unfold T_insertAfterFind.
  cbn [node set_cursor]. change (0 =? 0) with true. cbn [negb].
  destruct (insertAfterFind_spec (ok := bytes) (canon := id) m i b hh 0 (fresh h) k item Ht Hic Hk Hb Hh Hi Hnew ltac:(lia)) as (m' & Ei & Ht' & Hn' & Hic' & Hl').
  { intros Hin. apply list_elem_of_fmap in Hin as (n & En & Hin). rewrite Forall_forall in Haddr. specialize (Haddr _ Hin). lia. }
  rewrite Ei. cbn [mbind res_bind]. exists m'. splits; [done| |].
  - split; [done|]. split; [split; [done|]|].
    + rewrite Hl', Hlen, Hn'. cbn [length]. unfold u32. rewrite Zplus_mod_idemp_l. f_equal. lia.
    + destruct (to_map_cons (ok := bytes) (canon := id) m' _ _ Ht' Hn') as [-> _]. by rewrite <- Hg.
  - rewrite Hn'. constructor; [cbn; lia|]. eapply Forall_impl; [exact Haddr|]. cbn. lia.
Qed.

(** A cell without elements is cleared in one step. *)
Lemma clear_leaf n h a v : cells h !! a = Some v → elements v = [] → clear (S n) a h = Ok (set_cell a VNull h).
Proof. intros H He. cbn [clear]. unfold deref. rewrite H. cbn [mbind res_bind]. by rewrite He. Qed.

(** A member is put in and the cell of the name cleared. *)
Lemma put_member h a name k item m g : cells h !! a = Some (VObject m) → cells h !! name = Some (VString k) → a ≠ name →
  represents false bytes id m g → Forall (λ n, address n < fresh h) (nodes m) → 0 < fresh h → bytes k → g !! k = None →
  ∃ h2 h3 m', insert_member a k item h = Ok h2 ∧ clear (depth h2) name h2 = Ok h3 ∧
    cells h3 !! a = Some (VObject m') ∧ cells h3 !! name = Some VNull ∧ represents false bytes id m' (<[k := item]> g) ∧
    Forall (λ n, address n < fresh h3) (nodes m') ∧ grows h h3 [a; name].
Proof.
  intros Ha Hn Hne Hm Had Hf Hk Hg. destruct (insert_new h a m g k item Ha Hm Had Hf Hk Hg) as (m' & E & Hm' & Had').
  eexists _, _, m'. split; [exact E|]. split; [eapply (clear_leaf _ _ _ (VString k)); [|done]|].
  { cbn. by rewrite lookup_insert_ne. }
  splits; [|apply lookup_insert_eq|done|done|].
  - cbn. rewrite lookup_insert_ne by done. apply lookup_insert_eq.
  - split; [cbn; lia|]. intros q _ Hq. cbn. rewrite !not_elem_of_cons in Hq. by rewrite !lookup_insert_ne by naive_solver.
Qed.

Lemma read_object p l l' x : l ≡ₚ l' → NoDup (map fst l') → P_members true (p + 1) l' x →
  P_at (λ _, True) p (JObj l) ([CH "{"] ++ x ++ [CH "}"]).
Proof.
  intros Hl Hnd IH n pre bl T a h Hbl Hp HT Hf Ha Hx Hn. destruct n as [|n]; [lia|]. rewrite <- !app_assoc. decide_char.
  cbn [new_cell set_cell cells fresh]. set (m := new_table granted false 53). set (name := fresh h).
  set (h0 := Store (<[name := VNull]> (<[a := VObject m]> (cells h))) (name + 1)).
  destruct (IH n ((pre ++ bl) ++ [CH "{"]) T a name h0 m ∅) as (h1 & m' & ps & E & Ea & En & Em & Er & Eg); try (lengths || done || (cbn; lia)).
  { by destruct (pre ++ bl). }
  { cbn. rewrite lookup_insert_ne by (unfold name; lia). apply lookup_insert_eq. }
  { apply lookup_insert_eq. }
  { apply new_table_represents, granted_pos. lia. }
  { unfold m, nodes. cbn. rewrite concat_replicate_nil. constructor. }
  { apply Forall_forall. intros k _. apply lookup_empty. }
  rewrite E. cbn [mbind res_bind fst snd]. unfold destroy, depth. rewrite (clear_leaf _ _ _ _ En) by done. cbn [mbind res_bind].
  set (h2 := remove_cell name (set_cell name VNull h1)).
  assert (Hg2 : grows h1 h2 [name]).
  { split; [done|]. intros q _ Hq. apply not_elem_of_cons in Hq as [Hq _]. cbn. by rewrite lookup_delete_ne, lookup_insert_ne by done. }
  exists h2, (VObject m'). splits.
  - by rewrite <- !app_assoc.
  - cbn. rewrite lookup_delete_ne, lookup_insert_ne by (unfold name; lia). done.
  - apply (rep_obj_perm _ _ _ _ l'); [done|]. rewrite (right_id_L ∅ (∪)) in Em. econstructor; [exact Em|done|].
    apply (proj2 (rep_kept h1 h2 [name] (fresh h0) (fresh h) Hg2 ltac:(repeat constructor; cbn; lia) ltac:(cbn; unfold name; lia))), Er.
  - apply (grows_old _ _ name); [unfold name; lia|]. apply (grows_trans h h0).
    + split; [cbn; unfold name; lia|]. intros q Hq Hb. cbn. rewrite !lookup_insert_ne; [done|set_solver|set_solver].
    + apply (grows_trans h0 h1); [apply (grows_weaken _ _ [a; name]); [set_solver|done]|].
      apply (grows_weaken _ _ [name]); [set_solver|done].
Qed.

Lemma members_nil first p bl : blanks bl → P_members first p [] bl.
Proof.
  intros [Hbl _] n pre T a name h m g Hp Hpre Hf Ha Hname Hne Hca Hcn Hm Had _ _ Hx Hn. destruct n as [|n]; [lia|]. cbn [readObject].
  rewrite read_start by done. cbn [mbind res_bind]. rewrite next_at. cbn [mbind res_bind].
  exists h, m, []. splits; [by rewrite <- app_assoc|done|done| |constructor|done].
  cbn. by rewrite (left_id_L ∅ (∪)).
Qed.
Lemma members_cons (first : bool) p bl bl' k b1 b2 t l x y : blanks bl → blanks bl' → str_ok k → blanks b1 → blanks b2 →
  json (p + length (bl ++ comma first ++ bl' ++ quoted k ++ b1 ++ [CH ":"] ++ b2)) t x →
  P_value (p + length (bl ++ comma first ++ bl' ++ quoted k ++ b1 ++ [CH ":"] ++ b2)) t x →
  members false (p + length (bl ++ comma first ++ bl' ++ quoted k ++ b1 ++ [CH ":"] ++ b2 ++ x)) l y →
  P_members false (p + length (bl ++ comma first ++ bl' ++ quoted k ++ b1 ++ [CH ":"] ++ b2 ++ x)) l y →
  P_members first p ((k, t) :: l) (bl ++ comma first ++ bl' ++ quoted k ++ b1 ++ [CH ":"] ++ b2 ++ x ++ y).
Proof.
  intros Hbl Hbl' Hk [Hb1 _] [Hb2 _] Hj IHx Hi IHy n pre T a name h m g Hp Hpre Hf Ha Hname Hne Hca Hcn Hm Had Hnone Hnd Hx Hn.
  cbn [map fst] in Hnone, Hnd. apply Forall_cons in Hnone as [Hgk Hnone]. apply NoDup_cons in Hnd as [Hkl Hnd]. cbn [fst] in Hgk.
  destruct n as [|n]; [lia|].
  set (U := b1 ++ [CH ":"] ++ b2 ++ x ++ y ++ CH "}" :: T).
  destruct (separator_at first pre bl bl' (quoted k) U) as (t0 & t1 & c1 & pre0 & bl0 & E0 & E1 & Ec0 & Ec1 & Ec2 & Eb & Hbl0 & Epre); try done.
  cbn [readObject]. rewrite <- !app_assoc. fold U. rewrite E0. cbn [mbind res_bind]. rewrite E1. cbn [mbind res_bind].
  rewrite Ec0, Ec2. cbn [orb]. rewrite Eb, (read_str_at n pre0 bl0 k U name h); [|clear -Hn; lengths|done|rewrite Epre; by destruct pre|done|clear -Hx; lengths].
  cbn [mbind res_bind negb]. unfold U. cbn [app].
  rewrite (read_start _ b1 (CH ":")) by done. cbn [mbind res_bind]. rewrite next_at. cbn [mbind res_bind].
  set (h0 := set_cell name (VString k) h). rewrite (deref_some h0 name (VString k)) by apply lookup_insert_eq.
  cbn [mbind res_bind]. rewrite Z.eqb_refl. cbn [negb].
  set (pre3 := ((pre0 ++ bl0 ++ quoted k) ++ b1) ++ [CH ":"]).
  assert (Epre3 : pre3 ++ b2 = pre ++ bl ++ comma first ++ bl' ++ quoted k ++ b1 ++ [CH ":"] ++ b2).
  { unfold pre3. rewrite !app_assoc, Epre, <- !app_assoc. done. }
  set (item := fresh h). change (new_cell VNull h0) with (item, (new_cell VNull h0).2).
  destruct (IHx n pre3 b2 (y ++ CH "}" :: T) item (new_cell VNull h0).2) as (h1 & v & Er & Ecell & Erep & Egr); try done.
  { rewrite Epre3. lengths. }
  { by apply (members_stop _ _ _ _ Hi). }
  { cbn. lia. } { cbn. lia. } { clear -Hx. lengths. } { clear -Hn. lengths. }
  cbv beta iota. rewrite Er. cbn [mbind res_bind].
  assert (Hg01 : grows h0 h1 []) by (by apply (grows_item _ _ VNull)).
  assert (Hg1 : grows h h1 [name]).
  { apply (grows_trans h h0); [apply grows_set; by left|]. apply (grows_weaken _ _ []); [set_solver|done]. }
  assert (Hf1 : item + 1 <= fresh h1) by apply Egr.
  destruct (put_member h1 a name k item m g) as (h2 & h3 & m' & Ei & Ec & Ha3 & Hn3 & Hm' & Had' & Hg3); try (done || lia).
  { rewrite (grows_other _ _ _ _ Hg1); [done|lia|by rewrite list_elem_of_singleton]. }
  { rewrite (grows_other _ _ _ _ Hg01); [apply lookup_insert_eq|done|apply not_elem_of_nil]. }
  { eapply Forall_impl; [exact Had|]. cbn. unfold item in Hf1. lia. }
  { apply Hk. }
  rewrite Ei. cbn [mbind res_bind]. rewrite Ec. cbn [mbind res_bind].
  assert (Hf3 : fresh h1 <= fresh h3) by apply Hg3.
  destruct (IHy n (pre3 ++ b2 ++ x) T a name h3 m' (<[k := item]> g)) as (h4 & m4 & ps & Er2 & Ea & En & Em & Erep2 & Egr2); try (done || lia).
  { rewrite app_assoc, Epre3. clear -Hp. lengths. }
  { unfold pre3. intros E. apply (f_equal length) in E. clear -E. lengths. }
  { apply Forall_forall. intros k' Hk'. rewrite Forall_forall in Hnone. rewrite lookup_insert_ne; [by apply Hnone|]. by intros ->. }
  { clear -Hx. lengths. } { clear -Hn. lengths. }
  assert (Hg14 : grows h1 h4 [a; name]) by (by apply (grows_trans h1 h3)).
  assert (Hlen : length ps = length l) by (by rewrite (reps_length _ _ _ _ _ Erep2), length_map).
  exists h4, m4, (item :: ps). splits; [|done|done| | |].
  - rewrite Er2, (app_assoc pre3), Epre3. by rewrite <- !app_assoc.
  - assert (Hz : (list_to_map (zip (map fst l) ps) : gmap (list Z) Z) !! k = None).
    { apply not_elem_of_list_to_map_1. rewrite fst_zip by (rewrite length_map; lia). done. }
    rewrite <- insert_union_r in Em by done. rewrite insert_union_l in Em. exact Em.
  - econstructor; [destruct Hg14; lia| | |].
    + rewrite (grows_other _ _ _ _ Hg14); [exact Ecell|lia|]. rewrite !not_elem_of_cons. unfold item. split; [lia|]. split; [lia|apply not_elem_of_nil].
    + apply (proj1 (rep_kept h1 h4 [a; name] (item + 1) item Hg14 ltac:(repeat constructor; unfold item; lia) ltac:(lia))), Erep.
    + apply (proj2 (rep_kept h4 h4 [] (fresh h3) item (grows_refl _ _) ltac:(constructor) ltac:(lia))), Erep2.
  - apply (grows_trans h h1); [|done]. apply (grows_weaken _ _ [name]); [set_solver|done].
Qed.

Lemma any_value p t x : P_at (λ _, True) p t x → P_value p t x.
Proof. intros H n pre bl T a h. intros. by apply H. Qed.

(** Every text of the grammar is read. *)
Lemma json_read : (∀ p t x, json p t x → P_value p t x) ∧ (∀ first p l x, items first p l x → P_items first p l x) ∧
  (∀ first p l x, members first p l x → P_members first p l x).
Proof.
  apply json_ind'; intros.
  - by apply read_null.
  - by apply (read_bool _ true).
  - by apply (read_bool _ false).
  - by apply read_uint_value.
  - by apply read_int_value.
  - by apply read_real_value.
  - by apply read_str_value.
  - apply any_value. by apply read_array.
  - apply any_value. by eapply read_object.
  - by apply items_nil.
  - by apply items_cons.
  - by apply members_nil.
  - by apply members_cons.
Qed.

(** A document is an array or an object with white space around it. *)
Definition document (t : jtree) (text : list Z) : Prop :=
  ∃ bl x bl', blanks bl ∧ text = bl ++ x ++ bl' ∧ json (length bl) t x ∧
    match t with JArr _ | JObj _ => True | _ => False end.

Lemma parse_document t text a h n : document t text → 0 < fresh h → a < fresh h → Z.of_nat (length text) < 2 ^ 32 →
  (2 * length text + 1 <= n)%nat →
  ∃ h' v, parse n text behind a h = Ok (h', true) ∧ cells h' !! a = Some v ∧
    repv (cells h') (fresh h) (fresh h') v t ∧ grows h h' [a].
Proof.
  intros (bl & x & T & [Hbl _] & -> & Hj & Ht) Hf Ha Hl Hn.
  pose proof (value_first _ _ _ Hj) as Hfx.
  assert (HP : P_at (λ _, True) (length bl) t x ∧ ∃ c x', x = c :: x' ∧ (c =? CH "[") || (c =? CH "{") = true).
  { destruct json_read as (_ & Hitems & Hmembers). destruct Hj; try done.
    - split; [by apply read_array, Hitems|]. by eexists _, _.
    - split; [by eapply read_object, Hmembers|]. by eexists _, _. }
  destruct HP as (HP & c & x' & Ex & Hc).
  destruct (HP n bl [] T a h) as (h' & v & E & Ecell & Erep & Eg); try done.
  { constructor. } { by rewrite app_nil_r. } { clear -Hl. lengths. } { clear -Hn. lengths. }
  exists h', v. split; [|done]. unfold parse.
  change (setData (bl ++ x ++ T) behind) with (at_text [] (bl ++ x ++ T) behind). rewrite skip_blanks_at; [|done|].
  2:{ rewrite Ex in *. apply Hfx. }
  assert (Hcur : Tokenizer.current (at_text bl (x ++ T) behind) = Ok c).
  { rewrite Ex. unfold Tokenizer.current, at_text. cbn [Tokenizer.s end_ str].
    destruct (Z.leb_spec (Z.of_nat (length bl + length ((c :: x') ++ T))) (Z.of_nat (length bl))); [lengths|]. apply rd_nth_app. }
  cbn [mbind res_bind app] in *. rewrite Hcur. cbn [mbind res_bind]. rewrite Hc, E. done.
Qed.
End Reading.
