(* ===== verification/JsonSpec.v ===== *)
(** * JSON: what is written is read back

    [output] is proved to write a text of the grammar of [JsonFacts], so that [parse] reads the value again.
    The values for which this holds are stated: the strings and numbers that survive, the room that the output
    needs, and the literals that stand late enough. *)

From stdpp Require Import gmap.
From S2P Require Import Prelude CType Memory Search Escape Printf HashMap Tokenizer UString Json JsonText JsonFacts.

(** ** The values that are written *)

Fixpoint height (t : jtree) : nat :=
  match t with
  | JArr l => S (foldr (λ t n, max (height t) n) 0%nat l)
  | JObj l => S (foldr (λ kt n, max (height kt.2) n) 0%nat l)
  | _ => 1
  end.

(** No text is longer. *)
Fixpoint width (t : jtree) : nat :=
  match t with
  | JNull | JBool _ => 5
  | JInt _ | JUInt _ => 21
  | JReal _ => 32
  | JStr s => length (quoted s)
  | JArr l => 2 + foldr (λ t n, width t + 1 + n)%nat 0%nat l
  | JObj l => 2 + foldr (λ kt n, length (quoted kt.1) + 2 + width kt.2 + n)%nat 0%nat l
  end.

(** The literals that the reader finds at this place of the document. *)
Fixpoint late (p : nat) (t : jtree) : Prop :=
  match t with
  | JNull | JBool true => (2 <= p)%nat
  | JBool false => (3 <= p)%nat
  | JStr _ => (1 <= p)%nat
  | JArr (t :: _) => late (p + 1) t
  | _ => True
  end.

(** Integers that are not negative are read as unsigned. *)
Fixpoint reread (t : jtree) : jtree :=
  match t with
  | JInt z => if z <? 0 then t else JUInt z
  | JArr l => JArr (map reread l)
  | JObj l => JObj (map (λ kt, (kt.1, reread kt.2)) l)
  | _ => t
  end.

(** The width of the members of an object. *)
Definition member_widths (l : list (list Z * jtree)) : nat := foldr (λ kt n, length (quoted kt.1) + 2 + width kt.2 + n)%nat 0%nat l.

Lemma member_widths_perm l l' : l ≡ₚ l' → member_widths l = member_widths l'.
Proof. unfold member_widths. induction 1; cbn [foldr]; lia. Qed.

Lemma member_widths_length l : (length l <= member_widths l)%nat.
Proof. unfold member_widths. induction l; cbn [foldr length]; lia. Qed.

Section Writable.
Context `{PL : !Platform} (W : Z).

(** The memory asked for is enough: six bytes for each character, or all of the output fits into the first block. *)
Definition string_ok (x : list Z) : Prop :=
  str_ok x ∧ (Z.of_nat (length (escape_all true x)) + 6 <= 6 * Z.of_nat (length x) ∨ W + 6 <= U_CAPACITY).

Definition real_ok (d : Z) : Prop :=
  (length (g_text d) < 32)%nat ∧ ∃ n, cut_zeros (g_text d) = Ok n ∧ real_text d (take n (g_text d)).

Fixpoint writable (t : jtree) : Prop :=
  match t with
  | JReal d => real_ok d
  | JStr x => string_ok x
  | JArr l => foldr (λ t P, writable t ∧ P) True l
  | JObj l => foldr (λ kt P, string_ok kt.1 ∧ writable kt.2 ∧ P) True l
  | _ => True
  end.

(** ** Stores that differ in the cursors of the tables *)

Definition alike (v v' : value) : Prop :=
  v' = v ∨ ∃ m n i k, v = VObject m ∧ v' = VObject (set_cursor m n i k).

Definition same (h h' : store) : Prop := ∀ q v, cells h !! q = Some v → ∃ v', cells h' !! q = Some v' ∧ alike v v'.

Lemma alike_trans v1 v2 v3 : alike v1 v2 → alike v2 v3 → alike v1 v3.
Proof.
  intros [->|(m & n & i & k & -> & ->)]; [done|]. intros [->|(m' & n' & i' & k' & [= <-] & ->)]; right; by eexists _, _, _, _.
Qed.

Lemma alike_object m v : alike (VObject m) v → ∃ n i c, v = VObject (set_cursor m n i c).
Proof.
  intros [->|(m' & n & i & c & [= <-] & ->)]; [|by eexists _, _, _]. exists (node m), (index m), (hash m). by destruct m.
Qed.

Lemma same_refl h : same h h.
Proof. intros q v Hv. exists v. split; [done|by left]. Qed.

Lemma same_cells_trans h1 h2 h3 : same h1 h2 → same h2 h3 → same h1 h3.
Proof.
  intros H1 H2 q v Hv. destruct (H1 q v Hv) as (v2 & Hv2 & A2). destruct (H2 q v2 Hv2) as (v3 & Hv3 & A3).
  exists v3. split; [done|]. by eapply alike_trans.
Qed.

(** ** Pieces *)

Lemma put_string_ok x b : string_ok x → roomy b → usize b + Z.of_nat (length (quoted x)) <= W → W < 2 ^ 27 →
  ∃ b', put_string x b = Ok b' ∧ roomy b' ∧ ubytes b' = ubytes b ++ quoted x.
Proof.
  intros [Hx Hr] Hb HW HW2. pose proof Hx as (Hby & _). pose proof (escape_all_at_least x Hby) as Hal.
  assert (Hq : length (quoted x) = (length (escape_all true x) + 2)%nat) by (unfold quoted; rewrite !length_app; cbn; lia).
  assert (Hu : 0 <= usize b) by (unfold usize; lia).
  unfold put_string. rewrite (u32_small (_ * 6)), u32_small by lia.
  destruct (reserve_roomy (usize b + Z.of_nat (length x) * 6) b Hb ltac:(lia)) as (Eb & Hb' & Hroom).
  set (b1 := reserve _ b) in *. assert (Eu : usize b1 = usize b) by (unfold usize; by rewrite Eb).
  assert (Hcap : Z.of_nat (length (escape_all true x)) + 6 <= ucapacity b1 - usize b1).
  { rewrite Eu. destruct Hb' as [Hc _]. lia. }
  rewrite (encode_room x b1 Hx Hb' Hcap). eexists. split; [done|]. cbn [ubytes]. rewrite Eb. split; [|done].
  destruct Hb' as [Hc _]. split; [done|]. unfold usize in *. cbn [ubytes ucapacity]. rewrite length_app, Hq. rewrite Eb in *. lia.
Qed.

(** The grammar without white space. *)
Lemma no_blanks : blanks [].
Proof. split; constructor. Qed.

Lemma compact_item (first : bool) n t l x y : json (n + length (comma first)) t x →
  items false (n + length (comma first ++ x)) l y → items first n (t :: l) (comma first ++ x ++ y).
Proof. intros Hx Hy. apply (i_cons first n [] [] t l x y); [apply no_blanks..| |done]. by rewrite app_nil_r. Qed.

Lemma compact_member (first : bool) n k t l x y : str_ok k → json (n + length (comma first ++ quoted k ++ [CH ":"])) t x →
  members false (n + length (comma first ++ quoted k ++ [CH ":"] ++ x)) l y →
  members first n ((k, t) :: l) (comma first ++ quoted k ++ [CH ":"] ++ x ++ y).
Proof. intros Hk Hx Hy. by apply (m_cons first n [] [] k [] [] t l x y); try apply no_blanks. Qed.

Lemma late_3 t n : (3 <= n)%nat → late n t.
Proof.
  revert n. enough (H : ∀ k t n, (height t <= k)%nat → (3 <= n)%nat → late n t) by (intros n; by apply (H (height t))).
  induction k as [|k IH]; intros u n Hk Hn; destruct u as [|[]| | | | |[|u l]|]; cbn in *; try lia; try done. apply IH; lia.
Qed.

Lemma json_nonempty n t x : json n t x → (1 <= length x)%nat.
Proof. intros H. apply value_first in H. destruct x; [done|]. cbn. lia. Qed.

(** What [output] promises for the value [v] of a tree. *)
Definition P_out (h : store) (v : value) (t : jtree) : Prop := writable t → ∀ h1 p v1 b fuel,
  same h h1 → cells h1 !! p = Some v1 → alike v v1 → roomy b → usize b + Z.of_nat (width t) <= W → (height t <= fuel)%nat →
  ∃ b' h2 x, output fuel b p h1 = Ok (b', h2) ∧ same h1 h2 ∧ roomy b' ∧ ubytes b' = ubytes b ++ x ∧ (length x <= width t)%nat ∧
    ∀ n, late n t → json n (reread t) x.

(** A value that is written at once. *)
Lemma out_text h v t x : (∀ n, late n t → json n (reread t) x) → (length x <= width t)%nat → W < 2 ^ 27 → (1 <= height t)%nat →
  (∀ m, v ≠ VObject m) →
  (writable t → ∀ fuel b p h1, cells h1 !! p = Some v → roomy b → usize b + Z.of_nat (width t) <= W →
    ∃ b', output (S fuel) b p h1 = Ok (b', h1) ∧ roomy b' ∧ ubytes b' = ubytes b ++ x) → P_out h v t.
Proof.
  intros Hx Hl HW Hh Hv Hout Hw h1 p v1 b fuel Hs Hp [->|(m & n & i & k & -> & _)] Hb HWb Hf; [|by destruct (Hv m)].
  destruct fuel as [|fuel]; [lia|]. destruct (Hout Hw fuel b p h1 Hp Hb HWb) as (b' & E & Hb' & Ex).
  exists b', h1, x. splits; try done. apply same_refl.
Qed.

Lemma append_out b x n : roomy b → usize b + Z.of_nat n <= W → W < 2 ^ 27 → (length x <= n)%nat →
  roomy (append x b) ∧ ubytes (append x b) = ubytes b ++ x.
Proof. intros Hb HWb HW Hx. apply append_roomy; [done|lia]. Qed.

Lemma out_null h : W < 2 ^ 27 → P_out h VNull JNull.
Proof.
  intros HW. apply (out_text _ _ _ (BS "null")); [intros n Hn; by constructor|cbn; lia|done|done|done|].
  intros _ fuel b p h1 Hp Hb HWb. cbn [output]. rewrite (deref_some _ _ _ Hp). cbn [mbind res_bind].
  eexists. split; [done|]. apply (append_out b _ _ Hb HWb HW). cbn [width length]; lia.
Qed.

Lemma out_bool h x : W < 2 ^ 27 → P_out h (VBool x) (JBool x).
Proof.
  intros HW. apply (out_text _ _ _ (if x then BS "true" else BS "false")); [|destruct x; cbn; lia|done|done|done|].
  { intros n Hn. destruct x; by constructor. }
  intros _ fuel b p h1 Hp Hb HWb. cbn [output]. rewrite (deref_some _ _ _ Hp). cbn [mbind res_bind asBool].
  eexists. split; [done|]. apply (append_out b _ _ Hb HWb HW). destruct x; cbn; lia.
Qed.

Lemma out_int h z : W < 2 ^ 27 → - 2 ^ 31 <= z < 2 ^ 31 → P_out h (VInt z) (JInt z).
Proof.
  intros HW Hz. destruct (numeral_dec (Z.abs z) ltac:(lia)) as (Hd & Ed & Hne & Hl).
  apply (out_text _ _ _ ((if z <? 0 then [CH "-"] else []) ++ number_chars (Z.abs z))); [| |done|done|done|].
  - intros n _. cbn [reread]. destruct (Z.ltb_spec z 0).
    + pose proof (g_int n (number_chars (Z.abs z)) Hd ltac:(lia)) as H'. rewrite Ed in H'. by replace (- Z.abs z) with z in H' by lia.
    + pose proof (g_uint n (number_chars (Z.abs z)) Hne Hd ltac:(lia)) as H'. rewrite Ed in H'. by replace (Z.abs z) with z in * by lia.
  - rewrite length_app. cbn [width]. destruct (z <? 0); cbn [length]; lia.
  - intros _ fuel b p h1 Hp Hb HWb. cbn [output]. rewrite (deref_some _ _ _ Hp). cbn [mbind res_bind asInt]. rewrite print_int by done.
    cbn [mbind res_bind]. eexists. split; [done|]. apply (append_out b _ _ Hb HWb HW). rewrite length_app. cbn [width]. destruct (z <? 0); cbn [length]; lia.
Qed.

Lemma out_uint h z : W < 2 ^ 27 → 0 <= z < 2 ^ 32 → P_out h (VUInt z) (JUInt z).
Proof.
  intros HW Hz. destruct (numeral_dec z Hz) as (Hd & Ed & Hne & Hl).
  apply (out_text _ _ _ (number_chars z)); [|cbn [width]; lia|done|done|done|].
  - intros n _. cbn [reread]. pose proof (g_uint n (number_chars z) Hne Hd ltac:(lia)) as H'. by rewrite Ed in H'.
  - intros _ fuel b p h1 Hp Hb HWb. cbn [output]. rewrite (deref_some _ _ _ Hp). cbn [mbind res_bind asUInt]. rewrite print_uint by done.
    cbn [mbind res_bind]. eexists. split; [done|]. apply (append_out b _ _ Hb HWb HW). cbn [width]. lia.
Qed.

Lemma out_str h x : W < 2 ^ 27 → P_out h (VString x) (JStr x).
Proof.
  intros HW Hw. apply (out_text h _ (JStr x) (quoted x)); try done.
  - intros n Hn. constructor; [done|]. apply Hw.
  - intros _ fuel b p h1 Hp Hb HWb. cbn [output]. rewrite (deref_some _ _ _ Hp). cbn [mbind res_bind].
    destruct (put_string_ok x b Hw Hb HWb HW) as (b' & -> & Hb' & E). cbn [mbind res_bind]. by exists b'.
Qed.

Lemma out_real h d : W < 2 ^ 27 → P_out h (VReal d) (JReal d).
Proof.
  intros HW Hw. pose proof Hw as (Hl & n & Hcut & Ht).
  assert (Hlen : (length (take n (g_text d)) <= 32)%nat) by (rewrite length_take; lia).
  apply (out_text h _ (JReal d) (take n (g_text d))); try done.
  - intros m _. by constructor.
  - intros _ fuel b p h1 Hp Hb HWb. cbn [output]. rewrite (deref_some _ _ _ Hp). cbn [mbind res_bind asDouble]. rewrite print_real by done.
    cbn [mbind res_bind]. rewrite Hcut. cbn [mbind res_bind]. eexists. split; [done|]. apply (append_out b _ _ Hb HWb HW). cbn [width length]; lia.
Qed.

(** ** Arrays *)

Definition widths (l : list jtree) : nat := foldr (λ t n, width t + 1 + n)%nat 0%nat l.

(** The cells of the elements. *)
Definition out_all (h : store) (ps : list Z) (ts : list jtree) : Prop :=
  Forall2 (λ p t, ∃ w, cells h !! p = Some w ∧ P_out h w t) ps ts.

Lemma out_items h fuel ps ts : W < 2 ^ 27 → out_all h ps ts → foldr (λ t P, writable t ∧ P) True ts →
  (foldr (λ t n, max (height t) n) 0 ts <= fuel)%nat →
  ∀ h1 b, same h h1 → roomy b → usize b + Z.of_nat (widths ts) <= W →
  ∃ b' h2 x, output_items (output fuel) b ps h1 = Ok (b', h2) ∧ same h1 h2 ∧ roomy b' ∧ ubytes b' = ubytes b ++ x ∧
    (length x <= widths ts)%nat ∧
    ∀ (first : bool) n, (1 <= n)%nat → match ts with t :: _ => late (n + length (comma first)) t | [] => True end →
      items first n (map reread ts) (match ts with [] => [] | _ => comma first end ++ x).
Proof.
  intros HW Hall. induction Hall as [|p t ps ts (w & Hw & HP) Hall IH]; intros Hwr Hh h1 b Hs Hb HWb.
  - exists b, h1, []. splits; [done|apply same_refl|done|by rewrite app_nil_r|done|]. intros. apply i_nil, no_blanks.
  - cbn [foldr] in Hwr, Hh. destruct Hwr as [Hwt Hwr]. cbn [widths foldr] in HWb. change (foldr _ 0%nat ts) with (widths ts) in HWb.
    destruct (Hs p w Hw) as (v1 & Hv1 & Ha).
    destruct (HP Hwt h1 p v1 b fuel Hs Hv1 Ha Hb ltac:(lia) ltac:(lia)) as (b1 & h2 & x & E & Hs2 & Hb1 & Ex & Hlx & Hj).
    assert (Eu : usize b1 = usize b + Z.of_nat (length x)) by (unfold usize; rewrite Ex, length_app; lia).
    cbn [output_items]. rewrite E. cbn [mbind res_bind fst snd].
    assert (Hfirst : ∀ first n, late (n + length (comma first)) t → json (n + length (comma first)) (reread t) x ∧ (1 <= length x)%nat).
    { intros first n Hl. specialize (Hj _ Hl). split; [done|]. by eapply json_nonempty. }
    destruct Hall as [|q u ps ts Hq Hall'].
    + exists b1, h2, x. splits; try done; [cbn [widths foldr]; lia|]. intros first n Hn Hl. destruct (Hfirst first n Hl) as [Hx _].
      rewrite <- (app_nil_r x). by apply compact_item; [|apply i_nil, no_blanks].
    + destruct (append_out b1 [CH ","] 1 Hb1) as [Hb2 E2]; [lia|done|done|].
      destruct (IH Hwr ltac:(lia) h2 (append [CH ","] b1)) as (b3 & h3 & y & Ey & Hs3 & Hb3 & Ey' & Hly & Hjy);
        [by eapply same_cells_trans|done|unfold usize in *; rewrite E2, length_app; cbn [length]; lia|].
      exists b3, h3, (x ++ [CH ","] ++ y). splits; [done|by eapply same_cells_trans|done| | |].
      * rewrite Ey', E2, Ex. by rewrite <- !app_assoc.
      * change (widths (t :: u :: ts)) with (width t + 1 + widths (u :: ts))%nat. rewrite !length_app. cbn [length]. lia.
      * intros first n Hn Hl. destruct (Hfirst first n Hl) as [Hx Hlx1]. cbn [map]. apply compact_item; [done|].
        apply (Hjy false); [lia|]. cbn [comma length]. apply late_3. rewrite length_app. lia.
Qed.

Lemma out_array h ps ts : W < 2 ^ 27 → out_all h ps ts → P_out h (VArray ps) (JArr ts).
Proof.
  intros HW Hall Hw h1 p v1 b fuel Hs Hp [->|(m & n & i & k & [=] & _)] Hb HWb Hf. cbn [height] in Hf. destruct fuel as [|fuel]; [lia|].
  cbn [width] in HWb. change (foldr _ 0%nat ts) with (widths ts) in HWb.
  destruct (append_out b [CH "["] 1 Hb) as [Hb1 E1]; [lia|done|done|].
  destruct (out_items h fuel ps ts HW Hall Hw ltac:(lia) h1 (append [CH "["] b) Hs Hb1) as (b2 & h2 & x & E & Hs2 & Hb2 & Ex & Hlx & Hj).
  { unfold usize in *. rewrite E1, length_app. cbn [length]. lia. }
  destruct (append_out b2 [CH "]"] 1 Hb2) as [Hb3 E3]; [unfold usize in *; rewrite Ex, E1, !length_app; cbn [length]; lia|done|done|].
  exists (append [CH "]"] b2), h2, ([CH "["] ++ x ++ [CH "]"]). cbn [output]. rewrite (deref_some _ _ _ Hp). cbn [mbind res_bind].
  rewrite E. splits; [done|done|done| | |].
  - rewrite E3, Ex, E1. by rewrite <- !app_assoc.
  - cbn [width]. change (foldr _ 0%nat ts) with (widths ts). rewrite !length_app. cbn [length]. lia.
  - intros n Hl. cbn [reread]. apply g_arr. specialize (Hj true (n + 1)%nat ltac:(lia)). cbn [comma length] in Hj.
    rewrite Nat.add_0_r in Hj. destruct ts; by apply Hj.
Qed.

(** ** Objects *)

(** A lookup finds the address and moves the cursor of the table. *)
Lemma at_member h p m k q : cells h !! p = Some (VObject m) → ignore_case m = false → hm_inv bytes id m → bytes k →
  to_map id m !! k = Some q →
  ∃ n i c, at_name p k h = Ok (q, set_cell p (VObject (set_cursor m n i c)) h).
Proof.
  intros Hp Hic Hm Hk Hq. unfold at_name. rewrite (deref_some _ _ _ Hp). cbn [mbind res_bind]. unfold at_key.
  destruct (lookup_map (ok := bytes) (canon := id) m Hic Hm k Hk) as (i & c & a & E & [(pre & n & post & _ & -> & Hne & _ & Eq & Ec)|[_ Hn]]).
  - rewrite E. cbn [mbind res_bind]. change (node (set_cursor m (address n) (Z.of_nat i) c)) with (address n). rewrite Hne. cbn [negb].
    rewrite Ec. cbn [mbind res_bind fst snd].
    assert (Eq' : Some q = Some (nelem n)) by (by rewrite <- Hq, <- Eq). injection Eq' as ->. by exists (address n), (Z.of_nat i), c.
  - exfalso. change (to_map id m !! k = None) in Hn. congruence.
Qed.

Lemma same_cursor h p m n i c : cells h !! p = Some (VObject m) → same h (set_cell p (VObject (set_cursor m n i c)) h).
Proof.
  intros Hp q v Hv. cbn. destruct (decide (q = p)) as [->|Hne].
  - rewrite lookup_insert_eq. eexists. split; [done|]. right. rewrite Hp in Hv. injection Hv as <-. by eexists _, _, _, _.
  - rewrite lookup_insert_ne by done. exists v. split; [done|by left].
Qed.

(** A name, the tree and the address of the member. *)
Definition member_ok (h : store) (m : uhashmap) (e : list Z * jtree * Z) : Prop :=
  string_ok e.1.1 ∧ writable e.1.2 ∧ to_map id m !! e.1.1 = Some e.2 ∧ ∃ w, cells h !! e.2 = Some w ∧ P_out h w e.1.2.

Definition reread_member (kt : list Z * jtree) : list Z * jtree := (kt.1, reread kt.2).

Lemma out_members h fuel p m (L : list (list Z * jtree * Z)) : W < 2 ^ 27 → ignore_case m = false → hm_inv bytes id m →
  Forall (member_ok h m) L → Forall (λ e, (height e.1.2 <= fuel)%nat) L →
  ∀ (first : bool) h1 v1 b, same h h1 → cells h1 !! p = Some v1 → alike (VObject m) v1 → roomy b → usize b + Z.of_nat (member_widths (map fst L)) <= W →
  ∃ b' h2 x, output_members (output fuel) p first b (map (λ e, e.1.1) L) h1 = Ok (b', h2) ∧ same h1 h2 ∧ roomy b' ∧
    ubytes b' = ubytes b ++ x ∧ (length x <= member_widths (map fst L))%nat ∧
    ∀ n, (1 <= n)%nat → members first n (map reread_member (map fst L)) x.
Proof.
  intros HW Hic Hm Hall. induction Hall as [|[[k t] q] L (Hk & Hwt & Hq & w & Hw & HP) _ IH]; intros Hh first h1 v1 b Hs Hv1 Ha1 Hb HWb.
  - exists b, h1, []. splits; [done|apply same_refl|done|by rewrite app_nil_r|done|]. intros. apply m_nil, no_blanks.
  - apply Forall_cons in Hh as [Hht Hh]. cbn [map fst snd] in *. cbn [member_widths foldr fst snd] in HWb.
    change (foldr _ 0%nat (map fst L)) with (member_widths (map fst L)) in HWb.
    set (b0 := if first then b else append [CH ","] b).
    assert (H0 : roomy b0 ∧ ubytes b0 = ubytes b ++ comma first).
    { unfold b0. destruct first; [by rewrite app_nil_r|]. apply (append_out b [CH ","] 1 Hb); [lia|done|done]. }
    destruct H0 as [Hb0 E0]. assert (Eu0 : usize b0 <= usize b + 1) by (unfold usize; rewrite E0, length_app; destruct first; cbn [comma length]; lia).
    destruct (put_string_ok k b0 Hk Hb0 ltac:(lia) HW) as (b1 & E1 & Hb1 & Eb1).
    destruct (alike_object _ _ Ha1) as (n1 & i1 & c1 & ->).
    destruct (at_member h1 p (set_cursor m n1 i1 c1) k q Hv1 Hic Hm (proj1 (proj1 Hk)) Hq) as (n2 & i2 & c2 & Eat).
    set (h2 := set_cell p (VObject (set_cursor (set_cursor m n1 i1 c1) n2 i2 c2)) h1) in *.
    assert (Hs2 : same h1 h2) by (by apply same_cursor).
    assert (Hs02 : same h h2) by (by eapply same_cells_trans).
    destruct (append_out b1 [CH ":"] 1 Hb1) as [Hb2 E2]; [unfold usize in *; rewrite Eb1, length_app; lia|done|done|].
    destruct (Hs02 q w Hw) as (w2 & Hw2 & Aw2).
    assert (Eu2 : usize (append [CH ":"] b1) <= usize b + 1 + Z.of_nat (length (quoted k)) + 1).
    { unfold usize in *. rewrite E2, Eb1, !length_app. cbn [length]. lia. }
    destruct (HP Hwt h2 q w2 (append [CH ":"] b1) fuel Hs02 Hw2 Aw2 Hb2 ltac:(lia) Hht) as (b3 & h3 & x & E3 & Hs3 & Hb3 & Ex & Hlx & Hj).
    destruct (same_cells_trans _ _ _ Hs2 Hs3 p _ Hv1) as (v3 & Hv3 & Ha3).
    destruct (IH Hh false h3 v3 b3) as (b4 & h4 & y & E4 & Hs4 & Hb4 & Ey & Hly & Hmy);
      [by eapply same_cells_trans|done| |done|unfold usize in *; rewrite Ex, length_app; lia|].
    { eapply alike_trans; [|exact Ha3]. right. by eexists _, _, _, _. }
    exists b4, h4, (comma first ++ quoted k ++ [CH ":"] ++ x ++ y). cbn [output_members]. fold b0. rewrite E1. cbn [mbind res_bind].
    rewrite Eat. cbn [mbind res_bind fst snd]. rewrite E3. cbn [mbind res_bind fst snd]. splits; [done| |done| | |].
    + eapply same_cells_trans; [exact Hs2|]. by eapply same_cells_trans.
    + rewrite Ey, Ex, E2, Eb1, E0. by rewrite <- !app_assoc.
    + cbn [member_widths foldr fst snd]. change (foldr _ 0%nat (map fst L)) with (member_widths (map fst L)). rewrite !length_app.
      destruct first; cbn [comma length]; lia.
    + intros n Hn. unfold reread_member at 1. cbn [fst snd]. apply compact_member; [apply Hk| |].
      * apply Hj, late_3. unfold quoted. rewrite !length_app. cbn [length]. lia.
      * apply Hmy. rewrite !length_app. cbn [length]. lia.
Qed.

(** The nodes of the table, each with the tree of its member. *)
Lemma members_of_table m l ps : represents false bytes id m (list_to_map (zip (map fst l) ps)) → NoDup (map fst l) →
  length ps = length l →
  ∃ L : list (list Z * jtree * Z), zip l ps ≡ₚ L ∧ map (λ e, e.1.1) L = map nkey (nodes m) ∧
    Forall (λ e, to_map id m !! e.1.1 = Some e.2) L.
Proof.
  intros (Hic & Hm & Hg) Hnd Hlen. pose proof Hm as [(_ & _ & _ & _ & Hnk) _].
  assert (Hp : map (λ n, (nkey n, nelem n)) (nodes m) ≡ₚ map (λ e : list Z * jtree * Z, (e.1.1, e.2)) (zip l ps)).
  { assert (Ez : map (λ e : list Z * jtree * Z, (e.1.1, e.2)) (zip l ps) = zip (map fst l) ps).
    { clear -Hlen. revert ps Hlen. induction l as [|[k t] l IH]; intros [|p ps] Hlen; try done. cbn. f_equal. apply IH. by injection Hlen. }
    rewrite Ez. apply list_to_map_inj; [| |exact Hg].
    - change (NoDup (map fst (map (λ n, (nkey n, nelem n)) (nodes m)))). rewrite map_map. exact Hnk.
    - change (NoDup (map fst (zip (map fst l) ps))). rewrite fst_zip; [done|]. rewrite length_map. lia. }
  destruct (Permutation_map_inv _ _ Hp) as (L & EL & HL). exists L. split; [done|]. split.
  - transitivity (map fst (map (λ e : list Z * jtree * Z, (e.1.1, e.2)) L)); [by rewrite map_map|]. rewrite <- EL, map_map. done.
  - apply Forall_forall. intros e He. rewrite Hg. apply elem_of_list_to_map.
    + change (NoDup (map fst (zip (map fst l) ps))). rewrite fst_zip; [done|]. rewrite length_map. lia.
    + rewrite <- HL in He. destruct e as [[k t] q]. apply elem_of_lookup_zip_with in He as (i & y & q' & [= <- ->] & Hl & Hq).
      apply elem_of_lookup_zip_with. exists i, k, q'. splits; try done. by rewrite list_lookup_fmap, Hl.
Qed.

Lemma out_object h m ps l : W < 2 ^ 27 → represents false bytes id m (list_to_map (zip (map fst l) ps)) → NoDup (map fst l) →
  out_all h ps (map snd l) → P_out h (VObject m) (JObj l).
Proof.
  intros HW Hm Hnd Hall Hw h1 p v1 b fuel Hs Hp Ha Hb HWb Hf. cbn [height] in Hf. destruct fuel as [|fuel]; [lia|].
  cbn [width] in HWb. change (foldr _ 0%nat l) with (member_widths l) in HWb.
  assert (Hlen : length ps = length l) by (rewrite (Forall2_length _ _ _ Hall); apply length_map).
  destruct (members_of_table m l ps Hm Hnd Hlen) as (L & HL & Enames & Hg). destruct Hm as (Hic & Hm & _).
  assert (El : map fst L ≡ₚ l). { rewrite <- HL. by rewrite fst_zip by lia. }
  assert (HmL : Forall (member_ok h m) L ∧ Forall (λ e, (height e.1.2 <= fuel)%nat) L).
  { rewrite <- Forall_and. rewrite Forall_forall in Hg. apply Forall_forall. intros e He. specialize (Hg e He).
    rewrite <- HL in He. destruct e as [[k t] q]. apply elem_of_lookup_zip_with in He as (i & y & q' & [= <- ->] & Hl & Hq).
    assert (Hkt : string_ok k ∧ writable t ∧ (height t <= fuel)%nat).
    { cbn [writable] in Hw. clear -Hw Hf Hl. revert i Hl. induction l as [|[k' t'] l IH]; intros i Hl; [done|]. cbn [foldr fst snd] in *.
      destruct Hw as (H1 & H2 & H3). destruct i as [|i]; [injection Hl as -> ->; splits; [done|done|lia]|].
      apply (IH H3 ltac:(lia) i Hl). }
    destruct Hkt as (Hk & Hwt & Hht). split; [|done]. unfold member_ok. cbn [fst snd] in *. splits; try done.
    apply (Forall2_lookup_lr _ _ _ i q' t Hall Hq). by rewrite list_lookup_fmap, Hl. }
  destruct HmL as [HmL Hh]. destruct (append_out b [CH "{"] 1 Hb) as [Hb1 E1]; [lia|done|done|].
  destruct (out_members h fuel p m L HW Hic Hm HmL Hh true h1 v1 (append [CH "{"] b) Hs Hp Ha Hb1) as (b2 & h2 & x & E & Hs2 & Hb2 & Ex & Hlx & Hx).
  { rewrite (member_widths_perm _ _ El). unfold usize in *. rewrite E1, length_app. cbn [length]. lia. }
  rewrite (member_widths_perm _ _ El) in Hlx.
  destruct (append_out b2 [CH "}"] 1 Hb2) as [Hb3 E3]; [unfold usize in *; rewrite Ex, E1, !length_app; cbn [length]; lia|done|done|].
  exists (append [CH "}"] b2), h2, ([CH "{"] ++ x ++ [CH "}"]). destruct (alike_object _ _ Ha) as (n1 & i1 & c1 & ->).
  cbn [output]. rewrite (deref_some _ _ _ Hp). cbn [mbind res_bind].
  change ((getMemberNames (VObject (set_cursor m n1 i1 c1)) []).1) with (map nkey (nodes m)).
  change (vsize (VObject (set_cursor m n1 i1 c1))) with (length_ m).
  assert (Hn : length (map nkey (nodes m)) = length l). { rewrite <- Enames, length_map. rewrite <- El. by rewrite length_map. }
  assert (Esz : Z.to_nat (length_ m) = length (map nkey (nodes m))).
  { rewrite Hn. destruct Hm as [_ ->]. rewrite length_map in Hn. rewrite Hn. pose proof (member_widths_length l).
    unfold usize in HWb. rewrite u32_small; lia. }
  rewrite Esz. destruct (Nat.ltb_spec (length (map nkey (nodes m))) (length (map nkey (nodes m)))); [lia|].
  rewrite take_ge by done. rewrite <- Enames, E. splits; [done|done|done| | |].
  - rewrite E3, Ex, E1. by rewrite <- !app_assoc.
  - cbn [width]. change (foldr _ 0%nat l) with (member_widths l). rewrite !length_app. cbn [length]. lia.
  - intros n _. cbn [reread]. apply (g_obj n _ (map reread_member (map fst L))).
    + change (map reread_member l ≡ₚ map reread_member (map fst L)). by rewrite El.
    + rewrite map_map. change (NoDup (map fst (map fst L))). by rewrite El.
    + apply Hx. lia.
Qed.

(** Every value is written. *)
Lemma out_every h lo hi : W < 2 ^ 27 → (∀ v t, repv h lo hi v t → P_out (Store h hi) v t) ∧ (∀ ps ts, reps h lo hi ps ts → out_all (Store h hi) ps ts).
Proof.
  intros HW. apply rep_ind; intros.
  - by apply out_null.
  - by apply out_bool.
  - by apply out_int.
  - by apply out_uint.
  - by apply out_real.
  - by apply out_str.
  - by apply out_array.
  - by eapply out_object.
  - constructor.
  - constructor; [|done]. by eexists.
Qed.
End Writable.

(** ** The theorems *)

Definition container (t : jtree) : Prop := match t with JArr _ | JObj _ => True | _ => False end.

(** The text of a tree is a document. *)
Lemma output_document `{PL : !Platform} h lo hi a v t fuel : cells h !! a = Some v → repv (cells h) lo hi v t → container t → late 0 t →
  writable (Z.of_nat (width t)) t → Z.of_nat (width t) < 2 ^ 27 → (height t <= fuel)%nat →
  ∃ text h1, output_value fuel a h = Ok (text, h1) ∧ document (reread t) text ∧ (length text <= width t)%nat.
Proof.
  intros Hv Hr Hc Hl Hw HW Hf. destruct (out_every (Z.of_nat (width t)) (cells h) lo hi HW) as [Hout _].
  assert (Hs : same (Store (cells h) hi) h) by (intros q w Hq; exists w; split; [done|by left]).
  assert (Hroomy : roomy (new_string U_CAPACITY)) by (split; [vm_compute; by split|by vm_compute]).
  destruct (Hout v t Hr Hw h a v (new_string U_CAPACITY) fuel Hs Hv (or_introl eq_refl) Hroomy) as (b & h2 & x & E & _ & _ & Ex & Hlx & Hj);
    [change (usize (new_string U_CAPACITY)) with 0; lia|done|].
  exists x, h2. unfold output_value. rewrite E. cbn [mbind res_bind fst snd]. rewrite Ex. splits; [done| |done].
  exists [], x, []. splits; [apply no_blanks|by rewrite app_nil_r|by apply Hj|by destruct t].
Qed.

(** C12: [parse] accepts every document of the grammar, whatever stands behind it in memory: it terminates, stays
    inside the text, and builds in the given cell and in new cells the value the text stands for; no other cell
    is changed. *)
Theorem json_parse_reads `{PL : !Platform} (granted_pos : ∀ n, 0 < n → 0 < granted n) t text behind a h n :
  document t text → 0 < fresh h → a < fresh h → Z.of_nat (length text) < 2 ^ 32 → (2 * length text + 1 <= n)%nat →
  ∃ h' v, parse n text behind a h = Ok (h', true) ∧ cells h' !! a = Some v ∧
    repv (cells h') (fresh h) (fresh h') v t ∧ grows h h' [a].
Proof. intros Ht Hf Ha Hl Hn. by apply parse_document. Qed.

(** C11: A value that was written is read back: for an array or object of strings without a quotation mark behind
    a backslash, numbers whose text is read as the number, and literals that do not stand at the very front,
    [output] terminates without a fault, and [parse] of its text builds the same value, with integers that are
    not negative as unsigned ones. *)
Theorem json_roundtrip `{PL : !Platform} (granted_pos : ∀ n, 0 < n → 0 < granted n) h lo hi a v t fuel :
  cells h !! a = Some v → repv (cells h) lo hi v t → container t → late 0 t →
  writable (Z.of_nat (width t)) t → Z.of_nat (width t) < 2 ^ 27 → (height t <= fuel)%nat →
  ∃ text h1, output_value fuel a h = Ok (text, h1) ∧ ∀ behind b h' n, 0 < fresh h' → b < fresh h' → (2 * width t + 1 <= n)%nat →
    ∃ h2 w, parse n text behind b h' = Ok (h2, true) ∧ cells h2 !! b = Some w ∧
      repv (cells h2) (fresh h') (fresh h2) w (reread t) ∧ grows h' h2 [b].
Proof.
  intros Hv Hr Hc Hl Hw HW Hf. destruct (output_document h lo hi a v t fuel) as (text & h1 & E & Hd & Hlen); try done.
  exists text, h1. split; [done|]. intros behind b h' n Hf' Hb Hn. apply parse_document; [done|done|done|done|lia|lia].
Qed.

(** A platform on which every [double] is one and a half. *)
Definition sample_platform : Platform := {|
  penv := Env (u_is_tty env0) (u_hostname env0) (u_cwd env0) (u_progname env0) (u_pid_str env0) (u_user_name env0) (u_getSysError env0)
    (u_getSysSignal env0) (u_getExitStatus env0) (u_printf_string_max_length env0) (tv_sec_now env0) (tv_usec_now env0) (now_adjust env0)
    (tzname_ env0) (λ _ _ _ _, BS "1.500000000000000") (sprintf_long_double env0);
  strtod _ := 4609434218613702656; double_of_int _ := 0; double_of_uint _ := 0; int_of_double _ := 0; uint_of_double _ := 0;
  double_le _ _ := true; granted n := n |}.

#[local] Existing Instance sample_platform.

(** An apostrophe stands for the quotation mark. *)
Definition quotes (x : list Z) : list Z := map (λ c, if c =? 39 then 34 else c) x.

Definition sample_text : list Z := quotes (BS "{'a' : [1, -2 ,null, 1.50], 'b':'x\ty' }").

Definition sample_tree : jtree :=
  JObj [(BS "b", JStr [120; 9; 121]); (BS "a", JArr [JUInt 1; JInt (-2); JNull; JReal 4609434218613702656])].

Lemma sample_document : document sample_tree sample_text.
Proof.
  assert (Hb : blanks [32]) by (split; repeat constructor; done). pose proof no_blanks as Hn.
  assert (Hk : ∀ x, bool_decide (str_ok x) = true → str_ok x) by (intros x; apply bool_decide_eq_true_1).
  assert (Ha : items true 8 [JUInt 1; JInt (-2); JNull; JReal 4609434218613702656] (BS "1, -2 ,null, 1.50")).
  { apply (i_cons true 8 [] [] (JUInt 1) _ (BS "1") (BS ", -2 ,null, 1.50")); [done..|apply (g_uint 8 (BS "1"))|]; [done|repeat constructor; by vm_compute|done|].
    apply (i_cons false 9 [] [32] (JInt (-2)) _ (BS "-2") (BS " ,null, 1.50")); [done..|apply (g_int 11 (BS "2"))|]; [repeat constructor; by vm_compute|by vm_compute|].
    apply (i_cons false 13 [32] [] JNull _ (BS "null") (BS ", 1.50")); [done..|apply g_null; vm_compute; lia|].
    apply (i_cons false 19 [] [32] (JReal _) _ (BS "1.50") []); [done..|apply g_real|by apply i_nil].
    split; [left; by vm_compute|]. split; [repeat constructor|]. by split. }
  exists [], sample_text, []. split; [done|]. split; [done|]. split; [|done].
  apply (g_obj 0 _ [(BS "a", JArr [JUInt 1; JInt (-2); JNull; JReal 4609434218613702656]); (BS "b", JStr [120; 9; 121])]
    (quotes (BS "'a' : [1, -2 ,null, 1.50], 'b':'x\ty' "))); [apply perm_swap|apply (bool_decide_eq_true_1 _); by vm_compute|].
  apply (m_cons true 1 [] [] (BS "a") [32] [32] (JArr _) _ (BS "[1, -2 ,null, 1.50]") (quotes (BS ", 'b':'x\ty' ")));
    [done|done|by apply Hk|done|done|by apply (g_arr 7 _ (BS "1, -2 ,null, 1.50"))|].
  apply (m_cons false 26 [] [32] (BS "b") [] [] (JStr [120; 9; 121]) [] (quotes (BS "'x\ty'")) [32]);
    [done|done|by apply Hk|done|done| |by apply m_nil].
  apply (g_str 32 [120; 9; 121]); [lia|by apply Hk].
Qed.

Lemma sample_granted n : 0 < n → 0 < granted n.
Proof. done. Qed.

Definition sample_before : store := Store ∅ 2.

Lemma json_parse_reads_witness : ∃ h' v, parse 100 sample_text [0] 1 sample_before = Ok (h', true) ∧ cells h' !! 1 = Some v ∧
  repv (cells h') 2 (fresh h') v sample_tree ∧ grows sample_before h' [1].
Proof. apply (json_parse_reads sample_granted sample_tree sample_text [0] 1 sample_before 100); [apply sample_document|done|done|done|vm_compute; lia]. Defined.

Definition sample_store : store := match parse 100 sample_text [0] 1 sample_before with Ok r => r.1 | Fail _ => sample_before end.

Lemma sample_writable : writable (Z.of_nat (width sample_tree)) sample_tree.
Proof.
  assert (Hs : ∀ x, bool_decide (str_ok x) = true → string_ok (Z.of_nat (width sample_tree)) x).
  { intros x Hx. split; [by apply (bool_decide_eq_true_1 _)|]. right. by vm_compute. }
  cbn [sample_tree writable foldr fst snd]. splits; try (by apply Hs); try done.
  split; [apply Nat.ltb_lt; by vm_compute|]. exists 4%nat. split; [by vm_compute|].
  split; [left; by vm_compute|]. split; [repeat constructor|]. by split.
Qed.

Lemma json_roundtrip_witness : ∃ text h1, output_value 3 1 sample_store = Ok (text, h1) ∧
  ∀ behind b h' n, 0 < fresh h' → b < fresh h' → (2 * width sample_tree + 1 <= n)%nat →
  ∃ h2 w, parse n text behind b h' = Ok (h2, true) ∧ cells h2 !! b = Some w ∧
    repv (cells h2) (fresh h') (fresh h2) w (reread sample_tree) ∧ grows h' h2 [b].
Proof.
  destruct (parse_document [0] sample_granted sample_tree sample_text 1 sample_before 100 sample_document) as (h' & v & E & Hv & Hr & _);
    [done|done|done|vm_compute; lia|].
  assert (Es : sample_store = h') by (unfold sample_store; by rewrite E). rewrite Es.
  apply (json_roundtrip sample_granted h' 2 (fresh h') 1 v sample_tree 3); [done|done|done|done|apply sample_writable|done|cbn; lia].
Defined.

(** ** Where the code does something else *)

Definition reads (text : string) : option bool :=
  match parse 100 (quotes (BS text)) [0] 1 sample_before with Ok r => Some r.2 | Fail _ => None end.

(** The literals are looked for in the characters before the place: too near to the front they are not found. *)
Lemma literal_in_front : map reads ["[null]"; "[true]"; "[false]"; "[[false]]"; " [null]"; " [false]"; "[[[false]]]"]%string
  = map Some [false; false; false; false; true; false; true].
Proof. by vm_compute. Qed.

(** A comma is not asked for, and neither is the bracket at the end. *)
Lemma lenient : map reads ["[1 2]"; "[1 "; "[,1]"; "{'a':1 'b':2}"; "[1] 2"]%string = map Some [true; true; true; true; true].
Proof. by vm_compute. Qed.

(** A backslash and a quotation mark behind it: the mark that belongs to the string is taken for its end, and what
    follows for another string. *)
Definition elements_read (text : list Z) : option nat :=
  match parse 100 text [0] 1 sample_before with Ok r => length <$> (elements <$> cells r.1 !! 1) | Fail _ => None end.

Lemma backslash_quote : elements_read ([CH "["] ++ quoted [CH "\"; 34] ++ [CH "]"]) = Some 2%nat.
Proof. by vm_compute. Qed.

(** Six bytes for a character are not enough with the two quotation marks: at the end of the memory a string is
    written with the dots that mark a cut. *)
Lemma reserve_too_small : (λ b, drop 4064 (ubytes b)) <$> put_string [CH "x"] (UStr (replicate 4065 0) U_CAPACITY) = Ok ([0; 34] ++ BS "x..." ++ [34]).
Proof. vm_compute. reflexivity. Qed.

(** [asBool] of a string, an array and an object says whether it is empty; of a number whether it is not zero. *)
Lemma asBool_of_empty : asBool (VString []) = true ∧ asBool (VArray []) = true ∧ asBool (VString (BS "x")) = false ∧ asBool (VInt 1) = true.
Proof. done. Qed.
