(* ===== verification/Urls.v ===== *)
(** * Uniform resource locators ([Url], [src/ulib/url.cpp], [include/ulib/url.h])

    A string and the positions of its parts, which are found again after each change. The string is not shared
    and ends with a NUL; the mask of the coder has its initial value, which nothing in the library changes. *)

From S2P Require Import Prelude CType Search Url UString.
From S2P Require Xml Printf.

(** ** The operations of [UString] that are used ([string.cpp]) *)

(** [find(c, pos)]: the position, -1 when there is none. *)
Fixpoint find_from (c : Z) (m : list Z) (i : Z) : Z :=
  match m with [] => -1 | x :: m => if x =? c then i else find_from c m (i + 1) end.

Definition find_char (c pos : Z) (s : list Z) : Z :=
  if (0 <=? pos) && (pos <? Z.of_nat (length s)) then find_from c (drop (Z.to_nat pos) s) pos else -1.

(** [find_first_of(delim, pos, n)]. *)
Fixpoint find_any (delim m : list Z) (i : Z) : Z :=
  match m with [] => -1 | x :: m => if existsb (Z.eqb x) delim then i else find_any delim m (i + 1) end.

Definition find_first_of (delim : list Z) (pos : Z) (s : list Z) : Z :=
  match delim with [] => -1 | _ => find_any delim (drop (Z.to_nat pos) s) pos end.

Definition fold (pos off sz : Z) : Z := let dist := u32 (sz - pos) in if off <? dist then off else dist.

Definition U_NOT_FOUND : Z := 2 ^ 32 - 1.

Definition substr (pos n : Z) (s : list Z) : res (list Z) :=
  let sz := Z.of_nat (length s) in
  if (pos <? 0) || (sz <? pos) then Fail OutOfBounds
  else Ok (take (Z.to_nat (fold pos n sz)) (drop (Z.to_nat pos) s)).

Definition replace (pos n1 : Z) (t s : list Z) : res (list Z) :=
  let sz := Z.of_nat (length s) in
  if (pos <? 0) || (sz <? pos) then Fail OutOfBounds
  else Ok (take (Z.to_nat pos) s ++ t ++ drop (Z.to_nat (pos + fold pos n1 sz)) s).

Definition insert (pos : Z) (t s : list Z) : res (list Z) := replace pos 0 t s.

Definition erase (pos n : Z) (s : list Z) : res (list Z) := replace pos (fold pos n (Z.of_nat (length s))) [] s.

(** ** The class *)

Record Url := MkUrl {
  url : list Z; service_end : Z; user_begin : Z; user_end : Z; host_begin : Z; host_end : Z;
  path_begin : Z; path_end : Z; query : Z }.

Definition size (u : Url) : Z := Z.of_nat (length (url u)).

Definition clear : Url := MkUrl [] (-1) (-1) (-1) (-1) (-1) (-1) (-1) (-1).

Definition find_path (s : list Z) (user_begin : Z) : Z :=
  let p := find_char (CH "/") user_begin s in
  if p <? 0 then
    let q := find_char (CH "?") user_begin s in if q <? 0 then Z.of_nat (length s) else q
  else p.

Definition find_host_end (s : list Z) (host_begin path_begin : Z) : Z :=
  let temp := find_char (CH "[") host_begin s in
  if (0 <=? temp) && (temp <? path_begin) then
    let e := find_char (CH "]") temp s in if e <? path_begin then e + 1 else host_begin
  else
    let e := find_char (CH ":") host_begin s in if (e <? 0) || (path_begin <? e) then path_begin else e.

Definition findpos (s : list Z) : res Url :=
  r ← u_find s (length s) (BS "//") 2;
  match r with
  | None => Ok (MkUrl s 0 0 0 0 0 0 0 0)
  | Some p =>
      let path_begin := find_path s (p + 2) in
      colon ← (if (p - 1 =? 0) && negb (path_begin =? 0) then c ← rd s (path_begin - 1); Ok (c =? CH ":") else Ok false);
      let temp := find_char (CH ".") 0 s in
      let local := colon && ((temp <? 0) || (path_begin <? temp)) in
      let service_end := if local : bool then path_begin - 1 else p - 1 in
      let user_begin := if local : bool then path_begin - 1 else p + 2 in
      let at_ := find_char (CH "@") user_begin s in
      let none := (at_ <? 0) || (path_begin <? at_) in
      let user_end := if none : bool then user_begin else at_ in
      let host_begin := if none : bool then user_end else user_end + 1 in
      let host_end := find_host_end s host_begin path_begin in
      let q := find_char (CH "?") path_begin s in
      let path_end := if q <? path_begin then Z.of_nat (length s) else q in
      Ok (MkUrl s service_end user_begin user_end host_begin host_end path_begin path_end path_end)
  end.

Definition set (x : list Z) : res Url := findpos x.

Definition getService (u : Url) : res (list Z) := if 0 <? service_end u then substr 0 (service_end u) (url u) else Ok [].

Definition setService (service : list Z) (u : Url) : res Url :=
  if 0 <? service_end u then s ← replace 0 (service_end u) service (url u); findpos s
  else s ← insert 0 (BS "://") (url u); s ← insert 0 service s; findpos s.

Definition is_service (name : list Z) (u : Url) : res bool := s ← getService u; Ok (bool_decide (s = name)).
Definition isHTTP : Url → res bool := is_service (BS "http").
Definition isHTTPS : Url → res bool := is_service (BS "https").
Definition isLDAP : Url → res bool := is_service (BS "ldap").
Definition isLDAPS : Url → res bool := is_service (BS "ldaps").

Definition getUser (u : Url) : res (list Z) :=
  if user_begin u <? user_end u then substr (user_begin u) (user_end u - user_begin u) (url u) else Ok [].

Definition isLocalFile (u : Url) : bool := host_begin u <? host_end u.

Definition setUser (user : list Z) (u : Url) : res (Url * bool) :=
  if isLocalFile u then
    s ← (if user_begin u <? user_end u then replace (user_begin u) (user_end u - user_begin u) user (url u)
         else s ← insert (user_begin u) [CH "@"] (url u); insert (user_begin u) user s);
    u ← findpos s; Ok (u, true)
  else Ok (u, false).

Definition eraseUser (u : Url) : res Url :=
  if user_begin u <? user_end u then s ← erase (user_begin u) (user_end u + 1) (url u); findpos s else Ok u.

Definition getHost (u : Url) : res (list Z) :=
  if host_begin u <? host_end u then substr (host_begin u) (host_end u - host_begin u) (url u) else Ok [].

Definition setHost (host : list Z) (u : Url) : res Url :=
  s ← (if host_begin u <? host_end u then replace (host_begin u) (host_end u - host_begin u) host (url u)
       else insert (host_begin u) host (url u));
  findpos s.

(** [getPort(buffer, size)]: what is put into the buffer. *)
Definition getPort_text (u : Url) : res (list Z) :=
  if host_end u <? path_begin u then
    let n := u32 (path_begin u - host_end u - 1) in
    if negb (n =? 0) && (n <=? 5) then substr (host_end u + 1) n (url u) else Ok []
  else Ok [].

(** [atoi] of a text that ends with a NUL. *)
Fixpoint skip_white (m : list Z) : list Z :=
  match m with c :: m' => if ((9 <=? c) && (c <=? 13)) || (c =? 32) then skip_white m' else m | [] => [] end.

Definition atoi (m : list Z) : res Z :=
  let m := skip_white m in
  c ← rd m 0;
  let neg := c =? CH "-" in
  r ← Xml.strtol_digits 10 0 (if neg || (c =? CH "+") then drop 1 m else m);
  Ok (i32 (Xml.clamp_long (if neg : bool then - r.1 else r.1))).

Definition well_known_ports : list (list Z * Z) :=
  [(BS "http", 80); (BS "https", 443); (BS "ldap", 389); (BS "ldaps", 636); (BS "ftp", 21); (BS "smtp", 25); (BS "pop3", 110)].

Definition port_of_service (service : list Z) : Z :=
  match find (λ e, bool_decide (e.1 = service)) well_known_ports with Some e => e.2 | None => -1 end.

Definition getPort (u : Url) : res Z :=
  text ← getPort_text u;
  match text with
  | _ :: _ => atoi (text ++ replicate (6 - length text) 0)
  | [] => if 0 <? service_end u then s ← substr 0 (service_end u) (url u); Ok (port_of_service s) else Ok (-1)
  end.

(** [port] is unsigned. *)
Definition setPort (port : Z) (u : Url) : res (Url * bool) :=
  if (port <=? 0xFFFF) && isLocalFile u then
    s ← replace (host_end u) (path_begin u - host_end u) (CH ":" :: Printf.number_chars port) (url u);
    u ← findpos s; Ok (u, true)
  else Ok (u, false).

Definition isPath (u : Url) : bool := path_begin u <? path_end u.

(** [m] is the memory at [path], [n] the length. *)
Definition setPath (m : list Z) (n : nat) (u : Url) : res Url :=
  c ← rd m 0;
  if (n <=? length m)%nat then
    let path := take n m in
    s ← (if path_begin u <? path_end u then
           let b := if c =? CH "/" then path_begin u else path_begin u + 1 in
           replace b (path_end u - b) path (url u)
         else if c =? CH "/" then insert (path_begin u) path (url u)
         else s ← insert (path_begin u) [CH "/"] (url u); insert (path_begin u + 1) path s);
    findpos s
  else Fail OutOfBounds.

(** [decode] into a string of the capacity; [p] is the place in the string. *)
Definition decode (s : list Z) (p n capacity : Z) : res (list Z) :=
  text ← u_url_decode (drop (Z.to_nat p) (s ++ [0])) n false;
  if capacity <? Z.of_nat (length text) then Fail OutOfBounds else Ok text.

(** [encode] into a string of the capacity. *)
Definition encode (input : list Z) (capacity : Z) (extra_enc_chars : option (list Z)) : res (list Z) :=
  let text := u_url_encode u_uri_encoded_char_mask extra_enc_chars input in
  if capacity <? Z.of_nat (length text) then Fail OutOfBounds else Ok text.

Definition getPath (u : Url) : res (list Z) :=
  if path_begin u <? path_end u then decode (url u) (path_begin u) (path_end u - path_begin u) U_CAPACITY
  else Ok [CH "/"].

Definition isQuery (u : Url) : bool := path_end u <? i32 (size u - 1).

Definition getQuery (u : Url) : res (list Z) :=
  if isQuery u then
    let sz := u32 (i32 (size u - 1) - path_end u) in decode (url u) (path_end u + 1) sz (ucapacity (new_string sz))
  else Ok [].

Definition getPathAndQuery (u : Url) : res (list Z) :=
  if path_begin u <? path_end u then substr (path_begin u) U_NOT_FOUND (url u) else Ok [CH "/"].

Definition set_url (s : list Z) (u : Url) : Url :=
  MkUrl s (service_end u) (user_begin u) (user_end u) (host_begin u) (host_end u) (path_begin u) (path_end u) (query u).
Definition set_path_end (p : Z) (u : Url) : Url :=
  MkUrl (url u) (service_end u) (user_begin u) (user_end u) (host_begin u) (host_end u) (path_begin u) p (query u).
Definition set_query (p : Z) (u : Url) : Url :=
  MkUrl (url u) (service_end u) (user_begin u) (user_end u) (host_begin u) (host_end u) (path_begin u) (path_end u) p.

Definition eraseQuery (u : Url) : res Url :=
  if path_end u <? size u then s ← erase (path_end u) U_NOT_FOUND (url u); Ok (set_query (path_end u) (set_url s u)) else Ok u.

Definition prepareForQuery (u : Url) : res (Url * bool) :=
  if host_begin u <? host_end u then
    u ← (if path_begin u =? path_end u then
           s ← insert (path_begin u) [CH "/"] (url u); Ok (set_path_end (path_end u + 1) (set_url s u))
         else Ok u);
    Ok (if path_end u =? size u then set_url (url u ++ [CH "?"]) u else u, true)
  else Ok (u, false).

(** [m] is the memory at [query_], [n] the length. *)
Definition setQuery (m : list Z) (n : nat) (u : Url) : res (Url * bool) :=
  r ← prepareForQuery u;
  let '(u, ok) := r in
  if ok : bool then
    c ← rd m 0;
    let m := if c =? CH "?" then drop 1 m else m in
    if (n <=? length m)%nat then
      s ← replace (path_end u + 1) (u32 (size u - path_end u - 1)) (take n m) (url u); Ok (set_url s u, true)
    else Fail OutOfBounds
  else Ok (u, false).

(** A backslash and a quotation mark (34) are in it. *)
Definition U_RFC2231 : list Z := BS " *'%()<>@,;:\" ++ [34] ++ BS "/[]?=".

Definition push_back (c : Z) (u : Url) : Url := set_url (url u ++ [c]) u.

Definition addQuery (entry : list Z) (value : option (list Z)) (u : Url) : res Url :=
  r ← prepareForQuery u;
  let '(u, ok) := r in
  if ok : bool then
    let v_size := match value with Some v => Z.of_nat (length v) | None => 0 end in
    let e_size := Z.of_nat (length entry) in
    let b_size := u32 ((if e_size <? v_size then v_size else e_size) * 3) in
    let capacity := ucapacity (new_string b_size) in
    text ← encode entry capacity None;
    c ← rd (url u) (size u - 1);
    let u := if negb (c =? CH "?") then push_back (CH "&") u else u in
    let u := set_url (url u ++ text) u in
    match value with
    | Some v =>
        text ← encode v capacity (Some U_RFC2231);
        let u := push_back (CH "=") u in Ok (set_url (url u ++ text) u)
    | None => Ok u
    end
  else Ok u.

(** The loop over the names and values of a vector. *)
Fixpoint add_queries (vec : list (list Z)) (u : Url) : res Url :=
  match vec with
  | [] => Ok u
  | [_] => Fail OutOfBounds
  | name :: value :: vec => u ← addQuery name (Some value) u; add_queries vec u
  end.

Definition setQuery_vec (vec : list (list Z)) (u : Url) : res (Url * bool) :=
  r ← prepareForQuery u;
  let '(u, ok) := r in
  if ok : bool then u ← add_queries vec u; Ok (u, true) else Ok (u, false).

(** ** Names and values ([UStringExt::getNameValueFromData], [utility/string_ext.cpp]) *)

(** [do { if (++ptr >= end) goto end; } while (memchr(delim, *ptr, dlen))], from [ptr] on: none at the end. *)
Fixpoint skip_delims (delim m : list Z) (ptr : Z) : option Z :=
  match m with
  | [] => None
  | c :: m => if existsb (Z.eqb c) delim then skip_delims delim m (ptr + 1) else Some ptr
  end.

Definition unquote (value : list Z) : res (list Z) :=
  a ← rd value 0; b ← rd value (Z.of_nat (length value) - 1);
  if (a =? 34) && (b =? 34) then
    Ok (if (length value <=? 2)%nat then [] else take (length value - 2) (drop 1 value))
  else Ok value.

Definition name_value_step (content delim : list Z) (form : bool) (st : Z * list (list Z)) :
    res (Z * list (list Z) + list (list Z)) :=
  let '(oldPos, vec) := st in
  let sz := Z.of_nat (length content) in
  let pos := find_char (CH "=") oldPos content in
  if pos <? 0 then Ok (inr vec)
  else
    let len := pos - oldPos in
    name ← (if len =? 0 then Ok []
            else if form then decode content oldPos len (ucapacity (new_string len))
            else substr oldPos len content);
    let oldPos := pos + 1 in
    pos ← (if form : bool then Ok (find_char (CH "&") oldPos content)
           else
             c ← rd (content ++ [0]) oldPos;
             pos ← (if c =? 34 then u_find_char (content ++ [0]) (oldPos + 1) sz 34 else Ok oldPos);
             Ok (find_first_of delim pos content));
    let len := (if pos <? 0 then sz else pos) - oldPos in
    value ← (if len =? 0 then Ok []
             else if form then decode content oldPos len (ucapacity (new_string len))
             else v ← substr oldPos len content; unquote v);
    let vec := vec ++ [name; value] in
    if pos <? 0 then Ok (inr vec)
    else if form : bool then Ok (inl (pos + 1, vec))
    else Ok (match skip_delims delim (drop (Z.to_nat (pos + 1)) content) (pos + 1) with
             | Some p => inl (p, vec)
             | None => inr vec
             end).

Definition getNameValueFromData (content : list Z) (vec : list (list Z)) (delim : list Z) : res (list (list Z) * Z) :=
  r ← iterate (S (length content)) (name_value_step content delim (bool_decide (delim = [CH "&"]))) (0, vec);
  Ok (r, u32 (Z.of_nat (length r - length vec))).

Definition getQuery_vec (vec : list (list Z)) (u : Url) : res (list (list Z) * Z) :=
  if isQuery u then
    content ← substr (path_end u + 1) (u32 (i32 (size u - 1) - path_end u)) (url u);
    getNameValueFromData content vec [CH "&"]
  else Ok (vec, 0).
