(* ===== verification/UrlsSpec.v ===== *)
(** * Uniform resource locators: the parts of a locator

    A locator of the documented form is a record of its parts. [findpos] finds them in its text, and every
    operation of [Url] is that on the parts. *)

From S2P Require Import Prelude CType Search Url UString JsonText Urls.
From S2P Require Xml Printf.

Record parts := Parts {
  scheme : list Z; username : option (list Z); hostname : list Z; portno : option (list Z); pathname : list Z;
  querystr : option (list Z) }.

Definition user_text (p : parts) : list Z := match username p with Some x => x ++ [CH "@"] | None => [] end.
Definition port_text (p : parts) : list Z := match portno p with Some x => CH ":" :: x | None => [] end.
Definition query_text (p : parts) : list Z := match querystr p with Some x => CH "?" :: x | None => [] end.

Definition text (p : parts) : list Z :=
  scheme p ++ BS "://" ++ user_text p ++ hostname p ++ port_text p ++ pathname p ++ query_text p.

(** No character of [cs] is in [x]. *)
Definition without (cs x : list Z) : Prop := Forall (λ c, c ∉ cs) x.

#[export] Instance without_dec cs x : Decision (without cs x).
Proof. unfold without. apply _. Defined.

(** An address of IPv6 in brackets, or a name. *)
Definition host_ok (x : list Z) : Prop :=
  without (BS "/?@") x ∧
  ((x ≠ [] ∧ without (BS ":[") x) ∨ ∃ y, x = [CH "["] ++ y ++ [CH "]"] ∧ without (BS "]") y).

Definition scheme_ok (x : list Z) : Prop := x ≠ [] ∧ without (BS "/") x.
Definition user_ok (x : list Z) : Prop := x ≠ [] ∧ without (BS "/?@") x.
Definition path_ok (x : list Z) : Prop := match x with [] => True | c :: _ => c = CH "/" end ∧ without (BS "?") x.

(** Without a path the query has no slash, which would be taken for the path. *)
Definition parts_ok (p : parts) : Prop :=
  scheme_ok (scheme p) ∧ (∀ x, username p = Some x → user_ok x) ∧ host_ok (hostname p) ∧
  (∀ x, portno p = Some x → Forall digit x) ∧ path_ok (pathname p) ∧
  (∀ x, pathname p = [] → querystr p = Some x → without (BS "/") x) ∧ Z.of_nat (length (text p)) < 2 ^ 31.

(** The object for the text, with any value of [query], which nothing reads. *)
Definition located (p : parts) (q : Z) : Url :=
  let user := Z.of_nat (length (scheme p)) + 3 in
  let user_end := user + match username p with Some x => Z.of_nat (length x) | None => 0 end in
  let host := user + Z.of_nat (length (user_text p)) in
  let host_end := host + Z.of_nat (length (hostname p)) in
  let path := host_end + Z.of_nat (length (port_text p)) in
  MkUrl (text p) (Z.of_nat (length (scheme p))) user user_end host host_end path (path + Z.of_nat (length (pathname p))) q.

Definition represents (u : Url) (p : parts) : Prop := parts_ok p ∧ ∃ q, u = located p q.

(** ** Finding characters *)

Lemma find_from_found c b d : c ∉ b → ∀ i, find_from c (b ++ c :: d) i = i + Z.of_nat (length b).
Proof.
  induction b as [|x b IH]; intros Hc i; cbn [app find_from length].
  - rewrite Z.eqb_refl. lia.
  - apply not_elem_of_cons in Hc as [Hx Hc]. rewrite (proj2 (Z.eqb_neq x c)) by done. rewrite IH by done. lia.
Qed.

Lemma find_from_range c m : ∀ i, find_from c m i = -1 ∨ i <= find_from c m i < i + Z.of_nat (length m).
Proof.
  induction m as [|x m IH]; intros i; cbn [find_from length]; [by left|]. destruct (x =? c); [lia|]. destruct (IH (i + 1)); lia.
Qed.

Lemma find_from_skip c b d : c ∉ b → ∀ i, find_from c (b ++ d) i = find_from c d (i + Z.of_nat (length b)).
Proof.
  induction b as [|x b IH]; intros Hc i; cbn [app find_from length]; [by rewrite Z.add_0_r|].
  apply not_elem_of_cons in Hc as [Hx Hc]. rewrite (proj2 (Z.eqb_neq x c)) by done. rewrite IH by done. f_equal. lia.
Qed.

Lemma find_char_app c a m : find_char c (Z.of_nat (length a)) (a ++ m) = find_from c m (Z.of_nat (length a)).
Proof.
  unfold find_char. rewrite Nat2Z.id, drop_app_length, length_app. destruct m as [|x m].
  - cbn [length]. destruct (Z.ltb_spec (Z.of_nat (length a)) (Z.of_nat (length a + 0))); [lia|]. by rewrite andb_false_r.
  - destruct (Z.leb_spec 0 (Z.of_nat (length a))); [|lia].
    destruct (Z.ltb_spec (Z.of_nat (length a)) (Z.of_nat (length a + length (x :: m)))); [done|cbn in *; lia].
Qed.

(** The character is behind [b], at its end or not there. *)
Lemma find_found c a b d : c ∉ b → find_char c (Z.of_nat (length a)) (a ++ b ++ c :: d) = Z.of_nat (length a) + Z.of_nat (length b).
Proof. intros Hc. rewrite find_char_app. by apply find_from_found. Qed.

Lemma find_behind c a b d : c ∉ b → match d with x :: _ => x ≠ c | [] => True end →
  find_char c (Z.of_nat (length a)) (a ++ b ++ d) = -1 ∨ Z.of_nat (length a) + Z.of_nat (length b) < find_char c (Z.of_nat (length a)) (a ++ b ++ d).
Proof.
  intros Hc Hd. rewrite find_char_app, find_from_skip by done. destruct d as [|x d]; [by left|]. cbn [find_from].
  rewrite (proj2 (Z.eqb_neq x c)) by done. destruct (find_from_range c d (Z.of_nat (length a) + Z.of_nat (length b) + 1)); lia.
Qed.

Lemma without_not_in cs x c : without cs x → c ∈ cs → c ∉ x.
Proof. intros H Hc Hx. unfold without in H. rewrite Forall_forall in H. by apply (H c). Qed.

Lemma find_none c a m : c ∉ m → find_char c (Z.of_nat (length a)) (a ++ m) = -1.
Proof. intros Hc. rewrite find_char_app. pose proof (find_from_skip c m [] Hc (Z.of_nat (length a))) as H. by rewrite app_nil_r in H. Qed.

Ltac is_in := apply (bool_decide_eq_true_1 _); vm_compute; reflexivity.

(** ** The parts are found *)

Definition tail_ok (pth qry : list Z) : Prop :=
  path_ok pth ∧ match qry with [] => True | c :: q => c = CH "?" ∧ (pth = [] → without (BS "/") q) end.

Lemma tail_head pth qry c : tail_ok pth qry → c ≠ CH "/" → c ≠ CH "?" → match pth ++ qry with x :: _ => x ≠ c | [] => True end.
Proof.
  intros [[Hp _] Hq] H1 H2. destruct pth as [|x pth]; cbn [app].
  - destruct qry as [|x qry]; [done|]. destruct Hq as [-> _]. by apply not_eq_sym.
  - rewrite Hp. by apply not_eq_sym.
Qed.

Lemma find_path_at a b pth qry : without (BS "/?") b → tail_ok pth qry →
  find_path (a ++ b ++ pth ++ qry) (Z.of_nat (length a)) = Z.of_nat (length a) + Z.of_nat (length b).
Proof.
  intros Hb [[Hp Hp2] Hq]. unfold find_path. destruct pth as [|x pth]; cbn [app].
  - destruct qry as [|x qry]; [|destruct Hq as [-> Hq]].
    + rewrite app_nil_r, !find_none by (apply (without_not_in _ _ _ Hb); is_in). change (-1 <? 0) with true. cbv beta iota zeta. rewrite length_app. lia.
    + rewrite (find_none (CH "/")).
      * change (-1 <? 0) with true. cbv beta iota zeta. rewrite find_found by (apply (without_not_in _ _ _ Hb); is_in). destruct (Z.ltb_spec (Z.of_nat (length a) + Z.of_nat (length b)) 0); [lia|done].
      * rewrite not_elem_of_app, not_elem_of_cons. splits; [apply (without_not_in _ _ _ Hb); is_in|done|].
        apply (without_not_in _ _ _ (Hq eq_refl)). is_in.
  - subst x. rewrite find_found by (apply (without_not_in _ _ _ Hb); is_in).
    destruct (Z.ltb_spec (Z.of_nat (length a) + Z.of_nat (length b)) 0); [lia|done].
Qed.

Lemma find_path_end a pth qry : tail_ok pth qry →
  (let q := find_char (CH "?") (Z.of_nat (length a)) (a ++ pth ++ qry) in
   if q <? Z.of_nat (length a) then Z.of_nat (length (a ++ pth ++ qry)) else q) = Z.of_nat (length a) + Z.of_nat (length pth).
Proof.
  intros [[_ Hp] Hq]. assert (Hc : CH "?" ∉ pth) by (apply (without_not_in _ _ _ Hp); is_in). destruct qry as [|x qry].
  - rewrite find_none by (by rewrite app_nil_r). cbn zeta. destruct (Z.ltb_spec (-1) (Z.of_nat (length a))); [|lia]. rewrite !length_app. cbn [length]. lia.
  - destruct Hq as [-> _]. rewrite find_found by done. cbn zeta. destruct (Z.ltb_spec (Z.of_nat (length a) + Z.of_nat (length pth)) (Z.of_nat (length a))); lia.
Qed.

Lemma find_host a host prt pth qry : host_ok host → match prt with [] => True | c :: x => c = CH ":" ∧ Forall digit x end → tail_ok pth qry →
  find_host_end (a ++ host ++ prt ++ pth ++ qry) (Z.of_nat (length a)) (Z.of_nat (length a) + Z.of_nat (length (host ++ prt)))
  = Z.of_nat (length a) + Z.of_nat (length host).
Proof.
  intros [Hh [[Hne Hn]|(y & -> & Hy)]] Hprt Ht; unfold find_host_end.
  - assert (Hb : CH "[" ∉ host ++ prt).
    { rewrite not_elem_of_app. split; [apply (without_not_in _ _ _ Hn); is_in|]. destruct prt as [|c x]; [apply not_elem_of_nil|].
      destruct Hprt as [-> Hx]. rewrite not_elem_of_cons. split; [done|]. intros Hin. rewrite Forall_forall in Hx. apply Hx in Hin. unfold digit in Hin. lia. }
    assert (Hl : (0 <=? find_char (CH "[") (Z.of_nat (length a)) (a ++ host ++ prt ++ pth ++ qry)) &&
      (find_char (CH "[") (Z.of_nat (length a)) (a ++ host ++ prt ++ pth ++ qry) <? Z.of_nat (length a) + Z.of_nat (length (host ++ prt))) = false).
    { rewrite (app_assoc host prt). apply andb_false_iff. destruct (find_behind (CH "[") a (host ++ prt) (pth ++ qry) Hb (tail_head pth qry (CH "[") Ht ltac:(done) ltac:(done))) as [->|H];
        [by left|right; apply Z.ltb_ge; lia]. }
    cbn zeta. rewrite Hl. assert (Hc : CH ":" ∉ host) by (apply (without_not_in _ _ _ Hn); is_in). destruct prt as [|c x].
    + cbn [app]. rewrite app_nil_r in *. destruct (find_behind (CH ":") a host (pth ++ qry) Hc (tail_head pth qry (CH ":") Ht ltac:(done) ltac:(done))) as [->|H]; [done|].
      destruct (Z.ltb_spec (Z.of_nat (length a) + Z.of_nat (length host)) (find_char (CH ":") (Z.of_nat (length a)) (a ++ host ++ pth ++ qry))); [by rewrite orb_true_r|lia].
    + destruct Hprt as [-> Hx]. cbn [app]. rewrite find_found by done. rewrite length_app. cbn [length].
      destruct (Z.ltb_spec (Z.of_nat (length a) + Z.of_nat (length host)) 0); [lia|]. cbn [orb].
      destruct (Z.ltb_spec (Z.of_nat (length a) + Z.of_nat (length host + S (length x))) (Z.of_nat (length a) + Z.of_nat (length host))); [lia|done].
  - remember (Z.of_nat (length a) + Z.of_nat (length (([CH "["] ++ y ++ [CH "]"]) ++ prt))) as pb eqn:Epb.
    assert (Hpb : Z.of_nat (length a) + Z.of_nat (length y) + 2 <= pb) by (rewrite Epb, !length_app; cbn [length]; lia).
    rewrite <- !app_assoc. cbn [app].
    pose proof (find_found (CH "[") a [] (y ++ CH "]" :: prt ++ pth ++ qry) (not_elem_of_nil _)) as E. cbn [app length] in E. rewrite E, Z.add_0_r. cbn zeta.
    destruct (Z.leb_spec 0 (Z.of_nat (length a))); [|lia]. destruct (Z.ltb_spec (Z.of_nat (length a)) pb); [|lia]. cbn [andb].
    pose proof (find_found (CH "]") a (CH "[" :: y) (prt ++ pth ++ qry)) as E2. cbn [app] in E2. rewrite E2.
    + cbn [length]. destruct (Z.ltb_spec (Z.of_nat (length a) + Z.of_nat (S (length y))) pb); [|lia]. rewrite length_app. cbn [length]. lia.
    + rewrite not_elem_of_cons. split; [done|]. apply (without_not_in _ _ _ Hy). is_in.
Qed.

(** The two slashes. *)
Lemma find_slashes s T : without (BS "/") s → u_find (s ++ BS "://" ++ T) (length (s ++ BS "://" ++ T)) (BS "//") 2 = Ok (Some (Z.of_nat (length s) + 1)).
Proof.
  intros Hs. destruct (u_find_correct (s ++ BS "://" ++ T) [] (BS "//")) as (r & E & Hr); [cbn; lia|].
  rewrite app_nil_r in E. change (length (BS "//")) with 2%nat in E. rewrite E.
  assert (Ho : occurs (s ++ BS "://" ++ T) (BS "//") (S (length s))).
  { exists (s ++ [CH ":"]), T. split; [by rewrite <- app_assoc|]. rewrite length_app. cbn. lia. }
  assert (Hlow : ∀ j, (j <= length s)%nat → ¬ occurs (s ++ BS "://" ++ T) (BS "//") j).
  { intros j Hj (pre & post & E1 & ->).
    assert (E2 : (pre ++ BS "//" ++ post) !! length pre = Some (CH "/")) by (by rewrite lookup_app_r, Nat.sub_diag). rewrite <- E1 in E2.
    destruct (decide (length pre = length s)) as [El|Hne].
    - rewrite El, lookup_app_r, Nat.sub_diag in E2 by done. done.
    - rewrite lookup_app_l in E2 by lia. apply list_elem_of_lookup_2 in E2. revert E2. apply (without_not_in _ _ _ Hs). is_in. }
  destruct r as [i|]; [|by destruct (Hr _ Ho)]. destruct Hr as [Hi Hmin]. do 2 f_equal.
  assert (Z.to_nat i = S (length s)); [|lia].
  assert (¬ Z.of_nat (S (length s)) < i) by (intros H; by apply (Hmin _ H)).
  assert (¬ (Z.to_nat i <= length s)%nat) by (intros H'; by apply (Hlow _ H')). lia.
Qed.

Lemma port_text_ok p : parts_ok p → match port_text p with [] => True | c :: x => c = CH ":" ∧ Forall digit x end.
Proof. intros (_ & _ & _ & Hp & _). unfold port_text. destruct (portno p) as [x|]; [|done]. split; [done|]. by apply Hp. Qed.

Lemma parts_tail p : parts_ok p → tail_ok (pathname p) (query_text p).
Proof.
  intros (_ & _ & _ & _ & Hp & Hq & _). split; [done|]. unfold query_text. destruct (querystr p) as [x|]; [|done]. split; [done|].
  intros E. by apply Hq.
Qed.

Lemma digits_without cs x : Forall digit x → Forall (λ c, ¬ digit c) cs → without cs x.
Proof.
  intros Hx Hcs. apply Forall_forall. intros c Hc Hin. rewrite Forall_forall in Hx, Hcs. by apply (Hcs c Hin), Hx.
Qed.

Lemma authority_ok p : parts_ok p → without (BS "/?") (user_text p ++ hostname p ++ port_text p).
Proof.
  intros Hp. pose proof (port_text_ok p Hp) as Hport. destruct Hp as (_ & Hu & [Hh _] & _). unfold without. rewrite !Forall_app. splits.
  - unfold user_text. destruct (username p) as [x|]; [|constructor]. destruct (Hu x eq_refl) as [_ Hx]. apply Forall_app. split.
    + eapply Forall_impl; [exact Hx|]. cbn. intros c Hc Hin. apply Hc. revert Hin. clear. rewrite !list_elem_of_In. cbn. tauto.
    + repeat constructor. intros Hin. rewrite list_elem_of_In in Hin. cbn in Hin. lia.
  - eapply Forall_impl; [exact Hh|]. cbn. intros c Hc Hin. apply Hc. revert Hin. clear. rewrite !list_elem_of_In. cbn. tauto.
  - destruct (port_text p) as [|c x]; [constructor|]. destruct Hport as [-> Hx]. constructor.
    + intros Hin. rewrite list_elem_of_In in Hin. cbn in Hin. lia.
    + apply digits_without; [done|]. repeat constructor; unfold digit; lia.
Qed.

(** The user, if there is one, ends at the sign. *)
Lemma find_user a p : parts_ok p →
  let at_ := find_char (CH "@") (Z.of_nat (length a)) (a ++ user_text p ++ hostname p ++ port_text p ++ pathname p ++ query_text p) in
  let pb := Z.of_nat (length a) + Z.of_nat (length (user_text p ++ hostname p ++ port_text p)) in
  let none := (at_ <? 0) || (pb <? at_) in
  (if none then Z.of_nat (length a) else at_) = Z.of_nat (length a) + match username p with Some x => Z.of_nat (length x) | None => 0 end ∧
  (if none then Z.of_nat (length a) else at_ + 1) = Z.of_nat (length a) + Z.of_nat (length (user_text p)).
Proof.
  intros Hp. pose proof (port_text_ok p Hp) as Hport. pose proof (parts_tail p Hp) as Ht. destruct Hp as (_ & Hu & [Hh _] & _).
  unfold user_text. destruct (username p) as [x|].
  - destruct (Hu x eq_refl) as [_ Hx]. rewrite <- !app_assoc. cbn [app]. cbn zeta. rewrite find_found by (apply (without_not_in _ _ _ Hx); is_in).
    destruct (Z.ltb_spec (Z.of_nat (length a) + Z.of_nat (length x)) 0); [lia|]. cbn [orb]. rewrite !length_app. cbn [length]. rewrite !length_app.
    match goal with |- context [?u <? ?v] => destruct (Z.ltb_spec u v); [lia|] end. cbn [length]. lia.
  - cbn [app length]. cbn zeta. assert (Hc : CH "@" ∉ hostname p ++ port_text p).
    { rewrite not_elem_of_app. split; [apply (without_not_in _ _ _ Hh); is_in|]. destruct (port_text p) as [|c x]; [apply not_elem_of_nil|].
      destruct Hport as [-> Hx]. rewrite not_elem_of_cons. split; [done|]. intros Hin. rewrite Forall_forall in Hx. apply Hx in Hin. unfold digit in Hin. lia. }
    rewrite (app_assoc (hostname p)).
    destruct (find_behind (CH "@") a (hostname p ++ port_text p) (pathname p ++ query_text p) Hc (tail_head _ _ (CH "@") Ht ltac:(done) ltac:(done))) as [->|H].
    + change (-1 <? 0) with true. cbn [orb]. lia.
    + destruct (Z.ltb_spec (Z.of_nat (length a) + Z.of_nat (length (hostname p ++ port_text p)))
        (find_char (CH "@") (Z.of_nat (length a)) (a ++ (hostname p ++ port_text p) ++ pathname p ++ query_text p))); [|lia].
      rewrite orb_true_r. lia.
Qed.

(** The positions of the parts of a text. *)
Lemma findpos_text p : parts_ok p → findpos (text p) = Ok (located p (path_end (located p 0))).
Proof.
  intros Hp. pose proof (port_text_ok p Hp) as Hport. pose proof (parts_tail p Hp) as Ht. pose proof (authority_ok p Hp) as Hau.
  pose proof (find_user (scheme p ++ BS "://") p Hp) as Hus. pose proof Hp as ((Hs0 & Hs) & _ & Hh & _).
  unfold findpos. pose proof (find_slashes (scheme p) (user_text p ++ hostname p ++ port_text p ++ pathname p ++ query_text p) Hs) as Ef.
  fold (text p) in Ef. rewrite Ef. cbn [mbind res_bind].
  set (a := scheme p ++ BS "://") in *. set (auth := user_text p ++ hostname p ++ port_text p) in *.
  assert (La : Z.of_nat (length a) = Z.of_nat (length (scheme p)) + 3) by (unfold a; rewrite length_app; cbn [length]; lia).
  assert (Et : text p = a ++ auth ++ pathname p ++ query_text p) by (unfold text, a, auth; by rewrite <- !app_assoc).
  assert (Epb : find_path (text p) (Z.of_nat (length (scheme p)) + 1 + 2) = Z.of_nat (length a) + Z.of_nat (length auth)).
  { rewrite Et. replace (Z.of_nat (length (scheme p)) + 1 + 2) with (Z.of_nat (length a)) by lia. by apply find_path_at. }
  rewrite Epb. clear Epb. set (pb := Z.of_nat (length a) + Z.of_nat (length auth)) in *.
  destruct (Z.eqb_spec (Z.of_nat (length (scheme p)) + 1 - 1) 0) as [E0|_]; [destruct (scheme p); [done|cbn in E0; lia]|].
  cbn [andb mbind res_bind]. cbv beta iota zeta. replace (Z.of_nat (length (scheme p)) + 1 + 2) with (Z.of_nat (length a)) by lia.
  replace (a ++ user_text p ++ hostname p ++ port_text p ++ pathname p ++ query_text p) with (text p) in Hus
    by (rewrite Et; unfold auth; by rewrite <- !app_assoc).
  cbn zeta in Hus. fold auth in Hus. fold pb in Hus. set (at_ := find_char (CH "@") (Z.of_nat (length a)) (text p)) in *.
  set (none := (at_ <? 0) || (pb <? at_)) in *.
  assert (Ehost : find_host_end (text p) (Z.of_nat (length (a ++ user_text p))) pb = Z.of_nat (length (a ++ user_text p)) + Z.of_nat (length (hostname p))).
  { replace (text p) with ((a ++ user_text p) ++ hostname p ++ port_text p ++ pathname p ++ query_text p)
      by (rewrite Et; unfold auth; by rewrite <- !app_assoc).
    replace pb with (Z.of_nat (length (a ++ user_text p)) + Z.of_nat (length (hostname p ++ port_text p))) by (unfold pb, auth; rewrite !length_app; lia).
    by apply find_host. }
  assert (Epath := find_path_end (a ++ auth) (pathname p) (query_text p) Ht). rewrite <- app_assoc, <- Et in Epath.
  replace (Z.of_nat (length (a ++ auth))) with pb in Epath by (unfold pb; rewrite length_app; lia). cbn zeta in Epath. rewrite Epath.
  assert (Ehb : (if none then if none then Z.of_nat (length a) else at_ else (if none then Z.of_nat (length a) else at_) + 1)
    = Z.of_nat (length (a ++ user_text p))).
  { rewrite length_app, Nat2Z.inj_add. destruct Hus as [_ <-]. by destruct none. }
  rewrite Ehb, Ehost. destruct Hus as [-> _]. unfold located. cbn [path_end]. rewrite La. unfold pb, auth. rewrite !length_app, !Nat2Z.inj_add, La.
  do 2 f_equal; lia.
Qed.

(** ** Changes of a string at the place of a part *)

Lemma fold_part (a b c : list Z) : Z.of_nat (length (a ++ b ++ c)) < 2 ^ 32 →
  fold (Z.of_nat (length a)) (Z.of_nat (length b)) (Z.of_nat (length (a ++ b ++ c))) = Z.of_nat (length b).
Proof.
  intros Hl. unfold fold. rewrite !length_app in *. rewrite u32_small by lia. cbv beta iota zeta.
  destruct (Z.ltb_spec (Z.of_nat (length b)) (Z.of_nat (length a + (length b + length c)) - Z.of_nat (length a))); lia.
Qed.

Lemma inside (a m : list Z) : (Z.of_nat (length a) <? 0) || (Z.of_nat (length (a ++ m)) <? Z.of_nat (length a)) = false.
Proof. apply orb_false_iff. rewrite length_app. split; apply Z.ltb_ge; lia. Qed.

Lemma substr_part a b c : Z.of_nat (length (a ++ b ++ c)) < 2 ^ 32 →
  substr (Z.of_nat (length a)) (Z.of_nat (length b)) (a ++ b ++ c) = Ok b.
Proof.
  intros Hl. unfold substr. cbv beta zeta. rewrite inside, fold_part by done. by rewrite !Nat2Z.id, drop_app_length, take_app_length.
Qed.

Lemma substr_rest a b : Z.of_nat (length (a ++ b)) < 2 ^ 32 → substr (Z.of_nat (length a)) U_NOT_FOUND (a ++ b) = Ok b.
Proof.
  intros Hl. unfold substr, fold, U_NOT_FOUND. cbv beta zeta. rewrite inside. rewrite length_app in *. rewrite u32_small by lia.
  rewrite Nat2Z.id, drop_app_length. f_equal. apply take_ge.
  destruct (Z.ltb_spec (2 ^ 32 - 1) (Z.of_nat (length a + length b) - Z.of_nat (length a))); lia.
Qed.

Lemma replace_part a b c t : Z.of_nat (length (a ++ b ++ c)) < 2 ^ 32 →
  replace (Z.of_nat (length a)) (Z.of_nat (length b)) t (a ++ b ++ c) = Ok (a ++ t ++ c).
Proof.
  intros Hl. unfold replace. cbv beta zeta. rewrite inside, fold_part, <- Nat2Z.inj_add, !Nat2Z.id, take_app_length by done.
  rewrite (app_assoc a b c), <- length_app, drop_app_length. done.
Qed.

Lemma insert_part a c t : Z.of_nat (length (a ++ c)) < 2 ^ 32 → insert (Z.of_nat (length a)) t (a ++ c) = Ok (a ++ t ++ c).
Proof. intros Hl. apply (replace_part a [] c t). done. Qed.

Lemma erase_rest a b : Z.of_nat (length (a ++ b)) < 2 ^ 32 → erase (Z.of_nat (length a)) U_NOT_FOUND (a ++ b) = Ok a.
Proof.
  intros Hl. unfold erase. assert (Ef : fold (Z.of_nat (length a)) U_NOT_FOUND (Z.of_nat (length (a ++ b))) = Z.of_nat (length b)).
  { unfold fold, U_NOT_FOUND. rewrite length_app in *. rewrite u32_small by lia. cbv zeta.
    destruct (Z.ltb_spec (2 ^ 32 - 1) (Z.of_nat (length a + length b) - Z.of_nat (length a))); lia. }
  rewrite Ef. pose proof (replace_part a b [] []) as E. rewrite !app_nil_r in E. by apply E.
Qed.

(** ** The operations on the parts *)

Definition with_scheme x p := Parts x (username p) (hostname p) (portno p) (pathname p) (querystr p).
Definition with_user x p := Parts (scheme p) (Some x) (hostname p) (portno p) (pathname p) (querystr p).
Definition with_host x p := Parts (scheme p) (username p) x (portno p) (pathname p) (querystr p).
Definition with_port x p := Parts (scheme p) (username p) (hostname p) (Some x) (pathname p) (querystr p).
Definition with_path x p := Parts (scheme p) (username p) (hostname p) (portno p) x (querystr p).
Definition with_query x p := Parts (scheme p) (username p) (hostname p) (portno p) (pathname p) x.

Definition slashed (x : list Z) : list Z := match x with c :: _ => if c =? CH "/" then x else CH "/" :: x | [] => [CH "/"] end.

(** What a query is put behind. *)
Definition prepared (p : parts) : parts := with_query (Some (default [] (querystr p))) (with_path (match pathname p with [] => [CH "/"] | x => x end) p).

Definition joined (q : list Z) : list Z := match last q with None => [] | Some c => if c =? CH "?" then q else q ++ [CH "&"] end.

Definition pair_text (name : list Z) (value : option (list Z)) : list Z :=
  u_url_encode u_uri_encoded_char_mask None name ++
  match value with Some v => CH "=" :: u_url_encode u_uri_encoded_char_mask (Some U_RFC2231) v | None => [] end.

(** A text whose escapes are complete, decoded. *)
Fixpoint unescape (x : list Z) : option (list Z) :=
  match x with
  | [] => Some []
  | c :: x =>
      if c =? CH "+" then r ← unescape x; Some (CH " " :: r)
      else if c =? CH "%" then
        match x with
        | a :: b :: x => if (a =? 0) || (b =? 0) then None else r ← unescape x; Some (u8 (u_hex2int [a; b]) :: r)
        | _ => None
        end
      else r ← unescape x; Some (c :: r)
  end.

Definition port_number (p : parts) : Z :=
  match portno p with
  | Some (c :: x) => dec (c :: x)
  | _ => port_of_service (scheme p)
  end.

(** The identifier of the user, in front of the password. *)
Fixpoint user_id (x : list Z) : list Z :=
  match x with [] => [] | c :: x => if c =? CH ":" then [] else c :: user_id x end.

(** The form of names and values that the documentation of [encode] gives. *)
Definition plain_char (c : Z) : bool :=
  ((CH "a" <=? c) && (c <=? CH "z")) || ((CH "A" <=? c) && (c <=? CH "Z")) || ((CH "0" <=? c) && (c <=? CH "9")) ||
  bool_decide (c ∈ BS ".-*_").

Definition form_char (c : Z) : list Z :=
  let digit d := nth (Z.to_nat d) (BS "0123456789ABCDEF") 0 in
  if c =? CH " " then [CH "+"] else if plain_char c then [c] else [CH "%"; digit (c / 16); digit (c mod 16)].

Definition form_encode (x : list Z) : list Z := concat (map form_char x).

(** What is added for a name and a value, and the query it is added to. *)
Definition entry_text (name : list Z) (value : option (list Z)) : list Z :=
  form_encode name ++ match value with Some (c :: v) => CH "=" :: form_encode (c :: v) | _ => [] end.

Definition separated (q : list Z) : list Z := match q with [] => [] | _ => q ++ [CH "&"] end.

Inductive uop :=
  | SetService (x : list Z) | SetUser (x : list Z) | SetHost (x : list Z) | SetPort (n : Z) | SetPath (x : list Z) | SetQuery (x : list Z)
  | EraseQuery | AddQuery (name : list Z) (value : option (list Z))
  | GetService | GetUser | GetHost | GetPort | GetPath | GetQuery | GetPathAndQuery | IsPath | IsQuery.

Inductive uanswer := Done | Flag (b : bool) | Text (x : list Z) | Number (n : Z).

Definition run_uop (op : uop) (u : Url) : res (Url * uanswer) :=
  match op with
  | SetService x => u ← setService x u; Ok (u, Done)
  | SetUser x => r ← setUser x u; Ok (r.1, Flag r.2)
  | SetHost x => u ← setHost x u; Ok (u, Done)
  | SetPort n => r ← setPort n u; Ok (r.1, Flag r.2)
  | SetPath x => u ← setPath (x ++ [0]) (length x) u; Ok (u, Done)
  | SetQuery x => r ← setQuery (x ++ [0]) (length x) u; Ok (r.1, Flag r.2)
  | EraseQuery => u ← eraseQuery u; Ok (u, Done)
  | AddQuery name value => u ← addQuery name value u; Ok (u, Done)
  | GetService => x ← getService u; Ok (u, Text x)
  | GetUser => x ← getUser u; Ok (u, Text x)
  | GetHost => x ← getHost u; Ok (u, Text x)
  | GetPort => n ← getPort u; Ok (u, Number n)
  | GetPath => x ← getPath u; Ok (u, Text x)
  | GetQuery => x ← getQuery u; Ok (u, Text x)
  | GetPathAndQuery => x ← getPathAndQuery u; Ok (u, Text x)
  | IsPath => Ok (u, Flag (isPath u))
  | IsQuery => Ok (u, Flag (isQuery u))
  end.

Definition spec_uop (op : uop) (p : parts) : parts * uanswer :=
  match op with
  | SetService x => (with_scheme x p, Done)
  | SetUser x => (with_user x p, Flag true)
  | SetHost x => (with_host x p, Done)
  | SetPort n => if n <=? 0xFFFF then (with_port (Printf.number_chars n) p, Flag true) else (p, Flag false)
  | SetPath x => (with_path (slashed x) p, Done)
  | SetQuery x => (with_query (Some x) (prepared p), Flag true)
  | EraseQuery => (with_query None p, Done)
  | AddQuery [] _ => (p, Done)
  | AddQuery name value => (with_query (Some (separated (default [] (querystr p)) ++ entry_text name value)) (prepared p), Done)
  | GetService => (p, Text (scheme p))
  | GetUser => (p, Text (user_id (default [] (username p))))
  | GetHost => (p, Text (hostname p))
  | GetPort => (p, Number (port_number p))
  | GetPath => (p, Text (match pathname p with [] => [CH "/"] | x => default [] (unescape x) end))
  | GetQuery => (p, Text (default [] (unescape (default [] (querystr p)))))
  | GetPathAndQuery => (p, Text (match pathname p with [] => [CH "/"] | x => x end ++ query_text p))
  | IsPath => (p, Flag (bool_decide (pathname p ≠ [])))
  | IsQuery => (p, Flag (bool_decide (default [] (querystr p) ≠ [])))
  end.

(** The characters that the program encodes as it is documented: it encodes the asterisk and leaves the tilde. *)
Definition encodable (x : list Z) : Prop := bytes x ∧ without (BS "*~") x ∧ Z.of_nat (length x) < 2 ^ 30.

(** The parts remain parts of a locator, and the arguments and the parts are such that the code does what is
    documented; the lemmas at the end of the file show what it does for others. *)
Definition uop_ok (op : uop) (p : parts) : Prop :=
  parts_ok (spec_uop op p).1 ∧
  match op with
  | SetPort n => 0 <= n < 2 ^ 32
  | SetQuery x => match x with c :: _ => c ≠ CH "?" | [] => True end
  | AddQuery name value =>
      name ≠ [] ∧ value ≠ Some [] ∧ encodable name ∧ encodable (default [] value) ∧ last (default [] (querystr p)) ≠ Some (CH "?")
  | GetUser => CH ":" ∉ default [] (username p)
  | GetPort => match portno p with Some (c :: x) => (length (c :: x) <= 5)%nat ∧ dec (c :: x) <= 0xFFFF | _ => True end
  | GetPath => unescape (pathname p) ≠ None ∧ Z.of_nat (length (pathname p)) <= U_CAPACITY
  | GetQuery => unescape (default [] (querystr p)) ≠ None
  | GetPathAndQuery => pathname p ≠ [] ∨ querystr p = None
  | _ => True
  end.

(** ** Decoding and numbers *)

Lemma decode_unescape n : ∀ x t rest, (length x <= n)%nat → unescape x = Some t →
  url_decode_loop false (x ++ rest) (Z.of_nat (length x)) = Ok t ∧ (length t <= length x)%nat.
Proof.
  induction n as [|n IH]; intros x t rest Hn Hx; (destruct x as [|c x]; [injection Hx as <-; cbn; split; [by destruct rest|lia]|]); [cbn in Hn; lia|].
  cbn [length] in Hn. cbn [unescape] in Hx. cbn [app url_decode_loop].
  destruct (Z.leb_spec (Z.of_nat (length (c :: x))) 0); [cbn in *; lia|].
  assert (Hl : Z.of_nat (length (c :: x)) - 1 = Z.of_nat (length x)) by (cbn [length]; lia).
  destruct (c =? CH "+"); [|destruct (c =? CH "%")].
  - destruct (unescape x) as [r|] eqn:E; [|done]. injection Hx as <-. destruct (IH x r rest ltac:(lia) E) as [E' Hr]. rewrite Hl, E'. split; [done|cbn; lia].
  - destruct x as [|a [|b x]]; [done|done|]. destruct (Z.eqb_spec a 0); [done|]. destruct (Z.eqb_spec b 0); [done|]. cbn [orb] in Hx.
    destruct (unescape x) as [r|] eqn:E; [|done]. injection Hx as <-. cbn [length] in Hn. destruct (IH x r rest ltac:(lia) E) as [E' Hr].
    cbn [mbind res_bind app]. rewrite (proj2 (Z.eqb_neq a 0)), (proj2 (Z.eqb_neq b 0)) by done.
    replace (Z.of_nat (length (c :: a :: b :: x)) - 3) with (Z.of_nat (length x)) by (cbn [length]; lia). rewrite E'. split; [done|cbn; lia].
  - destruct (unescape x) as [r|] eqn:E; [|done]. injection Hx as <-. destruct (IH x r rest ltac:(lia) E) as [E' Hr]. rewrite Hl, E'. split; [done|cbn; lia].
Qed.

Lemma decode_part a x c t capacity : unescape x = Some t → Z.of_nat (length x) <= capacity →
  decode (a ++ x ++ c) (Z.of_nat (length a)) (Z.of_nat (length x)) capacity = Ok t.
Proof.
  intros Hx Hc. unfold decode, u_url_decode. rewrite Nat2Z.id, <- !app_assoc, drop_app_length.
  destruct (decode_unescape (length x) x t (c ++ [0]) ltac:(lia) Hx) as [-> Hl]. cbn [mbind res_bind].
  destruct (Z.ltb_spec capacity (Z.of_nat (length t))); [lia|done].
Qed.

Lemma fold_dec_bound ds acc : Forall digit ds → fold_left (λ a c, a * 10 + (c - 48)) ds acc < (acc + 1) * 10 ^ Z.of_nat (length ds).
Proof.
  intros Hds. revert acc. induction Hds as [|d ds Hd _ IH]; intros acc; cbn [fold_left length]; [cbn; lia|].
  specialize (IH (acc * 10 + (d - 48))). rewrite Nat2Z.inj_succ, Z.pow_succ_r by lia. unfold digit in Hd.
  assert (0 < 10 ^ Z.of_nat (length ds)) by (apply Z.pow_pos_nonneg; lia). nia.
Qed.

Lemma atoi_port c ds : Forall digit (c :: ds) → (length (c :: ds) <= 5)%nat → 
  atoi ((c :: ds) ++ replicate (6 - length (c :: ds)) 0) = Ok (dec (c :: ds)).
Proof.
  intros Hds Hl. pose proof Hds as [Hc _]%Forall_cons. unfold digit in Hc. unfold atoi.
  assert (Hsk : skip_white ((c :: ds) ++ replicate (6 - length (c :: ds)) 0) = (c :: ds) ++ replicate (6 - length (c :: ds)) 0).
  { cbn [app skip_white]. destruct (Z.leb_spec c 13); [lia|]. rewrite andb_false_r. destruct (Z.eqb_spec c 32); [lia|done]. }
  rewrite Hsk. change (rd ((c :: ds) ++ replicate (6 - length (c :: ds)) 0) 0) with (Ok c). cbn [mbind res_bind].
  rewrite (proj2 (Z.eqb_neq c (CH "-"))), (proj2 (Z.eqb_neq c (CH "+"))) by lia. cbn [orb].
  replace (6 - length (c :: ds))%nat with (S (5 - length (c :: ds))) by lia. cbn [replicate].
  rewrite digits_read; [|done|split; lia|done]. cbn [mbind res_bind fst]. fold (dec (c :: ds)).
  pose proof (dec_nonneg _ Hds) as Hn. pose proof (fold_dec_bound (c :: ds) 0 Hds) as Hb. fold (dec (c :: ds)) in Hb.
  assert (10 ^ Z.of_nat (length (c :: ds)) <= 10 ^ 5) by (apply Z.pow_le_mono_r; lia).
  unfold Xml.clamp_long, i32. rewrite Z.min_r, Z.max_r by lia. rewrite Z.mod_small; [f_equal; lia|lia].
Qed.

(** ** The text around each part *)

Definition pre_user p := scheme p ++ BS "://".
Definition pre_host p := pre_user p ++ user_text p.
Definition pre_port p := pre_host p ++ hostname p.
Definition pre_path p := pre_port p ++ port_text p.
Definition pre_query p := pre_path p ++ pathname p.

Lemma positions p q :
  service_end (located p q) = Z.of_nat (length (scheme p)) ∧ user_begin (located p q) = Z.of_nat (length (pre_user p)) ∧
  host_begin (located p q) = Z.of_nat (length (pre_host p)) ∧ host_end (located p q) = Z.of_nat (length (pre_port p)) ∧
  path_begin (located p q) = Z.of_nat (length (pre_path p)) ∧ path_end (located p q) = Z.of_nat (length (pre_query p)).
Proof.
  unfold located, pre_query, pre_path, pre_port, pre_host, pre_user. cbn [service_end user_begin host_begin host_end path_begin path_end].
  rewrite !length_app. cbn [length]. splits; lia.
Qed.

Lemma text_user p : text p = pre_user p ++ user_text p ++ hostname p ++ port_text p ++ pathname p ++ query_text p.
Proof. unfold text, pre_user. by rewrite <- !app_assoc. Qed.
Lemma text_host p : text p = pre_host p ++ hostname p ++ port_text p ++ pathname p ++ query_text p.
Proof. rewrite text_user. unfold pre_host. by rewrite <- !app_assoc. Qed.
Lemma text_port p : text p = pre_port p ++ port_text p ++ pathname p ++ query_text p.
Proof. rewrite text_host. unfold pre_port. by rewrite <- !app_assoc. Qed.
Lemma text_path p : text p = pre_path p ++ pathname p ++ query_text p.
Proof. rewrite text_port. unfold pre_path. by rewrite <- !app_assoc. Qed.
Lemma text_query p : text p = pre_query p ++ query_text p.
Proof. rewrite text_path. unfold pre_query. by rewrite <- !app_assoc. Qed.

Section Operations.
Context (p : parts) (q : Z) (Hp : parts_ok p).

Lemma text_small : Z.of_nat (length (text p)) < 2 ^ 32.
Proof. destruct Hp as (_ & _ & _ & _ & _ & _ & H). lia. Qed.

Lemma host_there : (0 < length (hostname p))%nat.
Proof. destruct Hp as (_ & _ & [_ [[H _]|(y & -> & _)]] & _); [destruct (hostname p); [done|cbn; lia]|cbn; lia]. Qed.

Lemma local_file : isLocalFile (located p q) = true.
Proof.
  unfold isLocalFile. destruct (positions p q) as (_ & _ & -> & -> & _). apply Z.ltb_lt. unfold pre_port. rewrite length_app.
  pose proof host_there. lia.
Qed.

Lemma get_service : getService (located p q) = Ok (scheme p).
Proof.
  unfold getService. destruct (positions p q) as (-> & _). destruct Hp as ((Hs & _) & _).
  destruct (Z.ltb_spec 0 (Z.of_nat (length (scheme p)))) as [_|H]; [|destruct (scheme p); [done|cbn in H; lia]].
  apply (substr_part [] (scheme p)). apply text_small.
Qed.

Lemma get_user : getUser (located p q) = Ok (default [] (username p)).
Proof.
  unfold getUser. destruct (positions p q) as (_ & E & _). rewrite E. pose proof text_small as Hl.
  assert (Ee : user_end (located p q) = Z.of_nat (length (pre_user p)) + match username p with Some x => Z.of_nat (length x) | None => 0 end).
  { rewrite <- E. done. }
  rewrite Ee. change (url (located p q)) with (text p). rewrite text_user in *. unfold user_text in *. destruct (username p) as [x|] eqn:Eu; cbn [default].
  - destruct Hp as (_ & Hu & _). destruct (Hu x Eu) as [Hx _].
    destruct (Z.ltb_spec (Z.of_nat (length (pre_user p))) (Z.of_nat (length (pre_user p)) + Z.of_nat (length x))) as [_|H]; [|destruct x; [done|cbn in H; lia]].
    rewrite Z.add_simpl_l. rewrite <- !app_assoc in *. by apply substr_part.
  - rewrite Z.add_0_r, Z.ltb_irrefl. done.
Qed.

Lemma get_host : getHost (located p q) = Ok (hostname p).
Proof.
  pose proof local_file as Hl. unfold isLocalFile in Hl. unfold getHost. rewrite Hl. pose proof text_small as Ht.
  destruct (positions p q) as (_ & _ & -> & -> & _). change (url (located p q)) with (text p). rewrite text_host in *.
  replace (Z.of_nat (length (pre_port p)) - Z.of_nat (length (pre_host p))) with (Z.of_nat (length (hostname p))) by (unfold pre_port; rewrite length_app; lia).
  by apply substr_part.
Qed.

Lemma get_path_and_query : getPathAndQuery (located p q) = Ok (match pathname p with [] => [CH "/"] | x => x ++ query_text p end).
Proof.
  unfold getPathAndQuery. destruct (positions p q) as (_ & _ & _ & _ & -> & ->). change (url (located p q)) with (text p). pose proof text_small as Ht.
  rewrite text_path in *. unfold pre_query. rewrite length_app.
  destruct (Z.ltb_spec (Z.of_nat (length (pre_path p))) (Z.of_nat (length (pre_path p) + length (pathname p)))) as [H|H].
  - rewrite substr_rest by done. destruct (pathname p); [cbn in H; lia|done].
  - destruct (pathname p); [done|cbn in H; lia].
Qed.

Lemma is_path : isPath (located p q) = bool_decide (pathname p ≠ []).
Proof.
  unfold isPath. destruct (positions p q) as (_ & _ & _ & _ & -> & ->). unfold pre_query. rewrite length_app. destruct (pathname p) as [|c x].
  - rewrite bool_decide_eq_false_2 by (intros H; by apply H). apply Z.ltb_ge. cbn. lia.
  - rewrite bool_decide_eq_true_2 by done. apply Z.ltb_lt. cbn. lia.
Qed.

Lemma size_text : size (located p q) = Z.of_nat (length (pre_query p)) + Z.of_nat (length (query_text p)).
Proof. unfold size. change (url (located p q)) with (text p). rewrite text_query, length_app. lia. Qed.

Lemma size_int : i32 (size (located p q) - 1) = size (located p q) - 1.
Proof.
  destruct Hp as (_ & _ & _ & _ & _ & _ & H). unfold size. change (url (located p q)) with (text p). unfold i32. rewrite Z.mod_small; lia.
Qed.

Lemma is_query : isQuery (located p q) = bool_decide (default [] (querystr p) ≠ []).
Proof.
  unfold isQuery. rewrite size_int, size_text. destruct (positions p q) as (_ & _ & _ & _ & _ & ->). unfold query_text.
  destruct (querystr p) as [[|c x]|]; cbn [default].
  - rewrite bool_decide_eq_false_2 by (intros H; by apply H). apply Z.ltb_ge. cbn. lia.
  - rewrite bool_decide_eq_true_2 by done. apply Z.ltb_lt. cbn [length]. lia.
  - rewrite bool_decide_eq_false_2 by (intros H; by apply H). apply Z.ltb_ge. cbn. lia.
Qed.

Lemma get_port_text : getPort_text (located p q)
  = Ok (match portno p with Some (c :: x) => if (length (c :: x) <=? 5)%nat then c :: x else [] | _ => [] end).
Proof.
  unfold getPort_text. destruct (positions p q) as (_ & _ & _ & -> & -> & _).
  pose proof text_small as Ht. change (url (located p q)) with (text p). rewrite text_port in *. unfold pre_path. unfold port_text in *.
  rewrite length_app. destruct (portno p) as [[|c x]|] eqn:Ep; cbn [length].
  - destruct (Z.ltb_spec (Z.of_nat (length (pre_port p))) (Z.of_nat (length (pre_port p) + 1))); [|lia].
    by replace (Z.of_nat (length (pre_port p) + 1) - Z.of_nat (length (pre_port p)) - 1) with 0 by lia.
  - destruct (Z.ltb_spec (Z.of_nat (length (pre_port p))) (Z.of_nat (length (pre_port p) + S (S (length x))))); [|lia].
    replace (Z.of_nat (length (pre_port p) + S (S (length x))) - Z.of_nat (length (pre_port p)) - 1) with (Z.of_nat (length (c :: x))) by (cbn [length]; lia).
    rewrite u32_small by (rewrite !length_app in Ht; cbn [length] in *; lia).
    rewrite (proj2 (Z.eqb_neq (Z.of_nat (length (c :: x))) 0)) by (cbn [length]; lia). cbn [negb andb].
    destruct (Nat.leb_spec (S (length x)) 5) as [Hl|Hl].
    + rewrite (proj2 (Z.leb_le (Z.of_nat (length (c :: x))) 5)) by (cbn [length]; lia).
      pose proof (substr_part (pre_port p ++ [CH ":"]) (c :: x) (pathname p ++ query_text p)) as E. rewrite <- !app_assoc in E. cbn [app] in E.
      replace (Z.of_nat (length (pre_port p)) + 1) with (Z.of_nat (length (pre_port p ++ [CH ":"]))) by (rewrite length_app; cbn [length]; lia).
      cbn [app] in *. by apply E.
    + by rewrite (proj2 (Z.leb_gt (Z.of_nat (length (c :: x))) 5)) by (cbn [length]; lia).
  - by rewrite Nat.add_0_r, Z.ltb_irrefl.
Qed.

Lemma get_port : match portno p with Some (c :: x) => (length (c :: x) <= 5)%nat | _ => True end →
  getPort (located p q) = Ok (port_number p).
Proof.
  intros Hl5.
  assert (Hdef : (if 0 <? service_end (located p q) then s ← substr 0 (service_end (located p q)) (url (located p q)); Ok (port_of_service s) else Ok (-1))
    = Ok (port_of_service (scheme p))).
  { pose proof get_service as E. unfold getService in E. destruct (positions p q) as (Es & _). rewrite Es in *. destruct Hp as ((Hs & _) & _).
    destruct (Z.ltb_spec 0 (Z.of_nat (length (scheme p)))) as [_|H]; [|destruct (scheme p); [done|cbn in H; lia]]. by rewrite E. }
  unfold getPort, port_number. rewrite get_port_text. cbn [mbind res_bind]. destruct Hp as (_ & _ & _ & Hport & _).
  destruct (portno p) as [[|c x]|] eqn:Ep; [exact Hdef| |exact Hdef]. destruct (Nat.leb_spec (length (c :: x)) 5) as [Hl|Hl]; [|lia].
  apply atoi_port; [by apply Hport|done].
Qed.

Lemma get_path : unescape (pathname p) ≠ None → Z.of_nat (length (pathname p)) <= U_CAPACITY →
  getPath (located p q) = Ok (match pathname p with [] => [CH "/"] | x => default [] (unescape x) end).
Proof.
  intros Hu Hc. unfold getPath. destruct (positions p q) as (_ & _ & _ & _ & -> & ->). change (url (located p q)) with (text p).
  rewrite text_path. unfold pre_query. rewrite length_app. destruct (unescape (pathname p)) as [t|] eqn:E; [|done].
  destruct (Z.ltb_spec (Z.of_nat (length (pre_path p))) (Z.of_nat (length (pre_path p) + length (pathname p)))) as [H|H].
  - replace (Z.of_nat (length (pre_path p) + length (pathname p)) - Z.of_nat (length (pre_path p))) with (Z.of_nat (length (pathname p))) by lia.
    rewrite (decode_part _ _ _ t) by done. destruct (pathname p); [cbn in H; lia|]. by rewrite E.
  - destruct (pathname p); [done|cbn in H; lia].
Qed.

Lemma get_query : unescape (default [] (querystr p)) ≠ None → getQuery (located p q) = Ok (default [] (unescape (default [] (querystr p)))).
Proof.
  intros Hu. unfold getQuery. rewrite is_query. rewrite size_int, size_text. destruct (positions p q) as (_ & _ & _ & _ & _ & ->).
  change (url (located p q)) with (text p). pose proof text_small as Ht. rewrite text_query in *. unfold query_text in *.
  destruct (querystr p) as [[|c x]|]; cbn [default] in *.
  - rewrite bool_decide_eq_false_2 by (intros H; by apply H). done.
  - rewrite bool_decide_eq_true_2 by done. destruct (unescape (c :: x)) as [t|] eqn:E; [|done].
    rewrite length_app in Ht.
    replace (Z.of_nat (length (pre_query p)) + Z.of_nat (length (CH "?" :: c :: x)) - 1 - Z.of_nat (length (pre_query p))) with (Z.of_nat (length (c :: x))) by (cbn [length]; lia).
    rewrite u32_small by (cbn [length] in *; lia). replace (Z.of_nat (length (pre_query p)) + 1) with (Z.of_nat (length (pre_query p ++ [CH "?"]))) by (rewrite length_app; cbn [length]; lia).
    pose proof (decode_part (pre_query p ++ [CH "?"]) (c :: x) [] t (ucapacity (new_string (Z.of_nat (length (c :: x)))))) as Ed.
    rewrite app_nil_r, <- app_assoc in Ed. unfold id in *. rewrite E. apply Ed; [done|]. unfold new_string, U_HOW_MUCH_PREALLOCATE. cbn [ucapacity]. rewrite Z.leb_refl.
    pose proof (create_room (Z.of_nat (length (c :: x)))). destruct (_ <=? U_CAPACITY); done.
  - rewrite bool_decide_eq_false_2 by (intros H; by apply H). done.
Qed.

(** *** Changes *)

Lemma set_service x : parts_ok (with_scheme x p) → ∃ q', setService x (located p q) = Ok (located (with_scheme x p) q').
Proof.
  intros H. unfold setService. destruct (positions p q) as (-> & _). pose proof text_small as Hl. pose proof Hp as ((Hs & _) & _).
  destruct (Z.ltb_spec 0 (Z.of_nat (length (scheme p)))) as [_|H']; [|destruct (scheme p); [done|cbn in H'; lia]].
  change (url (located p q)) with (text p). unfold text in *. pose proof (replace_part [] (scheme p) (BS "://" ++ user_text p ++ hostname p ++ port_text p ++ pathname p ++ query_text p) x Hl) as E.
  cbn [app length] in E. change (Z.of_nat 0) with 0 in E. cbn [app]. rewrite E. cbn [mbind res_bind]. eexists. by apply (findpos_text (with_scheme x p)).
Qed.

Lemma set_user x : parts_ok (with_user x p) → ∃ q', setUser x (located p q) = Ok (located (with_user x p) q', true).
Proof.
  intros H. unfold setUser. rewrite local_file. pose proof (findpos_text _ H) as Hf. pose proof text_small as Hl.
  assert (Hl' : Z.of_nat (length (text (with_user x p))) < 2 ^ 31) by apply H.
  set (T := hostname p ++ port_text p ++ pathname p ++ query_text p).
  assert (Ht' : text (with_user x p) = pre_user p ++ x ++ [CH "@"] ++ T).
  { rewrite text_user. unfold user_text, T. cbn [username with_user]. by rewrite <- app_assoc. }
  assert (E : (if user_begin (located p q) <? user_end (located p q)
    then replace (user_begin (located p q)) (user_end (located p q) - user_begin (located p q)) x (url (located p q))
    else s ← insert (user_begin (located p q)) [CH "@"] (url (located p q)); insert (user_begin (located p q)) x s) = Ok (text (with_user x p))).
  { destruct (positions p q) as (_ & Eb & _).
    assert (Ee : user_end (located p q) = Z.of_nat (length (pre_user p)) + match username p with Some x => Z.of_nat (length x) | None => 0 end) by (by rewrite <- Eb).
    rewrite Ee, Eb, Ht'. rewrite Ht' in Hl'. change (url (located p q)) with (text p). rewrite text_user in *. fold T in Hl |- *. unfold user_text in *.
    destruct (username p) as [y|] eqn:Ey.
    - destruct Hp as (_ & Hu & _). destruct (Hu y Ey) as [Hy _].
      destruct (Z.ltb_spec (Z.of_nat (length (pre_user p))) (Z.of_nat (length (pre_user p)) + Z.of_nat (length y))) as [_|H']; [|destruct y; [done|cbn in H'; lia]].
      rewrite Z.add_simpl_l. rewrite <- !app_assoc in *. by apply replace_part.
    - rewrite Z.add_0_r, Z.ltb_irrefl. cbn [app] in *. rewrite insert_part by done. cbn [mbind res_bind]. rewrite insert_part; [done|].
      rewrite !length_app in *. cbn [length] in *. lia. }
  rewrite E. cbn [mbind res_bind]. rewrite Hf. cbn [mbind res_bind]. by eexists.
Qed.

Lemma set_host x : parts_ok (with_host x p) → ∃ q', setHost x (located p q) = Ok (located (with_host x p) q').
Proof.
  intros H. pose proof local_file as Hloc. unfold isLocalFile in Hloc. unfold setHost. rewrite Hloc. pose proof text_small as Ht.
  destruct (positions p q) as (_ & _ & -> & -> & _). change (url (located p q)) with (text p). rewrite text_host in *.
  replace (Z.of_nat (length (pre_port p)) - Z.of_nat (length (pre_host p))) with (Z.of_nat (length (hostname p))) by (unfold pre_port; rewrite length_app; lia).
  rewrite replace_part by done. cbn [mbind res_bind]. eexists. pose proof (findpos_text _ H) as Hf. rewrite text_host in Hf. exact Hf.
Qed.

Lemma set_port n : n <= 0xFFFF → parts_ok (with_port (Printf.number_chars n) p) →
  ∃ q', setPort n (located p q) = Ok (located (with_port (Printf.number_chars n) p) q', true).
Proof.
  intros Hn H. unfold setPort. rewrite local_file, (proj2 (Z.leb_le n 0xFFFF)) by done. cbn [andb]. pose proof text_small as Ht.
  destruct (positions p q) as (_ & _ & _ & -> & -> & _). change (url (located p q)) with (text p). rewrite text_port in *.
  replace (Z.of_nat (length (pre_path p)) - Z.of_nat (length (pre_port p))) with (Z.of_nat (length (port_text p))) by (unfold pre_path; rewrite length_app; lia).
  rewrite replace_part by done. cbn [mbind res_bind]. pose proof (findpos_text _ H) as Hf. rewrite text_port in Hf.
  change (findpos (pre_port p ++ (CH ":" :: Printf.number_chars n) ++ pathname p ++ query_text p)
    = Ok (located (with_port (Printf.number_chars n) p) (path_end (located (with_port (Printf.number_chars n) p) 0)))) in Hf.
  rewrite Hf. by eexists.
Qed.

Lemma first_char (x : list Z) : rd (x ++ [0]) 0 = Ok (match x with c :: _ => c | [] => 0 end).
Proof. by destruct x. Qed.

Lemma set_path x : parts_ok (with_path (slashed x) p) → ∃ q', setPath (x ++ [0]) (length x) (located p q) = Ok (located (with_path (slashed x) p) q').
Proof.
  intros H. unfold setPath. rewrite first_char. cbn [mbind res_bind]. destruct (Nat.leb_spec (length x) (length (x ++ [0]))) as [_|H']; [|rewrite length_app in H'; lia].
  rewrite take_app_length. pose proof (findpos_text _ H) as Hf. rewrite text_path in Hf. cbn [pathname with_path] in Hf.
  change (pre_path (with_path (slashed x) p)) with (pre_path p) in Hf. change (query_text (with_path (slashed x) p)) with (query_text p) in Hf.
  assert (Hl' : Z.of_nat (length (pre_path p ++ slashed x ++ query_text p)) < 2 ^ 31).
  { destruct H as (_ & _ & _ & _ & _ & _ & H). rewrite text_path in H. exact H. }
  pose proof text_small as Ht. destruct (positions p q) as (_ & _ & _ & _ & -> & ->). change (url (located p q)) with (text p). rewrite text_path in *.
  unfold pre_query. rewrite length_app. destruct Hp as (_ & _ & _ & _ & (Hslash & _) & _). set (c := match x with c :: _ => c | [] => 0 end) in *.
  assert (Es : slashed x = if c =? CH "/" then x else CH "/" :: x) by (unfold c; by destruct x).
  eexists. rewrite <- Hf. clear Hf. rewrite Es in *. destruct (pathname p) as [|d y]; cbn [length].
  - rewrite Nat.add_0_r, Z.ltb_irrefl. cbn [app] in *. destruct (c =? CH "/").
    + by rewrite insert_part.
    + rewrite insert_part by done. cbn [mbind res_bind].
      replace (Z.of_nat (length (pre_path p)) + 1) with (Z.of_nat (length (pre_path p ++ [CH "/"]))) by (rewrite length_app; cbn [length]; lia).
      rewrite (app_assoc (pre_path p) [CH "/"]), insert_part; [by rewrite <- !app_assoc|]. clear -Hl'. lengths.
  - subst d. destruct (Z.ltb_spec (Z.of_nat (length (pre_path p))) (Z.of_nat (length (pre_path p) + S (length y)))); [|lia]. destruct (c =? CH "/").
    + replace (Z.of_nat (length (pre_path p) + S (length y)) - Z.of_nat (length (pre_path p))) with (Z.of_nat (length (CH "/" :: y))) by (cbn [length]; lia).
      by rewrite replace_part.
    + replace (Z.of_nat (length (pre_path p)) + 1) with (Z.of_nat (length (pre_path p ++ [CH "/"]))) by (rewrite length_app; cbn [length]; lia).
      replace (Z.of_nat (length (pre_path p) + S (length y)) - Z.of_nat (length (pre_path p ++ [CH "/"]))) with (Z.of_nat (length y)) by (rewrite length_app; cbn [length]; lia).
      pose proof (replace_part (pre_path p ++ [CH "/"]) y (query_text p) x) as E. rewrite <- !app_assoc in E. cbn [app] in E. cbn [app]. by rewrite E.
Qed.

(** *** The query *)

Lemma text_prepared : text (prepared p) = pre_query (prepared p) ++ [CH "?"] ++ default [] (querystr p).
Proof. by rewrite text_query. Qed.

Lemma prepared_small : Z.of_nat (length (text (prepared p))) < 2 ^ 32.
Proof.
  destruct Hp as (_ & _ & _ & _ & _ & _ & H). revert H. rewrite text_prepared, text_query. unfold pre_query, prepared. cbn [pathname with_path with_query].
  change (pre_path (with_query _ (with_path _ p))) with (pre_path p). unfold query_text. intros H.
  destruct (pathname p), (querystr p); cbn [default] in *; unfold id in *; lengths.
Qed.

Lemma prepare : prepareForQuery (located p q) = Ok (located (prepared p) q, true).
Proof.
  pose proof local_file as Hloc. unfold isLocalFile in Hloc. unfold prepareForQuery. rewrite Hloc. pose proof text_small as Hl.
  set (p1 := with_path (match pathname p with [] => [CH "/"] | x => x end) p).
  assert (E1 : (if path_begin (located p q) =? path_end (located p q)
    then s ← insert (path_begin (located p q)) [CH "/"] (url (located p q)); Ok (set_path_end (path_end (located p q) + 1) (set_url s (located p q)))
    else Ok (located p q)) = Ok (located p1 q)).
  { destruct (positions p q) as (_ & _ & _ & _ & Eb & Ee). rewrite Eb, Ee. unfold pre_query. rewrite length_app. destruct (pathname p) as [|c x] eqn:Epath; cbn [length].
    - rewrite Nat.add_0_r, Z.eqb_refl. change (url (located p q)) with (text p). rewrite text_path in *. rewrite Epath in *. cbn [app] in *.
      rewrite insert_part by done. cbn [mbind res_bind]. f_equal. unfold located, set_path_end, set_url. cbn [service_end user_begin user_end host_begin host_end path_begin path_end query].
      rewrite text_path. unfold p1. cbn [pathname with_path]. change (pre_path (with_path _ p)) with (pre_path p). change (query_text (with_path _ p)) with (query_text p).
      destruct (positions p q) as (_ & _ & _ & _ & Eb' & _). unfold located in Eb'. cbn [path_begin] in Eb'. f_equal. cbn [length]. 
      change (user_text (with_path _ p)) with (user_text p). change (port_text (with_path _ p)) with (port_text p). cbn [scheme hostname with_path]. lia.
    - destruct (Z.eqb_spec (Z.of_nat (length (pre_path p))) (Z.of_nat (length (pre_path p) + S (length x)))); [lia|].
      unfold p1. rewrite <- Epath. by destruct p. }
  rewrite E1. cbn [mbind res_bind]. do 2 f_equal. unfold size. change (url (located p1 q)) with (text p1).
  destruct (positions p1 q) as (_ & _ & _ & _ & _ & ->). rewrite text_query at 1. rewrite length_app. change (query_text p1) with (query_text p).
  unfold query_text. change (prepared p) with (with_query (Some (default [] (querystr p))) p1). destruct (querystr p) as [x|] eqn:Eq; cbn [length].
  - destruct (Z.eqb_spec (Z.of_nat (length (pre_query p1))) (Z.of_nat (length (pre_query p1) + S (length x)))); [lia|].
    unfold p1, with_query, with_path. cbn [default]. by rewrite Eq.
  - rewrite Nat.add_0_r, Z.eqb_refl. unfold located, set_url. cbn [service_end user_begin user_end host_begin host_end path_begin path_end query].
    rewrite !text_query. change (pre_query (with_query _ p1)) with (pre_query p1). unfold query_text. cbn [querystr with_query default].
    change (querystr p1) with (querystr p). rewrite Eq. by rewrite app_nil_r.
Qed.

Lemma set_url_query p0 a : set_url (pre_query p0 ++ [CH "?"] ++ a) (located p0 q) = located (with_query (Some a) p0) q.
Proof.
  unfold set_url. transitivity (MkUrl (text (with_query (Some a) p0)) (service_end (located p0 q)) (user_begin (located p0 q)) (user_end (located p0 q))
    (host_begin (located p0 q)) (host_end (located p0 q)) (path_begin (located p0 q)) (path_end (located p0 q)) q); [|done].
  f_equal. by rewrite text_query.
Qed.

Lemma set_query_text x : match x with c :: _ => c ≠ CH "?" | [] => True end →
  setQuery (x ++ [0]) (length x) (located p q) = Ok (located (with_query (Some x) (prepared p)) q, true).
Proof.
  intros Hx. unfold setQuery. rewrite prepare. cbn [mbind res_bind]. rewrite first_char. cbn [mbind res_bind].
  assert (Hc : (match x with c :: _ => c | [] => 0 end =? CH "?") = false) by (destruct x; [done|by apply Z.eqb_neq]). rewrite Hc.
  destruct (Nat.leb_spec (length x) (length (x ++ [0]))) as [_|H']; [|rewrite length_app in H'; lia]. rewrite take_app_length.
  pose proof prepared_small as Hl. unfold size. change (url (located (prepared p) q)) with (text (prepared p)).
  destruct (positions (prepared p) q) as (_ & _ & _ & _ & _ & ->). rewrite text_prepared in *.
  replace (Z.of_nat (length (pre_query (prepared p))) + 1) with (Z.of_nat (length (pre_query (prepared p) ++ [CH "?"]))) by lengths.
  replace (Z.of_nat (length (pre_query (prepared p) ++ [CH "?"] ++ default [] (querystr p))) - Z.of_nat (length (pre_query (prepared p))) - 1)
    with (Z.of_nat (length (default [] (querystr p)))) by (clear -Hl; lengths). rewrite u32_small by (clear -Hl; lengths).
  pose proof (replace_part (pre_query (prepared p) ++ [CH "?"]) (default [] (querystr p)) [] x) as E. rewrite !app_nil_r, <- !app_assoc in E.
  rewrite E by done. cbn [mbind res_bind]. by rewrite set_url_query.
Qed.

Lemma erase_query : ∃ q', eraseQuery (located p q) = Ok (located (with_query None p) q').
Proof.
  unfold eraseQuery. rewrite size_text. destruct (positions p q) as (_ & _ & _ & _ & _ & ->). pose proof text_small as Hl. change (url (located p q)) with (text p).
  rewrite text_query in *. destruct (Z.ltb_spec (Z.of_nat (length (pre_query p))) (Z.of_nat (length (pre_query p)) + Z.of_nat (length (query_text p)))) as [H|H].
  - rewrite erase_rest by done. cbn [mbind res_bind]. exists (Z.of_nat (length (pre_query p))). f_equal.
    assert (Et : text (with_query None p) = pre_query p) by (rewrite text_query; apply app_nil_r).
    transitivity (set_query (Z.of_nat (length (pre_query p))) (set_url (text (with_query None p)) (located p q))); [by rewrite Et|done].
  - exists q. unfold query_text in H. destruct (querystr p) eqn:E; [cbn in H; lia|]. unfold with_query. rewrite <- E. by destruct p.
Qed.

Lemma encode_fits x n extra : Z.of_nat (length x) <= n → n < 2 ^ 30 →
  encode x (ucapacity (new_string (u32 (n * 3)))) extra = Ok (u_url_encode u_uri_encoded_char_mask extra x).
Proof.
  intros Hx Hn. unfold encode. rewrite u32_small by lia. pose proof (url_encode_bound u_uri_encoded_char_mask extra x) as [_ Hb].
  assert (Hc : n * 3 <= ucapacity (new_string (n * 3))).
  { unfold new_string, U_HOW_MUCH_PREALLOCATE. cbn [ucapacity]. rewrite Z.leb_refl. pose proof (create_room (n * 3)). destruct (_ <=? U_CAPACITY); done. }
  cbv zeta. destruct (Z.ltb_spec (ucapacity (new_string (n * 3))) (Z.of_nat (length (u_url_encode u_uri_encoded_char_mask extra x)))); [lia|done].
Qed.

Lemma last_char (l : list Z) x : rd (l ++ CH "?" :: x) (Z.of_nat (length (l ++ CH "?" :: x)) - 1) = Ok (default (CH "?") (last x)).
Proof.
  destruct x as [|c x] using rev_ind.
  - rewrite length_app. cbn [length last default]. replace (Z.of_nat (length l + 1) - 1) with (Z.of_nat (length l)) by lia. apply rd_nth_app.
  - rewrite last_snoc. cbn [default]. change (l ++ CH "?" :: x ++ [c]) with (l ++ (CH "?" :: x) ++ [c]). rewrite app_assoc, length_app. cbn [length].
    replace (Z.of_nat (length (l ++ CH "?" :: x) + 1) - 1) with (Z.of_nat (length (l ++ CH "?" :: x))) by lia. apply rd_nth_app.
Qed.

Lemma add_query name value : Z.of_nat (length name) < 2 ^ 30 → Z.of_nat (length (default [] value)) < 2 ^ 30 →
  addQuery name value (located p q) = Ok (located (with_query (Some (joined (default [] (querystr p)) ++ pair_text name value)) (prepared p)) q).
Proof.
  intros Hn Hv. unfold addQuery. rewrite prepare. cbn [mbind res_bind]. set (q0 := default [] (querystr p)).
  assert (Ev : match value with Some v => Z.of_nat (length v) | None => 0 end = Z.of_nat (length (default [] value))) by (by destruct value). rewrite Ev.
  set (n := if Z.of_nat (length name) <? Z.of_nat (length (default [] value)) then Z.of_nat (length (default [] value)) else Z.of_nat (length name)).
  assert (Hmax : Z.of_nat (length name) <= n ∧ Z.of_nat (length (default [] value)) <= n ∧ n < 2 ^ 30).
  { unfold n. destruct (Z.ltb_spec (Z.of_nat (length name)) (Z.of_nat (length (default [] value)))); lia. }
  destruct Hmax as (H1 & H2 & H3). rewrite encode_fits by done. cbn [mbind res_bind].
  unfold size. change (url (located (prepared p) q)) with (text (prepared p)). rewrite text_prepared. fold q0. cbn [app]. rewrite last_char. cbn [mbind res_bind].
  assert (Ej : (if negb (default (CH "?") (last q0) =? CH "?") then push_back (CH "&") (located (prepared p) q) else located (prepared p) q)
    = located (with_query (Some (joined q0)) (prepared p)) q).
  { assert (Ew : located (prepared p) q = located (with_query (Some q0) (prepared p)) q) by done. unfold joined. destruct (last q0) as [c|] eqn:El; cbn [default].
    - unfold id. destruct (c =? CH "?"); cbn [negb]; [done|]. unfold push_back. change (url (located (prepared p) q)) with (text (prepared p)).
      rewrite text_prepared, <- !app_assoc. apply set_url_query.
    - rewrite Z.eqb_refl. cbn [negb]. apply last_None in El. rewrite El in Ew. exact Ew. }
  rewrite Ej. clear Ej.
  assert (Eu : ∀ a t, set_url (url (located (with_query (Some a) (prepared p)) q) ++ t) (located (with_query (Some a) (prepared p)) q)
    = located (with_query (Some (a ++ t)) (prepared p)) q).
  { intros a t. change (url (located (with_query (Some a) (prepared p)) q)) with (text (with_query (Some a) (prepared p))).
    rewrite text_query. unfold query_text. cbn [querystr with_query]. rewrite <- app_assoc. apply (set_url_query (with_query (Some a) (prepared p)) (a ++ t)). }
  rewrite Eu. unfold pair_text. destruct value as [v|]; cbn [default] in H2; [|by rewrite app_nil_r].
  rewrite encode_fits by done. cbn [mbind res_bind]. unfold push_back. rewrite !Eu. by rewrite <- !app_assoc.
Qed.
End Operations.

Lemma user_id_plain x : CH ":" ∉ x → user_id x = x.
Proof.
  induction x as [|c x IH]; intros Hx; [done|]. apply not_elem_of_cons in Hx as [Hc Hx]. cbn [user_id].
  rewrite (proj2 (Z.eqb_neq c (CH ":"))) by done. by rewrite IH.
Qed.

Lemma form_char_ok extra c : extra = None ∨ extra = Some U_RFC2231 → is_byte c →
  bool_decide (c ∈ BS "*~") || bool_decide (url_encode_char u_uri_encoded_char_mask extra c = form_char c) = true.
Proof. intros [-> | ->] Hc; byte_check c. Qed.

(** The program encodes names and values as it is documented. *)
Lemma encode_documented extra x : extra = None ∨ extra = Some U_RFC2231 → encodable x →
  u_url_encode u_uri_encoded_char_mask extra x = form_encode x.
Proof.
  intros Hk (Hb & Hw & _). unfold without in Hw. induction Hb as [|c x Hc _ IH]; [done|]. apply Forall_cons in Hw as [Hw Hx].
  cbn [u_url_encode]. rewrite IH by done. pose proof (form_char_ok extra c Hk Hc) as H. rewrite (bool_decide_eq_false_2 _ Hw) in H.
  by apply bool_decide_eq_true in H as ->.
Qed.

Lemma add_query_documented p q name value : parts_ok p → uop_ok (AddQuery name value) p →
  addQuery name value (located p q) = Ok (located (spec_uop (AddQuery name value) p).1 q).
Proof.
  intros Hp (_ & Hn & Hv & Hen & Hev & Hl). rewrite add_query; [|done|apply Hen|apply Hev].
  assert (Ej : joined (default [] (querystr p)) = separated (default [] (querystr p))).
  { unfold joined, separated. destruct (default [] (querystr p)) as [|x y]; [done|]. destruct (last (x :: y)) as [c|] eqn:E; [|by apply last_None in E].
    by rewrite (proj2 (Z.eqb_neq c (CH "?"))) by congruence. }
  assert (Et : pair_text name value = entry_text name value).
  { unfold pair_text, entry_text. rewrite encode_documented by (by left || done). destruct value as [[|c v]|]; [done| |done].
    by rewrite encode_documented by (by right || done). }
  rewrite Ej, Et. by destruct name.
Qed.

(** ** Sequences of operations *)

Lemma uop_refines op p q : parts_ok p → uop_ok op p → ∃ q', run_uop op (located p q) = Ok (located (spec_uop op p).1 q', (spec_uop op p).2).
Proof.
  intros Hp [Hs Hop]. destruct op; cbn [run_uop spec_uop fst snd] in *.
  - destruct (set_service p q Hp x Hs) as [q' ->]. by exists q'.
  - destruct (set_user p q Hp x Hs) as [q' ->]. by exists q'.
  - destruct (set_host p q Hp x Hs) as [q' ->]. by exists q'.
  - destruct (Z.leb_spec n 0xFFFF) as [Hn|Hn]; cbn [fst snd] in *.
    + destruct (set_port p q Hp n Hn Hs) as [q' ->]. by exists q'.
    + exists q. unfold setPort. by rewrite (proj2 (Z.leb_gt n 0xFFFF)).
  - destruct (set_path p q Hp x Hs) as [q' ->]. by exists q'.
  - rewrite set_query_text by done. by exists q.
  - destruct (erase_query p q Hp) as [q' ->]. by exists q'.
  - rewrite add_query_documented by done. exists q. by destruct name.
  - rewrite get_service by done. by exists q.
  - rewrite get_user by done. rewrite user_id_plain by done. by exists q.
  - rewrite get_host by done. by exists q.
  - rewrite get_port; [by exists q|done|]. destruct (portno p) as [[|c x]|]; [done|apply Hop|done].
  - destruct Hop. rewrite get_path by done. by exists q.
  - rewrite get_query by done. by exists q.
  - rewrite get_path_and_query by done. exists q. destruct (pathname p); [|done]. destruct Hop as [Hop|Hop]; [done|].
    unfold query_text. by rewrite Hop.
  - rewrite is_path. by exists q.
  - rewrite is_query by done. by exists q.
Qed.

Fixpoint run_uops (ops : list uop) (u : Url) : res (Url * list uanswer) :=
  match ops with
  | [] => Ok (u, [])
  | op :: ops => r ← run_uop op u; r' ← run_uops ops r.1; Ok (r'.1, r.2 :: r'.2)
  end.

Fixpoint spec_uops (ops : list uop) (p : parts) : parts * list uanswer :=
  match ops with
  | [] => (p, [])
  | op :: ops => let r := spec_uop op p in let r' := spec_uops ops r.1 in (r'.1, r.2 :: r'.2)
  end.

Fixpoint uops_ok (ops : list uop) (p : parts) : Prop :=
  match ops with [] => True | op :: ops => uop_ok op p ∧ uops_ok ops (spec_uop op p).1 end.

Lemma uops_refine ops : ∀ p q, parts_ok p → uops_ok ops p →
  ∃ q', run_uops ops (located p q) = Ok (located (spec_uops ops p).1 q', (spec_uops ops p).2) ∧ parts_ok (spec_uops ops p).1.
Proof.
  induction ops as [|op ops IH]; intros p q Hp Hok; [by exists q|]. destruct Hok as [Hop Hok]. cbn [run_uops spec_uops].
  destruct (uop_refines op p q Hp Hop) as [q1 ->]. cbn [mbind res_bind fst snd].
  destruct (IH _ q1 (proj1 Hop) Hok) as (q2 & -> & H). cbn [mbind res_bind fst snd]. by exists q2.
Qed.

(** ** Names and values in the query *)

Lemma unescape_app n : ∀ x y t, (length x <= n)%nat → unescape x = Some t → unescape (x ++ y) = (r ← unescape y; Some (t ++ r)).
Proof.
  induction n as [|n IH]; intros x y t Hn Hx; (destruct x as [|c x]; [injection Hx as <-; cbn [app]; by destruct (unescape y)|]); [cbn in Hn; lia|].
  cbn [length] in Hn. cbn [unescape app] in *. destruct (c =? CH "+"); [|destruct (c =? CH "%")].
  - destruct (unescape x) as [r|] eqn:E; [|done]. injection Hx as <-. rewrite (IH x y r ltac:(lia) E). by destruct (unescape y).
  - destruct x as [|a [|b x]]; [done|done|]. cbn [app]. destruct ((a =? 0) || (b =? 0)); [done|]. destruct (unescape x) as [r|] eqn:E; [|done].
    injection Hx as <-. cbn [length] in Hn. rewrite (IH x y r ltac:(lia) E). by destruct (unescape y).
  - destruct (unescape x) as [r|] eqn:E; [|done]. injection Hx as <-. rewrite (IH x y r ltac:(lia) E). by destruct (unescape y).
Qed.

(** The two sets of further characters that are encoded. *)
Definition known (extra : option (list Z)) : Prop := extra = None ∨ extra = Some U_RFC2231.

Lemma encoded_char extra c : known extra → is_byte c →
  bool_decide (unescape (url_encode_char u_uri_encoded_char_mask extra c) = Some [c]) &&
  forallb (λ x, negb ((x =? CH "=") || (x =? CH "&") || (x =? CH "?"))) (url_encode_char u_uri_encoded_char_mask extra c) = true.
Proof. intros [->| ->] Hc; byte_check c. Qed.

Lemma unescape_encode extra s : known extra → bytes s → unescape (u_url_encode u_uri_encoded_char_mask extra s) = Some s ∧
  without (BS "=&?") (u_url_encode u_uri_encoded_char_mask extra s).
Proof.
  intros Hk. induction 1 as [|c s Hc _ [IH1 IH2]]; [split; [done|constructor]|]. cbn [u_url_encode].
  pose proof (encoded_char extra c Hk Hc) as H. apply andb_true_iff in H as [H1 H2]. apply bool_decide_eq_true in H1. split.
  - rewrite (unescape_app _ _ _ _ (le_n _) H1), IH1. done.
  - apply Forall_app. split; [|done]. rewrite forallb_forall in H2. apply Forall_forall. intros x Hx Hin. rewrite list_elem_of_In in Hx. apply H2 in Hx.
    rewrite list_elem_of_In in Hin. cbn in Hin. destruct Hin as [<-|[<-|[<-|[]]]]; done.
Qed.

Definition flat (pairs : list (list Z * list Z)) : list (list Z) := concat (map (λ nv, [nv.1; nv.2]) pairs).

(** The query that is made of names and values. *)
Definition pair_query (nv : list Z * list Z) : list Z := pair_text nv.1 (Some nv.2).

Definition pairs_text (pairs : list (list Z * list Z)) : list Z :=
  match pairs with [] => [] | nv :: pairs => pair_query nv ++ concat (map (λ nv, CH "&" :: pair_query nv) pairs) end.

Definition pair_ok (nv : list Z * list Z) : Prop :=
  nv.1 ≠ [] ∧ nv.2 ≠ [] ∧ bytes nv.1 ∧ bytes nv.2 ∧ Z.of_nat (length nv.1) < 2 ^ 30 ∧ Z.of_nat (length nv.2) < 2 ^ 30.

Lemma name_value_at a name value rest vec : bytes name → bytes value → match rest with [] => True | c :: _ => c = CH "&" end →
  Z.of_nat (length (a ++ pair_query (name, value) ++ rest)) < 2 ^ 32 →
  name_value_step (a ++ pair_query (name, value) ++ rest) [CH "&"] true (Z.of_nat (length a), vec)
  = Ok (match rest with
        | [] => inr (vec ++ [name; value])
        | _ => inl (Z.of_nat (length (a ++ pair_query (name, value))) + 1, vec ++ [name; value])
        end).
Proof.
  intros Hn Hv Hrest Hl. destruct (unescape_encode None name (or_introl eq_refl) Hn) as [Un Wn].
  destruct (unescape_encode (Some U_RFC2231) value (or_intror eq_refl) Hv) as [Uv Wv].
  unfold pair_query, pair_text in *. cbn [fst snd] in *.
  set (en := u_url_encode u_uri_encoded_char_mask None name) in *. set (ev := u_url_encode u_uri_encoded_char_mask (Some U_RFC2231) value) in *.
  assert (Hdec : ∀ b x c t, unescape x = Some t → 
    (if Z.of_nat (length x) =? 0 then Ok [] else decode (b ++ x ++ c) (Z.of_nat (length b)) (Z.of_nat (length x)) (ucapacity (new_string (Z.of_nat (length x))))) = Ok t).
  { intros b x c t Hx. destruct (Z.eqb_spec (Z.of_nat (length x)) 0) as [E|E]; [destruct x; [by injection Hx as <-|done]|].
    apply decode_part; [done|]. unfold new_string, U_HOW_MUCH_PREALLOCATE. cbn [ucapacity]. rewrite Z.leb_refl.
    pose proof (create_room (Z.of_nat (length x))). destruct (_ <=? U_CAPACITY); done. }
  unfold name_value_step. rewrite <- !app_assoc. cbn [app].
  rewrite find_found by (apply (without_not_in _ _ _ Wn); is_in).
  destruct (Z.ltb_spec (Z.of_nat (length a) + Z.of_nat (length en)) 0); [lia|]. rewrite Z.add_simpl_l, Hdec with (t := name) by done.
  cbn [mbind res_bind].
  assert (Ea : a ++ en ++ CH "=" :: ev ++ rest = (a ++ en ++ [CH "="]) ++ ev ++ rest) by (by rewrite <- !app_assoc).
  replace (Z.of_nat (length a) + Z.of_nat (length en) + 1) with (Z.of_nat (length (a ++ en ++ [CH "="]))) by lengths. rewrite Ea.
  set (b := a ++ en ++ [CH "="]) in *. destruct rest as [|c rest].
  - rewrite app_nil_r, find_none by (apply (without_not_in _ _ _ Wv); is_in). change (-1 <? 0) with true. cbv beta iota zeta.
    replace (Z.of_nat (length (b ++ ev)) - Z.of_nat (length b)) with (Z.of_nat (length ev)) by lengths.
    pose proof (Hdec b ev [] value Uv) as E. rewrite app_nil_r in E. rewrite E. done.
  - subst c. rewrite find_found by (apply (without_not_in _ _ _ Wv); is_in).
    destruct (Z.ltb_spec (Z.of_nat (length b) + Z.of_nat (length ev)) 0); [lia|]. rewrite Z.add_simpl_l, Hdec with (t := value) by done.
    cbn [mbind res_bind]. do 3 f_equal. unfold b. lengths.
Qed.

Lemma name_values pairs : ∀ a nv vec n, Forall pair_ok (nv :: pairs) → (length pairs < n)%nat → Z.of_nat (length (a ++ pairs_text (nv :: pairs))) < 2 ^ 32 →
  iterate n (name_value_step (a ++ pairs_text (nv :: pairs)) [CH "&"] true) (Z.of_nat (length a), vec) = Ok (vec ++ flat (nv :: pairs)).
Proof.
  induction pairs as [|nv2 pairs IH]; intros a nv vec n Hok Hn Hl; (destruct n as [|n]; [lia|]); apply Forall_cons in Hok as [(_ & _ & Hb1 & Hb2 & _) Hok];
    cbn [iterate]; cbn [pairs_text map concat] in Hl |- *; destruct nv as [name value]; rewrite name_value_at by done.
  - cbn. done.
  - cbn [app]. assert (Et : a ++ pair_query (name, value) ++ CH "&" :: pair_query nv2 ++ concat (map (λ nv, CH "&" :: pair_query nv) pairs)
      = (a ++ pair_query (name, value) ++ [CH "&"]) ++ pairs_text (nv2 :: pairs)) by (cbn [pairs_text]; by rewrite <- !app_assoc).
    cbn [app] in Hl. rewrite Et in *. replace (Z.of_nat (length (a ++ pair_query (name, value))) + 1) with (Z.of_nat (length (a ++ pair_query (name, value) ++ [CH "&"]))) by lengths.
    rewrite IH; [|done|cbn in Hn; lia|done]. by rewrite <- app_assoc.
Qed.

Lemma query_free nv : pair_ok nv → without (BS "?") (pair_query nv).
Proof.
  intros (_ & _ & H1 & H2 & _). destruct (unescape_encode None nv.1 (or_introl eq_refl) H1) as [_ W1]. destruct (unescape_encode (Some U_RFC2231) nv.2 (or_intror eq_refl) H2) as [_ W2].
  unfold pair_query, pair_text. apply Forall_app. split; [|constructor]; [| |].
  - eapply Forall_impl; [exact W1|]. cbn. intros c Hc Hin. apply Hc. revert Hin. clear. rewrite !list_elem_of_In. cbn. tauto.
  - rewrite list_elem_of_In. cbn. lia.
  - eapply Forall_impl; [exact W2|]. cbn. intros c Hc Hin. apply Hc. revert Hin. clear. rewrite !list_elem_of_In. cbn. tauto.
Qed.

Lemma joined_plain x : x ≠ [] → without (BS "?") x → joined x = x ++ [CH "&"].
Proof.
  intros Hne Hx. destruct x as [|c x _] using rev_ind; [done|]. unfold joined. rewrite last_snoc. apply Forall_app in Hx as [_ Hc]. apply Forall_cons in Hc as [Hc _].
  destruct (Z.eqb_spec c (CH "?")) as [->|]; [|done]. destruct Hc. is_in.
Qed.

Definition add_pair (x : list Z) (nv : list Z * list Z) : list Z := joined x ++ pair_query nv.

Lemma pair_query_nonempty nv : pair_query nv ≠ [].
Proof. unfold pair_query, pair_text. by destruct (u_url_encode _ None nv.1). Qed.

Lemma add_pairs_text pairs : ∀ x, x ≠ [] → without (BS "?") x → Forall pair_ok pairs →
  fold_left add_pair pairs x = x ++ concat (map (λ nv, CH "&" :: pair_query nv) pairs).
Proof.
  induction pairs as [|nv pairs IH]; intros x Hne Hx Hok; cbn [fold_left map concat]; [by rewrite app_nil_r|]. apply Forall_cons in Hok as [Hnv Hok].
  unfold add_pair at 2. rewrite joined_plain by done.
  assert (Hw : without (BS "?") ((x ++ [CH "&"]) ++ pair_query nv)).
  { unfold without. rewrite !Forall_app. splits; [done| |by apply query_free]. repeat constructor. rewrite list_elem_of_In. cbn. lia. }
  rewrite IH; [by rewrite <- !app_assoc|by destruct x|done|done].
Qed.

Lemma joined_length x : (length x <= length (joined x))%nat.
Proof. unfold joined. destruct (last x) as [c|] eqn:E; [|apply last_None in E; by subst]. destruct (c =? CH "?"); [lia|rewrite length_app; lia]. Qed.

Lemma add_pairs_length pairs : ∀ x, (length x <= length (fold_left add_pair pairs x))%nat.
Proof.
  induction pairs as [|nv pairs IH]; intros x; cbn [fold_left]; [lia|]. specialize (IH (add_pair x nv)). unfold add_pair in *. rewrite length_app in *.
  pose proof (joined_length x). lia.
Qed.

Lemma text_query_length p x : Z.of_nat (length (text (with_query (Some x) p))) = Z.of_nat (length (pre_query p)) + 1 + Z.of_nat (length x).
Proof. rewrite text_query. change (pre_query (with_query (Some x) p)) with (pre_query p). unfold query_text. cbn [querystr with_query]. lengths. Qed.

(** Another query of a locator with a path. *)
Lemma query_parts_ok p x : parts_ok p → pathname p ≠ [] → Z.of_nat (length (text (with_query (Some x) p))) < 2 ^ 31 → parts_ok (with_query (Some x) p).
Proof.
  intros (H1 & H2 & H3 & H4 & H5 & _ & _) Hne Hl. refine (conj H1 (conj H2 (conj H3 (conj H4 (conj H5 (conj _ Hl)))))). intros y E _. by destruct Hne.
Qed.

Lemma add_queries_pairs pairs : ∀ p q x, parts_ok p → querystr p = Some x → pathname p ≠ [] → Forall pair_ok pairs →
  Z.of_nat (length (text (with_query (Some (fold_left add_pair pairs x)) p))) < 2 ^ 31 →
  add_queries (flat pairs) (located p q) = Ok (located (with_query (Some (fold_left add_pair pairs x)) p) q).
Proof.
  induction pairs as [|nv pairs IH]; intros p q x Hp Hx Hne Hok Hl; cbn [fold_left] in *.
  - cbn. rewrite <- Hx. by destruct p.
  - apply Forall_cons in Hok as [Hnv Hok]. change (flat (nv :: pairs)) with (nv.1 :: nv.2 :: flat pairs). cbn [add_queries].
    destruct Hnv as (_ & _ & _ & _ & Hl1 & Hl2). rewrite (add_query p q Hp nv.1 (Some nv.2)) by done. cbn [mbind res_bind]. rewrite Hx. cbn [default].
    assert (Epr : ∀ y, with_query (Some y) (prepared p) = with_query (Some y) p) by (intros y; unfold prepared, with_query, with_path; cbn; by destruct (pathname p)).
    rewrite Epr. change (joined (id x) ++ pair_text nv.1 (Some nv.2)) with (add_pair x nv). rewrite (IH _ q (add_pair x nv)); [done| |done|done|done|done].
    apply query_parts_ok; [done|done|]. rewrite text_query_length in *. pose proof (add_pairs_length pairs (add_pair x nv)). lia.
Qed.

(** ** The theorems *)

Definition run_url (x : list Z) (ops : list uop) : res (Url * list uanswer) := u ← set x; run_uops ops u.

(** C9: A locator of the documented form is the record of its parts: from its text every part is found, and any
    sequence of operations - setting the service, the user, the host, the port, the path and the query, adding to
    the query and erasing it, and reading each part - does what is documented on the record, without a fault.
    Left out ([uop_ok]) are the arguments for which the code does something else than its documentation says,
    shown at the end of the file: adding an empty name or value, or one with an asterisk or a tilde, or to a query
    that ends with a question mark; setting a query that begins with one; reading a user with a password, a
    port that is none, a path that is too long, and the query of a locator without path together with it. *)
Theorem url_refines_parts p ops : parts_ok p → uops_ok ops p →
  ∃ u, run_url (text p) ops = Ok (u, (spec_uops ops p).2) ∧ represents u (spec_uops ops p).1.
Proof.
  intros Hp Hops. unfold run_url, set. rewrite findpos_text by done. cbn [mbind res_bind].
  destruct (uops_refine ops p (path_end (located p 0)) Hp Hops) as (q' & -> & H). eexists. split; [done|]. split; [done|]. by exists q'.
Qed.

Definition sample_parts : parts := Parts (BS "http") None (BS "www.elcel.com") (Some (BS "81")) [] None.

Definition sample_uops : list uop :=
  [SetUser (BS "me"); GetPort; SetPath (BS "a%20b"); AddQuery (BS "q") (Some (BS "x&y")); AddQuery (BS "r s") None; GetPath; GetQuery;
   SetPort 8080; SetHost (BS "[::1]"); SetService (BS "https"); GetHost; GetPathAndQuery; EraseQuery; IsQuery; GetUser].

Definition sample_end : parts := Parts (BS "https") (Some (BS "me")) (BS "[::1]") (Some (BS "8080")) (BS "/a%20b") None.

Ltac check := apply (bool_decide_eq_true_1 _); vm_compute; reflexivity.

Lemma parts_check p : scheme_ok (scheme p) → (match username p with Some x => user_ok x | None => True end) → host_ok (hostname p) →
  (match portno p with Some x => Forall digit x | None => True end) → path_ok (pathname p) →
  (pathname p ≠ [] ∨ match querystr p with Some x => without (BS "/") x | None => True end) → Z.of_nat (length (text p)) < 2 ^ 31 → parts_ok p.
Proof.
  intros H1 H2 H3 H4 H5 H6 H7. refine (conj H1 (conj _ (conj H3 (conj _ (conj H5 (conj _ H7)))))).
  - intros x E. by rewrite E in H2.
  - intros x E. by rewrite E in H4.
  - intros x Hx E. rewrite E in H6. by destruct H6.
Qed.

#[local] Instance digit_dec c : Decision (digit c).
Proof. unfold digit. apply _. Defined.

Ltac parts_tac :=
  apply parts_check;
  [split; [done|check] | first [exact I | split; [done|check]]
  | split; [check|first [left; split; [done|check] | right; exists (BS "::1"); split; [done|check]]]
  | first [exact I | check] | split; [first [exact I | reflexivity]|check] | first [left; done | right; first [exact I | check]] | vm_compute; reflexivity].

Lemma sample_parts_ok : parts_ok sample_parts.
Proof. parts_tac. Qed.

#[local] Instance encodable_dec x : Decision (encodable x).
Proof. unfold encodable. apply _. Defined.

Lemma sample_uops_ok : uops_ok sample_uops sample_parts.
Proof.
  cbn [sample_uops uops_ok]. repeat match goal with |- _ ∧ _ => split end; lazymatch goal with
  | |- uop_ok _ _ => split; [parts_tac|cbv beta iota zeta; splits; first [exact I | done | check | lia | left; done | cbn; lia]]
  | |- True => exact I
  end.
Qed.

Lemma url_refines_parts_witness : ∃ u, run_url (text sample_parts) sample_uops = Ok (u, (spec_uops sample_uops sample_parts).2) ∧ represents u sample_end.
Proof. apply (url_refines_parts sample_parts sample_uops); [apply sample_parts_ok|apply sample_uops_ok]. Defined.


Definition sample_pairs : list (list Z * list Z) := [(BS "name", BS "me & you"); ([0; 255], [255; 10]); (BS "=?", BS "*~")].

#[local] Instance pair_ok_dec nv : Decision (pair_ok nv).
Proof. unfold pair_ok. apply _. Defined.


(** ** Where the code does something else *)

Definition text_after (x : list Z) (f : Url → res Url) : res (list Z) := u ← set x; u ← f u; Ok (url u).

(** A slash in the query of a locator without path is taken for the path. *)
Lemma query_without_path : (u ← set (BS "http://www.h.org?x=/1"); getHost u) = Ok (BS "www.h.org?x=").
Proof. by vm_compute. Qed.

(** The forms without two slashes that the header lists have no parts at all. *)
Lemma forms_without_slashes : map (λ x, u ← set (BS x); h ← getHost u; Ok (h, isPath u)) ["host"; "/path"; "host:80/path"; "service:/path"]%string
  = replicate 4 (Ok ([], false)).
Proof. by vm_compute. Qed.

(** The end of the user is given where its length is asked for: more than the user is erased. *)
Lemma erase_user_erases_host : text_after (BS "http://me@www.h.org/path") eraseUser = Ok (BS "http://rg/path").
Proof. by vm_compute. Qed.

(** A service is put in front of two slashes with two more. *)
Lemma service_of_relative : text_after (BS "//www.h.org/path") (setService (BS "http")) = Ok (BS "http:////www.h.org/path").
Proof. by vm_compute. Qed.

(** The question mark of the argument is left out, its length is not: one byte more is taken. *)
Lemma set_query_question : text_after (BS "http://h.org/p") (λ u, r ← setQuery (BS "?a=b" ++ [0]) 4 u; Ok r.1) = Ok (BS "http://h.org/p?a=b" ++ [0]).
Proof. by vm_compute. Qed.

(** Names and values are added to the query that is there. *)
Lemma set_query_adds : text_after (BS "http://h.org/p?a=b") (λ u, r ← setQuery_vec [BS "c"; BS "d"] u; Ok r.1) = Ok (BS "http://h.org/p?a=b&c=d").
Proof. by vm_compute. Qed.

(** An empty name adds a separator, an empty value the sign of equality: nothing and only the name are documented. *)
Lemma add_empty_name : text_after (BS "http://h.org/p?a=b") (addQuery [] None) = Ok (BS "http://h.org/p?a=b&").
Proof. by vm_compute. Qed.

Lemma add_empty_value : text_after (BS "http://h.org/p") (addQuery (BS "a") (Some [])) = Ok (BS "http://h.org/p?a=").
Proof. by vm_compute. Qed.

(** After a question mark at the end of the query no separator is added. *)
Lemma add_after_question : text_after (BS "http://h.org/p?a?") (addQuery (BS "b") None) = Ok (BS "http://h.org/p?a?b").
Proof. by vm_compute. Qed.

(** The asterisk, documented to remain as it is, is encoded, and the tilde is not. *)
Lemma add_asterisk : text_after (BS "http://h.org/p") (addQuery (BS "*~") None) = Ok (BS "http://h.org/p?%2A~").
Proof. by vm_compute. Qed.

(** The password is given with the identifier of the user. *)
Lemma user_with_password : (u ← set (BS "http://me:pw@h.org/p"); getUser u) = Ok (BS "me:pw").
Proof. by vm_compute. Qed.

(** The query of a locator without path is not given with the path. *)
Lemma query_lost : (u ← set (BS "http://h.org?a=b"); getPathAndQuery u) = Ok (BS "/").
Proof. by vm_compute. Qed.

(** A number beyond the ports is given, one of more than five digits taken for none. *)
Lemma port_beyond : (u ← set (BS "http://h.org:70000/"); getPort u) = Ok 70000 ∧ (u ← set (BS "http://h.org:008080/"); getPort u) = Ok 80.
Proof. by vm_compute. Qed.

(** A long path is decoded behind the end of the buffer. *)
Lemma long_path_overflow : (u ← set (BS "http://h.org/" ++ replicate 4072 (CH "x")); getPath u) = Fail OutOfBounds.
Proof. by vm_compute. Qed.
